(* ===== verification/_CoqProject ===== *)
-Q . S2P
Prelude.v
Mem.v
Kstring.v
Pmm.v
FrameRef.v
Vmm.v
VmmSpec.v
VmmMap.v
PageCache.v
PageCacheLinks.v
PageCacheInv.v
PageCacheOps.v
PageCacheFetch.v
PageCacheWrite.v
PageCacheFlush.v
PageCacheSafe.v
Heap.v
HeapSpec.v
HeapClient.v
CList.v
CListHeap.v
Sched.v
SchedOps.v
SchedInv.v
SchedSafe.v
SchedCalm.v
Cgroup.v
CgroupFs.v
CgroupSpec.v
CgroupInv.v
CgroupSafe.v
CgroupText.v
CgroupMem.v
Seccomp.v
Signal.v
Crypto.v
CryptoSpec.v
AesSpec.v
Gzip.v
GzipSpec.v
GzipSafe.v
GzipRound.v
Lifecycle.v
LifecycleInv.v
LifecycleSafe.v
LifecycleDemo.v
LifecycleProps.v
LifecycleSpec.v
LifecycleEnv.v
Net.v
Tcp.v
TcpSeg.v
TcpState.v
TcpStream.v
TcpConn.v
TcpOpen.v
TcpTimer.v
TcpMachine.v
