(* ===== verification/Prelude.v ===== *)
(** * GNOS verification development

    GNOS is an x86-64 kernel written in C (src/src).  This library models the
    parts of it that carry their own logic, one file or group of files per
    component, as executable Rocq definitions translated function by function,
    and proves what makes them correct.  Paths below are relative to src/src.

    ** The parts and how they interact

    - lib/kstring.c, the memory and string primitives everything else calls:
      [Kstring], over the byte memory of [Mem].
    - mm/pmm.c, the bitmap allocator of physical frames: [Pmm].
    - mm/vmm.c, address spaces: [FrameRef] is the hash table that counts the
      entries pointing at a shared frame; [Vmm] is the page tables in byte
      memory, reached through the direct map, with every operation that changes
      them, and kernel/cgroup/cgroup_mem.c, which they charge; [VmmSpec] is the
      invariant and the walk, [VmmMap] the operations.  They take their frames
      from [Pmm] and give them back to it.
    - mm/heap.c, kmalloc and kfree: [Heap] (model and invariant), [HeapSpec]
      (each operation), [HeapClient] (the contract its clients rely on).  Its
      region comes from [Pmm].
    - mm/pagecache.c, the write-back cache between file systems and block
      devices: [PageCache] is the model, over a class of device drivers and the
      frames of [Pmm]; [PageCacheLinks] says what the hash chains and recency
      lists represent, [PageCacheInv] is the invariant with the logical content
      of the devices, [PageCacheOps], [PageCacheFetch], [PageCacheWrite] and
      [PageCacheFlush] its preservation, [PageCacheSafe] what callers get.
    - lib/list/circular_list.c: [CList] states the operations and theorems
      against a class of node stores with its laws, [CListHeap] shows that the
      kernel heap is such a store.
    - kernel/proc.c (and kernel/cgroup/cgroup_cpu.c), the scheduler: [Sched] is
      the process table, the run queues and EEVDF; [SchedOps] the entry points
      (dispatch, block, wake, tick, timeouts, stop, signals, slots) and the CPU
      controller they charge; [SchedInv] the invariant and [SchedSafe] its
      preservation by every entry point and what each achieves; [SchedCalm]
      what they all leave alone.
    - kernel/proc.c, the life of a process: [Lifecycle] is fork, clone, kernel
      threads, exit, waitpid and the futex wakeups, over the state of [SchedOps]
      and a class [ProcEnv] of the address-space and control-group operations
      they call; [LifecycleEnv] is its instance over [Vmm] and [Cgroup].
      [LifecycleInv] is the invariant of the table, [LifecycleSafe] its
      preservation, [LifecycleProps] and [LifecycleSpec] what fork, exit and
      waitpid achieve, [LifecycleDemo] concrete runs.
    - net/ipv4/tcp.c: [Net] is what it takes from net/net.c (the accessors, the
      checksum, source addresses), [Tcp] the whole file.  [TcpSeg] has the
      segments, sequence numbers and rings, [TcpState] the states and the types
      of the blocks, [TcpStream] the invariants of a sending and a receiving
      end, [TcpConn] two hosts and the network between them, [TcpOpen] the
      handshake that brings the two ends there, [TcpTimer] the timers and the
      ends of a stream, [TcpMachine] the state diagram, event by event.  The rings are pages of [Pmm] in the memory of [Mem].
    - kernel/cgroup/cgroup.c and cgroup_fs.c, the control-group tree: [Cgroup] is
      the pool, the membership of tasks and the weights, [CgroupFs] the mounted
      tree (paths, control files, mkdir, rmdir); [CgroupSpec] is the invariant
      and the counting, [CgroupInv] its preservation, [CgroupSafe] what the tree
      guarantees the scheduler and its users, [CgroupText] the text interface,
      [CgroupMem] the memory controller over the tree.
    - kernel/seccomp.c: [Seccomp], the BPF interpreter and the calls that
      install and enforce filters.
    - kernel/signal.c: [Signal], delivery to and return from handlers through a
      frame on the user stack.
    - crypto/crypto.c: [Crypto]; [CryptoSpec] has SHA-256 and CRC-32 against
      reference definitions, [AesSpec] the cipher.
    - lib/gzip.c: [Gzip]; [GzipSpec] has the bit stream and the canonical
      Huffman code, [GzipSafe] safety on every input, [GzipRound] the round
      trip with an encoder.

    This file holds what they share: machine integers, error numbers, the
    result monad, tactics and list lemmas.

    ** How code becomes definitions

    A w-bit integer is a [Z] with its wrap-around written out ([u8] .. [u64],
    signed readings [s16] .. [s64]).  Memory that the code reaches through
    pointers is a total function from addresses to bytes, with little-endian
    loads and stores; so block headers, list nodes, signal frames and page
    tables lie where the code puts them.  Tables indexed by a number are
    functions or lists with the source's bounds.  State is passed explicitly;
    fallible code returns an option, [res] (with [Panic] for panic and for a
    loop that leaves its fuel) or, in Gzip, [out] (with [Stuck] for an access
    out of range).  The run queue's treap, linked through the processes in the
    source, is an inductive tree.  An operation that runs under its lock in the
    source is one step here; interleavings of the scheduler are arbitrary
    sequences of such steps.  Where a task sleeps in the middle of a call, as in
    waitpid, each turn of its loop is a step of its own.

    The step relations leave some things out that the code allows and that break
    what is proved of the rest.  [sched_step] and [kstep] run on cores 0 to 3, as
    many as there are run queues (the code starts up to 16 cores and files the
    tasks of the others on wrong queues), and no task kills one that is running.
    [kstep] has exit_group and execve only by the leader of a thread group, and
    [sched_block] as one step although it releases the big kernel lock before it
    marks its caller blocked; [waitpid_never_misses] states what is lost
    otherwise.  [link_step] keeps the two blocks in use, lets the writer close
    only after it has written something, and delivers a segment with data and
    FIN only where the data fits.  Each of these is shown on a concrete state or
    listed with the findings.

    Callbacks and debug output leave a log or no
    trace; TLB maintenance, the FPU registers and CR3 are not part of the state.

    What the code gets from outside is an argument: the direct-map offset, the
    return address pmm_free logs, the clock, and in [Signal] the check of user
    buffers ([user_buf_ok], modelled in [Vmm] over the page tables).  The page
    cache calls its drivers through function pointers: [BlockDev] is their
    interface and [BlockDevOk] what it relies on, met by a concrete store.  An
    exit is given the tasks that closing its files and undoing its semaphores
    wake.  Datagrams are appended to a list; the network of [TcpConn] delivers
    any of those sent, any number of times and in any order.

    ** Fuel and bounds

    Loops that are not structurally recursive take fuel, and no theorem excuses
    running out of it: the free-list walk of kmalloc gets as many steps as
    blocks fit in the heap ([walk_fuel]); walks along the parent or sibling
    links of control groups get 512, the number of slots; walks of the page
    cache one more than its 4096 descriptors, reads and writes the pages of the
    request; the release of parked
    tasks twice the size of the process table; a BPF program as many ticks as
    the interpreter allows; SHA-256 updates the number of bytes; the Huffman
    loops the bits left in the input; list operations the length of the list.
    Page-table walks have their four levels.  Folding a checksum takes the two
    rounds a 32-bit sum needs; the option loop of Tcp gets the length of the
    header, the search for a port the 16383 rounds the code makes.  The theorems
    about pids assume that fewer than 2^31 have been given out, since the counter
    of the code wraps there.

    ** What the theorems show

    - Heap: a program of allocations, writes and frees behaves like a finite map
      from pointers to contents, and each call is characterised on every branch.
    - Scheduler: an invariant over the process table, the queues and the CPUs
      holds in every state reachable by these steps; a CPU never idles when
      a task is queued for it or can be taken from another; waking takes effect;
      the pick is the eligible task with the earliest deadline; the treap is a
      sorted list; quota periods roll over exactly.
    - Processes: in every state these steps reach from boot, slots, busy bits and
      pids agree, and a parent is never left asleep in waitpid while a child it
      waits for is a zombie (the two cases left out, which do lose the wakeup, are
      part of that theorem); the status of an exit reaches the parent that waits; fork and
      a turn of waitpid are characterised on every branch.
    - TCP: whatever the network loses, repeats or reorders, the reader gets a
      prefix of what the writer wrote (but for its first byte, which the code
      never sends, and with one byte more that stands for the FIN); the handshake
      synchronises two hosts, other blocks in use and children already queued
      notwithstanding; every event takes every block exactly where the diagram
      of RFC 793 leads, and keeps the fields within their widths; a silent peer
      is sent to at exactly the doubled timeouts and given up at the sixth;
      segments read back as built, and
      the checksum is the one of RFC 1071.
    - Address spaces: over any set of well-formed trees, mapping installs one
      translation, with the rights of all four levels as the processor combines
      them, and leaves all others; breaking a copy-on-write page gives a private
      copy with the same bytes; fork of a page makes both sides share it
      read-only and reachable from user mode.  Each fails only when memory or the
      reference table is exhausted, and what failure leaves is stated too.  The reference table is a finite
      map from frames to counts.
    - Page cache: whatever the drivers do, a run changes the content of the
      devices that readers see exactly by the bytes that writes reported; reads
      return that content while the pool has room for a readahead window; a
      flush or invalidate that returns 0 has put it on the device.
    - Control groups: every history of operations keeps the links a tree and the
      counters exact; a task is admitted or moved only where every limit above
      allows it; the effective weight is the clamped product of the shares on the
      path; memory is charged all or nothing; numbers read back as written.
    - Signals: return restores the interrupted context, and can never raise the
      privileges of the context it restores.
    - seccomp: the interpreter stops, installed filters are not removed, actions
      and calls have the stated results.
    - Frames: allocation finds the lowest free frame or run, freeing undoes it,
      the boot bitmap has exactly the usable frames free.
    - Lists: every operation implements its list function on the kernel heap.
    - Crypto: streaming SHA-256 is the hash of the padded message, CRC-32 is the
      bit-serial register, decryption inverts encryption.
    - gzip: no input makes the decompressor read or write out of bounds or loop;
      decoding inverts encoding for stored and fixed blocks; the table decoder
      inverts the canonical code.
    - Some theorems prove that the code does something it does not mean to (a
      double free that overlaps blocks, tasks left parked, a wrapped bound, a
      handler that cannot return, a read that delivers another page, a lost
      wakeup, bytes sent that nobody wrote): the manifest's findings list what
      was found, with or without such a theorem.

    ** Not modelled

    Device drivers, sound and the file systems (their logic is spread over
    I/O); networking other than TCP, that is sockets, UDP, ARP, fragments and
    local and netlink sockets; of kernel/proc.c the image execve builds, the loop
    that delivers signals on the way to user mode, priority inheritance and the
    context switch itself; kernel/syscall.c, which composes the components above;
    the boot and interrupt code in assembly; mm/slab.c and ipc/sysvipc.c;
    vendored code and user programs.  Of mm/vmm.c: building the kernel's own
    tables at boot, the self test and the debug dumps. *)
From stdpp Require Export base numbers list gmap.
From Stdlib Require Export ZArith Lia Bool.
From Stdlib Require String Ascii.

#[global] Open Scope Z_scope.

(** ** Machine integers *)

Definition u8 (x : Z) : Z := x mod 2 ^ 8.
Definition u16 (x : Z) : Z := x mod 2 ^ 16.
Definition u32 (x : Z) : Z := x mod 2 ^ 32.
Definition u64 (x : Z) : Z := x mod 2 ^ 64.

(** Two's-complement reading of the low [w] bits. *)
Definition sgn (w x : Z) : Z :=
  let m := x mod 2 ^ w in if m <? 2 ^ (w - 1) then m else m - 2 ^ w.
Definition s16 (x : Z) : Z := sgn 16 x.
Definition s32 (x : Z) : Z := sgn 32 x.
Definition s64 (x : Z) : Z := sgn 64 x.

(** Bitwise complement at a width. *)
Definition not32 (x : Z) : Z := u32 (Z.lnot x).
Definition not64 (x : Z) : Z := u64 (Z.lnot x).

(** ** Error numbers (fs/vfs.h) *)

Definition E_PERM := 1.
Definition E_NOENT := 2.
Definition E_SRCH := 3.
Definition E_INTR := 4.
Definition E_2BIG := 7.
Definition E_AGAIN := 11.
Definition E_NOMEM := 12.
Definition E_ACCES := 13.
Definition E_FAULT := 14.
Definition E_BUSY := 16.
Definition E_EXIST := 17.
Definition E_NOTDIR := 20.
Definition E_ISDIR := 21.
Definition E_INVAL := 22.
Definition E_NFILE := 23.
Definition E_MFILE := 24.
Definition E_NOSPC := 28.
Definition E_ROFS := 30.
Definition E_RANGE := 34.
Definition E_NOSYS := 38.
Definition E_MSG := 42.
Definition E_IDRM := 43.
Definition E_KILLED := 256.

Definition PAGE_SIZE := 4096.

(** The bytes of a C string literal. *)
Definition chars (s : String.string) : list Z :=
  List.map (fun c => Z.of_nat (Ascii.nat_of_ascii c)) (String.list_ascii_of_string s).

(** ** Arrays

    A C array is a list; reading out of range yields the default the caller
    names, and the theorems show that the code never does. *)

Definition aget {A} (d : A) (l : list A) (i : Z) : A :=
  if i <? 0 then d else nth (Z.to_nat i) l d.
Definition aset {A} (l : list A) (i : Z) (x : A) : list A :=
  if i <? 0 then l else <[Z.to_nat i := x]> l.
Definition alen {A} (l : list A) : Z := Z.of_nat (length l).

(** A table changed at one index. *)
Definition upd {A} (f : Z -> A) (i : Z) (x : A) : Z -> A := fun j => if j =? i then x else f j.

(** ** Results of code that may call [panic] *)

Inductive res (A : Type) : Type :=
| Ok (a : A)
| Panic.
Arguments Ok {A} a.
Arguments Panic {A}.

Definition rbind {A B} (x : res A) (f : A -> res B) : res B :=
  match x with Ok a => f a | Panic => Panic end.

Declare Scope gnos_scope.
Delimit Scope gnos_scope with gnos.
Notation "'do' x <- m ; k" := (rbind m (fun x => k))
  (at level 200, x pattern, m at level 100, k at level 200) : gnos_scope.
#[global] Open Scope gnos_scope.

(** ** Proof automation *)

Ltac inv H := inversion H; subst; clear H.

Ltac bdestruct_step :=
  match goal with
  | |- context [?a =? ?b] => destruct (Z.eqb_spec a b)
  | |- context [?a <? ?b] => destruct (Z.ltb_spec a b)
  | |- context [?a <=? ?b] => destruct (Z.leb_spec a b)
  | H : context [?a =? ?b] |- _ => destruct (Z.eqb_spec a b)
  | H : context [?a <? ?b] |- _ => destruct (Z.ltb_spec a b)
  | H : context [?a <=? ?b] |- _ => destruct (Z.leb_spec a b)
  end.
Ltac bdestr := repeat bdestruct_step.

(** ** Generic lemmas *)

Lemma u64_small x : 0 <= x < 2 ^ 64 -> u64 x = x.
Proof. intros. unfold u64. now apply Z.mod_small. Qed.
Lemma u32_small x : 0 <= x < 2 ^ 32 -> u32 x = x.
Proof. intros. unfold u32. now apply Z.mod_small. Qed.
Lemma u8_small x : 0 <= x < 2 ^ 8 -> u8 x = x.
Proof. intros. unfold u8. now apply Z.mod_small. Qed.
Lemma u64_range x : 0 <= u64 x < 2 ^ 64.
Proof. apply Z.mod_pos_bound. lia. Qed.
Lemma u32_range x : 0 <= u32 x < 2 ^ 32.
Proof. apply Z.mod_pos_bound. lia. Qed.
Lemma u8_range x : 0 <= u8 x < 2 ^ 8.
Proof. apply Z.mod_pos_bound. lia. Qed.

Create HintDb gnos.
#[export] Hint Resolve u64_range u32_range u8_range : gnos.

Lemma alen_app {A} (l1 l2 : list A) : alen (l1 ++ l2) = alen l1 + alen l2.
Proof. unfold alen. rewrite length_app. lia. Qed.
Lemma alen_aset {A} (l : list A) i x : alen (aset l i x) = alen l.
Proof. unfold alen, aset. case_match; auto. now rewrite length_insert. Qed.

Lemma aget_aset_eq {A} (d : A) l i x :
  0 <= i < alen l -> aget d (aset l i x) i = x.
Proof.
  unfold aget, aset, alen. intros H. bdestr; try lia.
  rewrite nth_lookup, list_lookup_insert_eq; [done | lia].
Qed.

Lemma aget_aset_ne {A} (d : A) l i j x :
  i <> j -> aget d (aset l i x) j = aget d l j.
Proof.
  unfold aget, aset. intros H. bdestr; auto.
  rewrite !nth_lookup, list_lookup_insert_ne; [done | lia].
Qed.

Lemma aget_aset {A} (d : A) l i j x :
  0 <= i < alen l ->
  aget d (aset l i x) j = if i =? j then x else aget d l j.
Proof.
  intros. destruct (Z.eqb_spec i j) as [->|].
  - now apply aget_aset_eq.
  - now apply aget_aset_ne.
Qed.

Lemma upd_eq {A} (f : Z -> A) i x : upd f i x i = x.
Proof. unfold upd. by rewrite Z.eqb_refl. Qed.
Lemma upd_ne {A} (f : Z -> A) i x j : j <> i -> upd f i x j = f j.
Proof. unfold upd. destruct (Z.eqb_spec j i); done. Qed.

Lemma testbit_high x w i : 0 <= x < 2 ^ w -> w <= i -> Z.testbit x i = false.
Proof.
  intros Hx Hi. destruct (Z.eq_dec x 0) as [->|]; [apply Z.testbit_0_l|].
  apply Z.bits_above_log2; [lia|].
  apply Z.log2_lt_pow2; [lia|].
  eapply Z.lt_le_trans; [apply Hx|].
  apply Z.pow_le_mono_r; lia.
Qed.

Lemma range_of_testbit x w :
  0 <= w -> 0 <= x -> (forall i, w <= i -> Z.testbit x i = false) -> 0 <= x < 2 ^ w.
Proof.
  intros Hw Hx H. split; [done|].
  destruct (Z.eq_dec x 0) as [->|]; [lia|].
  apply Z.log2_lt_pow2; [lia|].
  destruct (Z.lt_ge_cases (Z.log2 x) w) as [|Hge]; [done|].
  specialize (H _ Hge). rewrite Z.bit_log2 in H by lia. done.
Qed.

(** ** Two's complement at 64 bits *)

Lemma s64_mod x : s64 x mod 2 ^ 64 = x mod 2 ^ 64.
Proof.
  unfold s64, sgn. change (64 - 1) with 63. destruct (Z.ltb_spec (x mod 2 ^ 64) (2 ^ 63)).
  - by rewrite Z.mod_mod.
  - replace (x mod 2 ^ 64 - 2 ^ 64) with (x mod 2 ^ 64 + -1 * 2 ^ 64) by lia.
    by rewrite Z.mod_add, Z.mod_mod.
Qed.

Lemma s64_cong x y : x mod 2 ^ 64 = y mod 2 ^ 64 -> s64 x = s64 y.
Proof. intros H. unfold s64, sgn. by rewrite H. Qed.

Lemma s64_range x : - 2 ^ 63 <= s64 x < 2 ^ 63.
Proof.
  unfold s64, sgn. change (64 - 1) with 63. pose proof (Z.mod_pos_bound x (2 ^ 64)).
  destruct (Z.ltb_spec (x mod 2 ^ 64) (2 ^ 63)); lia.
Qed.

Lemma s64_small x : - 2 ^ 63 <= x < 2 ^ 63 -> s64 x = x.
Proof.
  intros H. unfold s64, sgn. change (64 - 1) with 63.
  destruct (Z.leb_spec 0 x).
  - rewrite Z.mod_small by lia. destruct (Z.ltb_spec x (2 ^ 63)); lia.
  - replace (x mod 2 ^ 64) with (x + 2 ^ 64) by (apply Z.mod_unique with (-1); lia).
    destruct (Z.ltb_spec (x + 2 ^ 64) (2 ^ 63)); lia.
Qed.

Lemma s32_small v : 0 <= v < 2 ^ 31 -> s32 v = v.
Proof.
  intros Hx. unfold s32, sgn. rewrite Z.mod_small by lia. change (32 - 1) with 31.
  by rewrite (proj2 (Z.ltb_lt v (2 ^ 31))) by lia.
Qed.

Lemma s64_sub a b : s64 (s64 a - s64 b) = s64 (a - b).
Proof.
  apply s64_cong. rewrite Zminus_mod, !s64_mod, <- Zminus_mod. done.
Qed.

Lemma s64_u64 x : s64 (u64 x) = s64 x.
Proof. apply s64_cong. unfold u64. by rewrite Z.mod_mod. Qed.

(** Testing a bit with a mask. *)
Lemma land_bit m i : 0 <= i -> (Z.land m (Z.shiftl 1 i) =? 0) = negb (Z.testbit m i).
Proof.
  intros Hi. rewrite Z.shiftl_1_l. destruct (Z.testbit m i) eqn:E; simpl.
  - apply Z.eqb_neq. intros H. apply (f_equal (fun x => Z.testbit x i)) in H.
    rewrite Z.land_spec, Z.pow2_bits_true, E in H by lia. by rewrite Z.testbit_0_l in H.
  - apply Z.eqb_eq. apply Z.bits_inj'. intros j Hj. rewrite Z.land_spec, Z.testbit_0_l.
    destruct (Z.eq_dec i j) as [->|]; [by rewrite E|]. rewrite Z.pow2_bits_false by lia. apply andb_false_r.
Qed.

(** Clearing the low [k] bits rounds down to a multiple of [2 ^ k]. *)
Lemma land_not_pow2 x k : 0 <= k <= 64 -> 0 <= x < 2 ^ 64 -> Z.land x (not64 (2 ^ k - 1)) = x / 2 ^ k * 2 ^ k.
Proof.
  intros Hk Hx. rewrite <- Z.shiftr_div_pow2, <- Z.shiftl_mul_pow2 by lia.
  replace (2 ^ k - 1) with (Z.ones k) by (rewrite Z.ones_equiv; lia).
  apply Z.bits_inj'. intros i Hi. rewrite Z.land_spec. unfold not64, u64.
  destruct (Z.lt_ge_cases i 64).
  - rewrite Z.mod_pow2_bits_low, Z.lnot_spec by lia.
    destruct (Z.lt_ge_cases i k).
    + rewrite Z.ones_spec_low, Z.shiftl_spec_low by lia. apply andb_false_r.
    + rewrite Z.ones_spec_high, Z.shiftl_spec, Z.shiftr_spec by lia.
      rewrite andb_true_r. f_equal. lia.
  - rewrite (testbit_high x 64) by lia. simpl.
    rewrite Z.shiftl_spec, Z.shiftr_spec, (testbit_high x 64) by lia. done.
Qed.

Lemma u64_sub_l a b : u64 (u64 a - b) = u64 (a - b).
Proof. unfold u64. by rewrite Zminus_mod_idemp_l. Qed.
Lemma u64_wrap x : - 2 ^ 64 <= x < 0 -> u64 x = x + 2 ^ 64.
Proof. intros. unfold u64. symmetry. apply Z.mod_unique with (-1); lia. Qed.
