(* ===== verification/Mem.v ===== *)
(** * Byte-addressed memory

    A total map from addresses to bytes with little-endian loads and stores of
    [n] bytes, shared by every component that dereferences pointers. *)
From S2P Require Import Prelude.
#[local] Open Scope Z_scope.

Definition mem := Z -> Z.
Definition mset (m : mem) (a v : Z) : mem := fun x => if x =? a then v else m x.

(** Little-endian load and store of [n] bytes. *)
Fixpoint ld (n : nat) (m : mem) (a : Z) : Z :=
  match n with
  | O => 0
  | S n' => m a + 256 * ld n' m (a + 1)
  end.

Fixpoint st (n : nat) (m : mem) (a v : Z) : mem :=
  match n with
  | O => m
  | S n' => st n' (mset m a (v mod 256)) (a + 1) (v / 256)
  end.

Definition ld64 := ld 8.
Definition ld32 := ld 4.
Definition st64 := st 8.
Definition st32 := st 4.

Definition ld16 := ld 2.

(** ** User pointers (mm/vmm.c) *)

Definition USER_LIMIT := 140737488355328. (* 0x800000000000 *)

Definition user_ptr_ok (p len : Z) : bool :=
  if p =? 0 then false
  else if (USER_LIMIT <=? p) || (USER_LIMIT <? len) then false
  else u64 (p + len) <=? USER_LIMIT.

(** Two address ranges do not meet. *)
Definition apart (a n b k : Z) : Prop := a + n <= b \/ b + k <= a.

Lemma mset_eq m a v : mset m a v a = v.
Proof. unfold mset. by rewrite Z.eqb_refl. Qed.
Lemma mset_ne m a v x : x <> a -> mset m a v x = m x.
Proof. intros. unfold mset. destruct (Z.eqb_spec x a); [done|done]. Qed.

Lemma ld_ext n : forall m m' a,
  (forall x, a <= x < a + Z.of_nat n -> m x = m' x) -> ld n m a = ld n m' a.
Proof.
  induction n as [|n IH]; intros m m' a H; simpl; [done|].
  rewrite (H a) by lia. f_equal. f_equal. apply IH. intros. apply H. lia.
Qed.

Lemma ld_shift n : forall m m' a b,
  (forall i, 0 <= i < Z.of_nat n -> m' (b + i) = m (a + i)) -> ld n m' b = ld n m a.
Proof.
  induction n as [|n IH]; intros m m' a b H; simpl; [done|]. f_equal.
  - rewrite <- (Z.add_0_r a), <- (Z.add_0_r b). apply H. lia.
  - f_equal. apply IH. intros i Hi. rewrite <- !Z.add_assoc. apply H. lia.
Qed.

Lemma st_outside n : forall m a v x,
  x < a \/ a + Z.of_nat n <= x -> st n m a v x = m x.
Proof.
  induction n as [|n IH]; intros m a v x H; simpl; [done|].
  rewrite IH by lia. apply mset_ne. lia.
Qed.

Lemma ld_st_same n : forall m a v,
  0 <= v < 256 ^ Z.of_nat n -> ld n (st n m a v) a = v.
Proof.
  induction n as [|n IH]; intros m a v H; simpl.
  - simpl in H. lia.
  - rewrite Nat2Z.inj_succ, Z.pow_succ_r in H by lia.
    rewrite IH by (split; [apply Z.div_pos; lia | apply Z.div_lt_upper_bound; lia]).
    rewrite st_outside, mset_eq by lia.
    pose proof (Z.div_mod v 256). lia.
Qed.

Lemma ld_st_apart n k m a b v :
  apart a (Z.of_nat n) b (Z.of_nat k) -> ld n (st k m b v) a = ld n m a.
Proof. intros H. apply ld_ext. intros x Hx. apply st_outside. unfold apart in H. lia. Qed.

Lemma ld64_st64_same m a v : 0 <= v < 2 ^ 64 -> ld64 (st64 m a v) a = v.
Proof. intros. apply ld_st_same. change (256 ^ Z.of_nat 8) with (2 ^ 64). done. Qed.
Lemma ld32_st32_same m a v : 0 <= v < 2 ^ 32 -> ld32 (st32 m a v) a = v.
Proof. intros. apply ld_st_same. change (256 ^ Z.of_nat 4) with (2 ^ 32). done. Qed.
Lemma ld64_st64_apart m a b v : a + 8 <= b \/ b + 8 <= a -> ld64 (st64 m b v) a = ld64 m a.
Proof. intros. apply ld_st_apart. unfold apart. lia. Qed.
Lemma ld32_st64_apart m a b v : a + 4 <= b \/ b + 8 <= a -> ld32 (st64 m b v) a = ld32 m a.
Proof. intros. apply ld_st_apart. unfold apart. lia. Qed.
Lemma ld64_st32_apart m a b v : a + 8 <= b \/ b + 4 <= a -> ld64 (st32 m b v) a = ld64 m a.
Proof. intros. apply ld_st_apart. unfold apart. lia. Qed.
Lemma ld32_st32_apart m a b v : a + 4 <= b \/ b + 4 <= a -> ld32 (st32 m b v) a = ld32 m a.
Proof. intros. apply ld_st_apart. unfold apart. lia. Qed.
Lemma st64_outside m a v x : x < a \/ a + 8 <= x -> st64 m a v x = m x.
Proof. intros. apply st_outside. lia. Qed.
Lemma st32_outside m a v x : x < a \/ a + 4 <= x -> st32 m a v x = m x.
Proof. intros. apply st_outside. lia. Qed.

Lemma user_ptr_ok_spec p len : 0 <= p -> 0 <= len ->
  user_ptr_ok p len = true <-> 0 < p < USER_LIMIT /\ p + len <= USER_LIMIT.
Proof.
  intros Hp Hl. unfold user_ptr_ok, USER_LIMIT.
  destruct (Z.eqb_spec p 0); [split; [done|lia]|].
  destruct (Z.leb_spec 140737488355328 p); [split; [done|lia]|].
  destruct (Z.ltb_spec 140737488355328 len); [split; [done|lia]|]. simpl.
  rewrite u64_small by lia. rewrite Z.leb_le. lia.
Qed.

Lemma ld16_shift m m' a b : (forall i, 0 <= i < 2 -> m' (b + i) = m (a + i)) -> ld16 m' b = ld16 m a.
Proof. intros. apply ld_shift. intros. apply H. lia. Qed.
Lemma ld32_shift m m' a b : (forall i, 0 <= i < 4 -> m' (b + i) = m (a + i)) -> ld32 m' b = ld32 m a.
Proof. intros. apply ld_shift. intros. apply H. lia. Qed.
Lemma ld64_shift m m' a b : (forall i, 0 <= i < 8 -> m' (b + i) = m (a + i)) -> ld64 m' b = ld64 m a.
Proof. intros. apply ld_shift. intros. apply H. lia. Qed.

Arguments ld16 : simpl never.
Arguments ld64 : simpl never.
Arguments ld32 : simpl never.
Arguments st64 : simpl never.
Arguments st32 : simpl never.
#[global] Opaque ld16 ld64 ld32 st64 st32.
