(* ===== verification/Kstring.v ===== *)
(** * lib/kstring.c: freestanding string and memory primitives

    Byte-addressed memory is a total function from addresses to bytes.  The
    loops that run for a given count recurse on that count; the loops that
    look for a terminator take fuel and return [None] when it runs out, and
    the theorems show that any fuel past the terminator is enough. *)
From S2P Require Import Prelude Mem.
#[local] Open Scope Z_scope.

(** ** Operations *)

(** [while (n--) *d++ = *s++;] *)
Fixpoint copy_up (m : mem) (d s : Z) (n : nat) : mem :=
  match n with
  | O => m
  | S n' => copy_up (mset m d (m s)) (d + 1) (s + 1) n'
  end.

(** [while (n--) *--d = *--s;] with [d], [s] past the end. *)
Fixpoint copy_down (m : mem) (d s : Z) (n : nat) : mem :=
  match n with
  | O => m
  | S n' => copy_down (mset m (d - 1) (m (s - 1))) (d - 1) (s - 1) n'
  end.

Definition memcpy (m : mem) (dst src n : Z) : mem := copy_up m dst src (Z.to_nat n).

Definition memmove (m : mem) (dst src n : Z) : mem :=
  if (dst =? src) || (n =? 0) then m
  else if dst <? src then copy_up m dst src (Z.to_nat n)
  else copy_down m (dst + n) (src + n) (Z.to_nat n).

Fixpoint fill_up (m : mem) (d c : Z) (n : nat) : mem :=
  match n with
  | O => m
  | S n' => fill_up (mset m d (u8 c)) (d + 1) c n'
  end.

Definition memset (m : mem) (dst c n : Z) : mem := fill_up m dst c (Z.to_nat n).

Fixpoint memcmp_from (m : mem) (x y : Z) (n : nat) : Z :=
  match n with
  | O => 0
  | S n' => if m x =? m y then memcmp_from m (x + 1) (y + 1) n' else m x - m y
  end.

Definition memcmp (m : mem) (a b n : Z) : Z := memcmp_from m a b (Z.to_nat n).

(** The [while ( *p ) p++] scan shared by strlen, strcat and strncat: the
    address of the terminator. *)
Fixpoint scan0 (fuel : nat) (m : mem) (p : Z) : option Z :=
  match fuel with
  | O => None
  | S k => if m p =? 0 then Some p else scan0 k m (p + 1)
  end.

Definition strlen (fuel : nat) (m : mem) (s : Z) : option Z :=
  p ← scan0 fuel m s; Some (u64 (p - s)).

Fixpoint strcmp (fuel : nat) (m : mem) (a b : Z) : option Z :=
  match fuel with
  | O => None
  | S k =>
      if negb (m a =? 0) && (m a =? m b) then strcmp k m (a + 1) (b + 1)
      else Some (m a - m b)
  end.

Fixpoint strncmp_from (m : mem) (a b : Z) (n : nat) : Z :=
  match n with
  | O => 0
  | S n' =>
      if negb (m a =? m b) then m a - m b
      else if m a =? 0 then 0
      else strncmp_from m (a + 1) (b + 1) n'
  end.

Definition strncmp (m : mem) (a b n : Z) : Z := strncmp_from m a b (Z.to_nat n).

(** First loop of strncpy ([i < n && src[i]]), then the zero fill. *)
Fixpoint strncpy_from (m : mem) (dst src : Z) (n : nat) : mem :=
  match n with
  | O => m
  | S n' =>
      if m src =? 0 then fill_up m dst 0 n
      else strncpy_from (mset m dst (m src)) (dst + 1) (src + 1) n'
  end.

Definition strncpy (m : mem) (dst src n : Z) : mem := strncpy_from m dst src (Z.to_nat n).

(** [s = 0] is the null pointer.  The result is the address found, 0 for NULL. *)
Fixpoint strchr_from (fuel : nat) (m : mem) (s ch : Z) : option Z :=
  match fuel with
  | O => None
  | S k =>
      if m s =? 0 then Some (if ch =? 0 then s else 0)
      else if m s =? ch then Some s
      else strchr_from k m (s + 1) ch
  end.

Definition strchr (fuel : nat) (m : mem) (s c : Z) : option Z :=
  if s =? 0 then Some 0 else strchr_from fuel m s (u8 c).

(** [while (( *d++ = *src++ ))] *)
Fixpoint copy_str (fuel : nat) (m : mem) (d s : Z) : option mem :=
  match fuel with
  | O => None
  | S k =>
      let m' := mset m d (m s) in
      if m s =? 0 then Some m' else copy_str k m' (d + 1) (s + 1)
  end.

Definition strcpy (fuel : nat) (m : mem) (dst src : Z) : option mem := copy_str fuel m dst src.

Definition strcat (fuel : nat) (m : mem) (dst src : Z) : option mem :=
  d ← scan0 fuel m dst; copy_str fuel m d src.

(** [while (n-- && *src) *d++ = *src++; *d = 0;] *)
Fixpoint copy_n0 (m : mem) (d s : Z) (n : nat) : mem :=
  match n with
  | O => mset m d 0
  | S n' => if m s =? 0 then mset m d 0 else copy_n0 (mset m d (m s)) (d + 1) (s + 1) n'
  end.

Definition strncat (fuel : nat) (m : mem) (dst src n : Z) : option mem :=
  d ← scan0 fuel m dst; Some (copy_n0 m d src (Z.to_nat n)).

Definition streq (fuel : nat) (m : mem) (a b : Z) : option bool :=
  if (a =? 0) || (b =? 0) then Some false
  else r ← strcmp fuel m a b; Some (r =? 0).

(** [kstrdup]; the allocator is a parameter that returns the new memory and
    the block, 0 for failure. *)
Definition kstrdup (kmalloc : mem -> Z -> mem * Z) (fuel : nat) (m : mem) (s : Z)
  : option (mem * Z) :=
  if s =? 0 then Some (m, 0)
  else
    l ← strlen fuel m s;
    let n := u64 (l + 1) in
    let '(m1, p) := kmalloc m n in
    if p =? 0 then Some (m1, 0) else Some (memcpy m1 p s n, p).

(** ** Abstraction *)

(** The bytes of [m] from [a] are exactly [l]. *)
Fixpoint bytes_at (m : mem) (a : Z) (l : list Z) : Prop :=
  match l with
  | [] => True
  | x :: l' => m a = x /\ bytes_at m (a + 1) l'
  end.

(** A NUL-terminated string with contents [l]. *)
Definition cstr (m : mem) (a : Z) (l : list Z) : Prop :=
  bytes_at m a (l ++ [0]) /\ Forall (fun x => 0 < x < 256) l.

(** Lexicographic order on byte lists, the order strcmp promises. *)
Fixpoint lex (a b : list Z) : comparison :=
  match a, b with
  | [], [] => Eq
  | [], _ => Lt
  | _, [] => Gt
  | x :: a', y :: b' => match x ?= y with Eq => lex a' b' | c => c end
  end.

(** ** Memory primitives *)

Lemma copy_up_spec n : forall m d s x,
  d <= s \/ s + Z.of_nat n <= d ->
  copy_up m d s n x = if (d <=? x) && (x <? d + Z.of_nat n) then m (x - d + s) else m x.
Proof.
  induction n as [|n IH]; intros m d s x H.
  - simpl. bdestr; simpl; auto; lia.
  - simpl copy_up. rewrite IH by lia. unfold mset.
    bdestr; simpl; try lia; try (f_equal; lia).
Qed.

Lemma copy_down_spec n : forall m d s x,
  s <= d \/ d <= s - Z.of_nat n ->
  copy_down m d s n x = if (d - Z.of_nat n <=? x) && (x <? d) then m (x - d + s) else m x.
Proof.
  induction n as [|n IH]; intros m d s x H.
  - simpl. bdestr; simpl; auto; lia.
  - simpl copy_down. rewrite IH by lia. unfold mset.
    bdestr; simpl; try lia; try (f_equal; lia).
Qed.

Lemma fill_up_spec n : forall m d c x,
  fill_up m d c n x = if (d <=? x) && (x <? d + Z.of_nat n) then u8 c else m x.
Proof.
  induction n as [|n IH]; intros m d c x.
  - simpl. bdestr; simpl; auto; lia.
  - simpl fill_up. rewrite IH. unfold mset. bdestr; simpl; auto; lia.
Qed.

Lemma memset_spec m d c n x :
  0 <= n ->
  memset m d c n x = if (d <=? x) && (x <? d + n) then u8 c else m x.
Proof. intros. unfold memset. rewrite fill_up_spec, Z2Nat.id by lia. done. Qed.

Lemma memcpy_spec m d s n x :
  0 <= n -> d <= s \/ s + n <= d ->
  memcpy m d s n x = if (d <=? x) && (x <? d + n) then m (x - d + s) else m x.
Proof.
  intros. unfold memcpy. rewrite copy_up_spec by (rewrite Z2Nat.id by lia; lia).
  rewrite Z2Nat.id by lia. done.
Qed.

(** Memmove copies [n] bytes as if through a temporary buffer, whatever
    way the two ranges overlap, and touches nothing else. *)
Theorem memmove_spec (m : mem) (d s n x : Z) (Hn : 0 <= n) :
  memmove m d s n x = if (d <=? x) && (x <? d + n) then m (x - d + s) else m x.
Proof.
  unfold memmove. destruct (Z.eqb_spec d s) as [->|]; simpl.
  { bdestr; simpl; auto. f_equal; lia. }
  destruct (Z.eqb_spec n 0) as [->|]; simpl.
  { bdestr; simpl; auto; lia. }
  bdestr; simpl; try lia.
  all: first [ rewrite copy_up_spec by (rewrite Z2Nat.id by lia; lia)
             | rewrite copy_down_spec by (rewrite Z2Nat.id by lia; lia) ];
    rewrite Z2Nat.id by lia; bdestr; simpl; try lia; auto; f_equal; lia.
Qed.

Lemma memmove_spec_witness :
  0 <= 3 /\
  memmove (fun a => a) 1 0 3 2 = (if (1 <=? 2) && (2 <? 1 + 3) then 2 - 1 + 0 else 2).
Proof. split; [lia|]. apply (memmove_spec (fun a => a) 1 0 3 2); lia. Defined.

(** ** Strings *)

Lemma cstr_cons m a x l : cstr m a (x :: l) <-> m a = x /\ 0 < x < 256 /\ cstr m (a + 1) l.
Proof.
  unfold cstr. simpl. rewrite Forall_cons. tauto.
Qed.

Lemma cstr_nil m a : cstr m a [] <-> m a = 0.
Proof. unfold cstr. simpl. intuition auto. Qed.

Lemma bytes_at_shift l : forall m m' a b,
  (forall x, b <= x < b + Z.of_nat (length l) -> m' x = m (x - b + a)) ->
  bytes_at m a l -> bytes_at m' b l.
Proof.
  induction l as [|y l IH]; intros m m' a b H; simpl; [done|].
  intros [<- Hr]. split.
  - rewrite H by (simpl; lia). f_equal. lia.
  - eapply IH; [|exact Hr]. intros. rewrite H by (simpl; lia). f_equal. lia.
Qed.

Lemma bytes_at_ext l m m' a :
  (forall x, a <= x < a + Z.of_nat (length l) -> m x = m' x) ->
  bytes_at m a l -> bytes_at m' a l.
Proof.
  intros H. apply bytes_at_shift. intros. rewrite <- H by lia. f_equal. lia.
Qed.

Lemma bytes_at_app l1 : forall m a l2,
  bytes_at m a (l1 ++ l2) <-> bytes_at m a l1 /\ bytes_at m (a + Z.of_nat (length l1)) l2.
Proof.
  induction l1 as [|x l1 IH]; intros m a l2; simpl.
  - rewrite Z.add_0_r. tauto.
  - rewrite IH, Nat2Z.inj_succ, <- Z.add_1_l, Z.add_assoc. tauto.
Qed.

Lemma cstr_ext m m' a l :
  (forall x, a <= x <= a + Z.of_nat (length l) -> m x = m' x) ->
  cstr m a l -> cstr m' a l.
Proof.
  intros H [Hb Hf]. split; [|done].
  eapply bytes_at_ext; [|exact Hb].
  intros x Hx. apply H. rewrite length_app in Hx. simpl in Hx. lia.
Qed.

Lemma scan0_cstr l : forall fuel m a,
  cstr m a l -> (length l < fuel)%nat -> scan0 fuel m a = Some (a + Z.of_nat (length l)).
Proof.
  induction l as [|x l IH]; intros fuel m a H Hf; (destruct fuel as [|k]; [lia|]); simpl.
  - apply cstr_nil in H. rewrite H. simpl. f_equal. lia.
  - apply cstr_cons in H as (Hx & Hr & Ht). rewrite Hx.
    destruct (Z.eqb_spec x 0); [lia|].
    rewrite (IH k m (a + 1) Ht) by (simpl in Hf; lia). f_equal. lia.
Qed.

Lemma strlen_cstr fuel m a l :
  cstr m a l -> (length l < fuel)%nat -> Z.of_nat (length l) < 2 ^ 64 ->
  strlen fuel m a = Some (Z.of_nat (length l)).
Proof.
  intros H Hf Hl. unfold strlen. rewrite (scan0_cstr l) by done. simpl.
  f_equal. rewrite u64_small; lia.
Qed.

(** Strcmp on two terminated strings stops at the first difference
    (fuel past the shorter string suffices) and the sign of its result is the
    lexicographic order of the contents; in particular it returns 0 exactly
    for equal strings. *)
Theorem strcmp_lex (la : list Z) (lb : list Z) (fuel : nat) (m : mem) (a b : Z)
  (Ha : cstr m a la) (Hb : cstr m b lb)
  (Hfuel : (Nat.min (length la) (length lb) < fuel)%nat) :
  exists r, strcmp fuel m a b = Some r /\ (r ?= 0) = lex la lb /\ (r = 0 <-> la = lb).
Proof.
  revert lb fuel a b Ha Hb Hfuel.
  induction la as [|x la IH]; intros lb fuel a b Ha Hb Hf;
    (destruct fuel as [|k]; [lia|]); destruct lb as [|y lb]; simpl.
  - apply cstr_nil in Ha, Hb. rewrite Ha, Hb. simpl. exists 0. done.
  - apply cstr_nil in Ha. apply cstr_cons in Hb as (Hy & Hr & _).
    rewrite Ha. simpl. eexists; split; [done|]. rewrite Hy.
    split; [apply Z.compare_lt_iff; lia | split; [lia | done]].
  - apply cstr_nil in Hb. apply cstr_cons in Ha as (Hx & Hr & _).
    rewrite Hx, Hb. destruct (Z.eqb_spec x 0); [lia|]. simpl.
    eexists; split; [done|].
    split; [apply Z.compare_gt_iff; lia | split; [lia | done]].
  - apply cstr_cons in Ha as (Hx & Hrx & Hta), Hb as (Hy & Hry & Htb).
    rewrite Hx, Hy. destruct (Z.eqb_spec x 0); [lia|]. simpl.
    destruct (Z.compare_spec x y) as [->|Hlt|Hgt].
    + rewrite Z.eqb_refl.
      destruct (IH lb k (a + 1) (b + 1) Hta Htb) as (r & E & Hl & He); [simpl in Hf; lia|].
      exists r. split; [done|]. split; [done|]. rewrite He. split; congruence.
    + destruct (Z.eqb_spec x y); [lia|]. eexists; split; [done|].
      split; [apply Z.compare_lt_iff; lia | split; [lia | intros [=]; lia]].
    + destruct (Z.eqb_spec x y); [lia|]. eexists; split; [done|].
      split; [apply Z.compare_gt_iff; lia | split; [lia | intros [=]; lia]].
Qed.

Lemma copy_str_spec l : forall fuel m d s,
  cstr m s l -> (length l < fuel)%nat ->
  d <= s \/ s + Z.of_nat (length l) < d ->
  exists m', copy_str fuel m d s = Some m' /\
    forall x, m' x = if (d <=? x) && (x <=? d + Z.of_nat (length l)) then m (x - d + s) else m x.
Proof.
  induction l as [|y l IH]; intros fuel m d s H Hf Hd; (destruct fuel as [|k]; [lia|]); simpl.
  - apply cstr_nil in H. rewrite H. simpl. eexists; split; [done|].
    intros x. unfold mset. bdestr; simpl; try lia; auto.
    subst. rewrite <- H. f_equal. lia.
  - apply cstr_cons in H as (Hy & Hr & Ht). rewrite Hy.
    destruct (Z.eqb_spec y 0); [lia|].
    destruct (IH k (mset m d y) (d + 1) (s + 1)) as (m' & E & Hm).
    + eapply cstr_ext; [|exact Ht]. intros x Hx. unfold mset. simpl in Hd.
      destruct (Z.eqb_spec x d); [lia|done].
    + simpl in Hf; lia.
    + simpl in Hd; lia.
    + exists m'. split; [done|]. intros x. rewrite Hm. unfold mset. simpl length in *.
      bdestr; simpl; try lia; auto; try (f_equal; lia);
        subst x; rewrite <- Hy; f_equal; lia.
Qed.

(** Strcat leaves the concatenation of the two strings at [dst], keeps
    every byte outside the appended part, and terminates within the fuel, when
    the source does not meet the destination buffer. *)
Theorem strcat_appends (fuel : nat) (m : mem) (dst src : Z) (la lb : list Z)
  (Ha : cstr m dst la) (Hb : cstr m src lb)
  (Hf : (length la < fuel)%nat /\ (length lb < fuel)%nat)
  (Hdisj : dst + Z.of_nat (length la + length lb) < src
           \/ src + Z.of_nat (length lb) < dst) :
  exists m', strcat fuel m dst src = Some m' /\ cstr m' dst (la ++ lb) /\ cstr m' src lb /\
    forall x, x < dst \/ dst + Z.of_nat (length la + length lb) < x -> m' x = m x.
Proof.
  unfold strcat. rewrite (scan0_cstr la) by tauto. simpl.
  destruct (copy_str_spec lb fuel m (dst + Z.of_nat (length la)) src)
    as (m' & E & Hm); [done | tauto | lia |].
  exists m'. split; [done|]. rewrite Nat2Z.inj_add in Hdisj.
  assert (Hout : forall x, x < dst \/ dst + Z.of_nat (length la + length lb) < x -> m' x = m x).
  { intros x Hx. rewrite Hm. bdestr; simpl; auto; lia. }
  split; [|split; [|done]].
  - destruct Ha as [Ha1 Ha2], Hb as [Hb1 Hb2].
    split; [|by apply Forall_app].
    apply bytes_at_app in Ha1 as [Ha1 _].
    rewrite <- app_assoc. apply bytes_at_app. split.
    + eapply bytes_at_ext; [|exact Ha1]. intros x Hx. rewrite Hm. bdestr; simpl; auto; lia.
    + eapply bytes_at_shift; [|exact Hb1]. intros x Hx. rewrite length_app in Hx. simpl in Hx.
      rewrite Hm. bdestr; simpl; auto; lia.
  - eapply cstr_ext; [|exact Hb]. intros x Hx. symmetry. apply Hout. lia.
Qed.

Definition demo_mem (x : Z) : Z :=
  if x =? 10 then 97 else if x =? 11 then 98 else if x =? 20 then 97 else if x =? 21 then 99 else 0.

Lemma demo_ab : cstr demo_mem 10 [97; 98].
Proof. split; [repeat split | repeat constructor; lia]. Qed.
Lemma demo_ac : cstr demo_mem 20 [97; 99].
Proof. split; [repeat split | repeat constructor; lia]. Qed.

Lemma strcmp_lex_witness :
  exists r, strcmp 3 demo_mem 10 20 = Some r /\ (r ?= 0) = Lt /\ (r = 0 <-> [97; 98] = [97; 99]).
Proof. apply (strcmp_lex [97; 98] [97; 99] 3 demo_mem 10 20 demo_ab demo_ac). simpl. lia. Defined.

Lemma strcat_appends_witness :
  exists m', strcat 3 demo_mem 10 20 = Some m' /\ cstr m' 10 [97; 98; 97; 99] /\ cstr m' 20 [97; 99] /\
    forall x, x < 10 \/ 10 + Z.of_nat (2 + 2) < x -> m' x = demo_mem x.
Proof.
  apply (strcat_appends 3 demo_mem 10 20 [97; 98] [97; 99] demo_ab demo_ac); simpl; lia.
Defined.
