(* ===== verification/Pmm.v ===== *)
(** * mm/pmm.c: the physical page-frame allocator

    The frame bitmap is a list of bytes (bit [f & 7] of byte [f >> 3] is 1 for
    an allocated frame); the counters, the search hint and the release log are
    the other static variables of the file.  Each operation runs under
    [pmm_lock], so it is one atomic step. *)
From S2P Require Import Prelude Mem Kstring.
#[local] Open Scope Z_scope.

(** ** State *)

Record pmm := Pmm {
  g_bitmap : list Z;
  g_bitmap_bytes : Z;
  g_total : Z;
  g_free : Z;
  g_free_log : list (Z * Z);
  g_free_log_idx : Z;
  g_next_hint : Z
}.

Record memmap_entry := MemmapEntry { e_base : Z; e_length : Z; e_type : Z }.
Definition LIMINE_MEMMAP_USABLE := 0.
Definition FREE_LOG_CAP := 4096.

Definition set_bitmap (st : pmm) (bm : list Z) (fr hint : Z) : pmm :=
  Pmm bm (g_bitmap_bytes st) (g_total st) fr (g_free_log st) (g_free_log_idx st) hint.

(** ** Operations *)

Definition pmm_virt (hhdm phys : Z) : Z := u64 (phys + hhdm).

Definition bit_set (bm : list Z) (f : Z) : list Z :=
  let i := Z.shiftr f 3 in
  aset bm i (Z.lor (aget 0 bm i) (u8 (Z.shiftl 1 (Z.land f 7)))).

Definition bit_clear (bm : list Z) (f : Z) : list Z :=
  let i := Z.shiftr f 3 in
  aset bm i (Z.land (aget 0 bm i) (u8 (Z.lnot (Z.shiftl 1 (Z.land f 7))))).

Definition bit_test (bm : list Z) (f : Z) : bool :=
  negb (Z.land (Z.shiftr (aget 0 bm (Z.shiftr f 3)) (Z.land f 7)) 1 =? 0).

(** One iteration of the loops of [mark_used] and [mark_free]. *)
Definition mark_used_step (st : pmm) (f : Z) : pmm :=
  if bit_test (g_bitmap st) f then st
  else set_bitmap st (bit_set (g_bitmap st) f) (u64 (g_free st - 1)) (g_next_hint st).

Definition mark_free_step (st : pmm) (f : Z) : pmm :=
  if bit_test (g_bitmap st) f
  then set_bitmap st (bit_clear (g_bitmap st) f) (u64 (g_free st + 1)) (g_next_hint st)
  else st.

(** The frames [first <= f < last] that the bitmap covers. *)
Definition frames (first last total : Z) : list Z := seqZ first (Z.min last total - first).

Definition mark_used (st : pmm) (base size : Z) : pmm :=
  let first := base / PAGE_SIZE in
  let last := u64 (base + size + PAGE_SIZE - 1) / PAGE_SIZE in
  foldl mark_used_step st (frames first last (g_total st)).

Definition mark_free (st : pmm) (base size : Z) : pmm :=
  let first := u64 (base + PAGE_SIZE - 1) / PAGE_SIZE in
  let last := u64 (base + size) / PAGE_SIZE in
  foldl mark_free_step st (frames first last (g_total st)).

Definition usable (e : memmap_entry) : bool := e_type e =? LIMINE_MEMMAP_USABLE.

Definition highest_usable (mm : list memmap_entry) : Z :=
  foldl (fun hi e => if usable e then Z.max hi (u64 (e_base e + e_length e)) else hi) 0 mm.

Definition free_usable (st : pmm) (e : memmap_entry) : pmm :=
  if usable e then mark_free st (e_base e) (e_length e) else st.

(** The kernel's own span, when the bootloader reported it. *)
Definition mark_kernel (st : pmm) (kaddr : option (Z * Z)) (kernel_end : Z) : pmm :=
  match kaddr with
  | Some (pb, vb) => mark_used st pb (u64 (kernel_end - vb))
  | None => st
  end.

(** [None] is a memory map the bootloader did not give; [kaddr] is the
    kernel-address response (physical base, virtual base). *)
Definition pmm_init (mm : option (list memmap_entry)) (kaddr : option (Z * Z)) (kernel_end : Z)
  : res pmm :=
  match mm with
  | None => Panic
  | Some mm =>
      let highest := highest_usable mm in
      if highest =? 0 then Panic
      else
        let total := highest / PAGE_SIZE in
        let bytes := u64 (total + 7) / 8 in
        let bm_phys :=
          match List.find (fun e => usable e && (bytes <=? e_length e)) mm with
          | Some e => e_base e
          | None => 0
          end in
        if bm_phys =? 0 then Panic
        else
          let st0 := Pmm (repeat 255 (Z.to_nat bytes)) bytes total 0
                       (repeat (0, 0) (Z.to_nat FREE_LOG_CAP)) 0 0 in
          let st1 := foldl free_usable st0 mm in
          let st2 := mark_used st1 0 1048576 in
          let st3 := mark_kernel st2 kaddr kernel_end in
          Ok (mark_used st3 bm_phys bytes)
  end.

(** The first free frame of [lo <= f < hi], in the order the loop visits. *)
Fixpoint first_clear_from (n : nat) (bm : list Z) (f : Z) : option Z :=
  match n with
  | O => None
  | S k => if bit_test bm f then first_clear_from k bm (f + 1) else Some f
  end.
Definition first_clear (bm : list Z) (lo hi : Z) : option Z :=
  first_clear_from (Z.to_nat (hi - lo)) bm lo.

Definition take_frame (st : pmm) (f : Z) : pmm * Z :=
  (set_bitmap st (bit_set (g_bitmap st) f) (u64 (g_free st - 1)) (u64 (f + 1)),
   u64 (f * PAGE_SIZE)).

Definition pmm_alloc (st : pmm) : pmm * Z :=
  match first_clear (g_bitmap st) (g_next_hint st) (g_total st) with
  | Some f => take_frame st f
  | None =>
      match first_clear (g_bitmap st) 0 (g_next_hint st) with
      | Some f => take_frame st f
      | None => (st, 0)
      end
  end.

Definition pmm_alloc_zeroed (hhdm : Z) (st : pmm) (m : mem) : pmm * mem * Z :=
  let '(st', p) := pmm_alloc st in
  (st', if p =? 0 then m else memset m (pmm_virt hhdm p) 0 PAGE_SIZE, p).

(** [ra] is the caller's return address, which the log records. *)
Definition pmm_free (st : pmm) (phys ra : Z) : pmm :=
  let f := phys / PAGE_SIZE in
  if (g_total st <=? f) || negb (bit_test (g_bitmap st) f) then st
  else
    Pmm (bit_clear (g_bitmap st) f) (g_bitmap_bytes st) (g_total st) (u64 (g_free st + 1))
      (<[Z.to_nat (g_free_log_idx st) := (f, ra)]> (g_free_log st))
      ((g_free_log_idx st + 1) mod FREE_LOG_CAP)
      (if f <? g_next_hint st then f else g_next_hint st).

(** [while (k < n && !bit_test(f + k)) k++;] *)
Fixpoint run_len (bm : list Z) (f : Z) (n : nat) : Z :=
  match n with
  | O => 0
  | S n' => if bit_test bm f then 0 else 1 + run_len bm (f + 1) n'
  end.

Definition take_run (st : pmm) (f n : Z) : pmm :=
  let st' := foldl (fun s j => set_bitmap s (bit_set (g_bitmap s) (f + j)) (u64 (g_free s - 1)) (g_next_hint s))
               st (seqZ 0 n) in
  set_bitmap st' (g_bitmap st') (g_free st') (u64 (f + n)).

(** The outer search loop; every iteration advances [f] by at least one, so
    [g_total + 1] iterations are enough. *)
Fixpoint contig_from (fuel : nat) (st : pmm) (n f : Z) : pmm * Z :=
  match fuel with
  | O => (st, 0)
  | S k =>
      if u64 (f + n) <=? g_total st then
        let r := run_len (g_bitmap st) f (Z.to_nat n) in
        if r =? n then (take_run st f n, u64 (f * PAGE_SIZE))
        else contig_from k st n (f + r + 1)
      else (st, 0)
  end.

Definition pmm_alloc_contiguous (st : pmm) (n : Z) : pmm * Z :=
  if n =? 0 then (st, 0) else contig_from (S (Z.to_nat (g_total st))) st n 0.

Definition pmm_total_frames (st : pmm) : Z := g_total st.
Definition pmm_free_frames (st : pmm) : Z := g_free st.

(** ** Invariant *)

Fixpoint nclear (bm : list Z) (n : nat) : Z :=
  match n with
  | O => 0
  | S k => nclear bm k + (if bit_test bm (Z.of_nat k) then 0 else 1)
  end.

(** The bitmap covers every frame, the free counter is the number of clear
    bits, and the hint stays within the bitmap. *)
Record pmm_wf (st : pmm) : Prop := {
  wf_total : 0 <= g_total st <= 2 ^ 52;
  wf_bytes : alen (g_bitmap st) = (g_total st + 7) / 8;
  wf_byte : Forall (fun b => 0 <= b < 256) (g_bitmap st);
  wf_free : g_free st = nclear (g_bitmap st) (Z.to_nat (g_total st));
  wf_hint : 0 <= g_next_hint st <= g_total st
}.

(** Frame [f] is free. *)
Definition is_free (st : pmm) (f : Z) : Prop :=
  0 <= f < g_total st /\ bit_test (g_bitmap st) f = false.

(** ** Bitmap lemmas *)

Lemma land7 f : Z.land f 7 = f mod 8.
Proof. change 7 with (Z.ones 3). rewrite Z.land_ones by lia. done. Qed.

Lemma shiftr3 f : Z.shiftr f 3 = f / 8.
Proof. rewrite Z.shiftr_div_pow2 by lia. done. Qed.

Lemma bit_test_testbit bm f :
  bit_test bm f = Z.testbit (aget 0 bm (f / 8)) (f mod 8).
Proof.
  unfold bit_test. rewrite land7, shiftr3.
  change 1 with (Z.ones 1) at 1. rewrite Z.land_ones, Zmod_odd by lia.
  rewrite Z.testbit_odd. by destruct (Z.odd _).
Qed.

Lemma aget_byte bm i : Forall (fun b => 0 <= b < 256) bm -> 0 <= aget 0 bm i < 256.
Proof.
  intros H. unfold aget. case_match; [lia|].
  rewrite nth_lookup. destruct (bm !! Z.to_nat i) eqn:E; simpl; [|lia].
  eapply Forall_lookup in E; eauto. done.
Qed.

Lemma aset_byte bm i v :
  Forall (fun b => 0 <= b < 256) bm -> 0 <= v < 256 ->
  Forall (fun b => 0 <= b < 256) (aset bm i v).
Proof. intros. unfold aset. case_match; auto. by apply Forall_insert. Qed.

Lemma in_byte_range (bm : list Z) f : 0 <= f -> f < 8 * alen bm -> 0 <= f / 8 < alen bm.
Proof. intros. split; [apply Z.div_pos; lia | apply Z.div_lt_upper_bound; lia]. Qed.

Lemma same_frame f g : f / 8 = g / 8 -> (f mod 8 =? g mod 8) = (f =? g).
Proof.
  intros H. pose proof (Z.div_mod f 8). pose proof (Z.div_mod g 8).
  bdestr; auto; lia.
Qed.

Lemma bit_byte k : 0 <= k < 8 -> 0 <= Z.shiftl 1 k < 2 ^ 8.
Proof.
  intros. rewrite Z.shiftl_1_l.
  split; [apply Z.pow_nonneg; lia | apply Z.pow_lt_mono_r; lia].
Qed.

Lemma bit_set_test bm f g :
  0 <= f < 8 * alen bm -> 0 <= g ->
  bit_test (bit_set bm f) g = (f =? g) || bit_test bm g.
Proof.
  intros Hf Hg. rewrite !bit_test_testbit. unfold bit_set. rewrite land7, shiftr3.
  pose proof (in_byte_range bm f ltac:(lia) ltac:(lia)).
  pose proof (Z.mod_pos_bound f 8 ltac:(lia)). pose proof (Z.mod_pos_bound g 8 ltac:(lia)).
  destruct (Z.eq_dec (f / 8) (g / 8)) as [E|E].
  - rewrite <- E, aget_aset_eq by done.
    rewrite Z.lor_spec, u8_small, Z.shiftl_1_l, Z.pow2_bits_eqb, same_frame by
      (auto using bit_byte; lia).
    apply orb_comm.
  - rewrite aget_aset_ne by done. destruct (Z.eqb_spec f g); [congruence|done].
Qed.

Lemma bit_clear_test bm f g :
  Forall (fun b => 0 <= b < 256) bm ->
  0 <= f < 8 * alen bm -> 0 <= g ->
  bit_test (bit_clear bm f) g = negb (f =? g) && bit_test bm g.
Proof.
  intros Hb Hf Hg. rewrite !bit_test_testbit. unfold bit_clear. rewrite land7, shiftr3.
  pose proof (in_byte_range bm f ltac:(lia) ltac:(lia)).
  pose proof (Z.mod_pos_bound f 8 ltac:(lia)). pose proof (Z.mod_pos_bound g 8 ltac:(lia)).
  destruct (Z.eq_dec (f / 8) (g / 8)) as [E|E].
  - rewrite <- E, aget_aset_eq by done.
    unfold u8. rewrite Z.land_spec, Z.mod_pow2_bits_low, Z.lnot_spec, Z.shiftl_1_l,
      Z.pow2_bits_eqb, same_frame by (try done; lia).
    apply andb_comm.
  - rewrite aget_aset_ne by done. destruct (Z.eqb_spec f g); [congruence|done].
Qed.

Lemma bit_set_len bm f : alen (bit_set bm f) = alen bm.
Proof. apply alen_aset. Qed.
Lemma bit_clear_len bm f : alen (bit_clear bm f) = alen bm.
Proof. apply alen_aset. Qed.

Lemma bit_set_byte bm f :
  Forall (fun b => 0 <= b < 256) bm -> Forall (fun b => 0 <= b < 256) (bit_set bm f).
Proof.
  intros H. apply aset_byte; [done|]. change 256 with (2 ^ 8).
  apply range_of_testbit; [lia| |].
  - apply Z.lor_nonneg. split; [apply aget_byte; done | apply u8_range].
  - intros i Hi. pose proof (aget_byte bm (Z.shiftr f 3) H).
    rewrite Z.lor_spec, !(testbit_high _ 8) by (auto using u8_range; lia). done.
Qed.

Lemma bit_clear_byte bm f :
  Forall (fun b => 0 <= b < 256) bm -> Forall (fun b => 0 <= b < 256) (bit_clear bm f).
Proof.
  intros H. apply aset_byte; [done|]. change 256 with (2 ^ 8).
  pose proof (aget_byte bm (Z.shiftr f 3) H).
  apply range_of_testbit; [lia| |].
  - apply Z.land_nonneg. left. lia.
  - intros i Hi. rewrite Z.land_spec, (testbit_high _ 8) by lia. done.
Qed.

Lemma nclear_ext bm bm' n :
  (forall f, 0 <= f < Z.of_nat n -> bit_test bm f = bit_test bm' f) -> nclear bm n = nclear bm' n.
Proof.
  induction n as [|n IH]; intros H; simpl; [done|].
  rewrite IH by (intros; apply H; lia). rewrite (H (Z.of_nat n)) by lia. done.
Qed.

Lemma nclear_bound bm n : 0 <= nclear bm n <= Z.of_nat n.
Proof. induction n; simpl; [lia|]. case_match; lia. Qed.

(** Changing one bit below [n] changes the count by one. *)
Lemma nclear_flip bm bm' f n :
  0 <= f < Z.of_nat n ->
  bit_test bm f = false -> bit_test bm' f = true ->
  (forall g, 0 <= g -> g <> f -> bit_test bm' g = bit_test bm g) ->
  nclear bm' n = nclear bm n - 1.
Proof.
  induction n as [|n IH]; intros Hf H0 H1 Hext; simpl; [lia|].
  destruct (Z.eq_dec f (Z.of_nat n)) as [->|Hne].
  - rewrite H0, H1, (nclear_ext bm' bm); [lia|]. intros. apply Hext; lia.
  - rewrite IH by (auto; lia). rewrite (Hext (Z.of_nat n)) by lia. lia.
Qed.

Lemma nclear_zero bm n :
  nclear bm n = 0 <-> forall f, 0 <= f < Z.of_nat n -> bit_test bm f = true.
Proof.
  induction n as [|n IH]; simpl.
  - split; [intros; lia | done].
  - pose proof (nclear_bound bm n). split.
    + intros H0 f Hf. destruct (bit_test bm (Z.of_nat n)) eqn:E; [|lia].
      destruct (Z.eq_dec f (Z.of_nat n)) as [->|]; [done|].
      apply IH; lia.
    + intros Hall. rewrite (Hall (Z.of_nat n)) by lia.
      rewrite (proj2 IH); [lia|]. intros; apply Hall; lia.
Qed.

(** ** Preservation of the invariant *)

Lemma wf_cover st f : pmm_wf st -> 0 <= f < g_total st -> 0 <= f < 8 * alen (g_bitmap st).
Proof.
  intros [? Hb _ _ _] Hf. rewrite Hb.
  pose proof (Z.div_mod (g_total st + 7) 8). pose proof (Z.mod_pos_bound (g_total st + 7) 8). lia.
Qed.

Lemma wf_free_bound st : pmm_wf st -> 0 <= g_free st <= 2 ^ 52.
Proof.
  intros [Ht _ _ Hf _]. rewrite Hf.
  pose proof (nclear_bound (g_bitmap st) (Z.to_nat (g_total st))). lia.
Qed.

(** Taking a free frame and releasing a used one, whatever the new hint. *)
Lemma wf_take st f hint :
  pmm_wf st -> is_free st f -> 0 <= hint <= g_total st ->
  pmm_wf (set_bitmap st (bit_set (g_bitmap st) f) (u64 (g_free st - 1)) hint).
Proof.
  intros W [Hf Hb] Hh. pose proof (wf_cover st f W Hf) as Hc.
  pose proof (wf_free_bound st W) as Hfb.
  destruct W as [Ht Hlen Hby Hfr _].
  assert (E : nclear (bit_set (g_bitmap st) f) (Z.to_nat (g_total st)) =
              nclear (g_bitmap st) (Z.to_nat (g_total st)) - 1).
  { apply (nclear_flip _ _ f); [lia|done| |].
    - rewrite bit_set_test by lia. by rewrite Z.eqb_refl.
    - intros g Hg Hne. rewrite bit_set_test by lia. destruct (Z.eqb_spec f g); [lia|done]. }
  pose proof (nclear_bound (bit_set (g_bitmap st) f) (Z.to_nat (g_total st))).
  constructor; simpl; auto using bit_set_byte.
  - by rewrite bit_set_len.
  - rewrite E, <- Hfr, u64_small; lia.
Qed.

Lemma wf_release st f hint log idx :
  pmm_wf st -> 0 <= f < g_total st -> bit_test (g_bitmap st) f = true -> 0 <= hint <= g_total st ->
  pmm_wf (Pmm (bit_clear (g_bitmap st) f) (g_bitmap_bytes st) (g_total st)
            (u64 (g_free st + 1)) log idx hint).
Proof.
  intros W Hf Hb Hh. pose proof (wf_cover st f W Hf) as Hc.
  pose proof (wf_free_bound st W) as Hfb.
  destruct W as [Ht Hlen Hby Hfr _].
  assert (E : nclear (g_bitmap st) (Z.to_nat (g_total st)) =
              nclear (bit_clear (g_bitmap st) f) (Z.to_nat (g_total st)) - 1).
  { apply (nclear_flip _ _ f); [lia| |done|].
    - rewrite bit_clear_test by (auto; lia). by rewrite Z.eqb_refl.
    - intros g Hg Hne. rewrite bit_clear_test by (auto; lia). destruct (Z.eqb_spec f g); [lia|done]. }
  constructor; simpl; auto using bit_clear_byte.
  - by rewrite bit_clear_len.
  - rewrite u64_small; lia.
Qed.

Lemma first_clear_from_spec bm n : forall lo,
  match first_clear_from n bm lo with
  | Some f => lo <= f < lo + Z.of_nat n /\ bit_test bm f = false /\ forall g, lo <= g < f -> bit_test bm g = true
  | None => forall g, lo <= g < lo + Z.of_nat n -> bit_test bm g = true
  end.
Proof.
  induction n as [|n IH]; intros lo; simpl; [intros; lia|].
  destruct (bit_test bm lo) eqn:E; [|split; [lia|]; split; [done|]; intros; lia].
  specialize (IH (lo + 1)). destruct (first_clear_from n bm (lo + 1)).
  - destruct IH as (? & ? & Hm). split; [lia|]. split; [done|]. intros g Hg.
    destruct (Z.eq_dec g lo) as [->|]; [done|]. apply Hm; lia.
  - intros g Hg. destruct (Z.eq_dec g lo) as [->|]; [done|]. apply IH; lia.
Qed.

Lemma first_clear_some bm lo hi f :
  first_clear bm lo hi = Some f ->
  lo <= f < hi /\ bit_test bm f = false /\ forall g, lo <= g < f -> bit_test bm g = true.
Proof.
  unfold first_clear. intros H. pose proof (first_clear_from_spec bm (Z.to_nat (hi - lo)) lo) as S.
  rewrite H in S. destruct S as (? & ? & ?). split; [lia|]. done.
Qed.

Lemma first_clear_none bm lo hi :
  first_clear bm lo hi = None -> forall g, lo <= g < hi -> bit_test bm g = true.
Proof.
  unfold first_clear. intros H. pose proof (first_clear_from_spec bm (Z.to_nat (hi - lo)) lo) as S.
  rewrite H in S. intros. apply S. lia.
Qed.

Lemma pmm_alloc_cases st :
  pmm_wf st ->
  (exists f, is_free st f /\ pmm_alloc st = take_frame st f) \/
  ((forall f, ~ is_free st f) /\ pmm_alloc st = (st, 0)).
Proof.
  intros [Ht _ _ _ Hh]. unfold pmm_alloc.
  destruct (first_clear _ (g_next_hint st) (g_total st)) eqn:E1.
  { apply first_clear_some in E1 as (Hf & Hc & _). left. exists z. split; [split; [lia|done]|done]. }
  destruct (first_clear _ 0 (g_next_hint st)) eqn:E2.
  { apply first_clear_some in E2 as (Hf & Hc & _). left. exists z. split; [split; [lia|done]|done]. }
  right. split; [|done]. intros f [Hf Hc].
  destruct (Z.lt_ge_cases f (g_next_hint st)).
  - rewrite (first_clear_none _ _ _ E2 f) in Hc by lia. done.
  - rewrite (first_clear_none _ _ _ E1 f) in Hc by lia. done.
Qed.

Lemma frame_addr f : 0 <= f < 2 ^ 52 -> u64 (f * PAGE_SIZE) = f * PAGE_SIZE.
Proof. intros. apply u64_small. unfold PAGE_SIZE. lia. Qed.

(** [pmm_alloc] fails, leaving the state as it was, exactly when no frame
    is free; otherwise it returns the address of a free frame and the only
    difference in the bitmap is that this frame is now in use. *)
Lemma pmm_alloc_facts (st : pmm) (W : pmm_wf st) :
  pmm_wf (fst (pmm_alloc st)) /\
  ((exists f, is_free st f /\ snd (pmm_alloc st) = f * PAGE_SIZE /\
      g_free (fst (pmm_alloc st)) = g_free st - 1 /\
      forall g, 0 <= g -> bit_test (g_bitmap (fst (pmm_alloc st))) g = (f =? g) || bit_test (g_bitmap st) g)
   \/ ((forall f, ~ is_free st f) /\ pmm_alloc st = (st, 0) /\ g_free st = 0)).
Proof.
  destruct (pmm_alloc_cases st W) as [(f & Hf & ->) | [Hno ->]]; simpl.
  - pose proof (wf_cover st f W (proj1 Hf)). destruct Hf as [Hr Hc].
    pose proof (wf_total st W).
    assert (W' : pmm_wf (fst (take_frame st f))).
    { apply wf_take; [done|done|]. rewrite u64_small; lia. }
    split; [exact W'|]. left. exists f. split; [done|].
    split; [apply frame_addr; lia|].
    split; [|intros g Hg; by apply bit_set_test].
    pose proof (wf_free_bound _ W'). simpl in *.
    pose proof (wf_free_bound st W).
    rewrite u64_small; [done|]. split; [|lia].
    destruct (Z.eq_dec (g_free st) 0) as [E0|]; [|lia].
    rewrite (wf_free st W), nclear_zero in E0. rewrite E0 in Hc by lia. done.
  - split; [done|]. right. split; [done|]. split; [done|].
    rewrite (wf_free st W). apply nclear_zero. intros f Hf.
    destruct (bit_test (g_bitmap st) f) eqn:E; [done|]. exfalso.
    apply (Hno f). split; [lia|done].
Qed.

Lemma pmm_free_wf st phys ra : pmm_wf st -> 0 <= phys -> pmm_wf (pmm_free st phys ra).
Proof.
  intros W Hp. unfold pmm_free.
  destruct (Z.leb_spec (g_total st) (phys / PAGE_SIZE)); simpl; [done|].
  destruct (bit_test (g_bitmap st) (phys / PAGE_SIZE)) eqn:E; simpl; [|done].
  assert (0 <= phys / PAGE_SIZE) by (apply Z.div_pos; unfold PAGE_SIZE; lia).
  pose proof (wf_hint st W). apply wf_release; auto. case_match; lia.
Qed.

Lemma pmm_free_test st phys ra g :
  pmm_wf st -> 0 <= phys -> 0 <= g ->
  phys / PAGE_SIZE < g_total st ->
  bit_test (g_bitmap (pmm_free st phys ra)) g =
    negb (phys / PAGE_SIZE =? g) && bit_test (g_bitmap st) g.
Proof.
  intros W Hp Hg Hf. unfold pmm_free.
  assert (0 <= phys / PAGE_SIZE) by (apply Z.div_pos; unfold PAGE_SIZE; lia).
  destruct (Z.leb_spec (g_total st) (phys / PAGE_SIZE)); simpl; [lia|].
  destruct (bit_test (g_bitmap st) (phys / PAGE_SIZE)) eqn:E; simpl.
  - apply bit_clear_test; [apply W | apply wf_cover; [done|lia] | done].
  - destruct (Z.eqb_spec (phys / PAGE_SIZE) g) as [<-|]; simpl; [by rewrite E|done].
Qed.

(** Releasing the frame that [pmm_alloc] just returned gives back the same
    set of free frames and the same free count, and releasing it a second time
    changes nothing. *)
Theorem pmm_alloc_free_roundtrip (st st' : pmm) (p ra ra' : Z)
  (W : pmm_wf st) (Ha : pmm_alloc st = (st', p)) (Hp : p <> 0) :
  let st2 := pmm_free st' p ra in
  pmm_wf st2 /\ g_free st2 = g_free st /\
  (forall g, 0 <= g -> bit_test (g_bitmap st2) g = bit_test (g_bitmap st) g) /\
  pmm_free st2 p ra' = st2.
Proof.
  intros st2.
  pose proof (pmm_alloc_facts st W) as [W' Hcase]. rewrite Ha in W', Hcase. simpl in *.
  destruct Hcase as [(f & [Hf Hc] & -> & Hn & Hbits) | (_ & [= -> ->] & _)]; [|done].
  assert (Ht : g_total st' = g_total st).
  { destruct (pmm_alloc_cases st W) as [(f' & _ & E) | [_ E]]; rewrite Ha in E; injection E as -> _; done. }
  assert (Hdiv : f * PAGE_SIZE / PAGE_SIZE = f) by (apply Z.div_mul; done).
  assert (Hused : bit_test (g_bitmap st') f = true) by (rewrite Hbits by lia; by rewrite Z.eqb_refl).
  assert (Hp0 : 0 <= f * PAGE_SIZE) by (unfold PAGE_SIZE; lia).
  assert (Hg2 : forall g, 0 <= g -> bit_test (g_bitmap st2) g = bit_test (g_bitmap st) g).
  { intros g Hg. unfold st2. rewrite pmm_free_test by (auto; rewrite Hdiv; lia).
    rewrite Hdiv, Hbits by done.
    destruct (Z.eqb_spec f g) as [<-|]; simpl; congruence. }
  split; [by apply pmm_free_wf|]. split; [|split; [done|]].
  - pose proof (wf_free_bound st W). unfold st2, pmm_free. rewrite Hdiv, Hused, Ht.
    destruct (Z.leb_spec (g_total st) f); simpl; [lia|]. rewrite Hn, u64_small; lia.
  - unfold pmm_free at 1. rewrite Hdiv, (Hg2 f), Hc by lia. by rewrite orb_true_r.
Qed.

(** ** Contiguous runs *)

(** [n] free frames start at [f]. *)
Definition run_at (st : pmm) (f n : Z) : Prop :=
  0 <= f /\ f + n <= g_total st /\ forall j, 0 <= j < n -> bit_test (g_bitmap st) (f + j) = false.

Lemma run_len_spec bm n : forall f,
  let r := run_len bm f n in
  0 <= r <= Z.of_nat n /\
  (forall j, 0 <= j < r -> bit_test bm (f + j) = false) /\
  (r < Z.of_nat n -> bit_test bm (f + r) = true).
Proof.
  induction n as [|n IH]; intros f r.
  - subst r. simpl. split; [lia|]. split; intros; lia.
  - subst r. simpl. destruct (bit_test bm f) eqn:E.
    + split; [lia|]. split; [intros; lia|]. intros _. by rewrite Z.add_0_r.
    + destruct (IH (f + 1)) as (H1 & H2 & H3). split; [lia|]. split.
      * intros j Hj. destruct (Z.eq_dec j 0) as [->|]; [by rewrite Z.add_0_r|].
        rewrite <- (H2 (j - 1)) by lia. f_equal. lia.
      * intros Hlt. rewrite <- H3 by lia. f_equal. lia.
Qed.

Lemma contig_from_spec st n :
  pmm_wf st -> 0 < n < 2 ^ 64 ->
  forall fuel f, 0 <= f <= g_total st + 1 -> g_total st - f < Z.of_nat fuel ->
  f = 0 \/ n <= g_total st ->
  (forall g, 0 <= g < f -> ~ run_at st g n) ->
  (exists g, run_at st g n /\ (forall h, 0 <= h < g -> ~ run_at st h n) /\
     contig_from fuel st n f = (take_run st g n, g * PAGE_SIZE)) \/
  ((forall g, ~ run_at st g n) /\ contig_from fuel st n f = (st, 0)).
Proof.
  intros W Hn. pose proof (wf_total st W) as Ht.
  assert (Hstop : forall f, (forall g, 0 <= g < f -> ~ run_at st g n) -> g_total st < f + n ->
            forall g, ~ run_at st g n).
  { intros f Hnone Hgt g Hr. destruct (Z.lt_ge_cases g f); [apply (Hnone g); destruct Hr; [lia|done]|].
    destruct Hr as (_ & Hr & _). lia. }
  induction fuel as [|k IH]; intros f Hf Hk Hd Hnone; simpl.
  { right. split; [|done]. apply (Hstop f); [done|lia]. }
  destruct (Z.lt_ge_cases (f + n) (2 ^ 64)) as [Hlt|Hge].
  2:{ exfalso; lia. }
  rewrite u64_small by lia.
  destruct (Z.leb_spec (f + n) (g_total st)) as [Hle|Hgt].
  2:{ right. split; [|done]. by apply (Hstop f). }
  destruct (run_len_spec (g_bitmap st) (Z.to_nat n) f) as (Hr1 & Hr2 & Hr3).
  rewrite Z2Nat.id in Hr1, Hr3 by lia.
  set (r := run_len (g_bitmap st) f (Z.to_nat n)) in *.
  destruct (Z.eqb_spec r n) as [Er|Er].
  - left. exists f. split; [split; [lia|]; split; [lia|]; intros; apply Hr2; lia|].
    split; [done|]. rewrite frame_addr by lia. done.
  - apply IH; [lia|lia|lia|].
    intros g Hg Hr. destruct (Z.lt_ge_cases g f) as [Hlt'|Hge']; [by apply (Hnone g); [lia|]|].
    destruct Hr as (_ & _ & Hall). specialize (Hall (f + r - g)).
    replace (g + (f + r - g)) with (f + r) in Hall by lia.
    rewrite Hr3 in Hall by lia. discriminate Hall. lia.
Qed.

(** Marking the frames of a run one by one. *)
Lemma take_run_loop f : forall (l : list Z) st,
  pmm_wf st -> 0 <= f ->
  NoDup l -> (forall j, j ∈ l -> 0 <= j /\ is_free st (f + j)) ->
  let st' := foldl (fun s j => set_bitmap s (bit_set (g_bitmap s) (f + j)) (u64 (g_free s - 1)) (g_next_hint s)) st l in
  pmm_wf st' /\ g_total st' = g_total st /\ g_next_hint st' = g_next_hint st /\
  g_free st' = g_free st - Z.of_nat (length l) /\
  forall g, 0 <= g -> bit_test (g_bitmap st') g = bool_decide ((g - f) ∈ l) || bit_test (g_bitmap st) g.
Proof.
  induction l as [|j l IH]; intros st W Hf Hnd Hfree st'; simpl in st'.
  { subst st'. split; [done|]. split; [done|]. split; [done|]. split; [simpl; lia|].
    intros. rewrite bool_decide_eq_false_2 by apply not_elem_of_nil. done. }
  apply NoDup_cons in Hnd as [Hj Hnd].
  destruct (Hfree j) as [Hj0 Hfj]; [by left|].
  set (st1 := set_bitmap st (bit_set (g_bitmap st) (f + j)) (u64 (g_free st - 1)) (g_next_hint st)) in *.
  assert (W1 : pmm_wf st1) by (apply wf_take; [done|done|apply W]).
  assert (Hc : 0 <= f + j < 8 * alen (g_bitmap st)) by (apply wf_cover; [done|apply Hfj]).
  assert (Hb1 : forall g, 0 <= g -> bit_test (g_bitmap st1) g = (f + j =? g) || bit_test (g_bitmap st) g)
    by (intros; by apply bit_set_test).
  destruct (IH st1 W1 Hf Hnd) as (H1 & H2 & H3 & H4 & H5).
  { intros i Hi. destruct (Hfree i) as [Hi0 [Hr Hb]]; [by right|].
    split; [done|]. split; [done|]. rewrite Hb1 by lia.
    destruct (Z.eqb_spec (f + j) (f + i)); [|done]. assert (i = j) by lia. by subst. }
  subst st'. split; [done|]. split; [done|]. split; [done|]. split.
  - rewrite H4. simpl length. pose proof (wf_free_bound st W). pose proof (wf_free_bound st1 W1).
    assert (g_free st1 = g_free st - 1); [|lia].
    simpl. apply u64_small. split; [|lia].
    destruct (Z.eq_dec (g_free st) 0) as [E0|]; [|lia].
    rewrite (wf_free st W), nclear_zero in E0. destruct Hfj as [Hr Hb]. rewrite E0 in Hb by lia. done.
  - intros g Hg. rewrite H5, Hb1 by done. rewrite orb_assoc. f_equal.
    destruct (Z.eqb_spec (f + j) g) as [<-|Hne].
    + rewrite orb_true_r. symmetry. apply bool_decide_eq_true_2.
      apply elem_of_cons. left; lia.
    + rewrite orb_false_r. apply bool_decide_ext. rewrite elem_of_cons. intuition lia.
Qed.

Lemma take_run_spec st f n :
  pmm_wf st -> 0 < n -> run_at st f n ->
  pmm_wf (take_run st f n) /\ g_free (take_run st f n) = g_free st - n /\
  forall g, 0 <= g ->
    bit_test (g_bitmap (take_run st f n)) g = ((f <=? g) && (g <? f + n)) || bit_test (g_bitmap st) g.
Proof.
  intros W Hn (Hf & Hle & Hall). unfold take_run.
  destruct (take_run_loop f (seqZ 0 n) st W Hf (NoDup_seqZ 0 n)) as (H1 & H2 & H3 & H4 & H5).
  { intros j Hj. apply elem_of_seqZ in Hj. split; [lia|]. split; [lia|]. apply Hall. lia. }
  rewrite length_seqZ, Z2Nat.id in H4 by lia.
  set (st' := foldl _ st _) in *. pose proof (wf_total st W).
  split; [|split; [done|]].
  - destruct H1 as [? ? ? ? ?]. constructor; simpl; auto. rewrite u64_small, H2; lia.
  - intros g Hg. simpl. rewrite H5 by done. f_equal.
    bdestr; simpl; first [apply bool_decide_eq_true_2 | apply bool_decide_eq_false_2];
      rewrite elem_of_seqZ; lia.
Qed.

(** C37: [pmm_alloc_contiguous] is first fit.  Although the search jumps past
    every occupied frame it meets, when some run of [n] free frames exists it
    returns the lowest one and takes exactly those frames, and when there is
    none anywhere in the bitmap it returns 0 and changes nothing.  While frame 0
    is not free, which is how [pmm_init] leaves it (it marks the first megabyte
    used), the result 0 means failure: it is returned exactly when there is no
    run.  (Were frame 0 free, a run starting there would return 0 too.) *)
Theorem pmm_alloc_contiguous_first_fit (st : pmm) (n : Z)
  (W : pmm_wf st) (Hn : 0 < n < 2 ^ 64) :
  ((exists f, run_at st f n /\ (forall g, 0 <= g < f -> ~ run_at st g n) /\
     snd (pmm_alloc_contiguous st n) = f * PAGE_SIZE /\
     pmm_wf (fst (pmm_alloc_contiguous st n)) /\
     g_free (fst (pmm_alloc_contiguous st n)) = g_free st - n /\
     forall g, 0 <= g ->
       bit_test (g_bitmap (fst (pmm_alloc_contiguous st n))) g =
         ((f <=? g) && (g <? f + n)) || bit_test (g_bitmap st) g)
  \/ ((forall f, ~ run_at st f n) /\ pmm_alloc_contiguous st n = (st, 0)))
  /\ (~ is_free st 0 -> snd (pmm_alloc_contiguous st n) = 0 <-> forall f, ~ run_at st f n).
Proof.
  unfold pmm_alloc_contiguous. destruct (Z.eqb_spec n 0); [lia|].
  pose proof (wf_total st W).
  destruct (contig_from_spec st n W Hn (S (Z.to_nat (g_total st))) 0)
    as [(f & Hr & Hmin & ->) | [Hno ->]]; [lia|lia|by left|intros; lia| |split; [by right | done]].
  split.
  - left. exists f. destruct (take_run_spec st f n W) as (H1 & H2 & H3); [lia|done|].
    split; [done|]. split; [done|]. split; [done|]. done.
  - intros Hz. split; [|intros Hno; by destruct (Hno f)]. cbn [snd]. unfold PAGE_SIZE. intros E.
    destruct Hz. destruct Hr as (R1 & R2 & R3). assert (f = 0) by lia. subst f. split; [lia|].
    rewrite <- (R3 0) by lia. f_equal.
Qed.

(** ** Boot-time construction of the bitmap *)

Lemma elem_frames f first last total :
  f ∈ frames first last total <-> first <= f < last /\ f < total.
Proof. unfold frames. rewrite elem_of_seqZ. lia. Qed.

Lemma mark_used_loop (l : list Z) : forall st,
  pmm_wf st -> (forall f, f ∈ l -> 0 <= f < g_total st) ->
  let st' := foldl mark_used_step st l in
  pmm_wf st' /\ g_total st' = g_total st /\
  forall g, 0 <= g -> bit_test (g_bitmap st') g = bool_decide (g ∈ l) || bit_test (g_bitmap st) g.
Proof.
  induction l as [|f l IH]; intros st W Hl; cbn [foldl].
  { split; [done|]. split; [done|]. intros.
    rewrite bool_decide_eq_false_2 by apply not_elem_of_nil. done. }
  assert (Hf : 0 <= f < g_total st) by (apply Hl; left).
  assert (Hs : pmm_wf (mark_used_step st f) /\ g_total (mark_used_step st f) = g_total st /\
     forall g, 0 <= g -> bit_test (g_bitmap (mark_used_step st f)) g = (f =? g) || bit_test (g_bitmap st) g).
  { unfold mark_used_step. destruct (bit_test (g_bitmap st) f) eqn:E.
    - split; [done|]. split; [done|]. intros. destruct (Z.eqb_spec f g) as [<-|]; [by rewrite E|done].
    - split; [apply wf_take; [done|by split|apply W]|]. split; [done|].
      intros. apply bit_set_test; [by apply wf_cover|done]. }
  destruct Hs as (W1 & Ht1 & Hb1).
  destruct (IH _ W1) as (W2 & Ht2 & Hb2); [intros; rewrite Ht1; apply Hl; by right|].
  split; [done|]. split; [congruence|]. intros g Hg. rewrite Hb2, Hb1, orb_assoc by done. f_equal.
  destruct (Z.eqb_spec f g) as [->|].
  - rewrite orb_true_r. symmetry. apply bool_decide_eq_true_2. left.
  - rewrite orb_false_r. apply bool_decide_ext. rewrite elem_of_cons. intuition congruence.
Qed.

Lemma mark_free_loop (l : list Z) : forall st,
  pmm_wf st -> (forall f, f ∈ l -> 0 <= f < g_total st) ->
  let st' := foldl mark_free_step st l in
  pmm_wf st' /\ g_total st' = g_total st /\
  forall g, 0 <= g -> bit_test (g_bitmap st') g = negb (bool_decide (g ∈ l)) && bit_test (g_bitmap st) g.
Proof.
  induction l as [|f l IH]; intros st W Hl; cbn [foldl].
  { split; [done|]. split; [done|]. intros.
    rewrite bool_decide_eq_false_2 by apply not_elem_of_nil. done. }
  assert (Hf : 0 <= f < g_total st) by (apply Hl; left).
  assert (Hs : pmm_wf (mark_free_step st f) /\ g_total (mark_free_step st f) = g_total st /\
     forall g, 0 <= g -> bit_test (g_bitmap (mark_free_step st f)) g = negb (f =? g) && bit_test (g_bitmap st) g).
  { unfold mark_free_step. destruct (bit_test (g_bitmap st) f) eqn:E.
    - split; [apply wf_release; auto; apply W|]. split; [done|].
      intros. apply bit_clear_test; [apply W|by apply wf_cover|done].
    - split; [done|]. split; [done|]. intros. destruct (Z.eqb_spec f g) as [<-|]; [by rewrite E|done]. }
  destruct Hs as (W1 & Ht1 & Hb1).
  destruct (IH _ W1) as (W2 & Ht2 & Hb2); [intros; rewrite Ht1; apply Hl; by right|].
  split; [done|]. split; [congruence|]. intros g Hg. rewrite Hb2, Hb1, andb_assoc by done. f_equal.
  destruct (Z.eqb_spec f g) as [->|].
  - rewrite andb_false_r. symmetry. apply negb_false_iff, bool_decide_eq_true_2. left.
  - rewrite andb_true_r. f_equal. apply bool_decide_ext. rewrite elem_of_cons. intuition congruence.
Qed.

(** Frame [f] meets the bytes [base, base + size), rounded out to frames. *)
Definition touches (f base size : Z) : Prop :=
  base / PAGE_SIZE <= f < u64 (base + size + PAGE_SIZE - 1) / PAGE_SIZE.
(** Frame [f] lies wholly inside the bytes [base, base + size). *)
Definition inside (f base size : Z) : Prop :=
  u64 (base + PAGE_SIZE - 1) / PAGE_SIZE <= f < u64 (base + size) / PAGE_SIZE.

Lemma mark_used_free st base size g :
  pmm_wf st -> 0 <= base ->
  pmm_wf (mark_used st base size) /\ g_total (mark_used st base size) = g_total st /\
  (is_free (mark_used st base size) g <-> is_free st g /\ ~ touches g base size).
Proof.
  intros W Hb. unfold mark_used.
  set (a := base / PAGE_SIZE). assert (0 <= a) by (apply Z.div_pos; unfold PAGE_SIZE; lia).
  destruct (mark_used_loop (frames a (u64 (base + size + PAGE_SIZE - 1) / PAGE_SIZE) (g_total st)) st W)
    as (W' & Ht & Hbits).
  { intros f Hf. apply elem_frames in Hf. lia. }
  split; [done|]. split; [done|]. unfold is_free, touches. fold a. rewrite Ht.
  split.
  - intros [Hr Hc]. rewrite Hbits in Hc by lia. apply orb_false_iff in Hc as [Hn Hc].
    apply bool_decide_eq_false in Hn. rewrite elem_frames in Hn. split; [done|]. lia.
  - intros [[Hr Hc] Hn]. split; [done|]. rewrite Hbits by lia. rewrite Hc, orb_false_r.
    apply bool_decide_eq_false_2. rewrite elem_frames. lia.
Qed.

Lemma mark_free_free st base size g :
  pmm_wf st ->
  pmm_wf (mark_free st base size) /\ g_total (mark_free st base size) = g_total st /\
  (is_free (mark_free st base size) g <-> is_free st g \/ (0 <= g < g_total st /\ inside g base size)).
Proof.
  intros W. unfold mark_free.
  set (a := u64 (base + PAGE_SIZE - 1) / PAGE_SIZE).
  assert (0 <= a).
  { apply Z.div_pos; [|unfold PAGE_SIZE; lia]. pose proof (u64_range (base + PAGE_SIZE - 1)). lia. }
  destruct (mark_free_loop (frames a (u64 (base + size) / PAGE_SIZE) (g_total st)) st W)
    as (W' & Ht & Hbits).
  { intros f Hf. apply elem_frames in Hf. lia. }
  split; [done|]. split; [done|]. unfold is_free, inside. fold a. rewrite Ht.
  split.
  - intros [Hr Hc]. rewrite Hbits in Hc by lia. apply andb_false_iff in Hc as [Hn|Hc]; [|auto].
    apply negb_false_iff, bool_decide_eq_true in Hn. rewrite elem_frames in Hn. right. lia.
  - intros [[Hr Hc]|[Hr Hi]]; (split; [lia|]); rewrite Hbits by lia.
    + by rewrite Hc, andb_false_r.
    + rewrite bool_decide_eq_true_2; [done|]. apply elem_frames. lia.
Qed.

Lemma all_used_test n f : 0 <= f < 8 * Z.of_nat n -> bit_test (repeat 255 n) f = true.
Proof.
  intros Hf. rewrite bit_test_testbit.
  assert (E : aget 0 (repeat 255 n) (f / 8) = 255).
  { unfold aget. assert (0 <= f / 8 < Z.of_nat n).
    { split; [apply Z.div_pos; lia | apply Z.div_lt_upper_bound; lia]. }
    destruct (Z.ltb_spec (f / 8) 0); [lia|].
    apply (repeat_spec n). apply nth_In. rewrite repeat_length. lia. }
  rewrite E. pose proof (Z.mod_pos_bound f 8 ltac:(lia)).
  change 255 with (Z.ones 8). apply Z.ones_spec_low. lia.
Qed.

Lemma all_used_wf total bytes log :
  0 <= total <= 2 ^ 52 -> bytes = (total + 7) / 8 ->
  pmm_wf (Pmm (repeat 255 (Z.to_nat bytes)) bytes total 0 log 0 0).
Proof.
  intros Ht ->. assert (0 <= (total + 7) / 8) by (apply Z.div_pos; lia).
  constructor; simpl; auto; [| |symmetry; apply nclear_zero|lia].
  - unfold alen. rewrite repeat_length, Z2Nat.id by lia. done.
  - apply List.Forall_forall. intros x Hx. apply repeat_spec in Hx. lia.
  - intros f Hf. apply all_used_test. rewrite Z2Nat.id in * by lia.
    pose proof (Z.div_mod (total + 7) 8). pose proof (Z.mod_pos_bound (total + 7) 8). lia.
Qed.

Lemma free_usable_loop (mm : list memmap_entry) g : forall st,
  pmm_wf st ->
  let st' := foldl free_usable st mm in
  pmm_wf st' /\ g_total st' = g_total st /\
  (is_free st' g <-> is_free st g \/
     (0 <= g < g_total st /\ exists e, In e mm /\ usable e = true /\ inside g (e_base e) (e_length e))).
Proof.
  induction mm as [|e mm IH]; intros st W; cbn [foldl].
  { split; [done|]. split; [done|]. split; [auto|]. intros [?|(_ & e & [] & _)]. done. }
  assert (W1 : pmm_wf (free_usable st e) /\ g_total (free_usable st e) = g_total st /\
    (is_free (free_usable st e) g <-> is_free st g \/
      (0 <= g < g_total st /\ usable e = true /\ inside g (e_base e) (e_length e)))).
  { unfold free_usable. destruct (usable e).
    - pose proof (mark_free_free st (e_base e) (e_length e) g W) as (? & ? & Hi).
      split; [done|]. split; [done|]. rewrite Hi. tauto.
    - split; [done|]. split; [done|]. intuition congruence. }
  destruct W1 as (W1 & Ht1 & Hi1). destruct (IH _ W1) as (W2 & Ht2 & Hi2).
  split; [done|]. split; [congruence|]. rewrite Hi2, Hi1, Ht1. clear.
  split.
  - intros [[?|(Hr & Hu & Hin)]|(Hr & e' & He' & Hu & Hin)].
    + by left.
    + right. split; [done|]. exists e. simpl. auto.
    + right. split; [done|]. exists e'. simpl. auto.
  - intros [?|(Hr & e' & [->|He'] & Hu & Hin)]; [auto|auto|].
    right. split; [done|]. eauto.
Qed.

Lemma highest_usable_range mm : 0 <= highest_usable mm < 2 ^ 64.
Proof.
  unfold highest_usable.
  assert (H : forall hi, 0 <= hi < 2 ^ 64 ->
    0 <= foldl (fun hi e => if usable e then Z.max hi (u64 (e_base e + e_length e)) else hi) hi mm < 2 ^ 64).
  { induction mm as [|e mm IH]; intros hi Hhi; simpl; [done|].
    apply IH. case_match; [|done]. pose proof (u64_range (e_base e + e_length e)). lia. }
  apply H. lia.
Qed.

(** The kernel image's span, when the bootloader reported it. *)
Definition touches_kernel (f : Z) (kaddr : option (Z * Z)) (kend : Z) : Prop :=
  match kaddr with Some (pb, vb) => touches f pb (u64 (kend - vb)) | None => False end.

Lemma mark_kernel_free st kaddr kend f :
  pmm_wf st -> match kaddr with Some (pb, _) => 0 <= pb | None => True end ->
  pmm_wf (mark_kernel st kaddr kend) /\ g_total (mark_kernel st kaddr kend) = g_total st /\
  (is_free (mark_kernel st kaddr kend) f <-> is_free st f /\ ~ touches_kernel f kaddr kend).
Proof.
  intros W Hk. unfold mark_kernel, touches_kernel.
  destruct kaddr as [[pb vb]|]; [by apply mark_used_free|tauto].
Qed.

Lemma touches_low f : touches f 0 1048576 <-> 0 <= f < 256.
Proof.
  unfold touches. replace (u64 _ / PAGE_SIZE) with 256 by done.
  replace (0 / PAGE_SIZE) with 0 by done. done.
Qed.

(** The steps of [pmm_init] once the panics are ruled out. *)
Lemma pmm_init_inv mm kaddr kend st :
  Forall (fun e => 0 <= e_base e) mm ->
  pmm_init (Some mm) kaddr kend = Ok st ->
  exists b st0, In b mm /\ usable b = true /\ 0 <= e_base b /\
    (g_total st0 + 7) / 8 <= e_length b /\ pmm_wf st0 /\ (forall f, ~ is_free st0 f) /\
    st = mark_used (mark_kernel (mark_used (foldl free_usable st0 mm) 0 1048576) kaddr kend)
           (e_base b) ((g_total st0 + 7) / 8).
Proof.
  intros Hmm. unfold pmm_init. pose proof (highest_usable_range mm) as Hhr.
  set (hi := highest_usable mm) in *. destruct (hi =? 0); [done|].
  assert (Htot : 0 <= hi / PAGE_SIZE <= 2 ^ 52).
  { split; [apply Z.div_pos; unfold PAGE_SIZE; lia|].
    apply Z.div_le_upper_bound; unfold PAGE_SIZE; lia. }
  set (total := hi / PAGE_SIZE) in *.
  replace (u64 (total + 7) / 8) with ((total + 7) / 8) by (rewrite u64_small; lia).
  set (bytes := (total + 7) / 8).
  destruct (List.find _ mm) as [b|] eqn:Efind; [|done].
  apply find_some in Efind as [Hb Hub]. apply andb_true_iff in Hub as [Hub Hlb].
  apply Z.leb_le in Hlb. destruct (e_base b =? 0); [done|]. intros [= <-].
  set (st0 := Pmm _ bytes total 0 _ 0 0).
  assert (W0 : pmm_wf st0) by by apply all_used_wf.
  exists b, st0. split; [done|]. split; [done|].
  split; [rewrite List.Forall_forall in Hmm; by apply Hmm|].
  split; [done|]. split; [done|]. split; [|done].
  intros f [Hr Hc]. simpl in Hr, Hc. rewrite all_used_test in Hc; [done|].
  pose proof (wf_cover st0 f W0 Hr) as Hcov. simpl in Hcov. unfold alen in Hcov.
  rewrite repeat_length in Hcov. done.
Qed.

(** When [pmm_init] does not panic it establishes the invariant, and a
    frame is free exactly when it lies wholly inside a usable region, above
    1 MiB, outside the kernel image and outside the bitmap itself, which is
    parked at the base of a usable region large enough for it. *)
Theorem pmm_init_free_frames (mm : list memmap_entry) (kaddr : option (Z * Z)) (kend : Z) (st : pmm)
  (Hmm : Forall (fun e => 0 <= e_base e) mm)
  (Hk : match kaddr with Some (pb, _) => 0 <= pb | None => True end)
  (Hi : pmm_init (Some mm) kaddr kend = Ok st) :
  pmm_wf st /\
  exists b, In b mm /\ usable b = true /\ (g_total st + 7) / 8 <= e_length b /\
  forall f, is_free st f <->
    0 <= f < g_total st /\
    (exists e, In e mm /\ usable e = true /\ inside f (e_base e) (e_length e)) /\
    256 <= f /\ ~ touches_kernel f kaddr kend /\
    ~ touches f (e_base b) ((g_total st + 7) / 8).
Proof.
  destruct (pmm_init_inv _ _ _ _ Hmm Hi) as (b & st0 & Hb & Hub & Hb0 & Hlb & W0 & F0 & ->).
  assert (T : forall f, let st := mark_used (mark_kernel (mark_used (foldl free_usable st0 mm) 0 1048576) kaddr kend)
      (e_base b) ((g_total st0 + 7) / 8) in
    pmm_wf st /\ g_total st = g_total st0 /\
    (is_free st f <-> 0 <= f < g_total st0 /\
      (exists e, In e mm /\ usable e = true /\ inside f (e_base e) (e_length e)) /\
      256 <= f /\ ~ touches_kernel f kaddr kend /\
      ~ touches f (e_base b) ((g_total st0 + 7) / 8))).
  { intros f.
    destruct (free_usable_loop mm f st0 W0) as (W1 & T1 & E1).
    destruct (mark_used_free _ 0 1048576 f W1) as (W2 & T2 & E2); [lia|].
    destruct (mark_kernel_free _ kaddr kend f W2 Hk) as (W3 & T3 & E3).
    destruct (mark_used_free _ (e_base b) ((g_total st0 + 7) / 8) f W3) as (W4 & T4 & E4); [lia|].
    split; [done|]. split; [congruence|].
    rewrite E4, E3, E2, E1, touches_low. specialize (F0 f). intuition lia. }
  destruct (T 0) as (W & Ht & _). split; [done|]. exists b. rewrite Ht.
  split; [done|]. split; [done|]. split; [done|]. intros f. apply T.
Qed.

(** ** Witnesses *)

(** Sixteen frames of which 8, 9, 10 and 11 are free. *)
Definition demo_pmm : pmm := Pmm [255; 240] 2 16 4 [] 0 0.

Lemma demo_pmm_wf : pmm_wf demo_pmm.
Proof. constructor; simpl; try lia; try done. repeat constructor; lia. Qed.

Lemma pmm_alloc_free_roundtrip_witness :
  let st2 := pmm_free (fst (pmm_alloc demo_pmm)) (8 * PAGE_SIZE) 0 in
  g_free st2 = 4 /\ pmm_free st2 (8 * PAGE_SIZE) 1 = st2.
Proof.
  destruct (pmm_alloc_free_roundtrip demo_pmm (fst (pmm_alloc demo_pmm)) (8 * PAGE_SIZE) 0 1
              demo_pmm_wf) as (_ & H1 & _ & H2); [vm_compute; reflexivity | vm_compute; lia |].
  split; [exact H1 | exact H2].
Defined.

Lemma pmm_alloc_contiguous_first_fit_witness :
  pmm_wf demo_pmm /\ snd (pmm_alloc_contiguous demo_pmm 3) = 8 * PAGE_SIZE /\
  (forall f, ~ run_at demo_pmm f 5) /\ ~ (forall f, ~ run_at demo_pmm f 3).
Proof.
  assert (Hz : ~ is_free demo_pmm 0) by (intros [_ E]; vm_compute in E; discriminate E).
  split; [apply demo_pmm_wf|]. split; [vm_compute; reflexivity|].
  destruct (pmm_alloc_contiguous_first_fit demo_pmm 5 demo_pmm_wf ltac:(lia)) as [_ H5].
  destruct (pmm_alloc_contiguous_first_fit demo_pmm 3 demo_pmm_wf ltac:(lia)) as [_ H3].
  split; [apply (H5 Hz); vm_compute; reflexivity|]. intros Hno. apply (H3 Hz) in Hno. vm_compute in Hno. discriminate Hno.
Defined.

(** One usable region of sixteen frames just above 1 MiB. *)
Definition demo_map : list memmap_entry := [MemmapEntry 1048576 65536 0].
Definition demo_boot : pmm :=
  match pmm_init (Some demo_map) (Some (1052672, 0)) 4096 with Ok st => st | Panic => demo_pmm end.

Lemma pmm_init_free_frames_witness :
  g_free demo_boot = 14 /\ pmm_wf demo_boot.
Proof.
  split; [vm_compute; reflexivity|].
  apply (pmm_init_free_frames demo_map (Some (1052672, 0)) 4096 demo_boot).
  - repeat constructor; vm_compute; congruence.
  - lia.
  - vm_compute. reflexivity.
Defined.
