(* ===== verification/FrameRef.v ===== *)
(** * mm/vmm.c: physical-frame reference counts

    The open-addressing table that counts how many page-table entries point at
    a shared frame: linear probing from a multiplicative hash, deletion by
    tombstone.  The table refines a finite map from frames to counts. *)
From S2P Require Import Prelude Pmm.
#[local] Open Scope Z_scope.

(** ** Data *)

Definition FRAME_SLOTS := 65536.

Inductive slot_state := SLOT_FREE | SLOT_USED | SLOT_TOMB.
#[export] Instance slot_state_eq_dec : EqDecision slot_state.
Proof. solve_decision. Defined.

Record frameref := Frameref { frame : Z; refs : Z; used : slot_state }.

(** [g_shm] by index, and [g_frame_slots_used]. *)
Record frametab := Frametab { slots : Z -> frameref; slots_used : Z }.

Definition frametab_boot : frametab := Frametab (fun _ => Frameref 0 0 SLOT_FREE) 0.

Definition set_slot (t : frametab) (i : Z) (s : frameref) (n : Z) : frametab :=
  Frametab (fun j => if j =? i then s else slots t j) n.

(** ** Operations *)

Definition shm_hash (f : Z) : Z :=
  let h := u64 (Z.shiftr f 12 * 0x9E3779B97F4A7C15) in
  Z.land (Z.shiftr h 32) (FRAME_SLOTS - 1).

(** The [n]-th slot probed for [f]. *)
Definition probe (f : Z) (n : Z) : Z := Z.land (u32 (shm_hash f + n)) (FRAME_SLOTS - 1).

(** The probe loop of [shm_find_locked], with [k] probes left after the first [n]. *)
Fixpoint find_from (t : frametab) (f : Z) (n : Z) (k : nat) : option Z :=
  match k with
  | O => None
  | S k' =>
      let i := probe f n in
      match used (slots t i) with
      | SLOT_FREE => None
      | SLOT_USED => if frame (slots t i) =? f then Some i else find_from t f (n + 1) k'
      | SLOT_TOMB => find_from t f (n + 1) k'
      end
  end.

Definition shm_find_locked (t : frametab) (f : Z) : option Z :=
  find_from t f 0 (Z.to_nat FRAME_SLOTS).

(** The first probed slot that is not in use: tombstones are reused. *)
Fixpoint room_from (t : frametab) (f : Z) (n : Z) (k : nat) : option Z :=
  match k with
  | O => None
  | S k' =>
      let i := probe f n in
      if bool_decide (used (slots t i) = SLOT_USED) then room_from t f (n + 1) k' else Some i
  end.

Definition claim_slot (t : frametab) (f : Z) : option frametab :=
  match room_from t f 0 (Z.to_nat FRAME_SLOTS) with
  | None => None
  | Some i => Some (set_slot t i (Frameref f 1 SLOT_USED) (u32 (slots_used t + 1)))
  end.

Definition vmm_share_frame (t : frametab) (f : Z) : frametab * Z :=
  match shm_find_locked t f with
  | Some _ => (t, 0)
  | None => match claim_slot t f with Some t' => (t', 1) | None => (t, -1) end
  end.

Definition add_ref (t : frametab) (i : Z) : frametab :=
  let s := slots t i in set_slot t i (Frameref (frame s) (u32 (refs s + 1)) (used s)) (slots_used t).

Definition vmm_share_ref (t : frametab) (f : Z) : frametab * Z :=
  match shm_find_locked t f with
  | Some i => (add_ref t i, 0)
  | None => (t, -1)
  end.

Definition bury (t : frametab) (i r : Z) : frametab :=
  set_slot t i (Frameref 0 r SLOT_TOMB) (u32 (slots_used t - 1)).

(** Dropping a reference returns the frame to the allocator with the last one;
    [ra] is the return address [pmm_free] logs. *)
Definition vmm_share_unref (t : frametab) (pm : pmm) (f ra : Z) : frametab * pmm * Z :=
  match shm_find_locked t f with
  | None => (t, pm, -1)
  | Some i =>
      let s := slots t i in
      let r := u32 (refs s - 1) in
      if r =? 0 then (bury t i 0, pmm_free pm f ra, 0)
      else (set_slot t i (Frameref (frame s) r (used s)) (slots_used t), pm, 0)
  end.

Definition vmm_frame_ref_inc (t : frametab) (f : Z) : frametab * Z :=
  match shm_find_locked t f with
  | Some i => (add_ref t i, 0)
  | None => match claim_slot t f with Some t' => (t', 0) | None => (t, -1) end
  end.

Definition vmm_frame_ref_count (t : frametab) (f : Z) : Z :=
  match shm_find_locked t f with Some i => s32 (refs (slots t i)) | None => -1 end.

Definition vmm_frame_ref_slots (t : frametab) : Z := slots_used t.

Definition frame_ref_forget_if_last (t : frametab) (f : Z) : frametab :=
  match shm_find_locked t f with
  | Some i => if refs (slots t i) =? 1 then bury t i 1 else t
  | None => t
  end.

(** ** The table as a finite map *)

Notation counts := (gmap Z Z).

Definition is_idx (i : Z) : Prop := 0 <= i < FRAME_SLOTS.
Definition in_use (t : frametab) (i : Z) : Prop := used (slots t i) = SLOT_USED.
#[export] Instance in_use_dec t i : Decision (in_use t i).
Proof. unfold in_use. apply _. Defined.

(** Every slot in use is a binding, each frame has one slot, and no free slot
    interrupts the probe sequence that leads to it. *)
Record ftab_ok (t : frametab) (m : counts) : Prop := {
  fo_used : forall i, is_idx i -> in_use t i -> m !! frame (slots t i) = Some (refs (slots t i));
  fo_inj : forall i j, is_idx i -> is_idx j -> in_use t i -> in_use t j ->
    frame (slots t i) = frame (slots t j) -> i = j;
  fo_chain : forall f r, m !! f = Some r -> exists n, 0 <= n < FRAME_SLOTS /\
    in_use t (probe f n) /\ frame (slots t (probe f n)) = f /\
    (forall k, 0 <= k < n -> used (slots t (probe f k)) <> SLOT_FREE);
  fo_refs : forall f r, m !! f = Some r -> 1 <= r < 2 ^ 32;
  fo_count : slots_used t = Z.of_nat (size m) }.

Lemma land_slots x : Z.land x (FRAME_SLOTS - 1) = x mod FRAME_SLOTS.
Proof. change (FRAME_SLOTS - 1) with (Z.ones 16). by rewrite Z.land_ones. Qed.

Lemma probe_mod f n : probe f n = (shm_hash f + n) mod FRAME_SLOTS.
Proof.
  unfold probe. rewrite land_slots. unfold u32, FRAME_SLOTS.
  change (2 ^ 32) with (65536 * 65536). rewrite Z.rem_mul_r by lia.
  rewrite Z.mul_comm, Z.mod_add by lia. apply Z.mod_mod. lia.
Qed.

Lemma probe_idx f n : is_idx (probe f n).
Proof. rewrite probe_mod. apply Z.mod_pos_bound. done. Qed.

Lemma probe_onto f i : is_idx i -> exists n, 0 <= n < FRAME_SLOTS /\ probe f n = i.
Proof.
  intros Hi. exists ((i - shm_hash f) mod FRAME_SLOTS). split; [by apply Z.mod_pos_bound|].
  rewrite probe_mod, Zplus_mod_idemp_r. replace (shm_hash f + (i - shm_hash f)) with i by lia.
  by apply Z.mod_small.
Qed.

(** ** The probe loops *)

Lemma find_from_some t f k : forall n i, find_from t f n k = Some i ->
  is_idx i /\ in_use t i /\ frame (slots t i) = f.
Proof.
  induction k as [|k IH]; intros n i E; simpl in E; [done|].
  destruct (used (slots t (probe f n))) eqn:U; [done | | by eapply IH].
  destruct (Z.eqb_spec (frame (slots t (probe f n))) f); [|by eapply IH].
  simplify_eq. split; [apply probe_idx | done].
Qed.

Lemma find_from_none t f k : forall n j, find_from t f n k = None -> n <= j < n + Z.of_nat k ->
  (forall i, n <= i < j -> used (slots t (probe f i)) <> SLOT_FREE) ->
  ~ (in_use t (probe f j) /\ frame (slots t (probe f j)) = f).
Proof.
  induction k as [|k IH]; intros n j E Hj Hc [Hu Hf]; [lia|]. simpl in E. unfold in_use in Hu.
  destruct (Z.eq_dec n j) as [->|Hne].
  - rewrite Hu, Hf, Z.eqb_refl in E. done.
  - assert (Hn : used (slots t (probe f n)) <> SLOT_FREE) by (apply Hc; lia).
    assert (E' : find_from t f (n + 1) k = None)
      by (destruct (used (slots t (probe f n))); [done | by case_match | done]).
    apply (IH (n + 1) j E'); [lia | | done]. intros i Hi. apply Hc. lia.
Qed.

Lemma find_spec t m f : ftab_ok t m ->
  match shm_find_locked t f with
  | Some i => is_idx i /\ in_use t i /\ frame (slots t i) = f /\ m !! f = Some (refs (slots t i))
  | None => m !! f = None
  end.
Proof.
  intros H. unfold shm_find_locked. destruct (find_from t f 0 _) as [i|] eqn:E.
  - apply find_from_some in E as (Hi & Hu & Hf). repeat split; try done; try apply Hi.
    rewrite <- Hf at 1. by apply (fo_used t m H).
  - destruct (m !! f) as [r|] eqn:Em; [|done]. exfalso.
    destruct (fo_chain t m H f r Em) as (n & Hn & Hu & Hf & Hc).
    by apply (find_from_none t f _ 0 n E).
Qed.

Lemma room_from_spec t f k : forall n,
  match room_from t f n k with
  | Some i => exists j, n <= j < n + Z.of_nat k /\ i = probe f j /\ ~ in_use t i /\
      (forall x, n <= x < j -> in_use t (probe f x))
  | None => forall x, n <= x < n + Z.of_nat k -> in_use t (probe f x)
  end.
Proof.
  induction k as [|k IH]; intros n; simpl; [lia|].
  case_bool_decide as U.
  - specialize (IH (n + 1)). destruct (room_from t f (n + 1) k) as [i|].
    + destruct IH as (j & Hj & -> & Hu & Hx). exists j. split; [lia|]. split; [done|]. split; [done|].
      intros x Hn. destruct (Z.eq_dec x n) as [->|]; [done|]. apply Hx. lia.
    + intros x Hn. destruct (Z.eq_dec x n) as [->|]; [done|]. apply IH. lia.
  - exists n. split; [lia|]. split; [done|]. split; [done|]. lia.
Qed.

(** ** Counting the slots in use *)

Lemma filter_all {A} (P : A -> Prop) `{forall x, Decision (P x)} (l : list A) :
  (forall x, x ∈ l -> P x) -> filter P l = l.
Proof.
  induction l as [|x l IH]; intros Hl; [done|].
  rewrite filter_cons_True by (apply Hl; set_solver). f_equal. apply IH. set_solver.
Qed.

Definition live_slots (t : frametab) : list Z := filter (in_use t) (seqZ 0 FRAME_SLOTS).

Lemma live_slots_spec t i : i ∈ live_slots t <-> is_idx i /\ in_use t i.
Proof. unfold live_slots, is_idx. rewrite list_elem_of_filter, elem_of_seqZ. naive_solver lia. Qed.

Lemma live_slots_size t m : ftab_ok t m -> size m = length (live_slots t).
Proof.
  intros H. rewrite <- size_dom.
  assert (E : dom m = list_to_set ((fun i => frame (slots t i)) <$> live_slots t)).
  { apply set_eq. intros f. rewrite elem_of_list_to_set, list_elem_of_fmap, elem_of_dom. split.
    - intros [r Hr]. destruct (fo_chain t m H f r Hr) as (n & Hn & Hu & Hf & _).
      exists (probe f n). split; [done|]. apply live_slots_spec. split; [apply probe_idx | done].
    - intros (i & -> & Hi). apply live_slots_spec in Hi as [Hi Hu].
      rewrite (fo_used t m H i Hi Hu). eauto. }
  rewrite E, size_list_to_set, length_fmap; [done|].
  apply NoDup_fmap_2_strong.
  - intros i j Hi Hj Hf. apply live_slots_spec in Hi as [Hi Ui], Hj as [Hj Uj].
    by apply (fo_inj t m H).
  - apply NoDup_filter, NoDup_seqZ.
Qed.

Lemma size_le t m : ftab_ok t m -> Z.of_nat (size m) <= FRAME_SLOTS.
Proof.
  intros H. rewrite (live_slots_size t m H). unfold live_slots.
  pose proof (length_filter (in_use t) (seqZ 0 FRAME_SLOTS)) as L. rewrite length_seqZ in L.
  unfold FRAME_SLOTS in *. lia.
Qed.

(** ** Updating one slot *)

Lemma set_slot_eq t i s n : slots (set_slot t i s n) i = s.
Proof. simpl. by rewrite Z.eqb_refl. Qed.
Lemma set_slot_ne t i s n j : j <> i -> slots (set_slot t i s n) j = slots t j.
Proof. intros H. simpl. by destruct (Z.eqb_spec j i). Qed.

(** A probe chain survives any update that does not free a slot, as long as the
    slot it ends in is kept. *)
Lemma chain_kept t i s n f j :
  used s <> SLOT_FREE -> (forall k, 0 <= k < j -> used (slots t (probe f k)) <> SLOT_FREE) ->
  forall k, 0 <= k < j -> used (slots (set_slot t i s n) (probe f k)) <> SLOT_FREE.
Proof.
  intros Hs Hc k Hk. destruct (Z.eq_dec (probe f k) i) as [->|]; [by rewrite set_slot_eq|].
  rewrite set_slot_ne by done. by apply Hc.
Qed.

(** Giving frame [f] the count [r] in slot [i], which is either its own or one
    that was not in use and closes its probe chain. *)
Lemma bind_ok t m i f r n :
  ftab_ok t m -> is_idx i -> 1 <= r < 2 ^ 32 -> n = Z.of_nat (size (<[f:=r]> m)) ->
  (in_use t i -> frame (slots t i) = f) -> (m !! f <> None -> in_use t i) ->
  (exists j, 0 <= j < FRAME_SLOTS /\ probe f j = i /\
    forall k, 0 <= k < j -> used (slots t (probe f k)) <> SLOT_FREE) ->
  ftab_ok (set_slot t i (Frameref f r SLOT_USED) n) (<[f:=r]> m).
Proof.
  intros H Hi Hr Hn Hown Hnew (j & Hj & Hji & Hc).
  assert (Hoth : forall k, is_idx k -> k <> i -> in_use t k -> frame (slots t k) <> f).
  { intros k Hk Hne Hu E. assert (Hm : m !! f <> None) by (rewrite <- E, (fo_used t m H k Hk Hu); done).
    apply Hne, (fo_inj t m H); auto. rewrite Hown; auto. }
  constructor; unfold in_use.
  - intros k Hk. destruct (Z.eq_dec k i) as [->|Hne]; [rewrite set_slot_eq; intros _; apply lookup_insert_eq|].
    rewrite set_slot_ne by done. intros Hu. rewrite lookup_insert_ne; [by apply (fo_used t m H)|].
    by apply not_eq_sym, Hoth.
  - intros k l Hk Hl. destruct (Z.eq_dec k i) as [->|Hk'], (Z.eq_dec l i) as [->|Hl']; try done;
      rewrite ?set_slot_eq, ?set_slot_ne by done; simpl; intros Uk Ul E.
    + exfalso. by apply (Hoth l).
    + exfalso. by apply (Hoth k).
    + by apply (fo_inj t m H).
  - intros g x Hg. destruct (Z.eq_dec g f) as [->|Hne].
    + exists j. rewrite Hji. split; [done|]. rewrite set_slot_eq. split; [done|]. split; [done|].
      by apply chain_kept.
    + rewrite lookup_insert_ne in Hg by done.
      destruct (fo_chain t m H g x Hg) as (l & Hl & Hu & Hf & Hcl). exists l. split; [done|].
      assert (Hpi : probe g l <> i) by (intros E; apply Hne; rewrite <- Hf, E; apply Hown; by rewrite <- E).
      rewrite set_slot_ne by done. split; [done|]. split; [done|]. by apply chain_kept.
  - intros g x. destruct (Z.eq_dec g f) as [->|]; [rewrite lookup_insert_eq; by intros [= <-]|].
    rewrite lookup_insert_ne by done. apply (fo_refs t m H).
  - done.
Qed.

(** Turning the slot of [f] into a tombstone removes its binding. *)
Lemma bury_ok t m i f r x :
  ftab_ok t m -> is_idx i -> in_use t i -> frame (slots t i) = f -> m !! f = Some r ->
  ftab_ok (bury t i x) (delete f m).
Proof.
  intros H Hi Hu Hf Hm.
  assert (Hoth : forall k, is_idx k -> k <> i -> in_use t k -> frame (slots t k) <> f).
  { intros k Hk Hne Uk E. apply Hne, (fo_inj t m H); auto. by rewrite Hf. }
  unfold bury. constructor; unfold in_use.
  - intros k Hk. destruct (Z.eq_dec k i) as [->|Hne]; [by rewrite set_slot_eq|].
    rewrite set_slot_ne by done. intros Uk. rewrite lookup_delete_ne; [by apply (fo_used t m H)|].
    by apply not_eq_sym, Hoth.
  - intros k l Hk Hl. destruct (Z.eq_dec k i) as [->|Hk']; [by rewrite set_slot_eq|].
    destruct (Z.eq_dec l i) as [->|Hl']; [by rewrite set_slot_eq|].
    rewrite !set_slot_ne by done. by apply (fo_inj t m H).
  - intros g y Hg. destruct (Z.eq_dec g f) as [->|Hne]; [by rewrite lookup_delete_eq in Hg|].
    rewrite lookup_delete_ne in Hg by done.
    destruct (fo_chain t m H g y Hg) as (l & Hl & Ul & Fl & Hcl). exists l. split; [done|].
    assert (Hpi : probe g l <> i) by (intros E; apply Hne; by rewrite <- Fl, E).
    rewrite set_slot_ne by done. split; [done|]. split; [done|]. by apply chain_kept.
  - intros g y Hg. apply lookup_delete_Some in Hg as [_ Hg]. by apply (fo_refs t m H g).
  - simpl. rewrite (fo_count t m H). pose proof (size_le t m H).
    assert (0 < size m)%nat.
    { apply Nat.neq_0_lt_0. intros E. apply map_size_empty_iff in E. by rewrite E in Hm. }
    rewrite map_size_delete, Hm. unfold FRAME_SLOTS in *. rewrite u32_small; lia.
Qed.

(** ** Operations on a well-formed table *)

Lemma rebind_ok t m i f r :
  ftab_ok t m -> is_idx i -> in_use t i -> frame (slots t i) = f -> m !! f <> None -> 1 <= r < 2 ^ 32 ->
  ftab_ok (set_slot t i (Frameref f r SLOT_USED) (slots_used t)) (<[f:=r]> m).
Proof.
  intros H Hi Hu Hf Hm Hr. apply bind_ok; auto.
  - rewrite (fo_count t m H), map_size_insert. by destruct (m !! f).
  - destruct (m !! f) as [x|] eqn:E; [|done].
    destruct (fo_chain t m H f x E) as (n & Hn & Un & Fn & Hc). exists n. split; [done|]. split; [|done].
    apply (fo_inj t m H); auto using probe_idx. by rewrite Fn.
Qed.

Lemma claim_ok t m f : ftab_ok t m -> m !! f = None ->
  match claim_slot t f with
  | Some t' => ftab_ok t' (<[f:=1]> m)
  | None => Z.of_nat (size m) = FRAME_SLOTS
  end.
Proof.
  intros H Hm. unfold claim_slot. pose proof (room_from_spec t f (Z.to_nat FRAME_SLOTS) 0) as R.
  rewrite Z2Nat.id in R by done. destruct (room_from t f 0 _) as [i|].
  - destruct R as (j & Hj & -> & Hu & Hx). pose proof (probe_idx f j) as Hi.
    assert (Hlt : Z.of_nat (size m) < FRAME_SLOTS).
    { rewrite (live_slots_size t m H). unfold live_slots.
      pose proof (length_filter_lt (in_use t) (seqZ 0 FRAME_SLOTS) (probe f j)) as L.
      rewrite length_seqZ in L. unfold is_idx in Hi. rewrite elem_of_seqZ in L. specialize (L ltac:(lia) Hu).
      unfold FRAME_SLOTS in *. lia. }
    apply bind_ok; [done | done | lia | | done | done |].
    + rewrite (fo_count t m H), map_size_insert, Hm. unfold FRAME_SLOTS in *. rewrite u32_small; lia.
    + exists j. split; [lia|]. split; [done|]. intros k Hk E.
      pose proof (Hx k ltac:(lia)) as U. unfold in_use in U. by rewrite E in U.
  - rewrite (live_slots_size t m H). unfold live_slots. rewrite filter_all.
    + rewrite length_seqZ. done.
    + intros i Hi. apply elem_of_seqZ in Hi. destruct (probe_onto f i) as (n & Hn & <-); [done|].
      apply R. lia.
Qed.

(** ** The contract: a map from shared frames to reference counts *)

Inductive fop :=
| OpShare (f : Z)       (* vmm_share_frame *)
| OpRef (f : Z)         (* vmm_share_ref *)
| OpUnref (f ra : Z)    (* vmm_share_unref *)
| OpInc (f : Z)         (* vmm_frame_ref_inc *)
| OpCount (f : Z)       (* vmm_frame_ref_count *)
| OpForget (f : Z)      (* frame_ref_forget_if_last *)
| OpSlots.              (* vmm_frame_ref_slots *)

Definition fexec (t : frametab) (pm : pmm) (o : fop) : frametab * pmm * Z :=
  match o with
  | OpShare f => let '(t', r) := vmm_share_frame t f in (t', pm, r)
  | OpRef f => let '(t', r) := vmm_share_ref t f in (t', pm, r)
  | OpUnref f ra => vmm_share_unref t pm f ra
  | OpInc f => let '(t', r) := vmm_frame_ref_inc t f in (t', pm, r)
  | OpCount f => (t, pm, vmm_frame_ref_count t f)
  | OpForget f => (frame_ref_forget_if_last t f, pm, 0)
  | OpSlots => (t, pm, vmm_frame_ref_slots t)
  end.

(** The same operations on the map; a count is never taken past 32 bits. *)
Definition fspec (m : counts) (pm : pmm) (o : fop) : counts * pmm * Z :=
  match o with
  | OpShare f =>
      match m !! f with
      | Some _ => (m, pm, 0)
      | None => if Z.of_nat (size m) =? FRAME_SLOTS then (m, pm, -1) else (<[f:=1]> m, pm, 1)
      end
  | OpRef f => match m !! f with Some r => (<[f:=r + 1]> m, pm, 0) | None => (m, pm, -1) end
  | OpUnref f ra =>
      match m !! f with
      | None => (m, pm, -1)
      | Some r => if r =? 1 then (delete f m, pmm_free pm f ra, 0) else (<[f:=r - 1]> m, pm, 0)
      end
  | OpInc f =>
      match m !! f with
      | Some r => (<[f:=r + 1]> m, pm, 0)
      | None => if Z.of_nat (size m) =? FRAME_SLOTS then (m, pm, -1) else (<[f:=1]> m, pm, 0)
      end
  | OpCount f => (m, pm, match m !! f with Some r => s32 r | None => -1 end)
  | OpForget f => (if bool_decide (m !! f = Some 1) then delete f m else m, pm, 0)
  | OpSlots => (m, pm, Z.of_nat (size m))
  end.

Definition fallowed (m : counts) (o : fop) : Prop :=
  match o with
  | OpRef f | OpInc f => forall r, m !! f = Some r -> r + 1 < 2 ^ 32
  | _ => True
  end.

Lemma add_ref_ok t m i f r :
  ftab_ok t m -> is_idx i -> in_use t i -> frame (slots t i) = f -> refs (slots t i) = r ->
  m !! f = Some r -> r + 1 < 2 ^ 32 -> ftab_ok (add_ref t i) (<[f:=r + 1]> m).
Proof.
  intros H Hi Hu Hf Hr Hm Hlt. pose proof (fo_refs t m H f r Hm). unfold add_ref.
  rewrite Hf, Hr, Hu, u32_small by lia. apply rebind_ok; auto; [by rewrite Hm | lia].
Qed.

Lemma claim_full t m f : ftab_ok t m -> m !! f = None ->
  match claim_slot t f with
  | Some t' => ftab_ok t' (<[f:=1]> m) /\ Z.of_nat (size m) <> FRAME_SLOTS
  | None => Z.of_nat (size m) = FRAME_SLOTS
  end.
Proof.
  intros H Hm. pose proof (claim_ok t m f H Hm) as C. destruct (claim_slot t f) as [t'|]; [|done].
  split; [done|]. pose proof (size_le _ _ C) as L. rewrite map_size_insert, Hm in L. lia.
Qed.

Lemma frametab_boot_ok : ftab_ok frametab_boot ∅.
Proof. constructor; try done. Qed.

(** C23: The frame-count table refines a finite map.  Starting from the empty
    table, every operation (registering, referencing, dropping, counting,
    forgetting a frame) finds or updates exactly the binding of its frame, the
    other bindings and the tombstones left by deletions notwithstanding;
    registration fails only when all 65536 slots are in use; the frame goes
    back to the physical allocator exactly when the last reference is dropped;
    and the number of slots in use is the size of the map. *)
Theorem frame_refs_refine (t : frametab) (m : counts) (pm : pmm) (o : fop)
    (H : ftab_ok t m) (A : fallowed m o) :
  let '(t', pm', r) := fexec t pm o in
  exists m', fspec m pm o = (m', pm', r) /\ ftab_ok t' m'.
Proof.
  destruct o as [f|f|f ra|f|f|f|]; simpl in A |- *.
  - unfold vmm_share_frame. pose proof (find_spec t m f H) as F.
    destruct (shm_find_locked t f) as [i|]; [destruct F as (Hi & Hu & Hf & Hm)|]; [rewrite Hm; eauto|].
    rewrite F. pose proof (claim_full t m f H F) as C.
    destruct (claim_slot t f); destruct (Z.eqb_spec (Z.of_nat (size m)) FRAME_SLOTS); naive_solver.
  - unfold vmm_share_ref. pose proof (find_spec t m f H) as F.
    destruct (shm_find_locked t f) as [i|]; [destruct F as (Hi & Hu & Hf & Hm)|rewrite F; eauto].
    rewrite Hm. eexists. split; [done|]. by apply add_ref_ok; auto.
  - unfold vmm_share_unref. pose proof (find_spec t m f H) as F.
    destruct (shm_find_locked t f) as [i|]; [destruct F as (Hi & Hu & Hf & Hm)|rewrite F; eauto].
    pose proof (fo_refs t m H f _ Hm). rewrite Hm, u32_small by lia.
    destruct (Z.eqb_spec (refs (slots t i) - 1) 0), (Z.eqb_spec (refs (slots t i)) 1); try lia.
    + eexists. split; [done|]. by eapply bury_ok.
    + eexists. split; [done|]. rewrite Hf, Hu. apply rebind_ok; auto; [by rewrite Hm | lia].
  - unfold vmm_frame_ref_inc. pose proof (find_spec t m f H) as F.
    destruct (shm_find_locked t f) as [i|]; [destruct F as (Hi & Hu & Hf & Hm)|].
    + rewrite Hm. eexists. split; [done|]. by apply add_ref_ok; auto.
    + rewrite F. pose proof (claim_full t m f H F) as C.
      destruct (claim_slot t f); destruct (Z.eqb_spec (Z.of_nat (size m)) FRAME_SLOTS); naive_solver.
  - unfold vmm_frame_ref_count. pose proof (find_spec t m f H) as F.
    destruct (shm_find_locked t f) as [i|]; [destruct F as (Hi & Hu & Hf & Hm); rewrite Hm | rewrite F]; eauto.
  - unfold frame_ref_forget_if_last. pose proof (find_spec t m f H) as F.
    destruct (shm_find_locked t f) as [i|]; [destruct F as (Hi & Hu & Hf & Hm); rewrite Hm | rewrite F; eauto].
    destruct (Z.eqb_spec (refs (slots t i)) 1) as [E|E]; eexists; (split; [done|]); case_bool_decide; try congruence.
    by eapply bury_ok.
  - unfold vmm_frame_ref_slots. rewrite (fo_count t m H). eauto.
Qed.

Lemma frame_refs_refine_witness :
  let '(t', _, r) := fexec frametab_boot (Pmm [] 0 0 0 [] 0 0) (OpInc 4096) in
  exists m', fspec ∅ (Pmm [] 0 0 0 [] 0 0) (OpInc 4096) = (m', Pmm [] 0 0 0 [] 0 0, r) /\ ftab_ok t' m'.
Proof.
  apply (frame_refs_refine frametab_boot ∅ (Pmm [] 0 0 0 [] 0 0) (OpInc 4096) frametab_boot_ok).
  intros r Hr. discriminate Hr.
Defined.
