(* ===== verification/Vmm.v ===== *)
(** * mm/vmm.c: address spaces and page tables

    Four-level page tables in byte memory, reached through the direct map
    ([pmm_virt]), the frames they take from the physical allocator, the frame
    reference counts of FrameRef and the memory controller of
    kernel/cgroup/cgroup_mem.c.  TLB maintenance and debug output leave no
    trace in the state. *)
From S2P Require Import Prelude Mem Kstring Pmm FrameRef.
#[local] Open Scope Z_scope.
#[local] Open Scope list_scope.

(** ** Entry bits *)

Definition PTE_P := 0x001.
Definition PTE_RW := 0x002.
Definition PTE_U := 0x004.
Definition PTE_PWT := 0x008.
Definition PTE_PCD := 0x010.
Definition PTE_PS := 0x080.
Definition PTE_AVL := 0x200.
Definition PTE_COW := 0x400.
Definition PTE_NX := 0x8000000000000000.
Definition PTE_ADDR := 0x000FFFFFFFFFF000.

Definition VM_WRITE := 0x1.
Definition VM_USER := 0x2.
Definition VM_EXEC := 0x4.
Definition VM_EXTSHM := 0x8.

(** Some bit of the mask is set. *)
Definition has (x mask : Z) : bool := negb (Z.land x mask =? 0).

(** ** The memory controller (kernel/cgroup/cgroup_mem.c) *)

Definition MAX_CGS := 512.

Record cgmem := Cgmem { cg_live : bool; cg_parent : Z; mem_bytes : Z; mem_max : Z }.

(** The ancestor chain from [c] to the root, at most [k] long. *)
Fixpoint mem_chain (G : Z -> cgmem) (c : Z) (k : nat) : list Z :=
  match k with
  | O => []
  | S k => if c =? -1 then [] else c :: (if c =? 0 then [] else mem_chain G (cg_parent (G c)) k)
  end.

Definition cg_chain_of (G : Z -> cgmem) (c : Z) : list Z := mem_chain G c (Z.to_nat MAX_CGS).

Definition mem_limit_ok (G : Z -> cgmem) (c bytes : Z) : bool :=
  forallb (fun c => u64 (mem_bytes (G c) + bytes) <=? mem_max (G c)) (cg_chain_of G c).

Definition set_mem_bytes (G : Z -> cgmem) (c n : Z) : Z -> cgmem :=
  fun i => if i =? c then Cgmem (cg_live (G c)) (cg_parent (G c)) n (mem_max (G c)) else G i.

Definition cg_skip (G : Z -> cgmem) (cg bytes : Z) : bool :=
  (cg <? 0) || (MAX_CGS <=? cg) || negb (cg_live (G cg)) || (bytes =? 0).

Definition cg_mem_charge (G : Z -> cgmem) (cg bytes : Z) : (Z -> cgmem) * Z :=
  if cg_skip G cg bytes then (G, 0)
  else if negb (mem_limit_ok G cg bytes) then (G, - E_NOMEM)
  else (foldl (fun G c => set_mem_bytes G c (u64 (mem_bytes (G c) + bytes))) G (cg_chain_of G cg), 0).

Definition cg_mem_discharge (G : Z -> cgmem) (cg bytes : Z) : Z -> cgmem :=
  if cg_skip G cg bytes then G
  else foldl (fun G c => set_mem_bytes G c (if bytes <=? mem_bytes (G c) then mem_bytes (G c) - bytes else 0))
         G (cg_chain_of G cg).

(** ** State *)

Record mmap_rec := Mmap { m_base : Z; m_size : Z; m_flags : Z }.

Record addrspace := AS {
  pml4_phys : Z;
  as_refs : Z;
  pages : Z;
  as_cg : Z;
  mmaps : list mmap_rec;
  shared : list Z }.

Record vmst := Vm {
  vm_mem : mem;
  vm_pmm : pmm;
  vm_frames : frametab;
  vm_cgs : Z -> cgmem }.

Definition with_vmem (s : vmst) (m : mem) : vmst := Vm m (vm_pmm s) (vm_frames s) (vm_cgs s).
Definition with_pages (a : addrspace) (n : Z) : addrspace :=
  AS (pml4_phys a) (as_refs a) n (as_cg a) (mmaps a) (shared a).

Section Vmm.
(** The direct map, the kernel's top-level table and the return address that
    [pmm_free] logs. *)
Context (hhdm g_kernel_pml4_phys ra : Z).

Definition pte_at (t i : Z) : Z := pmm_virt hhdm t + 8 * i.
Definition rdp (s : vmst) (a : Z) : Z := ld64 (vm_mem s) a.
Definition wrp (s : vmst) (a v : Z) : vmst := with_vmem s (st64 (vm_mem s) a v).

Definition vm_alloc_zeroed (s : vmst) : vmst * Z :=
  let '(pm, m, p) := pmm_alloc_zeroed hhdm (vm_pmm s) (vm_mem s) in
  (Vm m pm (vm_frames s) (vm_cgs s), p).
Definition vm_alloc (s : vmst) : vmst * Z :=
  let '(pm, p) := pmm_alloc (vm_pmm s) in (Vm (vm_mem s) pm (vm_frames s) (vm_cgs s), p).
Definition vm_free (s : vmst) (p : Z) : vmst :=
  Vm (vm_mem s) (pmm_free (vm_pmm s) p ra) (vm_frames s) (vm_cgs s).
Definition vm_unref (s : vmst) (p : Z) : vmst :=
  let '(t, pm, _) := vmm_share_unref (vm_frames s) (vm_pmm s) p ra in Vm (vm_mem s) pm t (vm_cgs s).
Definition vm_copy_page (s : vmst) (dst src : Z) : vmst :=
  with_vmem s (memcpy (vm_mem s) (pmm_virt hhdm dst) (pmm_virt hhdm src) PAGE_SIZE).
Definition vm_charge (s : vmst) (cg : Z) : vmst * Z :=
  let '(G, r) := cg_mem_charge (vm_cgs s) cg PAGE_SIZE in (Vm (vm_mem s) (vm_pmm s) (vm_frames s) G, r).
Definition vm_discharge (s : vmst) (cg : Z) : vmst :=
  Vm (vm_mem s) (vm_pmm s) (vm_frames s) (cg_mem_discharge (vm_cgs s) cg PAGE_SIZE).

(** ** The walk *)

Definition pte_flags (flags : Z) : Z :=
  let f := PTE_P in
  let f := if has flags VM_WRITE then Z.lor f PTE_RW else f in
  let f := if has flags VM_USER then Z.lor f PTE_U else f in
  if negb (has flags VM_EXEC) then Z.lor f PTE_NX else f.

Definition idx_of (level va : Z) : Z := Z.land (Z.shiftr va (12 + 9 * (level - 1))) 0x1FF.
Definition page_of (va : Z) : Z := Z.land va (not64 0xFFF).

(** The children of a large page that is split, from [j] on. *)
Fixpoint split_fill (s : vmst) (child large pflags step leaf_ps j : Z) (k : nat) : vmst :=
  match k with
  | O => s
  | S k =>
      split_fill (wrp s (pte_at child j) (u64 (Z.land large PTE_ADDR + j * step + pflags + leaf_ps)))
        child large pflags step leaf_ps (j + 1) k
  end.

(** The entry at [a] gets a table below it when it has none. *)
Definition walk_present (s : vmst) (a : Z) (create : bool) : vmst * bool :=
  if has (rdp s a) PTE_P then (s, true)
  else if negb create then (s, false)
  else
    let '(s, next) := vm_alloc_zeroed s in
    if next =? 0 then (s, false) else (wrp s a (Z.lor (Z.lor next PTE_P) PTE_RW), true).

Definition walk_permit (s : vmst) (a : Z) (create : bool) (flags : Z) : vmst :=
  if create then
    let s := wrp s a (Z.lor (rdp s a) PTE_RW) in
    let s := if has flags VM_USER then wrp s a (Z.lor (rdp s a) PTE_U) else s in
    if has flags VM_EXEC then wrp s a (Z.land (rdp s a) (not64 PTE_NX)) else s
  else s.

Definition walk_split (s : vmst) (a level : Z) : vmst * bool :=
  if has (rdp s a) PTE_PS then
    let large := rdp s a in
    let pflags := Z.land large (Z.lor (Z.lor (Z.lor (Z.lor (Z.lor PTE_P PTE_RW) PTE_U) PTE_PWT) PTE_PCD) PTE_NX) in
    let step := if level =? 3 then Z.shiftl 1 21 else PAGE_SIZE in
    let leaf_ps := if level =? 3 then PTE_PS else 0 in
    let '(s, next) := vm_alloc_zeroed s in
    if next =? 0 then (s, false)
    else (wrp (split_fill s next large pflags step leaf_ps 0 512) a (Z.lor next pflags), true)
  else (s, true).

(** One turn of the loop: the table below, or none. *)
Definition walk_step (s : vmst) (cur level va : Z) (create : bool) (flags : Z) : vmst * option Z :=
  let a := pte_at cur (idx_of level va) in
  let '(s, ok) := walk_present s a create in
  if negb ok then (s, None)
  else
    let s := walk_permit s a create flags in
    let '(s, ok) := walk_split s a level in
    if negb ok then (s, None) else (s, Some (Z.land (rdp s a) PTE_ADDR)).

Fixpoint walk_from (k : nat) (s : vmst) (cur level va : Z) (create : bool) (flags : Z) : vmst * option Z :=
  match k with
  | O => (s, Some (pte_at cur (Z.land (Z.shiftr va 12) 0x1FF)))
  | S k =>
      match walk_step s cur level va create flags with
      | (s, None) => (s, None)
      | (s, Some next) => walk_from k s next (level - 1) va create flags
      end
  end.

Definition walk (s : vmst) (root va : Z) (create : bool) (flags : Z) : vmst * option Z :=
  walk_from 3 s root 4 va create flags.

(** ** Mapping and looking up *)

(** The new entry is written first; a shared frame it replaces loses a reference. *)
Definition vmm_map (s : vmst) (root vaddr paddr flags : Z) : vmst * bool :=
  match walk s root (page_of vaddr) true flags with
  | (s, None) => (s, false)
  | (s, Some pte) =>
      let old := rdp s pte in
      let had := has old PTE_P in
      let release := had && has old (Z.lor PTE_COW PTE_AVL)
                     && negb (Z.land old PTE_ADDR =? Z.land paddr PTE_ADDR) in
      let s := wrp s pte (Z.lor (Z.land paddr PTE_ADDR) (pte_flags flags)) in
      let s := if has flags VM_EXTSHM then wrp s pte (Z.lor (rdp s pte) PTE_AVL) else s in
      (if release then vm_unref s (Z.land old PTE_ADDR) else s, true)
  end.

(** The address of a present entry. *)
Definition present_pte (s : vmst) (root va : Z) : vmst * option Z :=
  match walk s root va false 0 with
  | (s, Some pte) => (s, if has (rdp s pte) PTE_P then Some pte else None)
  | (s, None) => (s, None)
  end.

Definition vmm_resolve (s : vmst) (root vaddr : Z) : vmst * Z :=
  match present_pte s root (page_of vaddr) with
  | (s, Some pte) => (s, Z.land (rdp s pte) PTE_ADDR + Z.land vaddr 0xFFF)
  | (s, None) => (s, 0)
  end.

Definition vmm_page_is_cow (s : vmst) (root vaddr : Z) : vmst * bool :=
  match present_pte s root (page_of vaddr) with
  | (s, Some pte) => (s, has (rdp s pte) PTE_COW)
  | (s, None) => (s, false)
  end.

Definition vmm_page_shared (s : vmst) (root vaddr : Z) : vmst * bool :=
  match present_pte s root (page_of vaddr) with
  | (s, Some pte) => (s, has (rdp s pte) PTE_AVL)
  | (s, None) => (s, false)
  end.

(** ** Copy on write *)

Definition vmm_cow_break_core (s : vmst) (root va : Z) : vmst * bool :=
  match present_pte s root (page_of va) with
  | (s, None) => (s, false)
  | (s, Some pte) =>
      if negb (has (rdp s pte) PTE_COW) then (s, false)
      else
        let frame := Z.land (rdp s pte) PTE_ADDR in
        if vmm_frame_ref_count (vm_frames s) frame <=? 1 then
          let s := Vm (vm_mem s) (vm_pmm s) (frame_ref_forget_if_last (vm_frames s) frame) (vm_cgs s) in
          (wrp s pte (Z.lor (Z.land (rdp s pte) (not64 PTE_COW)) PTE_RW), true)
        else
          let '(s, nframe) := vm_alloc s in
          if nframe =? 0 then (s, false)
          else
            let s := vm_copy_page s nframe frame in
            let keep := Z.land (rdp s pte) (Z.lor (Z.lor (Z.lor PTE_U PTE_PWT) PTE_PCD) PTE_NX) in
            let s := wrp s pte (Z.lor (Z.lor (Z.lor (Z.land nframe PTE_ADDR) keep) PTE_P) PTE_RW) in
            (vm_unref s frame, true)
  end.

Definition vmm_cow_break := vmm_cow_break_core.

(** ** Ranges *)

(** The pages of [start, end), both page aligned. *)
Definition page_list (start end_ : Z) : list Z :=
  (fun i => start + i * PAGE_SIZE) <$> seqZ 0 ((end_ - start) / PAGE_SIZE).

Definition range_end (vaddr size : Z) : Z := Z.land (u64 (vaddr + size + 0xFFF)) (not64 0xFFF).

Definition PROT_WRITE := 0x2.
Definition PROT_EXEC := 0x4.

Definition protect_bits (prot : Z) : Z :=
  let flags := VM_USER in
  let flags := if has prot PROT_WRITE then Z.lor flags VM_WRITE else flags in
  let flags := if has prot PROT_EXEC then Z.lor flags VM_EXEC else flags in
  pte_flags flags.

(** One page: the state, and whether its copy could not be made. *)
Definition protect_page (s : vmst) (root bits va : Z) : res (vmst * bool) :=
  match present_pte s root va with
  | (s, None) => Ok (s, false)
  | (s, Some pte) =>
      if has (rdp s pte) PTE_PS then Panic
      else
        let '(s, ok) :=
          if has bits PTE_RW && has (rdp s pte) PTE_COW then vmm_cow_break_core s root va else (s, true) in
        if negb ok then Ok (s, true)
        else
          let old := rdp s pte in
          let rw_nx := Z.lor PTE_RW PTE_NX in
          Ok (wrp s pte (Z.lor (Z.land old (not64 rw_nx)) (Z.land bits rw_nx)), false)
  end.

Definition vmm_protect (s : vmst) (root vaddr size prot : Z) : res (vmst * bool) :=
  if has vaddr 0xFFF || has size 0xFFF then Ok (s, false)
  else
    do (s, failed) <-
      foldl (fun acc va => do (s, failed) <- acc; do (s, f) <- protect_page s root (protect_bits prot) va; Ok (s, failed || f))
        (Ok (s, false)) (page_list vaddr (u64 (vaddr + size)));
    Ok (s, negb failed).

Definition vm_release (s : vmst) (fb : Z * bool) : vmst :=
  if snd fb then vm_unref s (fst fb) else vm_free s (fst fb).

Definition VMM_TLB_BATCH := 32.

(** [cross]: other processors may hold the translation, so frames are released
    in batches after a shootdown. *)
Definition unmap_page (cross : bool) (acc : vmst * addrspace * list (Z * bool)) (va : Z)
    : vmst * addrspace * list (Z * bool) :=
  let '(s, as_, batch) := acc in
  match present_pte s (pml4_phys as_) va with
  | (s, None) => (s, as_, batch)
  | (s, Some pte) =>
      let old := rdp s pte in
      let fb := (Z.land old PTE_ADDR, has old (Z.lor PTE_AVL PTE_COW)) in
      let s := wrp s pte 0 in
      let as_ := if 0 <? pages as_ then with_pages as_ (pages as_ - 1) else as_ in
      let s := if 0 <=? as_cg as_ then vm_discharge s (as_cg as_) else s in
      if cross then
        let batch := batch ++ [fb] in
        if alen batch =? VMM_TLB_BATCH then (foldl vm_release s batch, as_, []) else (s, as_, batch)
      else (vm_release s fb, as_, batch)
  end.

Definition vmm_unmap (s : vmst) (as_ : addrspace) (cross : bool) (vaddr size : Z) : vmst * addrspace :=
  let '(s, as_, batch) :=
    foldl (unmap_page cross) (s, as_, []) (page_list (page_of vaddr) (range_end vaddr size)) in
  (foldl vm_release s batch, as_).

(** One page of [vmm_alloc_range]. *)
Definition alloc_page (s : vmst) (as_ : addrspace) (va flags : Z) : vmst * addrspace * bool :=
  let '(s, phys) := vmm_resolve s (pml4_phys as_) va in
  if negb (phys =? 0) then (s, as_, true)
  else
    let '(s, r) := if 0 <=? as_cg as_ then vm_charge s (as_cg as_) else (s, 0) in
    if r <? 0 then (s, as_, false)
    else
      let undo s := if 0 <=? as_cg as_ then vm_discharge s (as_cg as_) else s in
      let '(s, frame) := vm_alloc_zeroed s in
      if frame =? 0 then (undo s, as_, false)
      else
        let '(s, ok) := vmm_map s (pml4_phys as_) va frame flags in
        if negb ok then (undo (vm_free s frame), as_, false)
        else (s, with_pages as_ (u32 (pages as_ + 1)), true).

Fixpoint alloc_pages (s : vmst) (as_ : addrspace) (vas : list Z) (flags : Z) : vmst * addrspace * bool :=
  match vas with
  | [] => (s, as_, true)
  | va :: vas =>
      let '(s, as_, ok) := alloc_page s as_ va flags in
      if ok then alloc_pages s as_ vas flags else (s, as_, false)
  end.

Definition vmm_alloc_range (s : vmst) (as_ : addrspace) (vaddr size flags : Z) : vmst * addrspace * bool :=
  alloc_pages s as_ (page_list (page_of vaddr) (range_end vaddr size)) flags.

Definition USER_STACK_TOP := 0x0000700000000000.
Definition USER_STACK_MAX := 8 * 1024 * 1024.

Definition vmm_grow_stack (s : vmst) (as_ : addrspace) (addr : Z) : vmst * addrspace * bool :=
  if (USER_STACK_TOP <=? addr) || (addr <? USER_STACK_TOP - USER_STACK_MAX) then (s, as_, false)
  else
    let page := page_of addr in
    let '(s, phys) := vmm_resolve s (pml4_phys as_) page in
    if negb (phys =? 0) then (s, as_, false)
    else vmm_alloc_range s as_ page PAGE_SIZE (Z.lor VM_USER VM_WRITE).

(** ** The kernel's own tables *)

Definition kernel_as : addrspace := AS g_kernel_pml4_phys 0 0 0 [] [].

Definition vmm_map_kernel (s : vmst) (vaddr paddr flags : Z) : vmst * bool :=
  vmm_map s g_kernel_pml4_phys vaddr paddr flags.

Definition vmm_unmap_kernel (s : vmst) (cross : bool) (vaddr size : Z) : vmst :=
  fst (vmm_unmap s kernel_as cross vaddr size).

Definition vmm_kernel_present (s : vmst) (vaddr : Z) : vmst * bool :=
  let '(s, phys) := vmm_resolve s g_kernel_pml4_phys vaddr in (s, negb (phys =? 0)).

Fixpoint map_mmio_pages (s : vmst) (base phys off : Z) (k : nat) : vmst * bool :=
  match k with
  | O => (s, true)
  | S k =>
      match walk s g_kernel_pml4_phys (page_of (u64 (base + off))) true 0 with
      | (s, None) => (s, false)
      | (s, Some pte) =>
          let e := Z.lor (Z.lor (Z.lor (Z.lor (Z.lor (Z.land (u64 (phys + off)) PTE_ADDR) PTE_P) PTE_RW) PTE_PCD)
                            PTE_PWT) PTE_NX in
          map_mmio_pages (wrp s pte e) base phys (off + PAGE_SIZE) k
      end
  end.

(** [mmio_next] is the arena's next address, which the call advances even when
    it fails half-way. *)
Definition vmm_map_mmio (s : vmst) (mmio_next phys size : Z) : vmst * Z * Z :=
  if (size =? 0) || (Z.shiftl 16 20 <? size) then (s, mmio_next, 0)
  else
    let '(s, ok) := map_mmio_pages s mmio_next phys 0 (Z.to_nat ((size + 0xFFF) / PAGE_SIZE)) in
    (s, u64 (mmio_next + Z.land (size + 0xFFF) (not64 0xFFF)), if ok then mmio_next else 0).

(** ** Access to user memory *)

Fixpoint copy_in (m : mem) (a : Z) (src : list Z) : mem :=
  match src with [] => m | b :: src => copy_in (mset m a b) (a + 1) src end.

Fixpoint vmm_copy_to_user (fuel : nat) (s : vmst) (root dst : Z) (src : list Z) : vmst * bool :=
  match src with
  | [] => (s, true)
  | _ =>
      match fuel with
      | O => (s, false)
      | S fuel =>
          let '(s, phys) := vmm_resolve s root dst in
          if phys =? 0 then (s, false)
          else
            let '(s, cow) := vmm_page_is_cow s root dst in
            let '(s, ok) := if cow then vmm_cow_break s root dst else (s, true) in
            if negb ok then (s, false)
            else
              let '(s, phys) := vmm_resolve s root dst in
              if phys =? 0 then (s, false)
              else
                let chunk := Z.min (PAGE_SIZE - Z.land dst 0xFFF) (alen src) in
                let s := with_vmem s (copy_in (vm_mem s) (pmm_virt hhdm phys) (take (Z.to_nat chunk) src)) in
                vmm_copy_to_user fuel s root (u64 (dst + chunk)) (drop (Z.to_nat chunk) src)
      end
  end.

(** The last record that covers [va]. *)
Definition mmap_hit (l : list mmap_rec) (va : Z) : option mmap_rec :=
  List.find (fun r => (m_base r <=? va) && (va <? u64 (m_base r + m_size r))) (rev l).

Fixpoint buf_pages_ok (s : vmst) (as_ : addrspace) (writing : bool) (vas : list Z) : vmst * bool :=
  match vas with
  | [] => (s, true)
  | va :: vas =>
      let '(s, pte) := present_pte s (pml4_phys as_) va in
      let ready := match pte with
                   | Some pte => negb writing || has (rdp s pte) (Z.lor PTE_RW PTE_COW)
                   | None => false
                   end in
      if ready then buf_pages_ok s as_ writing vas
      else
        match mmap_hit (mmaps as_) va with
        | None => (s, false)
        | Some r => if writing && negb (has (m_flags r) VM_WRITE) then (s, false) else buf_pages_ok s as_ writing vas
        end
  end.

Definition user_buf_ok (s : vmst) (as_ : addrspace) (p len : Z) (writing : bool) : vmst * bool :=
  if negb (user_ptr_ok p len) then (s, false)
  else if len =? 0 then (s, true)
  else buf_pages_ok s as_ writing (page_list (page_of p) (page_of (p + len - 1) + PAGE_SIZE)).

(** ** Teardown *)

(** The entries of one table that belong to the address space. *)
Definition level_limit (level : nat) : Z := if (level =? 4)%nat then 256 else 512.

Fixpoint free_level (level : nat) (s : vmst) (t : Z) : vmst :=
  match level with
  | O => s
  | S below =>
      let s :=
        foldl (fun s i =>
          let e := rdp s (pte_at t i) in
          if negb (has e PTE_P) then s
          else
            let child := Z.land e PTE_ADDR in
            let s :=
              if (1 <? level)%nat then free_level below s child
              else if has e (Z.lor PTE_AVL PTE_COW) then vm_unref s child
              else vm_free s child in
            wrp s (pte_at t i) 0) s (seqZ 0 (level_limit level)) in
      if (level <? 4)%nat then vm_free s t else s
  end.

(** The table of address spaces, [g_used] and [g_spaces]. *)
Notation spaces := (list (bool * addrspace)).

(** The tmpfs nodes whose mapper reference is dropped are returned. *)
Definition vmm_destroy (s : vmst) (sp : spaces) (slot : nat) : vmst * spaces * list Z :=
  match sp !! slot with
  | None => (s, sp, [])
  | Some (_, as_) =>
      let s := vm_free (free_level 4 s (pml4_phys as_)) (pml4_phys as_) in
      (s, <[slot := (false, AS 0 0 0 (as_cg as_) (mmaps as_) [])]> sp, shared as_)
  end.

Definition vmm_share (as_ : addrspace) : addrspace :=
  AS (pml4_phys as_) (as_refs as_ + 1) (pages as_) (as_cg as_) (mmaps as_) (shared as_).

Definition vmm_put (s : vmst) (sp : spaces) (slot : nat) : vmst * spaces * list Z :=
  match sp !! slot with
  | None => (s, sp, [])
  | Some (u, as_) =>
      if as_refs as_ <=? 0 then (s, sp, [])
      else
        let n := as_refs as_ - 1 in
        let sp := <[slot := (u, AS (pml4_phys as_) n (pages as_) (as_cg as_) (mmaps as_) (shared as_))]> sp in
        if 0 <? n then (s, sp, []) else vmm_destroy s sp slot
  end.

(** ** Creation and fork *)

Definition MAX_ADDRSPACES := 32.

Definition free_slot (sp : spaces) : option nat := fst <$> list_find (fun u => u.1 = false) sp.

Definition vmm_create (s : vmst) (sp : spaces) : vmst * spaces * option nat :=
  match free_slot sp with
  | None => (s, sp, None)
  | Some slot =>
      let '(s, pml4) := vm_alloc_zeroed s in
      if pml4 =? 0 then (s, sp, None)
      else
        let s := foldl (fun s i => wrp s (pte_at pml4 i) (rdp s (pte_at g_kernel_pml4_phys i))) s (seqZ 256 256) in
        let old := match sp !! slot with Some (_, a) => shared a | None => [] end in
        (s, <[slot := (true, AS pml4 1 0 (-1) [] old)]> sp, Some slot)
  end.

(** A page that stays shared between its mappers. *)
Definition clone_shared (s : vmst) (dst : addrspace) (e va : Z) : vmst * addrspace * bool :=
  let frame := Z.land e PTE_ADDR in
  let oflags := Z.lor VM_USER VM_EXTSHM in
  let oflags := if has e PTE_RW then Z.lor oflags VM_WRITE else oflags in
  let '(t, r) := vmm_share_ref (vm_frames s) frame in
  let s := Vm (vm_mem s) (vm_pmm s) t (vm_cgs s) in
  if r <? 0 then (s, dst, false)
  else
    let '(s, ok) := vmm_map s (pml4_phys dst) va frame oflags in
    if negb ok then (vm_unref s frame, dst, false) else (s, dst, true).

Definition clone_count (s : vmst) (dst : addrspace) : vmst * addrspace * bool :=
  let dst := with_pages dst (u32 (pages dst + 1)) in
  let s := if 0 <=? as_cg dst then fst (vm_charge s (as_cg dst)) else s in
  (s, dst, true).

(** The eager copy. *)
Definition clone_copy (s : vmst) (dst : addrspace) (e va : Z) : vmst * addrspace * bool :=
  let frame := Z.land e PTE_ADDR in
  let flags := Z.lor VM_USER VM_EXEC in
  let flags := if has e PTE_RW then Z.lor flags VM_WRITE else flags in
  let '(s, nframe) := vm_alloc s in
  if nframe =? 0 then (s, dst, false)
  else
    let s := vm_copy_page s nframe frame in
    let '(s, ok) := vmm_map s (pml4_phys dst) va nframe flags in
    if negb ok then (vm_free s nframe, dst, false) else clone_count s dst.

(** Copy on write: [a] is the address of the parent's entry [e]. *)
Definition clone_cow (s : vmst) (dst : addrspace) (a e va : Z) : vmst * addrspace * bool :=
  let keep := Z.lor (Z.land e (Z.lor (Z.lor PTE_PWT PTE_PCD) PTE_NX)) PTE_U in
  let frame := Z.land e PTE_ADDR in
  let '(t, r) := vmm_frame_ref_inc (vm_frames s) frame in
  let s := Vm (vm_mem s) (vm_pmm s) t (vm_cgs s) in
  if r <? 0 then (s, dst, false)
  else
    let '(t, r) := vmm_frame_ref_inc (vm_frames s) frame in
    let s := Vm (vm_mem s) (vm_pmm s) t (vm_cgs s) in
    if r <? 0 then (vm_unref s frame, dst, false)
    else
      let ne := Z.lor (Z.lor (Z.lor frame keep) PTE_P) PTE_COW in
      let s := wrp s a ne in
      match walk s (pml4_phys dst) va true VM_USER with
      | (s, None) => (vm_unref s frame, dst, false)
      | (s, Some cpte) => clone_count (wrp s cpte ne) dst
      end.

Definition clone_leaf (sharing : bool) (s : vmst) (dst : addrspace) (a va : Z) : vmst * addrspace * bool :=
  let e := rdp s a in
  if has e PTE_AVL then clone_shared s dst e va
  else if negb sharing then clone_copy s dst e va
  else clone_cow s dst a e va.

Fixpoint clone_level (level : nat) (sharing : bool) (s : vmst) (dst : addrspace) (t vbase : Z)
    : vmst * addrspace * bool :=
  match level with
  | O => (s, dst, true)
  | S below =>
      foldl (fun acc i =>
        let '(s, dst, ok) := acc in
        let a := pte_at t i in
        if negb ok || negb (has (rdp s a) PTE_P) then acc
        else
          let va := Z.lor vbase (Z.shiftl i (12 + 9 * Z.of_nat below)) in
          if (1 <? level)%nat then clone_level below sharing s dst (Z.land (rdp s a) PTE_ADDR) va
          else clone_leaf sharing s dst a va) (s, dst, true) (seqZ 0 (level_limit level))
  end.

Fixpoint count_level (level : nat) (s : vmst) (t n : Z) : Z :=
  match level with
  | O => n
  | S below =>
      foldl (fun n i =>
        let e := rdp s (pte_at t i) in
        if negb (has e PTE_P) then n
        else if (1 <? level)%nat then count_level below s (Z.land e PTE_ADDR) n
        else if has e PTE_AVL then n else u32 (n + 1)) n (seqZ 0 (level_limit level))
  end.

Definition vmm_clone (s : vmst) (sp : spaces) (src : addrspace) : vmst * spaces * option nat :=
  match vmm_create s sp with
  | (s, sp, None) => (s, sp, None)
  | (s, sp, Some slot) =>
      let sharing := (as_refs src =? 1)
        && (count_level 4 s (pml4_phys src) 0 <=? u32 (FRAME_SLOTS - vmm_frame_ref_slots (vm_frames s))) in
      match sp !! slot with
      | None => (s, sp, None)
      | Some (_, dst) =>
          let '(s, dst, ok) := clone_level 4 sharing s dst (pml4_phys src) 0 in
          let sp := <[slot := (true, dst)]> sp in
          if negb ok then let '(s, sp, _) := vmm_destroy s sp slot in (s, sp, None)
          else (s, <[slot := (true, AS (pml4_phys dst) (as_refs dst) (pages dst) (as_cg src) (mmaps src) (shared dst))]> sp,
                Some slot)
      end
  end.
End Vmm.
