(* ===== verification/VmmSpec.v ===== *)
(** * Page tables: the invariant and the software walk

    [hw_pte] is the path the processor takes through the present entries and
    [leaf] the entry at its end; [hw_may] is what it then allows, a right being
    granted only when every entry of the path grants it.  The theorems compare
    both before and after each operation of mm/vmm.c.  The tables of all
    address spaces are described by a map from table frames to the root they
    hang under, their level and the virtual address they start at: a frame has
    one such description, so tables never overlap and never occur twice. *)
From S2P Require Import Prelude Mem Kstring Pmm FrameRef Vmm.
#[local] Open Scope Z_scope.
#[local] Open Scope list_scope.

(** ** Entry bits *)

Lemma testbit_addr i : 0 <= i -> Z.testbit PTE_ADDR i = (12 <=? i) && (i <? 52).
Proof.
  intros Hi. change PTE_ADDR with (Z.shiftl (Z.ones 40) 12). rewrite Z.shiftl_spec by done.
  destruct (Z.leb_spec 12 i); simpl.
  - rewrite Z.testbit_ones_nonneg by lia. destruct (Z.ltb_spec (i - 12) 40), (Z.ltb_spec i 52); done || lia.
  - apply Z.testbit_neg_r. lia.
Qed.

Lemma aligned_bit x i : x mod 4096 = 0 -> 0 <= i < 12 -> Z.testbit x i = false.
Proof.
  intros Hx Hi. rewrite <- (Z.mod_pow2_bits_low x 12 i) by lia. change (2 ^ 12) with 4096. rewrite Hx. apply Z.bits_0.
Qed.

Lemma addr_id x : 0 <= x < 2 ^ 52 -> x mod 4096 = 0 -> Z.land x PTE_ADDR = x.
Proof.
  intros Hx Ha. apply Z.bits_inj'. intros i Hi. rewrite Z.land_spec, testbit_addr by done.
  destruct (Z.leb_spec 12 i), (Z.ltb_spec i 52); simpl; rewrite ?andb_true_r; try done.
  - rewrite (testbit_high x 52) by lia. done.
  - rewrite (aligned_bit x i) by lia. done.
  - lia.
Qed.

Lemma has_lor x y m : has (Z.lor x y) m = has x m || has y m.
Proof.
  unfold has. rewrite Z.land_lor_distr_l. destruct (Z.eqb_spec (Z.lor (Z.land x m) (Z.land y m)) 0) as [E|E].
  - apply Z.lor_eq_0_iff in E as [-> ->]. done.
  - destruct (Z.eqb_spec (Z.land x m) 0) as [E1|], (Z.eqb_spec (Z.land y m) 0) as [E2|]; try done.
    rewrite E1, E2 in E. done.
Qed.

(** A mask whose bits lie elsewhere does not matter. *)
Lemma addr_lor x c : Z.land c PTE_ADDR = 0 -> Z.land (Z.lor x c) PTE_ADDR = Z.land x PTE_ADDR.
Proof. intros H. by rewrite Z.land_lor_distr_l, H, Z.lor_0_r. Qed.

Lemma has_addr x m : 0 <= x < 2 ^ 52 -> x mod 4096 = 0 -> Z.land PTE_ADDR m = 0 -> has x m = false.
Proof.
  intros Hx Ha Hm. unfold has. rewrite <- (addr_id x Hx Ha), <- Z.land_assoc, Hm, Z.land_0_r. done.
Qed.

Lemma land_mask_eq x n m : Z.land n m = m -> Z.land (Z.land x n) m = Z.land x m.
Proof. intros H. by rewrite <- Z.land_assoc, H. Qed.

Definition word64 (x : Z) : Prop := 0 <= x < 2 ^ 64.

Lemma lor_word x y : word64 x -> word64 y -> word64 (Z.lor x y).
Proof.
  intros Hx Hy. apply range_of_testbit; [lia | apply Z.lor_nonneg; unfold word64 in *; lia |].
  intros i Hi. by rewrite Z.lor_spec, !(testbit_high _ 64) by (done || lia).
Qed.

Lemma land_word x y : word64 x -> 0 <= y -> word64 (Z.land x y).
Proof.
  intros Hx Hy. apply range_of_testbit; [lia | apply Z.land_nonneg; lia |].
  intros i Hi. rewrite Z.land_spec, (testbit_high x 64) by (done || lia). done.
Qed.

Lemma addr_range x : word64 x -> 0 <= Z.land x PTE_ADDR < 2 ^ 52.
Proof.
  intros Hx. apply range_of_testbit; [lia | apply Z.land_nonneg; right; done |].
  intros i Hi. rewrite Z.land_spec, testbit_addr by lia. destruct (Z.ltb_spec i 52); [lia|].
  rewrite andb_false_r. apply andb_false_r.
Qed.

(** ** Virtual addresses *)

(** The shift of a level and the start of the region a level-[l] table covers. *)
Definition lshift (l : nat) : Z := 12 + 9 * Z.of_nat l.
Definition base_of (l : nat) (va : Z) : Z := va / 2 ^ lshift l * 2 ^ lshift l.

Definition user_va (va : Z) : Prop := 0 <= va < 2 ^ 47.

Lemma idx_mod l va : idx_of (Z.of_nat (S l)) va = va / 2 ^ lshift l mod 512.
Proof.
  unfold idx_of, lshift. replace (Z.of_nat (S l) - 1) with (Z.of_nat l) by lia.
  change 0x1FF with (Z.ones 9). rewrite Z.land_ones, Z.shiftr_div_pow2 by lia. done.
Qed.

Lemma lshift_S l : 2 ^ lshift (S l) = 512 * 2 ^ lshift l.
Proof.
  unfold lshift. replace (12 + 9 * Z.of_nat (S l)) with (9 + (12 + 9 * Z.of_nat l)) by lia.
  rewrite Z.pow_add_r by lia. done.
Qed.

Lemma lshift_pos l : 0 < 2 ^ lshift l.
Proof. apply Z.pow_pos_nonneg; unfold lshift; lia. Qed.

Lemma base_child l va : base_of (S l) va + idx_of (Z.of_nat (S l)) va * 2 ^ lshift l = base_of l va.
Proof.
  unfold base_of. rewrite idx_mod, lshift_S. pose proof (lshift_pos l).
  rewrite (Z.mul_comm 512), <- Z.div_div by lia. pose proof (Z.div_mod (va / 2 ^ lshift l) 512 ltac:(lia)). nia.
Qed.

Lemma base_top va : user_va va -> base_of 4 va = 0.
Proof.
  intros H. unfold base_of. rewrite Z.div_small; [done|]. unfold lshift. simpl. unfold user_va in H. lia.
Qed.

Lemma idx_range l va : 0 <= idx_of (Z.of_nat (S l)) va < 512.
Proof. rewrite idx_mod. apply Z.mod_pos_bound. lia. Qed.

Lemma idx_top va : user_va va -> 0 <= idx_of 4 va < 256.
Proof.
  intros H. change 4 with (Z.of_nat 4). rewrite idx_mod. unfold lshift, user_va in *. simpl.
  change (2 ^ 39) with 549755813888. change (2 ^ 47) with 140737488355328 in H.
  rewrite Z.mod_small; (split; [apply Z.div_pos; lia|]); [|apply Z.lt_trans with 256; [|lia]];
    apply Z.div_lt_upper_bound; lia.
Qed.

Lemma idx_limit l va : user_va va -> (l < 4)%nat -> 0 <= idx_of (Z.of_nat (S l)) va < level_limit (S l).
Proof.
  intros H Hl. unfold level_limit. destruct (Nat.eqb_spec (S l) 4) as [E|].
  - injection E as ->. by apply idx_top.
  - apply idx_range.
Qed.

Lemma page_of_eq va : 0 <= va < 2 ^ 64 -> page_of va = base_of 0 va.
Proof. intros H. unfold page_of, base_of, lshift. apply (land_not_pow2 va 12); lia. Qed.

Lemma base0_div va va' : base_of 0 va = base_of 0 va' <-> va / 4096 = va' / 4096.
Proof. unfold base_of. change (2 ^ lshift 0) with 4096. lia. Qed.

(** A page and its start are walked alike. *)
Lemma base0_idx l va : idx_of (Z.of_nat (S l)) (base_of 0 va) = idx_of (Z.of_nat (S l)) va.
Proof.
  rewrite !idx_mod. f_equal. unfold base_of. replace (2 ^ lshift l) with (2 ^ lshift 0 * 2 ^ (9 * Z.of_nat l)).
  - pose proof (lshift_pos 0). assert (0 < 2 ^ (9 * Z.of_nat l)) by (apply Z.pow_pos_nonneg; lia).
    rewrite <- !Z.div_div by lia. by rewrite Z.div_mul by lia.
  - rewrite <- Z.pow_add_r by (unfold lshift; lia). done.
Qed.

(** ** Memory *)

Lemma ld_range n : forall m a, (forall x, 0 <= m x < 256) -> 0 <= ld n m a < 256 ^ Z.of_nat n.
Proof.
  induction n as [|n IH]; intros m a Hm; cbn [ld]; [simpl; lia|].
  rewrite Nat2Z.inj_succ, Z.pow_succ_r by lia. specialize (IH m (a + 1) Hm). pose proof (Hm a). lia.
Qed.

#[local] Transparent ld64 st64.

Lemma ld64_word m a : (forall x, 0 <= m x < 256) -> word64 (ld64 m a).
Proof. intros Hm. apply (ld_range 8 m a Hm). Qed.

Lemma st_byte n : forall m a v x, (forall x, 0 <= m x < 256) -> 0 <= st n m a v x < 256.
Proof.
  induction n as [|n IH]; intros m a v x Hm; cbn [st]; [done|]. apply IH. intros y. unfold mset.
  destruct (y =? a); [apply Z.mod_pos_bound; lia | done].
Qed.

Lemma st64_byte m a v x : (forall x, 0 <= m x < 256) -> 0 <= st64 m a v x < 256.
Proof. apply st_byte. Qed.

Lemma ld64_zero m a : (forall i, 0 <= i < 8 -> m (a + i) = 0) -> ld64 m a = 0.
Proof.
  intros H. transitivity (ld64 (fun _ => 0) a); [|done]. apply ld64_shift. intros i Hi. by apply H.
Qed.
#[local] Opaque ld64 st64.

(** ** What the processor finds *)

Section Spec.
Context (hhdm ra : Z).
Notation pte_at := (pte_at hhdm).

(** The address of the leaf entry, [k] levels below [t], following present
    entries whatever rights they grant. *)
Fixpoint hw_pte (k : nat) (m : mem) (t va : Z) : option Z :=
  match k with
  | O => Some (pte_at t (idx_of 1 va))
  | S k' =>
      let e := ld64 m (pte_at t (idx_of (Z.of_nat (S k)) va)) in
      if has e PTE_P then hw_pte k' m (Z.land e PTE_ADDR) va else None
  end.

(** The leaf entry, 0 where a table is missing. *)
Definition leaf (m : mem) (root va : Z) : Z :=
  match hw_pte 3 m root va with Some a => ld64 m a | None => 0 end.

(** The processor grants a right only when every entry on the path grants it:
    [hw_up q] says that [q] holds of the entries above the leaf. *)
Fixpoint hw_up (q : Z -> bool) (k : nat) (m : mem) (t va : Z) : bool :=
  match k with
  | O => true
  | S k' =>
      let e := ld64 m (pte_at t (idx_of (Z.of_nat (S k)) va)) in
      has e PTE_P && q e && hw_up q k' m (Z.land e PTE_ADDR) va
  end.

Definition hw_may (q : Z -> bool) (m : mem) (root va : Z) : bool :=
  hw_up q 3 m root va && has (leaf m root va) PTE_P && q (leaf m root va).
Definition user_ok (e : Z) : bool := has e PTE_U.
Definition write_ok (e : Z) : bool := has e PTE_RW.
Definition exec_ok (e : Z) : bool := negb (has e PTE_NX).

(** ** The invariant *)

(** Table frame to root, level and start of its region. *)
Notation tabs := (gmap Z (Z * nat * Z)).

(** A frame the allocator has handed out. *)
Definition taken (pm : pmm) (p : Z) : Prop :=
  0 < p /\ p mod 4096 = 0 /\ p / 4096 < g_total pm /\ bit_test (g_bitmap pm) (p / 4096) = true.

Record pt_inv (s : vmst) (C : gmap Z Z) (T : tabs) : Prop := {
  pi_pmm : pmm_wf (vm_pmm s);
  pi_lim : 0 <= hhdm /\ g_total (vm_pmm s) <= 2 ^ 40 /\ g_total (vm_pmm s) * 4096 + hhdm <= 2 ^ 64;
  pi_byte : forall x, 0 <= vm_mem s x < 256;
  pi_tab : forall t o, T !! t = Some o -> taken (vm_pmm s) t;
  pi_root : forall t r b, T !! t = Some (r, 4%nat, b) -> t = r /\ b = 0;
  pi_entry : forall t r l b i, T !! t = Some (r, S (S l), b) -> 0 <= i < level_limit (S (S l)) ->
    has (rdp s (pte_at t i)) PTE_P = true ->
    has (rdp s (pte_at t i)) PTE_PS = false /\
    T !! Z.land (rdp s (pte_at t i)) PTE_ADDR = Some (r, S l, b + i * 2 ^ lshift (S l));
  pi_grant : forall t r l b i, T !! t = Some (r, S (S l), b) -> 0 <= i < level_limit (S (S l)) ->
    has (rdp s (pte_at t i)) PTE_P = true -> write_ok (rdp s (pte_at t i)) = true /\ exec_ok (rdp s (pte_at t i)) = true;
  pi_refs : ftab_ok (vm_frames s) C;
  pi_counted : forall f n, C !! f = Some n -> taken (vm_pmm s) f /\ T !! f = None;
  pi_zero : ~ is_free (vm_pmm s) 0 }.

(** No frame is left. *)
Definition exhausted (s : vmst) : Prop := forall g, ~ is_free (vm_pmm s) g.

Lemma taken_range s C T p : pt_inv s C T -> taken (vm_pmm s) p -> 4096 <= p < 2 ^ 52 /\ p + 4096 + hhdm <= 2 ^ 64.
Proof.
  intros H (H1 & H2 & H3 & _). destruct (pi_lim _ _ _ H) as (L1 & L2 & L3).
  pose proof (Z.div_mod p 4096 ltac:(lia)). assert (1 <= p / 4096) by lia. lia.
Qed.

Lemma pte_at_eq s C T t i : pt_inv s C T -> taken (vm_pmm s) t -> 0 <= i < 512 -> pte_at t i = t + hhdm + 8 * i.
Proof.
  intros H Ht Hi. pose proof (taken_range s C T t H Ht). pose proof (pi_lim _ _ _ H).
  unfold Vmm.pte_at, pmm_virt. rewrite u64_small by lia. done.
Qed.

(** Two different entries do not share a byte. *)
Lemma pte_apart s C T t i t' i' : pt_inv s C T -> taken (vm_pmm s) t -> taken (vm_pmm s) t' ->
  0 <= i < 512 -> 0 <= i' < 512 -> (t, i) <> (t', i') ->
  pte_at t i + 8 <= pte_at t' i' \/ pte_at t' i' + 8 <= pte_at t i.
Proof.
  intros H Ht Ht' Hi Hi' Hne. rewrite (pte_at_eq s C T t i), (pte_at_eq s C T t' i') by done.
  destruct Ht as (_ & Ht & _), Ht' as (_ & Ht' & _).
  pose proof (Z.div_mod t 4096 ltac:(lia)). pose proof (Z.div_mod t' 4096 ltac:(lia)).
  destruct (Z.eq_dec t t') as [->|]; [|nia]. assert (i <> i') by congruence. lia.
Qed.

Lemma rdp_wrp_eq s a v : word64 v -> rdp (wrp s a v) a = v.
Proof. intros Hv. unfold rdp, wrp. simpl. by apply ld64_st64_same. Qed.

Lemma rdp_wrp_ne s a b v : a + 8 <= b \/ b + 8 <= a -> rdp (wrp s b v) a = rdp s a.
Proof. intros H. unfold rdp, wrp. simpl. by apply ld64_st64_apart. Qed.

(** ** The software walk follows the processor's *)

Lemma walk_found s C T k : forall t r va, pt_inv s C T -> user_va va -> (k < 4)%nat ->
  T !! t = Some (r, S k, base_of (S k) va) ->
  match hw_pte k (vm_mem s) t va with
  | Some a => exists t1, T !! t1 = Some (r, 1%nat, base_of 1 va) /\ a = pte_at t1 (idx_of 1 va)
  | None => True
  end.
Proof.
  induction k as [|k IH]; intros t r va H Hva Hk Ht; cbn [hw_pte]; [by exists t|].
  destruct (has (ld64 (vm_mem s) _) PTE_P) eqn:Ep; [|done].
  destruct (pi_entry _ _ _ H t r k _ (idx_of (Z.of_nat (S (S k))) va) Ht) as [_ Hc];
    [by apply idx_limit; [|lia] | exact Ep |].
  rewrite base_child in Hc. apply (IH _ r va H Hva); [lia | exact Hc].
Qed.

Lemma walk_no_create s C T k : forall t r va flags, pt_inv s C T -> user_va va -> (k < 4)%nat ->
  T !! t = Some (r, S k, base_of (S k) va) ->
  walk_from hhdm k s t (Z.of_nat (S k)) va false flags = (s, hw_pte k (vm_mem s) t va).
Proof.
  induction k as [|k IH]; intros t r va flags H Hva Hk Ht; cbn [walk_from hw_pte].
  { unfold idx_of. simpl. done. }
  unfold walk_step, walk_present. fold (rdp s (pte_at t (idx_of (Z.of_nat (S (S k))) va))).
  destruct (has (rdp s _) PTE_P) eqn:Ep; [|done]. cbn [negb walk_permit].
  destruct (pi_entry _ _ _ H t r k _ (idx_of (Z.of_nat (S (S k))) va) Ht) as [Hps Hc];
    [by apply idx_limit; [|lia] | exact Ep |].
  unfold walk_split. rewrite Hps. cbn [negb]. rewrite base_child in Hc.
  replace (Z.of_nat (S (S k)) - 1) with (Z.of_nat (S k)) by lia.
  apply (IH _ r va flags H Hva); [lia | exact Hc].
Qed.

(** ** Steps that keep every translation *)

Definition empty_table (s : vmst) (t : Z) : Prop := forall i, 0 <= i < 512 -> rdp s (pte_at t i) = 0.

Definition leaf_from (k : nat) (m : mem) (t va : Z) : Z :=
  match hw_pte k m t va with Some a => ld64 m a | None => 0 end.

Lemma empty_leaf s t k va : empty_table s t -> leaf_from k (vm_mem s) t va = 0.
Proof.
  intros H. unfold leaf_from. destruct k as [|k]; cbn [hw_pte].
  - apply H. apply (idx_range 0).
  - unfold empty_table, rdp in H. rewrite H by apply idx_range. done.
Qed.

(** Present table entries keep their target, absent ones may point to an empty
    table, leaf entries stay. *)
Record widen (s s' : vmst) (T : tabs) : Prop := {
  wd_up : forall t r l b i, T !! t = Some (r, S (S l), b) -> 0 <= i < level_limit (S (S l)) ->
    let e := rdp s (pte_at t i) in let e' := rdp s' (pte_at t i) in
    (has e PTE_P = true -> has e' PTE_P = true /\ Z.land e' PTE_ADDR = Z.land e PTE_ADDR) /\
    (has e PTE_P = false -> has e' PTE_P = true -> empty_table s' (Z.land e' PTE_ADDR));
  wd_leaf : forall t r b i, T !! t = Some (r, 1%nat, b) -> 0 <= i < 512 -> rdp s' (pte_at t i) = rdp s (pte_at t i) }.

Lemma widen_leaf s s' C T k : forall t r va, pt_inv s C T -> widen s s' T -> user_va va -> (k < 4)%nat ->
  T !! t = Some (r, S k, base_of (S k) va) -> leaf_from k (vm_mem s') t va = leaf_from k (vm_mem s) t va.
Proof.
  induction k as [|k IH]; intros t r va H W Hva Hk Ht.
  { unfold leaf_from. cbn [hw_pte]. apply (wd_leaf _ _ _ W t r (base_of 1 va)); [done | apply (idx_range 0)]. }
  pose proof (idx_limit (S k) va Hva Hk) as Hi. set (i := idx_of (Z.of_nat (S (S k))) va) in *.
  destruct (wd_up _ _ _ W t r k _ i Ht Hi) as [W1 W2].
  unfold leaf_from. cbn [hw_pte]. fold i. fold (rdp s (pte_at t i)) (rdp s' (pte_at t i)).
  destruct (has (rdp s (pte_at t i)) PTE_P) eqn:Ep.
  - destruct (W1 eq_refl) as [-> ->]. destruct (pi_entry _ _ _ H t r k _ i Ht Hi Ep) as [_ Hc].
    unfold i in Hc at 2. rewrite base_child in Hc. apply (IH _ r va H W Hva); [lia | exact Hc].
  - destruct (has (rdp s' (pte_at t i)) PTE_P) eqn:Ep'; [|done]. apply (empty_leaf s'). by apply W2.
Qed.

(** The translations of every registered address space. *)
Definition same_leaf (s s' : vmst) (T : tabs) : Prop :=
  forall root va, T !! root = Some (root, 4%nat, 0) -> user_va va -> leaf (vm_mem s') root va = leaf (vm_mem s) root va.

Lemma widen_same s s' C T : pt_inv s C T -> widen s s' T -> same_leaf s s' T.
Proof.
  intros H W root va Hr Hva. apply (widen_leaf s s' C T 3 root root va H W Hva); [lia|]. by rewrite base_top.
Qed.

Lemma same_leaf_trans s1 s2 s3 T T' : same_leaf s1 s2 T -> same_leaf s2 s3 T' -> T ⊆ T' -> same_leaf s1 s3 T.
Proof.
  intros H1 H2 Hs root va Hr Hva. rewrite (H2 root va); [by apply H1 | by eapply lookup_weaken | done].
Qed.

(** ** Allocating a table *)

Lemma taken_step pm pm' p : g_total pm' = g_total pm ->
  (forall g, 0 <= g -> bit_test (g_bitmap pm) g = true -> bit_test (g_bitmap pm') g = true) ->
  taken pm p -> taken pm' p.
Proof.
  intros Ht Hb (H1 & H2 & H3 & H4). split; [done|]. split; [done|]. split; [by rewrite Ht|].
  apply Hb; [apply Z.div_pos; lia | done].
Qed.

Lemma pmm_alloc_taken pm : pmm_wf pm -> g_total pm <= 2 ^ 40 ->
  let '(pm', p) := pmm_alloc pm in
  pmm_wf pm' /\ g_total pm' = g_total pm /\ (forall q, taken pm q -> taken pm' q) /\
  (p <> 0 -> taken pm' p /\ ~ taken pm p) /\ (forall g, is_free pm' g -> is_free pm g) /\
  (p = 0 -> ~ is_free pm 0 -> pm' = pm /\ forall g, ~ is_free pm g).
Proof.
  intros W Hl. destruct (pmm_alloc_cases pm W) as [(f & [Hf Hc] & ->)|[Hno ->]]; simpl; [|split_and!; done].
  pose proof (wf_cover pm f W Hf). pose proof (wf_total pm W). rewrite frame_addr by lia. unfold PAGE_SIZE.
  set (pm' := set_bitmap _ _ _ _).
  assert (Hbit : forall g, 0 <= g -> bit_test (g_bitmap pm') g = (f =? g) || bit_test (g_bitmap pm) g)
    by (intros g Hg; by apply bit_set_test).
  split; [apply wf_take; [done | by split | rewrite u64_small; lia]|]. split; [done|]. split.
  - intros q. apply taken_step; [done|]. intros g Hg Hb. rewrite Hbit, Hb by done. apply orb_true_r.
  - split; [|split].
    2:{ intros g [Hg Hb]. rewrite Hbit in Hb by lia. apply orb_false_iff in Hb as [_ Hb]. by split. }
    2:{ intros Hp Hz. destruct Hz. replace f with 0 in * by lia. by split. }
    intros Hp. split.
    + split; [lia|]. split; [apply Z.mod_mul; lia|]. rewrite Z.div_mul by lia. split; [apply Hf|].
      rewrite Hbit, Z.eqb_refl by lia. done.
    + intros (_ & _ & _ & Hq). rewrite Z.div_mul in Hq by lia. congruence.
Qed.

(** The invariant after a step that leaves every table entry alone. *)
Lemma inv_frame s s' C T : pt_inv s C T -> pmm_wf (vm_pmm s') -> g_total (vm_pmm s') = g_total (vm_pmm s) ->
  (forall q, taken (vm_pmm s) q -> taken (vm_pmm s') q) -> (forall g, is_free (vm_pmm s') g -> is_free (vm_pmm s) g) ->
  (forall x, 0 <= vm_mem s' x < 256) -> vm_frames s' = vm_frames s ->
  (forall t i, taken (vm_pmm s) t -> 0 <= i < 512 -> rdp s' (pte_at t i) = rdp s (pte_at t i)) -> pt_inv s' C T.
Proof.
  intros H W Ht Hk Hfr Hb Hf He. destruct H as [H1 H2 H3 H4 H5 H6 HG H7 H8 H9]. constructor; auto.
  - by rewrite Ht.
  - intros t o Ho. apply Hk. by eapply H4.
  - intros t r l b i Ho Hi. assert (0 <= i < 512) by (unfold level_limit in Hi; destruct (_ =? _)%nat; lia).
    rewrite He; [by apply H6 | by eapply H4 | done].
  - intros t r l b i Ho Hi. pose proof (fun A B => He t i A B) as He'.
    rewrite He'; [by apply (HG t r l b) | by eapply H4 | unfold level_limit in Hi; destruct (_ =? _)%nat; lia].
  - by rewrite Hf.
  - intros f n Hn. destruct (H8 f n Hn). auto.
Qed.

Lemma alloc_zeroed_spec s C T : pt_inv s C T ->
  let '(s', p) := vm_alloc_zeroed hhdm s in
  pt_inv s' C T /\ vm_frames s' = vm_frames s /\ vm_cgs s' = vm_cgs s /\
  (forall q, taken (vm_pmm s) q -> taken (vm_pmm s') q) /\ g_total (vm_pmm s') = g_total (vm_pmm s) /\
  (forall t i, taken (vm_pmm s) t -> 0 <= i < 512 -> rdp s' (pte_at t i) = rdp s (pte_at t i)) /\
  (p = 0 -> s' = s /\ exhausted s) /\
  (p <> 0 -> taken (vm_pmm s') p /\ ~ taken (vm_pmm s) p /\ empty_table s' p /\
     forall x, ~ (p + hhdm <= x < p + hhdm + 4096) -> vm_mem s' x = vm_mem s x).
Proof.
  intros H. pose proof (pi_lim _ _ _ H) as (L1 & L2 & L3). unfold vm_alloc_zeroed, pmm_alloc_zeroed.
  pose proof (pmm_alloc_taken (vm_pmm s) (pi_pmm _ _ _ H) L2) as A. destruct (pmm_alloc (vm_pmm s)) as [pm' p].
  destruct A as (W & Ht & Hk & Hp & Hfr & Hz). set (m' := if p =? 0 then _ else _). set (s' := Vm m' pm' _ _).
  assert (Hm' : forall x, vm_mem s' x = vm_mem s x \/ (p <> 0 /\ p + hhdm <= x < p + hhdm + 4096 /\ vm_mem s' x = 0)).
  { intros x. unfold s', m'. cbn [vm_mem]. destruct (Z.eqb_spec p 0); [by left|].
    destruct (Hp n) as [Htk _]. destruct Htk as (P1 & P2 & P3 & _). rewrite Ht in P3.
    pose proof (Z.div_mod p 4096 ltac:(lia)). unfold pmm_virt. rewrite u64_small by lia.
    rewrite memset_spec by done. unfold PAGE_SIZE. bdestr; simpl; auto. }
  assert (Hpage : forall t, p <> 0 -> taken (vm_pmm s) t -> t + 4096 <= p \/ p + 4096 <= t).
  { intros t Hp0 Htk. destruct (Hp Hp0) as [(_ & P2 & _) Hn]. pose proof Htk as (_ & Q2 & _).
    pose proof (Z.div_mod p 4096 ltac:(lia)). pose proof (Z.div_mod t 4096 ltac:(lia)).
    destruct (Z.eq_dec p t) as [->|]; [done | nia]. }
  assert (He : forall t i, taken (vm_pmm s) t -> 0 <= i < 512 -> rdp s' (pte_at t i) = rdp s (pte_at t i)).
  { intros t i Htk Hi. unfold rdp. apply ld64_shift. intros j Hj. rewrite (pte_at_eq s C T) by done.
    destruct (Hm' (t + hhdm + 8 * i + j)) as [|(Hp0 & Hx & _)]; [done|]. destruct (Hpage t Hp0 Htk); lia. }
  assert (Hb : forall x, 0 <= vm_mem s' x < 256).
  { intros x. destruct (Hm' x) as [-> | (_ & _ & ->)]; [apply (pi_byte _ _ _ H) | lia]. }
  assert (Hinv : pt_inv s' C T) by (apply (inv_frame s); done).
  split; [done|]. split; [done|]. split; [done|]. split; [done|]. split; [done|]. split; [done|].
  split.
  { intros Hp0. destruct (Hz Hp0 (pi_zero _ _ _ H)) as [-> Hx]. split; [|exact Hx]. unfold s', m'. rewrite Hp0. by destruct s. }
  intros Hp0. destruct (Hp Hp0) as [P1 P2]. split; [done|]. split; [done|]. split.
  - intros i Hi. unfold rdp. apply ld64_zero. intros j Hj. rewrite (pte_at_eq s' C T) by done.
    unfold s', m'. cbn [vm_mem]. destruct (Z.eqb_spec p 0); [done|]. rewrite memset_spec by done.
    pose proof (taken_range s' C T p Hinv P1). unfold pmm_virt. rewrite u64_small by lia. unfold PAGE_SIZE.
    bdestr; simpl; try lia; done.
  - intros x Hx. destruct (Hm' x) as [|(_ & ? & _)]; [done | lia].
Qed.

(** ** Changing an entry *)

Lemma limit_512 l i : 0 <= i < level_limit l -> 0 <= i < 512.
Proof. unfold level_limit. destruct (_ =? _)%nat; lia. Qed.

(** What an entry of a table may hold. *)
Definition entry_ok (T : tabs) (o : Z * nat * Z) (i v : Z) : Prop :=
  match o with
  | (r, S (S l), b) => i < level_limit (S (S l)) -> has v PTE_P = true ->
      (has v PTE_PS = false /\ T !! Z.land v PTE_ADDR = Some (r, S l, b + i * 2 ^ lshift (S l))) /\
      write_ok v = true /\ exec_ok v = true
  | _ => True
  end.

Lemma inv_write s C T t i v o : pt_inv s C T -> T !! t = Some o -> 0 <= i < 512 -> word64 v -> entry_ok T o i v ->
  pt_inv (wrp s (pte_at t i) v) C T.
Proof.
  intros H Ht Hi Hv He. pose proof H as [H1 H2 H3 H4 H5 H6 HG H7 H8 H9]. constructor; auto.
  - intros x. by apply st64_byte.
  - intros t' r l b i' Ht' Hi'. pose proof (limit_512 _ _ Hi') as Hi5.
    destruct (decide ((t', i') = (t, i))) as [E|Hne].
    + injection E as -> ->. rewrite rdp_wrp_eq by done. intros Hp. rewrite Ht in Ht'. injection Ht' as ->.
      apply He; [apply Hi' | done].
    + rewrite rdp_wrp_ne; [by apply H6|]. apply (pte_apart s C T); eauto.
  - intros t' r l b i' Ht' Hi'. pose proof (limit_512 _ _ Hi') as Hi5.
    destruct (decide ((t', i') = (t, i))) as [E|Hne].
    + injection E as -> ->. rewrite rdp_wrp_eq by done. intros Hp. rewrite Ht in Ht'. injection Ht' as ->.
      apply He; [apply Hi' | done].
    + rewrite rdp_wrp_ne; [by apply (HG t' r l b)|]. apply (pte_apart s C T); eauto.
Qed.

Lemma inv_extend s C T p o : pt_inv s C T -> taken (vm_pmm s) p -> T !! p = None -> C !! p = None ->
  empty_table s p -> o.1.2 <> 4%nat -> pt_inv s C (<[p := o]> T).
Proof.
  intros H Hp HT HC He Ho. pose proof H as [H1 H2 H3 H4 H5 H6 HG H7 H8 H9]. constructor; auto.
  - intros t o' E. apply lookup_insert_Some in E as [[<- _]|[_ E]]; [done | by eapply H4].
  - intros t r b E. apply lookup_insert_Some in E as [[_ E]|[_ E]]; [by subst | by apply H5].
  - intros t r l b i E Hi. apply lookup_insert_Some in E as [[<- _]|[_ E]].
    + rewrite He by (by apply limit_512 in Hi). done.
    + intros Hpr. destruct (H6 t r l b i E Hi Hpr) as [Hps Hc]. split; [done|].
      rewrite lookup_insert_ne; [done|]. intros ->. congruence.
  - intros t r l b i E Hi. apply lookup_insert_Some in E as [[<- _]|[_ E]]; [|by apply (HG t r l b)].
    rewrite He by (by apply limit_512 in Hi). done.
  - intros f n E. destruct (H8 f n E) as [Hf HfT]. split; [done|]. rewrite lookup_insert_ne; [done|]. congruence.
Qed.

(** Steps that add empty tables and otherwise keep every translation. *)
Record grows (s s' : vmst) (C : gmap Z Z) (T T' : tabs) : Prop := {
  gr_inv : pt_inv s' C T';
  gr_sub : T ⊆ T';
  gr_same : same_leaf s s' T;
  gr_taken : forall q, taken (vm_pmm s) q -> taken (vm_pmm s') q;
  gr_frames : vm_frames s' = vm_frames s;
  gr_cgs : vm_cgs s' = vm_cgs s;
  gr_up : forall t r l b i, T !! t = Some (r, S (S l), b) -> 0 <= i < level_limit (S (S l)) ->
    has (rdp s (pte_at t i)) PTE_P = true ->
    has (rdp s' (pte_at t i)) PTE_P = true /\ Z.land (rdp s' (pte_at t i)) PTE_ADDR = Z.land (rdp s (pte_at t i)) PTE_ADDR /\
    (user_ok (rdp s (pte_at t i)) = true -> user_ok (rdp s' (pte_at t i)) = true);
  gr_new : forall t, is_Some (T' !! t) -> T !! t = None -> ~ taken (vm_pmm s) t;
  gr_mem : forall x, (forall t, is_Some (T' !! t) -> ~ (t + hhdm <= x < t + hhdm + 4096)) -> vm_mem s' x = vm_mem s x }.

Lemma grows_refl s C T : pt_inv s C T -> grows s s C T T.
Proof. intros H. constructor; auto; [by intros root va _ _|]. intros t [o E] En. congruence. Qed.

Lemma grows_trans s1 s2 s3 C T1 T2 T3 : grows s1 s2 C T1 T2 -> grows s2 s3 C T2 T3 -> grows s1 s3 C T1 T3.
Proof.
  intros A B. constructor.
  - apply B.
  - etrans; [apply A | apply B].
  - eapply same_leaf_trans; [apply A | apply B | apply A].
  - intros q Hq. apply B, A, Hq.
  - rewrite (gr_frames _ _ _ _ _ B). apply A.
  - rewrite (gr_cgs _ _ _ _ _ B). apply A.
  - intros t r l b i Ht Hi Hp. destruct (gr_up _ _ _ _ _ A t r l b i Ht Hi Hp) as (Hp2 & <- & HU).
    destruct (gr_up _ _ _ _ _ B t r l b i) as (Hp3 & <- & HU3); [eapply lookup_weaken; [exact Ht | apply A] | done | done |]. auto.
  - intros t H3 H1 Ht. destruct (T2 !! t) as [o|] eqn:E2.
    + by apply (gr_new _ _ _ _ _ A t); [eexists | |].
    + apply (gr_new _ _ _ _ _ B t); [done | done |]. by apply A.
  - intros x Hx. rewrite (gr_mem _ _ _ _ _ B x Hx). apply (gr_mem _ _ _ _ _ A). intros t [o Ht]. apply Hx.
    exists o. eapply lookup_weaken; [exact Ht | apply B].
Qed.

(** Writing an upper entry that keeps its target, or that is given an empty table. *)
Lemma write_upper s C T t r l b i v : pt_inv s C T -> T !! t = Some (r, S (S l), b) -> 0 <= i < level_limit (S (S l)) ->
  word64 v -> has v PTE_P = true -> has v PTE_PS = false -> write_ok v = true /\ exec_ok v = true ->
  T !! Z.land v PTE_ADDR = Some (r, S l, b + i * 2 ^ lshift (S l)) ->
  (has (rdp s (pte_at t i)) PTE_P = true -> Z.land v PTE_ADDR = Z.land (rdp s (pte_at t i)) PTE_ADDR /\
     (user_ok (rdp s (pte_at t i)) = true -> user_ok v = true)) ->
  (has (rdp s (pte_at t i)) PTE_P = false -> empty_table s (Z.land v PTE_ADDR)) ->
  grows s (wrp s (pte_at t i) v) C T T.
Proof.
  intros H Ht Hi Hv Hp Hps Hg Hc Hold Hnew. pose proof (limit_512 _ _ Hi) as Hi5. pose proof (pi_tab _ _ _ H t _ Ht) as Htk.
  assert (Hne : forall t' i', taken (vm_pmm s) t' -> 0 <= i' < 512 -> (t', i') <> (t, i) ->
    rdp (wrp s (pte_at t i) v) (pte_at t' i') = rdp s (pte_at t' i')).
  { intros t' i' Ht' Hi' Hne. apply rdp_wrp_ne. by apply (pte_apart s C T). }
  constructor; auto; [by eapply inv_write | | | |].
  - apply (widen_same s _ C T H). constructor.
    + intros t' r' l' b' i' Ht' Hi'. cbn zeta. pose proof (limit_512 _ _ Hi').
      pose proof (pi_tab _ _ _ H t' _ Ht') as Htk'.
      destruct (decide ((t', i') = (t, i))) as [E|Hn].
      * injection E as -> ->. rewrite rdp_wrp_eq by done. split; [intros Ho; split; [done | by apply Hold]|]. intros Ho _.
        assert (Hct : taken (vm_pmm s) (Z.land v PTE_ADDR)) by (by eapply pi_tab).
        intros j Hj. rewrite Hne; [by apply Hnew | done | done |]. intros E. injection E as E _.
        rewrite E, Ht in Hc. injection Hc as Hc _. lia.
      * rewrite (Hne t' i') by done. split; [by intros; split | congruence].
    + intros t' r' b' i' Ht' Hi'. apply Hne; [by eapply pi_tab | done |]. intros E. injection E as -> ->. congruence.
  - intros t' r' l' b' i' Ht' Hi' Hp'. destruct (decide ((t', i') = (t, i))) as [E|Hn].
    + injection E as -> ->. rewrite rdp_wrp_eq by done. destruct (Hold Hp') as [-> HU]. auto.
    + rewrite Hne; [done | by eapply pi_tab | by apply limit_512 in Hi' | done].
  - intros t' [o E] En. congruence.
  - intros x Hx. apply st64_outside. rewrite (pte_at_eq s C T) by done.
    specialize (Hx t ltac:(by eexists)). lia.
Qed.

(** ** The walk that creates tables *)

Section Step.
Context (C : gmap Z Z) (r b i : Z) (t : Z) (l : nat).
Notation a := (pte_at t i).

(** The table in whose entry the step works. *)
Definition at_table (s : vmst) (T : tabs) : Prop :=
  pt_inv s C T /\ T !! t = Some (r, S (S l), b) /\ 0 <= i < level_limit (S (S l)) /\ (l < 3)%nat.

Lemma rewrite_upper s T v : at_table s T -> has (rdp s a) PTE_P = true -> word64 v -> has v PTE_P = true ->
  has v PTE_PS = false -> write_ok v = true /\ exec_ok v = true -> Z.land v PTE_ADDR = Z.land (rdp s a) PTE_ADDR ->
  (user_ok (rdp s a) = true -> user_ok v = true) ->
  grows s (wrp s a v) C T T /\ at_table (wrp s a v) T /\ has (rdp (wrp s a v) a) PTE_P = true.
Proof.
  intros (H & Ht & Hi & Hl) Hp Hv Hvp Hvs Hvg Hva HU. destruct (pi_entry _ _ _ H t r l b i Ht Hi Hp) as [Hs Hc].
  assert (G : grows s (wrp s a v) C T T).
  { apply (write_upper s C T t r l b i v H Ht Hi Hv Hvp Hvs Hvg); [by rewrite Hva | done | congruence]. }
  split; [done|]. split; [split; [apply G | done]|]. by rewrite rdp_wrp_eq.
Qed.

Lemma taken_word s T p : pt_inv s C T -> taken (vm_pmm s) p -> word64 p /\ 0 <= p < 2 ^ 52 /\ p mod 4096 = 0.
Proof.
  intros H Hp. pose proof (taken_range s C T p H Hp). destruct Hp as (_ & ? & _). unfold word64. lia.
Qed.

(** A fresh empty table takes its place in the tree before it is linked. *)
Lemma alloc_grows s T : at_table s T -> let '(s1, p) := vm_alloc_zeroed hhdm s in
  rdp s1 a = rdp s a /\
  if p =? 0 then grows s s1 C T T /\ exhausted s1
  else let T1 := <[p := (r, S l, b + i * 2 ^ lshift (S l))]> T in
    grows s s1 C T T1 /\ at_table s1 T1 /\ empty_table s1 p /\ taken (vm_pmm s1) p.
Proof.
  intros (H & Ht & Hi & Hl). pose proof (alloc_zeroed_spec s C T H) as A. destruct (vm_alloc_zeroed hhdm s) as [s1 p].
  destruct A as (I1 & F1 & G1 & K1 & Tot & E1 & M0 & M1). pose proof (limit_512 _ _ Hi) as Hi5.
  pose proof (pi_tab _ _ _ H t _ Ht) as Htk. split; [by apply E1|].
  assert (Hsame : same_leaf s s1 T).
  { apply (widen_same s s1 C T H). constructor.
    - intros t' r' l' b' i' Ht' Hi'. cbn zeta. rewrite E1; [|by eapply pi_tab | by apply limit_512 in Hi'].
      split; [by intros; split | congruence].
    - intros t' r' b' i' Ht' Hi'. apply E1; [by eapply pi_tab | done]. }
  assert (Hup : forall t r l b i, T !! t = Some (r, S (S l), b) -> 0 <= i < level_limit (S (S l)) ->
    has (rdp s (pte_at t i)) PTE_P = true -> has (rdp s1 (pte_at t i)) PTE_P = true /\
    Z.land (rdp s1 (pte_at t i)) PTE_ADDR = Z.land (rdp s (pte_at t i)) PTE_ADDR /\
    (user_ok (rdp s (pte_at t i)) = true -> user_ok (rdp s1 (pte_at t i)) = true)).
  { intros t' r' l' b' i' Ht' Hi' Hp'. rewrite E1; [done | by eapply pi_tab | by apply limit_512 in Hi']. }
  destruct (Z.eqb_spec p 0) as [Hp|Hp].
  - destruct (M0 Hp) as [-> Hx]. split; [by apply grows_refl | exact Hx].
  - destruct (M1 Hp) as (P1 & P2 & P3 & P4).
    assert (HT : T !! p = None) by (destruct (T !! p) eqn:E; [destruct P2; by eapply pi_tab | done]).
    assert (HC : C !! p = None) by (destruct (C !! p) eqn:E; [destruct P2; by eapply pi_counted | done]).
    assert (I2 : pt_inv s1 C (<[p := (r, S l, b + i * 2 ^ lshift (S l))]> T))
      by (apply inv_extend; try done; simpl; lia).
    assert (Htp : p <> t) by (intros ->; congruence).
    split; [|split; [split; [done | split; [by rewrite lookup_insert_ne | done]] | done]].
    constructor; auto.
    + by apply insert_subseteq.
    + intros q Hq Hn. apply lookup_insert_is_Some' in Hq as [<-|[o E]]; [done | congruence].
    + intros x Hx. apply P4. apply Hx. rewrite lookup_insert_eq. by eexists.
Qed.

Lemma walk_present_spec s T : at_table s T -> let '(s', ok) := walk_present hhdm s a true in
  exists T', grows s s' C T T' /\ if ok then at_table s' T' /\ has (rdp s' a) PTE_P = true else exhausted s'.
Proof.
  intros HA. unfold walk_present. destruct (has (rdp s a) PTE_P) eqn:Ep.
  { exists T. split; [apply grows_refl, HA | auto]. }
  cbn [negb]. pose proof (alloc_grows s T HA) as A. destruct (vm_alloc_zeroed hhdm s) as [s1 p].
  destruct A as [Ea A]. destruct (Z.eqb_spec p 0); [by exists T|]. destruct A as (G & HA1 & He & Htk).
  set (T1 := <[p := _]> T) in *. destruct (taken_word s1 T1 p (proj1 HA1) Htk) as (Wp & Rp & Ap).
  set (v := Z.lor (Z.lor p PTE_P) PTE_RW).
  assert (Wv : word64 v) by (unfold v; repeat apply lor_word; try done; unfold word64, PTE_P, PTE_RW; lia).
  assert (Hva : Z.land v PTE_ADDR = p) by (unfold v; rewrite !addr_lor by done; by apply addr_id).
  assert (Hvp : has v PTE_P = true) by (unfold v; rewrite !has_lor; rewrite orb_true_r; done).
  assert (Hvs : has v PTE_PS = false) by (unfold v; rewrite !has_lor, has_addr by done; done).
  assert (Hvg : write_ok v = true /\ exec_ok v = true).
  { unfold write_ok, exec_ok, v. rewrite !has_lor, orb_true_r, (has_addr p PTE_NX) by done. done. }
  pose proof HA1 as (I1 & Ht1 & Hi & Hl).
  assert (G2 : grows s1 (wrp s1 a v) C T1 T1).
  { apply (write_upper s1 C T1 t r l b i v I1 Ht1 Hi Wv Hvp Hvs Hvg); rewrite Hva.
    - apply lookup_insert_eq.
    - rewrite Ea, Ep. done.
    - done. }
  exists T1. split; [by eapply grows_trans|]. split; [split; [apply G2 | done]|]. by rewrite rdp_wrp_eq.
Qed.

(** Adding rights to an entry, and taking the no-execute bit off it. *)
Lemma permit_or s T c : at_table s T -> has (rdp s a) PTE_P = true -> word64 c -> Z.land c PTE_ADDR = 0 ->
  has c PTE_PS = false -> has c PTE_NX = false -> let s' := wrp s a (Z.lor (rdp s a) c) in
  grows s s' C T T /\ at_table s' T /\ has (rdp s' a) PTE_P = true /\ rdp s' a = Z.lor (rdp s a) c.
Proof.
  intros HA Hp Wc Hc Hcs Hcn s'. pose proof HA as (I0 & Ht0 & Hi0 & _).
  destruct (pi_entry _ _ _ I0 t r l b i Ht0 Hi0 Hp) as [Hs0 _]. destruct (pi_grant _ _ _ I0 t r l b i Ht0 Hi0 Hp) as [Hw Hx].
  unfold write_ok, exec_ok in Hw, Hx. apply negb_true_iff in Hx.
  assert (Wv : word64 (Z.lor (rdp s a) c)) by (apply lor_word; [apply ld64_word, (pi_byte _ _ _ I0) | done]).
  destruct (rewrite_upper s T (Z.lor (rdp s a) c) HA Hp Wv) as (G & A & P).
  - by rewrite has_lor, Hp.
  - by rewrite has_lor, Hs0, Hcs.
  - unfold write_ok, exec_ok. by rewrite !has_lor, Hw, Hx, Hcn.
  - by apply addr_lor.
  - unfold user_ok. rewrite has_lor. by intros ->.
  - split; [done|]. split; [done|]. split; [done|]. by apply rdp_wrp_eq.
Qed.

Lemma permit_exec s T : at_table s T -> has (rdp s a) PTE_P = true -> let s' := wrp s a (Z.land (rdp s a) (not64 PTE_NX)) in
  grows s s' C T T /\ at_table s' T /\ has (rdp s' a) PTE_P = true /\ user_ok (rdp s' a) = user_ok (rdp s a).
Proof.
  intros HA Hp s'. pose proof HA as (I2 & Ht2 & Hi2 & _). destruct (pi_entry _ _ _ I2 t r l b i Ht2 Hi2 Hp) as [Hs2 _].
  destruct (pi_grant _ _ _ I2 t r l b i Ht2 Hi2 Hp) as [Hw _].
  assert (Hm : forall m, Z.land (not64 PTE_NX) m = m -> has (Z.land (rdp s a) (not64 PTE_NX)) m = has (rdp s a) m)
    by (intros m Hm; unfold has; by rewrite land_mask_eq).
  assert (Wv : word64 (Z.land (rdp s a) (not64 PTE_NX))) by (apply land_word; [apply ld64_word, (pi_byte _ _ _ I2) | done]).
  destruct (rewrite_upper s T (Z.land (rdp s a) (not64 PTE_NX)) HA Hp Wv) as (G3 & A3 & P3).
  - by rewrite Hm.
  - by rewrite Hm.
  - unfold write_ok, exec_ok in *. rewrite Hm by done. split; [done|]. unfold has. by rewrite <- Z.land_assoc, Z.land_0_r.
  - by apply land_mask_eq.
  - unfold user_ok. by rewrite Hm.
  - split; [done|]. split; [done|]. split; [done|]. unfold user_ok, s'. rewrite rdp_wrp_eq by done. by apply Hm.
Qed.

Lemma walk_permit_spec s T flags : at_table s T -> has (rdp s a) PTE_P = true ->
  let s' := walk_permit s a true flags in
  grows s s' C T T /\ at_table s' T /\ has (rdp s' a) PTE_P = true /\ (has flags VM_USER = true -> user_ok (rdp s' a) = true).
Proof.
  intros HA Hp. cbn [walk_permit].
  destruct (permit_or s T PTE_RW HA Hp) as (G1 & A1 & P1 & _); [unfold word64, PTE_RW; lia | done | done | done |].
  set (s1 := wrp s a _) in *.
  assert (S2 : exists s2, (if has flags VM_USER then wrp s1 a (Z.lor (rdp s1 a) PTE_U) else s1) = s2 /\
    grows s1 s2 C T T /\ at_table s2 T /\ has (rdp s2 a) PTE_P = true /\ (has flags VM_USER = true -> user_ok (rdp s2 a) = true)).
  { eexists. split; [reflexivity|]. destruct (has flags VM_USER).
    - destruct (permit_or s1 T PTE_U A1 P1) as (G2 & A2 & P2 & E2); [unfold word64, PTE_U; lia | done | done | done |].
      split; [done|]. split; [done|]. split; [done|]. intros _. unfold user_ok. rewrite E2, has_lor. apply orb_true_r.
    - split; [apply grows_refl, A1 | done]. }
  destruct S2 as (s2 & -> & G2 & A2 & P2 & U2).
  assert (G12 : grows s s2 C T T) by (by eapply grows_trans).
  destruct (has flags VM_EXEC); [|done]. destruct (permit_exec s2 T A2 P2) as (G3 & A3 & P3 & U3).
  split; [by eapply grows_trans|]. rewrite U3. done.
Qed.
End Step.

Lemma walk_step_create s C T t r l va flags : pt_inv s C T -> user_va va -> (l < 3)%nat ->
  T !! t = Some (r, S (S l), base_of (S (S l)) va) ->
  let '(s', o) := walk_step hhdm s t (Z.of_nat (S (S l))) va true flags in
  exists T', grows s s' C T T' /\
    match o with
    | Some t' => T' !! t' = Some (r, S l, base_of (S l) va) /\
        let e := rdp s' (pte_at t (idx_of (Z.of_nat (S (S l))) va)) in has e PTE_P = true /\ Z.land e PTE_ADDR = t' /\
        (has flags VM_USER = true -> user_ok e = true)
    | None => exhausted s'
    end.
Proof.
  intros H Hva Hl Ht. pose proof (idx_limit (S l) va Hva ltac:(lia)) as Hi. unfold walk_step.
  set (i := idx_of (Z.of_nat (S (S l))) va) in *.
  pose proof (walk_present_spec C r (base_of (S (S l)) va) i t l s T (conj H (conj Ht (conj Hi Hl)))) as W.
  destruct (walk_present hhdm s (pte_at t i) true) as [s1 ok]. destruct W as (T1 & G1 & W). destruct ok; [|by exists T1].
  destruct W as [A1 P1]. cbn [negb].
  destruct (walk_permit_spec C r (base_of (S (S l)) va) i t l s1 T1 flags A1 P1) as (G2 & A2 & P2 & U2).
  set (s2 := walk_permit s1 (pte_at t i) true flags) in *. pose proof A2 as (I2 & Ht2 & Hi2 & _).
  destruct (pi_entry _ _ _ I2 t r l _ i Ht2 Hi2 P2) as [Hs Hc]. unfold walk_split. rewrite Hs. cbn [negb].
  exists T1. split; [by eapply grows_trans|]. unfold i in Hc at 2. rewrite base_child in Hc. done.
Qed.

Lemma walk_create k : forall s C T t r va flags, pt_inv s C T -> user_va va -> (k < 4)%nat ->
  T !! t = Some (r, S k, base_of (S k) va) ->
  let '(s', o) := walk_from hhdm k s t (Z.of_nat (S k)) va true flags in
  exists T', grows s s' C T T' /\
    match o with
    | Some a => exists t1, T' !! t1 = Some (r, 1%nat, base_of 1 va) /\ a = pte_at t1 (idx_of 1 va) /\
        hw_pte k (vm_mem s') t va = Some a /\ (has flags VM_USER = true -> hw_up user_ok k (vm_mem s') t va = true)
    | None => exhausted s'
    end.
Proof.
  induction k as [|k IH]; intros s C T t r va flags H Hva Hk Ht; cbn [walk_from].
  { exists T. split; [by apply grows_refl|]. exists t. split; [done|]. split; [|split; done]. unfold idx_of. done. }
  pose proof (walk_step_create s C T t r k va flags H Hva ltac:(lia) Ht) as W.
  destruct (walk_step hhdm s t (Z.of_nat (S (S k))) va true flags) as [s1 [t'|]] eqn:Ew; [|done].
  destruct W as (T1 & G1 & Ht' & Ep & Ea & EU). replace (Z.of_nat (S (S k)) - 1) with (Z.of_nat (S k)) by lia.
  pose proof (IH s1 C T1 t' r va flags (gr_inv _ _ _ _ _ G1) Hva ltac:(lia) Ht') as W2.
  destruct (walk_from hhdm k s1 t' _ va true flags) as [s2 o]. destruct W2 as (T2 & G2 & Ho).
  exists T2. split; [by eapply grows_trans|]. destruct o as [a|]; [|done]. destruct Ho as (t1 & P1 & P2 & P3 & P4).
  exists t1. split; [done|]. split; [done|].
  assert (Ht1 : T1 !! t = Some (r, S (S k), base_of (S (S k)) va)) by (eapply lookup_weaken; [exact Ht | apply G1]).
  destruct (gr_up _ _ _ _ _ G2 t r k _ _ Ht1 (idx_limit (S k) va Hva Hk) Ep) as (Ep2 & Ea2 & EU2).
  cbn [hw_pte hw_up]. unfold rdp in *. rewrite Ep2, Ea2, Ea. split; [exact P3|]. intros HU. rewrite EU2, P4; auto.
Qed.

(** ** Rights at the processor *)

(** Upper entries always grant writing and execution: the leaf alone decides. *)
Lemma up_grant q s C T k : (forall e, write_ok e = true -> exec_ok e = true -> q e = true) -> forall t r va,
  pt_inv s C T -> user_va va -> (k < 4)%nat -> T !! t = Some (r, S k, base_of (S k) va) ->
  hw_up q k (vm_mem s) t va = match hw_pte k (vm_mem s) t va with Some _ => true | None => false end.
Proof.
  intros Hq. induction k as [|k IH]; intros t r va H Hva Hk Ht; cbn [hw_up hw_pte]; [done|].
  pose proof (idx_limit (S k) va Hva Hk) as Hi. fold (rdp s (pte_at t (idx_of (Z.of_nat (S (S k))) va))).
  destruct (has (rdp s _) PTE_P) eqn:Ep; [|done].
  destruct (pi_entry _ _ _ H t r k _ _ Ht Hi Ep) as [_ Hc]. destruct (pi_grant _ _ _ H t r k _ _ Ht Hi Ep) as [Hw Hx].
  rewrite base_child in Hc. rewrite Hq by done. cbn [andb]. apply (IH _ r va H Hva); [lia | exact Hc].
Qed.

Lemma may_leaf q s C T root va : (forall e, write_ok e = true -> exec_ok e = true -> q e = true) ->
  pt_inv s C T -> T !! root = Some (root, 4%nat, 0) -> user_va va ->
  hw_may q (vm_mem s) root va = has (leaf (vm_mem s) root va) PTE_P && q (leaf (vm_mem s) root va).
Proof.
  intros Hq H Hr Hva. unfold hw_may. rewrite (up_grant q s C T 3 Hq root root va H Hva);
    [|lia | by rewrite base_top]. unfold leaf. by destruct (hw_pte 3 (vm_mem s) root va).
Qed.

(** The user right above the leaf is never lost by a walk. *)
Lemma up_grows s s' C T T' k : forall t r va, pt_inv s C T -> grows s s' C T T' -> user_va va -> (k < 4)%nat ->
  T !! t = Some (r, S k, base_of (S k) va) -> hw_up user_ok k (vm_mem s) t va = true ->
  hw_up user_ok k (vm_mem s') t va = true.
Proof.
  induction k as [|k IH]; intros t r va H G Hva Hk Ht; cbn [hw_up]; [done|].
  pose proof (idx_limit (S k) va Hva Hk) as Hi. fold (rdp s (pte_at t (idx_of (Z.of_nat (S (S k))) va))).
  fold (rdp s' (pte_at t (idx_of (Z.of_nat (S (S k))) va))). intros Hu.
  apply andb_true_iff in Hu as [Hu Hb]. apply andb_true_iff in Hu as [Ep Eu].
  destruct (gr_up _ _ _ _ _ G t r k _ _ Ht Hi Ep) as (-> & -> & HU). rewrite HU by done. cbn [andb].
  destruct (pi_entry _ _ _ H t r k _ _ Ht Hi Ep) as [_ Hc]. rewrite base_child in Hc.
  apply (IH _ r va H G Hva); [lia | exact Hc | exact Hb].
Qed.
End Spec.
