(* ===== verification/VmmMap.v ===== *)
(** * mm/vmm.c: mapping, copy on write and fork of one page

    The functional behaviour of the operations in terms of what the processor
    finds ([leaf]), proved with the invariant of VmmSpec. *)
From S2P Require Import Prelude Mem Kstring Pmm FrameRef Vmm VmmSpec.
#[local] Open Scope Z_scope.
#[local] Open Scope list_scope.

Lemma has_masked x n m : Z.land n m = 0 -> has (Z.land x n) m = false.
Proof. intros H. unfold has. by rewrite <- Z.land_assoc, H, Z.land_0_r. Qed.

Lemma has_keep x n m : Z.land n m = m -> has (Z.land x n) m = has x m.
Proof. intros H. unfold has. by rewrite land_mask_eq. Qed.

Section Map.
Context (hhdm ra : Z).
Notation pte_at := (pte_at hhdm).
Notation hw_pte := (hw_pte hhdm).
Notation leaf := (leaf hhdm).
Notation hw_up := (hw_up hhdm).
Notation hw_may := (hw_may hhdm).
Notation pt_inv := (pt_inv hhdm).
Notation grows := (grows hhdm).
Notation tabs := (gmap Z (Z * nat * Z)).

(** ** Leaf entries *)

(** The path to a leaf only depends on the upper tables. *)
Lemma hw_pte_upper s s' C T k : forall t r va, pt_inv s C T -> user_va va -> (k < 4)%nat ->
  (forall t r l b i, T !! t = Some (r, S (S l), b) -> 0 <= i < 512 -> rdp s' (pte_at t i) = rdp s (pte_at t i)) ->
  T !! t = Some (r, S k, base_of (S k) va) -> hw_pte k (vm_mem s') t va = hw_pte k (vm_mem s) t va.
Proof.
  induction k as [|k IH]; intros t r va H Hva Hk Hu Ht; cbn [VmmSpec.hw_pte]; [done|].
  pose proof (idx_limit (S k) va Hva Hk) as Hi.
  pose proof (Hu t r k _ _ Ht (limit_512 _ _ Hi)) as Heq. unfold rdp in Heq. rewrite Heq.
  destruct (has (ld64 (vm_mem s) _) PTE_P) eqn:Ep; [|done].
  destruct (pi_entry _ _ _ _ H t r k _ _ Ht Hi Ep) as [_ Hc]. rewrite base_child in Hc.
  apply (IH _ r va H Hva); [lia | done | exact Hc].
Qed.

Lemma hw_up_upper q s s' C T k : forall t r va, pt_inv s C T -> user_va va -> (k < 4)%nat ->
  (forall t r l b i, T !! t = Some (r, S (S l), b) -> 0 <= i < 512 -> rdp s' (pte_at t i) = rdp s (pte_at t i)) ->
  T !! t = Some (r, S k, base_of (S k) va) -> hw_up q k (vm_mem s') t va = hw_up q k (vm_mem s) t va.
Proof.
  induction k as [|k IH]; intros t r va H Hva Hk Hu Ht; cbn [VmmSpec.hw_up]; [done|].
  pose proof (idx_limit (S k) va Hva Hk) as Hi.
  pose proof (Hu t r k _ _ Ht (limit_512 _ _ Hi)) as Heq. unfold rdp in Heq. rewrite Heq.
  destruct (has (ld64 (vm_mem s) _) PTE_P) eqn:Ep; [|done]. f_equal.
  destruct (pi_entry _ _ _ _ H t r k _ _ Ht Hi Ep) as [_ Hc]. rewrite base_child in Hc.
  apply (IH _ r va H Hva); [lia | done | exact Hc].
Qed.

(** What a processor may do at a page of another mapping after an operation:
    the same, except that the user right may have been given further up. *)
Definition rights_kept (m m' : mem) (root va : Z) : Prop :=
  hw_may write_ok m' root va = hw_may write_ok m root va /\ hw_may exec_ok m' root va = hw_may exec_ok m root va /\
  (hw_may user_ok m root va = true -> hw_may user_ok m' root va = true).

Lemma rights_leaf s s' C C' T T' root va : pt_inv s C T -> pt_inv s' C' T' -> T !! root = Some (root, 4%nat, 0) ->
  T' !! root = Some (root, 4%nat, 0) -> user_va va -> leaf (vm_mem s') root va = leaf (vm_mem s) root va ->
  (hw_up user_ok 3 (vm_mem s) root va = true -> hw_up user_ok 3 (vm_mem s') root va = true) ->
  rights_kept (vm_mem s) (vm_mem s') root va.
Proof.
  intros H H' Hr Hr' Hva E HU. split; [|split].
  - rewrite (may_leaf hhdm write_ok s C T), (may_leaf hhdm write_ok s' C' T') by auto. by rewrite E.
  - rewrite (may_leaf hhdm exec_ok s C T), (may_leaf hhdm exec_ok s' C' T') by auto. by rewrite E.
  - unfold VmmSpec.hw_may. rewrite E. destruct (hw_up user_ok 3 (vm_mem s) root va); [|done]. by rewrite HU.
Qed.

Lemma leaf_found s C T root va : pt_inv s C T -> T !! root = Some (root, 4%nat, 0) -> user_va va ->
  match hw_pte 3 (vm_mem s) root va with
  | Some a => exists t, T !! t = Some (root, 1%nat, base_of 1 va) /\ a = pte_at t (idx_of 1 va)
  | None => True
  end.
Proof.
  intros H Hr Hva. apply (walk_found hhdm s C T 3 root root va H Hva); [lia|]. by rewrite base_top.
Qed.

Lemma same_page va va' : base_of 1 va = base_of 1 va' -> idx_of 1 va = idx_of 1 va' -> va / 4096 = va' / 4096.
Proof.
  intros Hb Hi. apply base0_div. rewrite <- (base_child 0 va), <- (base_child 0 va'). change (Z.of_nat 1) with 1.
  by rewrite Hb, Hi.
Qed.

(** Writing a leaf entry changes one translation. *)
Lemma write_leaf s C T root va a v : pt_inv s C T -> T !! root = Some (root, 4%nat, 0) -> user_va va ->
  hw_pte 3 (vm_mem s) root va = Some a -> word64 v -> let s' := wrp s a v in
  pt_inv s' C T /\ leaf (vm_mem s') root va = v /\ hw_pte 3 (vm_mem s') root va = Some a /\
  (forall q root2 va2, T !! root2 = Some (root2, 4%nat, 0) -> user_va va2 ->
     hw_up q 3 (vm_mem s') root2 va2 = hw_up q 3 (vm_mem s) root2 va2) /\
  (forall root2 va2, T !! root2 = Some (root2, 4%nat, 0) -> user_va va2 -> root2 <> root \/ va2 / 4096 <> va / 4096 ->
     leaf (vm_mem s') root2 va2 = leaf (vm_mem s) root2 va2) /\
  (forall x, (forall t, is_Some (T !! t) -> ~ (t + hhdm <= x < t + hhdm + 4096)) -> vm_mem s' x = vm_mem s x).
Proof.
  intros H Hr Hva Ha Hv. cbn zeta. pose proof (leaf_found s C T root va H Hr Hva) as Hf. rewrite Ha in Hf.
  destruct Hf as (t & Ht & ->). pose proof (idx_range 0 va) as Hi. change (Z.of_nat 1) with 1 in Hi.
  pose proof (pi_tab _ _ _ _ H t _ Ht) as Htk. set (s' := wrp s _ v).
  assert (Hne : forall t' i', taken (vm_pmm s) t' -> 0 <= i' < 512 -> (t', i') <> (t, idx_of 1 va) ->
    rdp s' (pte_at t' i') = rdp s (pte_at t' i')).
  { intros t' i' Ht' Hi' Hn. apply rdp_wrp_ne. by apply (pte_apart hhdm s C T). }
  assert (Hup : forall t r l b i, T !! t = Some (r, S (S l), b) -> 0 <= i < 512 -> rdp s' (pte_at t i) = rdp s (pte_at t i)).
  { intros t' r l b i Ht' Hi'. apply Hne; [by eapply pi_tab | done |]. intros E. injection E as -> _. congruence. }
  assert (Hpath : forall root2 va2, T !! root2 = Some (root2, 4%nat, 0) -> user_va va2 ->
    hw_pte 3 (vm_mem s') root2 va2 = hw_pte 3 (vm_mem s) root2 va2).
  { intros root2 va2 Hr2 Hva2. apply (hw_pte_upper s s' C T 3 root2 root2 va2 H Hva2); [lia | done |].
    by rewrite base_top. }
  split; [by eapply inv_write|]. split; [|split; [by rewrite Hpath|split; [|split]]].
  - unfold VmmSpec.leaf. rewrite Hpath, Ha by done. apply (rdp_wrp_eq s); done.
  - intros q root2 va2 Hr2 Hva2. apply (hw_up_upper q s s' C T 3 root2 root2 va2 H Hva2); [lia | done |].
    by rewrite base_top.
  - intros root2 va2 Hr2 Hva2 Hd. unfold VmmSpec.leaf. rewrite Hpath by done.
    pose proof (leaf_found s C T root2 va2 H Hr2 Hva2) as Hf. destruct (hw_pte 3 (vm_mem s) root2 va2) as [a2|]; [|done].
    destruct Hf as (t2 & Ht2 & ->). apply Hne; [by eapply pi_tab | apply (idx_range 0) |].
    intros E. injection E as -> E. rewrite Ht in Ht2. injection Ht2 as <- Hb.
    destruct Hd as [Hd|Hd]; [done|]. apply Hd. by apply same_page.
  - intros x Hx. apply st64_outside. rewrite (pte_at_eq hhdm s C T) by done. specialize (Hx t ltac:(by eexists)). lia.
Qed.

(** ** Dropping a reference *)

Definition unref_count (C : gmap Z Z) (f : Z) : gmap Z Z :=
  match C !! f with
  | None => C
  | Some n => if n =? 1 then delete f C else <[f := n - 1]> C
  end.

Lemma taken_free pm f q : pmm_wf pm -> taken pm f -> taken pm q -> q <> f -> taken (pmm_free pm f ra) q.
Proof.
  intros W (F1 & F2 & F3 & F4) (Q1 & Q2 & Q3 & Q4) Hne.
  pose proof (Z.div_mod f 4096 ltac:(lia)). pose proof (Z.div_mod q 4096 ltac:(lia)).
  assert (g_total (pmm_free pm f ra) = g_total pm) as Ht by (unfold pmm_free; by case_match).
  split; [done|]. split; [done|]. split; [by rewrite Ht|].
  rewrite pmm_free_test; [|done | lia | apply Z.div_pos; lia | done]. unfold PAGE_SIZE.
  destruct (Z.eqb_spec (f / 4096) (q / 4096)); [nia | done].
Qed.

(** Frame 0 is never given to the pool. *)
Lemma free_zero pm f : pmm_wf pm -> taken pm f -> ~ is_free pm 0 -> ~ is_free (pmm_free pm f ra) 0.
Proof.
  intros W (F1 & F2 & F3 & F4) Hz [Hr Hb]. pose proof (Z.div_mod f 4096 ltac:(lia)).
  assert (Ht : g_total (pmm_free pm f ra) = g_total pm) by (unfold pmm_free; by case_match).
  rewrite pmm_free_test in Hb; [|done | lia | done | done]. unfold PAGE_SIZE in Hb.
  destruct (Z.eqb_spec (f / 4096) 0); [nia|]. apply Hz. rewrite Ht in Hr. by split.
Qed.

Lemma unref_spec s C T f : pt_inv s C T -> let s' := vm_unref ra s f in
  pt_inv s' (unref_count C f) T /\ vm_mem s' = vm_mem s /\ vm_cgs s' = vm_cgs s /\
  (forall q, taken (vm_pmm s) q -> q <> f -> taken (vm_pmm s') q) /\
  (C !! f <> Some 1 -> vm_pmm s' = vm_pmm s).
Proof.
  intros H. cbn zeta. unfold vm_unref, vmm_share_unref, unref_count.
  pose proof (find_spec (vm_frames s) C f (pi_refs _ _ _ _ H)) as F.
  destruct (shm_find_locked (vm_frames s) f) as [j|].
  2:{ rewrite F. cbn. destruct s. done. }
  destruct F as (Hj & Hu & Hf & HC). rewrite HC. pose proof (fo_refs _ _ (pi_refs _ _ _ _ H) f _ HC) as Hr.
  rewrite u32_small by lia. destruct (pi_counted _ _ _ _ H f _ HC) as [Htk HT].
  pose proof (pi_pmm _ _ _ _ H) as W.
  destruct (Z.eqb_spec (refs (slots (vm_frames s) j) - 1) 0) as [E|E],
    (Z.eqb_spec (refs (slots (vm_frames s) j)) 1) as [E1|E1]; try lia; cbn.
  - assert (Hkeep : forall q, taken (vm_pmm s) q -> q <> f -> taken (pmm_free (vm_pmm s) f ra) q)
      by (intros q Hq Hne; by apply taken_free).
    split; [|split; [done | split; [done | split; [done | congruence]]]].
    destruct H as [H1 H2 H3 H4 H5 H6 HG H7 H8 H9]. constructor; cbn; auto.
    + destruct Htk. apply pmm_free_wf; [done | lia].
    + assert (Ht : g_total (pmm_free (vm_pmm s) f ra) = g_total (vm_pmm s)) by (unfold pmm_free; by case_match).
      by rewrite Ht.
    + intros t o Ho. apply Hkeep; [by eapply H4 | congruence].
    + by eapply bury_ok.
    + intros g n Hg. apply lookup_delete_Some in Hg as [Hne Hg]. destruct (H8 g n Hg). auto.
    + by apply free_zero.
  - split; [|done]. destruct H as [H1 H2 H3 H4 H5 H6 HG H7 H8 H9]. constructor; cbn; auto.
    + rewrite Hf, Hu. apply rebind_ok; try done; [congruence | lia].
    + intros g n Hg. apply lookup_insert_Some in Hg as [[<- _]|[_ Hg]]; [done | by apply (H8 g n)].
Qed.

(** ** Looking up *)

Lemma hw_pte_page k m t va : hw_pte k m t (base_of 0 va) = hw_pte k m t va.
Proof.
  revert t. induction k as [|k IH]; intros t; cbn [VmmSpec.hw_pte].
  - change 1 with (Z.of_nat 1). by rewrite base0_idx.
  - rewrite base0_idx. by destruct (has _ PTE_P).
Qed.

Lemma user_page va : user_va va -> page_of va = base_of 0 va /\ user_va (base_of 0 va).
Proof.
  unfold user_va. intros H. split; [apply page_of_eq; lia|]. unfold base_of. change (2 ^ lshift 0) with 4096.
  pose proof (Z.div_mod va 4096 ltac:(lia)). pose proof (Z.mod_pos_bound va 4096 ltac:(lia)).
  assert (0 <= va / 4096) by (apply Z.div_pos; lia). lia.
Qed.

(** Looking up never changes the state, and finds what the processor finds. *)
Lemma present_pte_spec s C T root va : pt_inv s C T -> T !! root = Some (root, 4%nat, 0) -> user_va va ->
  present_pte hhdm s root (page_of va) =
  (s, if has (leaf (vm_mem s) root va) PTE_P then hw_pte 3 (vm_mem s) root va else None).
Proof.
  intros H Hr Hva. destruct (user_page va Hva) as [-> Hva0]. unfold present_pte, walk.
  pose proof (walk_no_create hhdm s C T 3 root root (base_of 0 va) 0 H Hva0 ltac:(lia)) as W.
  rewrite base_top in W by done. specialize (W Hr). change (Z.of_nat 4) with 4 in W. rewrite W, hw_pte_page.
  unfold VmmSpec.leaf. destruct (hw_pte 3 (vm_mem s) root va) as [a|]; [|done]. by destruct (has _ PTE_P).
Qed.

Lemma vmm_resolve_spec s C T root va : pt_inv s C T -> T !! root = Some (root, 4%nat, 0) -> user_va va ->
  vmm_resolve hhdm s root va =
  (s, let e := leaf (vm_mem s) root va in if has e PTE_P then Z.land e PTE_ADDR + Z.land va 0xFFF else 0).
Proof.
  intros H Hr Hva. unfold vmm_resolve. rewrite (present_pte_spec s C T) by done. cbn zeta.
  destruct (has (leaf (vm_mem s) root va) PTE_P) eqn:E; [|done].
  unfold VmmSpec.leaf in *. destruct (hw_pte 3 (vm_mem s) root va); [done|]. done.
Qed.

(** ** [vmm_map] *)

(** The entry [vmm_map] installs. *)
Definition map_entry (pa flags : Z) : Z :=
  let e := Z.lor (Z.land pa PTE_ADDR) (pte_flags flags) in
  if has flags VM_EXTSHM then Z.lor e PTE_AVL else e.

(** The frame references after an entry [old] has been replaced by one for [pa]. *)
Definition replaced (C : gmap Z Z) (old pa : Z) : gmap Z Z :=
  if has old PTE_P && has old (Z.lor PTE_COW PTE_AVL) && negb (Z.land old PTE_ADDR =? Z.land pa PTE_ADDR)
  then unref_count C (Z.land old PTE_ADDR) else C.

Lemma pte_flags_word flags : word64 (pte_flags flags).
Proof.
  unfold pte_flags.
  repeat match goal with |- context [if ?c then _ else _] => destruct c end; by vm_compute.
Qed.

Lemma map_entry_word pa flags : word64 pa ->
  word64 (Z.lor (Z.land pa PTE_ADDR) (pte_flags flags)) /\ word64 (map_entry pa flags).
Proof.
  intros H. assert (W : word64 (Z.lor (Z.land pa PTE_ADDR) (pte_flags flags)))
    by (apply lor_word; [by apply land_word | apply pte_flags_word]).
  split; [done|]. unfold map_entry. destruct (has flags VM_EXTSHM); [|done]. apply lor_word; [done|]. unfold word64, PTE_AVL. lia.
Qed.

(** The writes of [vmm_map], the second one for pages of a shared segment. *)
Lemma map_write s C T root va a pa flags : pt_inv s C T -> T !! root = Some (root, 4%nat, 0) -> user_va va ->
  hw_pte 3 (vm_mem s) root va = Some a -> word64 pa ->
  let s2 := wrp s a (Z.lor (Z.land pa PTE_ADDR) (pte_flags flags)) in
  let s3 := if has flags VM_EXTSHM then wrp s2 a (Z.lor (rdp s2 a) PTE_AVL) else s2 in
  pt_inv s3 C T /\ leaf (vm_mem s3) root va = map_entry pa flags /\
  (forall q root2 va2, T !! root2 = Some (root2, 4%nat, 0) -> user_va va2 ->
     hw_up q 3 (vm_mem s3) root2 va2 = hw_up q 3 (vm_mem s) root2 va2) /\
  (forall root2 va2, T !! root2 = Some (root2, 4%nat, 0) -> user_va va2 -> root2 <> root \/ va2 / 4096 <> va / 4096 ->
     leaf (vm_mem s3) root2 va2 = leaf (vm_mem s) root2 va2) /\
  (forall x, (forall t, is_Some (T !! t) -> ~ (t + hhdm <= x < t + hhdm + 4096)) -> vm_mem s3 x = vm_mem s x).
Proof.
  intros H Hr Hva Ha Hpa. destruct (map_entry_word pa flags Hpa) as [We Wm]. cbn zeta. unfold map_entry in *.
  set (e := Z.lor _ _) in *.
  destruct (write_leaf s C T root va a e H Hr Hva Ha We) as (I2 & L2 & H2 & U2 & O2 & M2).
  set (s2 := wrp s a e) in *. destruct (has flags VM_EXTSHM); [|done].
  assert (Ev : rdp s2 a = e) by (apply rdp_wrp_eq; done). rewrite Ev.
  destruct (write_leaf s2 C T root va a _ I2 Hr Hva H2 Wm) as (I3 & L3 & _ & U3 & O3 & M3).
  split; [done|]. split; [done|]. split; [intros; rewrite U3 by done; by apply U2|]. split.
  - intros root2 va2 Hr2 Hva2 Hd. rewrite O3 by done. by apply O2.
  - intros x Hx. rewrite M3 by done. by apply M2.
Qed.

(** The rights of the entry [vmm_map] installs are those asked for. *)
Lemma map_entry_rights pa flags : let e := map_entry pa flags in
  has e PTE_P = true /\ user_ok e = has flags VM_USER /\ write_ok e = has flags VM_WRITE /\
  exec_ok e = has flags VM_EXEC.
Proof.
  cbn zeta. assert (Hm : forall m, Z.land PTE_ADDR m = 0 -> Z.land PTE_AVL m = 0 ->
    has (map_entry pa flags) m = has (pte_flags flags) m).
  { intros m Hm Hv. unfold map_entry. assert (E : has (Z.lor (Z.land pa PTE_ADDR) (pte_flags flags)) m = has (pte_flags flags) m)
      by (rewrite has_lor, has_masked by done; done).
    destruct (has flags VM_EXTSHM); [|done]. rewrite has_lor, E. unfold has at 2. rewrite Hv. apply orb_false_r. }
  unfold user_ok, write_ok, exec_ok. rewrite !Hm by done. unfold pte_flags.
  by destruct (has flags VM_WRITE), (has flags VM_USER), (has flags VM_EXEC).
Qed.

(** What the processor may do at the page after [vmm_map]. *)
Definition mapped_rights (m : mem) (root va flags : Z) : Prop :=
  hw_may user_ok m root va = has flags VM_USER /\ hw_may write_ok m root va = has flags VM_WRITE /\
  hw_may exec_ok m root va = has flags VM_EXEC.

Lemma map_rights s C T root va pa flags : pt_inv s C T -> T !! root = Some (root, 4%nat, 0) -> user_va va ->
  leaf (vm_mem s) root va = map_entry pa flags ->
  (has flags VM_USER = true -> hw_up user_ok 3 (vm_mem s) root va = true) -> mapped_rights (vm_mem s) root va flags.
Proof.
  intros H Hr Hva El HU. destruct (map_entry_rights pa flags) as (Ep & Eu & Ew & Ex). split; [|split].
  - unfold VmmSpec.hw_may. rewrite El, Ep, Eu. destruct (has flags VM_USER); [by rewrite HU | apply andb_false_r].
  - rewrite (may_leaf hhdm write_ok s C T) by auto. by rewrite El, Ep, Ew.
  - rewrite (may_leaf hhdm exec_ok s C T) by auto. by rewrite El, Ep, Ex.
Qed.

(** Everything [vmm_map] promises. *)
Definition map_post (s s' : vmst) (ok : bool) (C : gmap Z Z) (T T' : tabs) (root va pa flags : Z) : Prop :=
  T ⊆ T' /\ pt_inv s' (if ok then replaced C (leaf (vm_mem s) root va) pa else C) T' /\
  (if ok then leaf (vm_mem s') root va = map_entry pa flags /\ mapped_rights (vm_mem s') root va flags
   else exhausted s') /\
  (forall root2 va2, T !! root2 = Some (root2, 4%nat, 0) -> user_va va2 ->
     (ok = true -> root2 <> root \/ va2 / 4096 <> va / 4096) ->
     leaf (vm_mem s') root2 va2 = leaf (vm_mem s) root2 va2 /\ rights_kept (vm_mem s) (vm_mem s') root2 va2) /\
  (forall t, is_Some (T' !! t) -> T !! t = None -> ~ taken (vm_pmm s) t) /\
  (forall x, (forall t, is_Some (T' !! t) -> ~ (t + hhdm <= x < t + hhdm + 4096)) -> vm_mem s' x = vm_mem s x).

Lemma up_page q k m t va : hw_up q k m t (base_of 0 va) = hw_up q k m t va.
Proof.
  revert t. induction k as [|k IH]; intros t; cbn [VmmSpec.hw_up]; [done|]. rewrite base0_idx. by rewrite IH.
Qed.

Lemma grows_rights s s' C T T' : pt_inv s C T -> grows s s' C T T' ->
  forall root va, T !! root = Some (root, 4%nat, 0) -> user_va va ->
  hw_up user_ok 3 (vm_mem s) root va = true -> hw_up user_ok 3 (vm_mem s') root va = true.
Proof.
  intros H G root va Hr Hva. apply (up_grows hhdm s s' C T T' 3 root root va H G Hva); [lia|]. by rewrite base_top.
Qed.

Lemma vmm_map_ok s C T root va pa flags :
  pt_inv s C T -> T !! root = Some (root, 4%nat, 0) -> user_va va -> word64 pa ->
  let '(s', ok) := vmm_map hhdm ra s root va pa flags in exists T', map_post s s' ok C T T' root va pa flags.
Proof.
  intros H Hr Hva Hpa. unfold vmm_map, walk. destruct (user_page va Hva) as [-> Hva0].
  pose proof (walk_create hhdm 3 s C T root root (base_of 0 va) flags H Hva0 ltac:(lia)) as W.
  rewrite base_top in W by done. specialize (W Hr). change (Z.of_nat 4) with 4 in W.
  destruct (walk_from hhdm 3 s root 4 (base_of 0 va) true flags) as [s1 o].
  destruct W as (T1 & G & Ho). pose proof G as [G1 G2 G3 _ _ _ _ G8 G9].
  assert (Hw : forall r, T !! r = Some (r, 4%nat, 0) -> T1 !! r = Some (r, 4%nat, 0))
    by (intros r E; by eapply lookup_weaken).
  destruct o as [a|].
  2:{ exists T1. unfold map_post. split; [done|]. split; [done|]. split; [exact Ho|]. split; [|done]. intros root2 va2 Hr2 Hva2 _.
      split; [by apply G3|]. eapply rights_leaf; eauto. by eapply grows_rights. }
  destruct Ho as (_ & _ & _ & Ha & HU). rewrite hw_pte_page in Ha. rewrite up_page in HU.
  assert (Hold : rdp s1 a = leaf (vm_mem s) root va).
  { rewrite <- (G3 root va Hr Hva). unfold VmmSpec.leaf. by rewrite Ha. }
  rewrite Hold. pose proof (map_write s1 C T1 root va a pa flags G1 (Hw _ Hr) Hva Ha Hpa) as Hs3. cbn zeta in Hs3.
  set (s3 := if has flags VM_EXTSHM then _ else _) in *. clearbody s3. destruct Hs3 as (I3 & L3 & U3 & O3 & M3).
  assert (R3 : mapped_rights (vm_mem s3) root va flags)
    by (apply (map_rights s3 C T1 root va pa flags I3 (Hw _ Hr) Hva L3); intros Hu; rewrite (U3 _ _ _ (Hw _ Hr) Hva); exact (HU Hu)).
  assert (O : forall root2 va2, T !! root2 = Some (root2, 4%nat, 0) -> user_va va2 ->
    (true = true -> root2 <> root \/ va2 / 4096 <> va / 4096) ->
    leaf (vm_mem s3) root2 va2 = leaf (vm_mem s) root2 va2 /\ rights_kept (vm_mem s) (vm_mem s3) root2 va2).
  { intros root2 va2 Hr2 Hva2 Hd. assert (E : leaf (vm_mem s3) root2 va2 = leaf (vm_mem s) root2 va2) by (rewrite O3; auto).
    split; [exact E|]. apply (rights_leaf s s3 C C T T1 root2 va2 H I3 Hr2 (Hw _ Hr2) Hva2 E). intros Hu.
    rewrite (U3 _ _ _ (Hw _ Hr2) Hva2). by apply (grows_rights s s1 C T T1). }
  assert (M : forall x, (forall t, is_Some (T1 !! t) -> ~ (t + hhdm <= x < t + hhdm + 4096)) -> vm_mem s3 x = vm_mem s x)
    by (intros x Hx; rewrite M3; auto).
  exists T1. unfold map_post. split; [done|]. unfold replaced. destruct (has (leaf (vm_mem s) root va) PTE_P && _ && _); [|done].
  destruct (unref_spec s3 C T1 (Z.land (leaf (vm_mem s) root va) PTE_ADDR) I3) as (I4 & -> & _). done.
Qed.

(** C12: [vmm_map] installs exactly one translation.  Over any set of address
    spaces whose tables are well formed, mapping a user page fails only when no
    frame is left for a table, and then leaves every translation of every
    address space as it was; otherwise the processor finds the new entry at
    that page and allows there what was asked and no more, at every level of
    the tables: user access exactly with [VM_USER], writing exactly with
    [VM_WRITE], execution exactly with [VM_EXEC].  All other pages of this and
    of every other address space translate as before and keep their rights to
    write and execute, and never lose the user's; tables it had to create come
    from free frames, memory outside the tables is not touched, a shared frame
    that is mapped over loses exactly one reference, and the invariant holds
    again. *)
Theorem vmm_map_spec s C T root va pa flags :
  pt_inv s C T -> T !! root = Some (root, 4%nat, 0) -> user_va va -> word64 pa ->
  let '(s', ok) := vmm_map hhdm ra s root va pa flags in exists T', map_post s s' ok C T T' root va pa flags.
Proof. apply vmm_map_ok. Qed.

(** ** Copy on write *)

(** Taking a frame and filling it leaves tables and counts alone. *)
Lemma alloc_spec s C T : pt_inv s C T -> let '(s1, p) := vm_alloc s in
  pt_inv s1 C T /\ vm_mem s1 = vm_mem s /\ vm_frames s1 = vm_frames s /\
  (p <> 0 -> taken (vm_pmm s1) p /\ ~ taken (vm_pmm s) p /\ T !! p = None /\ C !! p = None) /\
  (p = 0 <-> exhausted s) /\ (p = 0 -> s1 = s).
Proof.
  intros H. pose proof (pi_lim _ _ _ _ H) as (L1 & L2 & L3). unfold vm_alloc.
  pose proof (pmm_alloc_taken (vm_pmm s) (pi_pmm _ _ _ _ H) L2) as A. destruct (pmm_alloc (vm_pmm s)) as [pm p].
  destruct A as (W & Ht & Hk & Hp & Hfr & Hz). split; [|split; [done|split; [done|split; [|split]]]].
  - apply (inv_frame hhdm s); try done. apply (pi_byte _ _ _ _ H).
  - intros Hp0. destruct (Hp Hp0) as [P1 P2]. split; [done|]. split; [done|]. split.
    + destruct (T !! p) eqn:E; [destruct P2; by eapply pi_tab | done].
    + destruct (C !! p) eqn:E; [destruct P2; by eapply pi_counted | done].
  - split; [intros Hp0; exact (proj2 (Hz Hp0 (pi_zero _ _ _ _ H)))|]. intros Hx.
    destruct (Z.eq_dec p 0) as [|Hp0]; [done|]. destruct (Hp Hp0) as [(P1 & P2 & P3 & _) Hnt]. exfalso. apply (Hx (p / 4096)).
    assert (0 <= p / 4096) by (apply Z.div_pos; lia). split; [by rewrite <- Ht|].
    destruct (bit_test (g_bitmap (vm_pmm s)) (p / 4096)) eqn:E; [|done]. destruct Hnt. rewrite Ht in P3. by split_and!.
  - intros Hp0. destruct (Hz Hp0 (pi_zero _ _ _ _ H)) as [-> _]. by destruct s.
Qed.

Lemma page_apart s p q : taken s p -> taken s q -> p <> q -> p + 4096 <= q \/ q + 4096 <= p.
Proof.
  intros (_ & P & _) (_ & Q & _) Hne. pose proof (Z.div_mod p 4096 ltac:(lia)). pose proof (Z.div_mod q 4096 ltac:(lia)). nia.
Qed.

Lemma copy_page_spec s C T d f : pt_inv s C T -> taken (vm_pmm s) d -> taken (vm_pmm s) f -> d <> f -> T !! d = None ->
  let s' := vm_copy_page hhdm s d f in
  pt_inv s' C T /\
  (forall x, vm_mem s' x = if (d + hhdm <=? x) && (x <? d + hhdm + 4096) then vm_mem s (x - d + f) else vm_mem s x) /\
  (forall t i, is_Some (T !! t) -> 0 <= i < 512 -> rdp s' (pte_at t i) = rdp s (pte_at t i)).
Proof.
  intros H Hd Hf Hne HT. cbn zeta. pose proof (taken_range hhdm s C T d H Hd). pose proof (taken_range hhdm s C T f H Hf).
  pose proof (pi_lim _ _ _ _ H). destruct (page_apart _ d f Hd Hf Hne) as [Hap|Hap].
  all: assert (Hm : forall x, vm_mem (vm_copy_page hhdm s d f) x =
    if (d + hhdm <=? x) && (x <? d + hhdm + 4096) then vm_mem s (x - d + f) else vm_mem s x)
    by (intros x; unfold vm_copy_page; simpl; unfold pmm_virt; rewrite !u64_small by lia;
        rewrite memcpy_spec by (unfold PAGE_SIZE; lia); unfold PAGE_SIZE;
        replace (x - (d + hhdm) + (f + hhdm)) with (x - d + f) by lia; done).
  all: assert (He : forall t i, is_Some (T !! t) -> 0 <= i < 512 ->
    rdp (vm_copy_page hhdm s d f) (pte_at t i) = rdp s (pte_at t i))
    by (intros t i [o Ht] Hi; assert (Htk : taken (vm_pmm s) t) by (by eapply pi_tab);
        assert (Htd : t <> d) by congruence; unfold rdp; apply ld64_shift; intros j Hj; rewrite Hm;
        rewrite (pte_at_eq hhdm s C T) by done; destruct (page_apart _ t d Htk Hd Htd); bdestr; simpl; done || lia).
  all: split; [|split; done]; pose proof H as [J1 J2 J3 J4 J5 J6 JG J7 J8 J9]; constructor; auto;
    [intros x; rewrite Hm; destruct (_ && _); apply J3 |
     intros t r l b i Ht Hi; rewrite He; [by apply J6 | by eexists | by apply limit_512 in Hi] |
     intros t r l b i Ht Hi; rewrite He; [by apply (JG t r l b) | by eexists | by apply limit_512 in Hi]].
Qed.

(** The attributes a private copy keeps. *)
Definition KEEP := Z.lor (Z.lor (Z.lor PTE_U PTE_PWT) PTE_PCD) PTE_NX.

(** A private, writable entry with the attributes of [e]. *)
Definition broken (e e' : Z) : Prop :=
  has e' PTE_P = true /\ has e' PTE_RW = true /\ has e' PTE_COW = false /\
  Z.land e' KEEP = Z.land e KEEP.

Lemma broken_sole e : word64 e -> has e PTE_P = true ->
  let e' := Z.lor (Z.land e (not64 PTE_COW)) PTE_RW in
  word64 e' /\ broken e e' /\ Z.land e' PTE_ADDR = Z.land e PTE_ADDR.
Proof.
  intros We Hp. cbn zeta. split; [apply lor_word; [by apply land_word | by vm_compute]|]. split.
  - split; [by rewrite has_lor, has_keep, Hp by done|]. split; [rewrite has_lor; apply orb_true_r|].
    split; [by rewrite has_lor, has_masked by done|]. by rewrite Z.land_lor_distr_l, land_mask_eq, Z.lor_0_r by done.
  - rewrite addr_lor by done. by apply land_mask_eq.
Qed.

Lemma broken_copy e p : word64 e -> 0 <= p < 2 ^ 52 -> p mod 4096 = 0 ->
  let e' := Z.lor (Z.lor (Z.lor (Z.land p PTE_ADDR) (Z.land e KEEP)) PTE_P) PTE_RW in
  word64 e' /\ broken e e' /\ Z.land e' PTE_ADDR = p.
Proof.
  intros We Hp Ha. cbn zeta. rewrite addr_id by done.
  assert (Wk : word64 (Z.land e KEEP)) by (by apply land_word).
  split; [repeat apply lor_word; try done; unfold word64; lia|]. split.
  - split; [rewrite has_lor, has_lor; rewrite orb_true_r; done|]. split; [rewrite has_lor; apply orb_true_r|].
    split; [rewrite !has_lor, has_addr, has_masked by done; done|].
    rewrite !Z.land_lor_distr_l, land_mask_eq by done.
    replace (Z.land p KEEP) with 0 by (rewrite <- (addr_id p Hp Ha), <- Z.land_assoc; symmetry; apply Z.land_0_r).
    change (Z.land PTE_P KEEP) with 0. change (Z.land PTE_RW KEEP) with 0. by rewrite !Z.lor_0_r, Z.lor_0_l.
  - rewrite !addr_lor by done. rewrite (addr_lor p) by (rewrite <- Z.land_assoc; apply Z.land_0_r). by apply addr_id.
Qed.

Lemma ref_count_spec s C T f : pt_inv s C T -> (forall n, C !! f = Some n -> n < 2 ^ 31) ->
  (vmm_frame_ref_count (vm_frames s) f <=? 1) = match C !! f with Some n => n <=? 1 | None => true end.
Proof.
  intros H Hn. unfold vmm_frame_ref_count. pose proof (find_spec (vm_frames s) C f (pi_refs _ _ _ _ H)) as F.
  destruct (shm_find_locked (vm_frames s) f) as [j|]; [|by rewrite F]. destruct F as (_ & _ & _ & HC). rewrite HC.
  specialize (Hn _ HC). pose proof (fo_refs _ _ (pi_refs _ _ _ _ H) f _ HC). unfold s32, sgn.
  rewrite Z.mod_small by lia. change (32 - 1) with 31. by destruct (Z.ltb_spec (refs (slots (vm_frames s) j)) (2 ^ 31)); [|lia].
Qed.

Lemma forget_spec s C T f : pt_inv s C T -> (forall n, C !! f = Some n -> n = 1) ->
  pt_inv (Vm (vm_mem s) (vm_pmm s) (frame_ref_forget_if_last (vm_frames s) f) (vm_cgs s)) (unref_count C f) T.
Proof.
  intros H Hn. unfold frame_ref_forget_if_last, unref_count.
  pose proof (find_spec (vm_frames s) C f (pi_refs _ _ _ _ H)) as F.
  destruct (shm_find_locked (vm_frames s) f) as [j|]; [|rewrite F; by destruct s].
  destruct F as (Hj & Hu & Hf & HC). rewrite HC. pose proof (Hn _ HC) as E. rewrite E. cbn.
  pose proof H as [J1 J2 J3 J4 J5 J6 JG J7 J8 J9]. constructor; cbn; auto.
  - by eapply bury_ok.
  - intros g n Hg. apply lookup_delete_Some in Hg as [_ Hg]. by apply (J8 g n).
Qed.

(** What the processor allows at the page: writing from now on, the rest as before. *)
Definition now_writable (m m' : mem) (root va : Z) : Prop :=
  hw_may write_ok m' root va = true /\ hw_may user_ok m' root va = hw_may user_ok m root va /\
  hw_may exec_ok m' root va = hw_may exec_ok m root va.

Lemma broken_rights s s' C C' T root va : pt_inv s C T -> pt_inv s' C' T -> T !! root = Some (root, 4%nat, 0) -> user_va va ->
  has (leaf (vm_mem s) root va) PTE_P = true -> broken (leaf (vm_mem s) root va) (leaf (vm_mem s') root va) ->
  (forall q, hw_up q 3 (vm_mem s') root va = hw_up q 3 (vm_mem s) root va) -> now_writable (vm_mem s) (vm_mem s') root va.
Proof.
  intros H H' Hr Hva Hp (B1 & B2 & _ & BK) HU.
  assert (K : forall m, Z.land KEEP m = m -> has (leaf (vm_mem s') root va) m = has (leaf (vm_mem s) root va) m).
  { intros m Hm. unfold has. by rewrite <- Hm, !Z.land_assoc, BK. }
  split; [|split].
  - rewrite (may_leaf hhdm write_ok s' C' T) by auto. unfold write_ok. by rewrite B1, B2.
  - unfold VmmSpec.hw_may, user_ok. by rewrite HU, Hp, B1, K.
  - unfold VmmSpec.hw_may, exec_ok. by rewrite HU, Hp, B1, K.
Qed.

(** Everything a broken copy promises, for the frame [f'] the page has now. *)
Definition cow_post (s s' : vmst) (C : gmap Z Z) (T : tabs) (root va f f' : Z) : Prop :=
  pt_inv s' (unref_count C f) T /\ broken (leaf (vm_mem s) root va) (leaf (vm_mem s') root va) /\
  Z.land (leaf (vm_mem s') root va) PTE_ADDR = f' /\ now_writable (vm_mem s) (vm_mem s') root va /\
  (forall i, 0 <= i < 4096 -> vm_mem s' (f' + hhdm + i) = vm_mem s (f + hhdm + i)) /\
  (forall root2 va2, T !! root2 = Some (root2, 4%nat, 0) -> user_va va2 -> root2 <> root \/ va2 / 4096 <> va / 4096 ->
     leaf (vm_mem s') root2 va2 = leaf (vm_mem s) root2 va2 /\
     forall q, hw_may q (vm_mem s') root2 va2 = hw_may q (vm_mem s) root2 va2) /\
  (forall g, taken (vm_pmm s) g -> T !! g = None ->
     forall i, 0 <= i < 4096 -> vm_mem s' (g + hhdm + i) = vm_mem s (g + hhdm + i)).

Lemma may_same q m m' root va : hw_up q 3 m' root va = hw_up q 3 m root va -> leaf m' root va = leaf m root va ->
  hw_may q m' root va = hw_may q m root va.
Proof. unfold VmmSpec.hw_may. by intros -> ->. Qed.

(** Bytes of a data frame are outside every table. *)
Lemma data_outside T s1 C1 g i : pt_inv s1 C1 T -> taken (vm_pmm s1) g -> T !! g = None -> 0 <= i < 4096 ->
  forall t, is_Some (T !! t) -> ~ (t + hhdm <= g + hhdm + i < t + hhdm + 4096).
Proof.
  intros I Hg HT Hi t [o Ht]. assert (Htk : taken (vm_pmm s1) t) by (by eapply pi_tab).
  assert (t <> g) by congruence. destruct (page_apart _ t g Htk Hg ltac:(done)); lia.
Qed.

Section Break.
Context (s : vmst) (C : gmap Z Z) (T : tabs) (root va a : Z).
Context (H : pt_inv s C T) (Hr : T !! root = Some (root, 4%nat, 0)) (Hva : user_va va).
Context (Ha : hw_pte 3 (vm_mem s) root va = Some a).
Notation e := (leaf (vm_mem s) root va).
Notation f := (Z.land (leaf (vm_mem s) root va) PTE_ADDR).
Context (Hp : has e PTE_P = true) (Hf : taken (vm_pmm s) f) (HfT : T !! f = None).

Lemma break_sole : (forall n, C !! f = Some n -> n = 1) ->
  let s1 := Vm (vm_mem s) (vm_pmm s) (frame_ref_forget_if_last (vm_frames s) f) (vm_cgs s) in
  cow_post s (wrp s1 a (Z.lor (Z.land (rdp s1 a) (not64 PTE_COW)) PTE_RW)) C T root va f f.
Proof.
  intros Hn. cbn zeta. pose proof (forget_spec s C T f H Hn) as I1. set (s1 := Vm _ _ _ _) in *.
  assert (Ee : rdp s1 a = e) by (unfold VmmSpec.leaf; rewrite Ha; done). rewrite Ee.
  assert (We : word64 e) by (unfold VmmSpec.leaf; rewrite Ha; apply ld64_word, (pi_byte _ _ _ _ H)).
  destruct (broken_sole e We Hp) as (W' & B' & A').
  destruct (write_leaf s1 _ T root va a _ I1 Hr Hva Ha W') as (I2 & L2 & _ & U2 & O2 & M2).
  assert (Hd : forall g, taken (vm_pmm s) g -> T !! g = None -> forall i, 0 <= i < 4096 ->
    vm_mem (wrp s1 a (Z.lor (Z.land e (not64 PTE_COW)) PTE_RW)) (g + hhdm + i) = vm_mem s (g + hhdm + i)).
  { intros g Hg HT i Hi. apply M2. by apply (data_outside T s1 (unref_count C f) g i I1). }
  split; [done|]. split; [by rewrite L2|]. split; [by rewrite L2|]. split.
  { apply (broken_rights s _ C (unref_count C f) T root va H I2 Hr Hva Hp); [by rewrite L2 | intros q; by apply U2]. }
  split; [by apply Hd|]. split; [|done]. intros r2 v2 Hr2 Hv2 Hx. split; [by apply O2|]. intros q.
  apply may_same; [by apply U2 | by apply O2].
Qed.

Lemma break_copy n : C !! f = Some n -> 2 <= n ->
  let '(s1, nframe) := vm_alloc s in
  if nframe =? 0 then exhausted s /\ s1 = s
  else
    let s2 := vm_copy_page hhdm s1 nframe f in
    let s3 := wrp s2 a (Z.lor (Z.lor (Z.lor (Z.land nframe PTE_ADDR) (Z.land (rdp s2 a) KEEP)) PTE_P) PTE_RW) in
    cow_post s (vm_unref ra s3 f) C T root va f nframe /\ ~ taken (vm_pmm s) nframe /\ ~ exhausted s.
Proof.
  intros HC Hn. pose proof (alloc_spec s C T H) as A. pose proof (pi_lim _ _ _ _ H) as (_ & L2 & _).
  pose proof (pmm_alloc_taken (vm_pmm s) (pi_pmm _ _ _ _ H) L2) as K. unfold vm_alloc in *.
  destruct (pmm_alloc (vm_pmm s)) as [pm p]. destruct K as (_ & _ & K & _).
  set (s1 := Vm _ pm _ _) in *. destruct A as (I1 & M1 & F1 & P1 & PX & PS).
  destruct (Z.eqb_spec p 0) as [Hp0|]; [split; [by apply PX | by apply PS]|]. assert (NX : ~ exhausted s) by (by rewrite <- PX). destruct (P1 n0) as (Tk & Nt & PT & PC).
  assert (Hpf : p <> f) by congruence. assert (Hf1 : taken (vm_pmm s1) f) by (by apply K).
  destruct (copy_page_spec s1 C T p f I1 Tk Hf1 Hpf PT) as (I2 & M2 & E2). set (s2 := vm_copy_page hhdm s1 p f) in *.
  assert (Hpath : forall r v, T !! r = Some (r, 4%nat, 0) -> user_va v -> hw_pte 3 (vm_mem s2) r v = hw_pte 3 (vm_mem s) r v).
  { intros r v Hrr Hv. apply (hw_pte_upper s s2 C T 3 r r v H Hv); [lia | | by rewrite base_top].
    intros t r' l b i Ht Hi. rewrite E2; [done | by eexists | done]. }
  assert (Hupp : forall q r v, T !! r = Some (r, 4%nat, 0) -> user_va v -> hw_up q 3 (vm_mem s2) r v = hw_up q 3 (vm_mem s) r v).
  { intros q r v Hrr Hv. apply (hw_up_upper q s s2 C T 3 r r v H Hv); [lia | | by rewrite base_top].
    intros t r' l b i Ht Hi. rewrite E2; [done | by eexists | done]. }
  assert (Hleaf : forall r v, T !! r = Some (r, 4%nat, 0) -> user_va v -> leaf (vm_mem s2) r v = leaf (vm_mem s) r v).
  { intros r v Hrr Hv. pose proof (leaf_found s C T r v H Hrr Hv) as Fd. unfold VmmSpec.leaf. rewrite Hpath by done.
    destruct (hw_pte 3 (vm_mem s) r v) as [a'|]; [|done]. destruct Fd as (t & Ht & ->).
    apply E2; [by eexists | apply (idx_range 0)]. }
  assert (Ha2 : hw_pte 3 (vm_mem s2) root va = Some a) by (by rewrite Hpath).
  assert (Ee : rdp s2 a = e).
  { rewrite <- (Hleaf root va Hr Hva). unfold VmmSpec.leaf. by rewrite Ha2. }
  assert (We : word64 e) by (rewrite <- Ee; apply ld64_word, (pi_byte _ _ _ _ I2)). cbn zeta. rewrite Ee.
  pose proof (taken_range hhdm s1 C T p I1 Tk) as Rp. pose proof Tk as (_ & Ap & _).
  destruct (broken_copy e p We ltac:(lia) Ap) as (W' & B' & A').
  destruct (write_leaf s2 C T root va a _ I2 Hr Hva Ha2 W') as (I3 & L3 & _ & U3 & O3 & M3).
  set (s3 := wrp s2 a _) in *. destruct (unref_spec s3 C T f I3) as (I4 & M4 & _).
  split; [|split; [exact Nt | exact NX]]. unfold cow_post. rewrite M4. split; [exact I4|]. split; [by rewrite L3|]. split; [by rewrite L3|].
  split; [|split; [|split]].
  - apply (broken_rights s s3 C C T root va H I3 Hr Hva Hp); [by rewrite L3 | intros q; rewrite U3 by done; by apply Hupp].
  - intros i Hi. rewrite M3 by (by apply (data_outside T s1 C p i I1)). rewrite M2.
    bdestr; simpl; try lia. f_equal. lia.
  - intros r v Hrr Hv Hd. assert (El : leaf (vm_mem s3) r v = leaf (vm_mem s) r v) by (rewrite O3 by done; by apply Hleaf).
    split; [exact El|]. intros q. apply may_same; [rewrite U3 by done; by apply Hupp | exact El].
  - intros g Hg HT i Hi. rewrite M3 by (by apply (data_outside T s1 C g i I1 (K g Hg))). rewrite M2, M1.
    assert (Hgp : g <> p) by (intros Heq; rewrite Heq in Hg; exact (Nt Hg)).
    assert (Hout : (p + hhdm <=? g + hhdm + i) && (g + hhdm + i <? p + hhdm + 4096) = false).
    { apply andb_false_iff. rewrite Z.leb_gt, Z.ltb_ge. pose proof (page_apart _ g p (K g Hg) Tk Hgp). lia. }
    rewrite Hout. reflexivity.
Qed.
End Break.

(** C13: [vmm_cow_break] gives the page to its address space alone.  On a present
    copy-on-write page it succeeds unless the frame is shared and no frame is
    left, and then, and only then, it fails and changes nothing at all.  When
    it succeeds the processor may write the page and may do everything else
    there exactly as before (user access, execution, caching), the mark is
    gone, and every byte reads as before; when other entries still count on
    the frame the page now has a fresh frame of its own and the old frame
    loses one reference, otherwise it keeps the frame, which leaves the
    reference table; no other page of any address space changes its entry or
    its rights, and no byte of any other data frame changes. *)
Theorem vmm_cow_break_spec s C T root va :
  pt_inv s C T -> T !! root = Some (root, 4%nat, 0) -> user_va va ->
  has (leaf (vm_mem s) root va) PTE_P = true -> has (leaf (vm_mem s) root va) PTE_COW = true ->
  taken (vm_pmm s) (Z.land (leaf (vm_mem s) root va) PTE_ADDR) ->
  T !! Z.land (leaf (vm_mem s) root va) PTE_ADDR = None ->
  (forall f n, C !! f = Some n -> n < 2 ^ 31) ->
  let f := Z.land (leaf (vm_mem s) root va) PTE_ADDR in
  let alone := match C !! f with Some n => n <=? 1 | None => true end in
  let '(s', ok) := vmm_cow_break hhdm ra s root va in
  if ok then exists f', cow_post s s' C T root va f f' /\
    (if alone then f' = f else ~ taken (vm_pmm s) f' /\ ~ exhausted s)
  else alone = false /\ exhausted s /\ s' = s.
Proof.
  intros H Hr Hva Hp Hc Hf HfT Hn. cbn zeta. unfold vmm_cow_break, vmm_cow_break_core.
  rewrite (present_pte_spec s C T root va H Hr Hva), Hp.
  destruct (hw_pte 3 (vm_mem s) root va) as [a|] eqn:Ha.
  2:{ exfalso. unfold VmmSpec.leaf in Hp. by rewrite Ha in Hp. }
  assert (Ee : rdp s a = leaf (vm_mem s) root va) by (unfold VmmSpec.leaf; by rewrite Ha).
  rewrite Ee, Hc. cbn [negb]. rewrite (ref_count_spec s C T _ H) by (apply Hn).
  set (f := Z.land (leaf (vm_mem s) root va) PTE_ADDR) in *.
  destruct (C !! f) as [n|] eqn:HC; [destruct (Z.leb_spec n 1)|].
  - exists f. split; [|done]. apply (break_sole s C T root va a H Hr Hva Ha Hp Hf HfT).
    intros m Hm. fold f in Hm. rewrite HC in Hm. injection Hm as <-.
    pose proof (fo_refs _ _ (pi_refs _ _ _ _ H) f n HC). lia.
  - pose proof (break_copy s C T root va a H Hr Hva Ha Hp Hf n HC ltac:(lia)) as B.
    destruct (vm_alloc s) as [s1 p]. destruct (p =? 0); [done|]. destruct B as [B1 B2]. by exists p.
  - exists f. split; [|done]. apply (break_sole s C T root va a H Hr Hva Ha Hp Hf HfT).
    intros m Hm. fold f in Hm. congruence.
Qed.

(** ** Fork *)

(** Both entries of a page that fork shares. *)
Definition cow_entry (e : Z) : Z :=
  let keep := Z.lor (Z.land e (Z.lor (Z.lor PTE_PWT PTE_PCD) PTE_NX)) PTE_U in
  Z.lor (Z.lor (Z.lor (Z.land e PTE_ADDR) keep) PTE_P) PTE_COW.

Definition inc_count (C : gmap Z Z) (f : Z) : gmap Z Z := <[f := default 0 (C !! f) + 1]> C.

Lemma inc_spec s C T f : pt_inv s C T -> taken (vm_pmm s) f -> T !! f = None -> default 0 (C !! f) + 1 < 2 ^ 32 ->
  let '(t, r) := vmm_frame_ref_inc (vm_frames s) f in
  if r <? 0 then t = vm_frames s /\ C !! f = None /\ Z.of_nat (size C) = FRAME_SLOTS
  else pt_inv (Vm (vm_mem s) (vm_pmm s) t (vm_cgs s)) (inc_count C f) T.
Proof.
  intros H Hf HT Hlt. unfold vmm_frame_ref_inc, inc_count in *.
  pose proof (find_spec (vm_frames s) C f (pi_refs _ _ _ _ H)) as F.
  assert (Hup : forall t n, ftab_ok t (<[f := n]> C) -> pt_inv (Vm (vm_mem s) (vm_pmm s) t (vm_cgs s)) (<[f := n]> C) T).
  { intros t n Ht. pose proof H as [J1 J2 J3 J4 J5 J6 JG J7 J8 J9]. constructor; cbn; auto.
    intros g m Hg. apply lookup_insert_Some in Hg as [[<- _]|[_ Hg]]; [done | by apply (J8 g m)]. }
  destruct (shm_find_locked (vm_frames s) f) as [j|].
  - destruct F as (Hj & Hu & Hfr & HC). rewrite HC in *. cbn [default Z.ltb Z.compare]. apply Hup.
    by eapply add_ref_ok; [apply (pi_refs _ _ _ _ H) | | | | | |].
  - rewrite F in *. cbn [default] in *. pose proof (claim_ok (vm_frames s) C f (pi_refs _ _ _ _ H) F) as Hcl.
    destruct (claim_slot (vm_frames s) f) as [t|]; [|done]. cbn. by apply Hup.
Qed.

Lemma cow_entry_word e : word64 e -> word64 (cow_entry e).
Proof.
  intros W. unfold cow_entry. repeat apply lor_word; try (by apply land_word); by vm_compute.
Qed.

Lemma inc_inc C f : inc_count (inc_count C f) f = <[f := default 0 (C !! f) + 2]> C.
Proof. unfold inc_count. rewrite lookup_insert_eq, insert_insert_eq. cbn. f_equal. lia. Qed.

(** A count taken and dropped again. *)
Lemma unref_inc C f : (forall n, C !! f = Some n -> 1 <= n) -> unref_count (inc_count C f) f = C.
Proof.
  intros Hn. unfold unref_count, inc_count. rewrite lookup_insert_eq.
  destruct (C !! f) as [n|] eqn:E; cbn.
  - specialize (Hn n eq_refl). destruct (Z.eqb_spec (n + 1) 1); [lia|]. rewrite insert_insert_eq.
    apply insert_id. rewrite E. f_equal. lia.
  - by rewrite delete_insert_id.
Qed.

(** What sharing one page leaves alone. *)
Definition only_page (s s' : vmst) (T : tabs) (root dst va : Z) : Prop :=
  (forall r2 va2, T !! r2 = Some (r2, 4%nat, 0) -> user_va va2 ->
     (r2 <> root /\ r2 <> dst) \/ va2 / 4096 <> va / 4096 ->
     leaf (vm_mem s') r2 va2 = leaf (vm_mem s) r2 va2 /\ rights_kept (vm_mem s) (vm_mem s') r2 va2) /\
  (forall g, taken (vm_pmm s) g -> T !! g = None ->
     forall i, 0 <= i < 4096 -> vm_mem s' (g + hhdm + i) = vm_mem s (g + hhdm + i)).

(** Only the controllers of memory change. *)
Lemma inv_cgs s C T G : pt_inv s C T -> pt_inv (Vm (vm_mem s) (vm_pmm s) (vm_frames s) G) C T.
Proof. intros [J1 J2 J3 J4 J5 J6 JG J7 J8 J9]. by constructor. Qed.

Lemma only_page_refl s T root dst va : only_page s s T root dst va.
Proof. split; [|done]. intros r2 va2 _ _ _. split; [done|]. by split_and!. Qed.

(** The rights at a shared page: no writing, execution as before, and for the
    child the user's access. *)
Definition shared_rights (e : Z) (s s' : vmst) (root dst va : Z) : Prop :=
  hw_may user_ok (vm_mem s') dst va = true /\
  (hw_may user_ok (vm_mem s) root va = true -> hw_may user_ok (vm_mem s') root va = true) /\
  forall r, r = root \/ r = dst ->
    hw_may write_ok (vm_mem s') r va = false /\ hw_may exec_ok (vm_mem s') r va = exec_ok e.

Lemma cow_entry_bits e : has (cow_entry e) PTE_P = true /\ user_ok (cow_entry e) = true /\
  write_ok (cow_entry e) = false /\ exec_ok (cow_entry e) = exec_ok e.
Proof.
  unfold cow_entry, user_ok, write_ok, exec_ok. rewrite !has_lor.
  rewrite (has_masked e PTE_ADDR PTE_RW), (has_masked e PTE_ADDR PTE_NX) by done.
  rewrite (has_masked e _ PTE_RW) by done. rewrite (has_keep e _ PTE_NX) by done.
  rewrite !orb_true_r. split; [done|]. split; [done|]. split; [done|]. cbn [orb]. by rewrite !orb_false_r.
Qed.

(** Both halves of a page shared by fork: the parent's entry is rewritten in
    place, the child's written where the walk found or made room for it. *)
Lemma share_entries s C T root dst va a e : pt_inv s C T -> T !! root = Some (root, 4%nat, 0) ->
  T !! dst = Some (dst, 4%nat, 0) -> dst <> root -> user_va va -> hw_pte 3 (vm_mem s) root va = Some a -> word64 e ->
  let '(s1, o) := walk hhdm (wrp s a e) dst va true VM_USER in
  let s2 := match o with Some c => wrp s1 c e | None => s1 end in
  exists T', T ⊆ T' /\ pt_inv s2 C T' /\ leaf (vm_mem s2) root va = e /\ only_page s s2 T root dst va /\
    vm_cgs s2 = vm_cgs s /\
    (hw_up user_ok 3 (vm_mem s) root va = true -> hw_up user_ok 3 (vm_mem s2) root va = true) /\
    if o then leaf (vm_mem s2) dst va = e /\ hw_up user_ok 3 (vm_mem s2) dst va = true
    else leaf (vm_mem s2) dst va = leaf (vm_mem s) dst va /\ exhausted s2.
Proof.
  intros H Hr Hd Hne Hva Ha He. destruct (write_leaf s C T root va a e H Hr Hva Ha He) as (I1 & L1 & _ & U1 & O1 & M1).
  set (s0 := wrp s a e) in *. unfold walk.
  pose proof (walk_create hhdm 3 s0 C T dst dst va VM_USER I1 Hva ltac:(lia)) as W.
  rewrite base_top in W by done. specialize (W Hd). change (Z.of_nat 4) with 4 in W.
  destruct (walk_from hhdm 3 s0 dst 4 va true VM_USER) as [s1 o]. destruct W as (T1 & G & Ho). cbn zeta.
  assert (HU : forall r v, T !! r = Some (r, 4%nat, 0) -> user_va v -> hw_up user_ok 3 (vm_mem s) r v = true ->
    hw_up user_ok 3 (vm_mem s1) r v = true).
  { intros r v Hrr Hv Hu. apply (grows_rights s0 s1 C T T1 I1 G r v Hrr Hv). by rewrite U1. }
  destruct G as [G1 G2 G3 G4 _ GC _ G8 G9].
  assert (Hw : forall r, T !! r = Some (r, 4%nat, 0) -> T1 !! r = Some (r, 4%nat, 0))
    by (intros r E; by eapply lookup_weaken).
  assert (Hout : forall g, taken (vm_pmm s) g -> T !! g = None -> forall i, 0 <= i < 4096 ->
    forall t, is_Some (T1 !! t) -> ~ (t + hhdm <= g + hhdm + i < t + hhdm + 4096)).
  { intros g Hg HT i Hi. apply (data_outside T1 s1 C g i G1 (G4 g Hg)); [|done].
    destruct (T1 !! g) eqn:E; [|done]. exfalso. by apply (G8 g); [eexists | |]. }
  assert (Hd0 : forall g, taken (vm_pmm s) g -> T !! g = None -> forall i, 0 <= i < 4096 ->
    vm_mem s1 (g + hhdm + i) = vm_mem s (g + hhdm + i)).
  { intros g Hg HT i Hi. rewrite G9 by (by apply Hout). apply M1. by apply (data_outside T s C g i H). }
  exists T1. split; [exact G2|]. destruct o as [c|].
  2:{ split; [exact G1|]. split; [by rewrite (G3 root va Hr Hva)|]. split; [split; [|exact Hd0]|].
      - intros r2 va2 Hr2 Hva2 Hx. assert (E : leaf (vm_mem s1) r2 va2 = leaf (vm_mem s) r2 va2)
          by (rewrite (G3 r2 va2 Hr2 Hva2); apply O1; naive_solver).
        split; [exact E|]. apply (rights_leaf s s1 C C T T1 r2 va2 H G1 Hr2 (Hw _ Hr2) Hva2 E). by apply HU.
      - split; [exact GC|]. split; [by apply HU|]. split; [|exact Ho]. rewrite (G3 dst va Hd Hva). apply O1; auto. }
  destruct Ho as (_ & _ & _ & Hc & HcU).
  destruct (write_leaf s1 C T1 dst va c e G1 (Hw _ Hd) Hva Hc He) as (I2 & L2 & _ & U2 & O2 & M2).
  set (s2 := wrp s1 c e) in *.
  split; [exact I2|]. split; [rewrite O2; [by rewrite (G3 root va Hr Hva) | by apply Hw | done | by left]|].
  split; [split|].
  - intros r2 va2 Hr2 Hva2 Hx. assert (E : leaf (vm_mem s2) r2 va2 = leaf (vm_mem s) r2 va2).
    { rewrite O2; [|by apply Hw | done | naive_solver]. rewrite (G3 r2 va2 Hr2 Hva2). apply O1; [done | done | naive_solver]. }
    split; [exact E|]. apply (rights_leaf s s2 C C T T1 r2 va2 H I2 Hr2 (Hw _ Hr2) Hva2 E). intros Hu.
    rewrite (U2 _ _ _ (Hw _ Hr2) Hva2). by apply HU.
  - intros g Hg HT i Hi. rewrite M2 by (by apply Hout). by apply Hd0.
  - split; [exact GC|]. split; [intros Hu; rewrite (U2 _ _ _ (Hw _ Hr) Hva); by apply HU|]. split; [exact L2|].
    rewrite (U2 _ _ _ (Hw _ Hd) Hva). by apply HcU.
Qed.

Lemma share_rights e s s' C C' T T' root dst va : pt_inv s C T -> pt_inv s' C' T' -> T' !! root = Some (root, 4%nat, 0) ->
  T' !! dst = Some (dst, 4%nat, 0) -> user_va va ->
  leaf (vm_mem s') root va = cow_entry e -> leaf (vm_mem s') dst va = cow_entry e ->
  hw_up user_ok 3 (vm_mem s') dst va = true ->
  (hw_up user_ok 3 (vm_mem s) root va = true -> hw_up user_ok 3 (vm_mem s') root va = true) ->
  shared_rights e s s' root dst va.
Proof.
  intros H H' Hr Hd Hva Lr Ld HU HUr. destruct (cow_entry_bits e) as (Bp & Bu & Bw & Bx). split; [|split].
  - unfold VmmSpec.hw_may. by rewrite Ld, HU, Bp, Bu.
  - unfold VmmSpec.hw_may. rewrite Lr, Bp, Bu. destruct (hw_up user_ok 3 (vm_mem s) root va); [|done]. by rewrite HUr.
  - intros r Hx. assert (E : T' !! r = Some (r, 4%nat, 0) /\ leaf (vm_mem s') r va = cow_entry e)
      by (by destruct Hx as [-> | ->]). destruct E as [Er El].
    rewrite (may_leaf hhdm write_ok s' C' T'), (may_leaf hhdm exec_ok s' C' T') by auto. by rewrite El, Bp, Bw, Bx.
Qed.

(** C14: Fork of one private page.  From a well-formed set of address spaces, when
    sharing the page of [root] at [va] with the child [dst] succeeds, parent and
    child translate [va] to the same entry: the parent's frame, not writable and
    marked copy-on-write; the processor lets the child's user code reach the
    page, at every level of the child's tables, and lets neither of the two
    write it, while execution is allowed as before and the parent keeps its
    access; the frame's reference count has grown by two (the parent's entry
    and the child's), whether or not the parent's entry was counted before; the
    page is charged to the child's cgroup; every other page of every address
    space translates as before, no byte of any data frame changes, and the
    invariant holds again.  It fails in two cases only: the reference table is
    full, and then nothing has changed at all; or no frame is left for the
    child's tables, and then the parent's half has happened and is counted
    once, while the child still translates the page as before. *)
Theorem clone_cow_spec s C T root dst va a :
  pt_inv s C T -> T !! root = Some (root, 4%nat, 0) -> T !! pml4_phys dst = Some (pml4_phys dst, 4%nat, 0) ->
  pml4_phys dst <> root -> user_va va -> hw_pte 3 (vm_mem s) root va = Some a ->
  let e := rdp s a in let f := Z.land e PTE_ADDR in
  taken (vm_pmm s) f -> T !! f = None -> default 0 (C !! f) + 2 < 2 ^ 32 ->
  let '(s', dst', ok) := clone_cow hhdm ra s dst a e va in
  exists T', T ⊆ T' /\ only_page s s' T root (pml4_phys dst) va /\
    if ok then
      pt_inv s' (<[f := default 0 (C !! f) + 2]> C) T' /\
      leaf (vm_mem s') root va = cow_entry e /\ leaf (vm_mem s') (pml4_phys dst) va = cow_entry e /\
      shared_rights e s s' root (pml4_phys dst) va /\
      dst' = with_pages dst (u32 (pages dst + 1)) /\
      vm_cgs s' = (if 0 <=? as_cg dst then (cg_mem_charge (vm_cgs s) (as_cg dst) PAGE_SIZE).1 else vm_cgs s)
    else dst' = dst /\ leaf (vm_mem s') (pml4_phys dst) va = leaf (vm_mem s) (pml4_phys dst) va /\ vm_cgs s' = vm_cgs s /\
      (C !! f = None /\ Z.of_nat (size C) = FRAME_SLOTS /\ s' = s \/
       exhausted s' /\ pt_inv s' (<[f := default 0 (C !! f) + 1]> C) T' /\ leaf (vm_mem s') root va = cow_entry e).
Proof.
  intros H Hr Hd Hne Hva Ha. cbn zeta. set (e := rdp s a). set (f := Z.land e PTE_ADDR). intros Hf HfT Hn.
  assert (We : word64 e) by apply ld64_word, (pi_byte _ _ _ _ H).
  assert (Hpos : forall n, C !! f = Some n -> 1 <= n) by (intros n E; pose proof (fo_refs _ _ (pi_refs _ _ _ _ H) f n E); lia).
  unfold clone_cow. fold f. pose proof (inc_spec s C T f H Hf HfT ltac:(lia)) as N1.
  destruct (vmm_frame_ref_inc (vm_frames s) f) as [t1 r1]. cbn [vm_mem vm_pmm vm_frames vm_cgs].
  destruct (r1 <? 0).
  { destruct N1 as (-> & HC & Hfull). replace (Vm _ _ _ _) with s by (by destruct s). exists T.
    split; [done|]. split; [by apply only_page_refl|]. split; [done|]. split; [done|]. split; [done|]. by left. }
  set (s1 := Vm _ _ t1 _) in *.
  pose proof (inc_spec s1 (inc_count C f) T f N1 Hf HfT) as N2. rewrite inc_inc in N2.
  unfold inc_count in N2. rewrite lookup_insert_eq in N2. specialize (N2 ltac:(cbn; lia)).
  change (vm_frames s1) with t1 in N2.
  destruct (vmm_frame_ref_inc t1 f) as [t2 r2]. destruct (r2 <? 0); [destruct N2 as (_ & N2 & _); discriminate N2|].
  set (s2 := Vm _ _ t2 _) in *. set (C2 := <[f := _]> C) in *.
  change (Z.lor (Z.lor (Z.lor f _) PTE_P) PTE_COW) with (cow_entry e).
  pose proof (share_entries s2 C2 T root (pml4_phys dst) va a (cow_entry e) N2 Hr Hd Hne Hva Ha (cow_entry_word e We)) as W.
  destruct (walk hhdm (wrp s2 a (cow_entry e)) (pml4_phys dst) va true VM_USER) as [s3 [c|]];
    destruct W as (T' & S1 & S2 & S3 & S4 & S5 & S6 & S7 & S8); cbn [vm_cgs] in S5.
  - assert (Hw : forall r, T !! r = Some (r, 4%nat, 0) -> T' !! r = Some (r, 4%nat, 0))
      by (intros r E; by eapply lookup_weaken).
    pose proof (share_rights e s _ C C2 T T' root (pml4_phys dst) va H S2 (Hw _ Hr) (Hw _ Hd) Hva S3 S7 S8 S6) as S9.
    unfold clone_count. cbn [as_cg with_pages]. set (s4 := wrp s3 c _) in *. clearbody s4. exists T'. split; [exact S1|].
    change (vm_cgs s2) with (vm_cgs s) in S5. unfold vm_charge. rewrite S5.
    destruct (0 <=? as_cg dst); [|by split_and!].
    destruct (cg_mem_charge (vm_cgs s) (as_cg dst) PAGE_SIZE) as [G' r']. split; [exact S4|]. split; [by apply inv_cgs|]. by split_and!.
  - change (vm_cgs s2) with (vm_cgs s) in S5.
    destruct (unref_spec s3 C2 T' f S2) as (I4 & M4 & K4 & _ & P4). exists T'. split; [exact S1|]. unfold only_page. rewrite M4, K4.
    split; [exact S4|]. split; [done|]. split; [exact S7|]. split; [exact S5|]. right.
    assert (E2 : C2 !! f = Some (default 0 (C !! f) + 2)) by apply lookup_insert_eq.
    assert (Hd0 : 0 <= default 0 (C !! f)) by (destruct (C !! f) eqn:E; cbn; [specialize (Hpos _ eq_refl)|]; lia).
    split; [unfold exhausted; rewrite P4; [exact S8 | rewrite E2; intros [= ?]; lia]|]. split; [|exact S3].
    assert (E : unref_count C2 f = <[f := default 0 (C !! f) + 1]> C).
    { unfold C2. rewrite <- inc_inc. rewrite unref_inc; [done|]. unfold inc_count. rewrite lookup_insert_eq.
      intros n [= <-]. lia. }
    by rewrite <- E.
Qed.
End Map.

(** ** A concrete machine: two empty address spaces and one data frame *)

Definition demo_hhdm := 0xFFFF800000000000.
Definition demo_vpmm := Pmm [255; 1; 0; 0] 4 32 23 [] 0 0.
Definition demo_vm := Vm (fun _ => 0) demo_vpmm frametab_boot (fun _ => Cgmem true (-1) 0 0).
Definition demo_tabs : gmap Z (Z * nat * Z) := {[ 0x8000 := (0x8000, 4%nat, 0); 0x7000 := (0x7000, 4%nat, 0) ]}.

Lemma demo_taken t o : demo_tabs !! t = Some o -> taken demo_vpmm t.
Proof.
  unfold demo_tabs. rewrite lookup_insert_Some, lookup_singleton_Some.
  intros [[<- _]|[_ [<- _]]]; vm_compute; intuition congruence.
Qed.

Lemma demo_inv : pt_inv demo_hhdm demo_vm ∅ demo_tabs.
Proof.
  constructor; cbn [vm_mem vm_pmm vm_frames demo_vm].
  - constructor; vm_compute; repeat constructor; discriminate.
  - vm_compute. repeat split; discriminate.
  - intros. lia.
  - exact demo_taken.
  - intros t r b. unfold demo_tabs. rewrite lookup_insert_Some, lookup_singleton_Some. naive_solver.
  - intros t r l b i _ _. unfold rdp. by rewrite ld64_zero.
  - intros t r l b i _ _. unfold rdp. by rewrite ld64_zero.
  - exact frametab_boot_ok.
  - intros f n E. by rewrite lookup_empty in E.
  - intros [_ E]. vm_compute in E. discriminate E.
Qed.

Lemma vmm_map_spec_witness :
  let '(s', ok) := vmm_map demo_hhdm 0 demo_vm 0x8000 0x400123 0x6000 (Z.lor VM_USER VM_WRITE) in
  ok = true /\ leaf demo_hhdm (vm_mem s') 0x8000 0x400FFF = Z.lor 0x6000 (pte_flags (Z.lor VM_USER VM_WRITE)) /\
  hw_may demo_hhdm user_ok (vm_mem s') 0x8000 0x400123 = true /\
  leaf demo_hhdm (vm_mem s') 0x7000 0x400123 = leaf demo_hhdm (vm_mem demo_vm) 0x7000 0x400123.
Proof.
  pose proof (vmm_map_spec demo_hhdm 0 demo_vm ∅ demo_tabs 0x8000 0x400123 0x6000 (Z.lor VM_USER VM_WRITE)
    demo_inv eq_refl ltac:(unfold user_va; lia) ltac:(unfold word64; lia)) as M.
  assert (E : (vmm_map demo_hhdm 0 demo_vm 0x8000 0x400123 0x6000 (Z.lor VM_USER VM_WRITE)).2 = true) by (vm_compute; reflexivity).
  destruct (vmm_map demo_hhdm 0 demo_vm 0x8000 0x400123 0x6000 _) as [s' ok]. cbn [snd] in E. subst ok.
  destruct M as (T' & _ & _ & (L & R) & O & _). split; [reflexivity|]. split; [exact L|]. split; [exact (proj1 R)|].
  apply (O 0x7000); [reflexivity | unfold user_va; lia | intros _; left; discriminate].
Defined.


(** The machine with the data frame mapped at 0x400000 of the first space. *)
Definition demo_mapped := (vmm_map demo_hhdm 0 demo_vm 0x8000 0x400000 0x6000 (Z.lor VM_USER VM_WRITE)).1.
Definition demo_pte := pte_at demo_hhdm 0xB000 0.

Lemma demo_mapped_inv : exists T, pt_inv demo_hhdm demo_mapped ∅ T /\ demo_tabs ⊆ T /\ T !! 0x6000 = None.
Proof.
  pose proof (vmm_map_ok demo_hhdm 0 demo_vm ∅ demo_tabs 0x8000 0x400000 0x6000 (Z.lor VM_USER VM_WRITE)
    demo_inv eq_refl ltac:(unfold user_va; lia) ltac:(unfold word64; lia)) as M.
  unfold demo_mapped. destruct (vmm_map demo_hhdm 0 demo_vm 0x8000 0x400000 0x6000 _) as [s' ok].
  destruct M as (T' & M1 & M2 & _ & _ & M5 & _). exists T'. split; [by destruct ok|]. split; [done|].
  destruct (T' !! 0x6000) eqn:E; [|done]. exfalso. apply (M5 0x6000); [by rewrite E | done |].
  vm_compute. intuition congruence.
Qed.

Lemma demo_taken_data : taken (vm_pmm demo_mapped) 0x6000.
Proof. vm_compute. intuition congruence. Qed.

Lemma demo_root (T : gmap Z (Z * nat * Z)) t o : demo_tabs ⊆ T -> demo_tabs !! t = Some o -> T !! t = Some o.
Proof. intros H E. by eapply lookup_weaken. Qed.

Definition demo_child := AS 0x7000 1 0 (-1) [] [].

Lemma clone_cow_spec_witness :
  let '(s', dst', ok) := clone_cow demo_hhdm 0 demo_mapped demo_child demo_pte (rdp demo_mapped demo_pte) 0x400000 in
  ok = true /\ pages dst' = 1 /\
  leaf demo_hhdm (vm_mem s') 0x8000 0x400000 = cow_entry (rdp demo_mapped demo_pte) /\
  leaf demo_hhdm (vm_mem s') 0x7000 0x400000 = cow_entry (rdp demo_mapped demo_pte) /\
  hw_may demo_hhdm user_ok (vm_mem s') 0x7000 0x400000 = true /\
  vm_mem s' (0x6000 + demo_hhdm + 7) = vm_mem demo_mapped (0x6000 + demo_hhdm + 7).
Proof.
  destruct demo_mapped_inv as (T & I & HT & H6).
  assert (Hf : Z.land (rdp demo_mapped demo_pte) PTE_ADDR = 0x6000) by (vm_compute; reflexivity).
  pose proof (clone_cow_spec demo_hhdm 0 demo_mapped ∅ T 0x8000 demo_child 0x400000 demo_pte I
    (demo_root T 0x8000 (0x8000, 4%nat, 0) HT eq_refl) (demo_root T 0x7000 (0x7000, 4%nat, 0) HT eq_refl)
    ltac:(cbn; lia) ltac:(unfold user_va; lia) ltac:(vm_compute; reflexivity)) as M.
  cbn zeta in M. rewrite Hf in M. specialize (M demo_taken_data H6 ltac:(rewrite lookup_empty; cbn; lia)).
  assert (E : (clone_cow demo_hhdm 0 demo_mapped demo_child demo_pte (rdp demo_mapped demo_pte) 0x400000).2 = true)
    by (vm_compute; reflexivity).
  destruct (clone_cow demo_hhdm 0 demo_mapped demo_child demo_pte _ 0x400000) as [[s' dst'] ok]. cbn [snd] in E. subst ok.
  destruct M as (T' & _ & [_ O] & _ & L1 & L2 & R & -> & _). split; [reflexivity|]. split; [reflexivity|].
  split; [exact L1|]. split; [exact L2|]. split; [exact (proj1 R)|]. apply (O 0x6000 demo_taken_data H6). lia.
Defined.

(** The page marked copy-on-write, its frame counted twice. *)
Definition demo_inc (s : vmst) : vmst :=
  Vm (vm_mem s) (vm_pmm s) (vmm_frame_ref_inc (vm_frames s) 0x6000).1 (vm_cgs s).
Definition demo_cow := wrp (demo_inc (demo_inc demo_mapped)) demo_pte (cow_entry (rdp demo_mapped demo_pte)).

Lemma demo_inc_taken s f : taken (vm_pmm s) f -> taken (vm_pmm (demo_inc s)) f.
Proof. done. Qed.

Lemma demo_inc_inv s C T : pt_inv demo_hhdm s C T -> taken (vm_pmm s) 0x6000 -> T !! 0x6000 = None ->
  default 0 (C !! 0x6000) + 1 < 2 ^ 32 -> (vmm_frame_ref_inc (vm_frames s) 0x6000).2 = 0 ->
  pt_inv demo_hhdm (demo_inc s) (inc_count C 0x6000) T.
Proof.
  intros H Hf HT Hn E. pose proof (inc_spec demo_hhdm s C T 0x6000 H Hf HT Hn) as N. unfold demo_inc.
  destruct (vmm_frame_ref_inc (vm_frames s) 0x6000) as [t r]. cbn in *. by subst r.
Qed.

Lemma demo_cow_inv : exists T, pt_inv demo_hhdm demo_cow {[ 0x6000 := 2 ]} T /\ demo_tabs ⊆ T /\ T !! 0x6000 = None.
Proof.
  destruct demo_mapped_inv as (T & I & HT & H6). exists T. split; [|done].
  pose proof (demo_inc_inv demo_mapped _ _ I demo_taken_data H6 ltac:(vm_compute; reflexivity) ltac:(vm_compute; reflexivity)) as I1.
  pose proof (demo_inc_inv (demo_inc demo_mapped) _ _ I1 (demo_inc_taken _ _ demo_taken_data) H6 ltac:(vm_compute; reflexivity) ltac:(vm_compute; reflexivity)) as I2.
  assert (E : hw_pte demo_hhdm 3 (vm_mem (demo_inc (demo_inc demo_mapped))) 0x8000 0x400000 = Some demo_pte) by (vm_compute; reflexivity).
  destruct (write_leaf demo_hhdm _ _ T 0x8000 0x400000 demo_pte (cow_entry (rdp demo_mapped demo_pte)) I2) as (I3 & _);
    [exact (demo_root T 0x8000 (0x8000, 4%nat, 0) HT eq_refl) | unfold user_va; lia | exact E | vm_compute; intuition congruence |].
  rewrite inc_inc, lookup_empty in I3. exact I3.
Qed.

Lemma demo_cow_taken : taken (vm_pmm demo_cow) 0x6000.
Proof. vm_compute. intuition congruence. Qed.

Lemma vmm_cow_break_spec_witness :
  let '(s', ok) := vmm_cow_break demo_hhdm 0 demo_cow 0x8000 0x400000 in
  ok = true /\ has (leaf demo_hhdm (vm_mem s') 0x8000 0x400000) PTE_RW = true /\
  Z.land (leaf demo_hhdm (vm_mem s') 0x8000 0x400000) PTE_ADDR <> 0x6000.
Proof.
  destruct demo_cow_inv as (T & I & HT & H6).
  assert (Hf : Z.land (leaf demo_hhdm (vm_mem demo_cow) 0x8000 0x400000) PTE_ADDR = 0x6000) by (vm_compute; reflexivity).
  pose proof (vmm_cow_break_spec demo_hhdm 0 demo_cow {[ 0x6000 := 2 ]} T 0x8000 0x400000 I
    (demo_root T 0x8000 (0x8000, 4%nat, 0) HT eq_refl) ltac:(unfold user_va; lia)
    ltac:(vm_compute; reflexivity) ltac:(vm_compute; reflexivity)) as M. cbn zeta in M. rewrite Hf in M.
  specialize (M demo_cow_taken H6). rewrite lookup_singleton_eq in M. 
  assert (Hn : forall f n, ({[ 0x6000 := 2 ]} : gmap Z Z) !! f = Some n -> n < 2 ^ 31)
    by (intros f n E; apply lookup_singleton_Some in E as [_ <-]; lia).
  specialize (M Hn).
  assert (E : (vmm_cow_break demo_hhdm 0 demo_cow 0x8000 0x400000).2 = true) by (vm_compute; reflexivity).
  destruct (vmm_cow_break demo_hhdm 0 demo_cow 0x8000 0x400000) as [s' ok]. cbn [snd] in E. subst ok.
  destruct M as (f' & (_ & B & F & _) & Nt & _). split; [reflexivity|]. split; [apply B|].
  rewrite F. intros ->. exact (Nt demo_cow_taken).
Defined.
