(* ===== verification/PageCache.v ===== *)
(** * mm/pagecache.c: the block-device page cache

    The pool of 4096 page descriptors with its intrusive links (hash chain and
    two recency lists), the bucket heads, the list ends and lengths, the
    counters and the readahead table are one state, next to the frame allocator
    and the devices that the operations call.  A pointer to a descriptor is
    [option Z]: [None] is [NULL], [Some i] is [&g_pool[i]].  The bytes of the
    frame a descriptor owns are its field [pg_data], indexed from 0.

    The device drivers are function pointers the callers pass in: they are the
    operations of the class [BlockDev], and [BlockDevOk] states what the cache
    relies on.  A function pointer is a number, 0 being [NULL]. *)
From S2P Require Import Prelude Mem Kstring Pmm.
#[local] Open Scope Z_scope.

(** ** The drivers *)

(** A driver call returns the device's state and its [int] result; a read also
    returns what it left in the buffer, whether or not it succeeded. *)
Class BlockDev (dev : Type) := {
  dev_read : Z -> dev -> Z -> Z -> (Z -> Z) -> Z -> dev * (Z -> Z) * Z;
  dev_write : Z -> dev -> Z -> Z -> (Z -> Z) -> Z -> dev * Z;
  dev_at : dev -> Z -> Z -> Z
}.

(** What [pc_dev_read_t] and [pc_dev_write_t] promise: a read changes no device
    and, when it succeeds, delivers the device's bytes; a write touches only its
    own range of its own device and, when it succeeds, stores the buffer.  A
    failed write may leave anything in its range. *)
Class BlockDevOk (dev : Type) {B : BlockDev dev} : Prop := {
  dev_read_keeps f d c o b n x y :
    dev_at (dev_read f d c o b n).1.1 x y = dev_at d x y;
  dev_read_bytes f d c o b n i :
    0 <= (dev_read f d c o b n).2 -> 0 <= i < n ->
    (dev_read f d c o b n).1.2 i = dev_at d c (o + i);
  dev_write_other f d c o b n x y :
    ~ (x = c /\ o <= y < o + n) -> dev_at (dev_write f d c o b n).1 x y = dev_at d x y;
  dev_write_bytes f d c o b n i :
    0 <= (dev_write f d c o b n).2 -> 0 <= i < n ->
    dev_at (dev_write f d c o b n).1 c (o + i) = b i
}.

(** ** Data *)

Definition PC_PAGE := 4096.
Definition PC_PAGES := 4096.
Definition PC_BUCKETS := 1024.
Definition RA_MIN := 2.
Definition RA_MAX := 16.
Definition RA_TABLE := 64.

(** Every walk along links visits at most [PC_PAGES] descriptors. *)
Definition pc_fuel : nat := Z.to_nat (PC_PAGES + 1).

Record pc_page := PcPage {
  pg_next : option Z;
  lru_prev : option Z;
  lru_next : option Z;
  pg_ctx : Z;
  pg_off : Z;
  pg_active : bool;
  pg_dirty : bool;
  pg_ra : bool;
  pg_wr : Z;
  pg_frame : Z;
  pg_data : Z -> Z
}.

Record ra_state := RaState { ra_ctx : Z; ra_last_page : Z; ra_window : Z; ra_in_use : bool }.

(** [g_active_head], [g_active_tail], [g_active_n], or their inactive twins. *)
Record lru_list := LruList { lru_head : option Z; lru_tail : option Z; lru_n : Z }.

Record pc_stats := PcStats {
  g_hits : Z; g_misses : Z; g_evicts : Z; g_promote : Z; g_demote : Z; g_wb : Z
}.

(** The file's static variables are zero at boot. *)
Definition page0 : pc_page := PcPage None None None 0 0 false false false 0 0 (fun _ => 0).
Definition ra0 : ra_state := RaState 0 0 0 false.
Definition lru0 : lru_list := LruList None None 0.
Definition stats0 : pc_stats := PcStats 0 0 0 0 0 0.

Record pcst (dev : Type) := Pcst {
  g_pool : gmap Z pc_page;
  g_used : Z;
  g_bucket : gmap Z Z;
  g_act : lru_list;
  g_inact : lru_list;
  g_dirty_n : Z;
  g_stats : pc_stats;
  g_ra : gmap Z ra_state;
  g_ra_victim : Z;
  pc_pmm : pmm;
  pc_dev : dev
}.
Arguments Pcst {dev}.
Arguments g_pool {dev}.
Arguments g_used {dev}.
Arguments g_bucket {dev}.
Arguments g_act {dev}.
Arguments g_inact {dev}.
Arguments g_dirty_n {dev}.
Arguments g_stats {dev}.
Arguments g_ra {dev}.
Arguments g_ra_victim {dev}.
Arguments pc_pmm {dev}.
Arguments pc_dev {dev}.

(** ** Assignments to one field *)

Definition set_next (v : option Z) (x : pc_page) : pc_page :=
  PcPage v (lru_prev x) (lru_next x) (pg_ctx x) (pg_off x) (pg_active x) (pg_dirty x) (pg_ra x)
    (pg_wr x) (pg_frame x) (pg_data x).
Definition set_lprev (v : option Z) (x : pc_page) : pc_page :=
  PcPage (pg_next x) v (lru_next x) (pg_ctx x) (pg_off x) (pg_active x) (pg_dirty x) (pg_ra x)
    (pg_wr x) (pg_frame x) (pg_data x).
Definition set_lnext (v : option Z) (x : pc_page) : pc_page :=
  PcPage (pg_next x) (lru_prev x) v (pg_ctx x) (pg_off x) (pg_active x) (pg_dirty x) (pg_ra x)
    (pg_wr x) (pg_frame x) (pg_data x).
Definition set_active (v : bool) (x : pc_page) : pc_page :=
  PcPage (pg_next x) (lru_prev x) (lru_next x) (pg_ctx x) (pg_off x) v (pg_dirty x) (pg_ra x)
    (pg_wr x) (pg_frame x) (pg_data x).
Definition set_dirty (v : bool) (x : pc_page) : pc_page :=
  PcPage (pg_next x) (lru_prev x) (lru_next x) (pg_ctx x) (pg_off x) (pg_active x) v (pg_ra x)
    (pg_wr x) (pg_frame x) (pg_data x).
Definition set_pra (v : bool) (x : pc_page) : pc_page :=
  PcPage (pg_next x) (lru_prev x) (lru_next x) (pg_ctx x) (pg_off x) (pg_active x) (pg_dirty x) v
    (pg_wr x) (pg_frame x) (pg_data x).
Definition set_ctx (v : Z) (x : pc_page) : pc_page :=
  PcPage (pg_next x) (lru_prev x) (lru_next x) v (pg_off x) (pg_active x) (pg_dirty x) (pg_ra x)
    (pg_wr x) (pg_frame x) (pg_data x).
Definition set_frame_data (f : Z) (d : Z -> Z) (x : pc_page) : pc_page :=
  PcPage (pg_next x) (lru_prev x) (lru_next x) (pg_ctx x) (pg_off x) (pg_active x) (pg_dirty x)
    (pg_ra x) (pg_wr x) f d.
Definition set_wr_data (w : Z) (d : Z -> Z) (x : pc_page) : pc_page :=
  PcPage (pg_next x) (lru_prev x) (lru_next x) (pg_ctx x) (pg_off x) (pg_active x) (pg_dirty x)
    (pg_ra x) w (pg_frame x) d.

Section PageCache.
Context {dev : Type} {B : BlockDev dev}.
Implicit Types (s : pcst dev) (p : Z).

Definition pg s p : pc_page := default page0 (g_pool s !! p).

Definition set_pool (P : gmap Z pc_page) s : pcst dev :=
  Pcst P (g_used s) (g_bucket s) (g_act s) (g_inact s) (g_dirty_n s) (g_stats s) (g_ra s)
    (g_ra_victim s) (pc_pmm s) (pc_dev s).
Definition set_used (u : Z) s : pcst dev :=
  Pcst (g_pool s) u (g_bucket s) (g_act s) (g_inact s) (g_dirty_n s) (g_stats s) (g_ra s)
    (g_ra_victim s) (pc_pmm s) (pc_dev s).
Definition set_bucket (b : Z) (v : option Z) s : pcst dev :=
  Pcst (g_pool s) (g_used s)
    (match v with Some p => <[b := p]> (g_bucket s) | None => delete b (g_bucket s) end)
    (g_act s) (g_inact s) (g_dirty_n s) (g_stats s) (g_ra s) (g_ra_victim s) (pc_pmm s) (pc_dev s).
Definition set_dirty_n (v : Z) s : pcst dev :=
  Pcst (g_pool s) (g_used s) (g_bucket s) (g_act s) (g_inact s) v (g_stats s) (g_ra s)
    (g_ra_victim s) (pc_pmm s) (pc_dev s).
Definition set_stats (v : pc_stats) s : pcst dev :=
  Pcst (g_pool s) (g_used s) (g_bucket s) (g_act s) (g_inact s) (g_dirty_n s) v (g_ra s)
    (g_ra_victim s) (pc_pmm s) (pc_dev s).
Definition set_ra (R : gmap Z ra_state) (v : Z) s : pcst dev :=
  Pcst (g_pool s) (g_used s) (g_bucket s) (g_act s) (g_inact s) (g_dirty_n s) (g_stats s) R v
    (pc_pmm s) (pc_dev s).
Definition set_pmm (m : pmm) s : pcst dev :=
  Pcst (g_pool s) (g_used s) (g_bucket s) (g_act s) (g_inact s) (g_dirty_n s) (g_stats s) (g_ra s)
    (g_ra_victim s) m (pc_dev s).
Definition set_dev (d : dev) s : pcst dev :=
  Pcst (g_pool s) (g_used s) (g_bucket s) (g_act s) (g_inact s) (g_dirty_n s) (g_stats s) (g_ra s)
    (g_ra_victim s) (pc_pmm s) d.

(** The recency list a flag selects: [true] is the active list. *)
Definition sel s (w : bool) : lru_list := if w then g_act s else g_inact s.
Definition set_sel (w : bool) (l : lru_list) s : pcst dev :=
  Pcst (g_pool s) (g_used s) (g_bucket s) (if w then l else g_act s) (if w then g_inact s else l)
    (g_dirty_n s) (g_stats s) (g_ra s) (g_ra_victim s) (pc_pmm s) (pc_dev s).

Definition upd_pg s p (f : pc_page -> pc_page) : pcst dev :=
  set_pool (<[p := f (pg s p)]> (g_pool s)) s.
(** The same through a pointer that may be [NULL]. *)
Definition upd_opt s (q : option Z) (f : pc_page -> pc_page) : pcst dev :=
  match q with Some q => upd_pg s q f | None => s end.

Definition count_hit (v : pc_stats) : pc_stats :=
  PcStats (u32 (g_hits v + 1)) (g_misses v) (g_evicts v) (g_promote v) (g_demote v) (g_wb v).
Definition count_miss (v : pc_stats) : pc_stats :=
  PcStats (g_hits v) (u32 (g_misses v + 1)) (g_evicts v) (g_promote v) (g_demote v) (g_wb v).
Definition count_evict (v : pc_stats) : pc_stats :=
  PcStats (g_hits v) (g_misses v) (u32 (g_evicts v + 1)) (g_promote v) (g_demote v) (g_wb v).
Definition count_promote (v : pc_stats) : pc_stats :=
  PcStats (g_hits v) (g_misses v) (g_evicts v) (u32 (g_promote v + 1)) (g_demote v) (g_wb v).
Definition count_demote (v : pc_stats) : pc_stats :=
  PcStats (g_hits v) (g_misses v) (g_evicts v) (g_promote v) (u32 (g_demote v + 1)) (g_wb v).
Definition count_wb (v : pc_stats) : pc_stats :=
  PcStats (g_hits v) (g_misses v) (g_evicts v) (g_promote v) (g_demote v) (u32 (g_wb v + 1)).
Definition bump (f : pc_stats -> pc_stats) s : pcst dev := set_stats (f (g_stats s)) s.

(** ** Recency lists *)

(** [w] says which head and tail the caller passes; the length that grows is
    the one the page's own flag names. *)
Definition lru_push s (w : bool) p : pcst dev :=
  let t := lru_tail (sel s w) in
  let s := upd_pg s p (fun x => set_lnext None (set_lprev t x)) in
  let s := upd_opt s t (set_lnext (Some p)) in
  let l := sel s w in
  let s := set_sel w (LruList (if lru_head l is Some h then Some h else Some p) (Some p) (lru_n l)) s in
  let a := pg_active (pg s p) in
  let l := sel s a in
  set_sel a (LruList (lru_head l) (lru_tail l) (u32 (lru_n l + 1))) s.

Definition lru_unlink s p : pcst dev :=
  let x := pg s p in
  let w := pg_active x in
  let l := sel s w in
  let n := if lru_n l =? 0 then 0 else lru_n l - 1 in
  let hd := if lru_prev x is None then (if bool_decide (lru_head l = Some p) then lru_next x else lru_head l)
            else lru_head l in
  let s := upd_opt s (lru_prev x) (set_lnext (lru_next x)) in
  let tl := if lru_next x is None then (if bool_decide (lru_tail l = Some p) then lru_prev x else lru_tail l)
            else lru_tail l in
  let s := upd_opt s (lru_next x) (set_lprev (lru_prev x)) in
  let s := set_sel w (LruList hd tl n) s in
  upd_pg s p (fun x => set_lnext None (set_lprev None x)).

Definition lru_touch s p : pcst dev :=
  if negb (pg_active (pg s p)) then
    let s := lru_unlink s p in
    let s := upd_pg s p (set_active true) in
    let s := lru_push s true p in
    bump count_promote s
  else if bool_decide (lru_tail (g_act s) = Some p) then s
  else lru_push (lru_unlink s p) true p.

(** ** Hash table *)

Definition bucket_of (ctx off : Z) : Z :=
  let h := Z.lxor ctx (Z.shiftr off 12) in
  let h := u64 (h * 11400714819323198485) in
  Z.land (Z.shiftr h 32) (PC_BUCKETS - 1).

Definition hash_insert s p : pcst dev :=
  let b := bucket_of (pg_ctx (pg s p)) (pg_off (pg s p)) in
  let s := upd_pg s p (set_next (g_bucket s !! b)) in
  set_bucket b (Some p) s.

(** The chain entry after which [p] comes: the [next] field that [pp] points to
    when its loop stops at [p] and not at the bucket head. *)
Fixpoint hash_pred (fuel : nat) s (q p : Z) : option Z :=
  match fuel with
  | O => None
  | S k =>
      match pg_next (pg s q) with
      | None => None
      | Some r => if r =? p then Some q else hash_pred k s r p
      end
  end.

Definition hash_remove s p : pcst dev :=
  let b := bucket_of (pg_ctx (pg s p)) (pg_off (pg s p)) in
  match g_bucket s !! b with
  | None => s
  | Some h =>
      if h =? p then set_bucket b (pg_next (pg s p)) s
      else match hash_pred pc_fuel s h p with
           | Some q => upd_pg s q (set_next (pg_next (pg s p)))
           | None => s
           end
  end.

Fixpoint hash_walk (fuel : nat) s (q : option Z) (ctx off : Z) : option Z :=
  match fuel, q with
  | S k, Some p =>
      if (pg_ctx (pg s p) =? ctx) && (pg_off (pg s p) =? off) then Some p
      else hash_walk k s (pg_next (pg s p)) ctx off
  | _, _ => None
  end.

Definition hash_find s (ctx off : Z) : option Z :=
  hash_walk pc_fuel s (g_bucket s !! bucket_of ctx off) ctx off.

(** ** Writeback *)

Definition page_flush_one s p : pcst dev * Z :=
  let x := pg s p in
  if negb (pg_dirty x) || (pg_wr x =? 0) then (s, 0)
  else
    let '(d, r) := dev_write (pg_wr x) (pc_dev s) (pg_ctx x) (pg_off x) (pg_data x) PC_PAGE in
    let s := set_dev d s in
    if r <? 0 then (s, -1)
    else
      let s := upd_pg s p (set_dirty false) in
      let s := if g_dirty_n s =? 0 then s else set_dirty_n (g_dirty_n s - 1) s in
      (bump count_wb s, 0).

(** The two flush loops, with the condition they test before a page. *)
Fixpoint flush_chain (fuel : nat) (want : pc_page -> bool) s (q : option Z) (r : Z) : pcst dev * Z :=
  match fuel, q with
  | S k, Some p =>
      let '(s, r) :=
        if want (pg s p) && pg_dirty (pg s p) then
          let '(s, e) := page_flush_one s p in (s, if e <? 0 then -1 else r)
        else (s, r) in
      flush_chain k want s (pg_next (pg s p)) r
  | _, _ => (s, r)
  end.

Definition flush_buckets (want : pc_page -> bool) s : pcst dev * Z :=
  foldl (fun '(s, r) b => flush_chain pc_fuel want s (g_bucket s !! b) r) (s, 0)
    (seqZ 0 PC_BUCKETS).

Definition pagecache_flush_ctx s (ctx : Z) : pcst dev * Z :=
  flush_buckets (fun x => pg_ctx x =? ctx) s.

Definition pagecache_flush_all s : pcst dev * Z := flush_buckets (fun _ => true) s.

(** ** Allocation *)

(** [while (n-- && g_active_head)] *)
Fixpoint demote (n : nat) s : pcst dev :=
  match n with
  | O => s
  | S k =>
      match lru_head (g_act s) with
      | None => s
      | Some p2 =>
          let s := lru_unlink s p2 in
          let s := upd_pg s p2 (set_active false) in
          let s := lru_push s false p2 in
          demote k (bump count_demote s)
      end
  end.

Definition balance s : pcst dev :=
  if lru_n (g_inact s) <? lru_n (g_act s) / 2 then demote (Z.to_nat (lru_n (g_act s) / 2)) s else s.

(** [while (v && v->dirty && page_flush_one(v) < 0) v = v->lru_next;] *)
Fixpoint pick_victim (fuel : nat) s (v : option Z) : pcst dev * option Z :=
  match fuel, v with
  | S k, Some p =>
      if pg_dirty (pg s p) then
        let '(s, r) := page_flush_one s p in
        if r <? 0 then pick_victim k s (lru_next (pg s p)) else (s, Some p)
      else (s, Some p)
  | _, _ => (s, None)
  end.

(** Where the descriptor comes from: an unused one with a fresh zeroed frame,
    or the first inactive one that owes the disk nothing. *)
Definition page_take s : pcst dev * option Z :=
  if g_used s <? PC_PAGES then
    let p := g_used s in
    let '(m, f) := pmm_alloc (pc_pmm s) in
    let s := set_pmm m (set_used (g_used s + 1) s) in
    let s := upd_pg s p (set_frame_data f (fun i => if f =? 0 then pg_data (pg s p) i else 0)) in
    if f =? 0 then (s, None) else (s, Some p)
  else
    let s := balance s in
    let '(s, v) := pick_victim pc_fuel s (lru_head (g_inact s)) in
    match v with
    | None => (s, None)
    | Some p =>
        let s := bump count_evict s in
        let s := hash_remove s p in
        (lru_unlink s p, Some p)
    end.

Definition page_alloc s (ctx off : Z) : pcst dev * option Z :=
  let '(s, v) := page_take s in
  match v with
  | None => (s, None)
  | Some p =>
      let s := upd_pg s p (fun x =>
        PcPage None (lru_prev x) (lru_next x) ctx off false false false 0 (pg_frame x) (pg_data x)) in
      let s := hash_insert s p in
      (lru_push s false p, Some p)
  end.

(** The sequence every miss runs: take a page and read it from the device; when
    the read fails the page is unhashed and unlinked again. *)
Definition page_fetch s (ctx rd off : Z) : pcst dev * option Z :=
  let '(s, v) := page_alloc s ctx off in
  match v with
  | None => (s, None)
  | Some p =>
      let '(d, b, r) := dev_read rd (pc_dev s) ctx off (pg_data (pg s p)) PC_PAGE in
      let s := upd_pg (set_dev d s) p (fun x => set_wr_data (pg_wr x) b x) in
      if r <? 0 then (lru_unlink (hash_remove s p) p, None) else (s, Some p)
  end.

(** ** Readahead *)

Definition ra_at s (i : Z) : ra_state := default ra0 (g_ra s !! i).

Definition ra_find s (ctx : Z) : option Z :=
  List.find (fun i => ra_in_use (ra_at s i) && (ra_ctx (ra_at s i) =? ctx)) (seqZ 0 RA_TABLE).

Definition ra_get s (ctx : Z) : pcst dev * Z :=
  match ra_find s ctx with
  | Some i => (s, i)
  | None =>
      let '(i, v) :=
        match List.find (fun i => negb (ra_in_use (ra_at s i))) (seqZ 0 RA_TABLE) with
        | Some i => (i, g_ra_victim s)
        | None => (g_ra_victim s mod RA_TABLE, u32 (g_ra_victim s + 1))
        end in
      (set_ra (<[i := RaState ctx (2 ^ 64 - 1) RA_MIN true]> (g_ra s)) v s, i)
  end.

(** The loop over [i = start + 1 .. start + count]; a page that cannot be had
    ends it. *)
Fixpoint ra_issue_from (n : nat) s (ctx rd i : Z) : pcst dev :=
  match n with
  | O => s
  | S k =>
      let poff := u64 (i * PC_PAGE) in
      match hash_find s ctx poff with
      | Some _ => ra_issue_from k s ctx rd (i + 1)
      | None =>
          let '(s, v) := page_fetch s ctx rd poff in
          match v with
          | None => s
          | Some p => ra_issue_from k (upd_pg s p (set_pra true)) ctx rd (i + 1)
          end
      end
  end.

Definition ra_issue s (ctx rd start count : Z) : pcst dev :=
  ra_issue_from (Z.to_nat count) s ctx rd (start + 1).

Definition ra_widen (w : Z) : Z :=
  if w <? RA_MAX then (if RA_MAX <? u32 ((w + 1) * 2) then RA_MAX else u32 ((w + 1) * 2)) else w.

(** The bookkeeping of one page of a read. *)
Definition ra_advance s (ctx rd poff p : Z) : pcst dev :=
  let '(s, i) := ra_get s ctx in
  let idx := poff / PC_PAGE in
  let r := ra_at s i in
  let '(s, w) :=
    if pg_ra (pg s p) then (upd_pg s p (set_pra false), ra_widen (ra_window r))
    else (s, ra_window r) in
  let '(s, w) :=
    if idx =? u64 (ra_last_page r + 1) then (ra_issue s ctx rd idx w, w)
    else (s, if idx =? ra_last_page r then w else RA_MIN) in
  set_ra (<[i := RaState (ra_ctx r) idx w (ra_in_use r)]> (g_ra s)) (g_ra_victim s) s.

(** ** Entry points *)

Definition pagecache_init s : pcst dev :=
  Pcst (g_pool s) 0 ∅ lru0 lru0 0 stats0 ∅ (g_ra_victim s) (pc_pmm s) (pc_dev s).

(** [poff], [in_page] and [n] of an iteration at [done] bytes of [len]. *)
Definition page_base (o : Z) : Z := Z.land o (not64 (PC_PAGE - 1)).
Definition span (off done len : Z) : Z * Z * Z :=
  let o := u64 (off + done) in
  let poff := page_base o in
  let in_page := u32 (o - poff) in
  (poff, in_page, Z.min (len - done) (PC_PAGE - in_page)).

(** The page of a read and its bookkeeping: [None] ends the read with -1. *)
Definition read_page s (ctx rd poff : Z) : pcst dev * option Z :=
  let '(s, v) :=
    match hash_find s ctx poff with
    | Some p => (lru_touch (bump count_hit s) p, Some p)
    | None => page_fetch (bump count_miss s) ctx rd poff
    end in
  match v with
  | None => (s, None)
  | Some p => (ra_advance s ctx rd poff p, Some p)
  end.

Fixpoint read_from (fuel : nat) s (ctx rd off done len : Z) (out : list Z) : pcst dev * Z * list Z :=
  if done <? len then
    match fuel with
    | O => (s, -1, out)
    | S k =>
        let '(poff, in_page, n) := span off done len in
        let '(s, v) := read_page s ctx rd poff in
        match v with
        | None => (s, -1, out)
        | Some p =>
            let bytes := (fun i => pg_data (pg s p) (in_page + i)) <$> seqZ 0 n in
            read_from k s ctx rd off (done + n) len (out ++ bytes)
        end
    end
  else (s, s32 done, out).

(** Pages an access of [len] bytes may touch. *)
Definition pages_of (len : Z) : Z := len / PC_PAGE + 2.

(** The third component is what the call stored to [buf]. *)
Definition pagecache_read s (ctx rd off len : Z) : pcst dev * Z * list Z :=
  if (ctx =? 0) || (rd =? 0) then (s, -1, [])
  else read_from (Z.to_nat (pages_of len)) s ctx rd off 0 len [].

(** [memcpy(p->data + at, buf + done, n)] and the marking of the page. *)
Definition page_store s (p wr at_ done n : Z) (buf : list Z) : pcst dev :=
  let s := upd_pg s p (fun x => set_wr_data wr
    (fun i => if (at_ <=? i) && (i <? at_ + n) then aget 0 buf (done + (i - at_)) else pg_data x i) x) in
  if pg_dirty (pg s p) then s
  else set_dirty_n (u32 (g_dirty_n s + 1)) (upd_pg s p (set_dirty true)).

(** [Panic] is the call through a [NULL] read function, which the code does not
    test for. *)
Fixpoint write_from (fuel : nat) s (ctx rd wr off done : Z) (buf : list Z) : res (pcst dev * Z) :=
  if done <? alen buf then
    match fuel with
    | O => Ok (s, -1)
    | S k =>
        let '(poff, in_page, n) := span off done (alen buf) in
        match hash_find s ctx poff with
        | Some p => write_from k (page_store s p wr in_page done n buf) ctx rd wr off (done + n) buf
        | None =>
            let s := bump count_miss s in
            if (rd =? 0) && bool_decide (is_Some (page_alloc s ctx poff).2) then Panic
            else
              let '(s, v) := page_fetch s ctx rd poff in
              match v with
              | None => Ok (s, if done =? 0 then -1 else s32 done)
              | Some p => write_from k (page_store s p wr in_page done n buf) ctx rd wr off (done + n) buf
              end
        end
    end
  else Ok (s, s32 done).

Definition pagecache_write s (ctx rd wr off : Z) (buf : list Z) : res (pcst dev * Z) :=
  if (ctx =? 0) || (wr =? 0) then Ok (s, -1)
  else write_from (Z.to_nat (pages_of (alen buf))) s ctx rd wr off 0 buf.

Fixpoint invalidate_chain (fuel : nat) s (ctx : Z) (q : option Z) (r : Z) : pcst dev * Z :=
  match fuel, q with
  | S k, Some p =>
      let next := pg_next (pg s p) in
      let '(s, r) :=
        if pg_ctx (pg s p) =? ctx then
          let '(s, e) := if pg_dirty (pg s p) then page_flush_one s p else (s, 0) in
          if e <? 0 then (s, -1)
          else (upd_pg (lru_unlink (hash_remove s p) p) p (set_ctx 0), r)
        else (s, r) in
      invalidate_chain k s ctx next r
  | _, _ => (s, r)
  end.

Definition pagecache_invalidate s (ctx : Z) : pcst dev * Z :=
  foldl (fun '(s, r) b => invalidate_chain pc_fuel s ctx (g_bucket s !! b) r) (s, 0)
    (seqZ 0 PC_BUCKETS).

Definition pagecache_stats s : Z * Z * Z * Z :=
  (g_hits (g_stats s), g_misses (g_stats s), g_evicts (g_stats s), g_used s).

Definition pagecache_wb_stats s : Z * Z := (g_dirty_n s, g_wb (g_stats s)).

End PageCache.

Lemma pc_fuel_eq : Z.of_nat pc_fuel = PC_PAGES + 1.
Proof. unfold pc_fuel. rewrite Z2Nat.id; [done|]. unfold PC_PAGES. lia. Qed.
#[global] Opaque pc_fuel.
#[global] Arguments bucket_of : simpl never.
