(* ===== verification/PageCacheLinks.v ===== *)
(** * The page cache's links

    What the intrusive links of [PageCache] represent: [linked s LS] says that
    the active and the inactive recency lists are the sequences [LS true] and
    [LS false], [hashed s K] that the hash chains hold exactly the pages [K], each
    in its own bucket.  Each list and hash operation is shown to do to the
    sequences what its name says and to leave everything else alone. *)
From S2P Require Import Prelude Mem Kstring Pmm PageCache.
#[local] Open Scope Z_scope.

(** ** Doubly linked segments and hash chains *)

Definition first_or (l : list Z) (n : option Z) : option Z :=
  match l with [] => n | q :: _ => Some q end.
Definition last_or (l : list Z) (n : option Z) : option Z :=
  match last l with Some q => Some q | None => n end.

Fixpoint dseg (P : Z -> pc_page) (prev : option Z) (l : list Z) (nxt : option Z) : Prop :=
  match l with
  | [] => True
  | p :: l' => lru_prev (P p) = prev /\ lru_next (P p) = first_or l' nxt /\ dseg P (Some p) l' nxt
  end.

Fixpoint chain (P : Z -> pc_page) (h : option Z) (l : list Z) : Prop :=
  match l with
  | [] => h = None
  | p :: l' => h = Some p /\ chain P (pg_next (P p)) l'
  end.

Lemma last_elem (l : list Z) q : last l = Some q -> q ∈ l.
Proof. intros [l' ->]%last_Some. apply elem_of_app. right. apply list_elem_of_here. Qed.

Lemma last_or_cons p l n : last_or (p :: l) n = last_or l (Some p).
Proof. unfold last_or. rewrite last_cons. by destruct (last l). Qed.

Lemma last_or_elem l q : last_or l None = Some q -> q ∈ l.
Proof. unfold last_or. destruct (last l) eqn:E; [|done]. intros [= <-]. by apply last_elem. Qed.

Lemma first_or_elem l q : first_or l None = Some q -> q ∈ l.
Proof. destruct l; [done|]. intros [= <-]. apply list_elem_of_here. Qed.

Lemma dseg_app P : forall l1 l2 prev nxt,
  dseg P prev (l1 ++ l2) nxt <-> dseg P prev l1 (first_or l2 nxt) /\ dseg P (last_or l1 prev) l2 nxt.
Proof.
  induction l1 as [|p l1 IH]; intros l2 prev nxt; simpl; [unfold last_or; simpl; tauto|].
  rewrite IH, last_or_cons.
  assert (E : first_or (l1 ++ l2) nxt = first_or l1 (first_or l2 nxt)) by (by destruct l1).
  rewrite E. tauto.
Qed.

Lemma dseg_ext P P' l : forall prev nxt,
  (forall q, q ∈ l -> lru_prev (P' q) = lru_prev (P q) /\ lru_next (P' q) = lru_next (P q)) ->
  dseg P prev l nxt -> dseg P' prev l nxt.
Proof.
  induction l as [|p l IH]; intros prev nxt H; simpl; [done|].
  intros (H1 & H2 & H3). destruct (H p) as [-> ->]; [left|].
  split; [done|]. split; [done|]. apply IH; [|done]. intros. apply H. by right.
Qed.

Lemma chain_ext P P' l : forall h,
  (forall q, q ∈ l -> pg_next (P' q) = pg_next (P q)) -> chain P h l -> chain P' h l.
Proof.
  induction l as [|p l IH]; intros h H; simpl; [done|]. intros [-> Hc].
  split; [done|]. rewrite H by left. apply IH; [|done]. intros. apply H. by right.
Qed.

Lemma nodup_slots (l : list Z) n :
  NoDup l -> (forall p, p ∈ l -> 0 <= p < n) -> Z.of_nat (length l) <= Z.max 0 n.
Proof.
  intros Hd Hr. assert (l ⊆+ seqZ 0 n) as Hs.
  { apply NoDup_submseteq; [done|]. intros p Hp. apply elem_of_seqZ. specialize (Hr p Hp). lia. }
  apply submseteq_length in Hs. rewrite length_seqZ in Hs. lia.
Qed.

Lemma nodup_cut (l1 l2 : list Z) p : NoDup (l1 ++ p :: l2) -> NoDup (l1 ++ l2) /\ p ∉ l1 ++ l2.
Proof.
  intros (? & ? & [? ?]%NoDup_cons)%NoDup_app. split; [apply NoDup_app|]; set_solver.
Qed.

Section Links.
Context {dev : Type} {B : BlockDev dev}.
Implicit Types (s : pcst dev) (p : Z).

Lemma pg_upd s p f q : pg (upd_pg s p f) q = if q =? p then f (pg s q) else pg s q.
Proof.
  unfold pg, upd_pg. simpl. destruct (Z.eqb_spec q p) as [->|].
  - by rewrite lookup_insert_eq.
  - by rewrite lookup_insert_ne.
Qed.

Lemma pg_upd_eq s p f : pg (upd_pg s p f) p = f (pg s p).
Proof. by rewrite pg_upd, Z.eqb_refl. Qed.
Lemma pg_upd_ne s p f q : q <> p -> pg (upd_pg s p f) q = pg s q.
Proof. intros. rewrite pg_upd. by destruct (Z.eqb_spec q p). Qed.

Lemma pg_upd_opt_ne s o f q : o <> Some q -> pg (upd_opt s o f) q = pg s q.
Proof. destruct o as [p|]; [|done]. intros. apply pg_upd_ne. congruence. Qed.

Lemma pg_set_sel w l s q : pg (set_sel w l s) q = pg s q.
Proof. done. Qed.
Lemma pg_set_bucket b v s q : pg (set_bucket b v s) q = pg s q.
Proof. done. Qed.
Lemma sel_set_sel w l s w' : sel (set_sel w l s) w' = if eqb w' w then l else sel s w'.
Proof. by destruct w, w'. Qed.
Lemma sel_upd_pg s p f w : sel (upd_pg s p f) w = sel s w.
Proof. done. Qed.
Lemma sel_upd_opt s o f w : sel (upd_opt s o f) w = sel s w.
Proof. by destruct o. Qed.

(** A page without its recency links, and without its hash link. *)
Definition nolru (x : pc_page) : pc_page := set_lnext None (set_lprev None x).
Definition nonext (x : pc_page) : pc_page := set_next None x.

(** The state besides the pool and the recency lists, and besides the pool and
    the buckets. *)
Definition rest_lru s : pcst dev := set_sel true lru0 (set_sel false lru0 (set_pool ∅ s)).
Definition rest_hash s : pcst dev :=
  Pcst ∅ (g_used s) ∅ (g_act s) (g_inact s) (g_dirty_n s) (g_stats s) (g_ra s) (g_ra_victim s)
    (pc_pmm s) (pc_dev s).

Lemma rest_upd_opt s o f : rest_lru (upd_opt s o f) = rest_lru s.
Proof. by destruct o. Qed.

Lemma nolru_upd_opt s o f q :
  (forall x, nolru (f x) = nolru x) -> nolru (pg (upd_opt s o f) q) = nolru (pg s q).
Proof.
  intros Hf. destruct o as [p|]; [|done]. simpl. rewrite pg_upd. by destruct (q =? p).
Qed.

(** ** Recency lists *)

Definition listed (LS : bool -> list Z) p : Prop := p ∈ LS true \/ p ∈ LS false.
Definition ls_set (LS : bool -> list Z) (w : bool) (l : list Z) (b : bool) : list Z :=
  if eqb b w then l else LS b.

Record linked s (LS : bool -> list Z) : Prop := {
  lk_used : 0 <= g_used s <= PC_PAGES;
  lk_seg w : dseg (pg s) None (LS w) None;
  lk_head w : lru_head (sel s w) = head (LS w);
  lk_tail w : lru_tail (sel s w) = last (LS w);
  lk_len w : lru_n (sel s w) = Z.of_nat (length (LS w));
  lk_act w p : p ∈ LS w -> pg_active (pg s p) = w;
  lk_nodup w : NoDup (LS w);
  lk_slot w p : p ∈ LS w -> 0 <= p < g_used s
}.

Lemma listed_in LS w p : p ∈ LS w -> listed LS p.
Proof. destruct w; [by left|by right]. Qed.

Lemma listed_list s LS p : linked s LS -> listed LS p -> p ∈ LS (pg_active (pg s p)).
Proof.
  intros Hl [Hp|Hp]; rewrite (lk_act s LS Hl _ p Hp); done.
Qed.

Lemma listed_slot s LS p : linked s LS -> listed LS p -> 0 <= p < g_used s.
Proof. intros Hl [Hp|Hp]; eapply lk_slot; eauto. Qed.

Lemma linked_len s LS w : linked s LS -> 0 <= Z.of_nat (length (LS w)) <= PC_PAGES.
Proof.
  intros Hl. pose proof (nodup_slots (LS w) (g_used s) (lk_nodup s LS Hl w) (lk_slot s LS Hl w)).
  pose proof (lk_used s LS Hl). lia.
Qed.

(** The lists survive any change that keeps links and flags of listed pages. *)
Lemma linked_ext s s' LS :
  linked s LS -> g_used s <= g_used s' <= PC_PAGES -> (forall w, sel s' w = sel s w) ->
  (forall q, listed LS q -> lru_prev (pg s' q) = lru_prev (pg s q) /\
     lru_next (pg s' q) = lru_next (pg s q) /\ pg_active (pg s' q) = pg_active (pg s q)) ->
  linked s' LS.
Proof.
  intros [U S H T L A N R] Hu Hs Hq. split; auto; try (intros w; rewrite Hs; auto).
  - lia.
  - intros w. apply (dseg_ext (pg s)); [|done]. intros q Hin.
    destruct (Hq q) as (? & ? & _); [eapply listed_in; eauto|done].
  - intros w p Hp. destruct (Hq p) as (_ & _ & ->); [eapply listed_in; eauto|eauto].
  - intros w p Hp. specialize (R w p Hp). lia.
Qed.

Lemma seg_set_next P P' l : forall prev n n',
  dseg P prev l n -> NoDup l ->
  (forall q, q ∈ l -> lru_prev (P' q) = lru_prev (P q)) ->
  (forall q, q ∈ l -> last l <> Some q -> lru_next (P' q) = lru_next (P q)) ->
  (forall q, last l = Some q -> lru_next (P' q) = n') ->
  dseg P' prev l n'.
Proof.
  induction l as [|p l IH]; intros prev n n' Hd Hnd Hp Hn Hl; simpl; [done|].
  destruct Hd as (H1 & H2 & H3). apply NoDup_cons in Hnd as [Hni Hnd].
  split; [by rewrite Hp by left|]. destruct l as [|r l].
  - split; [|done]. simpl. by apply Hl.
  - split.
    + rewrite Hn; [done|left|]. rewrite last_cons_cons. intros E.
      apply last_elem in E. done.
    + apply (IH (Some p) n n'); [done|done| | |].
      * intros q Hq. apply Hp. by right.
      * intros q Hq Hq'. apply Hn; [by right|]. by rewrite last_cons_cons.
      * intros q Hq. apply Hl. by rewrite last_cons_cons.
Qed.

Lemma seg_set_prev P P' l prev prev' n :
  dseg P prev l n -> NoDup l ->
  (forall q, q ∈ l -> lru_next (P' q) = lru_next (P q)) ->
  (forall q, q ∈ l -> head l <> Some q -> lru_prev (P' q) = lru_prev (P q)) ->
  (forall q, head l = Some q -> lru_prev (P' q) = prev') ->
  dseg P' prev' l n.
Proof.
  destruct l as [|p l]; [done|]. intros (H1 & H2 & H3) [Hni _]%NoDup_cons Hn Hp Hh. simpl.
  split; [by apply Hh|]. split; [by rewrite Hn by left|].
  apply (dseg_ext P); [|done]. intros q Hq. split.
  - apply Hp; [by right|]. simpl. congruence.
  - apply Hn. by right.
Qed.

Lemma ls_set_eq LS w l : ls_set LS w l w = l.
Proof. unfold ls_set. by rewrite eqb_reflx. Qed.
Lemma ls_set_ne LS w b l : b <> w -> ls_set LS w l b = LS b.
Proof. unfold ls_set. by destruct b, w. Qed.

(** The links after [lru_push]: only the page and the old tail changed. *)
Lemma lru_push_eq s w p :
  pg_active (pg s p) = w -> lru_tail (sel s w) <> Some p ->
  let t := lru_tail (sel s w) in
  lru_push s w p =
  set_sel w (LruList (if lru_head (sel s w) is Some h then Some h else Some p) (Some p)
               (u32 (lru_n (sel s w) + 1)))
    (upd_opt (upd_pg s p (fun x => set_lnext None (set_lprev t x))) t (set_lnext (Some p))).
Proof.
  intros Ha Ht t. unfold lru_push. fold t. cbv zeta.
  rewrite pg_set_sel, pg_upd_opt_ne, pg_upd_eq by done. cbn [pg_active set_lnext set_lprev]. rewrite Ha.
  rewrite sel_set_sel, eqb_reflx, sel_upd_opt, sel_upd_pg. by destruct w, t.
Qed.

Lemma seg_push P P' l p :
  dseg P None l None -> NoDup l -> p ∉ l ->
  (forall q, q ∈ l -> last l <> Some q -> P' q = P q) ->
  (forall q, last l = Some q -> P' q = set_lnext (Some p) (P q)) ->
  P' p = set_lnext None (set_lprev (last l) (P p)) ->
  dseg P' None (l ++ [p]) None.
Proof.
  intros Hd Hnd Hp Hq Ht Hpp. apply dseg_app. split.
  - apply (seg_set_next P _ _ None None); [done|done| | |].
    + intros q Hin. destruct (decide (last l = Some q)) as [E|E]; [by rewrite (Ht q E)|by rewrite Hq].
    + intros q Hin E. by rewrite Hq.
    + intros q E. by rewrite (Ht q E).
  - simpl. rewrite Hpp. unfold last_or. by destruct (last l).
Qed.

Lemma seg_cut P P' l1 p l2 :
  dseg P None (l1 ++ p :: l2) None -> NoDup (l1 ++ p :: l2) ->
  (forall q, q ∈ l1 ++ l2 -> lru_next (P' q) = if bool_decide (last l1 = Some q) then head l2 else lru_next (P q)) ->
  (forall q, q ∈ l1 ++ l2 -> lru_prev (P' q) = if bool_decide (head l2 = Some q) then last l1 else lru_prev (P q)) ->
  dseg P' None (l1 ++ l2) None.
Proof.
  intros [H1 (Hp & Hn & H2)]%dseg_app (N1 & Hd & [_ N2]%NoDup_cons)%NoDup_app Hnext Hprev.
  assert (Hdis : forall q, q ∈ l1 -> q ∉ l2) by (intros q Hq Hq'; apply (Hd q Hq); by right).
  apply dseg_app. split.
  - apply (seg_set_next P _ _ None (Some p)); [done|done| | |].
    + intros q Hq. rewrite Hprev by (apply elem_of_app; by left). rewrite bool_decide_false; [done|].
      intros E%head_Some_elem_of. by apply (Hdis q).
    + intros q Hq E. rewrite Hnext by (apply elem_of_app; by left). by rewrite bool_decide_false.
    + intros q E. rewrite Hnext by (apply elem_of_app; left; by apply last_elem). rewrite bool_decide_true by done.
      by destruct l2.
  - apply (seg_set_prev P _ _ (Some p)); [done|done| | |].
    + intros q Hq. rewrite Hnext by (apply elem_of_app; by right). rewrite bool_decide_false; [done|].
      intros E%last_elem. by apply (Hdis q).
    + intros q Hq E. rewrite Hprev by (apply elem_of_app; by right). by rewrite bool_decide_false.
    + intros q E. rewrite Hprev by (apply elem_of_app; right; by apply head_Some_elem_of).
      rewrite bool_decide_true by done. unfold last_or. by destruct (last l1).
Qed.

Lemma lru_push_pages s w p :
  lru_tail (sel s w) <> Some p -> pg_active (pg s p) = w ->
  let t := lru_tail (sel s w) in let s' := lru_push s w p in
  (forall q, q <> p -> t <> Some q -> pg s' q = pg s q) /\
  (forall q, t = Some q -> pg s' q = set_lnext (Some p) (pg s q)) /\
  pg s' p = set_lnext None (set_lprev t (pg s p)) /\
  (forall q, nolru (pg s' q) = nolru (pg s q)) /\ rest_lru s' = rest_lru s.
Proof.
  intros Ht Ha t s'. unfold s'. rewrite lru_push_eq by done. fold t. cbv zeta.
  set (s1 := upd_pg s p _). rewrite pg_set_sel. split; [|split; [|split; [|split]]].
  - intros q Hq Hl. rewrite pg_set_sel, pg_upd_opt_ne by done. unfold s1. by apply pg_upd_ne.
  - intros q Hq. rewrite pg_set_sel, Hq. simpl. rewrite pg_upd_eq. unfold s1. rewrite pg_upd_ne; [done|].
    intros ->. by apply Ht.
  - rewrite pg_upd_opt_ne by done. unfold s1. by rewrite pg_upd_eq.
  - intros q. rewrite pg_set_sel, nolru_upd_opt by done. unfold s1. rewrite pg_upd. by destruct (q =? p).
  - transitivity (rest_lru (upd_opt s1 t (set_lnext (Some p)))); [by destruct w|]. by rewrite rest_upd_opt.
Qed.

Lemma lru_push_spec s LS w p :
  linked s LS -> ~ listed LS p -> pg_active (pg s p) = w -> 0 <= p < g_used s ->
  linked (lru_push s w p) (ls_set LS w (LS w ++ [p])) /\
  (forall q, nolru (pg (lru_push s w p) q) = nolru (pg s q)) /\
  rest_lru (lru_push s w p) = rest_lru s.
Proof.
  intros Hl Hni Ha Hp. pose proof (linked_len s LS w Hl) as Hn. unfold PC_PAGES in Hn.
  destruct Hl as [U S H T L A N R].
  assert (Hno : forall b, p ∉ LS b) by (intros b Hb; apply Hni; eapply listed_in; eauto).
  assert (Htp : lru_tail (sel s w) <> Some p) by (rewrite T; intros E; apply (Hno w); by apply last_elem).
  destruct (lru_push_pages s w p Htp Ha) as (Ho & Htl & Hpg & Hlru & Hrest). rewrite T in *.
  split; [|done].
  assert (Hact : forall q, pg_active (pg (lru_push s w p) q) = pg_active (pg s q))
    by (intros q; apply (f_equal pg_active (Hlru q))).
  assert (Hused : g_used (lru_push s w p) = g_used s) by apply (f_equal g_used Hrest).
  assert (Hsel : forall b, sel (lru_push s w p) b =
    if eqb b w then LruList (Some (default p (head (LS w)))) (Some p) (Z.of_nat (length (LS w ++ [p])))
    else sel s b).
  { intros b. rewrite lru_push_eq, sel_set_sel, sel_upd_opt, sel_upd_pg by (by rewrite ?T).
    destruct (eqb b w); [|done]. f_equal; [rewrite H; by destruct (LS w)|].
    rewrite L, length_app, u32_small; simpl; lia. }
  split; rewrite ?Hused; auto; intros b; try rewrite Hsel; destruct (decide (b = w)) as [->|Hb];
    rewrite ?ls_set_eq, ?ls_set_ne, ?eqb_reflx, ?(proj2 (eqb_false_iff b w)) by done; auto.
  - apply (seg_push (pg s)); auto. intros q Hq E. apply Ho; [|done]. intros ->. by apply (Hno w).
  - apply (dseg_ext (pg s)); [|done]. intros q Hq. rewrite Ho; [done|by intros ->; apply (Hno b)|].
    intros E%last_elem. apply Hb. by rewrite <- (A b q Hq), (A w q E).
  - simpl. by destruct (LS w).
  - by rewrite last_snoc.
  - intros q [Hq| ->%list_elem_of_singleton]%elem_of_app; rewrite Hact; auto.
  - intros q Hq. rewrite Hact. auto.
  - apply NoDup_app. split; [done|]. split; [|apply NoDup_singleton].
    intros q Hq ->%list_elem_of_singleton. by apply (Hno w).
  - intros q [Hq| ->%list_elem_of_singleton]%elem_of_app; eauto.
  - intros q Hq. eauto.
Qed.

Lemma lru_unlink_pages s p :
  let x := pg s p in let s' := lru_unlink s p in
  (forall q, q <> p -> lru_next (pg s' q) = if bool_decide (lru_prev x = Some q) then lru_next x else lru_next (pg s q)) /\
  (forall q, q <> p -> lru_prev (pg s' q) = if bool_decide (lru_next x = Some q) then lru_prev x else lru_prev (pg s q)) /\
  (forall q, nolru (pg s' q) = nolru (pg s q)) /\ rest_lru s' = rest_lru s.
Proof.
  intros x s'. unfold s', lru_unlink. fold x. cbv zeta.
  set (s1 := upd_opt s _ _). set (s2 := upd_opt s1 _ _).
  assert (H2 : forall q, nolru (pg s2 q) = nolru (pg s q))
    by (intros q; unfold s2, s1; by rewrite !nolru_upd_opt).
  split; [|split; [|split]].
  - intros q Hq. rewrite pg_upd_ne, pg_set_sel by done. transitivity (lru_next (pg s1 q)).
    + unfold s2, upd_opt. destruct (lru_next x); [|done]. rewrite pg_upd. by case_match.
    + unfold s1, upd_opt. destruct (lru_prev x) as [r|]; [|done]. rewrite pg_upd.
      destruct (Z.eqb_spec q r) as [->|]; [by rewrite bool_decide_true|].
      rewrite bool_decide_false; [done|congruence].
  - intros q Hq. rewrite pg_upd_ne, pg_set_sel by done.
    assert (E1 : lru_prev (pg s1 q) = lru_prev (pg s q)).
    { unfold s1, upd_opt. destruct (lru_prev x); [|done]. rewrite pg_upd. by case_match. }
    unfold s2, upd_opt. destruct (lru_next x) as [r|]; [|done]. rewrite pg_upd.
    destruct (Z.eqb_spec q r) as [->|]; [by rewrite bool_decide_true|].
    rewrite bool_decide_false; [done|congruence].
  - intros q. rewrite pg_upd, pg_set_sel. destruct (q =? p); apply H2.
  - transitivity (rest_lru s2); [by destruct (pg_active x)|]. unfold s2, s1. by rewrite !rest_upd_opt.
Qed.

Lemma lru_unlink_sel s p b :
  sel (lru_unlink s p) b =
  let x := pg s p in let l := sel s (pg_active x) in
  if eqb b (pg_active x) then
    LruList (if lru_prev x is None then (if bool_decide (lru_head l = Some p) then lru_next x else lru_head l)
             else lru_head l)
      (if lru_next x is None then (if bool_decide (lru_tail l = Some p) then lru_prev x else lru_tail l)
       else lru_tail l)
      (if lru_n l =? 0 then 0 else lru_n l - 1)
  else sel s b.
Proof.
  unfold lru_unlink. cbv zeta. by rewrite sel_upd_pg, sel_set_sel, !sel_upd_opt.
Qed.

Lemma cut_ends (l1 l2 : list Z) p :
  LruList
    (if last l1 is None then (if bool_decide (head (l1 ++ p :: l2) = Some p) then head l2 else head (l1 ++ p :: l2))
     else head (l1 ++ p :: l2))
    (if head l2 is None then (if bool_decide (last (l1 ++ p :: l2) = Some p) then last l1 else last (l1 ++ p :: l2))
     else last (l1 ++ p :: l2))
    (if Z.of_nat (length (l1 ++ p :: l2)) =? 0 then 0 else Z.of_nat (length (l1 ++ p :: l2)) - 1) =
  LruList (head (l1 ++ l2)) (last (l1 ++ l2)) (Z.of_nat (length (l1 ++ l2))).
Proof.
  f_equal.
  - destruct l1 as [|a l1]; simpl; [by rewrite bool_decide_true|].
    rewrite last_cons. by destruct (last l1).
  - destruct l2 as [|a l2]; simpl; [by rewrite last_snoc, bool_decide_true, app_nil_r|].
    by rewrite !last_app, last_cons_cons, !last_cons.
  - rewrite !length_app. simpl. destruct (Z.eqb_spec (Z.of_nat (length l1 + S (length l2))) 0); lia.
Qed.

Lemma lru_unlink_spec s LS w p l1 l2 :
  linked s LS -> LS w = l1 ++ p :: l2 ->
  linked (lru_unlink s p) (ls_set LS w (l1 ++ l2)) /\
  (forall q, nolru (pg (lru_unlink s p) q) = nolru (pg s q)) /\
  rest_lru (lru_unlink s p) = rest_lru s.
Proof.
  intros [U S H T L A N R] El. assert (Hp : p ∈ LS w) by (rewrite El; set_solver).
  destruct (lru_unlink_pages s p) as (Hn & Hpv & Hlru & Hrest). split; [|done].
  assert (Hact : forall q, pg_active (pg (lru_unlink s p) q) = pg_active (pg s q))
    by (intros q; apply (f_equal pg_active (Hlru q))).
  assert (Hused : g_used (lru_unlink s p) = g_used s) by apply (f_equal g_used Hrest).
  pose proof (S w) as Sw. pose proof (N w) as Nw. rewrite El in Sw, Nw.
  assert (Hx : lru_prev (pg s p) = last l1 /\ lru_next (pg s p) = head l2).
  { apply dseg_app in Sw as [_ (-> & -> & _)]. unfold last_or. split; [by destruct (last l1)|by destruct l2]. }
  destruct Hx as [Hx1 Hx2]. rewrite Hx1, Hx2 in *.
  destruct (nodup_cut l1 l2 p Nw) as [Hnl Hpn].
  assert (Hsub : forall q, q ∈ l1 ++ l2 -> q ∈ LS w /\ q <> p).
  { intros q Hq. split; [rewrite El; set_solver|]. by intros ->. }
  assert (Hsel : forall b, sel (lru_unlink s p) b =
    if eqb b w then LruList (head (l1 ++ l2)) (last (l1 ++ l2)) (Z.of_nat (length (l1 ++ l2))) else sel s b).
  { intros b. rewrite lru_unlink_sel. cbv zeta. rewrite (A w p Hp), Hx1, Hx2, H, T, L, El.
    destruct (eqb b w); [|done]. by apply cut_ends. }
  split; rewrite ?Hused; auto; intros b; try rewrite Hsel; destruct (decide (b = w)) as [->|Hb];
    rewrite ?ls_set_eq, ?ls_set_ne, ?eqb_reflx, ?(proj2 (eqb_false_iff b w)) by done; auto.
  - apply (seg_cut (pg s) _ l1 p l2); [done|done| |]; intros q [_ Hq]%Hsub; auto.
  - apply (dseg_ext (pg s)); [|done]. intros q Hq.
    assert (Hqw : q ∉ LS w) by (intros Hq'; apply Hb; by rewrite <- (A b q Hq), (A w q Hq')).
    assert (q <> p) by (by intros ->). rewrite Hn, Hpv by done.
    rewrite !bool_decide_false; [done| |]; intros E; apply Hqw, Hsub, elem_of_app;
      first [right; by apply head_Some_elem_of | left; by apply last_elem].
  - intros q [Hq _]%Hsub. rewrite Hact. auto.
  - intros q Hq. rewrite Hact. auto.
  - intros q [Hq _]%Hsub. eauto.
  - intros q Hq. eauto.
Qed.

(** ** Hash chains *)

Definition key_bucket s p : Z := bucket_of (pg_ctx (pg s p)) (pg_off (pg s p)).

Definition hashed s (K : Z -> Prop) : Prop :=
  exists CH : Z -> list Z, forall b,
    chain (pg s) (g_bucket s !! b) (CH b) /\ NoDup (CH b) /\
    (forall p, p ∈ CH b <-> K p /\ key_bucket s p = b).

(** Every page hashed is a descriptor of the pool. *)
Definition in_pool (K : Z -> Prop) : Prop := forall p, K p -> 0 <= p < PC_PAGES.

Lemma hashed_ext s s' K K' :
  hashed s K -> (forall p, K p <-> K' p) -> (forall b, g_bucket s' !! b = g_bucket s !! b) ->
  (forall p, K p -> pg_next (pg s' p) = pg_next (pg s p) /\ key_bucket s' p = key_bucket s p) ->
  hashed s' K'.
Proof.
  intros [CH H] HK Hb Hp. exists CH. intros b. destruct (H b) as (Hc & Hn & Hm).
  split; [|split; [done|]].
  - rewrite Hb. apply (chain_ext (pg s)); [|done]. intros q [Hq _]%Hm. by apply Hp.
  - intros p. rewrite Hm, <- HK. split; intros [Hk E]; (split; [done|]); [rewrite (proj2 (Hp p Hk))|rewrite <- (proj2 (Hp p Hk))]; done.
Qed.

Lemma bucket_len s K (CH : Z -> list Z) b :
  in_pool K -> NoDup (CH b) -> (forall p, p ∈ CH b <-> K p /\ key_bucket s p = b) ->
  (length (CH b) < pc_fuel)%nat.
Proof.
  intros Hk Hn Hm. pose proof (nodup_slots (CH b) PC_PAGES Hn) as Hl.
  assert (H : Z.of_nat (length (CH b)) <= Z.max 0 PC_PAGES) by (apply Hl; intros p [? _]%Hm; auto).
  pose proof pc_fuel_eq. unfold PC_PAGES in *. lia.
Qed.

Lemma hash_walk_find s c o : forall l q fuel,
  chain (pg s) q l -> (length l < fuel)%nat ->
  hash_walk fuel s q c o = List.find (fun p => (pg_ctx (pg s p) =? c) && (pg_off (pg s p) =? o)) l.
Proof.
  induction l as [|p l IH]; intros q [|fuel] Hc Hf; simpl in *; try lia; [by subst|].
  destruct Hc as [-> Hc]. case_match; [done|]. apply IH; [done|lia].
Qed.

(** Lookup finds the page with the key, and finds nothing only when no hashed
    page has it. *)
Lemma hash_find_spec s K c o :
  hashed s K -> in_pool K ->
  match hash_find s c o with
  | Some p => K p /\ pg_ctx (pg s p) = c /\ pg_off (pg s p) = o
  | None => forall p, K p -> ~ (pg_ctx (pg s p) = c /\ pg_off (pg s p) = o)
  end.
Proof.
  intros [CH H] Hk. destruct (H (bucket_of c o)) as (Hc & Hn & Hm). unfold hash_find.
  rewrite (hash_walk_find s c o (CH (bucket_of c o))) by eauto using bucket_len.
  destruct (List.find _ _) as [p|] eqn:E.
  - apply find_some in E as [Hin [H1 H2]%andb_prop]. apply list_elem_of_In, Hm in Hin as [? _].
    apply Z.eqb_eq in H1, H2. done.
  - intros p Hp [H1 H2]. eapply find_none in E; [|apply list_elem_of_In, Hm; split; [done|]].
    + simpl in E. rewrite H1, H2, !Z.eqb_refl in E. done.
    + unfold key_bucket. by rewrite H1, H2.
Qed.

Lemma hash_insert_spec s K p :
  hashed s K -> ~ K p ->
  hashed (hash_insert s p) (fun q => q = p \/ K q) /\
  (forall q, nonext (pg (hash_insert s p) q) = nonext (pg s q)) /\
  rest_hash (hash_insert s p) = rest_hash s.
Proof.
  intros [CH H] Hp. set (b0 := key_bucket s p).
  assert (Hpg : forall q, nonext (pg (hash_insert s p) q) = nonext (pg s q)).
  { intros q. unfold hash_insert. rewrite pg_set_bucket, pg_upd. by destruct (q =? p). }
  assert (Hkb : forall q, key_bucket (hash_insert s p) q = key_bucket s q).
  { intros q. unfold key_bucket. f_equal; [apply (f_equal pg_ctx (Hpg q))|apply (f_equal pg_off (Hpg q))]. }
  split; [|done].
  exists (fun b => if b =? b0 then p :: CH b else CH b). intros b. destruct (H b) as (Hc & Hn & Hm).
  assert (Hni : p ∉ CH b) by (by intros [? _]%Hm).
  assert (Hch : chain (pg (hash_insert s p)) (g_bucket s !! b) (CH b)).
  { apply (chain_ext (pg s)); [|done]. intros q Hq. unfold hash_insert. rewrite pg_set_bucket, pg_upd_ne; [done|].
    by intros ->. }
  unfold hash_insert at 1 2. fold (key_bucket s p). fold b0. cbn [g_bucket set_bucket].
  destruct (Z.eqb_spec b b0) as [->|Hb].
  - rewrite lookup_insert_eq. split; [|split; [by apply NoDup_cons|]].
    + split; [done|]. rewrite pg_set_bucket, pg_upd_eq. exact Hch.
    + intros q. rewrite elem_of_cons, Hm, Hkb. unfold b0. split; [intros [->|[? ?]]; auto|intros [[->|?] ?]; auto].
  - rewrite lookup_insert_ne by done. split; [exact Hch|]. split; [done|].
    intros q. rewrite Hm, Hkb. split; [intros [? ?]; auto|]. intros [[->|?] ?]; [|done]. by destruct Hb.
Qed.

Lemma hash_pred_spec s p : forall l h fuel,
  chain (pg s) (Some h) (h :: l) -> p ∈ l -> NoDup (h :: l) -> (length l < fuel)%nat ->
  exists l1 q l2, h :: l = l1 ++ q :: p :: l2 /\ hash_pred fuel s h p = Some q.
Proof.
  induction l as [|r l IH]; intros h [|fuel] [_ Hc] Hp Hn Hf; simpl in *; [set_solver|set_solver|lia|].
  destruct Hc as [-> Hc]. destruct (Z.eqb_spec r p) as [->|Hne].
  - by exists [], h, l.
  - apply NoDup_cons in Hn as [_ Hn].
    destruct (IH r fuel) as (l1 & q & l2 & E & Hq); [done|set_solver|done|lia|].
    exists (h :: l1), q, l2. simpl. by rewrite E.
Qed.

Lemma chain_cut P P' h h' l1 p l2 :
  chain P h (l1 ++ p :: l2) -> NoDup (l1 ++ p :: l2) ->
  h' = (if l1 is [] then pg_next (P p) else h) ->
  (forall q, q ∈ l1 ++ l2 -> pg_next (P' q) = if bool_decide (last l1 = Some q) then pg_next (P p) else pg_next (P q)) ->
  chain P' h' (l1 ++ l2).
Proof.
  revert h h'. induction l1 as [|r l1 IH]; simpl; intros h h' Hc Hn -> Hq.
  - destruct Hc as [-> Hc]. apply (chain_ext P); [|done]. intros q ?. rewrite Hq by done. done.
  - destruct Hc as [-> Hc]. split; [done|]. apply NoDup_cons in Hn as [Hr Hn].
    apply (IH (pg_next (P r)) _ Hc Hn).
    + rewrite Hq by left. destruct l1; [by rewrite bool_decide_true|].
      rewrite bool_decide_false; [done|]. rewrite last_cons_cons. intros E%last_elem. set_solver.
    + intros q Hin. rewrite Hq by (by right). destruct l1; [|done].
      rewrite !bool_decide_false; [done|done|]. simpl. intros [= ->]. set_solver.
Qed.

Lemma split_unique (p : Z) : forall l1 l2 k1 k2,
  NoDup (l1 ++ p :: l2) -> l1 ++ p :: l2 = k1 ++ p :: k2 -> l1 = k1.
Proof.
  induction l1 as [|a l1 IH]; intros l2 [|b k1] k2 Hn E; simpl in *; [done| | |].
  - injection E as -> ->. apply NoDup_cons in Hn as [? _]. set_solver.
  - injection E as -> E. apply NoDup_cons in Hn as [? _]. set_solver.
  - injection E as -> E. f_equal. apply NoDup_cons in Hn as [_ Hn]. eauto.
Qed.

(** The removal, whichever branch runs. *)
Lemma hash_remove_links s p l1 l2 :
  let b0 := key_bucket s p in let s' := hash_remove s p in
  chain (pg s) (g_bucket s !! b0) (l1 ++ p :: l2) -> NoDup (l1 ++ p :: l2) ->
  (length (l1 ++ p :: l2) < pc_fuel)%nat ->
  (forall q, nonext (pg s' q) = nonext (pg s q)) /\ rest_hash s' = rest_hash s /\
  (forall b, b <> b0 -> g_bucket s' !! b = g_bucket s !! b) /\
  g_bucket s' !! b0 = (if l1 is [] then pg_next (pg s p) else g_bucket s !! b0) /\
  (forall q, q <> p ->
     pg_next (pg s' q) = if bool_decide (last l1 = Some q) then pg_next (pg s p) else pg_next (pg s q)).
Proof.
  intros b0 s' Hc Hn Hf. unfold s', hash_remove. fold (key_bucket s p). fold b0.
  destruct l1 as [|h l1].
  - destruct Hc as [-> Hc]. rewrite Z.eqb_refl. split; [done|]. split; [done|]. split; [|split].
    + intros b Hb. cbn [g_bucket set_bucket]. destruct (pg_next (pg s p)); [by rewrite lookup_insert_ne|by rewrite lookup_delete_ne].
    + cbn [g_bucket set_bucket]. destruct (pg_next (pg s p)); [by rewrite lookup_insert_eq|by rewrite lookup_delete_eq].
    + intros q Hq. done.
  - assert (Eh : g_bucket s !! b0 = Some h) by apply Hc. rewrite Eh in *.
    assert (Hhp : h <> p) by (intros ->; apply NoDup_cons in Hn as [Hx _]; apply Hx, elem_of_app; right; left).
    destruct (Z.eqb_spec h p) as [|_]; [done|].
    destruct (hash_pred_spec s p (l1 ++ p :: l2) h pc_fuel) as (k1 & q0 & k2 & E & ->);
      [exact Hc|apply elem_of_app; right; left|exact Hn|cbn [length app] in Hf; lia|].
    assert (Hq0 : last (h :: l1) = Some q0).
    { replace (k1 ++ q0 :: p :: k2) with ((k1 ++ [q0]) ++ p :: k2) in E by (by rewrite <- app_assoc).
      change (h :: l1 ++ p :: l2) with ((h :: l1) ++ p :: l2) in E, Hn.
      assert (h :: l1 = k1 ++ [q0]) as ->; [|by rewrite last_snoc].
      by apply (split_unique _ _ _ _ _ Hn E). }
    split; [intros q; rewrite pg_upd; by destruct (q =? q0)|]. split; [done|]. split; [done|]. split; [done|].
    intros q Hq. rewrite pg_upd. destruct (Z.eqb_spec q q0) as [->|Hne].
    + by rewrite bool_decide_true.
    + rewrite bool_decide_false; [done|]. congruence.
Qed.

Lemma hash_remove_spec s K p :
  hashed s K -> in_pool K -> K p ->
  hashed (hash_remove s p) (fun q => K q /\ q <> p) /\
  (forall q, nonext (pg (hash_remove s p) q) = nonext (pg s q)) /\
  rest_hash (hash_remove s p) = rest_hash s.
Proof.
  intros [CH H] Hk Hp. destruct (H (key_bucket s p)) as (Hc & Hn & Hm).
  assert (Hin : p ∈ CH (key_bucket s p)) by (by apply Hm).
  pose proof (bucket_len s K CH _ Hk Hn Hm) as Hlen.
  apply list_elem_of_split in Hin as (l1 & l2 & El). rewrite El in *.
  destruct (hash_remove_links s p l1 l2 Hc Hn Hlen) as (Hpg & Hrest & Hb & Hb0 & Hnext). split; [|done].
  assert (Hkb : forall q, key_bucket (hash_remove s p) q = key_bucket s q).
  { intros q. unfold key_bucket. f_equal; [apply (f_equal pg_ctx (Hpg q))|apply (f_equal pg_off (Hpg q))]. }
  destruct (nodup_cut l1 l2 p Hn) as [Hnl Hpl].
  exists (fun b => if b =? key_bucket s p then l1 ++ l2 else CH b). intros b.
  destruct (Z.eqb_spec b (key_bucket s p)) as [->|Hne].
  - split; [|split].
    + apply (chain_cut (pg s) _ (g_bucket s !! key_bucket s p) _ l1 p l2); [done|done|done|].
      intros q Hq. apply Hnext. by intros ->.
    + exact Hnl.
    + intros q. rewrite Hkb. specialize (Hm q). rewrite elem_of_app, elem_of_cons in Hm.
      rewrite elem_of_app. split.
      * intros Hq. assert (q <> p) by (intros ->; apply Hpl; by apply elem_of_app). tauto.
      * intros [[Hq Hqp] E]. destruct (proj2 Hm (conj Hq E)) as [|[|]]; tauto.
  - destruct (H b) as (Hc' & Hn' & Hm'). rewrite Hb by done.
    split; [|split; [done|]].
    + apply (chain_ext (pg s)); [|done]. intros q [Hq E]%Hm'. rewrite Hnext by (intros ->; congruence).
      rewrite bool_decide_false; [done|]. intros Hl%last_elem. apply Hne. rewrite <- E.
      apply Hm. apply elem_of_app. by left.
    + intros q. rewrite Hm', Hkb. split; [|tauto]. intros [? E]. split; [|done]. split; [done|]. intros ->. congruence.
Qed.

End Links.
