(* ===== verification/PageCacheInv.v ===== *)
(** * The page cache's invariant

    [rep s LS bad V] ties a state to what it stands for: the recency lists [LS],
    and the logical content [V] of every device, which is what a reader must
    see.  A cached page holds [V]; the device holds [V] except where a dirty page
    covers it.  [bad] is the page being filled, whose bytes mean nothing yet. *)
From S2P Require Import Prelude Mem Kstring Pmm PageCache PageCacheLinks.
#[local] Open Scope Z_scope.

Section Inv.
Context {dev : Type} {B : BlockDev dev}.
Implicit Types (s : pcst dev) (p : Z) (LS : bool -> list Z) (V : Z -> Z -> Z).

Definition all LS : list Z := LS true ++ LS false.

Lemma elem_all LS p : p ∈ all LS <-> listed LS p.
Proof. apply elem_of_app. Qed.

Lemma nodup_all s LS : linked s LS -> NoDup (all LS).
Proof.
  intros H. apply NoDup_app. split; [apply (lk_nodup _ _ H)|]. split; [|apply (lk_nodup _ _ H)].
  intros p H1 H2. apply (lk_act _ _ H) in H1, H2. congruence.
Qed.

(** The dirty pages of a list. *)
Definition dcount s (l : list Z) : Z := Z.of_nat (length (List.filter (fun p => pg_dirty (pg s p)) l)).

(** Every frame belongs to one descriptor and is allocated. *)
Record frames_ok s : Prop := {
  fr_wf : pmm_wf (pc_pmm s);
  fr_low : bit_test (g_bitmap (pc_pmm s)) 0 = true;
  fr_own i : 0 <= i < g_used s -> pg_frame (pg s i) <> 0 ->
    exists f, 0 <= f /\ pg_frame (pg s i) = f * PAGE_SIZE /\ bit_test (g_bitmap (pc_pmm s)) f = true;
  fr_inj i j : 0 <= i < g_used s -> 0 <= j < g_used s -> pg_frame (pg s i) <> 0 ->
    pg_frame (pg s i) = pg_frame (pg s j) -> i = j
}.

(** Offset [o] of device [c] lies in page [p]. *)
Definition covers s p (c o : Z) : Prop :=
  pg_ctx (pg s p) = c /\ pg_off (pg s p) <= o < pg_off (pg s p) + PC_PAGE.

Record rep s LS (bad : option Z) V : Prop := {
  rp_linked : linked s LS;
  rp_hashed : hashed s (listed LS);
  rp_key p q : listed LS p -> listed LS q ->
    pg_ctx (pg s p) = pg_ctx (pg s q) -> pg_off (pg s p) = pg_off (pg s q) -> p = q;
  rp_off p : listed LS p -> pg_off (pg s p) mod PC_PAGE = 0;
  rp_wr p : listed LS p -> pg_dirty (pg s p) = true -> pg_wr (pg s p) <> 0;
  rp_bad p : bad = Some p -> listed LS p /\ pg_dirty (pg s p) = false;
  rp_count : g_dirty_n s = dcount s (all LS);
  rp_frames : frames_ok s;
  rp_page p i : listed LS p -> bad <> Some p -> 0 <= i < PC_PAGE ->
    pg_data (pg s p) i = V (pg_ctx (pg s p)) (pg_off (pg s p) + i);
  rp_dev c o : (forall p, listed LS p -> pg_dirty (pg s p) = true -> ~ covers s p c o) ->
    dev_at (pc_dev s) c o = V c o;
  rp_ra i : 0 <= ra_window (ra_at s i) <= RA_MAX
}.

(** The state invariant of the cache between calls. *)
Definition pc_inv s : Prop := exists LS V, rep s LS None V.

(** What a reader of byte [o] of device [c] must see: the cached page when there
    is one, else the device. *)
Definition content s (c o : Z) : Z :=
  match hash_find s c (o / PC_PAGE * PC_PAGE) with
  | Some p => pg_data (pg s p) (o mod PC_PAGE)
  | None => dev_at (pc_dev s) c o
  end.

Lemma listed_pool s LS : linked s LS -> in_pool (listed LS).
Proof. intros Hl p Hp. pose proof (listed_slot s LS p Hl Hp). pose proof (lk_used s LS Hl). lia. Qed.

Lemma page_split o : o = o / PC_PAGE * PC_PAGE + o mod PC_PAGE /\ 0 <= o mod PC_PAGE < PC_PAGE.
Proof. unfold PC_PAGE. pose proof (Z.div_mod o 4096). pose proof (Z.mod_pos_bound o 4096). lia. Qed.

Lemma page_unique a o : a mod PC_PAGE = 0 -> a <= o < a + PC_PAGE -> a = o / PC_PAGE * PC_PAGE.
Proof.
  intros Ha Ho. pose proof (page_split o) as [E R]. unfold PC_PAGE in *.
  pose proof (Z.div_mod a 4096 ltac:(lia)). assert (a / 4096 = o / 4096); [|lia].
  apply Z.div_unique with (o - a); lia.
Qed.

Lemma page_aligned k : (k * PC_PAGE) mod PC_PAGE = 0.
Proof. apply Z_mod_mult. Qed.

(** The logical content is what the executable [content] computes. *)
Lemma rep_content s LS V c o : rep s LS None V -> content s c o = V c o.
Proof.
  intros R. unfold content. pose proof (page_split o) as [E Hr].
  pose proof (hash_find_spec s _ c (o / PC_PAGE * PC_PAGE) (rp_hashed _ _ _ _ R)
                (listed_pool _ _ (rp_linked _ _ _ _ R))) as Hf.
  destruct (hash_find _ _ _) as [p|].
  - destruct Hf as (Hp & Hc & Ho). rewrite (rp_page _ _ _ _ R) by done. rewrite Hc, Ho. f_equal. lia.
  - apply (rp_dev _ _ _ _ R). intros p Hp _ [Hc Ho]. apply (Hf p Hp). split; [done|].
    apply page_unique; [|done]. by apply (rp_off _ _ _ _ R).
Qed.

Lemma inv_content s : pc_inv s -> exists LS, rep s LS None (content s).
Proof.
  intros (LS & V & R). exists LS. assert (H : forall c o, content s c o = V c o) by (intros; by eapply rep_content).
  destruct R as [? ? ? ? ? ? ? ? Hp Hd Hra]. split; auto.
  - intros p i ? ? ?. rewrite H. auto.
  - intros c o Hc. rewrite H. auto.
Qed.

(** Two pages cover the same byte only when they are the same page. *)
Lemma covers_unique s LS bad V p q c o :
  rep s LS bad V -> listed LS p -> listed LS q -> covers s p c o -> covers s q c o -> p = q.
Proof.
  intros R Hp Hq [Hc Ho] [Hc' Ho']. apply (rp_key _ _ _ _ R); [done|done|congruence|].
  rewrite (page_unique _ o (rp_off _ _ _ _ R p Hp) Ho). symmetry.
  apply (page_unique _ o (rp_off _ _ _ _ R q Hq) Ho').
Qed.

(** ** Changes of links only *)

(** A page without its links, its list flag and its readahead mark. *)
Definition page_core (x : pc_page) : pc_page :=
  PcPage None None None (pg_ctx x) (pg_off x) false (pg_dirty x) false (pg_wr x) (pg_frame x) (pg_data x).

Record same_core s s' : Prop := {
  sc_pg q : page_core (pg s' q) = page_core (pg s q);
  sc_used : g_used s' = g_used s;
  sc_dirty : g_dirty_n s' = g_dirty_n s;
  sc_pmm : pc_pmm s' = pc_pmm s;
  sc_dev : pc_dev s' = pc_dev s;
  sc_ra : g_ra s' = g_ra s
}.

#[export] Instance same_core_refl : Reflexive same_core.
Proof. by split. Qed.
#[export] Instance same_core_trans : Transitive same_core.
Proof. intros ? ? ? [] []. split; intros; congruence. Qed.

Lemma core_pg (s s' : pcst dev) (q : Z) : same_core s s' ->
  pg_ctx (pg s' q) = pg_ctx (pg s q) /\ pg_off (pg s' q) = pg_off (pg s q) /\
  pg_dirty (pg s' q) = pg_dirty (pg s q) /\ pg_wr (pg s' q) = pg_wr (pg s q) /\
  pg_frame (pg s' q) = pg_frame (pg s q) /\ pg_data (pg s' q) = pg_data (pg s q).
Proof.
  intros [H _ _ _ _ _]. specialize (H q).
  split; [apply (f_equal pg_ctx H)|]. split; [apply (f_equal pg_off H)|]. split; [apply (f_equal pg_dirty H)|].
  split; [apply (f_equal pg_wr H)|]. split; [apply (f_equal pg_frame H)|apply (f_equal pg_data H)].
Qed.

Lemma dcount_ext s s' l :
  (forall q, q ∈ l -> pg_dirty (pg s' q) = pg_dirty (pg s q)) -> dcount s' l = dcount s l.
Proof.
  intros H. unfold dcount. do 2 f_equal. apply filter_ext_in. intros q Hq. apply H. by apply list_elem_of_In.
Qed.

Lemma dcount_perm s l l' : l ≡ₚ l' -> dcount s l = dcount s l'.
Proof.
  intros H. unfold dcount. f_equal. induction H; simpl; repeat case_match; simpl; congruence.
Qed.

Lemma dcount_cons s p l : dcount s (p :: l) = (if pg_dirty (pg s p) then 1 else 0) + dcount s l.
Proof. unfold dcount. simpl. case_match; simpl; lia. Qed.

Lemma dcount_clean s D l : (forall p, p ∈ D -> pg_dirty (pg s p) = false) -> dcount s (D ++ l) = dcount s l.
Proof.
  induction D as [|p D IH]; intros H; simpl; [done|]. rewrite dcount_cons, H by left. rewrite IH; [done|].
  intros. apply H. by right.
Qed.

Lemma frames_ext s s' :
  frames_ok s -> g_used s' = g_used s -> pc_pmm s' = pc_pmm s ->
  (forall q, pg_frame (pg s' q) = pg_frame (pg s q)) -> frames_ok s'.
Proof.
  intros [W L O J] Hu Hp Hf. split; rewrite ?Hp; auto.
  - intros i. rewrite Hu, Hf. apply O.
  - intros i j. rewrite Hu, !Hf. apply J.
Qed.

(** Moving pages between the lists and dropping the clean pages [D] keeps the
    logical content. *)
Lemma rep_relink s s' LS LS' bad bad' V D :
  rep s LS bad V -> same_core s s' -> linked s' LS' -> hashed s' (listed LS') ->
  all LS ≡ₚ D ++ all LS' -> (forall p, p ∈ D -> pg_dirty (pg s p) = false) ->
  (forall p, listed LS' p -> bad' <> Some p -> bad <> Some p) ->
  (forall p, bad' = Some p -> bad = Some p /\ listed LS' p) ->
  rep s' LS' bad' V.
Proof.
  intros [_ _ K O W Bd C F P D' Ra] SC Hl Hh Hperm HD Hb1 Hb2.
  assert (Hsub : forall p, listed LS' p -> listed LS p).
  { intros p Hp. apply elem_all. rewrite Hperm. apply elem_of_app. right. by apply elem_all. }
  split; auto.
  - intros p q Hp Hq. destruct (core_pg _ _ p SC) as (-> & -> & _), (core_pg _ _ q SC) as (-> & -> & _). auto.
  - intros p Hp. destruct (core_pg _ _ p SC) as (_ & -> & _). auto.
  - intros p Hp. destruct (core_pg _ _ p SC) as (_ & _ & -> & -> & _). auto.
  - intros p Hp. destruct (Hb2 p Hp) as [Hb Hq]. split; [done|].
    destruct (core_pg _ _ p SC) as (_ & _ & -> & _). by apply Bd.
  - rewrite (sc_dirty _ _ SC), C, (dcount_perm _ _ _ Hperm), dcount_clean by done. symmetry.
    apply dcount_ext. intros q _. by destruct (core_pg _ _ q SC) as (_ & _ & -> & _).
  - apply (frames_ext s); [done|apply SC|apply SC|]. intros q. by destruct (core_pg _ _ q SC) as (_ & _ & _ & _ & -> & _).
  - intros p i Hp Hb Hi. destruct (core_pg _ _ p SC) as (-> & -> & _ & _ & _ & ->). auto.
  - intros c o Hc. rewrite (sc_dev _ _ SC). apply D'. intros p Hp Hd.
    assert (Hin : p ∈ D ++ all LS') by (rewrite <- Hperm; by apply elem_all).
    apply elem_of_app in Hin as [Hin|Hin]; [rewrite HD in Hd; done|].
    unfold covers in *. specialize (Hc p). rewrite elem_all in Hin.
    destruct (core_pg _ _ p SC) as (E1 & E2 & E3 & _). rewrite E1, E2, E3 in Hc. auto.
  - intros i. unfold ra_at. rewrite (sc_ra _ _ SC). apply Ra.
Qed.

(** Nothing changed but recency links, flags and statistics. *)
Definition relink s s' : Prop := same_core s s' /\ forall K, hashed s K -> hashed s' K.

#[export] Instance relink_refl : Reflexive relink.
Proof. by split. Qed.
#[export] Instance relink_trans : Transitive relink.
Proof. intros ? ? ? [? ?] [? ?]. split; [by etrans|auto]. Qed.

Lemma relink_pages s s' :
  (forall q, page_core (pg s' q) = page_core (pg s q) /\ pg_next (pg s' q) = pg_next (pg s q)) ->
  g_bucket s' = g_bucket s -> g_used s' = g_used s -> g_dirty_n s' = g_dirty_n s ->
  pc_pmm s' = pc_pmm s -> pc_dev s' = pc_dev s -> g_ra s' = g_ra s -> relink s s'.
Proof.
  intros Hq Hb Hu Hd Hp Hv Hr.
  assert (SC : same_core s s') by (split; auto; intros q; apply Hq).
  split; [done|]. intros K Hk. apply (hashed_ext s _ K); [done|done|by rewrite Hb|].
  intros p _. split; [apply Hq|]. unfold key_bucket. by destruct (core_pg _ _ p SC) as (-> & -> & _).
Qed.

Lemma relink_lru s s' :
  (forall q, nolru (pg s' q) = nolru (pg s q)) -> rest_lru s' = rest_lru s -> relink s s'.
Proof.
  intros Hq Hr. apply relink_pages.
  - intros q. split; [apply (f_equal page_core (Hq q))|apply (f_equal pg_next (Hq q))].
  - apply (f_equal g_bucket Hr).
  - apply (f_equal g_used Hr).
  - apply (f_equal g_dirty_n Hr).
  - apply (f_equal pc_pmm Hr).
  - apply (f_equal pc_dev Hr).
  - apply (f_equal g_ra Hr).
Qed.

Lemma relink_upd s p f :
  (forall x, page_core (f x) = page_core x /\ pg_next (f x) = pg_next x) -> relink s (upd_pg s p f).
Proof. intros Hf. apply relink_pages; auto. intros q. rewrite pg_upd. destruct (q =? p); auto. Qed.

Lemma relink_bump f s : relink s (bump f s).
Proof. by apply relink_pages. Qed.

(** The same pages are listed, in another order. *)
Definition same_pages LS LS' : Prop := all LS ≡ₚ all LS'.

Lemma same_listed LS LS' p : same_pages LS LS' -> listed LS' p <-> listed LS p.
Proof. unfold same_pages. intros H. by rewrite <- !elem_all, H. Qed.

Lemma rep_same s s' LS LS' bad V :
  rep s LS bad V -> relink s s' -> linked s' LS' -> same_pages LS LS' -> rep s' LS' bad V.
Proof.
  intros R [SC Hh] Hl Hp. pose proof (rp_hashed _ _ _ _ R) as H0.
  eapply (rep_relink s s' LS LS' bad bad V []); [done|done|done| |done|set_solver|done|].
  - apply (hashed_ext s' _ (listed LS)); [by apply Hh| |done|done]. intros q. by rewrite (same_listed LS LS').
  - intros p E. split; [done|]. rewrite (same_listed LS LS') by done. by apply (rp_bad _ _ _ _ R).
Qed.

(** Unlinking a page from list [w] and pushing it at the end of list [w']. *)
Lemma lru_move s s1 LS w w' p l1 l2 :
  linked s LS -> LS w = l1 ++ p :: l2 ->
  s1 = upd_pg (lru_unlink s p) p (set_active w') \/ (s1 = lru_unlink s p /\ w' = w) ->
  let LS' := ls_set (ls_set LS w (l1 ++ l2)) w' (ls_set LS w (l1 ++ l2) w' ++ [p]) in
  linked (lru_push s1 w' p) LS' /\ relink s (lru_push s1 w' p) /\ same_pages LS LS'.
Proof.
  intros Hl El Hs1 LS'. destruct (lru_unlink_spec s LS w p l1 l2 Hl El) as (Hl1 & Hn1 & Hr1).
  assert (Hin : p ∈ LS w) by (rewrite El; apply elem_of_app; right; left).
  assert (Hp : 0 <= p < g_used s) by (by eapply lk_slot).
  assert (Hni : ~ listed (ls_set LS w (l1 ++ l2)) p).
  { intros Hx. apply (listed_list _ _ _ Hl1) in Hx.
    assert (E : pg_active (pg (lru_unlink s p) p) = w) by
      (transitivity (pg_active (pg s p)); [apply (f_equal pg_active (Hn1 p))|by apply (lk_act _ _ Hl)]).
    rewrite E, ls_set_eq in Hx. pose proof (lk_nodup _ _ Hl w) as Hnd. rewrite El in Hnd.
    by apply nodup_cut in Hnd as [_ ?]. }
  assert (Hmid : relink s s1 /\ linked s1 (ls_set LS w (l1 ++ l2)) /\ pg_active (pg s1 p) = w').
  { pose proof (relink_lru _ _ Hn1 Hr1). destruct Hs1 as [->|[-> ->]].
    - split; [|split; [|by rewrite pg_upd_eq]].
      + etrans; [done|]. by apply relink_upd.
      + apply (linked_ext (lru_unlink s p)); [done|pose proof (lk_used _ _ Hl1); cbn [g_used upd_pg set_pool]; lia|done|].
        intros q Hq. rewrite pg_upd_ne; [done|]. by intros ->.
    - split; [done|]. split; [done|]. transitivity (pg_active (pg s p)); [apply (f_equal pg_active (Hn1 p))|].
      by apply (lk_act _ _ Hl). }
  destruct Hmid as (Hrl & Hl2 & Hact). clear Hs1.
  assert (Hu : g_used s1 = g_used s) by apply Hrl.
  destruct (lru_push_spec s1 _ w' p Hl2 Hni Hact) as (Hl3 & Hn3 & Hr3); [by rewrite Hu|].
  split; [done|]. split; [etrans; [done|]; by apply relink_lru|].
  unfold same_pages, LS', all. destruct w, w'; unfold ls_set; simpl; rewrite El; solve_Permutation.
Qed.

End Inv.
