(* ===== verification/PageCacheOps.v ===== *)
(** * The page cache's internal operations keep the invariant

    For each helper of mm/pagecache.c: the lists it leaves, that the logical
    content [V] stays, and what happens to single pages. *)
From S2P Require Import Prelude Mem Kstring Pmm PageCache PageCacheLinks PageCacheInv.
#[local] Open Scope Z_scope.

Section Ops.
Context {dev : Type} {B : BlockDev dev} {OK : BlockDevOk dev}.
Implicit Types (s : pcst dev) (p : Z) (LS : bool -> list Z) (V : Z -> Z -> Z).

(** ** Touch and demotion *)

Lemma linked_bump f s LS : linked s LS -> linked (bump f s) LS.
Proof. intros Hl. apply (linked_ext s); auto. simpl. pose proof (lk_used _ _ Hl). lia. Qed.

Lemma lru_touch_spec s LS bad V p :
  rep s LS bad V -> listed LS p ->
  exists LS', rep (lru_touch s p) LS' bad V /\ same_pages LS LS' /\ relink s (lru_touch s p) /\
    last (LS' true) = Some p /\ (length (LS' false) <= length (LS false) <= S (length (LS' false)))%nat.
Proof.
  intros R Hp. pose proof (rp_linked _ _ _ _ R) as Hl. unfold lru_touch.
  pose proof (listed_list s LS p Hl Hp) as Hin. destruct (pg_active (pg s p)) eqn:Ha; simpl.
  - pose proof (lk_tail _ _ Hl true) as Ht. simpl in Ht. rewrite Ht. case_bool_decide as Hlast.
    { exists LS. split; [done|]. split; [by unfold same_pages|]. split; [done|]. split; [done|lia]. }
    apply list_elem_of_split in Hin as (l1 & l2 & El).
    destruct (lru_move s (lru_unlink s p) LS true true p l1 l2 Hl El) as (Hl' & Hr & Hs); [by right|].
    eexists. split; [by eapply rep_same|]. split; [done|]. split; [done|].
    rewrite !ls_set_eq, !ls_set_ne by done. split; [by rewrite last_snoc|lia].
  - apply list_elem_of_split in Hin as (l1 & l2 & El).
    destruct (lru_move s (upd_pg (lru_unlink s p) p (set_active true)) LS false true p l1 l2 Hl El)
      as (Hl' & Hr & Hs); [by left|].
    assert (Hr' : relink s (bump count_promote (lru_push (upd_pg (lru_unlink s p) p (set_active true)) true p)))
      by (etrans; [exact Hr|apply relink_bump]).
    eexists. split; [eapply rep_same; [done|done|by apply linked_bump|done]|]. split; [done|]. split; [done|].
    unfold ls_set. simpl. split; [by rewrite last_snoc|].
    rewrite El, !length_app. simpl. lia.
Qed.

Definition moved LS (n : nat) (b : bool) : list Z :=
  if b then drop n (LS true) else LS false ++ take n (LS true).

Lemma moved_same LS n : same_pages LS (moved LS n).
Proof.
  unfold same_pages, all, moved. rewrite <- (take_drop n (LS true)) at 1. solve_Permutation.
Qed.

Lemma moved_S LS p l : LS true = p :: l ->
  forall n b, moved (ls_set (ls_set LS true l) false (ls_set LS true l false ++ [p])) n b = moved LS (S n) b.
Proof.
  intros E n []; unfold moved, ls_set; simpl; rewrite E; simpl; [done|]. by rewrite <- app_assoc.
Qed.

Lemma linked_pointwise s LS LS' : (forall b, LS' b = LS b) -> linked s LS -> linked s LS'.
Proof. intros E []. split; auto; intros w; rewrite ?E; eauto. Qed.

Lemma demote_spec n : forall s LS,
  linked s LS -> linked (demote n s) (moved LS n) /\ relink s (demote n s).
Proof.
  induction n as [|n IH]; intros s LS Hl.
  - split; [|done]. apply (linked_pointwise _ LS); [|done]. intros []; unfold moved; [done|by rewrite app_nil_r].
  - pose proof (lk_head _ _ Hl true) as Hh. cbn [demote sel] in *. rewrite Hh.
    destruct (LS true) as [|p l] eqn:E; simpl.
    + split; [|done]. apply (linked_pointwise _ LS); [|done]. intros []; unfold moved; rewrite E; [done|by rewrite app_nil_r].
    + destruct (lru_move s (upd_pg (lru_unlink s p) p (set_active false)) LS true false p [] l Hl E)
        as (Hl' & Hr & _); [by left|].
      pose proof (linked_bump count_demote _ _ Hl') as Hl2. apply IH in Hl2 as [Hl2 Hr2]. split.
      * eapply linked_pointwise; [|exact Hl2]. intros b. symmetry. by apply moved_S.
      * etrans; [exact Hr|]. etrans; [apply relink_bump|exact Hr2].
Qed.

(** How many pages the balancing step moves. *)
Definition tip LS : nat :=
  if Z.of_nat (length (LS false)) <? Z.of_nat (length (LS true)) / 2
  then Z.to_nat (Z.of_nat (length (LS true)) / 2) else 0.

Lemma moved_0 LS b : moved LS 0 b = LS b.
Proof. destruct b; unfold moved; [done|by rewrite app_nil_r]. Qed.

Lemma balance_spec s LS bad V :
  rep s LS bad V -> rep (balance s) (moved LS (tip LS)) bad V /\ relink s (balance s).
Proof.
  intros R. pose proof (rp_linked _ _ _ _ R) as Hl. unfold balance, tip.
  pose proof (lk_len _ _ Hl true) as H1. pose proof (lk_len _ _ Hl false) as H2. simpl in H1, H2.
  rewrite H1, H2. destruct (_ <? _).
  - destruct (demote_spec (Z.to_nat (Z.of_nat (length (LS true)) / 2)) s LS Hl) as [Hl' Hr].
    split; [|done]. eapply rep_same; [done|done|done|]. apply moved_same.
  - split; [|done]. eapply rep_same; [done|done| |apply moved_same].
    apply (linked_pointwise _ LS); [|done]. apply moved_0.
Qed.

(** ** Flushing one page *)

(** Only the dirty marks, the device and the counters may differ. *)
Record flushed s s' : Prop := {
  fl_pg q : set_dirty false (pg s' q) = set_dirty false (pg s q);
  fl_clean q : pg_dirty (pg s q) = false -> pg_dirty (pg s' q) = false;
  fl_used : g_used s' = g_used s;
  fl_bucket : g_bucket s' = g_bucket s;
  fl_act : g_act s' = g_act s;
  fl_inact : g_inact s' = g_inact s;
  fl_ra : g_ra s' = g_ra s;
  fl_pmm : pc_pmm s' = pc_pmm s
}.

#[export] Instance flushed_refl : Reflexive flushed.
Proof. by split. Qed.
#[export] Instance flushed_trans : Transitive flushed.
Proof. intros ? ? ? [] []. split; intros; (congruence || auto). Qed.

Lemma flushed_pg s s' q : flushed s s' ->
  pg_next (pg s' q) = pg_next (pg s q) /\ lru_prev (pg s' q) = lru_prev (pg s q) /\
  lru_next (pg s' q) = lru_next (pg s q) /\ pg_ctx (pg s' q) = pg_ctx (pg s q) /\
  pg_off (pg s' q) = pg_off (pg s q) /\ pg_active (pg s' q) = pg_active (pg s q) /\
  pg_wr (pg s' q) = pg_wr (pg s q) /\ pg_frame (pg s' q) = pg_frame (pg s q) /\
  pg_data (pg s' q) = pg_data (pg s q).
Proof.
  intros F. pose proof (fl_pg _ _ F q) as H. repeat split;
  [apply (f_equal pg_next H)|apply (f_equal lru_prev H)|apply (f_equal lru_next H)|apply (f_equal pg_ctx H)
  |apply (f_equal pg_off H)|apply (f_equal pg_active H)|apply (f_equal pg_wr H)|apply (f_equal pg_frame H)
  |apply (f_equal pg_data H)].
Qed.

Lemma flushed_linked s s' LS : flushed s s' -> linked s LS -> linked s' LS.
Proof.
  intros F Hl. apply (linked_ext s); [done| |intros []; apply F|].
  - rewrite (fl_used _ _ F). pose proof (lk_used _ _ Hl). lia.
  - intros q _. by destruct (flushed_pg _ _ q F) as (_ & ? & ? & _ & _ & ? & _).
Qed.

Lemma flushed_hashed s s' K : flushed s s' -> hashed s K -> hashed s' K.
Proof.
  intros F Hh. apply (hashed_ext s _ K); [done|done|by rewrite (fl_bucket _ _ F)|].
  intros p _. unfold key_bucket. by destruct (flushed_pg _ _ p F) as (? & _ & _ & -> & -> & _).
Qed.

Lemma flushed_covers s s' p c o : flushed s s' -> covers s' p c o <-> covers s p c o.
Proof. intros F. unfold covers. by destruct (flushed_pg _ _ p F) as (_ & _ & _ & -> & -> & _). Qed.

Lemma flushed_dirty s s' q : flushed s s' -> pg_dirty (pg s' q) = true -> pg_dirty (pg s q) = true.
Proof. intros F H. destruct (pg_dirty (pg s q)) eqn:E; [done|]. by rewrite (fl_clean _ _ F q E) in H. Qed.

Lemma rep_flushed s s' LS bad V :
  rep s LS bad V -> flushed s s' -> g_dirty_n s' = dcount s' (all LS) ->
  (forall c o, (forall p, listed LS p -> pg_dirty (pg s' p) = true -> ~ covers s' p c o) ->
     dev_at (pc_dev s') c o = V c o) ->
  rep s' LS bad V.
Proof.
  intros [Hl Hh K O W Bd C F P D Ra] Fl Hc Hd. split; auto.
  - by eapply flushed_linked.
  - by eapply flushed_hashed.
  - intros p q Hp Hq. destruct (flushed_pg _ _ p Fl) as (_ & _ & _ & -> & -> & _),
      (flushed_pg _ _ q Fl) as (_ & _ & _ & -> & -> & _). auto.
  - intros p Hp. destruct (flushed_pg _ _ p Fl) as (_ & _ & _ & _ & -> & _). auto.
  - intros p Hp Hdp. destruct (flushed_pg _ _ p Fl) as (_ & _ & _ & _ & _ & _ & -> & _).
    apply W; [done|]. by eapply flushed_dirty.
  - intros p Hp. destruct (Bd p Hp). split; [done|]. by apply (fl_clean _ _ Fl).
  - apply (frames_ext s); [done|apply Fl|apply Fl|]. intros q. by destruct (flushed_pg _ _ q Fl) as (_ & _ & _ & _ & _ & _ & _ & -> & _).
  - intros p i Hp Hb Hi. destruct (flushed_pg _ _ p Fl) as (_ & _ & _ & -> & -> & _ & _ & _ & ->). auto.
  - intros i. unfold ra_at. rewrite (fl_ra _ _ Fl). apply Ra.
Qed.

(** No write of the devices fails. *)
Definition writes_ok : Prop := forall f (d : dev) c o b n, 0 <= (dev_write f d c o b n).2.

Lemma dcount_take s LS p : listed LS p -> exists l, all LS ≡ₚ p :: l.
Proof. intros Hp%elem_all. by apply elem_of_Permutation in Hp. Qed.

Lemma dcount_flush s s' l p :
  p ∉ l -> (forall q, q <> p -> pg s' q = pg s q) -> dcount s' l = dcount s l.
Proof. intros Hp Hq. apply dcount_ext. intros q Hin. rewrite Hq; [done|]. by intros ->. Qed.

(** The state after a successful write of page [p], which left device [d]. *)
Definition cleaned s p (d : dev) : pcst dev :=
  let s1 := upd_pg (set_dev d s) p (set_dirty false) in
  bump count_wb (if g_dirty_n s1 =? 0 then s1 else set_dirty_n (g_dirty_n s1 - 1) s1).

Lemma cleaned_pg s p d q : pg (cleaned s p d) q = if q =? p then set_dirty false (pg s q) else pg s q.
Proof.
  transitivity (pg (upd_pg (set_dev d s) p (set_dirty false)) q); [|by rewrite pg_upd].
  unfold cleaned. cbv zeta. by destruct (_ =? 0).
Qed.

Lemma cleaned_dev s p d : pc_dev (cleaned s p d) = d.
Proof. unfold cleaned. cbv zeta. by destruct (_ =? 0). Qed.

Lemma cleaned_flushed s p d : flushed s (cleaned s p d).
Proof.
  split; try (unfold cleaned; cbv zeta; by destruct (_ =? 0)); intros q; rewrite cleaned_pg; by destruct (q =? p).
Qed.

Lemma rep_cleaned s LS bad V p d :
  rep s LS bad V -> listed LS p -> bad <> Some p -> pg_dirty (pg s p) = true ->
  (forall x y, ~ covers s p x y -> dev_at d x y = dev_at (pc_dev s) x y) ->
  (forall i, 0 <= i < PC_PAGE -> dev_at d (pg_ctx (pg s p)) (pg_off (pg s p) + i) = pg_data (pg s p) i) ->
  rep (cleaned s p d) LS bad V.
Proof.
  intros R Hp Hbad Hd Ho Hby. pose proof (cleaned_flushed s p d) as Hf.
  assert (Hne : forall q, q <> p -> pg (cleaned s p d) q = pg s q)
    by (intros q Hq; rewrite cleaned_pg; by destruct (Z.eqb_spec q p)).
  apply (rep_flushed s); [done|done| |].
  - destruct (dcount_take s LS p Hp) as [l El].
    assert (Hpl : p ∉ l) by (pose proof (nodup_all _ _ (rp_linked _ _ _ _ R)) as Hn; rewrite El in Hn; by apply NoDup_cons in Hn as [? _]).
    pose proof (rp_count _ _ _ _ R) as Hc. rewrite (dcount_perm _ _ _ El), dcount_cons in Hc.
    rewrite (dcount_perm _ _ _ El), dcount_cons, (dcount_flush s _ l p Hpl Hne), cleaned_pg, Z.eqb_refl. rewrite Hd in Hc.
    assert (0 <= dcount s l) by (unfold dcount; lia). unfold cleaned.
    change (g_dirty_n (upd_pg (set_dev d s) p (set_dirty false))) with (g_dirty_n s).
    destruct (Z.eqb_spec (g_dirty_n s) 0); simpl; lia.
  - intros c o Hc. rewrite cleaned_dev.
    destruct (decide (pg_ctx (pg s p) = c /\ pg_off (pg s p) <= o < pg_off (pg s p) + PC_PAGE)) as [[Hcx Hox]|Hnc].
    + subst c. replace o with (pg_off (pg s p) + (o - pg_off (pg s p))) by lia. rewrite Hby by lia.
      apply (rp_page _ _ _ _ R); [done|done|lia].
    + rewrite Ho by done. apply (rp_dev _ _ _ _ R). intros q Hq Hdq.
      destruct (Z.eq_dec q p) as [->|Hqp]; [done|]. rewrite <- (flushed_covers _ _ _ _ _ Hf).
      apply Hc; [done|]. by rewrite Hne.
Qed.

Lemma page_flush_one_spec s LS bad V p :
  rep s LS bad V -> listed LS p ->
  rep (page_flush_one s p).1 LS bad V /\ flushed s (page_flush_one s p).1 /\
  (forall q, q <> p -> pg (page_flush_one s p).1 q = pg s q) /\
  ((page_flush_one s p).2 = 0 /\ pg_dirty (pg (page_flush_one s p).1 p) = false \/
   (page_flush_one s p).2 = -1 /\ pg_dirty (pg s p) = true /\ ~ writes_ok).
Proof.
  intros R Hp. unfold page_flush_one. destruct (pg_dirty (pg s p)) eqn:Hd; simpl; [|split; [done|]; split; [done|]; auto].
  pose proof (rp_wr _ _ _ _ R p Hp Hd) as Hw. destruct (Z.eqb_spec (pg_wr (pg s p)) 0) as [|_]; [done|].
  pose proof (dev_write_other (pg_wr (pg s p)) (pc_dev s) (pg_ctx (pg s p)) (pg_off (pg s p)) (pg_data (pg s p)) PC_PAGE) as Ho.
  pose proof (dev_write_bytes (pg_wr (pg s p)) (pc_dev s) (pg_ctx (pg s p)) (pg_off (pg s p)) (pg_data (pg s p)) PC_PAGE) as Hby.
  pose proof (fun W : writes_ok => W (pg_wr (pg s p)) (pc_dev s) (pg_ctx (pg s p)) (pg_off (pg s p)) (pg_data (pg s p)) PC_PAGE) as Hok.
  destruct (dev_write _ _ _ _ _ _) as [d r]. simpl in Ho, Hby, Hok.
  assert (Hout : forall x y, ~ covers s p x y -> dev_at d x y = dev_at (pc_dev s) x y).
  { intros x y Hn. apply Ho. intros [-> ?]. apply Hn. by split. }
  destruct (Z.ltb_spec r 0) as [Hr|Hr].
  - simpl. split; [|split; [by split|split; [done|]]].
    + apply (rep_flushed s); [done|by split|exact (rp_count _ _ _ _ R)|]. intros c o Hc. cbn [pc_dev set_dev].
      rewrite Hout; [by apply (rp_dev _ _ _ _ R)|]. by apply (Hc p Hp).
    + right. split; [done|]. split; [done|]. intros W. specialize (Hok W). lia.
  - change (_, 0) with (cleaned s p d, 0). cbn [fst snd]. split; [|split; [apply cleaned_flushed|split]].
    + apply rep_cleaned; auto. intros E. apply (rp_bad _ _ _ _ R) in E as [_ E]. congruence.
    + intros q Hq. rewrite cleaned_pg. by destruct (Z.eqb_spec q p).
    + left. by rewrite cleaned_pg, Z.eqb_refl.
Qed.

(** ** Choosing and removing a victim *)

Lemma linked_next s LS w p l1 l2 : linked s LS -> LS w = l1 ++ p :: l2 -> lru_next (pg s p) = head l2.
Proof.
  intros Hl E. pose proof (lk_seg _ _ Hl w) as Hs. rewrite E in Hs.
  apply dseg_app in Hs as [_ (_ & -> & _)]. by destruct l2.
Qed.

(** The search flushes dirty pages from the head on and stops at the first page
    that owes the device nothing. *)
Lemma pick_victim_spec fuel : forall l1 l2 s LS V,
  rep s LS None V -> LS false = l1 ++ l2 -> (length l2 < fuel)%nat ->
  rep (pick_victim fuel s (head l2)).1 LS None V /\ flushed s (pick_victim fuel s (head l2)).1 /\
  match (pick_victim fuel s (head l2)).2 with
  | Some p => exists k1 k2, l2 = k1 ++ p :: k2 /\
      pg_dirty (pg (pick_victim fuel s (head l2)).1 p) = false /\ (writes_ok -> k1 = [])
  | None => writes_ok -> l2 = []
  end.
Proof.
  induction fuel as [|fuel IH]; intros l1 l2 s LS V R El Hf; [lia|].
  destruct l2 as [|p l2]; [done|]. cbn [head pick_victim].
  destruct (pg_dirty (pg s p)) eqn:Hd.
  2: { split; [done|]. split; [done|]. exists [], l2. done. }
  assert (Hp : listed LS p) by (right; rewrite El; apply elem_of_app; right; left).
  destruct (page_flush_one_spec s LS None V p R Hp) as (R1 & F1 & _ & Hr).
  destruct (page_flush_one s p) as [s1 r]. cbn [fst snd] in *.
  destruct Hr as [[-> Hc]|(-> & _ & Hw)].
  - change (0 <? 0) with false. split; [done|]. split; [done|]. exists [], l2. done.
  - change (-1 <? 0) with true. cbv iota.
    assert (El' : LS false = (l1 ++ [p]) ++ l2) by (by rewrite El, <- app_assoc).
    rewrite (linked_next s1 LS false p l1 l2 (rp_linked _ _ _ _ R1) El).
    destruct (IH (l1 ++ [p]) l2 s1 LS V R1 El') as (R2 & F2 & Hm); [simpl in Hf; lia|].
    split; [done|]. split; [by etrans|].
    destruct (pick_victim fuel s1 (head l2)) as [s2 [v|]]; cbn [fst snd] in *; [|done].
    destruct Hm as (k1 & k2 & -> & Hc & Hk). exists (p :: k1), k2. done.
Qed.

Lemma core_hash s s' :
  (forall q, nonext (pg s' q) = nonext (pg s q)) -> rest_hash s' = rest_hash s ->
  same_core s s' /\ forall LS, linked s LS -> linked s' LS.
Proof.
  intros Hq Hr. assert (Hu : g_used s' = g_used s) by apply (f_equal g_used Hr). split.
  - split; [intros q; apply (f_equal page_core (Hq q))|done|apply (f_equal g_dirty_n Hr)|apply (f_equal pc_pmm Hr)
           |apply (f_equal pc_dev Hr)|apply (f_equal g_ra Hr)].
  - intros LS Hl. apply (linked_ext s); [done|rewrite Hu; pose proof (lk_used _ _ Hl); lia| |].
    + intros []; [apply (f_equal g_act Hr)|apply (f_equal g_inact Hr)].
    + intros q _. split; [apply (f_equal lru_prev (Hq q))|]. split; [apply (f_equal lru_next (Hq q))|apply (f_equal pg_active (Hq q))].
Qed.

Lemma cut_listed s LS w p l1 l2 : linked s LS -> LS w = l1 ++ p :: l2 ->
  all LS ≡ₚ [p] ++ all (ls_set LS w (l1 ++ l2)) /\ ~ listed (ls_set LS w (l1 ++ l2)) p.
Proof.
  intros Hl El. assert (Hperm : all LS ≡ₚ [p] ++ all (ls_set LS w (l1 ++ l2))).
  { unfold all. destruct w; unfold ls_set; simpl; rewrite El; solve_Permutation. }
  split; [done|]. pose proof (nodup_all _ _ Hl) as Hn. rewrite Hperm in Hn.
  simpl in Hn. apply NoDup_cons in Hn as [Hn _]. by rewrite <- elem_all.
Qed.

(** Unhashing and unlinking a clean page. *)
Lemma rep_drop s LS bad V w p l1 l2 :
  rep s LS bad V -> LS w = l1 ++ p :: l2 -> pg_dirty (pg s p) = false -> bad = None \/ bad = Some p ->
  let s' := lru_unlink (hash_remove s p) p in
  rep s' (ls_set LS w (l1 ++ l2)) None V /\ same_core s s' /\ ~ listed (ls_set LS w (l1 ++ l2)) p.
Proof.
  intros R El Hd Hb s'. pose proof (rp_linked _ _ _ _ R) as Hl.
  assert (Hp : listed LS p) by (apply (listed_in _ w); rewrite El; apply elem_of_app; right; left).
  destruct (hash_remove_spec s _ p (rp_hashed _ _ _ _ R) (listed_pool _ _ Hl) Hp) as (Hh & Hn & Hr).
  destruct (core_hash _ _ Hn Hr) as [SC Hlk]. specialize (Hlk LS Hl).
  destruct (lru_unlink_spec _ LS w p l1 l2 Hlk El) as (Hl2 & Hn2 & Hr2).
  destruct (relink_lru _ _ Hn2 Hr2) as [SC2 Hh2]. assert (SC' : same_core s s') by (by etrans).
  destruct (cut_listed s LS w p l1 l2 Hl El) as [Hperm Hnl].
  split; [|done]. eapply (rep_relink s s' LS _ bad None V [p]); [done|done|done| |done| | |done].
  - eapply hashed_ext; [apply Hh2, Hh| |done|done]. intros q. simpl. rewrite <- !elem_all, Hperm.
    simpl. rewrite elem_of_cons. split; [tauto|]. intros Hq. split; [by right|]. intros ->. apply Hnl. by apply elem_all.
  - by intros q ->%list_elem_of_singleton.
  - intros q Hq _. destruct Hb as [->| ->]; [done|]. by intros [= ->].
Qed.

(** ** Taking a descriptor *)

Lemma frames_grow s m f s' :
  frames_ok s -> 0 <= g_used s -> pmm_alloc (pc_pmm s) = (m, f) ->
  g_used s' = g_used s + 1 -> pc_pmm s' = m -> pg_frame (pg s' (g_used s)) = f ->
  (forall q, q <> g_used s -> pg_frame (pg s' q) = pg_frame (pg s q)) ->
  frames_ok s' /\ (f <> 0 -> g_free m = g_free (pc_pmm s) - 1) /\ (f = 0 -> g_free (pc_pmm s) = 0).
Proof.
  intros [W L O J] H0 Ha Hu Hm Hf Hq.
  destruct (pmm_alloc_facts (pc_pmm s) W) as [W' Hcase]. rewrite Ha in W', Hcase. cbn [fst snd] in *.
  assert (Hbits : f = 0 /\ m = pc_pmm s /\ g_free (pc_pmm s) = 0 \/
    exists k, 0 < k /\ f = k * PAGE_SIZE /\ bit_test (g_bitmap (pc_pmm s)) k = false /\
      g_free m = g_free (pc_pmm s) - 1 /\
      forall g, 0 <= g -> bit_test (g_bitmap m) g = (k =? g) || bit_test (g_bitmap (pc_pmm s)) g).
  { destruct Hcase as [(k & [Hr Hk] & -> & Hfr & Hb)|(_ & [= -> ->] & Hz)]; [right|by left].
    exists k. split; [|done]. destruct (Z.eq_dec k 0) as [->|]; [congruence|lia]. }
  assert (Hmono : forall g, 0 <= g -> bit_test (g_bitmap (pc_pmm s)) g = true -> bit_test (g_bitmap m) g = true).
  { intros g Hg Hb. destruct Hbits as [(_ & -> & _)|(k & _ & _ & _ & _ & Hk)]; [done|].
    rewrite Hk, Hb by done. apply orb_true_r. }
  assert (Hdist : forall i, 0 <= i < g_used s -> pg_frame (pg s i) <> 0 -> pg_frame (pg s i) <> f).
  { intros i Hi Hne E. destruct (O i Hi Hne) as (k' & Hk' & E' & Hb').
    destruct Hbits as [(-> & _)|(k & Hk & -> & Hb & _)]; [lia|]. assert (k' = k) by (unfold PAGE_SIZE in *; lia). congruence. }
  split; [|split].
  - split; rewrite ?Hm; auto.
    + apply Hmono; [lia|done].
    + intros i Hi Hne. destruct (Z.eq_dec i (g_used s)) as [->|Hi'].
      * rewrite Hf in *. destruct Hbits as [(-> & _)|(k & Hk & -> & _ & _ & Hb)]; [done|].
        exists k. split; [lia|]. split; [done|]. rewrite Hb by lia. by rewrite Z.eqb_refl.
      * rewrite Hq in * by done. destruct (O i ltac:(lia) Hne) as (k & ? & ? & ?). exists k. auto.
    + intros i j Hi Hj Hne E. destruct (Z.eq_dec i (g_used s)) as [->|Hi'], (Z.eq_dec j (g_used s)) as [->|Hj'];
        [done| | |].
      * rewrite Hf in E, Hne. rewrite (Hq j) in E by done. exfalso. apply (Hdist j); [lia|congruence|done].
      * rewrite Hf in E. rewrite (Hq i) in E, Hne by done. exfalso. apply (Hdist i); [lia|done|done].
      * rewrite !Hq in E by done. rewrite Hq in Hne by done. apply J; [lia|lia|done|done].
  - intros Hne. by destruct Hbits as [(-> & _)|(k & _ & _ & _ & -> & _)].
  - intros ->. destruct Hbits as [(_ & _ & ->)|(k & Hk & E & _)]; [done|]. unfold PAGE_SIZE in E. lia.
Qed.

(** A change that leaves every listed page, the lists, the table and the devices
    as they are. *)
Lemma rep_unlisted s s' LS V :
  rep s LS None V -> frames_ok s' -> g_used s <= g_used s' <= PC_PAGES -> (forall w, sel s' w = sel s w) ->
  g_bucket s' = g_bucket s -> g_dirty_n s' = g_dirty_n s -> pc_dev s' = pc_dev s -> g_ra s' = g_ra s ->
  (forall q, listed LS q -> pg s' q = pg s q) ->
  rep s' LS None V.
Proof.
  intros [Hl Hh K O W Bd C F P D Ra] Fr Hu Hs Hb Hd Hv Hr Hq. split; auto.
  - apply (linked_ext s); [done|done|done|]. intros q Hq'. by rewrite (Hq q Hq').
  - apply (hashed_ext s _ (listed LS)); [done|done|by rewrite Hb|]. intros p Hp. unfold key_bucket. by rewrite (Hq p Hp).
  - intros p q Hp Hq'. rewrite (Hq p Hp), (Hq q Hq'). auto.
  - intros p Hp. rewrite (Hq p Hp). auto.
  - intros p Hp. rewrite (Hq p Hp). auto.
  - done.
  - rewrite Hd, C. symmetry. apply dcount_ext. intros q Hin. rewrite Hq; [done|by apply elem_all].
  - intros p i Hp _ Hi. rewrite (Hq p Hp). by apply P.
  - intros c o Hc. rewrite Hv. apply D. intros p Hp. unfold covers in *. rewrite <- (Hq p Hp). by apply Hc.
  - intros i. unfold ra_at. rewrite Hr. apply Ra.
Qed.

Lemma page_take_fresh s LS V :
  rep s LS None V -> g_used s < PC_PAGES ->
  rep (page_take s).1 LS None V /\ g_used (page_take s).1 = g_used s + 1 /\
  (forall q, q <> g_used s -> pg (page_take s).1 q = pg s q) /\
  match (page_take s).2 with
  | Some p => p = g_used s /\ g_free (pc_pmm (page_take s).1) = g_free (pc_pmm s) - 1
  | None => g_free (pc_pmm s) = 0
  end.
Proof.
  intros R Hu. pose proof (lk_used _ _ (rp_linked _ _ _ _ R)) as Hu0. unfold page_take.
  destruct (Z.ltb_spec (g_used s) PC_PAGES) as [_|]; [|lia].
  destruct (pmm_alloc (pc_pmm s)) as [m f] eqn:Ea. cbv zeta.
  set (s' := upd_pg (set_pmm m (set_used (g_used s + 1) s)) (g_used s) _).
  assert (Hq : forall q, q <> g_used s -> pg s' q = pg s q) by (intros q Hq; unfold s'; by rewrite pg_upd_ne).
  destruct (frames_grow s m f s' (rp_frames _ _ _ _ R) (proj1 Hu0) Ea) as (Fr & Hf1 & Hf2); [done|done| | |].
  { unfold s'. by rewrite pg_upd_eq. }
  { intros q Hne. by rewrite Hq. }
  assert (R' : rep s' LS None V).
  { apply (rep_unlisted s); auto; [unfold s'; simpl; lia|]. intros q Hin. apply Hq.
    pose proof (listed_slot _ _ q (rp_linked _ _ _ _ R) Hin). lia. }
  destruct (Z.eqb_spec f 0) as [->|Hf]; cbn [fst snd]; (split; [done|]; split; [done|]; split; [done|]).
  - by apply Hf2.
  - split; [done|]. exact (Hf1 Hf).
Qed.

(** The eviction path: the lists are balanced first, then a clean page leaves
    the inactive list. *)
Lemma page_take_evict s LS V :
  rep s LS None V -> g_used s = PC_PAGES ->
  let LS1 := moved LS (tip LS) in
  g_used (page_take s).1 = g_used s /\ pc_pmm (page_take s).1 = pc_pmm s /\
  (forall q, pg_ctx (pg (page_take s).1 q) = pg_ctx (pg s q) /\ pg_off (pg (page_take s).1 q) = pg_off (pg s q)) /\
  match (page_take s).2 with
  | Some p => exists l1 l2, LS1 false = l1 ++ p :: l2 /\ (writes_ok -> l1 = []) /\
      rep (page_take s).1 (ls_set LS1 false (l1 ++ l2)) None V /\ ~ listed (ls_set LS1 false (l1 ++ l2)) p
  | None => rep (page_take s).1 LS1 None V /\ (writes_ok -> LS1 false = [])
  end.
Proof.
  intros R Hu LS1. unfold page_take. destruct (Z.ltb_spec (g_used s) PC_PAGES) as [|_]; [lia|].
  destruct (balance_spec s LS None V R) as [R1 [SC1 _]]. fold LS1 in R1.
  pose proof (rp_linked _ _ _ _ R1) as Hl1. pose proof (lk_head _ _ Hl1 false) as Hh. cbn [sel] in Hh. cbv zeta.
  rewrite Hh. destruct (pick_victim_spec pc_fuel [] (LS1 false) (balance s) LS1 V R1 eq_refl) as (R2 & F2 & Hm).
  { pose proof (linked_len _ _ false Hl1). pose proof pc_fuel_eq. lia. }
  destruct (pick_victim pc_fuel (balance s) (head (LS1 false))) as [s2 [p|]]; cbn [fst snd] in *.
  - destruct Hm as (k1 & k2 & Ek & Hc & Hk).
    assert (R3 : rep (bump count_evict s2) LS1 None V).
    { eapply rep_same; [exact R2|apply relink_bump|apply linked_bump, R2|by unfold same_pages]. }
    destruct (rep_drop (bump count_evict s2) LS1 None V false p k1 k2 R3 Ek Hc) as (R4 & SC4 & Hn4); [by left|].
    split; [|split; [|split]].
    + rewrite (sc_used _ _ SC4). simpl. by rewrite (fl_used _ _ F2), (sc_used _ _ SC1).
    + rewrite (sc_pmm _ _ SC4). simpl. by rewrite (fl_pmm _ _ F2), (sc_pmm _ _ SC1).
    + intros q. destruct (core_pg _ _ q SC4) as (-> & -> & _). change (pg (bump count_evict s2) q) with (pg s2 q).
      destruct (flushed_pg _ _ q F2) as (_ & _ & _ & -> & -> & _). destruct (core_pg _ _ q SC1) as (-> & -> & _). done.
    + by exists k1, k2.
  - split; [by rewrite (fl_used _ _ F2), (sc_used _ _ SC1)|]. split; [by rewrite (fl_pmm _ _ F2), (sc_pmm _ _ SC1)|].
    split; [|done]. intros q. destruct (flushed_pg _ _ q F2) as (_ & _ & _ & -> & -> & _).
    by destruct (core_pg _ _ q SC1) as (-> & -> & _).
Qed.

(** ** Installing and filling a page *)

Definition key_free s LS (c o : Z) : Prop :=
  forall q, listed LS q -> ~ (pg_ctx (pg s q) = c /\ pg_off (pg s q) = o).

(** Adding to the lists a clean page whose key is new. *)
Lemma rep_add s s' LS p V :
  rep s LS None V -> ~ listed LS p -> pg_dirty (pg s p) = false -> pg_off (pg s p) mod PC_PAGE = 0 ->
  key_free s LS (pg_ctx (pg s p)) (pg_off (pg s p)) ->
  same_core s s' -> let LS' := ls_set LS false (LS false ++ [p]) in
  linked s' LS' -> hashed s' (fun q => q = p \/ listed LS q) ->
  rep s' LS' (Some p) V.
Proof.
  intros [Hl Hh K O W Bd C F P D Ra] Hn Hd Ho Hk SC LS' Hl' Hh'.
  assert (Hperm : all LS' ≡ₚ p :: all LS) by (unfold all, LS', ls_set; simpl; solve_Permutation).
  assert (Hin : forall q, listed LS' q <-> q = p \/ listed LS q).
  { intros q. rewrite <- elem_all, Hperm, elem_of_cons, elem_all. done. }
  assert (Hcore := fun q => core_pg s s' q SC).
  split; auto.
  - eapply hashed_ext; [exact Hh'| |done|done]. intros q. by rewrite Hin.
  - intros q r Hq Hr. destruct (Hcore q) as (-> & -> & _), (Hcore r) as (-> & -> & _).
    apply Hin in Hq as [->|Hq], Hr as [->|Hr]; [done| | |by apply K]; intros E1 E2; exfalso.
    + by apply (Hk r Hr).
    + by apply (Hk q Hq).
  - intros q Hq. destruct (Hcore q) as (_ & -> & _). apply Hin in Hq as [->|Hq]; auto.
  - intros q Hq. destruct (Hcore q) as (_ & _ & -> & -> & _). apply Hin in Hq as [->|Hq]; [congruence|auto].
  - intros q [= <-]. destruct (Hcore p) as (_ & _ & -> & _). split; [|done]. apply Hin. by left.
  - rewrite (sc_dirty _ _ SC), C, (dcount_perm _ _ _ Hperm), dcount_cons.
    destruct (Hcore p) as (_ & _ & -> & _). rewrite Hd. simpl. symmetry. apply dcount_ext.
    intros q _. by destruct (Hcore q) as (_ & _ & -> & _).
  - apply (frames_ext s); [done|apply SC|apply SC|]. intros q. by destruct (Hcore q) as (_ & _ & _ & _ & -> & _).
  - intros q i Hq Hb Hi. destruct (Hcore q) as (-> & -> & _ & _ & _ & ->). apply Hin in Hq as [->|Hq]; [done|auto].
  - intros c o Hc. rewrite (sc_dev _ _ SC). apply D. intros q Hq Hdq. specialize (Hc q). unfold covers in *.
    destruct (Hcore q) as (E1 & E2 & E3 & _). rewrite E1, E2, E3 in Hc. apply Hc; [|done]. apply Hin. by right.
  - intros i. unfold ra_at. rewrite (sc_ra _ _ SC). apply Ra.
Qed.

(** The assignments, the hashing and the push that end [page_alloc]. *)
Definition install s p (ctx off : Z) : pcst dev :=
  lru_push (hash_insert (upd_pg s p (fun x =>
    PcPage None (lru_prev x) (lru_next x) ctx off false false false 0 (pg_frame x) (pg_data x))) p) false p.

Lemma install_spec s LS V p c o :
  rep s LS None V -> ~ listed LS p -> 0 <= p < g_used s -> o mod PC_PAGE = 0 -> key_free s LS c o ->
  let s' := install s p c o in
  rep s' (ls_set LS false (LS false ++ [p])) (Some p) V /\
  pg_ctx (pg s' p) = c /\ pg_off (pg s' p) = o /\
  (forall q, q <> p -> pg_ctx (pg s' q) = pg_ctx (pg s q) /\ pg_off (pg s' q) = pg_off (pg s q)) /\
  g_used s' = g_used s /\ pc_pmm s' = pc_pmm s.
Proof.
  intros R Hn Hp Ho Hk s'. set (s1 := upd_pg s p (fun x =>
    PcPage None (lru_prev x) (lru_next x) c o false false false 0 (pg_frame x) (pg_data x))).
  assert (Hq : forall q, q <> p -> pg s1 q = pg s q) by (intros q Hq; unfold s1; by rewrite pg_upd_ne).
  assert (Hpp : pg s1 p = PcPage None (lru_prev (pg s p)) (lru_next (pg s p)) c o false false false 0 (pg_frame (pg s p)) (pg_data (pg s p)))
    by (unfold s1; by rewrite pg_upd_eq).
  assert (R1 : rep s1 LS None V).
  { apply (rep_unlisted s); auto.
    - apply (frames_ext s); [apply R|done|done|]. intros q. unfold s1. rewrite pg_upd. by destruct (q =? p).
    - pose proof (lk_used _ _ (rp_linked _ _ _ _ R)). simpl. lia.
    - intros q Hin. apply Hq. by intros ->. }
  destruct (hash_insert_spec s1 _ p (rp_hashed _ _ _ _ R1) Hn) as (Hh2 & Hn2 & Hr2).
  destruct (core_hash _ _ Hn2 Hr2) as [SC2 Hl2]. specialize (Hl2 LS (rp_linked _ _ _ _ R1)).
  destruct (lru_push_spec (hash_insert s1 p) LS false p Hl2 Hn) as (Hl3 & Hn3 & Hr3).
  { transitivity (pg_active (pg s1 p)); [apply (f_equal pg_active (Hn2 p))|by rewrite Hpp]. }
  { by rewrite (sc_used _ _ SC2). }
  destruct (relink_lru _ _ Hn3 Hr3) as [SC3 Hh3]. assert (SC : same_core s1 s') by (etrans; [exact SC2|exact SC3]).
  split; [|split; [|split; [|split; [|split]]]].
  - apply (rep_add s1); rewrite ?Hpp; auto. intros q Hin. cbn [pg_ctx pg_off].
    rewrite Hq by (by intros ->). by apply Hk.
  - destruct (core_pg _ _ p SC) as (-> & _). by rewrite Hpp.
  - destruct (core_pg _ _ p SC) as (_ & -> & _). by rewrite Hpp.
  - intros q Hne. destruct (core_pg _ _ q SC) as (-> & -> & _). by rewrite Hq.
  - by rewrite (sc_used _ _ SC).
  - by rewrite (sc_pmm _ _ SC).
Qed.

(** Where the descriptor of a new page came from, and the lists without it. *)
Inductive taken s LS s' : (bool -> list Z) -> Z -> Prop :=
| taken_fresh :
    g_used s < PC_PAGES -> g_used s' = g_used s + 1 ->
    g_free (pc_pmm s') = g_free (pc_pmm s) - 1 -> taken s LS s' LS (g_used s)
| taken_evict p l1 l2 :
    g_used s = PC_PAGES -> g_used s' = g_used s -> pc_pmm s' = pc_pmm s ->
    moved LS (tip LS) false = l1 ++ p :: l2 -> (writes_ok -> l1 = []) ->
    taken s LS s' (ls_set (moved LS (tip LS)) false (l1 ++ l2)) p.

(** Why there is none: no frame, or no page that can be written back. *)
Inductive starved s LS s' : (bool -> list Z) -> Prop :=
| starved_frames :
    g_used s < PC_PAGES -> g_used s' = g_used s + 1 -> g_free (pc_pmm s) = 0 -> starved s LS s' LS
| starved_victims :
    g_used s = PC_PAGES -> g_used s' = g_used s -> pc_pmm s' = pc_pmm s ->
    (writes_ok -> moved LS (tip LS) false = []) -> starved s LS s' (moved LS (tip LS)).

Definition keys_kept s LS s' LS' : Prop := forall q, listed LS q -> listed LS' q ->
  pg_ctx (pg s' q) = pg_ctx (pg s q) /\ pg_off (pg s' q) = pg_off (pg s q).

Lemma taken_sub s LS s' LS' p q : taken s LS s' LS' p -> listed LS' q -> listed LS q.
Proof.
  intros [] Hq; [done|]. rewrite <- (same_listed LS (moved LS (tip LS))) by apply moved_same.
  destruct Hq as [Hq|Hq]; unfold ls_set in Hq; simpl in Hq; [by left|right].
  match goal with E : moved _ _ false = _ |- _ => rewrite E end. set_solver.
Qed.

Lemma page_take_spec s LS V :
  rep s LS None V ->
  match page_take s with
  | (s', Some p) => exists LS', taken s LS s' LS' p /\ ~ listed LS' p /\ 0 <= p < g_used s' /\
      rep s' LS' None V /\ keys_kept s LS s' LS'
  | (s', None) => exists LS', starved s LS s' LS' /\ rep s' LS' None V /\ keys_kept s LS s' LS'
  end.
Proof.
  intros R. pose proof (lk_used _ _ (rp_linked _ _ _ _ R)) as Hu.
  assert (Hslot := fun q => listed_slot s LS q (rp_linked _ _ _ _ R)).
  destruct (Z.lt_ge_cases (g_used s) PC_PAGES) as [Hlt|Hge].
  - destruct (page_take_fresh s LS V R Hlt) as (R' & Hu' & Hq & Hm).
    assert (Hk : keys_kept s LS (page_take s).1 LS).
    { intros q Hin _. rewrite Hq; [done|]. specialize (Hslot q Hin). lia. }
    destruct (page_take s) as [s' [p|]]; cbn [fst snd] in *.
    + destruct Hm as [-> Hf]. exists LS. split; [by constructor|]. split; [|split; [lia|done]].
      intros Hin. specialize (Hslot _ Hin). lia.
    + exists LS. split; [by constructor|done].
  - destruct (page_take_evict s LS V R) as (Hu' & Hp & Hk & Hm); [lia|].
    assert (Hk' : forall LS', keys_kept s LS (page_take s).1 LS') by (intros LS' q _ _; apply Hk).
    destruct (page_take s) as [s' [p|]]; cbn [fst snd] in *.
    + destruct Hm as (l1 & l2 & El & Hw & R' & Hn). eexists. split; [eapply taken_evict; eauto; lia|].
      split; [done|]. split; [|done]. rewrite Hu'. apply Hslot.
      rewrite <- (same_listed LS (moved LS (tip LS))) by apply moved_same. right. rewrite El.
      apply elem_of_app. right. left.
    + destruct Hm as [R' Hw]. eexists. split; [eapply starved_victims; eauto; lia|done].
Qed.

Lemma page_alloc_spec s LS V c o :
  rep s LS None V -> o mod PC_PAGE = 0 -> key_free s LS c o ->
  match page_alloc s c o with
  | (s', Some p) => exists LS', taken s LS s' LS' p /\ ~ listed LS' p /\
      rep s' (ls_set LS' false (LS' false ++ [p])) (Some p) V /\ keys_kept s LS s' LS' /\
      pg_ctx (pg s' p) = c /\ pg_off (pg s' p) = o
  | (s', None) => exists LS', starved s LS s' LS' /\ rep s' LS' None V /\ keys_kept s LS s' LS'
  end.
Proof.
  intros R Ho Hk. unfold page_alloc. pose proof (page_take_spec s LS V R) as Ht.
  destruct (page_take s) as [s1 [p|]]; [|done]. destruct Ht as (LS1 & T & Hn & Hp & R1 & Hkk).
  assert (Hk1 : key_free s1 LS1 c o).
  { intros q Hq. pose proof (taken_sub _ _ _ _ _ _ T Hq) as Hq0. destruct (Hkk q Hq0 Hq) as [-> ->]. by apply Hk. }
  destruct (install_spec s1 LS1 V p c o R1 Hn Hp Ho Hk1) as (R2 & Hc & Hof & Hq & Hu & Hpm).
  exists LS1. split; [|split; [done|split; [exact R2|split; [|done]]]].
  - clear -T Hu Hpm. unfold install in *. destruct T; [constructor|eapply taken_evict]; eauto; congruence.
  - intros q Hq0 Hq1. change (pg (lru_push _ _ _) q) with (pg (install s1 p c o) q).
    destruct (Hq q) as [-> ->]; [by intros ->|]. by apply Hkk.
Qed.

End Ops.
