(* ===== verification/PageCacheFetch.v ===== *)
(** * Misses, readahead and stores of the page cache

    A miss and a whole readahead burst keep the logical content whatever the
    devices do; the lists they leave decide whether a page the caller still
    needs stays cached. *)
From S2P Require Import Prelude Mem Kstring Pmm PageCache PageCacheLinks PageCacheInv PageCacheOps.
#[local] Open Scope Z_scope.

Section Fetch.
Context {dev : Type} {B : BlockDev dev} {OK : BlockDevOk dev}.
Implicit Types (s : pcst dev) (p : Z) (LS : bool -> list Z) (V : Z -> Z -> Z).

(** ** Filling the new page *)

Definition filled s p (d : dev) (b : Z -> Z) : pcst dev :=
  upd_pg (set_dev d s) p (fun x => set_wr_data (pg_wr x) b x).

Lemma filled_pg s p d b q :
  pg (filled s p d b) q = if q =? p then set_wr_data (pg_wr (pg s q)) b (pg s q) else pg s q.
Proof. unfold filled. by rewrite pg_upd. Qed.

Lemma rep_filled s LS p V d b bad :
  rep s LS (Some p) V -> (forall x y, dev_at d x y = dev_at (pc_dev s) x y) ->
  (bad = Some p \/
   bad = None /\ forall i, 0 <= i < PC_PAGE -> b i = dev_at (pc_dev s) (pg_ctx (pg s p)) (pg_off (pg s p) + i)) ->
  rep (filled s p d b) LS bad V.
Proof.
  intros R Hd Hb. pose proof R as R0. destruct R as [Hl Hh K O W Bd C F P D Ra].
  destruct (Bd p eq_refl) as [Hin Hcl].
  assert (Hx : forall q, pg_ctx (pg (filled s p d b) q) = pg_ctx (pg s q) /\ pg_off (pg (filled s p d b) q) = pg_off (pg s q) /\
    pg_dirty (pg (filled s p d b) q) = pg_dirty (pg s q) /\ pg_wr (pg (filled s p d b) q) = pg_wr (pg s q) /\
    pg_frame (pg (filled s p d b) q) = pg_frame (pg s q)).
  { intros q. rewrite filled_pg. by destruct (q =? p). }
  split; auto.
  - apply (linked_ext s); [done|simpl; pose proof (lk_used _ _ Hl); lia|done|]. intros q _. rewrite filled_pg. by destruct (q =? p).
  - apply (hashed_ext s _ (listed LS)); [done|done|done|]. intros q _. unfold key_bucket.
    destruct (Hx q) as (-> & -> & _). split; [|done]. rewrite filled_pg. by destruct (q =? p).
  - intros q r Hq Hr. destruct (Hx q) as (-> & -> & _), (Hx r) as (-> & -> & _). auto.
  - intros q Hq. destruct (Hx q) as (_ & -> & _). auto.
  - intros q Hq. destruct (Hx q) as (_ & _ & -> & -> & _). auto.
  - intros q E. destruct Hb as [->|[-> _]]; [|done]. destruct (Hx q) as (_ & _ & -> & _). auto.
  - change (g_dirty_n (filled s p d b)) with (g_dirty_n s). rewrite C. symmetry. apply dcount_ext.
    intros q _. by destruct (Hx q) as (_ & _ & -> & _).
  - apply (frames_ext s); [done|done|done|]. intros q. by destruct (Hx q) as (_ & _ & _ & _ & ->).
  - intros q i Hq Hbq Hi. destruct (Hx q) as (-> & -> & _). rewrite filled_pg.
    destruct (Z.eqb_spec q p) as [->|Hne]; [|apply P; [done|congruence|done]].
    destruct Hb as [->|[-> Hb]]; [done|]. cbn [pg_data set_wr_data]. rewrite Hb by done. apply D.
    intros r Hr Hdr Hc. assert (r = p); [|congruence].
    apply (covers_unique s LS (Some p) V r p _ _ R0 Hr Hin Hc). split; [done|lia].
  - intros c o Hc. cbn [pc_dev filled upd_pg set_pool set_dev]. rewrite Hd. apply D. intros q Hq Hdq Hcv.
    destruct (Hx q) as (E1 & E2 & E3 & _). apply (Hc q Hq); [by rewrite E3|]. unfold covers in *. by rewrite E1, E2.
Qed.

(** No read of the devices fails. *)
Definition reads_ok : Prop := forall f (d : dev) c o b n, 0 <= (dev_read f d c o b n).2.

(** How a miss can end without a page. *)
Inductive missed s LS s' : (bool -> list Z) -> Prop :=
| missed_starved LS' : starved s LS s' LS' -> missed s LS s' LS'
| missed_read LS' LS0 p : taken s LS s' LS0 p -> (forall b, LS' b = LS0 b) -> ~ reads_ok -> missed s LS s' LS'.

Lemma taken_ext s LS s1 s2 LS' p :
  taken s LS s1 LS' p -> g_used s2 = g_used s1 -> pc_pmm s2 = pc_pmm s1 -> taken s LS s2 LS' p.
Proof. intros [] Hu Hp; [constructor|eapply taken_evict]; eauto; congruence. Qed.

Lemma page_fetch_spec s LS V c rd o :
  rep s LS None V -> o mod PC_PAGE = 0 -> key_free s LS c o ->
  match page_fetch s c rd o with
  | (s', Some p) => exists LS', taken s LS s' LS' p /\ ~ listed LS' p /\
      rep s' (ls_set LS' false (LS' false ++ [p])) None V /\ keys_kept s LS s' LS' /\
      pg_ctx (pg s' p) = c /\ pg_off (pg s' p) = o
  | (s', None) => exists LS', missed s LS s' LS' /\ rep s' LS' None V /\ keys_kept s LS s' LS'
  end.
Proof.
  intros R Ho Hk. unfold page_fetch. pose proof (page_alloc_spec s LS V c o R Ho Hk) as Ha.
  destruct (page_alloc s c o) as [s1 [p|]].
  2: { destruct Ha as (LS' & Hs & ?). exists LS'. split; [by constructor|done]. }
  destruct Ha as (LS1 & T & Hn & R1 & Hkk & Hc & Hof).
  pose proof (dev_read_keeps rd (pc_dev s1) c o (pg_data (pg s1 p)) PC_PAGE) as Hkeep.
  pose proof (dev_read_bytes rd (pc_dev s1) c o (pg_data (pg s1 p)) PC_PAGE) as Hby.
  pose proof (fun W : reads_ok => W rd (pc_dev s1) c o (pg_data (pg s1 p)) PC_PAGE) as Hok.
  destruct (dev_read _ _ _ _ _ _) as [[d b] r]. cbn [fst snd] in *. fold (filled s1 p d b).
  assert (Hkf : keys_kept s LS (filled s1 p d b) LS1).
  { intros q Hq Hq1. rewrite filled_pg. destruct (Hkk q Hq Hq1). by destruct (q =? p). }
  destruct (Z.ltb_spec r 0) as [Hr|Hr].
  - pose proof (rep_filled s1 _ p V d b (Some p) R1 Hkeep (or_introl eq_refl)) as R2.
    destruct (rp_bad _ _ _ _ R2 p eq_refl) as [_ Hcl].
    destruct (rep_drop _ _ (Some p) V false p (LS1 false) [] R2) as (R3 & SC & _); [by rewrite ls_set_eq|done|by right|].
    eexists. split; [|split; [exact R3|]].
    + eapply missed_read; [eapply taken_ext; [exact T|apply SC|apply SC]| |].
      * intros []; unfold ls_set; simpl; [done|by rewrite app_nil_r].
      * intros W. specialize (Hok W). lia.
    + intros q Hq Hq1. destruct (core_pg _ _ q SC) as (-> & -> & _). apply Hkf; [done|].
      destruct Hq1 as [Hq1|Hq1]; unfold ls_set in Hq1; simpl in Hq1; [by left|right]. by rewrite app_nil_r in Hq1.
  - exists LS1. split; [by eapply taken_ext|]. split; [done|]. split; [|split; [done|]].
    + apply rep_filled; [done|done|]. right. split; [done|]. intros i Hi. rewrite Hc, Hof. by apply Hby.
    + by rewrite filled_pg, Z.eqb_refl.
Qed.

(** ** How long a page stays *)

(** [t] survives the next [k] allocations: it is the most recent active page, or
    at least [k] unused descriptors and inactive pages go before it. *)
Definition guard s LS (t k : Z) : Prop :=
  last (LS true) = Some t \/
  exists l1 l2, LS false = l1 ++ t :: l2 /\ k <= Z.of_nat (length l1) + (PC_PAGES - g_used s).

(** The pages an eviction can choose from, with the unused descriptors. *)
Definition slack s LS : Z :=
  PC_PAGES - g_used s +
  Z.of_nat (length (if g_used s =? PC_PAGES then moved LS (tip LS) false else LS false)).

(** Every unused descriptor can have a frame. *)
Definition supply s : Prop := PC_PAGES - g_used s <= g_free (pc_pmm s).

Lemma guard_listed s LS t k : guard s LS t k -> listed LS t.
Proof.
  intros [Hl|(l1 & l2 & E & _)]; [left; by apply last_elem|right]. rewrite E. apply elem_of_app. right. left.
Qed.

Lemma guard_le s LS t k k' : k' <= k -> guard s LS t k -> guard s LS t k'.
Proof. intros Hk [H|(l1 & l2 & E & H)]; [by left|right]. exists l1, l2. split; [done|lia]. Qed.

Lemma guard_ext s s' LS t k : g_used s' = g_used s -> guard s LS t k -> guard s' LS t k.
Proof. intros E. unfold guard. by rewrite E. Qed.

Lemma tip_lt LS : LS true <> [] -> (tip LS < length (LS true))%nat.
Proof.
  intros Hne. unfold tip. destruct (LS true) as [|x l]; [done|]. set (n := length (x :: l)).
  assert (0 < n)%nat by (unfold n; simpl; lia). destruct (_ <? _); [|lia].
  pose proof (Z.div_lt (Z.of_nat n) 2 ltac:(lia) ltac:(lia)). lia.
Qed.

Lemma last_drop_lt (l : list Z) n : (n < length l)%nat -> last (drop n l) = last l.
Proof.
  intros Hn. destruct (drop n l) as [|x d] eqn:E.
  - apply (f_equal length) in E. rewrite length_drop in E. simpl in E. lia.
  - rewrite <- (take_drop n l), E, last_app, last_cons. by destruct (last d).
Qed.

Lemma guard_moved s LS t k : guard s LS t k -> guard s (moved LS (tip LS)) t k.
Proof.
  intros [Hl|(l1 & l2 & E & Hk)].
  - left. unfold moved. rewrite last_drop_lt; [done|]. apply tip_lt. by intros E; rewrite E in Hl.
  - right. exists l1, (l2 ++ take (tip LS) (LS true)). split; [|done]. unfold moved. by rewrite E, <- app_assoc.
Qed.

Lemma guard_taken s LS s' LS0 p t k :
  taken s LS s' LS0 p -> writes_ok -> 0 <= k -> guard s LS t (k + 1) -> guard s' LS0 t k.
Proof.
  intros [Hu Hu' _|p' l1 l2 Hu Hu' _ El Hw] W H0 G.
  - destruct G as [Hl|(k1 & k2 & E & Hk)]; [by left|right]. exists k1, k2. split; [done|lia].
  - rewrite (Hw W) in El |- *. apply guard_moved in G as [Hl|(k1 & k2 & E & Hk)].
    + left. by rewrite ls_set_ne.
    + right. rewrite ls_set_eq. rewrite E in El. destruct k1 as [|x k1]; simpl in *; [lia|].
      injection El as -> <-. exists k1, k2. split; [done|lia].
Qed.

Lemma guard_push s LS t k p : guard s LS t k -> guard s (ls_set LS false (LS false ++ [p])) t k.
Proof.
  intros [Hl|(l1 & l2 & E & Hk)]; [left; by rewrite ls_set_ne|right].
  exists l1, (l2 ++ [p]). rewrite ls_set_eq, E. by rewrite <- app_assoc.
Qed.

Lemma guard_starved s LS s' LS' t k : starved s LS s' LS' -> guard s LS t (k + 1) -> guard s' LS' t k.
Proof.
  intros [Hu Hu' _|Hu Hu' _ _] G.
  - destruct G as [Hl|(k1 & k2 & E & Hk)]; [by left|right]. exists k1, k2. split; [done|lia].
  - apply (guard_ext s); [done|]. apply guard_moved. by eapply guard_le; [|exact G]; lia.
Qed.

Lemma moved_length LS n : (length (LS false) <= length (moved LS n false))%nat.
Proof. unfold moved. rewrite length_app. lia. Qed.

Lemma slack_ge s LS : PC_PAGES - g_used s + Z.of_nat (length (LS false)) <= slack s LS.
Proof. unfold slack. pose proof (moved_length LS (tip LS)). destruct (_ =? _); lia. Qed.

Lemma slack_taken s LS s' LS0 p :
  taken s LS s' LS0 p -> slack s LS <= PC_PAGES - g_used s' + Z.of_nat (length (LS0 false)) + 1.
Proof.
  unfold slack. intros [Hu Hu' _|p' l1 l2 Hu Hu' _ El _].
  - destruct (Z.eqb_spec (g_used s) PC_PAGES); lia.
  - destruct (Z.eqb_spec (g_used s) PC_PAGES); [|lia]. rewrite El, ls_set_eq, !length_app. simpl. lia.
Qed.

Lemma slack_starved s LS s' LS' : starved s LS s' LS' -> slack s LS - 1 <= slack s' LS'.
Proof.
  intros H. pose proof (slack_ge s' LS'). unfold slack at 1. destruct H as [Hu Hu' _|Hu Hu' _ _].
  - destruct (Z.eqb_spec (g_used s) PC_PAGES); lia.
  - destruct (Z.eqb_spec (g_used s) PC_PAGES); lia.
Qed.

Lemma slack_ext s s' LS LS' : g_used s' = g_used s -> (forall b, LS' b = LS b) -> slack s' LS' = slack s LS.
Proof. intros Hu Hb. unfold slack, moved, tip. by rewrite Hu, !Hb. Qed.

Lemma supply_taken s LS s' LS0 p : taken s LS s' LS0 p -> supply s -> supply s'.
Proof. unfold supply. intros [Hu Hu' Hf|? ? ? Hu Hu' Hp _ _] Hs; [lia|]. rewrite Hp. lia. Qed.

(** A miss, seen by the pages and descriptors that remain. *)
Lemma missed_room s LS s' LS' :
  missed s LS s' LS' ->
  slack s LS - 1 <= slack s' LS' /\ (supply s -> supply s') /\
  (writes_ok -> reads_ok -> supply s -> 0 < slack s LS -> False) /\
  (writes_ok -> forall t k, 0 <= k -> guard s LS t (k + 1) -> guard s' LS' t k).
Proof.
  intros [LS1 St|LS1 LS0 p T E Hr].
  - split; [by apply slack_starved|]. split; [|split; [|intros; by eapply guard_starved]].
    + unfold supply. destruct St as [Hu Hu' Hf|Hu Hu' Hp _]; [lia|]. rewrite Hp. lia.
    + unfold supply, slack. destruct St as [Hu Hu' Hf|Hu Hu' Hp Hw]; [lia|]. intros W _ _.
      rewrite Hu, Z.eqb_refl, (Hw W). simpl. lia.
  - pose proof (slack_taken _ _ _ _ _ T). pose proof (slack_ge s' LS0).
    split; [rewrite (slack_ext s' s' LS0 LS1) by done; lia|]. split; [by eapply supply_taken|].
    split; [done|]. intros W t k Hk G. pose proof (guard_taken _ _ _ _ _ _ _ T W Hk G) as G'.
    unfold guard in *. by rewrite !E.
Qed.

(** ** Readahead *)

(** What a step may do to the room that is left, and to a page [t] that the next
    [n] allocations cannot reach. *)
Record calm s LS s' LS' (n loss : Z) : Prop := {
  cm_slack : slack s LS - loss <= slack s' LS';
  cm_supply : supply s -> supply s';
  cm_guard : writes_ok -> forall t k, 0 <= k -> guard s LS t (n + k) ->
    guard s' LS' t k /\ pg_ctx (pg s' t) = pg_ctx (pg s t) /\ pg_off (pg s' t) = pg_off (pg s t)
}.

Lemma calm_trans s1 L1 s2 L2 s3 L3 n m a b :
  0 <= n -> 0 <= m -> calm s1 L1 s2 L2 n a -> calm s2 L2 s3 L3 m b -> calm s1 L1 s3 L3 (n + m) (a + b).
Proof.
  intros Hn Hm [S1 P1 G1] [S2 P2 G2]. split; [lia|auto|]. intros W t k Hk G.
  destruct (G1 W t (m + k) ltac:(lia)) as (G' & E1 & E2); [by rewrite Z.add_assoc|].
  destruct (G2 W t k Hk G') as (G'' & E3 & E4). split; [done|]. split; congruence.
Qed.

Lemma calm_weaken s LS s' LS' n m a b : n <= m -> a <= b -> calm s LS s' LS' n a -> calm s LS s' LS' m b.
Proof.
  intros Hn Ha [S P G]. split; [lia|done|]. intros W t k Hk Hg. apply (G W t k Hk).
  eapply guard_le; [|exact Hg]. lia.
Qed.

(** A change of links or table entries only, with the lists as they were. *)
Lemma calm_same s s' LS :
  g_used s' = g_used s -> pc_pmm s' = pc_pmm s ->
  (forall q, pg_ctx (pg s' q) = pg_ctx (pg s q) /\ pg_off (pg s' q) = pg_off (pg s q)) ->
  calm s LS s' LS 0 0.
Proof.
  intros Hu Hp Hq. split.
  - rewrite (slack_ext s s' LS LS) by done. lia.
  - unfold supply. by rewrite Hu, Hp.
  - intros W t k Hk G. split; [by apply (guard_ext s)|apply Hq].
Qed.

Lemma calm_missed s LS s' LS' :
  missed s LS s' LS' -> keys_kept s LS s' LS' -> calm s LS s' LS' 1 1.
Proof.
  intros M Hk. destruct (missed_room _ _ _ _ M) as (Hs & Hp & _ & Hg). split; [done|done|].
  intros W t k H0 G. rewrite Z.add_comm in G. pose proof (Hg W t k H0 G) as G'. split; [done|].
  apply Hk; eapply guard_listed; eauto.
Qed.

Lemma calm_taken s LS s' LS0 p :
  taken s LS s' LS0 p -> ~ listed LS0 p -> keys_kept s LS s' LS0 ->
  calm s LS s' (ls_set LS0 false (LS0 false ++ [p])) 1 0.
Proof.
  intros T Hn Hk. split.
  - pose proof (slack_taken _ _ _ _ _ T). pose proof (slack_ge s' (ls_set LS0 false (LS0 false ++ [p]))) as H2.
    rewrite ls_set_eq, length_app in H2. simpl in H2. lia.
  - by eapply supply_taken.
  - intros W t k H0 G. rewrite Z.add_comm in G. pose proof (guard_taken _ _ _ _ _ _ _ T W H0 G) as G'.
    split; [by apply guard_push|]. apply Hk; eapply guard_listed; eauto.
Qed.

Lemma rep_upd s LS V p f :
  rep s LS None V -> (forall x, nolru (f x) = nolru (set_pra (pg_ra (f x)) x)) ->
  (forall x, lru_prev (f x) = lru_prev x /\ lru_next (f x) = lru_next x) ->
  rep (upd_pg s p f) LS None V /\ calm s LS (upd_pg s p f) LS 0 0.
Proof.
  intros R Hf Hl.
  assert (Hx : forall x, page_core (f x) = page_core x /\ pg_next (f x) = pg_next x /\ pg_active (f x) = pg_active x).
  { intros x. specialize (Hf x). split; [apply (f_equal page_core Hf)|].
    split; [apply (f_equal pg_next Hf)|apply (f_equal pg_active Hf)]. }
  split.
  - eapply rep_same; [done|apply relink_upd; intros x; by destruct (Hx x) as (? & ? & _)| |by unfold same_pages].
    apply (linked_ext s); [apply R|simpl; pose proof (lk_used _ _ (rp_linked _ _ _ _ R)); lia|done|].
    intros q _. rewrite pg_upd. destruct (q =? p); [|done]. destruct (Hl (pg s q)), (Hx (pg s q)) as (_ & _ & ?). auto.
  - apply calm_same; [done|done|]. intros q. rewrite pg_upd. destruct (q =? p); [|done].
    destruct (Hx (pg s q)) as (E & _). split; [apply (f_equal pg_ctx E)|apply (f_equal pg_off E)].
Qed.

Lemma u64_aligned i : u64 (i * PC_PAGE) mod PC_PAGE = 0.
Proof.
  unfold u64, PC_PAGE. replace (2 ^ 64) with (4096 * 2 ^ 52) by done.
  rewrite (Z.mul_comm i), Z.mul_mod_distr_l, Z.mul_comm by lia. apply Z_mod_mult.
Qed.

Lemma find_free s LS V c o :
  rep s LS None V -> hash_find s c o = None -> key_free s LS c o.
Proof.
  intros R E. pose proof (hash_find_spec s _ c o (rp_hashed _ _ _ _ R) (listed_pool _ _ (rp_linked _ _ _ _ R))) as H.
  by rewrite E in H.
Qed.

Lemma ra_issue_from_spec n : forall s LS V c rd i,
  rep s LS None V ->
  exists LS', rep (ra_issue_from n s c rd i) LS' None V /\
    calm s LS (ra_issue_from n s c rd i) LS' (Z.of_nat n) 1.
Proof.
  induction n as [|n IH]; intros s LS V c rd i R; cbn [ra_issue_from].
  { exists LS. split; [done|]. eapply calm_weaken; [| |by apply calm_same]; lia. }
  destruct (hash_find s c (u64 (i * PC_PAGE))) eqn:E.
  { destruct (IH s LS V c rd (i + 1) R) as (LS' & R' & C'). exists LS'. split; [done|].
    eapply calm_weaken; [| |exact C']; lia. }
  pose proof (page_fetch_spec s LS V c rd _ R (u64_aligned i) (find_free _ _ _ _ _ R E)) as Hf.
  destruct (page_fetch s c rd (u64 (i * PC_PAGE))) as [s1 [p|]].
  - destruct Hf as (LS1 & T & Hn & R1 & Hk & _). pose proof (calm_taken _ _ _ _ _ T Hn Hk) as C1.
    destruct (rep_upd s1 _ V p (set_pra true) R1) as [R2 C2]; [done|done|].
    destruct (IH _ _ V c rd (i + 1) R2) as (LS' & R' & C'). exists LS'. split; [done|].
    replace (Z.of_nat (S n)) with (1 + (0 + Z.of_nat n)) by lia. change 1 with (0 + (0 + 1)) at 3.
    eapply calm_trans; [lia|lia|exact C1|]. eapply calm_trans; [lia|lia|exact C2|exact C'].
  - destruct Hf as (LS' & M & R' & Hk). exists LS'. split; [done|].
    eapply calm_weaken; [| |by apply calm_missed]; lia.
Qed.

Lemma rep_set_ra s LS V R v :
  rep s LS None V -> (forall i, 0 <= ra_window (default ra0 (R !! i)) <= RA_MAX) ->
  rep (set_ra R v s) LS None V /\ calm s LS (set_ra R v s) LS 0 0.
Proof.
  intros [Hl Hh K O W Bd C F P D Ra] Hr. split; [|by apply calm_same]. split; auto.
  - apply (linked_ext s); auto. simpl. pose proof (lk_used _ _ Hl). lia.
  - by apply (frames_ext s).
Qed.

Lemma window_insert (R : gmap Z ra_state) i x :
  (forall j, 0 <= ra_window (default ra0 (R !! j)) <= RA_MAX) -> 0 <= ra_window x <= RA_MAX ->
  forall j, 0 <= ra_window (default ra0 (<[i := x]> R !! j)) <= RA_MAX.
Proof.
  intros H Hx j. destruct (Z.eq_dec i j) as [->|Hne]; [by rewrite lookup_insert_eq|by rewrite lookup_insert_ne].
Qed.

Lemma ra_get_spec s LS V c :
  rep s LS None V -> rep (ra_get s c).1 LS None V /\ calm s LS (ra_get s c).1 LS 0 0.
Proof.
  intros R. unfold ra_get. destruct (ra_find s c); [split; [done|by apply calm_same]|].
  destruct (match List.find _ _ with Some i => _ | None => _ end) as [i v]. cbn [fst].
  apply rep_set_ra; [done|]. apply window_insert; [apply R|]. unfold RA_MIN, RA_MAX. simpl. lia.
Qed.

Lemma ra_widen_range w : 0 <= w <= RA_MAX -> 0 <= ra_widen w <= RA_MAX.
Proof.
  unfold ra_widen, RA_MAX. intros Hw. destruct (Z.ltb_spec w 16); [|lia].
  rewrite u32_small by lia. destruct (Z.ltb_spec 16 ((w + 1) * 2)); lia.
Qed.

Lemma ra_advance_spec s LS V c rd o p :
  rep s LS None V ->
  exists LS', rep (ra_advance s c rd o p) LS' None V /\ calm s LS (ra_advance s c rd o p) LS' RA_MAX 1.
Proof.
  intros R. unfold ra_advance. destruct (ra_get_spec s LS V c R) as [R1 C1].
  destruct (ra_get s c) as [s1 i]. cbn [fst] in *. cbv zeta.
  pose proof (rp_ra _ _ _ _ R1 i) as Hw. set (r := ra_at s1 i) in *.
  assert (H2 : exists s2 w, (if pg_ra (pg s1 p) then (upd_pg s1 p (set_pra false), ra_widen (ra_window r))
      else (s1, ra_window r)) = (s2, w) /\ 0 <= w <= RA_MAX /\ rep s2 LS None V /\ calm s1 LS s2 LS 0 0).
  { destruct (pg_ra (pg s1 p)); do 2 eexists; (split; [done|]).
    - split; [by apply ra_widen_range|]. by apply rep_upd.
    - split; [done|]. split; [done|by apply calm_same]. }
  destruct H2 as (s2 & w & -> & Hw2 & R2 & C2).
  assert (H3 : exists s3 w', (if o / PC_PAGE =? u64 (ra_last_page r + 1) then (ra_issue s2 c rd (o / PC_PAGE) w, w)
      else (s2, if o / PC_PAGE =? ra_last_page r then w else RA_MIN)) = (s3, w') /\ 0 <= w' <= RA_MAX /\
      exists LS', rep s3 LS' None V /\ calm s2 LS s3 LS' RA_MAX 1).
  { destruct (_ =? _); do 2 eexists; (split; [done|]).
    - split; [done|]. unfold ra_issue.
      destruct (ra_issue_from_spec (Z.to_nat w) s2 LS V c rd (o / PC_PAGE + 1) R2) as (LS' & R3 & C3).
      exists LS'. split; [done|]. eapply calm_weaken; [| |exact C3]; lia.
    - split; [destruct (_ =? _); [done|unfold RA_MIN, RA_MAX; lia]|]. exists LS. split; [done|].
      eapply calm_weaken; [| |by apply calm_same]; unfold RA_MAX; lia. }
  destruct H3 as (s3 & w' & -> & Hw3 & LS' & R3 & C3).
  destruct (rep_set_ra s3 LS' V (<[i := RaState (ra_ctx r) (o / PC_PAGE) w' (ra_in_use r)]> (g_ra s3)) (g_ra_victim s3) R3) as [R4 C4].
  { apply window_insert; [apply R3|done]. }
  exists LS'. split; [done|]. change RA_MAX with (0 + (0 + (RA_MAX + 0))). change 1 with (0 + (0 + (1 + 0))).
  eapply calm_trans; [lia|unfold RA_MAX; lia|exact C1|]. eapply calm_trans; [lia|unfold RA_MAX; lia|exact C2|].
  eapply calm_trans; [unfold RA_MAX; lia|lia|exact C3|exact C4].
Qed.

(** ** One page of a read *)

Lemma moved_tip_length LS :
  Z.of_nat (length (moved LS (tip LS) false)) =
  let i := Z.of_nat (length (LS false)) in let a := Z.of_nat (length (LS true)) in
  if i <? a / 2 then i + a / 2 else i.
Proof.
  cbv zeta. unfold moved, tip. rewrite length_app, length_take.
  pose proof (Z.div_le_upper_bound (Z.of_nat (length (LS true))) 2 (Z.of_nat (length (LS true))) ltac:(lia) ltac:(lia)).
  pose proof (Z.div_pos (Z.of_nat (length (LS true))) 2 ltac:(lia) ltac:(lia)).
  destruct (_ <? _); lia.
Qed.

Lemma all_length LS : length (all LS) = (length (LS true) + length (LS false))%nat.
Proof. apply length_app. Qed.

Lemma touch_room s LS V p :
  rep s LS None V -> listed LS p ->
  exists LS', rep (lru_touch s p) LS' None V /\ guard (lru_touch s p) LS' p RA_MAX /\
    slack s LS - 1 <= slack (lru_touch s p) LS' /\ (supply s -> supply (lru_touch s p)) /\
    same_core s (lru_touch s p).
Proof.
  intros R Hp. destruct (lru_touch_spec s LS None V p R Hp) as (LS' & R' & Hs & [SC _] & Hlast & Hlen).
  exists LS'. split; [done|]. split; [by left|]. split; [|split; [|done]].
  - unfold slack. rewrite (sc_used _ _ SC). destruct (Z.eqb_spec (g_used s) PC_PAGES); [|lia].
    apply Permutation_length in Hs. rewrite !all_length in Hs. rewrite !moved_tip_length. cbv zeta.
    pose proof (Z.div_mod (Z.of_nat (length (LS true))) 2). pose proof (Z.mod_pos_bound (Z.of_nat (length (LS true))) 2).
    pose proof (Z.div_mod (Z.of_nat (length (LS' true))) 2). pose proof (Z.mod_pos_bound (Z.of_nat (length (LS' true))) 2).
    bdestr; lia.
  - unfold supply. by rewrite (sc_used _ _ SC), (sc_pmm _ _ SC).
Qed.

(** A page taken for a miss has everything that was inactive before it. *)
Lemma guard_new s LS s' LS0 p k :
  taken s LS s' LS0 p -> k < slack s LS -> guard s' (ls_set LS0 false (LS0 false ++ [p])) p k.
Proof.
  intros T Hk. right. exists (LS0 false), []. rewrite ls_set_eq. split; [done|].
  pose proof (slack_taken _ _ _ _ _ T). lia.
Qed.

Lemma rep_bump f s LS V : rep s LS None V -> rep (bump f s) LS None V.
Proof.
  intros R. eapply rep_same; [exact R|apply relink_bump|apply linked_bump, R|by unfold same_pages].
Qed.

(** A read's page: the content is kept; with room for a readahead burst the page
    holds the logical content when the bytes are copied; and nothing but a failing
    device, a missing frame or a pool without victims ends the read. *)
Lemma read_page_spec s LS V c rd o :
  rep s LS None V -> o mod PC_PAGE = 0 ->
  exists LS', rep (read_page s c rd o).1 LS' None V /\
  slack s LS - 2 <= slack (read_page s c rd o).1 LS' /\
  (supply s -> supply (read_page s c rd o).1) /\
  match (read_page s c rd o).2 with
  | Some p => writes_ok -> RA_MAX < slack s LS ->
      forall i, 0 <= i < PC_PAGE -> pg_data (pg (read_page s c rd o).1 p) i = V c (o + i)
  | None => writes_ok -> reads_ok -> supply s -> 0 < slack s LS -> False
  end.
Proof.
  intros R Ho. unfold read_page.
  pose proof (hash_find_spec s _ c o (rp_hashed _ _ _ _ R) (listed_pool _ _ (rp_linked _ _ _ _ R))) as Hf.
  destruct (hash_find s c o) as [p|] eqn:E.
  - destruct Hf as (Hp & Hc & Hof). pose proof (rep_bump count_hit s LS V R) as R0.
    destruct (touch_room _ LS V p R0 Hp) as (LS1 & R1 & G1 & S1 & P1 & SC1).
    destruct (ra_advance_spec _ LS1 V c rd o p R1) as (LS2 & R2 & [S2 P2 G2]). cbn [fst snd].
    exists LS2. split; [done|]. split; [change (slack s LS) with (slack (bump count_hit s) LS); lia|]. split; [auto|].
    intros W _ i Hi. destruct (G2 W p 0 ltac:(lia)) as (G & E1 & E2); [by rewrite Z.add_0_r|].
    rewrite (rp_page _ _ _ _ R2 p i (guard_listed _ _ _ _ G)) by done. rewrite E1, E2.
    destruct (core_pg _ _ p SC1) as (-> & -> & _). f_equal; [exact Hc|]. by rewrite <- Hof.
  - pose proof (rep_bump count_miss s LS V R) as R0.
    pose proof (page_fetch_spec _ LS V c rd o R0 Ho (find_free _ _ _ _ _ R E)) as Hm.
    change (slack s LS) with (slack (bump count_miss s) LS).
    change (supply s) with (supply (bump count_miss s)).
    destruct (page_fetch (bump count_miss s) c rd o) as [s1 [p|]]; cbn [fst snd].
    + destruct Hm as (LS1 & T & Hn & R1 & Hk & Hc & Hof). pose proof (calm_taken _ _ _ _ _ T Hn Hk) as [S1 P1 _].
      destruct (ra_advance_spec _ _ V c rd o p R1) as (LS2 & R2 & [S2 P2 G2]).
      exists LS2. split; [done|]. split; [lia|]. split; [auto|]. intros W Hs i Hi.
      destruct (G2 W p 0 ltac:(lia)) as (G & E1 & E2); [rewrite Z.add_0_r; by eapply guard_new|].
      rewrite (rp_page _ _ _ _ R2 p i (guard_listed _ _ _ _ G)) by done. by rewrite E1, E2, Hc, Hof.
    + destruct Hm as (LS' & M & R' & _). destruct (missed_room _ _ _ _ M) as (S1 & P1 & X & _).
      exists LS'. split; [done|]. split; [lia|]. done.
Qed.

End Fetch.
