(* ===== verification/PageCacheWrite.v ===== *)
(** * Reads and writes through the page cache

    The loops of [pagecache_read] and [pagecache_write], page by page: how much
    of the request an iteration covers, what a store does to the logical content,
    and what the whole call returns. *)
From S2P Require Import Prelude Mem Kstring Pmm PageCache PageCacheLinks PageCacheInv PageCacheOps PageCacheFetch.
#[local] Open Scope Z_scope.

(** ** The pages of a request *)

(** Pages still to visit at [done] bytes. *)
Definition pages_left (off done len : Z) : Z :=
  if done <? len then (off + len - 1) / PC_PAGE - (off + done) / PC_PAGE + 1 else 0.

Lemma page_base_spec o : 0 <= o < 2 ^ 64 -> page_base o = o / PC_PAGE * PC_PAGE.
Proof. intros Ho. unfold page_base. change (PC_PAGE - 1) with (2 ^ 12 - 1). rewrite land_not_pow2 by lia. done. Qed.

Lemma span_spec off done len :
  0 <= off -> 0 <= done < len -> off + len <= 2 ^ 64 ->
  exists n, span off done len = ((off + done) / PC_PAGE * PC_PAGE, (off + done) mod PC_PAGE, n) /\
    0 < n <= len - done /\ (off + done) mod PC_PAGE + n <= PC_PAGE /\
    pages_left off (done + n) len = pages_left off done len - 1.
Proof.
  intros Ho Hd Hl. unfold span. rewrite (u64_small (off + done)), page_base_spec by lia. cbv zeta.
  pose proof (page_split (off + done)) as [E R]. set (q := (off + done) / PC_PAGE) in *.
  set (m := (off + done) mod PC_PAGE) in *. unfold PC_PAGE in *.
  replace (u32 (off + done - q * 4096)) with m by (rewrite u32_small; lia).
  eexists. split; [done|]. split; [lia|]. split; [lia|]. unfold pages_left.
  rewrite (proj2 (Z.ltb_lt done len)) by lia. change PC_PAGE with 4096. fold q.
  destruct (Z.ltb_spec (done + Z.min (len - done) (4096 - m)) len) as [Hlt|Hge].
  - replace ((off + (done + Z.min (len - done) (4096 - m))) / 4096) with (q + 1); [lia|].
    apply Z.div_unique with 0; lia.
  - replace ((off + len - 1) / 4096) with q; [lia|]. apply Z.div_unique with (off + len - 1 - q * 4096); lia.
Qed.

Lemma pages_left_of off len : 0 <= off -> 0 <= len -> 0 <= pages_left off 0 len <= pages_of len.
Proof.
  intros Ho Hl. unfold pages_left, pages_of, PC_PAGE. rewrite Z.add_0_r.
  pose proof (Z.div_pos len 4096 ltac:(lia) ltac:(lia)).
  destruct (Z.ltb_spec 0 len); [|lia].
  pose proof (Z.div_mod (off + len - 1) 4096 ltac:(lia)). pose proof (Z.mod_pos_bound (off + len - 1) 4096 ltac:(lia)).
  pose proof (Z.div_mod off 4096 ltac:(lia)). pose proof (Z.mod_pos_bound off 4096 ltac:(lia)).
  pose proof (Z.div_mod len 4096 ltac:(lia)). pose proof (Z.mod_pos_bound len 4096 ltac:(lia)). lia.
Qed.

Lemma pages_left_pos off done len : 0 <= off -> done < len -> 0 < pages_left off done len.
Proof.
  intros Ho Hd. unfold pages_left. rewrite (proj2 (Z.ltb_lt done len)) by lia. unfold PC_PAGE.
  pose proof (Z.div_le_mono (off + done) (off + len - 1) 4096 ltac:(lia) ltac:(lia)). lia.
Qed.

Section ReadWrite.
Context {dev : Type} {B : BlockDev dev} {OK : BlockDevOk dev}.
Implicit Types (s : pcst dev) (p : Z) (LS : bool -> list Z) (V : Z -> Z -> Z).

(** ** Reads *)

(** The logical bytes of a range. *)
Definition view_bytes V (c off n : Z) : list Z := (fun i => V c (off + i)) <$> seqZ 0 n.

Lemma view_bytes_app V c off a b :
  0 <= a -> 0 <= b -> view_bytes V c off (a + b) = view_bytes V c off a ++ view_bytes V c (off + a) b.
Proof.
  intros Ha Hb. unfold view_bytes. rewrite seqZ_app, fmap_app by lia. f_equal.
  rewrite Z.add_0_l. apply list_eq. intros i. rewrite !list_lookup_fmap.
  destruct (decide (Z.of_nat i < b)) as [Hi|Hi].
  - rewrite !lookup_seqZ_lt by lia. simpl. f_equal. f_equal. lia.
  - rewrite !lookup_seqZ_ge by lia. done.
Qed.

Lemma read_from_spec fuel : forall s LS V c rd off done len out,
  rep s LS None V -> 0 <= off -> 0 <= done <= len -> off + len <= 2 ^ 64 -> len < 2 ^ 31 ->
  pages_left off done len <= Z.of_nat fuel ->
  let '(s', r, out') := read_from fuel s c rd off done len out in
  exists LS', rep s' LS' None V /\
    (writes_ok -> RA_MAX + 2 * pages_left off done len < slack s LS + 2 ->
     (r = len /\ out' = out ++ view_bytes V c (off + done) (len - done)) \/
     (r = -1 /\ ~ (reads_ok /\ supply s))).
Proof.
  induction fuel as [|fuel IH]; intros s LS V c rd off done len out R Ho Hd Hl Hln Hf; cbn [read_from].
  - destruct (Z.ltb_spec done len) as [Hlt|Hge].
    + pose proof (pages_left_pos off done len Ho Hlt). lia.
    + exists LS. split; [done|]. intros _ _. left. assert (done = len) as -> by lia.
      rewrite s32_small by lia. split; [done|]. by rewrite Z.sub_diag, app_nil_r.
  - destruct (Z.ltb_spec done len) as [Hlt|Hge].
    2: { exists LS. split; [done|]. intros _ _. left. assert (done = len) as -> by lia.
      rewrite s32_small by lia. split; [done|]. by rewrite Z.sub_diag, app_nil_r. }
    destruct (span_spec off done len Ho ltac:(lia) Hl) as (n & -> & Hn & Hin & Hp).
    set (poff := (off + done) / PC_PAGE * PC_PAGE). set (at_ := (off + done) mod PC_PAGE) in *.
    destruct (read_page_spec s LS V c rd poff R (page_aligned _)) as (LS1 & R1 & S1 & P1 & H1).
    destruct (read_page s c rd poff) as [s1 [p|]]; cbn [fst snd] in *.
    + specialize (IH s1 LS1 V c rd off (done + n) len
        (out ++ ((fun i => pg_data (pg s1 p) (at_ + i)) <$> seqZ 0 n)) R1 Ho ltac:(lia) Hl Hln ltac:(lia)).
      destruct (read_from fuel s1 c rd off (done + n) len _) as [[s' r] out'].
      destruct IH as (LS' & R' & H'). exists LS'. split; [done|]. intros W Hs.
      pose proof (pages_left_pos off done len Ho Hlt).
      destruct (H' W ltac:(lia)) as [[-> ->]|[-> Hx]]; [left|right; split; [done|tauto]].
      split; [done|]. rewrite <- app_assoc. f_equal.
      replace (len - done) with (n + (len - (done + n))) by lia. rewrite view_bytes_app by lia.
      rewrite <- Z.add_assoc. f_equal. unfold view_bytes. apply list_fmap_ext. intros k i Hk.
      apply lookup_seqZ in Hk. pose proof (page_split (off + done)) as [E Hr]. fold at_ in E, Hr.
      rewrite H1 by (done || lia). f_equal. unfold poff. lia.
    + exists LS1. split; [done|]. intros W Hs. right. split; [done|]. intros [Hr Hsup].
      pose proof (pages_left_pos off done len Ho Hlt). apply H1; [done|done|done|]. unfold RA_MAX in Hs. lia.
Qed.

(** ** Writes *)

(** The content after the first [k] bytes of [buf] are written at [off]. *)
Definition written V (c off k : Z) (buf : list Z) (x y : Z) : Z :=
  if (x =? c) && (off <=? y) && (y <? off + k) then aget 0 buf (y - off) else V x y.

Lemma rep_view s LS bad V V' : (forall x y, V' x y = V x y) -> rep s LS bad V -> rep s LS bad V'.
Proof.
  intros E [Hl Hh K O W Bd C F P D Ra]. split; auto.
  - intros p i Hp Hb Hi. rewrite E. auto.
  - intros c o Hc. rewrite E. auto.
Qed.

Lemma written_more V c off k n buf x y : 0 <= k -> 0 <= n ->
  written V c off (k + n) buf x y =
  if (x =? c) && (off + k <=? y) && (y <? off + k + n) then aget 0 buf (y - off)
  else written V c off k buf x y.
Proof.
  intros Hk Hn. unfold written. destruct (x =? c); [|done]. simpl.
  destruct (Z.leb_spec off y), (Z.ltb_spec y (off + (k + n))), (Z.leb_spec (off + k) y),
    (Z.ltb_spec y (off + k + n)), (Z.ltb_spec y (off + k)); simpl; (done || lia).
Qed.

(** The store of one iteration, with the state it leaves page by page. *)
Lemma page_store_pg s p wr a done n buf :
  let s' := page_store s p wr a done n buf in
  (forall q, q <> p -> pg s' q = pg s q) /\
  pg s' p = set_dirty true (set_wr_data wr
    (fun i => if (a <=? i) && (i <? a + n) then aget 0 buf (done + (i - a)) else pg_data (pg s p) i) (pg s p)) /\
  g_dirty_n s' = (if pg_dirty (pg s p) then g_dirty_n s else u32 (g_dirty_n s + 1)) /\
  rest_hash (set_dirty_n 0 s') = rest_hash (set_dirty_n 0 s) /\ g_bucket s' = g_bucket s.
Proof.
  intros s'. unfold s', page_store. cbv zeta. rewrite pg_upd_eq.
  cbn [pg_dirty set_wr_data]. destruct (pg_dirty (pg s p)) eqn:Hd.
  - split; [intros q Hq; by rewrite pg_upd_ne|]. split; [|done]. rewrite pg_upd_eq.
    unfold set_dirty, set_wr_data. simpl. by rewrite Hd.
  - split; [|split; [|done]].
    + intros q Hq. change (pg (set_dirty_n ?v ?x) q) with (pg x q). by rewrite !pg_upd_ne.
    + change (pg (set_dirty_n ?v ?x) p) with (pg x p). by rewrite !pg_upd_eq.
Qed.

Lemma dcount_bound s s' LS : linked s LS -> 0 <= dcount s' (all LS) <= 2 * PC_PAGES.
Proof.
  intros Hl. unfold dcount. pose proof (linked_len s LS true Hl). pose proof (linked_len s LS false Hl).
  assert (length (List.filter (fun p => pg_dirty (pg s' p)) (all LS)) <= length (all LS))%nat by apply filter_length_le.
  rewrite all_length in *. lia.
Qed.

Lemma store_count s LS V p wr a done n buf :
  rep s LS None V -> listed LS p ->
  let s' := page_store s p wr a done n buf in g_dirty_n s' = dcount s' (all LS).
Proof.
  intros R Hp s'. destruct (page_store_pg s p wr a done n buf) as (Hq & Hpp & Hdn & _). fold s' in Hq, Hpp, Hdn.
  pose proof (rp_count _ _ _ _ R) as C. pose proof (dcount_bound s s LS (rp_linked _ _ _ _ R)) as Hb.
  destruct (dcount_take s LS p Hp) as [l El].
  assert (Hpl : p ∉ l) by (pose proof (nodup_all _ _ (rp_linked _ _ _ _ R)) as Hn; rewrite El in Hn; by apply NoDup_cons in Hn as [? _]).
  rewrite Hdn, (dcount_perm s' _ _ El), dcount_cons, (dcount_flush s s' l p Hpl Hq), Hpp.
  rewrite C in *. rewrite (dcount_perm s _ _ El), dcount_cons in *. cbn [pg_dirty set_dirty].
  unfold PC_PAGES in Hb. destruct (pg_dirty (pg s p)); [lia|]. rewrite u32_small; lia.
Qed.

Lemma rep_store s LS V p wr a done n buf :
  rep s LS None V -> listed LS p -> wr <> 0 -> 0 <= a -> 0 <= n -> a + n <= PC_PAGE ->
  let lo := pg_off (pg s p) + a in
  rep (page_store s p wr a done n buf) LS None
    (fun x y => if (x =? pg_ctx (pg s p)) && (lo <=? y) && (y <? lo + n) then aget 0 buf (done + (y - lo)) else V x y).
Proof.
  intros R Hp Hw Ha Hn Han lo. destruct (page_store_pg s p wr a done n buf) as (Hq & Hpp & Hdn & Hrest & Hbk).
  set (s' := page_store s p wr a done n buf) in *. pose proof R as R0. destruct R as [Hl Hh K O W Bd C F P D Ra].
  assert (Hx : forall q, pg_ctx (pg s' q) = pg_ctx (pg s q) /\ pg_off (pg s' q) = pg_off (pg s q) /\
    pg_frame (pg s' q) = pg_frame (pg s q) /\ pg_next (pg s' q) = pg_next (pg s q) /\
    lru_prev (pg s' q) = lru_prev (pg s q) /\ lru_next (pg s' q) = lru_next (pg s q) /\ pg_active (pg s' q) = pg_active (pg s q)).
  { intros q. destruct (Z.eq_dec q p) as [->|Hne]; [by rewrite Hpp|by rewrite Hq]. }
  assert (Hrs : g_used s' = g_used s /\ (forall w, sel s' w = sel s w) /\ pc_pmm s' = pc_pmm s /\
    pc_dev s' = pc_dev s /\ g_ra s' = g_ra s).
  { split; [apply (f_equal g_used Hrest)|]. split; [intros []; [apply (f_equal g_act Hrest)|apply (f_equal g_inact Hrest)]|].
    split; [apply (f_equal pc_pmm Hrest)|]. split; [apply (f_equal pc_dev Hrest)|apply (f_equal g_ra Hrest)]. }
  destruct Hrs as (Hu & Hsel & Hpm & Hdv & Hra).
  split; auto.
  - apply (linked_ext s); [done|rewrite Hu; pose proof (lk_used _ _ Hl); lia|done|].
    intros q _. by destruct (Hx q) as (_ & _ & _ & _ & ? & ? & ?).
  - apply (hashed_ext s _ (listed LS)); [done|done|by rewrite Hbk|]. intros q _. unfold key_bucket.
    by destruct (Hx q) as (-> & -> & _ & ? & _).
  - intros q r Hq1 Hr1. destruct (Hx q) as (-> & -> & _), (Hx r) as (-> & -> & _). auto.
  - intros q Hq1. destruct (Hx q) as (_ & -> & _). auto.
  - intros q Hq1. destruct (Z.eq_dec q p) as [->|Hne]; [by rewrite Hpp|rewrite Hq by done; auto].
  - done.
  - by apply (store_count s LS V).
  - apply (frames_ext s); [done|done|done|]. intros q. by destruct (Hx q) as (_ & _ & -> & _).
  - intros q i Hq1 _ Hi. destruct (Hx q) as (-> & -> & _). destruct (Z.eq_dec q p) as [->|Hne].
    + rewrite Hpp, Z.eqb_refl. cbn [pg_data set_dirty set_wr_data andb]. unfold lo.
      destruct (Z.leb_spec a i), (Z.leb_spec (pg_off (pg s p) + a) (pg_off (pg s p) + i)); try lia; simpl; [|by apply P].
      destruct (Z.ltb_spec i (a + n)), (Z.ltb_spec (pg_off (pg s p) + i) (pg_off (pg s p) + a + n)); try lia; [|by apply P].
      f_equal. lia.
    + rewrite Hq by done. rewrite P by done.
      destruct (Z.eqb_spec (pg_ctx (pg s q)) (pg_ctx (pg s p))) as [E|]; [|done]. simpl.
      destruct (Z.leb_spec lo (pg_off (pg s q) + i)); [|done]. destruct (Z.ltb_spec (pg_off (pg s q) + i) (lo + n)); [|done].
      exfalso. apply Hne. apply (covers_unique s LS None V q p (pg_ctx (pg s q)) (pg_off (pg s q) + i) R0 Hq1 Hp); unfold covers, lo in *; (split; [done|lia]).
  - intros c o Hc. rewrite Hdv. specialize (Hc p Hp) as Hcp. rewrite Hpp in Hcp. specialize (Hcp eq_refl).
    destruct (Hx p) as (E1 & E2 & _). unfold covers in Hcp. rewrite E1, E2 in Hcp.
    rewrite D.
    + destruct (Z.eqb_spec c (pg_ctx (pg s p))) as [->|]; [|done]. simpl.
      destruct (Z.leb_spec lo o); [|done]. destruct (Z.ltb_spec o (lo + n)); [|done]. exfalso. apply Hcp. unfold lo in *. split; [done|lia].
    + intros q Hq1 Hdq. destruct (Z.eq_dec q p) as [->|Hne]; [done|]. specialize (Hc q Hq1).
      unfold covers in *. rewrite Hq in Hc by done. auto.
  - intros i. unfold ra_at. rewrite Hra. apply Ra.
Qed.

Lemma store_room s p wr a done n buf LS :
  g_used (page_store s p wr a done n buf) = g_used s /\
  slack (page_store s p wr a done n buf) LS = slack s LS /\
  (supply (page_store s p wr a done n buf) <-> supply s).
Proof.
  destruct (page_store_pg s p wr a done n buf) as (_ & _ & _ & Hr & _).
  pose proof (f_equal g_used Hr) as Hu. pose proof (f_equal pc_pmm Hr) as Hp. simpl in Hu, Hp.
  split; [done|]. split; [by apply slack_ext|]. unfold supply. by rewrite Hu, Hp.
Qed.

(** One iteration's store, as a step of the whole write. *)
Lemma store_written s LS V c wr off done n p buf :
  rep s LS None (written V c off done buf) -> listed LS p -> wr <> 0 -> 0 <= off -> 0 <= done -> 0 <= n ->
  (off + done) mod PC_PAGE + n <= PC_PAGE ->
  pg_ctx (pg s p) = c -> pg_off (pg s p) = (off + done) / PC_PAGE * PC_PAGE ->
  rep (page_store s p wr ((off + done) mod PC_PAGE) done n buf) LS None (written V c off (done + n) buf).
Proof.
  intros R Hp Hw Ho Hd Hn Han Hc Hof. pose proof (page_split (off + done)) as [E Hr].
  eapply rep_view; [|eapply (rep_store s LS _ p wr); [exact R|done|done|lia|lia|lia]].
  intros x y. rewrite written_more by lia. rewrite Hc, Hof, <- E.
  by replace (done + (y - (off + done))) with (y - off) by lia.
Qed.

Lemma write_from_spec fuel : forall s LS V c rd wr off done buf,
  rep s LS None (written V c off done buf) -> wr <> 0 -> 0 <= off -> 0 <= done <= alen buf ->
  off + alen buf <= 2 ^ 64 -> alen buf < 2 ^ 31 -> pages_left off done (alen buf) <= Z.of_nat fuel ->
  match write_from fuel s c rd wr off done buf with
  | Ok (s', r) => exists LS', rep s' LS' None (written V c off (Z.max 0 r) buf) /\
      -1 <= r <= alen buf /\ (writes_ok -> reads_ok -> supply s -> 0 < slack s LS -> r = alen buf)
  | Panic => rd = 0
  end.
Proof.
  induction fuel as [|fuel IH]; intros s LS V c rd wr off dn buf R Hw Ho Hd Hl Hln Hf; cbn [write_from];
    (destruct (Z.ltb_spec dn (alen buf)) as [Hlt|Hge];
     [|exists LS; rewrite s32_small by lia; rewrite Z.max_r by lia; split; [done|]; split; [lia|lia]]).
  { pose proof (pages_left_pos off dn (alen buf) Ho Hlt). lia. }
  destruct (span_spec off dn (alen buf) Ho ltac:(lia) Hl) as (n & -> & Hn & Hin & Hp).
  pose proof (hash_find_spec s _ c ((off + dn) / PC_PAGE * PC_PAGE) (rp_hashed _ _ _ _ R) (listed_pool _ _ (rp_linked _ _ _ _ R))) as Hfd.
  destruct (hash_find s c _) as [p|] eqn:E.
  - destruct Hfd as (Hpl & Hc & Hof).
    pose proof (store_written s LS V c wr off dn n p buf R Hpl Hw Ho ltac:(lia) ltac:(lia) Hin Hc Hof) as R1.
    pose proof (store_room s p wr ((off + dn) mod PC_PAGE) dn n buf LS) as (_ & Hsl & Hsu).
    specialize (IH _ LS V c rd wr off (dn + n) buf R1 Hw Ho ltac:(lia) Hl Hln ltac:(lia)).
    destruct (write_from fuel _ c rd wr off (dn + n) buf) as [[s' r]|]; [|done].
    destruct IH as (LS' & R' & Hr & Hall). exists LS'. split; [done|]. split; [done|].
    intros W Rd Sp Sl. apply Hall; [done|done|by apply Hsu|lia].
  - cbv zeta. destruct (_ && _) eqn:Erd; [apply andb_true_iff in Erd as [Erd _]; by apply Z.eqb_eq|]. clear Erd.
    pose proof (page_fetch_spec _ LS _ c rd _ (rep_bump count_miss _ _ _ R) (page_aligned _) (find_free _ _ _ _ _ R E)) as Hft.
    change (slack s LS) with (slack (bump count_miss s) LS). change (supply s) with (supply (bump count_miss s)).
    destruct (page_fetch _ c rd _) as [s1 [p|]].
    + destruct Hft as (LS1 & T & Hnl & R1 & Hk & Hc & Hof). pose proof (calm_taken _ _ _ _ _ T Hnl Hk) as [S1 P1 _].
      assert (Hpl : listed (ls_set LS1 false (LS1 false ++ [p])) p).
      { right. rewrite ls_set_eq. apply elem_of_app. right. left. }
      pose proof (store_written s1 _ V c wr off dn n p buf R1 Hpl Hw Ho ltac:(lia) ltac:(lia) Hin Hc Hof) as R2.
      pose proof (store_room s1 p wr ((off + dn) mod PC_PAGE) dn n buf (ls_set LS1 false (LS1 false ++ [p]))) as (_ & Hsl & Hsu).
      specialize (IH _ _ V c rd wr off (dn + n) buf R2 Hw Ho ltac:(lia) Hl Hln ltac:(lia)).
      destruct (write_from fuel _ c rd wr off (dn + n) buf) as [[s' r]|]; [|done].
      destruct IH as (LS' & R' & Hr & Hall). exists LS'. split; [done|]. split; [done|].
      intros W Rd Sp Sl. apply Hall; [done|done|by apply Hsu, P1|lia].
    + destruct Hft as (LS' & M & R' & _). destruct (missed_room _ _ _ _ M) as (_ & _ & X & _).
      exists LS'. destruct (Z.eqb_spec dn 0) as [->|Hne].
      * split; [done|]. split; [unfold alen; lia|]. intros. by destruct X.
      * rewrite s32_small, Z.max_r by lia. split; [done|]. split; [lia|]. intros. by destruct X.
Qed.

End ReadWrite.
