(* ===== verification/PageCacheFlush.v ===== *)
(** * Flushing and invalidating

    The walks of [pagecache_flush_ctx], [pagecache_flush_all] and
    [pagecache_invalidate] over the hash buckets: the logical content stays, and
    a result of 0 means that nothing the walk was to handle is left. *)
From S2P Require Import Prelude Mem Kstring Pmm PageCache PageCacheLinks PageCacheInv PageCacheOps PageCacheFetch.
#[local] Open Scope Z_scope.

Section Flush.
Context {dev : Type} {B : BlockDev dev} {OK : BlockDevOk dev}.
Implicit Types (s : pcst dev) (p : Z) (LS : bool -> list Z) (V : Z -> Z -> Z).

Lemma bucket_range c o : 0 <= bucket_of c o < PC_BUCKETS.
Proof.
  unfold bucket_of. cbv zeta. change (PC_BUCKETS - 1) with (Z.ones 10). rewrite Z.land_ones by lia.
  change PC_BUCKETS with (2 ^ 10). apply Z.mod_pos_bound. lia.
Qed.

(** ** Flush *)

Section Want.
Variable want : pc_page -> bool.
(** The test of the loop does not look at the dirty mark. *)
Hypothesis want_dirty : forall v x, want (set_dirty v x) = want x.

Lemma want_flushed s s' q : flushed s s' -> want (pg s' q) = want (pg s q).
Proof. intros F. rewrite <- (want_dirty false (pg s' q)), (fl_pg _ _ F), want_dirty. done. Qed.

Lemma flush_chain_spec LS V : forall fuel l s q r,
  rep s LS None V -> chain (pg s) q l -> (forall p, p ∈ l -> listed LS p) -> (length l < fuel)%nat ->
  let '(s', r') := flush_chain fuel want s q r in
  rep s' LS None V /\ flushed s s' /\ (r' = r \/ r' = -1) /\ (writes_ok -> r' = r) /\
  (r' <> -1 -> forall p, p ∈ l -> want (pg s p) = true -> pg_dirty (pg s' p) = false).
Proof.
  induction fuel as [|fuel IH]; intros l s q r R Hc Hin Hf; [lia|].
  destruct l as [|p l].
  { simpl in Hc. subst q. simpl. split; [done|]. split; [done|]. split; [by left|]. split; [done|]. set_solver. }
  destruct Hc as [-> Hc]. cbn [flush_chain].
  assert (Hstep : exists s1 r1,
    (if want (pg s p) && pg_dirty (pg s p) then let '(s, e) := page_flush_one s p in (s, if e <? 0 then -1 else r) else (s, r)) = (s1, r1) /\
    rep s1 LS None V /\ flushed s s1 /\ (r1 = r \/ r1 = -1) /\ (writes_ok -> r1 = r) /\
    (r1 <> -1 -> want (pg s p) = true -> pg_dirty (pg s1 p) = false)).
  { destruct (want (pg s p)) eqn:Ew, (pg_dirty (pg s p)) eqn:Ed; simpl;
      try (exists s, r; split; [done|]; split; [done|]; split; [done|]; split; [by left|]; split; [done|]; congruence).
    destruct (page_flush_one_spec s LS None V p R) as (R1 & F1 & _ & Hr); [apply Hin; left|].
    destruct (page_flush_one s p) as [s1 e]. cbn [fst snd] in *. exists s1, (if e <? 0 then -1 else r).
    split; [done|]. split; [done|]. split; [done|]. destruct Hr as [[-> Hd]|(-> & _ & Hw)]; simpl; tauto. }
  destruct Hstep as (s1 & r1 & -> & R1 & F1 & Hr1 & Hw1 & Hd1).
  assert (Hc1 : chain (pg s1) (pg_next (pg s1 p)) l).
  { destruct (flushed_pg _ _ p F1) as (-> & _). apply (chain_ext (pg s)); [|done]. intros x _.
    by destruct (flushed_pg _ _ x F1) as (-> & _). }
  specialize (IH l s1 (pg_next (pg s1 p)) r1 R1 Hc1 (fun x Hx => Hin x (list_elem_of_further _ _ _ Hx)) ltac:(simpl in Hf; lia)).
  destruct (flush_chain fuel want s1 (pg_next (pg s1 p)) r1) as [s' r'].
  destruct IH as (R' & F' & Hr' & Hw' & Hd'). split; [done|]. split; [by etrans|].
  split; [destruct Hr' as [->| ->]; auto|]. split; [intros W; rewrite (Hw' W); auto|].
  intros Hne x Hx Hwx. apply elem_of_cons in Hx as [->|Hx].
  - apply (fl_clean _ _ F'). apply Hd1; [|done]. destruct Hr' as [<-|]; [done|congruence].
  - apply Hd'; [done|done|]. by rewrite (want_flushed s s1).
Qed.

(** The buckets of a list, in order. *)
Lemma flush_list_spec LS V (CH : Z -> list Z) : forall (bs : list Z) s r,
  rep s LS None V ->
  (forall b, chain (pg s) (g_bucket s !! b) (CH b) /\ (forall p, p ∈ CH b -> listed LS p) /\ (length (CH b) < pc_fuel)%nat) ->
  let '(s', r') := foldl (fun '(s, r) b => flush_chain pc_fuel want s (g_bucket s !! b) r) (s, r) bs in
  rep s' LS None V /\ flushed s s' /\ (r' = r \/ r' = -1) /\ (writes_ok -> r' = r) /\
  (r' <> -1 -> forall b p, b ∈ bs -> p ∈ CH b -> want (pg s p) = true -> pg_dirty (pg s' p) = false).
Proof.
  induction bs as [|b bs IH]; intros s r R Hb; cbn [foldl].
  { split; [done|]. split; [done|]. split; [by left|]. split; [done|]. set_solver. }
  destruct (Hb b) as (Hc & Hin & Hf).
  pose proof (flush_chain_spec LS V pc_fuel (CH b) s _ r R Hc Hin Hf) as H1.
  destruct (flush_chain pc_fuel want s (g_bucket s !! b) r) as [s1 r1]. destruct H1 as (R1 & F1 & Hr1 & Hw1 & Hd1).
  assert (Hb1 : forall b, chain (pg s1) (g_bucket s1 !! b) (CH b) /\ (forall p, p ∈ CH b -> listed LS p) /\ (length (CH b) < pc_fuel)%nat).
  { intros b'. destruct (Hb b') as (Hc' & ?). split; [|done]. rewrite (fl_bucket _ _ F1).
    apply (chain_ext (pg s)); [|done]. intros x _. by destruct (flushed_pg _ _ x F1) as (-> & _). }
  specialize (IH s1 r1 R1 Hb1). destruct (foldl _ (s1, r1) bs) as [s' r'].
  destruct IH as (R' & F' & Hr' & Hw' & Hd'). split; [done|]. split; [by etrans|].
  split; [destruct Hr' as [->| ->]; auto|]. split; [intros W; rewrite (Hw' W); auto|].
  intros Hne b' p Hb' Hp Hwp. apply elem_of_cons in Hb' as [->|Hb'].
  - apply (fl_clean _ _ F'). apply Hd1; [|done|done]. destruct Hr' as [<-|]; [done|congruence].
  - apply (Hd' Hne b'); [done|done|]. by rewrite (want_flushed s s1).
Qed.

Lemma flush_buckets_spec s LS V :
  rep s LS None V ->
  let '(s', r) := flush_buckets want s in
  rep s' LS None V /\ flushed s s' /\ (r = 0 \/ r = -1) /\ (writes_ok -> r = 0) /\
  (r = 0 -> forall p, listed LS p -> want (pg s p) = true -> pg_dirty (pg s' p) = false).
Proof.
  intros R. unfold flush_buckets. destruct (rp_hashed _ _ _ _ R) as [CH H].
  pose proof (flush_list_spec LS V CH (seqZ 0 PC_BUCKETS) s 0 R) as Hf.
  destruct (foldl _ _ _) as [s' r]. destruct Hf as (R' & F' & Hr & Hw & Hd).
  { intros b. destruct (H b) as (Hc & Hn & Hm). split; [done|]. split; [by intros p [? _]%Hm|].
    eapply bucket_len; [|done|exact Hm]. by eapply listed_pool, R. }
  split; [done|]. split; [done|]. split; [done|]. split; [done|]. intros -> p Hp Hwp.
  apply (Hd ltac:(done) (key_bucket s p)); [|by apply H|done].
  apply elem_of_seqZ. pose proof (bucket_range (pg_ctx (pg s p)) (pg_off (pg s p))). unfold key_bucket. lia.
Qed.

End Want.

(** ** Invalidate *)

(** Fewer pages, the others with their keys. *)
Definition shrunk s LS s' LS' : Prop := forall q, listed LS' q ->
  listed LS q /\ pg_ctx (pg s' q) = pg_ctx (pg s q) /\ pg_off (pg s' q) = pg_off (pg s q).

Lemma shrunk_trans s1 L1 s2 L2 s3 L3 : shrunk s1 L1 s2 L2 -> shrunk s2 L2 s3 L3 -> shrunk s1 L1 s3 L3.
Proof.
  intros H1 H2 q Hq. destruct (H2 q Hq) as (Hq2 & -> & ->). by apply H1.
Qed.

Lemma shrunk_bucket s LS s' LS' q : shrunk s LS s' LS' -> listed LS' q -> key_bucket s' q = key_bucket s q.
Proof. intros H Hq. unfold key_bucket. by destruct (H q Hq) as (_ & -> & ->). Qed.

Lemma flushed_shrunk s s' LS : flushed s s' -> shrunk s LS s' LS.
Proof. intros F q Hq. split; [done|]. by destruct (flushed_pg _ _ q F) as (_ & _ & _ & -> & -> & _). Qed.

Lemma chain_suffix P : forall l1 l2 h, chain P h (l1 ++ l2) -> chain P (head l2) l2.
Proof.
  induction l1 as [|a l1 IH]; intros l2 h; simpl.
  - destruct l2; [done|]. by intros [-> ?].
  - intros [_ H]. by eapply IH.
Qed.

(** What the loop does to a page it drops. *)
Definition forget s p : pcst dev := upd_pg (lru_unlink (hash_remove s p) p) p (set_ctx 0).

Lemma forget_page_spec s LS V p b k l :
  rep s LS None V -> listed LS p -> pg_dirty (pg s p) = false -> key_bucket s p = b ->
  chain (pg s) (g_bucket s !! b) (k ++ p :: l) -> NoDup (k ++ p :: l) -> (length (k ++ p :: l) < pc_fuel)%nat ->
  exists LS', rep (forget s p) LS' None V /\ shrunk s LS (forget s p) LS' /\ ~ listed LS' p /\
    (forall q, listed LS q -> q <> p -> listed LS' q) /\
    chain (pg (forget s p)) (g_bucket (forget s p) !! b) (k ++ l).
Proof.
  intros R Hp Hd Hb Hc Hn Hf. subst b. pose proof (rp_linked _ _ _ _ R) as Hl.
  pose proof (listed_list s LS p Hl Hp) as Hin. apply list_elem_of_split in Hin as (l1 & l2 & El).
  destruct (rep_drop s LS None V _ p l1 l2 R El Hd) as (R2 & SC & Hnl); [by left|].
  destruct (hash_remove_links s p k l Hc Hn Hf) as (Hpg & Hrest & _ & Hb0 & Hnext).
  set (LS' := ls_set LS (pg_active (pg s p)) (l1 ++ l2)) in *. set (s2 := lru_unlink (hash_remove s p) p) in *.
  destruct (nodup_cut k l p Hn) as [_ Hpk].
  assert (Hq : forall q, q <> p -> pg (forget s p) q = pg s2 q) by (intros q Hq; unfold forget; by rewrite pg_upd_ne).
  destruct (cut_listed s LS _ p l1 l2 Hl El) as [Hperm _]. fold LS' in Hperm.
  assert (Hls : forall q, listed LS q <-> q = p \/ listed LS' q).
  { intros q. rewrite <- !elem_all, Hperm. simpl. by rewrite elem_of_cons. }
  exists LS'. split; [|split; [|split; [done|split]]].
  - apply (rep_unlisted s2); auto.
    + apply (frames_ext s2); [apply R2|done|done|]. intros q. unfold forget. rewrite pg_upd. by destruct (q =? p).
    + pose proof (lk_used _ _ (rp_linked _ _ _ _ R2)). unfold forget. cbn [g_used upd_pg set_pool]. fold s2. lia.
    + intros q Hq'. apply Hq. by intros ->.
  - intros q Hq'. split; [apply Hls; by right|]. rewrite Hq by (by intros ->).
    by destruct (core_pg _ _ q SC) as (-> & -> & _).
  - intros q Hq1 Hne. apply Hls in Hq1 as [|]; done.
  - destruct (lru_unlink_pages (hash_remove s p) p) as (_ & _ & Hlru & Hr). fold s2 in Hlru, Hr.
    replace (g_bucket (forget s p)) with (g_bucket (hash_remove s p)) by (symmetry; apply (f_equal g_bucket Hr)).
    apply (chain_cut (pg s) _ (g_bucket s !! key_bucket s p) _ k p l); [done|done|done|].
    intros q Hq'. assert (q <> p) by (by intros ->). rewrite Hq by done. rewrite <- Hnext by done.
    apply (f_equal pg_next (Hlru q)).
Qed.

Section Bucket.
Variables (V : Z -> Z -> Z) (c b : Z).

(** The walk at a point: [k] has been kept, [l] is still to visit. *)
Record walking s LS (k l : list Z) : Prop := {
  wk_rep : rep s LS None V;
  wk_chain : chain (pg s) (g_bucket s !! b) (k ++ l);
  wk_nodup : NoDup (k ++ l);
  wk_in p : p ∈ k ++ l -> listed LS p /\ key_bucket s p = b;
  wk_len : (length (k ++ l) < pc_fuel)%nat
}.

Lemma walking_flushed s s' LS k l : walking s LS k l -> flushed s s' -> rep s' LS None V -> walking s' LS k l.
Proof.
  intros [R Hc Hn Hi Hl] F R'. split; [done| |done| |done].
  - rewrite (fl_bucket _ _ F). apply (chain_ext (pg s)); [|done]. intros q _. by destruct (flushed_pg _ _ q F) as (-> & _).
  - intros p Hp. destruct (Hi p Hp) as [? E]. split; [done|]. rewrite <- E. unfold key_bucket.
    by destruct (flushed_pg _ _ p F) as (_ & _ & _ & -> & -> & _).
Qed.

Lemma walking_keep s LS k p l : walking s LS k (p :: l) -> walking s LS (k ++ [p]) l.
Proof. intros [R Hc Hn Hi Hl]. split; rewrite <- ?app_assoc; done. Qed.

Lemma walking_forget s LS k p l :
  walking s LS k (p :: l) -> pg_dirty (pg s p) = false ->
  exists LS', walking (forget s p) LS' k l /\ shrunk s LS (forget s p) LS' /\ ~ listed LS' p.
Proof.
  intros [R Hc Hn Hi Hl] Hd. destruct (Hi p) as [Hp Hb]; [apply elem_of_app; right; left|].
  destruct (forget_page_spec s LS V p b k l R Hp Hd Hb Hc Hn Hl) as (LS' & R' & Hs & Hnl & Hk & Hc').
  destruct (nodup_cut k l p Hn) as [Hn' Hpk]. exists LS'. split; [|done]. split; [done|done|done| |].
  - intros q Hq. assert (Hqp : q <> p) by (by intros ->). destruct (Hi q) as [Hql Hqb].
    { apply elem_of_app in Hq as [Hq|Hq]; apply elem_of_app; [by left|right; by right]. }
    pose proof (Hk q Hql Hqp) as Hq'. split; [done|]. by rewrite (shrunk_bucket _ _ _ _ _ Hs Hq').
  - rewrite !length_app in *. simpl in Hl. lia.
Qed.

Lemma invalidate_step s LS k p l r :
  walking s LS k (p :: l) ->
  exists s1 r1 LS1 k1,
    (if pg_ctx (pg s p) =? c then
       let '(s, e) := if pg_dirty (pg s p) then page_flush_one s p else (s, 0) in
       if e <? 0 then (s, -1) else (upd_pg (lru_unlink (hash_remove s p) p) p (set_ctx 0), r)
     else (s, r)) = (s1, r1) /\
    walking s1 LS1 k1 l /\ shrunk s LS s1 LS1 /\ (r1 = r \/ r1 = -1) /\ (writes_ok -> r1 = r) /\
    (r1 <> -1 -> listed LS1 p -> pg_ctx (pg s1 p) <> c).
Proof.
  intros Hw. destruct (Z.eqb_spec (pg_ctx (pg s p)) c) as [Hc|Hc].
  2: { exists s, r, LS, (k ++ [p]). split; [done|]. split; [by apply walking_keep|]. split; [by intros q Hq|].
       split; [by left|]. done. }
  assert (Hp : listed LS p) by (apply (wk_in _ _ _ _ Hw), elem_of_app; right; left).
  assert (Hclean : exists s0 e, (if pg_dirty (pg s p) then page_flush_one s p else (s, 0)) = (s0, e) /\
    walking s0 LS k (p :: l) /\ flushed s s0 /\ ((e = 0 /\ pg_dirty (pg s0 p) = false) \/ (e = -1 /\ ~ writes_ok))).
  { destruct (pg_dirty (pg s p)) eqn:Hd.
    - destruct (page_flush_one_spec s LS None V p (wk_rep _ _ _ _ Hw) Hp) as (R1 & F1 & _ & Hr).
      destruct (page_flush_one s p) as [s0 e]. cbn [fst snd] in *. exists s0, e. split; [done|].
      split; [by eapply walking_flushed|]. split; [done|]. tauto.
    - exists s, 0. split; [done|]. split; [done|]. split; [done|]. by left. }
  destruct Hclean as (s0 & e & -> & Hw0 & F0 & [[-> Hd0]|[-> Hno]]).
  - change (0 <? 0) with false. cbv iota. destruct (walking_forget s0 LS k p l Hw0 Hd0) as (LS1 & Hw1 & Hs1 & Hn1).
    exists (forget s0 p), r, LS1, k. split; [done|]. split; [done|].
    split; [eapply shrunk_trans; [by apply flushed_shrunk|exact Hs1]|]. split; [by left|]. done.
  - change (-1 <? 0) with true. cbv iota. exists s0, (-1), LS, (k ++ [p]). split; [done|].
    split; [by apply walking_keep|]. split; [by apply flushed_shrunk|]. split; [by right|]. done.
Qed.

Lemma invalidate_chain_spec : forall fuel l k s LS q r,
  walking s LS k l -> q = head l -> (length l < fuel)%nat ->
  let '(s', r') := invalidate_chain fuel s c q r in
  exists LS', rep s' LS' None V /\ shrunk s LS s' LS' /\ (r' = r \/ r' = -1) /\ (writes_ok -> r' = r) /\
    (r' <> -1 -> forall p, p ∈ l -> listed LS' p -> pg_ctx (pg s' p) <> c).
Proof.
  induction fuel as [|fuel IH]; intros l k s LS q r Hw -> Hf; [lia|]. destruct l as [|p l].
  { simpl. exists LS. split; [apply Hw|]. split; [by intros q Hq|]. split; [by left|]. split; [done|]. set_solver. }
  cbn [head invalidate_chain].
  assert (Hnx : pg_next (pg s p) = head l).
  { pose proof (chain_suffix _ _ _ _ (wk_chain _ _ _ _ Hw)) as [_ Hc]. by destruct l; [|destruct Hc as [-> _]]. }
  rewrite Hnx.
  destruct (invalidate_step s LS k p l r Hw) as (s1 & r1 & LS1 & k1 & -> & Hw1 & Hs1 & Hr1 & Ho1 & Hp1).
  specialize (IH l k1 s1 LS1 (head l) r1 Hw1 eq_refl ltac:(simpl in Hf; lia)).
  destruct (invalidate_chain fuel s1 c (head l) r1) as [s' r'].
  destruct IH as (LS' & R' & Hs' & Hr' & Ho' & Hp'). exists LS'. split; [done|].
  split; [by eapply shrunk_trans|]. split; [destruct Hr' as [->| ->]; auto|]. split; [intros W; rewrite (Ho' W); auto|].
  intros Hne x Hx Hlx. apply elem_of_cons in Hx as [->|Hx]; [|by apply Hp'].
  destruct (Hs' p Hlx) as (Hl1 & -> & _). apply Hp1; [|done]. destruct Hr' as [<-|]; [done|congruence].
Qed.

End Bucket.

Lemma invalidate_list_spec V c : forall (bs : list Z) s LS r,
  rep s LS None V ->
  let '(s', r') := foldl (fun '(s, r) b => invalidate_chain pc_fuel s c (g_bucket s !! b) r) (s, r) bs in
  exists LS', rep s' LS' None V /\ shrunk s LS s' LS' /\ (r' = r \/ r' = -1) /\ (writes_ok -> r' = r) /\
    (r' <> -1 -> forall p, listed LS' p -> key_bucket s' p ∈ bs -> pg_ctx (pg s' p) <> c).
Proof.
  induction bs as [|b bs IH]; intros s LS r R; cbn [foldl].
  { exists LS. split; [done|]. split; [by intros q Hq|]. split; [by left|]. split; [done|]. set_solver. }
  destruct (rp_hashed _ _ _ _ R) as [CH H]. destruct (H b) as (Hc & Hn & Hm).
  assert (Hlen : (length (CH b) < pc_fuel)%nat) by (eapply bucket_len; [eapply listed_pool, R|done|exact Hm]).
  assert (Hw : walking V b s LS [] (CH b)) by (split; auto; intros p Hp; by apply Hm).
  assert (Hh : g_bucket s !! b = head (CH b)).
  { destruct (CH b); [exact Hc|by destruct Hc as [-> _]]. }
  pose proof (invalidate_chain_spec V c b pc_fuel (CH b) [] s LS _ r Hw Hh Hlen) as H1.
  destruct (invalidate_chain pc_fuel s c (g_bucket s !! b) r) as [s1 r1]. destruct H1 as (LS1 & R1 & Hs1 & Hr1 & Ho1 & Hp1).
  specialize (IH s1 LS1 r1 R1). destruct (foldl _ (s1, r1) bs) as [s' r'].
  destruct IH as (LS' & R' & Hs' & Hr' & Ho' & Hp'). exists LS'. split; [done|].
  split; [by eapply shrunk_trans|]. split; [destruct Hr' as [->| ->]; auto|]. split; [intros W; rewrite (Ho' W); auto|].
  intros Hne p Hp Hb. apply elem_of_cons in Hb as [Hb|Hb]; [|by apply Hp'].
  destruct (Hs' p Hp) as (Hl1 & -> & _). apply Hp1; [destruct Hr' as [<-|]; [done|congruence]| |done].
  apply Hm. destruct (Hs1 p Hl1) as (Hl0 & _). split; [done|]. rewrite <- Hb.
  by rewrite (shrunk_bucket _ _ _ _ _ Hs' Hp), (shrunk_bucket _ _ _ _ _ Hs1 Hl1).
Qed.

Lemma invalidate_spec s LS V c :
  rep s LS None V ->
  let '(s', r) := pagecache_invalidate s c in
  exists LS', rep s' LS' None V /\ (r = 0 \/ r = -1) /\ (writes_ok -> r = 0) /\
    (r = 0 -> forall p, listed LS' p -> pg_ctx (pg s' p) <> c).
Proof.
  intros R. unfold pagecache_invalidate. pose proof (invalidate_list_spec V c (seqZ 0 PC_BUCKETS) s LS 0 R) as H.
  destruct (foldl _ _ _) as [s' r]. destruct H as (LS' & R' & _ & Hr & Ho & Hp). exists LS'.
  split; [done|]. split; [done|]. split; [done|]. intros -> p Hl. apply Hp; [done|done|].
  apply elem_of_seqZ. pose proof (bucket_range (pg_ctx (pg s' p)) (pg_off (pg s' p))). unfold key_bucket. lia.
Qed.

End Flush.
