(* ===== verification/PageCacheSafe.v ===== *)
(** * What the page cache promises

    The cache refines a set of devices without a cache: whatever the drivers do,
    a run of operations changes the content that readers see only by the bytes
    the writes reported.  Reads return that content, a successful flush or
    invalidate puts it on the device; and the two ways in which the code falls
    short of this are shown by runs. *)
From S2P Require Import Prelude Mem Kstring Pmm PageCache PageCacheLinks PageCacheInv PageCacheOps.
From S2P Require Import PageCacheFetch PageCacheWrite PageCacheFlush.
#[local] Open Scope Z_scope.

(** ** Runs *)

Inductive pc_op :=
| OpRead (ctx rd off len : Z)
| OpWrite (ctx rd wr off : Z) (buf : list Z)
| OpFlushCtx (ctx : Z)
| OpFlushAll
| OpInvalidate (ctx : Z).

(** The ranges a caller can name: they end within 64 bits, their length is an
    [int], and a write comes with a read function. *)
Definition op_ok (op : pc_op) : bool :=
  match op with
  | OpRead _ _ off len => (0 <=? off) && (0 <=? len) && (off + len <=? 2 ^ 64) && (len <? 2 ^ 31)
  | OpWrite _ rd _ off buf =>
      negb (rd =? 0) && (0 <=? off) && (off + alen buf <=? 2 ^ 64) && (alen buf <? 2 ^ 31)
  | _ => true
  end.

(** The devices without a cache: a write stores the bytes it reports. *)
Definition spec_step (L : Z -> Z -> Z) (op : pc_op) (r : Z) : Z -> Z -> Z :=
  match op with
  | OpWrite c _ _ off buf => written L c off (Z.max 0 r) buf
  | _ => L
  end.

Fixpoint spec_run (L : Z -> Z -> Z) (ops : list pc_op) (rs : list Z) : Z -> Z -> Z :=
  match ops, rs with
  | op :: ops, r :: rs => spec_run (spec_step L op r) ops rs
  | _, _ => L
  end.

Section Safe.
Context {dev : Type} {B : BlockDev dev}.
Implicit Types (s : pcst dev).

Definition pc_exec s (op : pc_op) : res (pcst dev * Z) :=
  match op with
  | OpRead c rd off len => Ok (pagecache_read s c rd off len).1
  | OpWrite c rd wr off buf => pagecache_write s c rd wr off buf
  | OpFlushCtx c => Ok (pagecache_flush_ctx s c)
  | OpFlushAll => Ok (pagecache_flush_all s)
  | OpInvalidate c => Ok (pagecache_invalidate s c)
  end.

Fixpoint pc_run s (ops : list pc_op) : res (pcst dev * list Z) :=
  match ops with
  | [] => Ok (s, [])
  | op :: ops => do (s, r) <- pc_exec s op; do (s, rs) <- pc_run s ops; Ok (s, r :: rs)
  end.

(** The inactive pages and unused descriptors, counting the pages that the
    balancing step would demote. *)
Definition reclaimable s : Z :=
  PC_PAGES - g_used s +
  (if (g_used s =? PC_PAGES) && (lru_n (g_inact s) <? lru_n (g_act s) / 2)
   then lru_n (g_inact s) + lru_n (g_act s) / 2 else lru_n (g_inact s)).

(** Descriptors that hold a page or can still get one. *)
Definition usable_slots s : Z := PC_PAGES - g_used s + lru_n (g_act s) + lru_n (g_inact s).

Lemma reclaimable_slack s LS : linked s LS -> reclaimable s = slack s LS.
Proof.
  intros Hl. pose proof (lk_len _ _ Hl true) as H1. pose proof (lk_len _ _ Hl false) as H2. simpl in H1, H2.
  unfold reclaimable, slack. rewrite H1, H2. destruct (Z.eqb_spec (g_used s) PC_PAGES) as [E|]; [|done].
  rewrite moved_tip_length. done.
Qed.

Context {OK : BlockDevOk dev}.

Lemma init_inv s :
  pmm_wf (pc_pmm s) -> bit_test (g_bitmap (pc_pmm s)) 0 = true -> pc_inv (pagecache_init s).
Proof.
  intros W L. exists (fun _ => []), (dev_at (pc_dev s)).
  assert (Hno : forall p, ~ listed (fun _ => []) p) by (intros p [H|H]; by apply not_elem_of_nil in H).
  split; try (intros p Hp; by destruct (Hno p)); try done.
  - split; try done; try (intros w p Hp; by apply not_elem_of_nil in Hp); intros []; done || apply NoDup_nil_2.
  - exists (fun _ => []). intros b. cbn [pagecache_init g_bucket]. rewrite lookup_empty. split; [done|].
    split; [apply NoDup_nil_2|]. intros p. split; [by intros Hp%not_elem_of_nil|]. intros [Hp _]. by destruct (Hno p).
  - intros p q Hp. by destruct (Hno p).
  - split; [done|done| |]; simpl; intros; lia.
  - intros p i Hp. by destruct (Hno p).
Qed.

Lemma read_spec s LS V c rd off len :
  rep s LS None V -> 0 <= off -> 0 <= len -> off + len <= 2 ^ 64 -> len < 2 ^ 31 ->
  exists LS', rep (pagecache_read s c rd off len).1.1 LS' None V.
Proof.
  intros R Ho Hl He Hn. unfold pagecache_read. destruct (_ || _); [by exists LS|].
  pose proof (pages_left_of off len Ho Hl) as Hp.
  pose proof (read_from_spec (Z.to_nat (pages_of len)) s LS V c rd off 0 len [] R Ho ltac:(lia) He Hn ltac:(lia)) as H.
  destruct (read_from _ _ _ _ _ _ _ _) as [[s' r] out]. destruct H as (LS' & R' & _). by exists LS'.
Qed.

Lemma exec_spec s LS V op :
  rep s LS None V -> op_ok op = true ->
  exists s' r LS', pc_exec s op = Ok (s', r) /\ rep s' LS' None (spec_step V op r).
Proof.
  intros R Hop. destruct op as [c rd off len|c rd wr off buf|c| |c]; cbn [pc_exec spec_step].
  - cbn [op_ok] in Hop. destruct (read_spec s LS V c rd off len R) as [LS' R']; [lia..|].
    destruct (pagecache_read s c rd off len) as [[s' r] out]. by exists s', r, LS'.
  - cbn [op_ok] in Hop. unfold pagecache_write.
    assert (R0 : rep s LS None (written V c off 0 buf)).
    { eapply rep_view; [|exact R]. intros x y. unfold written. rewrite Z.add_0_r.
      destruct (Z.leb_spec off y), (Z.ltb_spec y off); rewrite ?andb_false_r; (done || lia). }
    destruct (_ || _) eqn:Hn. { exists s, (-1), LS. split; [done|]. exact R0. }
    pose proof (pages_left_of off (alen buf) ltac:(lia) ltac:(unfold alen; lia)) as Hp.
    pose proof (write_from_spec (Z.to_nat (pages_of (alen buf))) s LS V c rd wr off 0 buf R0 ltac:(lia)
      ltac:(lia) ltac:(unfold alen; lia) ltac:(lia) ltac:(lia) ltac:(lia)) as H.
    destruct (write_from _ _ _ _ _ _ _ _) as [[s' r]|]; [|lia]. destruct H as (LS' & R' & _). by exists s', r, LS'.
  - pose proof (flush_buckets_spec (fun x => pg_ctx x =? c) ltac:(done) s LS V R) as H. unfold pagecache_flush_ctx.
    destruct (flush_buckets _ s) as [s' r]. destruct H as (R' & _). by exists s', r, LS.
  - pose proof (flush_buckets_spec (fun _ => true) ltac:(done) s LS V R) as H. unfold pagecache_flush_all.
    destruct (flush_buckets _ s) as [s' r]. destruct H as (R' & _). by exists s', r, LS.
  - pose proof (invalidate_spec s LS V c R) as H. destruct (pagecache_invalidate s c) as [s' r].
    destruct H as (LS' & R' & _). by exists s', r, LS'.
Qed.

Lemma run_spec : forall ops s LS V,
  rep s LS None V -> forallb op_ok ops = true ->
  exists s' rs LS', pc_run s ops = Ok (s', rs) /\ length rs = length ops /\ rep s' LS' None (spec_run V ops rs).
Proof.
  induction ops as [|op ops IH]; intros s LS V R Hok; cbn [pc_run].
  - by exists s, [], LS.
  - cbn [forallb] in Hok. apply andb_true_iff in Hok as [H1 H2].
    destruct (exec_spec s LS V op R H1) as (s1 & r & LS1 & -> & R1). cbn [rbind].
    destruct (IH s1 LS1 _ R1 H2) as (s' & rs & LS' & -> & Hl & R'). cbn [rbind].
    exists s', (r :: rs), LS'. split; [done|]. split; [simpl; by rewrite Hl|done].
Qed.

(** C11: The write-back cache never loses or invents a byte.  For every sequence
    of reads, writes, flushes and invalidations, whatever reads and writes of the
    drivers fail on the way, the run completes, keeps the invariant, and the
    content a reader must see (the cached page, else the device) changes exactly
    by the bytes each write reported as written: readahead, promotion, eviction
    with write-back, flushes and invalidations leave it alone. *)
Theorem pagecache_refines (s : pcst dev) (ops : list pc_op) :
  pc_inv s -> forallb op_ok ops = true ->
  exists s' rs, pc_run s ops = Ok (s', rs) /\ length rs = length ops /\ pc_inv s' /\
    forall c o, content s' c o = spec_run (content s) ops rs c o.
Proof.
  intros H Hok. destruct (inv_content s H) as [LS R].
  destruct (run_spec ops s LS _ R Hok) as (s' & rs & LS' & E & Hl & R').
  exists s', rs. split; [done|]. split; [done|]. split; [by exists LS', (spec_run (content s) ops rs)|].
  intros c o. by eapply rep_content.
Qed.

(** C16: [pagecache_read] returns the content.  When no driver write fails and
    the pool can reclaim more than a readahead window and two descriptors per
    page of the request, a read either delivers exactly the logical bytes of the
    range and its length, or returns -1, and the latter only if a driver read
    fails or a descriptor has no frame. *)
Theorem pagecache_read_content (s : pcst dev) (c rd off len : Z) :
  pc_inv s -> c <> 0 -> rd <> 0 -> 0 <= off -> 0 <= len < 2 ^ 31 -> off + len <= 2 ^ 64 ->
  writes_ok -> RA_MAX + 2 * pages_of len <= reclaimable s ->
  let '(_, r, out) := pagecache_read s c rd off len in
  (r = len /\ out = view_bytes (content s) c off len) \/ (r = -1 /\ ~ (reads_ok /\ supply s)).
Proof.
  intros H Hc Hr Ho Hl He W Hroom. destruct (inv_content s H) as [LS R].
  rewrite (reclaimable_slack s LS (rp_linked _ _ _ _ R)) in Hroom.
  unfold pagecache_read. destruct (Z.eqb_spec c 0), (Z.eqb_spec rd 0); try done. simpl.
  pose proof (pages_left_of off len Ho ltac:(lia)) as Hp.
  pose proof (read_from_spec (Z.to_nat (pages_of len)) s LS _ c rd off 0 len [] R Ho ltac:(lia) He ltac:(lia) ltac:(lia)) as Hs.
  destruct (read_from _ _ _ _ _ _ _ _) as [[s' r] out]. destruct Hs as (LS' & _ & Hs).
  rewrite Z.add_0_r, Z.sub_0_r in Hs. apply Hs; [done|lia].
Qed.

(** Where no dirty page of the device is left, the device holds the content. *)
Lemma rep_clean_dev s LS V c :
  rep s LS None V -> (forall p, listed LS p -> pg_ctx (pg s p) = c -> pg_dirty (pg s p) = false) ->
  forall o, dev_at (pc_dev s) c o = V c o.
Proof.
  intros R H o. apply (rp_dev _ _ _ _ R). intros p Hp Hd [Hc _]. by rewrite H in Hd.
Qed.

(** C24: A flush or invalidate that returns 0 is durable: after
    [pagecache_flush_ctx] and [pagecache_invalidate] the device [c], after
    [pagecache_flush_all] every device, holds the content readers saw, and
    [pagecache_invalidate] has left no page of [c] in the cache.  Each returns 0
    or -1, and 0 whenever no driver write fails. *)
Theorem pagecache_sync_durable (s : pcst dev) (c : Z) :
  pc_inv s ->
  (let '(s', r) := pagecache_flush_ctx s c in (r = 0 \/ r = -1) /\ (writes_ok -> r = 0) /\
     (r = 0 -> forall o, dev_at (pc_dev s') c o = content s c o)) /\
  (let '(s', r) := pagecache_flush_all s in (r = 0 \/ r = -1) /\ (writes_ok -> r = 0) /\
     (r = 0 -> forall x o, dev_at (pc_dev s') x o = content s x o)) /\
  (let '(s', r) := pagecache_invalidate s c in (r = 0 \/ r = -1) /\ (writes_ok -> r = 0) /\
     (r = 0 -> forall o, dev_at (pc_dev s') c o = content s c o /\ hash_find s' c o = None)).
Proof.
  intros H. destruct (inv_content s H) as [LS R]. split; [|split].
  - pose proof (flush_buckets_spec (fun x => pg_ctx x =? c) ltac:(done) s LS _ R) as Hf. unfold pagecache_flush_ctx.
    destruct (flush_buckets _ s) as [s' r]. destruct Hf as (R' & F & Hr & Hw & Hd). split; [done|]. split; [done|].
    intros E. apply (rep_clean_dev s' LS _ c R'). intros p Hp Hc. apply (Hd E p Hp).
    destruct (flushed_pg _ _ p F) as (_ & _ & _ & Ec & _). rewrite <- Ec, Hc. apply Z.eqb_refl.
  - pose proof (flush_buckets_spec (fun _ => true) ltac:(done) s LS _ R) as Hf. unfold pagecache_flush_all.
    destruct (flush_buckets _ s) as [s' r]. destruct Hf as (R' & F & Hr & Hw & Hd). split; [done|]. split; [done|].
    intros E x. apply (rep_clean_dev s' LS _ x R'). intros p Hp _. by apply (Hd E p Hp).
  - pose proof (invalidate_spec s LS _ c R) as Hi. destruct (pagecache_invalidate s c) as [s' r].
    destruct Hi as (LS' & R' & Hr & Hw & Hp). split; [done|]. split; [done|]. intros E o. split.
    + apply (rep_clean_dev s' LS' _ c R'). intros p Hl Hc. by destruct (Hp E p Hl).
    + pose proof (hash_find_spec s' _ c o (rp_hashed _ _ _ _ R') (listed_pool _ _ (rp_linked _ _ _ _ R'))) as Hf.
      destruct (hash_find s' c o) as [p|]; [|done]. destruct Hf as (Hl & Hc & _). by destruct (Hp E p Hl).
Qed.

(** ** Descriptors that never come back *)

Lemma usable_listed s LS : linked s LS -> usable_slots s = PC_PAGES - g_used s + Z.of_nat (length (all LS)).
Proof.
  intros Hl. unfold usable_slots. pose proof (lk_len _ _ Hl true) as H1. pose proof (lk_len _ _ Hl false) as H2.
  simpl in H1, H2. rewrite H1, H2, all_length. lia.
Qed.

Lemma usable_taken s LS s' LS0 p :
  taken s LS s' LS0 p ->
  PC_PAGES - g_used s' + Z.of_nat (length (all LS0)) = PC_PAGES - g_used s + Z.of_nat (length (all LS)) - 1.
Proof.
  intros [Hu Hu' _|p' l1 l2 Hu Hu' _ El _]; [lia|]. rewrite Hu'.
  pose proof (Permutation_length (moved_same LS (tip LS))) as E. rewrite E, !all_length, ls_set_eq, ls_set_ne by done.
  rewrite El, !length_app. simpl. lia.
Qed.

Lemma usable_fetch_fails s LS V c rd o :
  rep s LS None V -> o mod PC_PAGE = 0 -> key_free s LS c o -> writes_ok -> supply s -> 0 < slack s LS ->
  (page_fetch s c rd o).2 = None -> usable_slots (page_fetch s c rd o).1 = usable_slots s - 1.
Proof.
  intros R Ho Hk W Sp Sl Hn. pose proof (page_fetch_spec s LS V c rd o R Ho Hk) as Hf.
  destruct (page_fetch s c rd o) as [s' v]. cbn [fst snd] in *. subst v. destruct Hf as (LS' & M & R' & _).
  rewrite (usable_listed s LS) by apply R. rewrite (usable_listed s' LS') by apply R'.
  destruct M as [LS' St|LS' LS0 p T E _].
  - exfalso. destruct St as [Hu Hu' Hf|Hu Hu' _ Hv]; [unfold supply in Sp; lia|].
    unfold slack in Sl. rewrite Hu, Z.eqb_refl, (Hv W) in Sl. simpl in Sl. lia.
  - rewrite <- (usable_taken _ _ _ _ _ T). unfold all. by rewrite !E.
Qed.

(** With no usable descriptor left nothing can be fetched. *)
Lemma drained_fetch s LS V c rd o :
  rep s LS None V -> usable_slots s = 0 -> hash_find s c o = None /\ (page_fetch s c rd o).2 = None.
Proof.
  intros R Hz. pose proof (rp_linked _ _ _ _ R) as Hl. rewrite (usable_listed s LS Hl) in Hz.
  pose proof (lk_used _ _ Hl) as Hu.
  assert (Hno : forall p, ~ listed LS p).
  { intros p Hp%elem_all. destruct (all LS); [by apply not_elem_of_nil in Hp|simpl in Hz; lia]. }
  split.
  - pose proof (hash_find_spec s _ c o (rp_hashed _ _ _ _ R) (listed_pool _ _ Hl)) as Hf.
    destruct (hash_find s c o) as [p|]; [|done]. destruct Hf as [Hp _]. by destruct (Hno p).
  - unfold page_fetch, page_alloc. pose proof (page_take_spec s LS V R) as Ht.
    destruct (page_take s) as [s1 [p|]]; [|done]. exfalso. destruct Ht as (LS' & T & _).
    destruct T as [Hlt _ _|p' l1 l2 _ _ _ El _]; [lia|]. apply (Hno p').
    rewrite <- (same_listed LS (moved LS (tip LS))) by apply moved_same. right. rewrite El.
    apply elem_of_app. right. left.
Qed.

Lemma drained_read s c rd off len :
  pc_inv s -> usable_slots s = 0 -> 0 < len -> (pagecache_read s c rd off len).1.2 = -1.
Proof.
  intros (LS & V & R) Hz Hlen. unfold pagecache_read. destruct (_ || _); [done|].
  assert (0 < pages_of len) by (unfold pages_of; pose proof (Z.div_pos len PC_PAGE ltac:(lia) ltac:(done)); lia).
  destruct (Z.to_nat (pages_of len)) as [|k] eqn:Ek; [lia|]. cbn [read_from].
  destruct (Z.ltb_spec 0 len); [|lia]. destruct (span off 0 len) as [[poff a] n]. unfold read_page.
  destruct (drained_fetch s LS V c rd poff R Hz) as [-> _].
  destruct (drained_fetch (bump count_miss s) LS V c rd poff (rep_bump _ _ _ _ R) Hz) as [_ Hn].
  destruct (page_fetch _ c rd poff) as [s1 v]. cbn [snd] in Hn. by subst v.
Qed.

(** A failed device read costs the pool a descriptor for good.  A read of an
    uncached page whose driver fails returns -1 and leaves one descriptor fewer
    that holds a page or can get one; and once none is left, every read of any
    device fails although the drivers work. *)
Theorem failed_read_leaks (s : pcst dev) (c rd off len : Z) :
  pc_inv s -> c <> 0 -> rd <> 0 -> 0 <= off -> 0 < len -> off mod PC_PAGE + len <= PC_PAGE -> off + len <= 2 ^ 64 ->
  hash_find s c (off / PC_PAGE * PC_PAGE) = None -> writes_ok -> supply s -> 0 < reclaimable s ->
  (forall d b, (dev_read rd d c (off / PC_PAGE * PC_PAGE) b PC_PAGE).2 < 0) ->
  let '(s', r, _) := pagecache_read s c rd off len in
  r = -1 /\ usable_slots s' = usable_slots s - 1 /\
  (usable_slots s' = 0 -> forall c' rd' off' len', 0 < len' -> (pagecache_read s' c' rd' off' len').1.2 = -1).
Proof.
  intros (LS & V & R) Hc Hrd Ho Hl Hp He Hf W Sp Hr Hbad.
  rewrite (reclaimable_slack s LS (rp_linked _ _ _ _ R)) in Hr.
  pose proof (page_fetch_spec _ LS V c rd _ (rep_bump count_miss s LS V R) (page_aligned (off / PC_PAGE)) (find_free _ _ _ _ _ R Hf)) as Hs.
  pose proof (usable_fetch_fails (bump count_miss s) LS V c rd _ (rep_bump count_miss s LS V R)
    (page_aligned (off / PC_PAGE)) (find_free _ _ _ _ _ R Hf) W Sp Hr) as Hu.
  assert (Hnone : (page_fetch (bump count_miss s) c rd (off / PC_PAGE * PC_PAGE)).2 = None).
  { unfold page_fetch. destruct (page_alloc _ _ _) as [s1 [p|]]; [|done].
    pose proof (Hbad (pc_dev s1) (pg_data (pg s1 p))) as Hb. destruct (dev_read _ _ _ _ _ _) as [[d b] r]. simpl in Hb.
    by rewrite (proj2 (Z.ltb_lt r 0)). }
  specialize (Hu Hnone). unfold pagecache_read. destruct (Z.eqb_spec c 0), (Z.eqb_spec rd 0); try done. cbn [orb].
  assert (0 < pages_of len) by (unfold pages_of; pose proof (Z.div_pos len PC_PAGE ltac:(lia) ltac:(done)); lia).
  destruct (Z.to_nat (pages_of len)) as [|k] eqn:Ek; [lia|]. cbn [read_from]. destruct (Z.ltb_spec 0 len); [|lia].
  destruct (span_spec off 0 len Ho ltac:(lia) He) as (m & -> & _). rewrite Z.add_0_r. unfold read_page. rewrite Hf.
  destruct (page_fetch _ c rd _) as [s1 v]. cbn [fst snd] in *. subst v. split; [done|]. split; [exact Hu|].
  destruct Hs as (LS' & _ & R' & _). intros Hz c' rd' off' len' Hl'. apply drained_read; [|done|done]. by exists LS', V.
Qed.

End Safe.

(** ** Devices to run on *)

(** A store of bytes per device whose reads fail where [bad] says so and whose
    writes succeed. *)
Definition store (bad : Z -> Z -> bool) : Type := Z -> Z -> Z.

#[export] Instance store_dev (bad : Z -> Z -> bool) : BlockDev (store bad) := {
  dev_read _ d c o b n :=
    if bad c o then (d, b, -1) else (d, fun i => if (0 <=? i) && (i <? n) then d c (o + i) else b i, n);
  dev_write _ d c o b n :=
    (fun x y => if (x =? c) && (o <=? y) && (y <? o + n) then b (y - o) else d x y, 0);
  dev_at d := d
}.

#[export] Instance store_ok bad : BlockDevOk (store bad).
Proof.
  split; simpl.
  - intros. by destruct (bad c o).
  - intros f d c o b n i Hr Hi. destruct (bad c o); [simpl in Hr; lia|]. simpl.
    destruct (Z.leb_spec 0 i), (Z.ltb_spec i n); (lia || done).
  - intros f d c o b n x y Hn. destruct (Z.eqb_spec x c), (Z.leb_spec o y), (Z.ltb_spec y (o + n)); simpl; try done.
    exfalso. apply Hn. done.
  - intros f d c o b n i _ Hi. rewrite Z.eqb_refl.
    destruct (Z.leb_spec o (o + i)), (Z.ltb_spec (o + i) (o + n)); try lia. simpl. f_equal. lia.
Qed.

Lemma store_writes_ok bad : writes_ok (dev := store bad).
Proof. intros f d c o b n. simpl. lia. Qed.

(** A cache at boot, on devices whose page [k] is filled with the byte [k]. *)
Definition boot (bad : Z -> Z -> bool) (m : pmm) : pcst (store bad) :=
  pagecache_init (Pcst ∅ 0 ∅ lru0 lru0 0 stats0 ∅ 0 m (fun _ o => (o / PC_PAGE) mod 256)).
Definition never (c o : Z) : bool := false.

Lemma boot_inv bad : pc_inv (boot bad demo_pmm).
Proof. apply init_inv; [apply demo_pmm_wf|vm_compute; reflexivity]. Qed.

Definition demo_ops : list pc_op :=
  [OpWrite 7 1 2 4090 [1; 2; 3; 4; 5; 6; 7; 8]; OpRead 7 1 4092 4; OpFlushCtx 7; OpInvalidate 7; OpRead 7 1 4092 4].

Lemma pagecache_refines_witness :
  forallb op_ok demo_ops = true /\
  exists s' rs, pc_run (boot never demo_pmm) demo_ops = Ok (s', rs) /\ length rs = 5%nat /\ pc_inv s' /\
    forall c o, content s' c o = spec_run (content (boot never demo_pmm)) demo_ops rs c o.
Proof.
  split; [vm_compute; reflexivity|].
  apply (pagecache_refines (boot never demo_pmm) demo_ops); [apply boot_inv|vm_compute; reflexivity].
Defined.

Lemma pagecache_read_content_witness :
  let '(_, r, out) := pagecache_read (boot never demo_pmm) 7 1 4094 4 in
  (r = 4 /\ out = view_bytes (content (boot never demo_pmm)) 7 4094 4) \/
  (r = -1 /\ ~ (reads_ok (dev := store never) /\ supply (boot never demo_pmm))).
Proof.
  apply (pagecache_read_content (boot never demo_pmm) 7 1 4094 4);
    [apply boot_inv|lia|lia|lia|lia|lia|apply store_writes_ok|vm_compute; congruence].
Defined.

(** A cache with two dirty pages of device 7. *)
Definition dirty_demo : pcst (store never) :=
  match pc_exec (boot never demo_pmm) (OpWrite 7 1 2 4090 [1; 2; 3; 4; 5; 6; 7; 8]) with
  | Ok (s, _) => s
  | Panic => boot never demo_pmm
  end.

Lemma dirty_demo_inv : pc_inv dirty_demo /\ g_dirty_n dirty_demo = 2.
Proof.
  split; [|vm_compute; reflexivity]. unfold dirty_demo. destruct (boot_inv never) as (LS & V & R).
  destruct (exec_spec _ LS V (OpWrite 7 1 2 4090 [1; 2; 3; 4; 5; 6; 7; 8]) R) as (s' & r & LS' & -> & R');
    [vm_compute; reflexivity|]. by eexists _, _.
Qed.

Lemma pagecache_sync_durable_witness :
  let '(s', r) := pagecache_flush_ctx dirty_demo 7 in
  (r = 0 \/ r = -1) /\ (writes_ok (dev := store never) -> r = 0) /\
  (r = 0 -> forall o, dev_at (pc_dev s') 7 o = content dirty_demo 7 o).
Proof.
  destruct dirty_demo_inv as [Hi _]. destruct (pagecache_sync_durable dirty_demo 7 Hi) as [H _]. exact H.
Defined.

(** A device whose first page cannot be read. *)
Definition page0_bad (c o : Z) : bool := o =? 0.

(** [8 * (k + 1)] frames, the first in use. *)
Definition frames_pmm (k : nat) : pmm :=
  Pmm (1 :: repeat 0 k) (Z.of_nat k + 1) (8 * (Z.of_nat k + 1)) (8 * (Z.of_nat k + 1) - 1) [] 0 1.

Lemma frames_pmm_test k f : 0 <= f -> bit_test (1 :: repeat 0 k) f = (f =? 0).
Proof.
  intros Hf. rewrite bit_test_testbit. pose proof (Z.div_pos f 8 Hf ltac:(lia)).
  destruct (Z.eq_dec (f / 8) 0) as [E|E].
  - rewrite E. change (aget 0 (1 :: repeat 0 k) 0) with (2 ^ 0). rewrite Z.pow2_bits_eqb by lia.
    pose proof (Z.div_mod f 8 ltac:(lia)). destruct (Z.eqb_spec 0 (f mod 8)), (Z.eqb_spec f 0); lia.
  - assert (aget 0 (1 :: repeat 0 k) (f / 8) = 0) as ->.
    { unfold aget. destruct (Z.ltb_spec (f / 8) 0); [done|]. destruct (Z.to_nat (f / 8)) as [|j] eqn:Ej; [lia|].
      simpl. destruct (Nat.lt_ge_cases j k); [by rewrite nth_repeat|].
      apply nth_overflow. rewrite repeat_length. lia. }
    rewrite Z.testbit_0_l. symmetry. apply Z.eqb_neq. intros ->. done.
Qed.

Lemma frames_pmm_clear k n : nclear (1 :: repeat 0 k) (S n) = Z.of_nat n.
Proof.
  induction n as [|n IH]; [done|]. change (nclear (1 :: repeat 0 k) (S (S n))) with
    (nclear (1 :: repeat 0 k) (S n) + (if bit_test (1 :: repeat 0 k) (Z.of_nat (S n)) then 0 else 1)).
  rewrite IH, frames_pmm_test by lia. destruct (Z.eqb_spec (Z.of_nat (S n)) 0); lia.
Qed.

Lemma frames_pmm_wf k : Z.of_nat k < 2 ^ 40 -> pmm_wf (frames_pmm k).
Proof.
  intros Hk. split; cbn [frames_pmm g_total g_bitmap g_free g_next_hint].
  - lia.
  - unfold alen. simpl length. rewrite repeat_length. apply Z.div_unique with 7; lia.
  - constructor; [lia|]. apply Forall_forall. intros x Hx%list_elem_of_In%repeat_spec. lia.
  - replace (Z.to_nat (8 * (Z.of_nat k + 1))) with (S (Z.to_nat (8 * (Z.of_nat k + 1) - 1))) by lia.
    rewrite frames_pmm_clear. lia.
  - lia.
Qed.

Lemma big_boot_inv bad : pc_inv (boot bad (frames_pmm 599)).
Proof. apply init_inv; [apply frames_pmm_wf; lia|]. by apply (frames_pmm_test 599 0). Qed.

Lemma failed_read_leaks_witness :
  let '(s', r, _) := pagecache_read (boot page0_bad (frames_pmm 599)) 7 1 0 16 in
  r = -1 /\ usable_slots s' = 4095.
Proof.
  destruct (pagecache_read (boot page0_bad (frames_pmm 599)) 7 1 0 16) as [[s' r] out] eqn:E.
  pose proof (failed_read_leaks (boot page0_bad (frames_pmm 599)) 7 1 0 16) as H. rewrite E in H.
  destruct H as (Hr & Hu & _); [apply big_boot_inv|lia|lia|lia|lia|vm_compute; congruence|lia|vm_compute; reflexivity
    |apply store_writes_ok|vm_compute; congruence|vm_compute; reflexivity|intros d b; vm_compute; reflexivity|].
  split; [exact Hr|]. rewrite Hu. vm_compute. reflexivity.
Defined.

(** ** The page that readahead takes back *)

(** [n] pages of device 77, each read twice so that it is active. *)
Definition fill_active (n : Z) (s : pcst (store never)) : pcst (store never) :=
  foldl (fun s i => (pagecache_read (pagecache_read s 77 1 ((3 * i + 5) * PC_PAGE) 1).1.1 77 1 ((3 * i + 5) * PC_PAGE) 1).1.1)
    s (seqZ 0 n).

(** A read can return another page's bytes.  When all descriptors but one
    hold active pages, the first read of a device takes the last descriptor, the
    readahead it starts finds that page at the head of the inactive list and
    reuses it for the next page before the bytes are copied: the read reports
    success and delivers a byte of page 1 where the content of page 0 is asked
    for.  No driver call fails in this run. *)
Theorem readahead_recycles_page :
  let s := fill_active 4095 (boot never (frames_pmm 599)) in
  g_used s = 4095 /\ lru_n (g_act s) = 4095 /\ reclaimable s = 1 /\ content s 99 0 = 0 /\
  (pagecache_read s 99 1 0 1).1.2 = 1 /\ (pagecache_read s 99 1 0 1).2 = [1].
Proof. vm_compute. repeat split. Qed.

(** Invalidating a device takes its pages out of the pool for good: after one
    read of device 7 (a page and two prefetched ones) and an invalidate that
    returns 0, three descriptors are neither on a list nor unused. *)
Theorem invalidate_leaks :
  let s := (pagecache_read (boot never (frames_pmm 599)) 7 1 0 16).1.1 in
  usable_slots s = 4096 /\ (pagecache_invalidate s 7).2 = 0 /\
  usable_slots (pagecache_invalidate s 7).1 = 4093.
Proof. vm_compute. repeat split. Qed.
