(* ===== verification/Heap.v ===== *)
(** * mm/heap.c: the kernel heap (kmalloc / kfree)

    Headers and footers live in byte memory exactly where heap.c puts them:
    a block at [h] has its size at [h], its free flag at [h + 8], the magic at
    [h + 16], the free-list links at [h + 24] and [h + 32], and its footer in
    the last eight bytes of the block.  The free-list walk of [kmalloc] takes
    as fuel the largest number of blocks the region can hold. *)
From S2P Require Import Prelude Mem Kstring Pmm.
#[local] Open Scope Z_scope.

Definition KHEAP_MIN_BLOCK := 48.
Definition KHEAP_ALIGN := 16.
Definition KHEAP_MAGIC := 1263027521. (* 0x4B484541 *)
Definition HDR_SIZE := 40.
Definition FOOT_SIZE := 8.

Record heap := Heap {
  hm : mem;
  g_base : Z;
  g_size : Z;
  g_free_head : Z
}.

Definition with_mem (hp : heap) (m : mem) : heap := Heap m (g_base hp) (g_size hp) (g_free_head hp).

(** ** Header and footer access *)

Definition h_size (m : mem) (h : Z) : Z := ld64 m h.
Definition h_free (m : mem) (h : Z) : Z := ld64 m (h + 8).
Definition h_magic (m : mem) (h : Z) : Z := ld32 m (h + 16).
Definition h_prev (m : mem) (h : Z) : Z := ld64 m (h + 24).
Definition h_next (m : mem) (h : Z) : Z := ld64 m (h + 32).

Definition footer_of (m : mem) (h : Z) : Z := h + h_size m h - FOOT_SIZE.
Definition set_footer (m : mem) (h : Z) : mem := st64 m (footer_of m h) (h_size m h).
Definition block_after (m : mem) (h : Z) : Z := h + h_size m h.

Definition align_up (v a : Z) : Z := Z.land (u64 (v + a - 1)) (not64 (a - 1)).

(** ** The free list *)

Definition free_unlink (hp : heap) (h : Z) : heap :=
  let m := hm hp in
  let '(m1, head) :=
    if negb (h_prev m h =? 0)
    then (st64 m (h_prev m h + 32) (h_next m h), g_free_head hp)
    else (m, h_next m h) in
  let m2 := if negb (h_next m1 h =? 0) then st64 m1 (h_next m1 h + 24) (h_prev m1 h) else m1 in
  let m3 := st64 m2 (h + 32) 0 in
  let m4 := st64 m3 (h + 24) 0 in
  Heap m4 (g_base hp) (g_size hp) head.

Definition free_link (hp : heap) (h : Z) : heap :=
  let m1 := st64 (hm hp) (h + 8) 1 in
  let m2 := st64 m1 (h + 24) 0 in
  let m3 := st64 m2 (h + 32) (g_free_head hp) in
  let m4 := if negb (g_free_head hp =? 0) then st64 m3 (g_free_head hp + 24) h else m3 in
  Heap m4 (g_base hp) (g_size hp) h.

(** ** Initialisation *)

Definition kheap_tries : list Z := [16; 8; 4; 2; 1].

(** The first size of [tries] (in MiB) the frame allocator can serve: the
    physical base and the number of bytes. *)
Fixpoint kheap_pick (st : pmm) (tries : list Z) : pmm * option (Z * Z) :=
  match tries with
  | [] => (st, None)
  | t :: rest =>
      let frames := t * 1024 * 1024 / PAGE_SIZE in
      let '(st', phys) := pmm_alloc_contiguous st frames in
      if phys =? 0 then kheap_pick st' rest else (st', Some (phys, frames * PAGE_SIZE))
  end.

(** The writes that turn a region into one free block and a sentinel. *)
Definition kheap_format (m : mem) (base size : Z) : heap :=
  let m0 := memset m base 0 size in
  let m1 := st64 m0 base (u64 (size - HDR_SIZE - FOOT_SIZE)) in
  let m2 := st64 m1 (base + 8) 1 in
  let m3 := st32 m2 (base + 16) KHEAP_MAGIC in
  let m4 := st64 (st64 m3 (base + 24) 0) (base + 32) 0 in
  let m5 := set_footer m4 base in
  let s := base + size - HDR_SIZE in
  let m6 := st64 (st64 m5 s 0) (s + 8) 0 in
  let m7 := st64 (st64 m6 (s + 32) 0) (s + 24) 0 in
  Heap m7 base size base.

Definition kheap_init (hhdm : Z) (st : pmm) (m : mem) : res (pmm * heap) :=
  match kheap_pick st kheap_tries with
  | (st', Some (phys, size)) => Ok (st', kheap_format m (pmm_virt hhdm phys) size)
  | (_, None) => Panic
  end.

(** ** Allocation *)

(** The split-and-take part of [kmalloc] for a block known to be large enough. *)
Definition kmalloc_take (hp : heap) (b need : Z) : heap :=
  let m := hm hp in
  let hp1 :=
    if KHEAP_MIN_BLOCK <=? u64 (h_size m b - need) then
      let rest := b + need in
      let m1 := st64 m rest (u64 (h_size m b - need)) in
      let m2 := st64 m1 (rest + 8) 1 in
      let m3 := st32 m2 (rest + 16) KHEAP_MAGIC in
      let m4 := st64 (st64 m3 (rest + 24) 0) (rest + 32) 0 in
      let m5 := set_footer m4 rest in
      let hp' := free_link (with_mem hp m5) rest in
      with_mem hp' (st64 (hm hp') b need)
    else hp in
  let hp2 := free_unlink hp1 b in
  let m6 := st64 (hm hp2) (b + 8) 0 in
  with_mem hp2 (set_footer m6 b).

Fixpoint kmalloc_walk (fuel : nat) (hp : heap) (need b : Z) : res (heap * Z) :=
  match fuel with
  | O => Panic
  | S k =>
      let m := hm hp in
      if b =? 0 then Ok (hp, 0)
      else if negb (h_magic m b =? KHEAP_MAGIC) || (h_size m b <? KHEAP_MIN_BLOCK)
              || (u64 (g_base hp + g_size hp) <? u64 (b + h_size m b)) then Panic
      else if h_size m b <? need then kmalloc_walk k hp need (h_next m b)
      else Ok (kmalloc_take hp b need, b + HDR_SIZE)
  end.

Definition kmalloc_need (size : Z) : Z :=
  let size := if size =? 0 then 1 else size in
  let need := align_up (u64 (size + HDR_SIZE + FOOT_SIZE)) KHEAP_ALIGN in
  if need <? KHEAP_MIN_BLOCK then KHEAP_MIN_BLOCK else need.

(** One more step than the region has room for blocks. *)
Definition walk_fuel (hp : heap) : nat := S (S (Z.to_nat (g_size hp / KHEAP_MIN_BLOCK))).

Definition kmalloc (hp : heap) (size : Z) : res (heap * Z) :=
  if g_base hp =? 0 then Ok (hp, 0)
  else kmalloc_walk (walk_fuel hp) hp (kmalloc_need size) (g_free_head hp).

(** ** Release *)

Definition kfree_bad (hp : heap) (b : Z) : bool :=
  let m := hm hp in
  negb (h_magic m b =? KHEAP_MAGIC) || negb (h_free m b =? 0) || (h_size m b <? KHEAP_MIN_BLOCK)
  || (u64 (g_base hp + g_size hp) <? u64 (b + h_size m b)).

(** Forward coalescing: the block after [b], when it is free and inside. *)
Definition coalesce_fwd (hp : heap) (b : Z) : heap :=
  let lim := g_base hp + g_size hp in
  let after := block_after (hm hp) b in
  if (lim <=? after) || (lim <? after + HDR_SIZE) then hp
  else if negb (h_free (hm hp) after =? 0) then
    let hp' := free_unlink hp after in
    with_mem hp' (st64 (hm hp') b (u64 (h_size (hm hp') b + h_size (hm hp') after)))
  else hp.

(** Backward coalescing: the merged block's address comes back too. *)
Definition coalesce_bwd (hp : heap) (b : Z) : heap * Z :=
  if g_base hp <? b then
    let before := b - ld64 (hm hp) (b - FOOT_SIZE) in
    if (g_base hp <=? before) && negb (h_free (hm hp) before =? 0) then
      let hp' := free_unlink hp before in
      (with_mem hp' (st64 (hm hp') before (u64 (h_size (hm hp') before + h_size (hm hp') b))), before)
    else (hp, b)
  else (hp, b).

Definition kfree (hp : heap) (p : Z) : res heap :=
  if p =? 0 then Ok hp
  else if p <? 65536 then Panic
  else
    let b := p - HDR_SIZE in
    if kfree_bad hp b then Panic
    else
      let hp1 := coalesce_fwd hp b in
      let '(hp2, b2) := coalesce_bwd hp1 b in
      Ok (free_link (with_mem hp2 (set_footer (hm hp2) b2)) b2).

(** ** Derived operations *)

Definition krealloc (hp : heap) (p size : Z) : res (heap * Z) :=
  if p =? 0 then kmalloc hp size
  else if size =? 0 then do hp' <- kfree hp p; Ok (hp', 0)
  else
    let b := p - HDR_SIZE in
    let oldpay := u64 (h_size (hm hp) b - HDR_SIZE - FOOT_SIZE) in
    do (hp1, np) <- kmalloc hp size;
    if np =? 0 then Ok (hp1, 0)
    else
      let copy := if oldpay <? size then oldpay else size in
      do hp2 <- kfree (with_mem hp1 (memcpy (hm hp1) np p copy)) p;
      Ok (hp2, np).

Definition kzalloc (hp : heap) (size : Z) : res (heap * Z) :=
  do (hp1, p) <- kmalloc hp size;
  Ok (if p =? 0 then hp1 else with_mem hp1 (memset (hm hp1) p 0 size), p).

Definition kcalloc (hp : heap) (n size : Z) : res (heap * Z) := kzalloc hp (u64 (n * size)).

(** ** Abstract view: a tiling of the region by blocks *)

Record blk := Blk { b_addr : Z; b_size : Z; b_free : bool }.

Fixpoint tiles (a : Z) (bs : list blk) (e : Z) : Prop :=
  match bs with
  | [] => a = e
  | b :: bs' =>
      b_addr b = a /\ KHEAP_MIN_BLOCK <= b_size b /\ b_size b mod KHEAP_ALIGN = 0 /\
      tiles (a + b_size b) bs' e
  end.

(** What the bytes of block [b] say: header, magic and footer. *)
Definition blk_ok (m : mem) (b : blk) : Prop :=
  h_size m (b_addr b) = b_size b /\
  h_free m (b_addr b) = (if b_free b then 1 else 0) /\
  h_magic m (b_addr b) = KHEAP_MAGIC /\
  ld64 m (b_addr b + b_size b - FOOT_SIZE) = b_size b.

(** The pointer that leads out of [p]: the list head for the null pointer. *)
Definition fwd (m : mem) (head p : Z) : Z := if p =? 0 then head else h_next m p.

(** The free list [l] hangs off [p], linked in both directions. *)
Fixpoint links (m : mem) (head p : Z) (l : list Z) : Prop :=
  match l with
  | [] => fwd m head p = 0
  | x :: l' => fwd m head p = x /\ x <> 0 /\ h_prev m x = p /\ links m head x l'
  end.

Definition heap_end (hp : heap) : Z := g_base hp + g_size hp - HDR_SIZE - FOOT_SIZE.

(** The memory-level invariant.  [hole] is the address of a block whose header
    is being rewritten (0 when there is none). *)
Record heap_mem (hp : heap) (bs : list blk) (fl : list Z) (hole : Z) : Prop := {
  hr_base : 65536 <= g_base hp;
  hr_lim : g_base hp + g_size hp < 2 ^ 64;
  hr_tiles : tiles (g_base hp) bs (heap_end hp);
  hr_sent : h_free (hm hp) (heap_end hp) = 0;
  hr_blk : forall b, b ∈ bs -> b_addr b <> hole -> blk_ok (hm hp) b;
  hr_links : links (hm hp) (g_free_head hp) 0 fl;
  hr_nodup : NoDup fl;
  hr_fl : forall y, y ∈ fl -> exists b, b ∈ bs /\ b_addr b = y
}.

(** No two neighbouring blocks are both free. *)
Fixpoint coalesced (bs : list blk) : Prop :=
  match bs with
  | b1 :: ((b2 :: _) as bs') => (b_free b1 && b_free b2) = false /\ coalesced bs'
  | _ => True
  end.

(** The full invariant of the idle heap. *)
Record heap_inv (hp : heap) (bs : list blk) (fl : list Z) : Prop := {
  hi_mem : heap_mem hp bs fl 0;
  hi_free : forall a, a ∈ fl <-> exists b, b ∈ bs /\ b_free b = true /\ b_addr b = a;
  hi_coal : coalesced bs
}.

(** The payload bytes of block [b]. *)
Definition payload (b : blk) (x : Z) : Prop :=
  b_addr b + HDR_SIZE <= x < b_addr b + b_size b - FOOT_SIZE.

#[local] Arguments Z.mul : simpl never.
#[local] Arguments Z.add : simpl never.
#[local] Arguments Z.sub : simpl never.

Ltac hconst := unfold heap_end in *; unfold KHEAP_MIN_BLOCK, HDR_SIZE, FOOT_SIZE, KHEAP_ALIGN in *.
Ltac hlia := hconst; lia.

(** ** Tilings *)

Lemma tiles_app l1 : forall a l2 e,
  tiles a (l1 ++ l2) e <-> exists k, tiles a l1 k /\ tiles k l2 e.
Proof.
  induction l1 as [|b l1 IH]; intros a l2 e; simpl.
  - split; [intros; by exists a | intros (k & -> & ?); done].
  - split.
    + intros (? & ? & ? & H). apply IH in H as (k & ? & ?). exists k. tauto.
    + intros (k & (? & ? & ? & ?) & ?). split; [done|]. split; [done|]. split; [done|].
      apply IH. eauto.
Qed.

Lemma tiles_bounds bs : forall a e b,
  tiles a bs e -> b ∈ bs ->
  a <= b_addr b /\ b_addr b + b_size b <= e /\ KHEAP_MIN_BLOCK <= b_size b /\ b_size b mod KHEAP_ALIGN = 0.
Proof.
  induction bs as [|c bs IH]; intros a e b H Hb; [by apply not_elem_of_nil in Hb|].
  simpl in H. destruct H as (Ha & Hs & Hm & Ht).
  assert (Hle : forall bs a e, tiles a bs e -> a <= e).
  { clear. induction bs as [|c bs IH]; simpl; intros a e; [lia|].
    intros (_ & ? & _ & H). apply IH in H. hlia. }
  apply Hle in Ht as Hle'.
  apply elem_of_cons in Hb as [->|Hb]; [hlia|].
  apply (IH _ _ _ Ht) in Hb. hlia.
Qed.

Lemma tiles_le bs a e : tiles a bs e -> a <= e.
Proof.
  revert a. induction bs as [|c bs IH]; simpl; intros a; [lia|].
  intros (_ & ? & _ & H). apply IH in H. hlia.
Qed.

Lemma tiles_len bs : forall a e, tiles a bs e -> KHEAP_MIN_BLOCK * Z.of_nat (length bs) <= e - a.
Proof.
  induction bs as [|c bs IH]; simpl length; intros a e H; simpl in H; [lia|].
  destruct H as (_ & ? & _ & H). apply IH in H. hlia.
Qed.

(** Distinct blocks are disjoint. *)
Lemma tiles_apart bs : forall a e b c,
  tiles a bs e -> b ∈ bs -> c ∈ bs ->
  b = c \/ b_addr b + b_size b <= b_addr c \/ b_addr c + b_size c <= b_addr b.
Proof.
  induction bs as [|d bs IH]; intros a e b c H Hb Hc; [by apply not_elem_of_nil in Hb|].
  simpl in H. destruct H as (Ha & Hs & Hm & Ht).
  apply elem_of_cons in Hb as [->|Hb], Hc as [->|Hc]; eauto.
  - pose proof (tiles_bounds _ _ _ _ Ht Hc). hlia.
  - pose proof (tiles_bounds _ _ _ _ Ht Hb). hlia.
Qed.

(** ** Frames: what a change of memory leaves alone *)

Lemma ld64_ext m m' a : (forall x, a <= x < a + 8 -> m' x = m x) -> ld64 m' a = ld64 m a.
Proof. intros H. Transparent ld64. apply ld_ext. intros. apply H. lia. Opaque ld64. Qed.
Lemma ld32_ext m m' a : (forall x, a <= x < a + 4 -> m' x = m x) -> ld32 m' a = ld32 m a.
Proof. intros H. Transparent ld32. apply ld_ext. intros. apply H. lia. Opaque ld32. Qed.

Lemma blk_ok_ext m m' b :
  (forall x, b_addr b <= x < b_addr b + 24 \/ b_addr b + b_size b - 8 <= x < b_addr b + b_size b -> m' x = m x) ->
  blk_ok m b -> blk_ok m' b.
Proof.
  intros H (H1 & H2 & H3 & H4). unfold blk_ok, h_size, h_free, h_magic in *. hconst.
  rewrite !(ld64_ext m m') by (intros; apply H; lia).
  rewrite (ld32_ext m m') by (intros; apply H; lia). done.
Qed.

Lemma links_ext m m' head head' l : forall p,
  fwd m' head' p = fwd m head p ->
  (forall x, x ∈ l -> h_next m' x = h_next m x /\ h_prev m' x = h_prev m x) ->
  links m head p l -> links m' head' p l.
Proof.
  induction l as [|x l IH]; intros p Hp Hx; simpl; [by rewrite Hp|].
  intros (H1 & H2 & H3 & H4). rewrite Hp. split; [done|]. split; [done|].
  destruct (Hx x) as [Hn Hpr]; [by left|]. split; [congruence|].
  apply (IH x); auto.
  - unfold fwd. destruct (Z.eqb_spec x 0); [done|done].
  - intros y Hy. apply Hx. by right.
Qed.

Lemma links_nonzero m head l : forall p x, links m head p l -> x ∈ l -> x <> 0.
Proof.
  induction l as [|y l IH]; intros p x H Hx; [by apply not_elem_of_nil in Hx|].
  destruct H as (_ & ? & _ & H). apply elem_of_cons in Hx as [->|Hx]; eauto.
Qed.

(** ** The free list *)

Lemma links_prev_in m head f1 h f2 : forall p,
  links m head p (f1 ++ h :: f2) -> h_prev m h ∈ p :: f1.
Proof.
  induction f1 as [|x f1 IH]; intros p H; simpl in H.
  - destruct H as (_ & _ & -> & _). left.
  - destruct H as (_ & _ & _ & H). apply IH in H. by right.
Qed.

Lemma links_next_in m head f1 h f2 : forall p,
  links m head p (f1 ++ h :: f2) -> h_next m h = 0 \/ h_next m h ∈ f2.
Proof.
  induction f1 as [|x f1 IH]; intros p H; simpl in H.
  - destruct H as (_ & Hh & _ & H). destruct f2 as [|y f2]; simpl in H; unfold fwd in H.
    + destruct (Z.eqb_spec h 0); [done|]. by left.
    + destruct (Z.eqb_spec h 0); [done|]. destruct H as (-> & _). right. left.
  - destruct H as (_ & _ & _ & H). eapply IH; eauto.
Qed.

(** Taking [h] out of the list, stated on what the new memory says about the
    links of the remaining nodes. *)
Lemma links_unlink m m' head head' f1 h f2 : forall p,
  links m head p (f1 ++ h :: f2) -> NoDup (p :: f1 ++ h :: f2) ->
  fwd m' head' (h_prev m h) = h_next m h ->
  (h_next m h <> 0 -> h_prev m' (h_next m h) = h_prev m h) ->
  (forall x, x ∈ p :: f1 ++ f2 -> x <> h_prev m h -> fwd m' head' x = fwd m head x) ->
  (forall x, x ∈ f1 ++ f2 -> x <> h_next m h -> h_prev m' x = h_prev m x) ->
  links m' head' p (f1 ++ f2).
Proof.
  induction f1 as [|x f1 IH]; intros p H Hnd H1 H2 H3 H4; simpl in *.
  - destruct H as (Hp & Hh & Hpr & Hl). rewrite Hpr in *.
    apply NoDup_cons in Hnd as [Hpn Hnd]. apply NoDup_cons in Hnd as [Hhn Hnd].
    destruct f2 as [|y f2]; simpl in *.
    + rewrite H1. unfold fwd in Hl. destruct (Z.eqb_spec h 0); [done|done].
    + destruct Hl as (Hf & Hy & Hpy & Hl). unfold fwd in Hf.
      destruct (Z.eqb_spec h 0); [done|]. rewrite Hf in *.
      split; [done|]. split; [done|]. split; [auto|].
      apply NoDup_cons in Hnd as [Hyn Hnd].
      assert (Hneq : forall x, x ∈ f2 -> x <> y /\ x <> p) by (split; intros ->; set_solver).
      apply (links_ext m m' head head'); [|intros x Hx|done].
      * apply H3; [set_solver|]. intros ->. set_solver.
      * assert (x <> 0) by (eapply links_nonzero; eauto).
        destruct (Hneq x Hx). split; [|apply H4; set_solver].
        specialize (H3 x). unfold fwd in H3. destruct (Z.eqb_spec x 0); [done|].
        apply H3; [set_solver|done].
  - destruct H as (Hp & Hx & Hpr & Hl).
    apply NoDup_cons in Hnd as [Hpn Hnd]. apply NoDup_cons in Hnd as Hnd'. destruct Hnd' as [Hxn _].
    pose proof (links_prev_in _ _ _ _ _ _ Hl) as Hpi.
    pose proof (links_next_in _ _ _ _ _ _ Hl) as Hni.
    split; [rewrite H3; [done|set_solver|intros ->; set_solver]|].
    split; [done|]. split; [rewrite H4; [done|set_solver|intros ->; set_solver]|].
    apply IH; auto.
    + intros z Hz. apply H3. set_solver.
    + intros z Hz. apply H4. set_solver.
Qed.

Section unlink.
Context (hp : heap) (bs : list blk) (f1 f2 : list Z) (h hole : Z).
Hypothesis M : heap_mem hp bs (f1 ++ h :: f2) hole.

Lemma fl_blk y : y ∈ f1 ++ h :: f2 -> exists b, b ∈ bs /\ b_addr b = y.
Proof. apply (hr_fl _ _ _ _ M). Qed.

(** Two nodes of the free list are at least a minimal block apart. *)
Lemma fl_apart x y : x ∈ f1 ++ h :: f2 -> y ∈ f1 ++ h :: f2 -> x = y \/ x + 48 <= y \/ y + 48 <= x.
Proof.
  intros Hx Hy. destruct (fl_blk x Hx) as (b & Hb & <-), (fl_blk y Hy) as (c & Hc & <-).
  pose proof (hr_tiles _ _ _ _ M) as T.
  pose proof (tiles_bounds _ _ _ _ T Hb). pose proof (tiles_bounds _ _ _ _ T Hc).
  destruct (tiles_apart _ _ _ _ _ T Hb Hc) as [->|?]; [by left|hlia].
Qed.

Lemma fl_prev : h_prev (hm hp) h = 0 \/ h_prev (hm hp) h ∈ f1.
Proof. pose proof (links_prev_in _ _ _ _ _ _ (hr_links _ _ _ _ M)). set_solver. Qed.
Lemma fl_next : h_next (hm hp) h = 0 \/ h_next (hm hp) h ∈ f2.
Proof. apply (links_next_in _ _ _ _ _ _ (hr_links _ _ _ _ M)). Qed.
Lemma fl_nz x : x ∈ f1 ++ h :: f2 -> x <> 0.
Proof. intros. eapply links_nonzero; eauto. apply (hr_links _ _ _ _ M). Qed.

(** The memory [free_unlink] leaves, with the reads resolved. *)
Lemma free_unlink_eq :
  let m := hm hp in
  let p := h_prev m h in
  let n := h_next m h in
  let m1 := if p =? 0 then m else st64 m (p + 32) n in
  let m2 := if n =? 0 then m1 else st64 m1 (n + 24) p in
  free_unlink hp h =
    Heap (st64 (st64 m2 (h + 32) 0) (h + 24) 0) (g_base hp) (g_size hp)
      (if p =? 0 then n else g_free_head hp).
Proof.
  intros m p n m1 m2. unfold free_unlink. fold m. fold p. fold n.
  pose proof fl_prev as Hp. fold m p in Hp.
  assert (Hh : h ∈ f1 ++ h :: f2) by set_solver.
  assert (E : forall m', m' = m1 -> h_next m' h = n /\ h_prev m' h = p).
  { intros m' ->. unfold m1. destruct (Z.eqb_spec p 0) as [|Hp0]; [done|].
    assert (Hpf : p ∈ f1) by (destruct Hp; [done|done]).
    destruct (fl_apart p h) as [Heq|Ha]; [set_solver|done| |].
    - pose proof (hr_nodup _ _ _ _ M) as Hnd. apply NoDup_app in Hnd as (_ & Hnd & _).
      exfalso. apply (Hnd p Hpf). rewrite Heq. left.
    - unfold n, p, h_next, h_prev. rewrite !ld64_st64_apart by (fold p; unfold h_prev in *; lia). done. }
  unfold m2, m1. destruct (Z.eqb_spec p 0) as [Hp0|Hp0]; simpl.
  - fold n. fold p. destruct (Z.eqb_spec n 0); done.
  - destruct (E _ eq_refl) as [E1 E2]. unfold m1 in E1, E2.
    destruct (Z.eqb_spec p 0) in E1, E2; [done|]. rewrite E1, E2.
    destruct (Z.eqb_spec n 0); done.
Qed.

(** Only the link words of list nodes change. *)
Lemma free_unlink_frame x :
  (forall y, y ∈ f1 ++ h :: f2 -> x < y + 24 \/ y + 40 <= x) ->
  hm (free_unlink hp h) x = hm hp x.
Proof.
  intros H. rewrite free_unlink_eq. simpl.
  assert (Hh : h ∈ f1 ++ h :: f2) by set_solver. pose proof (H h Hh).
  pose proof fl_prev as Hp. pose proof fl_next as Hn.
  rewrite !st64_outside by lia.
  destruct (Z.eqb_spec (h_next (hm hp) h) 0), (Z.eqb_spec (h_prev (hm hp) h) 0); auto;
    rewrite ?st64_outside; auto.
  - destruct Hp; [done|]. pose proof (H (h_prev (hm hp) h) ltac:(set_solver)). lia.
  - destruct Hn; [done|]. pose proof (H (h_next (hm hp) h) ltac:(set_solver)). lia.
  - destruct Hp; [done|]. pose proof (H (h_prev (hm hp) h) ltac:(set_solver)). lia.
  - destruct Hn; [done|]. pose proof (H (h_next (hm hp) h) ltac:(set_solver)). lia.
Qed.

Lemma free_unlink_links :
  links (hm (free_unlink hp h)) (g_free_head (free_unlink hp h)) 0 (f1 ++ f2).
Proof.
  assert (Hh : h ∈ f1 ++ h :: f2) by set_solver.
  pose proof fl_prev as Hp. pose proof fl_next as Hn.
  pose proof (hr_links _ _ _ _ M) as L. pose proof (hr_nodup _ _ _ _ M) as Hnd.
  apply NoDup_app in Hnd as Hnd'. destruct Hnd' as (_ & Hd1 & Hd2).
  apply NoDup_cons in Hd2 as [Hd2 _].
  assert (Hhn : h_next (hm hp) h <> h) by (intros E; rewrite E in Hn; destruct Hn as [Hn|Hn]; [by apply (fl_nz h)|done]).
  assert (Hhp : h_prev (hm hp) h <> h)
    by (intros E; rewrite E in Hp; destruct Hp as [Hp|Hp]; [by apply (fl_nz h)|eapply Hd1; eauto; left]).
  rewrite free_unlink_eq. simpl.
  set (p := h_prev (hm hp) h) in *. set (n := h_next (hm hp) h) in *.
  assert (Hap : forall x, x ∈ f1 ++ h :: f2 -> x = h \/ x + 48 <= h \/ h + 48 <= x)
    by (intros; by apply fl_apart).
  assert (Hpn : p = 0 \/ n = 0 \/ p + 48 <= n \/ n + 48 <= p).
  { destruct Hp as [|Hp]; [auto|]. destruct Hn as [|Hn]; [auto|].
    destruct (fl_apart p n) as [E|?]; [set_solver|set_solver| |auto].
    exfalso. rewrite E in Hp. eapply Hd1; eauto. by right. }
  assert (Hxp : forall x, x ∈ f1 ++ f2 -> p = 0 \/ x = p \/ x + 48 <= p \/ p + 48 <= x)
    by (intros; destruct Hp; [auto|right; apply fl_apart; set_solver]).
  assert (Hxn : forall x, x ∈ f1 ++ f2 -> n = 0 \/ x = n \/ x + 48 <= n \/ n + 48 <= x)
    by (intros; destruct Hn; [auto|right; apply fl_apart; set_solver]).
  assert (Hxh : forall x, x ∈ f1 ++ f2 -> x + 48 <= h \/ h + 48 <= x).
  { intros x Hx. destruct (Hap x) as [->|?]; [set_solver| |auto].
    apply elem_of_app in Hx as [Hx|Hx]; [exfalso; eapply Hd1; eauto; left|done]. }
  assert (Hpb : p = 0 \/ p + 48 <= h \/ h + 48 <= p) by (destruct Hp; [auto|right; apply Hxh; set_solver]).
  assert (Hnb : n = 0 \/ n + 48 <= h \/ h + 48 <= n) by (destruct Hn; [auto|right; apply Hxh; set_solver]).
  assert (Hrange : 0 <= n < 2 ^ 64 /\ 0 <= p < 2 ^ 64).
  { pose proof (hr_base _ _ _ _ M). pose proof (hr_lim _ _ _ _ M).
    assert (Hin : forall y, y ∈ f1 ++ h :: f2 -> 0 <= y < 2 ^ 64).
    { intros y Hy. destruct (fl_blk y Hy) as (b & Hb & <-).
      pose proof (tiles_bounds _ _ _ _ (hr_tiles _ _ _ _ M) Hb). hlia. }
    split; [destruct Hn as [->|]|destruct Hp as [->|]]; try lia; apply Hin; set_solver. }
  eapply (links_unlink (hm hp)); [exact L| | | | |].
  - apply NoDup_cons. split; [|done]. intros Hz. by apply fl_nz in Hz.
  - fold p n. unfold fwd. destruct (Z.eqb_spec p 0); [done|].
    unfold h_next. destruct (Z.eqb_spec n 0) as [En|];
      rewrite !ld64_st64_apart by lia; apply ld64_st64_same; lia.
  - fold n p. intros Hn0. unfold h_prev. destruct (Z.eqb_spec n 0); [done|].
    rewrite !ld64_st64_apart by lia. apply ld64_st64_same. lia.
  - fold p. intros x Hx Hxp'. unfold fwd. destruct (Z.eqb_spec x 0) as [->|Hx0].
    { destruct (Z.eqb_spec p 0); [congruence|done]. }
    assert (Hx' : x ∈ f1 ++ f2) by set_solver.
    pose proof (Hxp x Hx'). pose proof (Hxn x Hx'). pose proof (Hxh x Hx'). unfold h_next.
    destruct (Z.eqb_spec n 0), (Z.eqb_spec p 0); rewrite ?ld64_st64_apart by lia; done.
  - fold n. intros x Hx Hxn'.
    pose proof (Hxp x Hx). pose proof (Hxn x Hx). pose proof (Hxh x Hx). unfold h_prev.
    destruct (Z.eqb_spec n 0), (Z.eqb_spec p 0); rewrite ?ld64_st64_apart by lia; done.
Qed.
End unlink.

(** A byte of a block outside its link words is not a link word of any block. *)
Lemma blk_not_link hp bs fl hole b x :
  heap_mem hp bs fl hole -> b ∈ bs ->
  b_addr b <= x < b_addr b + 24 \/ b_addr b + 40 <= x < b_addr b + b_size b ->
  forall y, y ∈ fl -> x < y + 24 \/ y + 40 <= x.
Proof.
  intros M Hb Hx y Hy. destruct (hr_fl _ _ _ _ M y Hy) as (c & Hc & <-).
  pose proof (hr_tiles _ _ _ _ M) as T.
  pose proof (tiles_bounds _ _ _ _ T Hb). pose proof (tiles_bounds _ _ _ _ T Hc).
  destruct (tiles_apart _ _ _ _ _ T Hb Hc) as [->|?]; hlia.
Qed.

(** Nor is a byte past the last block, where the sentinel sits. *)
Lemma end_not_link hp bs fl hole x :
  heap_mem hp bs fl hole -> heap_end hp <= x ->
  forall y, y ∈ fl -> x < y + 24 \/ y + 40 <= x.
Proof.
  intros M Hx y Hy. destruct (hr_fl _ _ _ _ M y Hy) as (c & Hc & <-).
  pose proof (tiles_bounds _ _ _ _ (hr_tiles _ _ _ _ M) Hc). hlia.
Qed.

Lemma unlink_mem hp bs f1 h f2 hole :
  heap_mem hp bs (f1 ++ h :: f2) hole -> heap_mem (free_unlink hp h) bs (f1 ++ f2) hole.
Proof.
  intros M. pose proof (free_unlink_links _ _ _ _ _ _ M) as HL.
  pose proof (free_unlink_frame _ _ _ _ _ _ M) as HF.
  assert (Hg : g_base (free_unlink hp h) = g_base hp /\ g_size (free_unlink hp h) = g_size hp).
  { unfold free_unlink. repeat case_match; done. }
  destruct Hg as [Hg1 Hg2]. destruct M as [Hb Hl Ht Hs Hok Hli Hnd Hfl].
  assert (M : heap_mem hp bs (f1 ++ h :: f2) hole) by (constructor; done).
  constructor; unfold heap_end in *; rewrite ?Hg1, ?Hg2; auto.
  - rewrite <- Hs. unfold h_free. apply ld64_ext. intros x Hx. apply HF.
    eapply end_not_link; [exact M|]. hlia.
  - intros b Hb' Hne. eapply blk_ok_ext; [|by apply Hok]. intros x Hx. apply HF.
    pose proof (tiles_bounds _ _ _ _ Ht Hb').
    eapply blk_not_link; [exact M|exact Hb'|hlia].
  - apply NoDup_app in Hnd as (Hn1 & Hn2 & Hn3). apply NoDup_cons in Hn3 as [_ Hn3].
    apply NoDup_app. split; [done|]. split; [|done]. intros x Hx Hx'. apply (Hn2 x Hx). by right.
  - intros y Hy. apply Hfl. set_solver.
Qed.

Section link.
Context (hp : heap) (bs : list blk) (fl : list Z) (h hole : Z).
Hypothesis M : heap_mem hp bs fl hole.
Hypothesis Hnew : h ∉ fl.
Hypothesis Hblk : exists b, b ∈ bs /\ b_addr b = h.

Lemma link_range : 0 <= g_free_head hp < 2 ^ 64 /\ 65536 <= h < 2 ^ 64.
Proof.
  pose proof (hr_base _ _ _ _ M). pose proof (hr_lim _ _ _ _ M).
  assert (Hin : forall y, (exists b, b ∈ bs /\ b_addr b = y) -> 65536 <= y < 2 ^ 64).
  { intros y (b & Hb & <-). pose proof (tiles_bounds _ _ _ _ (hr_tiles _ _ _ _ M) Hb). hlia. }
  split; [|auto].
  pose proof (hr_links _ _ _ _ M) as L. pose proof (hr_fl _ _ _ _ M) as F.
  destruct fl as [|y l]; simpl in L; unfold fwd in L; simpl in L; [lia|].
  destruct L as (-> & _). assert (65536 <= y < 2 ^ 64); [|lia]. apply Hin, F. left.
Qed.

Lemma head_apart : g_free_head hp = 0 \/ (g_free_head hp ∈ fl /\
  (g_free_head hp + 48 <= h \/ h + 48 <= g_free_head hp)).
Proof.
  pose proof (hr_links _ _ _ _ M) as L. pose proof (hr_fl _ _ _ _ M) as F.
  destruct fl as [|y l]; simpl in L; unfold fwd in L; simpl in L; [by left|].
  destruct L as (E & _). right. rewrite E in *. split; [left|].
  destruct (F y) as (c & Hc & Ec); [left|]. destruct Hblk as (b & Hb & Eb).
  pose proof (hr_tiles _ _ _ _ M) as T.
  pose proof (tiles_bounds _ _ _ _ T Hb). pose proof (tiles_bounds _ _ _ _ T Hc).
  destruct (tiles_apart _ _ _ _ _ T Hb Hc) as [->|?]; [|hlia].
  exfalso. apply Hnew. rewrite <- Eb, Ec. left.
Qed.

Lemma free_link_frame x :
  x < h + 8 \/ h + 16 <= x ->
  (forall y, y ∈ h :: fl -> x < y + 24 \/ y + 40 <= x) ->
  hm (free_link hp h) x = hm hp x.
Proof.
  intros Hx H. unfold free_link. simpl. pose proof (H h ltac:(left)).
  destruct head_apart as [->|[Hf _]]; simpl.
  - rewrite !st64_outside by lia. done.
  - pose proof (H _ ltac:(right; exact Hf)).
    destruct (Z.eqb_spec (g_free_head hp) 0); simpl; rewrite !st64_outside by lia; done.
Qed.

Lemma free_link_free : h_free (hm (free_link hp h)) h = 1.
Proof.
  unfold free_link, h_free. simpl.
  destruct head_apart as [->|[_ Ha]]; simpl.
  - rewrite !ld64_st64_apart by lia. apply ld64_st64_same. lia.
  - destruct (Z.eqb_spec (g_free_head hp) 0); simpl; rewrite !ld64_st64_apart by lia;
      apply ld64_st64_same; lia.
Qed.

Lemma free_link_links : links (hm (free_link hp h)) (g_free_head (free_link hp h)) 0 (h :: fl).
Proof.
  pose proof link_range as [Hr1 Hr2]. pose proof head_apart as Ha.
  pose proof (hr_links _ _ _ _ M) as L. pose proof (hr_fl _ _ _ _ M) as F.
  pose proof (hr_nodup _ _ _ _ M) as Hnd.
  assert (Hap : forall y, y ∈ fl -> y + 48 <= h \/ h + 48 <= y).
  { intros y Hy. destruct (F y Hy) as (c & Hc & <-). destruct Hblk as (b & Hb & <-).
    pose proof (hr_tiles _ _ _ _ M) as T.
    pose proof (tiles_bounds _ _ _ _ T Hb). pose proof (tiles_bounds _ _ _ _ T Hc).
    destruct (tiles_apart _ _ _ _ _ T Hb Hc) as [->|?]; [done|hlia]. }
  unfold free_link. cbn [links hm g_free_head]. unfold fwd at 1. simpl (0 =? 0). cbv iota.
  split; [done|]. split; [lia|].
  destruct (Z.eqb_spec (g_free_head hp) 0) as [E0|Hne]; simpl negb; cbv iota.
  - rewrite E0 in *.
    assert (fl = []) as -> by (destruct fl as [|y l]; [done|]; simpl in L; unfold fwd in L; simpl in L; destruct L as (<- & ? & _); done).
    simpl. unfold h_prev, fwd, h_next. destruct (Z.eqb_spec h 0); [lia|].
    rewrite ld64_st64_apart by lia. rewrite !ld64_st64_same by lia. done.
  - destruct Ha as [|[Hhd Hha]]; [done|].
    split. { unfold h_prev. rewrite !ld64_st64_apart by lia. apply ld64_st64_same. lia. }
    destruct fl as [|y l]; [by apply not_elem_of_nil in Hhd|].
    simpl in L. unfold fwd in L at 1. simpl in L. destruct L as (E & Hy & Hpy & L). rewrite E in *.
    cbn [links]. split.
    { unfold fwd, h_next. destruct (Z.eqb_spec h 0); [lia|].
      rewrite ld64_st64_apart by lia. apply ld64_st64_same. lia. }
    split; [done|]. split; [unfold h_prev; apply ld64_st64_same; lia|].
    apply NoDup_cons in Hnd as [Hyl _].
    assert (Hyy : forall z, z ∈ l -> z + 48 <= y \/ y + 48 <= z).
    { intros z Hz. destruct (F z ltac:(by right)) as (c & Hc & <-), (F y ltac:(left)) as (b & Hb & Eb).
      pose proof (hr_tiles _ _ _ _ M) as T.
      pose proof (tiles_bounds _ _ _ _ T Hb). pose proof (tiles_bounds _ _ _ _ T Hc).
      destruct (tiles_apart _ _ _ _ _ T Hb Hc) as [->|?]; [congruence|hlia]. }
    eapply links_ext; [| |exact L].
    + unfold fwd, h_next. destruct (Z.eqb_spec y 0); [done|]. rewrite !ld64_st64_apart by lia. done.
    + intros z Hz. pose proof (Hap z ltac:(by right)). pose proof (Hyy z Hz).
      unfold h_next, h_prev. rewrite !ld64_st64_apart by lia. done.
Qed.

Lemma link_mem :
  hole = h \/ h_free (hm hp) h = 1 -> heap_mem (free_link hp h) bs (h :: fl) hole.
Proof.
  intros Hone.
  pose proof free_link_links as HL. pose proof free_link_frame as HF.
  pose proof M as [Hb Hl Ht Hs Hok Hli Hnd Hfl].
  assert (Hfr : forall y, y ∈ h :: fl -> exists b, b ∈ bs /\ b_addr b = y)
    by (intros y Hy; apply elem_of_cons in Hy as [->|Hy]; auto).
  assert (Hout : forall b x, b ∈ bs -> b_addr b <> h ->
    b_addr b <= x < b_addr b + 24 \/ b_addr b + 40 <= x < b_addr b + b_size b ->
    hm (free_link hp h) x = hm hp x).
  { intros b x Hb' Hne Hx. destruct Hblk as (c & Hc & Ec).
    pose proof (tiles_bounds _ _ _ _ Ht Hb'). pose proof (tiles_bounds _ _ _ _ Ht Hc).
    apply HF.
    - destruct (tiles_apart _ _ _ _ _ Ht Hb' Hc) as [->|?]; [done|hlia].
    - intros y Hy. destruct (Hfr y Hy) as (d & Hd & <-).
      pose proof (tiles_bounds _ _ _ _ Ht Hd).
      destruct (tiles_apart _ _ _ _ _ Ht Hb' Hd) as [->|?]; hlia. }
  constructor; auto.
  - rewrite <- Hs. unfold h_free. apply ld64_ext. intros x Hx.
    destruct Hblk as (c & Hc & Ec). pose proof (tiles_bounds _ _ _ _ Ht Hc).
    unfold heap_end in Hx. simpl in Hx.
    apply HF; [hlia|]. intros y Hy. destruct (Hfr y Hy) as (d & Hd & <-).
    pose proof (tiles_bounds _ _ _ _ Ht Hd). hlia.
  - intros b Hb' Hne. pose proof (tiles_bounds _ _ _ _ Ht Hb').
    destruct (Z.eq_dec (b_addr b) h) as [Eb|Hnh].
    + destruct Hone as [|Hone]; [congruence|].
      destruct (Hok b Hb' Hne) as (H1 & H2 & H3 & H4).
      assert (Hin : forall x, h <= x < h + 8 \/ h + 16 <= x < h + 24 \/
          h + b_size b - 8 <= x < h + b_size b -> hm (free_link hp h) x = hm hp x).
      { intros x Hx. apply HF; [hlia|]. intros y Hy. destruct (Hfr y Hy) as (d & Hd & <-).
        pose proof (tiles_bounds _ _ _ _ Ht Hd).
        destruct (tiles_apart _ _ _ _ _ Ht Hb' Hd) as [<-|?]; hlia. }
      unfold blk_ok. rewrite Eb, free_link_free in *. rewrite <- H2, Hone.
      unfold h_size, h_magic in *. hconst.
      rewrite !(ld64_ext (hm hp) (hm (free_link hp h))) by (intros; apply Hin; lia).
      rewrite (ld32_ext (hm hp)) by (intros; apply Hin; lia). done.
    + eapply blk_ok_ext; [|by apply Hok]. intros x Hx. apply (Hout b); [done|done|hlia].
  - by apply NoDup_cons.
Qed.
End link.

(** ** Rewriting the hole *)

(** Writing inside the hole's block, links apart, keeps the invariant. *)
Lemma hole_write hp bs fl b m' :
  heap_mem hp bs fl (b_addr b) -> b ∈ bs ->
  (forall x, ~ (b_addr b <= x < b_addr b + 24 \/ b_addr b + 40 <= x < b_addr b + b_size b) -> m' x = hm hp x) ->
  heap_mem (with_mem hp m') bs fl (b_addr b).
Proof.
  intros M Hb Hm. pose proof M as [Hba Hl Ht Hs Hok Hli Hnd Hfl].
  pose proof (tiles_bounds _ _ _ _ Ht Hb) as Hbb.
  assert (Hlk : forall y, y ∈ fl -> forall x, y + 24 <= x < y + 40 -> m' x = hm hp x).
  { intros y Hy x Hx. apply Hm. destruct (Hfl y Hy) as (c & Hc & <-).
    pose proof (tiles_bounds _ _ _ _ Ht Hc).
    destruct (tiles_apart _ _ _ _ _ Ht Hb Hc) as [->|?]; hlia. }
  constructor; simpl; auto.
  - rewrite <- Hs. unfold h_free, heap_end. simpl. apply ld64_ext. intros x Hx. apply Hm. hlia.
  - intros c Hc Hne. eapply blk_ok_ext; [|by apply Hok]. intros x Hx. apply Hm.
    pose proof (tiles_bounds _ _ _ _ Ht Hc).
    destruct (tiles_apart _ _ _ _ _ Ht Hb Hc) as [->|?]; [done|hlia].
  - eapply links_ext; [| |exact Hli].
    + unfold fwd. done.
    + intros y Hy. unfold h_next, h_prev.
      split; apply ld64_ext; intros x Hx; apply (Hlk y Hy); lia.
Qed.

Lemma hole_fill hp bs fl h :
  heap_mem hp bs fl h -> (forall b, b ∈ bs -> b_addr b = h -> blk_ok (hm hp) b) -> heap_mem hp bs fl 0.
Proof.
  intros [Hba Hl Ht Hs Hok Hli Hnd Hfl] H. constructor; auto.
  intros b Hb _. destruct (Z.eq_dec (b_addr b) h); auto.
Qed.

Lemma hole_open hp bs fl h : heap_mem hp bs fl 0 -> heap_mem hp bs fl h.
Proof.
  intros [Hba Hl Ht Hs Hok Hli Hnd Hfl]. constructor; auto.
  intros b Hb _. apply Hok; [done|]. pose proof (tiles_bounds _ _ _ _ Ht Hb). hlia.
Qed.

(** ** Reshaping the tiling around the hole *)

Lemma elem_of_mid {A} (x y : A) l1 l2 : x ∈ l1 ++ y :: l2 <-> x ∈ l1 \/ x = y \/ x ∈ l2.
Proof. rewrite elem_of_app, elem_of_cons. tauto. Qed.

Lemma tiles_mid l1 b l2 a e :
  tiles a (l1 ++ b :: l2) e <->
  tiles a l1 (b_addr b) /\ KHEAP_MIN_BLOCK <= b_size b /\ b_size b mod KHEAP_ALIGN = 0 /\
  tiles (b_addr b + b_size b) l2 e.
Proof.
  rewrite tiles_app. simpl. split.
  - intros (k & H1 & <- & H2 & H3 & H4). done.
  - intros (H1 & H2 & H3 & H4). exists (b_addr b). done.
Qed.

Lemma mod16_add a b : a mod 16 = 0 -> b mod 16 = 0 -> (a + b) mod 16 = 0.
Proof. intros. rewrite Z.add_mod by lia. rewrite H, H0. done. Qed.
Lemma mod16_sub a b : a mod 16 = 0 -> b mod 16 = 0 -> (a - b) mod 16 = 0.
Proof. intros. rewrite Zminus_mod. rewrite H, H0. done. Qed.

Lemma reshape_flag hp l1 a s f f' l2 fl :
  heap_mem hp (l1 ++ Blk a s f :: l2) fl a -> heap_mem hp (l1 ++ Blk a s f' :: l2) fl a.
Proof.
  intros [Hba Hl Ht Hs Hok Hli Hnd Hfl]. constructor; auto.
  - rewrite tiles_mid in *. done.
  - intros b Hb Hne. apply elem_of_mid in Hb as [Hb|[->|Hb]]; [|done|];
      (apply Hok; [apply elem_of_mid; auto|done]).
  - intros y Hy. destruct (Hfl y Hy) as (b & Hb & <-).
    apply elem_of_mid in Hb as [Hb|[->|Hb]].
    + exists b. split; [apply elem_of_mid; auto|done].
    + exists (Blk a s f'). split; [apply elem_of_mid; auto|done].
    + exists b. split; [apply elem_of_mid; auto|done].
Qed.

Lemma reshape_merge hp l1 x y l2 fl hole f :
  heap_mem hp (l1 ++ x :: y :: l2) fl hole -> hole = b_addr x \/ hole = b_addr y -> b_addr y ∉ fl ->
  heap_mem hp (l1 ++ Blk (b_addr x) (b_size x + b_size y) f :: l2) fl (b_addr x).
Proof.
  intros [Hba Hl Ht Hs Hok Hli Hnd Hfl] Hhole Hy. pose proof Ht as Ht0. constructor; auto.
  - rewrite tiles_mid in *. simpl in *. destruct Ht as (T1 & T2 & T3 & T4 & T5 & T6 & T7).
    split; [done|]. split; [hlia|]. split; [by apply mod16_add|]. by rewrite Z.add_assoc.
  - intros b Hb Hne.
    assert (Hbb : b ∈ l1 ++ x :: y :: l2).
    { apply elem_of_mid in Hb as [Hb|[->|Hb]]; [|done|]; rewrite elem_of_mid, elem_of_cons; auto. }
    apply Hok; [done|]. destruct Hhole as [->| ->]; [done|].
    assert (Hyy : y ∈ l1 ++ x :: y :: l2) by (rewrite elem_of_mid, elem_of_cons; auto).
    pose proof (tiles_bounds _ _ _ _ Ht0 Hbb). pose proof (tiles_bounds _ _ _ _ Ht0 Hyy).
    destruct (tiles_apart _ _ _ _ _ Ht0 Hbb Hyy) as [Eby|?]; [|hlia].
    (* [y] itself is neither in [l1] nor in [l2] *)
    exfalso. apply tiles_mid in Ht0. simpl in Ht0. destruct Ht0 as (T1 & T2 & _ & T4 & T5 & _ & T7).
    subst b. apply elem_of_mid in Hb as [Hb|[E|Hb]].
    + pose proof (tiles_bounds _ _ _ _ T1 Hb). hlia.
    + apply Hne. by rewrite E.
    + pose proof (tiles_bounds _ _ _ _ T7 Hb). hlia.
  - intros z Hz. destruct (Hfl z Hz) as (b & Hb & <-).
    rewrite elem_of_mid, elem_of_cons in Hb. destruct Hb as [Hb|[->|[->|Hb]]]; [| |done|].
    + exists b. split; [apply elem_of_mid; auto|done].
    + eexists. split; [apply elem_of_mid; right; left; reflexivity|done].
    + exists b. split; [apply elem_of_mid; auto|done].
Qed.

Lemma reshape_split hp l1 b l2 fl need f :
  heap_mem hp (l1 ++ b :: l2) fl (b_addr b) ->
  48 <= need -> need mod 16 = 0 -> 48 <= b_size b - need ->
  blk_ok (hm hp) (Blk (b_addr b + need) (b_size b - need) true) ->
  heap_mem hp (l1 ++ Blk (b_addr b) need f :: Blk (b_addr b + need) (b_size b - need) true :: l2) fl (b_addr b).
Proof.
  intros [Hba Hl Ht Hs Hok Hli Hnd Hfl] Hn1 Hn2 Hn3 Hrest. constructor; auto.
  - rewrite tiles_mid in *. simpl. destruct Ht as (T1 & T2 & T3 & T4).
    split; [done|]. split; [hlia|]. split; [done|]. split; [done|]. split; [hlia|].
    split; [by apply mod16_sub|]. replace (b_addr b + need + (b_size b - need)) with (b_addr b + b_size b) by lia. done.
  - intros c Hc Hne. rewrite elem_of_mid, elem_of_cons in Hc. destruct Hc as [Hc|[->|[->|Hc]]]; [|done|done|];
      (apply Hok; [apply elem_of_mid; auto|done]).
  - intros z Hz. destruct (Hfl z Hz) as (c & Hc & <-).
    apply elem_of_mid in Hc as [Hc|[->|Hc]].
    + exists c. split; [apply elem_of_mid; auto|done].
    + eexists. split; [apply elem_of_mid; right; left; reflexivity|done].
    + exists c. split; [rewrite elem_of_mid, elem_of_cons; auto|done].
Qed.
