(* ===== verification/HeapSpec.v ===== *)
(** * The kernel heap: correctness of kmalloc, kfree and krealloc

    The theorems relate each operation to its effect on the tiling of the
    region by blocks and on the free list, on top of the lemmas of Heap. *)
From S2P Require Import Prelude Mem Kstring Pmm Heap.
#[local] Open Scope Z_scope.
#[local] Arguments Z.mul : simpl never.
#[local] Arguments Z.add : simpl never.
#[local] Arguments Z.sub : simpl never.

(** ** kmalloc *)

(** The end of [kmalloc]: the chosen block leaves the free list, its flag is
    cleared and its footer rewritten. *)
Lemma take_finish hp l1 a sz l2 g1 g2 :
  heap_mem hp (l1 ++ Blk a sz true :: l2) (g1 ++ a :: g2) a ->
  h_size (hm hp) a = sz -> h_magic (hm hp) a = KHEAP_MAGIC ->
  let hp2 := free_unlink hp a in
  let hp3 := with_mem hp2 (set_footer (st64 (hm hp2) (a + 8) 0) a) in
  heap_mem hp3 (l1 ++ Blk a sz false :: l2) (g1 ++ g2) 0 /\
  (forall x, x < a \/ a + sz <= x -> (forall y, y ∈ g1 ++ a :: g2 -> x < y + 24 \/ y + 40 <= x) ->
     hm hp3 x = hm hp x).
Proof.
  intros M Hsz Hmg hp2 hp3.
  set (b := Blk a sz true) in *.
  assert (Hb : b ∈ l1 ++ b :: l2) by (apply elem_of_mid; auto).
  pose proof (tiles_bounds _ _ _ _ (hr_tiles _ _ _ _ M) Hb) as Hbb. simpl in Hbb.
  pose proof (hr_lim _ _ _ _ M) as Hlim. pose proof (hr_base _ _ _ _ M) as Hbase.
  pose proof (free_unlink_frame _ _ _ _ _ _ M) as HF. fold hp2 in HF.
  pose proof (unlink_mem _ _ _ _ _ _ M) as M2. fold hp2 in M2.
  assert (Hhd : forall x, a <= x < a + 24 -> hm hp2 x = hm hp x).
  { intros x Hx. apply HF. eapply blk_not_link; [exact M|exact Hb|simpl; lia]. }
  assert (Esz : h_size (hm hp2) a = sz).
  { rewrite <- Hsz. apply ld64_ext. intros. apply Hhd. lia. }
  assert (Emg : h_magic (hm hp2) a = KHEAP_MAGIC).
  { rewrite <- Hmg. apply ld32_ext. intros. apply Hhd. lia. }
  assert (Em : hm hp3 = st64 (st64 (hm hp2) (a + 8) 0) (a + sz - 8) sz).
  { unfold hp3, set_footer, footer_of. simpl. unfold h_size in *.
    rewrite ld64_st64_apart by lia. rewrite Esz. done. }
  assert (M3 : heap_mem (with_mem hp2 (hm hp3)) (l1 ++ b :: l2) (g1 ++ g2) a).
  { apply (hole_write hp2 _ _ b); [exact M2|done|]. intros x Hx. simpl in Hx.
    rewrite Em, !st64_outside by hlia. done. }
  change (with_mem hp2 (hm hp3)) with hp3 in M3. clearbody hp3.
  apply reshape_flag with (f' := false) in M3. split.
  - apply (hole_fill _ _ _ a); [exact M3|]. intros c Hc Ec.
    assert (c = Blk a sz false) as ->.
    { pose proof (hr_tiles _ _ _ _ M3) as T3.
      assert (Hx : Blk a sz false ∈ l1 ++ Blk a sz false :: l2) by (apply elem_of_mid; auto).
      pose proof (tiles_bounds _ _ _ _ T3 Hc). pose proof (tiles_bounds _ _ _ _ T3 Hx).
      destruct (tiles_apart _ _ _ _ _ T3 Hc Hx) as [->|Hd]; [done|simpl in *; hlia]. }
    unfold blk_ok, h_size, h_free, h_magic in *. simpl. rewrite Em. hconst.
    rewrite !ld64_st64_apart, !ld32_st64_apart, !ld64_st64_same by lia. done.
  - intros x Hx Hy. rewrite Em, !st64_outside by hlia. by apply HF.
Qed.

(** The block [b] at [a] is split: [rest] gets a header and joins the list. *)
Lemma take_split hp l1 b l2 fl need :
  heap_mem hp (l1 ++ b :: l2) fl 0 -> b_free b = true ->
  48 <= need -> need mod 16 = 0 -> 48 <= b_size b - need ->
  let m := hm hp in
  let rest := b_addr b + need in
  let m4 := st64 (st64 (st32 (st64 (st64 m rest (u64 (h_size m (b_addr b) - need))) (rest + 8) 1)
              (rest + 16) KHEAP_MAGIC) (rest + 24) 0) (rest + 32) 0 in
  let hp' := free_link (with_mem hp (set_footer m4 rest)) rest in
  let hp1 := with_mem hp' (st64 (hm hp') (b_addr b) need) in
  heap_mem hp1 (l1 ++ Blk (b_addr b) need true :: Blk rest (b_size b - need) true :: l2) (rest :: fl) (b_addr b) /\
  h_size (hm hp1) (b_addr b) = need /\ h_magic (hm hp1) (b_addr b) = KHEAP_MAGIC /\
  (forall x, x < b_addr b \/ b_addr b + b_size b <= x ->
     (forall y, y ∈ fl -> x < y + 24 \/ y + 40 <= x) -> hm hp1 x = hm hp x).
Proof.
  intros M Hfree Hn1 Hn2 Hn3 m rest m4 hp' hp1.
  set (a := b_addr b) in *. set (sz := b_size b) in *.
  assert (Hb : b ∈ l1 ++ b :: l2) by (apply elem_of_mid; auto).
  pose proof (tiles_bounds _ _ _ _ (hr_tiles _ _ _ _ M) Hb) as Hbb. fold a sz in Hbb.
  pose proof (hr_lim _ _ _ _ M) as Hlim. pose proof (hr_base _ _ _ _ M) as Hbase.
  destruct (hr_blk _ _ _ _ M b Hb) as (Bs & _ & Bm & _); [fold a; hlia|].
  fold m a in Bs, Bm. fold sz in Bs.
  assert (Esz : u64 (h_size m a - need) = sz - need) by (rewrite Bs, u64_small; hlia).
  assert (Em5 : set_footer m4 rest = st64 m4 (rest + (sz - need) - 8) (sz - need)).
  { unfold set_footer, footer_of. assert (h_size m4 rest = sz - need) as ->; [|done].
    unfold m4, h_size. rewrite !ld64_st64_apart, ld64_st32_apart, ld64_st64_apart by lia.
    rewrite <- Esz. apply ld64_st64_same. apply u64_range. }
  set (m5 := set_footer m4 rest) in *.
  assert (F5 : forall x, x < rest \/ a + sz <= x -> m5 x = m x).
  { intros x Hx. rewrite Em5. unfold m4. rewrite !st64_outside, st32_outside, !st64_outside by hlia. done. }
  assert (Hrest : blk_ok m5 (Blk rest (sz - need) true)).
  { unfold blk_ok, h_size, h_free, h_magic. simpl. hconst. rewrite Em5. unfold m4.
    rewrite ld64_st64_same by lia.
    rewrite !ld64_st64_apart, !ld64_st32_apart, !ld64_st64_apart by lia.
    rewrite !ld32_st64_apart, ld32_st32_same by (unfold KHEAP_MAGIC; lia).
    rewrite Esz, !ld64_st64_same by lia. done. }
  assert (M1 : heap_mem (with_mem hp m5) (l1 ++ b :: l2) fl a).
  { apply hole_write; [by apply hole_open|done|]. fold a sz. intros x Hx. apply F5. hlia. }
  apply reshape_split with (need := need) (f := true) in M1; [|done..].
  fold a sz rest in M1.
  set (bs := l1 ++ Blk a need true :: Blk rest (sz - need) true :: l2) in *.
  assert (Hrb : Blk rest (sz - need) true ∈ bs) by (unfold bs; rewrite elem_of_mid, elem_of_cons; auto).
  assert (Hab : Blk a need true ∈ bs) by (unfold bs; rewrite elem_of_mid; auto).
  assert (Hrn : rest ∉ fl).
  { intros Hin. destruct (hr_fl _ _ _ _ M rest Hin) as (c & Hc & Ec).
    pose proof (tiles_bounds _ _ _ _ (hr_tiles _ _ _ _ M) Hc).
    destruct (tiles_apart _ _ _ _ _ (hr_tiles _ _ _ _ M) Hb Hc) as [E|?];
      [subst c; unfold rest, a in *; lia | fold a sz in H; fold a sz; hlia]. }
  assert (Hrex : exists c, c ∈ bs /\ b_addr c = rest) by (eexists; split; [exact Hrb|done]).
  assert (M2 : heap_mem hp' bs (rest :: fl) a).
  { apply link_mem; [exact M1|exact Hrn|exact Hrex|]. right. apply Hrest. }
  pose proof (free_link_frame _ _ _ _ _ M1 Hrn Hrex) as F2. fold hp' in F2.
  assert (Fh : forall x, a <= x < a + 24 -> hm hp' x = m x).
  { intros x Hx. unfold hp'. rewrite F2; [apply F5; lia|lia|].
    intros y Hy. eapply (blk_not_link hp' bs (rest :: fl)); [exact M2|exact Hab|simpl; lia|exact Hy]. }
  split; [|split; [|split]].
  - apply (hole_write hp' bs _ (Blk a need true)); [exact M2|exact Hab|].
    simpl. intros x Hx. apply st64_outside. lia.
  - unfold hp1, h_size. simpl. apply ld64_st64_same. hlia.
  - unfold hp1, h_magic. simpl. rewrite ld32_st64_apart by lia. rewrite <- Bm.
    apply ld32_ext. intros. apply Fh. lia.
  - intros x Hx Hy. unfold hp1. simpl. rewrite st64_outside by hlia. rewrite F2; [apply F5; lia|hlia|].
    intros y Hyy. apply elem_of_cons in Hyy as [->|Hyy]; [hlia|auto].
Qed.

(** ** The size computation *)

Lemma land_not15 x : 0 <= x < 2 ^ 64 -> Z.land x (not64 15) = x / 16 * 16.
Proof. apply (land_not_pow2 x 4). lia. Qed.

Lemma align16 v : align_up v 16 = u64 (v + 15) / 16 * 16.
Proof.
  unfold align_up. replace (v + 16 - 1) with (v + 15) by lia. change (16 - 1) with 15.
  apply land_not15. apply u64_range.
Qed.

(** Whatever the request, the rounded size is a usable block size. *)
Lemma need_ok size : 48 <= kmalloc_need size < 2 ^ 64 /\ kmalloc_need size mod 16 = 0.
Proof.
  unfold kmalloc_need. hconst. rewrite align16.
  set (v := u64 (u64 _ + 15)). pose proof (u64_range (u64 ((if size =? 0 then 1 else size) + 40 + 8) + 15)).
  fold v in H. pose proof (Z.div_mod v 16 ltac:(lia)). pose proof (Z.mod_pos_bound v 16 ltac:(lia)).
  destruct (Z.ltb_spec (v / 16 * 16) 48); [split; [lia|done]|].
  split; [lia|]. apply Z.mod_mul. lia.
Qed.

(** A request that does not overflow gets a block with room for it. *)
Lemma need_fits size : 0 <= size <= 2 ^ 64 - 64 -> size + 48 <= kmalloc_need size.
Proof.
  intros Hs. unfold kmalloc_need. hconst. rewrite align16.
  set (sz := if size =? 0 then 1 else size).
  assert (size <= sz <= 2 ^ 64 - 64) by (unfold sz; case_match; lia).
  rewrite (u64_small (sz + 40 + 8)) by lia.
  rewrite u64_small by lia.
  pose proof (Z.div_mod (sz + 40 + 8 + 15) 16 ltac:(lia)).
  pose proof (Z.mod_pos_bound (sz + 40 + 8 + 15) 16 ltac:(lia)).
  case_match; lia.
Qed.

(** ** Choosing a block *)

(** The free blocks, walked in list order, that [kmalloc] passes over. *)
Lemma walk_spec hp bs fl need :
  heap_inv hp bs fl ->
  forall fuel g1 g2 p, fl = g1 ++ g2 -> links (hm hp) (g_free_head hp) p g2 ->
  (forall b, b ∈ bs -> b_addr b ∈ g1 -> b_size b < need) ->
  (length g2 < fuel)%nat ->
  (exists b, b ∈ bs /\ b_free b = true /\ need <= b_size b /\
     kmalloc_walk fuel hp need (fwd (hm hp) (g_free_head hp) p) = Ok (kmalloc_take hp (b_addr b) need, b_addr b + HDR_SIZE)) \/
  ((forall b, b ∈ bs -> b_free b = true -> b_size b < need) /\
     kmalloc_walk fuel hp need (fwd (hm hp) (g_free_head hp) p) = Ok (hp, 0)).
Proof.
  intros I. pose proof (hi_mem _ _ _ I) as M.
  induction fuel as [|k IH]; intros g1 g2 p Hfl L Hsmall Hf; [lia|].
  destruct g2 as [|x g2]; simpl in L.
  - right. rewrite L. simpl. split; [|done]. intros b Hb Hbf. apply Hsmall; [done|].
    assert (Hin : b_addr b ∈ fl) by (apply (hi_free _ _ _ I); eauto).
    by rewrite Hfl, app_nil_r in Hin.
  - destruct L as (-> & Hx & _ & L).
    assert (Hin : x ∈ fl) by (rewrite Hfl; set_solver).
    apply (hi_free _ _ _ I) in Hin as (b & Hb & Hbf & <-).
    pose proof (tiles_bounds _ _ _ _ (hr_tiles _ _ _ _ M) Hb) as Hbb.
    destruct (hr_blk _ _ _ _ M b Hb) as (Bs & _ & Bm & _); [done|].
    simpl. destruct (Z.eqb_spec (b_addr b) 0); [done|].
    rewrite Bm, Bs, Z.eqb_refl. simpl.
    destruct (Z.ltb_spec (b_size b) KHEAP_MIN_BLOCK); [hlia|].
    pose proof (hr_base _ _ _ _ M). pose proof (hr_lim _ _ _ _ M). rewrite !u64_small by hlia.
    destruct (Z.ltb_spec (g_base hp + g_size hp) (b_addr b + b_size b)); [hlia|]. simpl.
    destruct (Z.ltb_spec (b_size b) need) as [Hlt|Hge].
    + replace (h_next (hm hp) (b_addr b)) with (fwd (hm hp) (g_free_head hp) (b_addr b))
        by (unfold fwd; destruct (Z.eqb_spec (b_addr b) 0); done).
      apply (IH (g1 ++ [b_addr b]) g2); [by rewrite <- app_assoc|done| |simpl in Hf; lia].
      intros c Hc Hcg. apply elem_of_app in Hcg as [Hcg|Hcg]; [auto|].
      apply list_elem_of_singleton in Hcg.
      pose proof (tiles_bounds _ _ _ _ (hr_tiles _ _ _ _ M) Hc).
      destruct (tiles_apart _ _ _ _ _ (hr_tiles _ _ _ _ M) Hb Hc) as [->|?]; [done|hlia].
    + left. exists b. done.
Qed.

Lemma fl_length hp bs fl : heap_mem hp bs fl 0 -> (length fl < walk_fuel hp)%nat.
Proof.
  intros [Hba Hl Ht Hs Hok Hli Hnd Hfl].
  assert (Hsub : fl ⊆+ map b_addr bs).
  { apply NoDup_submseteq; [done|]. intros y Hy. destruct (Hfl y Hy) as (b & Hb & <-).
    apply list_elem_of_In, in_map, list_elem_of_In. done. }
  apply submseteq_length in Hsub. rewrite length_map in Hsub.
  apply tiles_len in Ht. unfold walk_fuel. hconst.
  assert (Z.of_nat (length bs) <= g_size hp / 48) by (apply Z.div_le_lower_bound; lia). lia.
Qed.

(** ** Allocation *)

(** What the chosen free block becomes. *)
Definition take_result (b : blk) (need : Z) : list blk :=
  if KHEAP_MIN_BLOCK <=? b_size b - need
  then [Blk (b_addr b) need false; Blk (b_addr b + need) (b_size b - need) true]
  else [Blk (b_addr b) (b_size b) false].

Lemma coalesced_app l1 : forall l2,
  coalesced (l1 ++ l2) <->
  coalesced l1 /\ coalesced l2 /\
  match last l1, head l2 with Some x, Some y => (b_free x && b_free y) = false | _, _ => True end.
Proof.
  induction l1 as [|x l1 IH]; intros l2; [simpl; tauto|].
  destruct l1 as [|y l1].
  - simpl. destruct l2; simpl; tauto.
  - change ((x :: y :: l1) ++ l2) with (x :: y :: (l1 ++ l2)).
    change (coalesced (x :: y :: (l1 ++ l2))) with ((b_free x && b_free y) = false /\ coalesced ((y :: l1) ++ l2)).
    rewrite IH. simpl. tauto.
Qed.

Lemma coalesced_take l1 b l2 need :
  coalesced (l1 ++ b :: l2) -> b_free b = true -> coalesced (l1 ++ take_result b need ++ l2).
Proof.
  intros H Hb. rewrite coalesced_app in H. destruct H as (H1 & H2 & H3).
  rewrite !coalesced_app. unfold take_result.
  destruct l2 as [|c l2]; simpl in H2;
    destruct (KHEAP_MIN_BLOCK <=? b_size b - need); simpl; rewrite ?Hb in *; simpl in *;
    repeat split; try done; try tauto; destruct (last l1); auto using andb_false_r.
Qed.

(** Membership of the free list after removing one address. *)
Lemma unfree_iff hp l1 b l2 f1 f2 :
  heap_inv hp (l1 ++ b :: l2) (f1 ++ b_addr b :: f2) ->
  forall a, a ∈ f1 ++ f2 <-> exists c, c ∈ l1 ++ l2 /\ b_free c = true /\ b_addr c = a.
Proof.
  intros I a. pose proof (hi_mem _ _ _ I) as M. pose proof (hr_tiles _ _ _ _ M) as T.
  pose proof (hr_nodup _ _ _ _ M) as Hnd. apply NoDup_app in Hnd as (_ & Hd1 & Hd2).
  apply NoDup_cons in Hd2 as [Hd2 _].
  apply tiles_mid in T as (T1 & T2 & _ & T4). split.
  - intros Ha. assert (Ha' : a ∈ f1 ++ b_addr b :: f2) by set_solver.
    apply (hi_free _ _ _ I) in Ha' as (c & Hc & Hcf & <-).
    exists c. apply elem_of_mid in Hc as [Hc|[->|Hc]]; [set_solver| |set_solver].
    exfalso. apply elem_of_app in Ha as [Ha|Ha]; [|done]. eapply Hd1; eauto. left.
  - intros (c & Hc & Hcf & <-).
    assert (Ha' : b_addr c ∈ f1 ++ b_addr b :: f2).
    { apply (hi_free _ _ _ I). exists c. split; [|done]. rewrite elem_of_mid. set_solver. }
    apply elem_of_mid in Ha' as [|[E|]]; [set_solver| |set_solver]. exfalso.
    apply elem_of_app in Hc as [Hc|Hc].
    + pose proof (tiles_bounds _ _ _ _ T1 Hc). hlia.
    + pose proof (tiles_bounds _ _ _ _ T4 Hc). hlia.
Qed.

Lemma take_spec hp l1 b l2 fl need :
  heap_inv hp (l1 ++ b :: l2) fl -> b_free b = true ->
  48 <= need -> need mod 16 = 0 -> need <= b_size b ->
  (exists fl', heap_inv (kmalloc_take hp (b_addr b) need) (l1 ++ take_result b need ++ l2) fl') /\
  forall c x, c ∈ l1 ++ l2 -> b_free c = false -> payload c x ->
    hm (kmalloc_take hp (b_addr b) need) x = hm hp x.
Proof.
  intros I Hfree Hn1 Hn2 Hle. pose proof (hi_mem _ _ _ I) as M.
  assert (Hb : b ∈ l1 ++ b :: l2) by (apply elem_of_mid; auto).
  pose proof (tiles_bounds _ _ _ _ (hr_tiles _ _ _ _ M) Hb) as Hbb.
  pose proof (hr_lim _ _ _ _ M) as Hlim. pose proof (hr_base _ _ _ _ M) as Hbase.
  destruct (hr_blk _ _ _ _ M b Hb) as (Bs & _ & Bm & _); [hlia|].
  assert (Hin : b_addr b ∈ fl) by (apply (hi_free _ _ _ I); eauto).
  apply list_elem_of_split in Hin as (f1 & f2 & ->).
  pose proof (unfree_iff _ _ _ _ _ _ I) as Hun.
  assert (Hpay : forall c x, c ∈ l1 ++ l2 -> b_free c = false -> payload c x ->
    (x < b_addr b \/ b_addr b + b_size b <= x) /\
    forall y, y ∈ f1 ++ b_addr b :: f2 -> x < y + 24 \/ y + 40 <= x).
  { intros c x Hc Hcf Hx. unfold payload in Hx.
    assert (Hc' : c ∈ l1 ++ b :: l2) by (rewrite elem_of_mid; set_solver).
    pose proof (tiles_bounds _ _ _ _ (hr_tiles _ _ _ _ M) Hc').
    split; [|eapply blk_not_link; [exact M|exact Hc'|hlia]].
    destruct (tiles_apart _ _ _ _ _ (hr_tiles _ _ _ _ M) Hb Hc') as [E|?]; [congruence|hlia]. }
  unfold kmalloc_take, take_result. rewrite Bs, (u64_small (b_size b - need)) by hlia.
  destruct (Z.leb_spec KHEAP_MIN_BLOCK (b_size b - need)) as [Hsp|Hno].
  - destruct (take_split _ _ _ _ _ need M Hfree) as (M1 & S1 & G1 & F1); [done|done|hlia|].
    rewrite Bs, (u64_small (b_size b - need)) in M1, S1, G1, F1 by hlia.
    match type of M1 with heap_mem ?h _ _ _ => set (hp1 := h) in * end.
    destruct (take_finish hp1 l1 (b_addr b) need (Blk (b_addr b + need) (b_size b - need) true :: l2)
                ((b_addr b + need) :: f1) f2 M1 S1 G1) as (M2 & F2).
    split.
    + eexists. constructor; [exact M2| |].
      * intros a. simpl. rewrite elem_of_cons, Hun. split.
        -- intros [->|(c & Hc & ?)]; [exists (Blk (b_addr b + need) (b_size b - need) true); split; [|done]|exists c; split; [|done]]; set_solver.
        -- intros (c & Hc & Hcf & <-). rewrite elem_of_mid, elem_of_cons in Hc.
           destruct Hc as [Hc|[->|[->|Hc]]]; [|done|by left|]; right; exists c; set_solver.
      * pose proof (coalesced_take _ _ _ need (hi_coal _ _ _ I) Hfree) as C.
        unfold take_result in C. destruct (Z.leb_spec KHEAP_MIN_BLOCK (b_size b - need)); [exact C|hlia].
    + intros c x Hc Hcf Hx. destruct (Hpay c x Hc Hcf Hx) as [Hx1 Hx2].
      rewrite F2; [by apply F1; [|set_solver]|lia|].
      intros y Hy. simpl in Hy. apply elem_of_cons in Hy as [->|Hy]; [hlia|auto].
  - destruct b as [a sz fr]. simpl in *. subst fr.
    destruct (take_finish hp l1 a sz l2 f1 f2) as (M2 & F2); [by apply hole_open|done|done|].
    split.
    + eexists. constructor; [exact M2| |].
      * intros y. rewrite Hun. split; intros (c & Hc & Hcf & <-); exists c; (split; [|done]).
        -- set_solver.
        -- apply elem_of_mid in Hc as [|[->|]]; [set_solver|done|set_solver].
      * pose proof (coalesced_take _ _ _ need (hi_coal _ _ _ I) eq_refl) as C.
        unfold take_result in C. simpl in C.
        destruct (Z.leb_spec KHEAP_MIN_BLOCK (sz - need)); [hlia|exact C].
    + intros c x Hc Hcf Hx. destruct (Hpay c x Hc Hcf Hx) as [Hx1 Hx2]. by apply F2.
Qed.

(** [kmalloc] never panics and always terminates on a well-formed heap.
    It returns NULL, changing nothing, exactly when no free block is as large
    as the rounded request; otherwise it returns the payload of a free block,
    which is split when the remainder can hold a block.  The heap stays
    well-formed (tiled, footers and free list consistent, no two adjacent free
    blocks) and no byte of any live allocation's payload changes. *)
Lemma kmalloc_ok (hp : heap) (bs : list blk) (fl : list Z) (size : Z)
  (I : heap_inv hp bs fl) :
  (exists l1 b l2 hp' fl',
     bs = l1 ++ b :: l2 /\ b_free b = true /\ kmalloc_need size <= b_size b /\
     kmalloc hp size = Ok (hp', b_addr b + HDR_SIZE) /\
     heap_inv hp' (l1 ++ take_result b (kmalloc_need size) ++ l2) fl' /\
     forall c x, c ∈ bs -> b_free c = false -> payload c x -> hm hp' x = hm hp x)
  \/ ((forall b, b ∈ bs -> b_free b = true -> b_size b < kmalloc_need size) /\
      kmalloc hp size = Ok (hp, 0)).
Proof.
  pose proof (hi_mem _ _ _ I) as M. pose proof (need_ok size) as [Hn1 Hn2].
  unfold kmalloc. pose proof (hr_base _ _ _ _ M).
  destruct (Z.eqb_spec (g_base hp) 0); [lia|].
  change (g_free_head hp) with (fwd (hm hp) (g_free_head hp) 0).
  destruct (walk_spec hp bs fl (kmalloc_need size) I (walk_fuel hp) [] fl 0)
    as [(b & Hb & Hbf & Hle & ->)|H1]; [done|apply M| |by apply (fl_length _ bs)| |by right].
  { intros b _ Hb. by apply not_elem_of_nil in Hb. }
  left. apply list_elem_of_split in Hb as (l1 & l2 & ->).
  destruct (take_spec _ _ _ _ _ (kmalloc_need size) I Hbf (proj1 Hn1) Hn2 Hle) as ((fl' & I') & F).
  exists l1, b, l2, (kmalloc_take hp (b_addr b) (kmalloc_need size)), fl'.
  split; [done|]. split; [done|]. split; [done|]. split; [done|]. split; [done|].
  intros c x Hc Hcf. apply F; [|done]. apply elem_of_mid in Hc as [|[->|]]; [set_solver|congruence|set_solver].
Qed.

(** [kmalloc] writes only inside the region. *)
Lemma take_outside hp l1 b l2 fl need x :
  heap_inv hp (l1 ++ b :: l2) fl -> b_free b = true ->
  48 <= need -> need mod 16 = 0 -> need <= b_size b ->
  x < g_base hp \/ g_base hp + g_size hp <= x ->
  hm (kmalloc_take hp (b_addr b) need) x = hm hp x.
Proof.
  intros I Hfree Hn1 Hn2 Hle Hx. pose proof (hi_mem _ _ _ I) as M.
  assert (Hb : b ∈ l1 ++ b :: l2) by (apply elem_of_mid; auto).
  pose proof (tiles_bounds _ _ _ _ (hr_tiles _ _ _ _ M) Hb) as Hbb.
  pose proof (hr_lim _ _ _ _ M) as Hlim. pose proof (hr_base _ _ _ _ M) as Hbase.
  destruct (hr_blk _ _ _ _ M b Hb) as (Bs & _ & Bm & _); [hlia|].
  assert (Hin : b_addr b ∈ fl) by (apply (hi_free _ _ _ I); eauto).
  apply list_elem_of_split in Hin as (f1 & f2 & ->).
  assert (Hy : forall y, y ∈ f1 ++ b_addr b :: f2 -> x < y + 24 \/ y + 40 <= x).
  { intros y Hy. destruct (hr_fl _ _ _ _ M y Hy) as (c & Hc & <-).
    pose proof (tiles_bounds _ _ _ _ (hr_tiles _ _ _ _ M) Hc). hlia. }
  unfold kmalloc_take. rewrite Bs, (u64_small (b_size b - need)) by hlia.
  destruct (Z.leb_spec KHEAP_MIN_BLOCK (b_size b - need)) as [Hsp|Hno].
  - destruct (take_split _ _ _ _ _ need M Hfree) as (M1 & S1 & G1 & F1); [done|done|hlia|].
    rewrite Bs, (u64_small (b_size b - need)) in M1, S1, G1, F1 by hlia.
    match type of M1 with heap_mem ?h _ _ _ => set (hp1 := h) in * end.
    destruct (take_finish hp1 l1 (b_addr b) need (Blk (b_addr b + need) (b_size b - need) true :: l2)
                ((b_addr b + need) :: f1) f2 M1 S1 G1) as (_ & F2).
    rewrite F2; [apply F1; [hlia|exact Hy]|hlia|].
    intros y Hyy. simpl in Hyy. apply elem_of_cons in Hyy as [->|Hyy]; [hlia|auto].
  - destruct b as [a sz fr]. simpl in *. subst fr.
    destruct (take_finish hp l1 a sz l2 f1 f2) as (_ & F2); [by apply hole_open|done|done|].
    apply F2; [hlia|exact Hy].
Qed.

Lemma kmalloc_outside hp bs fl size hp' p x :
  heap_inv hp bs fl -> kmalloc hp size = Ok (hp', p) ->
  x < g_base hp \/ g_base hp + g_size hp <= x -> hm hp' x = hm hp x.
Proof.
  intros I E Hx. pose proof (hi_mem _ _ _ I) as M. pose proof (need_ok size) as [Hn1 Hn2].
  unfold kmalloc in E. pose proof (hr_base _ _ _ _ M).
  destruct (Z.eqb_spec (g_base hp) 0); [lia|].
  change (g_free_head hp) with (fwd (hm hp) (g_free_head hp) 0) in E.
  destruct (walk_spec hp bs fl (kmalloc_need size) I (walk_fuel hp) [] fl 0)
    as [(b & Hb & Hbf & Hle & E1)|[_ E1]]; [done|apply M| |by apply (fl_length _ bs)| |].
  { intros b _ Hb. by apply not_elem_of_nil in Hb. }
  - rewrite E1 in E. injection E as <- _. apply list_elem_of_split in Hb as (l1 & l2 & ->).
    by apply (take_outside _ l1 b l2 fl); try lia.
  - rewrite E1 in E. by injection E as <- _.
Qed.

(** ** Release *)

(** A block being released: its header is the hole, every other free block is
    on the list. *)
Record releasing (hp : heap) (l1 : list blk) (b : blk) (l2 : list blk) (fl : list Z) : Prop := {
  rl_mem : heap_mem hp (l1 ++ b :: l2) fl (b_addr b);
  rl_size : h_size (hm hp) (b_addr b) = b_size b;
  rl_magic : h_magic (hm hp) (b_addr b) = KHEAP_MAGIC;
  rl_free : forall a, a ∈ fl <-> exists c, c ∈ l1 ++ l2 /\ b_free c = true /\ b_addr c = a
}.

(** Merging with the following and with the preceding block, abstractly. *)
Definition free_fwd (b : blk) (l2 : list blk) : blk * list blk :=
  match l2 with
  | n :: l2' => if b_free n then (Blk (b_addr b) (b_size b + b_size n) true, l2') else (b, l2)
  | [] => (b, l2)
  end.
Definition free_bwd (l1 : list blk) (b : blk) : list blk * blk :=
  match last l1 with
  | Some x => if b_free x then (removelast l1, Blk (b_addr x) (b_size x + b_size b) true) else (l1, b)
  | None => (l1, b)
  end.

Lemma minus_one_iff (f1 f2 : list Z) (la lb : list blk) n :
  (forall a, a ∈ f1 ++ b_addr n :: f2 <-> exists c, c ∈ la ++ n :: lb /\ b_free c = true /\ b_addr c = a) ->
  NoDup (f1 ++ b_addr n :: f2) ->
  (forall c, c ∈ la ++ lb -> b_addr c <> b_addr n) ->
  forall a, a ∈ f1 ++ f2 <-> exists c, c ∈ la ++ lb /\ b_free c = true /\ b_addr c = a.
Proof.
  intros H Hnd Hne a. apply NoDup_app in Hnd as (_ & Hd1 & Hd2). apply NoDup_cons in Hd2 as [Hd2 _].
  specialize (H a). rewrite elem_of_mid in H. split.
  - intros Ha. destruct (proj1 H) as (c & Hc & Hcf & <-); [set_solver|].
    exists c. apply elem_of_mid in Hc as [Hc|[->|Hc]]; [set_solver| |set_solver].
    exfalso. apply elem_of_app in Ha as [Ha|Ha]; [|done]. eapply Hd1; eauto. left.
  - intros (c & Hc & Hcf & <-). apply Hne in Hc as Hcn.
    destruct (proj2 H) as [?|[?|?]]; [exists c; rewrite elem_of_mid; set_solver|set_solver|done|set_solver].
Qed.

Lemma tiles_nodup bs : forall a e, tiles a bs e -> NoDup (b_addr <$> bs).
Proof.
  induction bs as [|b bs IH]; intros a e H; simpl; [constructor|].
  destruct H as (<- & Hs & _ & H). apply NoDup_cons. split; [|eauto].
  intros Hin. apply list_elem_of_fmap in Hin as (c & Hc & Hin).
  pose proof (tiles_bounds _ _ _ _ H Hin). hlia.
Qed.

Section release.
Context (hp : heap) (l1 : list blk) (b : blk) (l2 : list blk) (fl : list Z).
Hypothesis R : releasing hp l1 b l2 fl.

Lemma rl_bounds :
  65536 <= g_base hp /\ g_base hp + g_size hp < 2 ^ 64 /\ g_base hp <= b_addr b /\
  b_addr b + b_size b <= heap_end hp /\ 48 <= b_size b.
Proof.
  pose proof (rl_mem _ _ _ _ _ R) as M. pose proof (hr_tiles _ _ _ _ M) as T.
  assert (Hb : b ∈ l1 ++ b :: l2) by (apply elem_of_mid; auto).
  pose proof (tiles_bounds _ _ _ _ T Hb). pose proof (hr_base _ _ _ _ M). pose proof (hr_lim _ _ _ _ M). hlia.
Qed.

(** [n] is another free block: it leaves the list and its header stays readable. *)
Lemma rl_unlink n la lb :
  la ++ n :: lb = l1 ++ l2 -> b_free n = true ->
  exists f1 f2, fl = f1 ++ b_addr n :: f2 /\
  let hp' := free_unlink hp (b_addr n) in
  heap_mem hp' (l1 ++ b :: l2) (f1 ++ f2) (b_addr b) /\ b_addr n ∉ f1 ++ f2 /\
  g_base hp' = g_base hp /\ g_size hp' = g_size hp /\
  (forall c x, c ∈ l1 ++ b :: l2 ->
     b_addr c <= x < b_addr c + 24 \/ b_addr c + 40 <= x < b_addr c + b_size c -> hm hp' x = hm hp x) /\
  (forall a, a ∈ f1 ++ f2 <-> exists c, c ∈ la ++ lb /\ b_free c = true /\ b_addr c = a).
Proof.
  intros E Hn. pose proof (rl_mem _ _ _ _ _ R) as M. pose proof (hr_tiles _ _ _ _ M) as T.
  assert (Hin : b_addr n ∈ fl) by (apply (rl_free _ _ _ _ _ R); exists n; rewrite <- E; set_solver).
  apply list_elem_of_split in Hin as (f1 & f2 & Ef). exists f1, f2. split; [done|].
  intros hp'. rewrite Ef in M. pose proof (unlink_mem _ _ _ _ _ _ M) as M'.
  pose proof (hr_nodup _ _ _ _ M) as Hnd.
  split; [done|]. split; [|split; [|split; [|split]]].
  - apply NoDup_app in Hnd as (_ & Hd1 & Hd2). apply NoDup_cons in Hd2 as [Hd2 _].
    intros Hin. apply elem_of_app in Hin as [Hin|Hin]; [|done]. eapply Hd1; eauto. left.
  - unfold hp', free_unlink. repeat case_match; done.
  - unfold hp', free_unlink. repeat case_match; done.
  - intros c x Hc Hx. apply (free_unlink_frame _ _ _ _ _ _ M).
    eapply blk_not_link; [exact M|exact Hc|exact Hx].
  - pose proof (rl_free _ _ _ _ _ R) as F. rewrite Ef, <- E in F.
    apply (minus_one_iff f1 f2 la lb n F Hnd). intros c Hc Heq.
    pose proof (tiles_nodup _ _ _ T) as Hn1.
    rewrite fmap_app, fmap_cons, NoDup_app, NoDup_cons in Hn1.
    assert (Hn2 : NoDup (b_addr <$> la ++ n :: lb)).
    { rewrite E, fmap_app, NoDup_app. set_solver. }
    rewrite fmap_app, fmap_cons, NoDup_app, NoDup_cons in Hn2. set_solver.
Qed.
End release.

(** Bytes of a live block other than the one being released. *)
Definition live (l : list blk) (x : Z) : Prop := exists c, c ∈ l /\ b_free c = false /\ payload c x.

Lemma fwd_spec hp l1 b l2 fl :
  releasing hp l1 b l2 fl ->
  let '(b', l2') := free_fwd b l2 in
  (exists fl', releasing (coalesce_fwd hp (b_addr b)) l1 b' l2' fl') /\
  b_addr b' = b_addr b /\
  forall x, live (l1 ++ l2) x -> hm (coalesce_fwd hp (b_addr b)) x = hm hp x.
Proof.
  intros R. pose proof (rl_bounds _ _ _ _ _ R) as (B1 & B2 & B3 & B4 & B5).
  pose proof (rl_mem _ _ _ _ _ R) as M. pose proof (hr_tiles _ _ _ _ M) as T.
  pose proof (rl_size _ _ _ _ _ R) as Hsz.
  unfold coalesce_fwd, block_after. rewrite Hsz.
  apply tiles_mid in T as (T1 & T2 & T3 & T4).
  destruct l2 as [|n l2]; simpl in T4.
  - simpl. rewrite T4. destruct (Z.leb_spec (g_base hp + g_size hp) (heap_end hp)); [hlia|].
    destruct (Z.ltb_spec (g_base hp + g_size hp) (heap_end hp + HDR_SIZE)); [hlia|]. simpl.
    rewrite (hr_sent _ _ _ _ M). simpl. eauto.
  - destruct T4 as (T4 & T5 & T6 & T7). apply tiles_le in T7 as T7'.
    rewrite <- T4. destruct (Z.leb_spec (g_base hp + g_size hp) (b_addr n)); [hlia|].
    destruct (Z.ltb_spec (g_base hp + g_size hp) (b_addr n + HDR_SIZE)); [hlia|]. simpl.
    assert (Hn : n ∈ l1 ++ b :: n :: l2) by (rewrite elem_of_mid, elem_of_cons; auto).
    assert (Hb : b ∈ l1 ++ b :: n :: l2) by (rewrite elem_of_mid; auto).
    destruct (hr_blk _ _ _ _ M n Hn) as (Ns & Nf & _); [hlia|]. rewrite Nf.
    destruct (b_free n) eqn:En; simpl; [|eauto].
    destruct (rl_unlink _ _ _ _ _ R n l1 l2 eq_refl En) as (f1 & f2 & -> & M' & Hnf & G1 & G2 & F & Fl).
    set (hp' := free_unlink hp (b_addr n)) in *.
    assert (S1 : h_size (hm hp') (b_addr b) = b_size b)
      by (rewrite <- Hsz; apply ld64_ext; intros; apply (F b); [done|lia]).
    assert (S2 : h_size (hm hp') (b_addr n) = b_size n)
      by (rewrite <- Ns; apply ld64_ext; intros; apply (F n); [done|lia]).
    assert (S3 : h_magic (hm hp') (b_addr b) = KHEAP_MAGIC)
      by (rewrite <- (rl_magic _ _ _ _ _ R); apply ld32_ext; intros; apply (F b); [done|lia]).
    rewrite S1, S2, u64_small by hlia.
    split; [|split; [done|]].
    + exists (f1 ++ f2). constructor; simpl.
      * apply (reshape_merge _ l1 b n l2 _ (b_addr b)); [|by left|done].
        apply (hole_write hp' _ _ b); [exact M'|done|]. intros x Hx. apply st64_outside. lia.
      * unfold h_size. apply ld64_st64_same. hlia.
      * unfold h_magic in *. rewrite ld32_st64_apart by lia. done.
      * exact Fl.
    + intros x (c & Hc & Hcf & Hx). unfold payload in Hx. simpl.
      assert (Hc' : c ∈ l1 ++ b :: n :: l2) by (rewrite elem_of_mid; set_solver).
      pose proof (tiles_bounds _ _ _ _ (hr_tiles _ _ _ _ M) Hc').
      rewrite st64_outside; [apply (F c); [done|hlia]|].
      apply elem_of_app in Hc as [Hc|Hc].
      * pose proof (tiles_bounds _ _ _ _ T1 Hc). hlia.
      * apply elem_of_cons in Hc as [->|Hc]; [congruence|].
        pose proof (tiles_bounds _ _ _ _ T7 Hc). hlia.
Qed.

Lemma last_split {A} (l : list A) x : last l = Some x -> l = removelast l ++ [x].
Proof.
  intros H. apply last_Some in H as (l' & ->). by rewrite removelast_last.
Qed.

Lemma bwd_spec hp l1 b l2 fl :
  releasing hp l1 b l2 fl ->
  let '(l1', b') := free_bwd l1 b in
  exists hp', coalesce_bwd hp (b_addr b) = (hp', b_addr b') /\
  (exists fl', releasing hp' l1' b' l2 fl') /\
  forall x, live (l1 ++ l2) x -> hm hp' x = hm hp x.
Proof.
  intros R. pose proof (rl_bounds _ _ _ _ _ R) as (B1 & B2 & B3 & B4 & B5).
  pose proof (rl_mem _ _ _ _ _ R) as M. pose proof (hr_tiles _ _ _ _ M) as T.
  pose proof (rl_size _ _ _ _ _ R) as Hsz.
  unfold coalesce_bwd, free_bwd.
  destruct (last l1) as [n|] eqn:El.
  2:{ apply last_None in El as ->. simpl in T. destruct T as (Ta & _).
      destruct (Z.ltb_spec (g_base hp) (b_addr b)); [lia|]. eauto. }
  apply last_split in El. set (la := removelast l1) in *.
  assert (El2 : l1 ++ b :: l2 = la ++ n :: b :: l2) by (rewrite El at 1; by rewrite <- app_assoc).
  rewrite El2 in T, M. pose proof T as T0. apply tiles_mid in T as (T1 & T2 & T3 & T4).
  simpl in T4. destruct T4 as (T4 & T5 & T6 & T7). apply tiles_le in T1 as T1'.
  assert (Hn : n ∈ la ++ n :: b :: l2) by (rewrite elem_of_mid; auto).
  assert (Hb : b ∈ la ++ n :: b :: l2) by (rewrite elem_of_mid, elem_of_cons; auto).
  destruct (hr_blk _ _ _ _ M n Hn) as (Ns & Nf & Nm & Nt); [hlia|].
  destruct (Z.ltb_spec (g_base hp) (b_addr b)); [|hlia].
  replace (b_addr b - FOOT_SIZE) with (b_addr n + b_size n - FOOT_SIZE) by lia. rewrite Nt.
  replace (b_addr b - b_size n) with (b_addr n) by lia.
  destruct (Z.leb_spec (g_base hp) (b_addr n)); [|hlia]. simpl. rewrite Nf.
  destruct (b_free n) eqn:En; simpl; [|eauto].
  destruct (rl_unlink _ _ _ _ _ R n la l2) as (f1 & f2 & -> & M' & Hnf & G1 & G2 & F & Fl);
    [rewrite El at 1; by rewrite <- app_assoc|done|].
  set (hp' := free_unlink hp (b_addr n)) in *. rewrite El2 in M', F.
  assert (S1 : h_size (hm hp') (b_addr b) = b_size b)
    by (rewrite <- Hsz; apply ld64_ext; intros; apply (F b); [done|lia]).
  assert (S2 : h_size (hm hp') (b_addr n) = b_size n)
    by (rewrite <- Ns; apply ld64_ext; intros; apply (F n); [done|lia]).
  assert (S3 : h_magic (hm hp') (b_addr n) = KHEAP_MAGIC)
    by (rewrite <- Nm; apply ld32_ext; intros; apply (F n); [done|lia]).
  rewrite S1, S2, u64_small by hlia.
  assert (Hbf : b_addr b ∉ f1 ++ f2).
  { intros Hin. apply Fl in Hin as (c & Hc & _ & Ec). apply elem_of_app in Hc as [Hc|Hc].
    - pose proof (tiles_bounds _ _ _ _ T1 Hc). hlia.
    - pose proof (tiles_bounds _ _ _ _ T7 Hc). hlia. }
  eexists. split; [reflexivity|]. split.
  - exists (f1 ++ f2). constructor; simpl.
    + pose proof (reshape_merge _ la n b l2 _ _ true M' (or_intror eq_refl) Hbf) as M2.
      apply (hole_write hp' _ _ (Blk (b_addr n) (b_size n + b_size b) true)); [exact M2| |].
      * apply elem_of_mid; auto.
      * simpl. intros x Hx. apply st64_outside. lia.
    + unfold h_size. apply ld64_st64_same. hlia.
    + unfold h_magic in *. rewrite ld32_st64_apart by lia. done.
    + exact Fl.
  - intros x (c & Hc & Hcf & Hx). unfold payload in Hx. simpl.
    rewrite El, <- app_assoc in Hc. simpl in Hc.
    assert (Hc' : c ∈ la ++ n :: b :: l2) by (rewrite elem_of_mid, elem_of_cons; set_solver).
    pose proof (tiles_bounds _ _ _ _ T0 Hc').
    rewrite st64_outside; [apply (F c); [done|hlia]|].
    apply elem_of_mid in Hc as [Hc|[->|Hc]]; [|congruence|].
    + pose proof (tiles_bounds _ _ _ _ T1 Hc). hlia.
    + pose proof (tiles_bounds _ _ _ _ T7 Hc). hlia.
Qed.

(** The end of [kfree]: the footer is written and the block joins the list. *)
Lemma release_finish hp l1 b l2 fl :
  releasing hp l1 b l2 fl -> b_free b = true ->
  let hp1 := with_mem hp (set_footer (hm hp) (b_addr b)) in
  let hp2 := free_link hp1 (b_addr b) in
  heap_mem hp2 (l1 ++ b :: l2) (b_addr b :: fl) 0 /\
  (forall a, a ∈ b_addr b :: fl <-> exists c, c ∈ l1 ++ b :: l2 /\ b_free c = true /\ b_addr c = a) /\
  forall x, live (l1 ++ l2) x -> hm hp2 x = hm hp x.
Proof.
  intros R Hf hp1 hp2. pose proof (rl_bounds _ _ _ _ _ R) as (B1 & B2 & B3 & B4 & B5).
  pose proof (rl_mem _ _ _ _ _ R) as M. pose proof (hr_tiles _ _ _ _ M) as T.
  pose proof (rl_size _ _ _ _ _ R) as Hsz. pose proof (rl_free _ _ _ _ _ R) as Fl.
  assert (Hb : b ∈ l1 ++ b :: l2) by (rewrite elem_of_mid; auto).
  assert (Em : hm hp1 = st64 (hm hp) (b_addr b + b_size b - 8) (b_size b)).
  { unfold hp1, set_footer, footer_of. simpl. by rewrite Hsz. }
  assert (M1 : heap_mem hp1 (l1 ++ b :: l2) fl (b_addr b)).
  { apply hole_write; [done|done|]. intros x Hx.
    change (set_footer (hm hp) (b_addr b)) with (hm hp1). rewrite Em. apply st64_outside. hlia. }
  assert (Hnf : b_addr b ∉ fl).
  { intros Hin. apply Fl in Hin as (c & Hc & _ & Ec). apply tiles_mid in T as (T1 & _ & _ & T4).
    apply elem_of_app in Hc as [Hc|Hc].
    - pose proof (tiles_bounds _ _ _ _ T1 Hc). hlia.
    - pose proof (tiles_bounds _ _ _ _ T4 Hc). hlia. }
  assert (Hex : exists c, c ∈ l1 ++ b :: l2 /\ b_addr c = b_addr b) by eauto.
  pose proof (link_mem _ _ _ _ _ M1 Hnf Hex (or_introl eq_refl)) as M2. fold hp2 in M2.
  pose proof (free_link_frame _ _ _ _ _ M1 Hnf Hex) as F2. fold hp2 in F2.
  pose proof (free_link_free _ _ _ _ _ M1 Hnf Hex) as E2. fold hp2 in E2.
  assert (Fb : forall c x, c ∈ l1 ++ b :: l2 -> x < b_addr b + 8 \/ b_addr b + 16 <= x ->
     b_addr c <= x < b_addr c + 24 \/ b_addr c + 40 <= x < b_addr c + b_size c -> hm hp2 x = hm hp1 x).
  { intros c x Hc Hx1 Hx2. apply F2; [done|]. eapply blk_not_link; [exact M2|exact Hc|exact Hx2]. }
  split; [|split].
  - apply (hole_fill _ _ _ (b_addr b)); [exact M2|]. intros c Hc Ec.
    assert (c = b) as ->.
    { pose proof (tiles_bounds _ _ _ _ T Hc).
      destruct (tiles_apart _ _ _ _ _ T Hc Hb) as [->|?]; [done|hlia]. }
    unfold blk_ok. rewrite E2, Hf. unfold h_size, h_magic in *. hconst.
    rewrite !(ld64_ext (hm hp1) (hm hp2)) by (intros; apply (Fb b); [done|lia|lia]).
    rewrite (ld32_ext (hm hp1) (hm hp2)) by (intros; apply (Fb b); [done|lia|lia]).
    rewrite Em, ld64_st64_same, ld64_st64_apart, ld32_st64_apart by lia.
    split; [done|]. split; [done|]. split; [apply (rl_magic _ _ _ _ _ R)|done].
  - intros a. rewrite elem_of_cons, Fl. split.
    + intros [->|(c & Hc & ?)]; [exists b|exists c]; rewrite elem_of_mid; set_solver.
    + intros (c & Hc & Hcf & <-). apply elem_of_mid in Hc as [?|[->|?]];
        [right|by left|right]; exists c; set_solver.
  - intros x (c & Hc & Hcf & Hx). unfold payload in Hx.
    assert (Hc' : c ∈ l1 ++ b :: l2) by (rewrite elem_of_mid; set_solver).
    pose proof (tiles_bounds _ _ _ _ T Hc').
    assert (Hap : b_addr b + b_size b <= b_addr c \/ b_addr c + b_size c <= b_addr b)
      by (destruct (tiles_apart _ _ _ _ _ T Hb Hc') as [E|?]; [congruence|done]).
    rewrite (Fb c) by (auto; hlia). rewrite Em. apply st64_outside. hlia.
Qed.

(** The tiling after [b] is released. *)
Definition free_result (l1 : list blk) (b : blk) (l2 : list blk) : list blk :=
  let '(b1, l2') := free_fwd (Blk (b_addr b) (b_size b) true) l2 in
  let '(l1', b2) := free_bwd l1 b1 in l1' ++ b2 :: l2'.

Lemma coalesced_free l1 b l2 : coalesced (l1 ++ b :: l2) -> coalesced (free_result l1 b l2).
Proof.
  intros H. rewrite coalesced_app in H. destruct H as (H1 & H2 & _).
  unfold free_result, free_fwd.
  assert (K : forall s l2', coalesced l2' -> (match head l2' with Some n => b_free n = false | None => True end) ->
    coalesced (let '(l1', b2) := free_bwd l1 (Blk (b_addr b) s true) in l1' ++ b2 :: l2')).
  { intros s l2' C2 Hh. unfold free_bwd. destruct (last l1) as [x|] eqn:El.
    - apply last_split in El. destruct (b_free x) eqn:Ex.
      + rewrite El in H1. rewrite coalesced_app in H1. destruct H1 as (C1 & _ & C3). simpl in C3.
        rewrite coalesced_app. simpl. split; [done|]. split.
        * destruct l2'; [done|]. split; [simpl in *; by rewrite Hh|exact C2].
        * destruct (last (removelast l1)); [|done]. by rewrite Ex in C3.
      + rewrite coalesced_app. split; [done|]. split.
        * destruct l2'; [done|]. split; [simpl in *; by rewrite Hh|exact C2].
        * rewrite El, last_snoc. simpl. by rewrite Ex.
    - apply last_None in El as ->. simpl app. destruct l2'; [done|].
      split; [simpl in *; by rewrite Hh|exact C2]. }
  destruct l2 as [|n l2]; [by apply K|].
  assert (C2 : coalesced (n :: l2)) by apply H2. simpl in H2. destruct H2 as [_ H2].
  destruct (b_free n) eqn:En; [|apply (K (b_size b) (n :: l2)); [exact C2|exact En]].
  simpl. apply K; [destruct l2; [done|apply H2]|].
  destruct l2; [done|]. destruct H2 as [H2 _]. done.
Qed.

(** Releasing a live block never panics: [kfree] merges it with a free
    neighbour on either side (so that no two free blocks ever touch), puts the
    result on the free list, and leaves every other live payload untouched. *)
Lemma kfree_ok (hp : heap) (l1 : list blk) (b : blk) (l2 : list blk) (fl : list Z)
  (I : heap_inv hp (l1 ++ b :: l2) fl) (Hb : b_free b = false) :
  exists hp' fl', kfree hp (b_addr b + HDR_SIZE) = Ok hp' /\
    heap_inv hp' (free_result l1 b l2) fl' /\
    forall c x, c ∈ l1 ++ l2 -> b_free c = false -> payload c x -> hm hp' x = hm hp x.
Proof.
  pose proof (hi_mem _ _ _ I) as M. pose proof (hr_tiles _ _ _ _ M) as T.
  pose proof (hr_base _ _ _ _ M) as Hbase. pose proof (hr_lim _ _ _ _ M) as Hlim.
  assert (Hin : b ∈ l1 ++ b :: l2) by (rewrite elem_of_mid; auto).
  pose proof (tiles_bounds _ _ _ _ T Hin) as Hbb.
  destruct (hr_blk _ _ _ _ M b Hin) as (Bs & Bf & Bm & _); [hlia|].
  assert (R : releasing hp l1 (Blk (b_addr b) (b_size b) true) l2 fl).
  { constructor; simpl; auto.
    - apply reshape_flag with (f := b_free b). apply hole_open. by destruct b.
    - intros a. rewrite (hi_free _ _ _ I). split; intros (c & Hc & Hcf & <-); exists c; (split; [|done]).
      + apply elem_of_mid in Hc as [|[->|]]; [set_solver|congruence|set_solver].
      + rewrite elem_of_mid. set_solver. }
  unfold kfree. destruct (Z.eqb_spec (b_addr b + HDR_SIZE) 0); [hlia|].
  destruct (Z.ltb_spec (b_addr b + HDR_SIZE) 65536); [hlia|].
  replace (b_addr b + HDR_SIZE - HDR_SIZE) with (b_addr b) by lia.
  assert (kfree_bad hp (b_addr b) = false) as ->.
  { unfold kfree_bad. rewrite Bm, Bf, Bs, Hb, Z.eqb_refl, !u64_small by hlia. simpl.
    bdestr; simpl; try done; hlia. }
  unfold free_result.
  pose proof (coalesced_free _ _ _ (hi_coal _ _ _ I)) as C. unfold free_result in C.
  pose proof (fwd_spec _ _ _ _ _ R) as H1. simpl b_addr in H1.
  destruct (free_fwd _ l2) as [b1 l2'] eqn:E1. destruct H1 as ((fl1 & R1) & Ea & F1).
  pose proof (bwd_spec _ _ _ _ _ R1) as H2. rewrite Ea in H2.
  destruct (free_bwd l1 b1) as [l1' b2] eqn:E2. destruct H2 as (hp2 & -> & (fl2 & R2) & F2).
  assert (Hf1 : b_free b1 = true).
  { unfold free_fwd in E1. repeat case_match; by simplify_eq/=. }
  assert (Hf2 : b_free b2 = true).
  { unfold free_bwd in E2. repeat case_match; by simplify_eq/=. }
  destruct (release_finish _ _ _ _ _ R2 Hf2) as (M3 & Fl3 & F3).
  eexists. exists (b_addr b2 :: fl2). split; [reflexivity|]. split; [by constructor|].
  intros c x Hc Hcf Hx.
  assert (L1 : live (l1 ++ l2') x).
  { exists c. split; [|done]. unfold free_fwd in E1. destruct l2 as [|c0 l2]; simplify_eq/=; [done|].
    destruct (b_free c0) eqn:En; simplify_eq/=; [|done]. apply elem_of_mid in Hc as [|[->|]]; [set_solver|congruence|set_solver]. }
  assert (L2 : live (l1' ++ l2') x).
  { destruct L1 as (d & Hd & Hdf & Hdx). exists d. split; [|done]. unfold free_bwd in E2.
    destruct (last l1) as [c0|] eqn:El; simplify_eq/=; [|done]. apply last_split in El.
    destruct (b_free c0) eqn:En; simplify_eq/=; [|done]. rewrite El in Hd.
    rewrite <- app_assoc in Hd. apply elem_of_mid in Hd as [|[->|]]; [set_solver|congruence|set_solver]. }
  rewrite F3, F2 by done. apply F1. exists c. done.
Qed.
