(* ===== verification/HeapClient.v ===== *)
(** * The kernel heap as its clients see it

    The contract of mm/heap.c: initialisation gives one free block, a pointer
    returned by [kmalloc] owns its bytes until [kfree], [krealloc] keeps the
    contents, and a program that allocates, writes and frees in any order is
    simulated by a finite map from pointers to contents. *)
From S2P Require Import Prelude Mem Kstring Pmm Heap HeapSpec.
#[local] Open Scope Z_scope.

Ltac ldst := repeat first
  [ rewrite ld64_st64_same by lia | rewrite ld64_st64_apart by lia
  | rewrite ld32_st64_apart by lia | rewrite ld64_st32_apart by lia
  | rewrite ld32_st32_same by lia ].

(** The region as [kheap_init] leaves it. *)
Lemma format_inv m base size :
  65536 <= base -> 96 <= size -> size mod 16 = 0 -> base + size < 2 ^ 64 ->
  heap_inv (kheap_format m base size) [Blk base (size - 48) true] [base].
Proof.
  intros Hb Hs Hm Hl.
  assert (E : u64 (size - HDR_SIZE - FOOT_SIZE) = size - 48) by (rewrite u64_small; hlia).
  unfold kheap_format. rewrite E. generalize (memset m base 0 size) as m0. intros m0.
  assert (F : forall m4, ld64 m4 base = size - 48 -> set_footer m4 base = st64 m4 (base + size - 56) (size - 48)).
  { intros m4 H4. unfold set_footer, footer_of, h_size. rewrite H4. f_equal. hlia. }
  rewrite F by by ldst.
  constructor; [constructor|..]; simpl; unfold h_size, h_free, h_prev, fwd, h_next; hconst; simpl.
  - done.
  - done.
  - repeat split; try lia. replace (size - 48) with (size + -3 * 16) by lia. by rewrite Z.mod_add.
  - replace (base + size - 40 - 8 + 8) with (base + size - 40) by lia. by ldst.
  - intros b Hin _. apply list_elem_of_singleton in Hin as ->.
    unfold blk_ok, h_size, h_free, h_magic. hconst. simpl. unfold KHEAP_MAGIC.
    replace (base + (size - 48) - 8) with (base + size - 56) by lia. repeat split; by ldst.
  - destruct (Z.eqb_spec base 0); [lia|]. repeat split; try lia; by ldst.
  - apply NoDup_singleton.
  - intros y Hy. apply list_elem_of_singleton in Hy as ->. eexists. split; [by left|done].
  - intros a. rewrite list_elem_of_singleton. split.
    + intros ->. eexists. split; [by left|]. done.
    + intros (b & Hin & _ & <-). by apply list_elem_of_singleton in Hin as ->.
  - done.
Qed.

(** A client may write anywhere inside the payload of a live block. *)
Lemma payload_write hp bs fl b m' :
  heap_inv hp bs fl -> b ∈ bs -> b_free b = false ->
  (forall x, ~ payload b x -> m' x = hm hp x) -> heap_inv (with_mem hp m') bs fl.
Proof.
  intros I Hb Hf Hm. destruct I as [M If Ic]. unfold payload in Hm. constructor; [|done|done].
  pose proof (tiles_bounds _ _ _ _ (hr_tiles _ _ _ _ M) Hb) as Hbb. pose proof (hr_base _ _ _ _ M).
  apply (hole_fill _ _ _ (b_addr b)).
  - apply hole_write; [by apply hole_open|done|]. intros x Hx. apply Hm. hlia.
  - intros c Hc Ec.
    assert (c = b) as ->.
    { destruct (tiles_apart _ _ _ _ _ (hr_tiles _ _ _ _ M) Hc Hb) as [|?]; [done|].
      pose proof (tiles_bounds _ _ _ _ (hr_tiles _ _ _ _ M) Hc). hlia. }
    eapply blk_ok_ext; [|apply (hr_blk _ _ _ _ M); [done|hlia]]. simpl. intros x Hx. apply Hm. hlia.
Qed.

(** Live blocks of a tiling. *)
Definition used (bs : list blk) (b : blk) : Prop := b ∈ bs /\ b_free b = false.

Lemma used_apart hp bs fl b c :
  heap_inv hp bs fl -> used bs b -> used bs c -> b <> c ->
  b_addr b + b_size b <= b_addr c \/ b_addr c + b_size c <= b_addr b.
Proof.
  intros I [Hb _] [Hc _] Hne.
  by destruct (tiles_apart _ _ _ _ _ (hr_tiles _ _ _ _ (hi_mem _ _ _ I)) Hb Hc).
Qed.

Lemma used_range hp bs fl b :
  heap_inv hp bs fl -> used bs b ->
  65536 <= b_addr b /\ b_addr b + b_size b < 2 ^ 64 /\ 48 <= b_size b /\ h_size (hm hp) (b_addr b) = b_size b.
Proof.
  intros I [Hb _]. pose proof (hi_mem _ _ _ I) as M.
  pose proof (tiles_bounds _ _ _ _ (hr_tiles _ _ _ _ M) Hb). pose proof (hr_base _ _ _ _ M).
  pose proof (hr_lim _ _ _ _ M). destruct (hr_blk _ _ _ _ M b Hb) as (? & _); hlia.
Qed.

(** [kmalloc] in terms of live blocks: one new live block, apart from all the
    others, which keep their bytes. *)
Lemma kmalloc_fresh hp bs fl size :
  heap_inv hp bs fl -> 0 <= size <= 2 ^ 64 - 64 ->
  kmalloc hp size = Ok (hp, 0) \/
  exists hp' bs' fl' nb, kmalloc hp size = Ok (hp', b_addr nb + HDR_SIZE) /\ heap_inv hp' bs' fl' /\
    used bs' nb /\ size + 48 <= b_size nb /\
    (forall c, used bs' c <-> used bs c \/ c = nb) /\
    (forall c, used bs c -> c <> nb) /\
    (forall c x, used bs c -> payload c x -> hm hp' x = hm hp x).
Proof.
  intros I Hsz. destruct (kmalloc_ok hp bs fl size I) as [(l1 & b & l2 & hp' & fl' & -> & Hf & Hn & E & I' & F)|[_ E]];
    [|by left]. right.
  pose proof (need_fits size Hsz) as Hfit. pose proof (hr_tiles _ _ _ _ (hi_mem _ _ _ I)) as T.
  set (nb := Blk (b_addr b) (if KHEAP_MIN_BLOCK <=? b_size b - kmalloc_need size then kmalloc_need size else b_size b) false).
  assert (Hnb : forall c, used (l1 ++ take_result b (kmalloc_need size) ++ l2) c <-> used (l1 ++ b :: l2) c \/ c = nb).
  { intros c. unfold used, take_result, nb. destruct (KHEAP_MIN_BLOCK <=? _).
    all: rewrite !elem_of_app, !elem_of_cons, elem_of_nil;
      split; [intros [H ?]; destruct_or! H; subst; simpl in *; try done; tauto|];
      intros [[H ?]| ->]; [destruct_or! H; subst; try congruence; tauto|simpl; tauto]. }
  exists hp', (l1 ++ take_result b (kmalloc_need size) ++ l2), fl', nb. split; [exact E|]. split; [exact I'|]. split; [apply Hnb; by right|].
  split; [unfold nb; simpl; destruct (KHEAP_MIN_BLOCK <=? _); lia|]. split; [exact Hnb|].
  split; [|intros c x [Hc Hcf]; by apply F].
  intros c [Hc Hcf] ->. assert (Hb : b ∈ l1 ++ b :: l2) by (rewrite elem_of_mid; auto).
  destruct (tiles_apart _ _ _ _ _ T Hc Hb) as [Heq|H]; [rewrite <- Heq in Hf; done|].
  pose proof (tiles_bounds _ _ _ _ T Hc). pose proof (tiles_bounds _ _ _ _ T Hb). unfold nb in *; simpl in *. hlia.
Qed.

(** [kfree] in terms of live blocks: exactly the given one disappears. *)
Lemma kfree_gone hp bs fl b :
  heap_inv hp bs fl -> used bs b ->
  exists hp' bs' fl', kfree hp (b_addr b + HDR_SIZE) = Ok hp' /\ heap_inv hp' bs' fl' /\
    (forall c, used bs' c <-> used bs c /\ c <> b) /\
    (forall c x, used bs c -> c <> b -> payload c x -> hm hp' x = hm hp x).
Proof.
  intros I [Hb Hf]. apply list_elem_of_split in Hb as (l1 & l2 & ->).
  destruct (kfree_ok hp l1 b l2 fl I Hf) as (hp' & fl' & E & I' & F).
  assert (ND : b ∉ l1 ++ l2).
  { pose proof (tiles_nodup _ _ _ (hr_tiles _ _ _ _ (hi_mem _ _ _ I))) as ND.
    rewrite fmap_app, fmap_cons in ND. apply NoDup_app in ND as (_ & ND1 & ND2). apply NoDup_cons in ND2 as [ND2 _].
    intros [Hin|Hin]%elem_of_app.
    - apply (ND1 (b_addr b)); [by apply list_elem_of_fmap_2|left].
    - apply ND2. by apply list_elem_of_fmap_2. }
  assert (Hl : forall c, used (l1 ++ b :: l2) c /\ c <> b <-> used (l1 ++ l2) c).
  { intros c. unfold used. rewrite elem_of_mid, elem_of_app. split; [tauto|].
    intros [Hc ?]. split; [tauto|]. intros ->. apply ND. by apply elem_of_app. }
  exists hp', (free_result l1 b l2), fl'. split; [exact E|]. split; [exact I'|]. split.
  - intros c. rewrite Hl. unfold used, free_result, free_fwd, free_bwd.
    destruct (last l1) as [z|] eqn:El;
      [apply last_split in El; remember (removelast l1) as l1' eqn:E1; clear E1; subst l1|];
      (destruct l2 as [|n l2]; [|destruct (b_free n) eqn:En]); try destruct (b_free z) eqn:Ez;
      rewrite ?elem_of_mid, ?elem_of_app, ?elem_of_cons, ?elem_of_nil;
      split; intros [Hc Hcf]; (split; [|exact Hcf]);
      destruct_or? Hc; subst; simpl in *; try congruence; tauto.
  - intros c x Hc Hne Hx. assert (Hc' : used (l1 ++ l2) c) by (by apply Hl).
    destruct Hc' as [? ?]. by apply (F c).
Qed.

(** ** The contract: pointers to contents *)

(** What a client knows: the contents of every allocation it owns. *)
Notation owned := (gmap Z (list Z)).

Definition has_bytes (m : mem) (p : Z) (l : list Z) : Prop :=
  forall i v, l !! i = Some v -> m (p + Z.of_nat i) = v.

(** A block that serves the allocation [p] with contents [l]. *)
Definition serves (m : mem) (b : blk) (p : Z) (l : list Z) : Prop :=
  p = b_addr b + HDR_SIZE /\ alen l + 48 <= b_size b /\ has_bytes m p l.

(** The heap implements the ownership map [A]: the live blocks are exactly the
    allocations of [A], and memory holds their contents. *)
Record repr_by (hp : heap) (A : owned) (bs : list blk) (fl : list Z) : Prop := {
  rp_inv : heap_inv hp bs fl;
  rp_own : forall p l, A !! p = Some l -> exists b, used bs b /\ serves (hm hp) b p l;
  rp_all : forall b, used bs b -> is_Some (A !! (b_addr b + HDR_SIZE))
}.

Definition repr (hp : heap) (A : owned) : Prop := exists bs fl, repr_by hp A bs fl.

Inductive hop :=
| HMalloc (size : Z)
| HZalloc (size : Z)
| HCalloc (n size : Z)
| HWrite (p : Z) (i : nat) (v : Z)
| HRealloc (p size : Z)
| HFree (p : Z).

Definition hexec (hp : heap) (o : hop) : res (heap * Z) :=
  match o with
  | HMalloc n => kmalloc hp n
  | HZalloc n => kzalloc hp n
  | HCalloc n size => kcalloc hp n size
  | HWrite p i v => Ok (with_mem hp (mset (hm hp) (p + Z.of_nat i) v), 0)
  | HRealloc p n => krealloc hp p n
  | HFree p => do hp' <- kfree hp p; Ok (hp', 0)
  end.

Definition size_ok (n : Z) : Prop := 0 <= n <= 2 ^ 64 - 64.

(** What the contract asks of the client: sizes that do not wrap when the
    header is added, and only pointers it owns. *)
Definition hallowed (A : owned) (o : hop) : Prop :=
  match o with
  | HMalloc n | HZalloc n => size_ok n
  | HCalloc n size => 0 <= n /\ 0 <= size /\ size_ok (n * size)
  | HWrite p i v => exists l, A !! p = Some l /\ (i < length l)%nat
  | HRealloc p n => (p = 0 \/ is_Some (A !! p)) /\ size_ok n
  | HFree p => p = 0 \/ is_Some (A !! p)
  end.

(** A new allocation of [n] bytes at a pointer nobody owns, or NULL. *)
Inductive fresh (A : owned) (n : Z) (good : list Z -> Prop) : Z -> owned -> Prop :=
| fresh_null : fresh A n good 0 A
| fresh_ptr r l : r <> 0 -> A !! r = None -> alen l = n -> good l -> fresh A n good r (<[r := l]> A).

(** What each operation may do to the ownership map. *)
Definition hspec (A : owned) (o : hop) (r : Z) (A' : owned) : Prop :=
  match o with
  | HMalloc n => fresh A n (fun _ => True) r A'
  | HZalloc n => fresh A n (fun l => l = replicate (Z.to_nat n) 0) r A'
  | HCalloc n size => fresh A (n * size) (fun l => l = replicate (Z.to_nat (n * size)) 0) r A'
  | HWrite p i v => exists l, A !! p = Some l /\ A' = <[p := <[i := v]> l]> A
  | HFree p => A' = delete p A
  | HRealloc p n =>
      if p =? 0 then fresh A n (fun _ => True) r A'
      else if n =? 0 then r = 0 /\ A' = delete p A
      else exists l, A !! p = Some l /\
        ((r = 0 /\ A' = A) \/
         (r <> 0 /\ A !! r = None /\ exists l', alen l' = n /\
            take (Nat.min (length l) (length l')) l' = take (Nat.min (length l) (length l')) l /\
            A' = <[r := l']> (delete p A)))
  end.

Definition read_bytes (m : mem) (p n : Z) : list Z :=
  (fun i => m (p + Z.of_nat i)) <$> seq 0 (Z.to_nat n).

Lemma read_bytes_lookup m p n i v :
  read_bytes m p n !! i = Some v <-> (i < Z.to_nat n)%nat /\ m (p + Z.of_nat i) = v.
Proof.
  unfold read_bytes. rewrite list_lookup_fmap, fmap_Some. split.
  - intros (k & Hk & ->). apply lookup_seq in Hk as [-> ?]. simpl. auto.
  - intros [? <-]. exists i. split; [by apply lookup_seq|done].
Qed.

Lemma alen_read_bytes m p n : 0 <= n -> alen (read_bytes m p n) = n.
Proof. intros. unfold alen, read_bytes. rewrite length_fmap, length_seq. lia. Qed.

(** Two live blocks of the same heap that serve the same pointer are one. *)
Lemma used_inj hp bs fl b c :
  heap_inv hp bs fl -> used bs b -> used bs c -> b_addr b = b_addr c -> b = c.
Proof.
  intros I Hb Hc E. destruct Hb as [Hb ?], Hc as [Hc ?]. pose proof (hr_tiles _ _ _ _ (hi_mem _ _ _ I)) as T.
  destruct (tiles_apart _ _ _ _ _ T Hb Hc) as [|?]; [done|].
  pose proof (tiles_bounds _ _ _ _ T Hb). pose proof (tiles_bounds _ _ _ _ T Hc). hlia.
Qed.

Lemma serves_frame m m' b p l :
  serves m b p l -> (forall x, payload b x -> m' x = m x) -> serves m' b p l.
Proof.
  intros (-> & Hl & Hb) Hm. split; [done|]. split; [done|]. intros i v Hi.
  rewrite Hm; [by apply Hb|]. apply lookup_lt_Some in Hi. unfold payload, alen in *. hlia.
Qed.

Lemma with_mem_id hp : with_mem hp (hm hp) = hp.
Proof. by destruct hp. Qed.

(** [kmalloc] adds one pointer; its contents may then be overwritten at will. *)
Lemma repr_malloc hp A n :
  repr hp A -> size_ok n ->
  kmalloc hp n = Ok (hp, 0) \/
  exists hp' r room, kmalloc hp n = Ok (hp', r) /\ 65536 < r /\ A !! r = None /\ n <= room /\
    (forall p l, A !! p = Some l -> r + room <= p \/ p + (h_size (hm hp) (p - HDR_SIZE) - 48) <= r) /\
    (forall p l, A !! p = Some l -> has_bytes (hm hp') p l) /\
    forall m' l, alen l = n -> has_bytes m' r l ->
      (forall x, ~ (r <= x < r + n) -> m' x = hm hp' x) -> repr (with_mem hp' m') (<[r := l]> A).
Proof.
  intros (bs & fl & [I Ho Ha]) Hn.
  destruct (kmalloc_fresh hp bs fl n I Hn) as [?|(hp' & bs' & fl' & nb & E & I' & Hu & Hs & Hall & Hne & F)]; [by left|].
  right. exists hp', (b_addr nb + HDR_SIZE), (b_size nb - 48). pose proof (used_range _ _ _ _ I' Hu) as (R1 & R2 & R3 & _).
  assert (Hap : forall c, used bs c -> b_addr c + b_size c <= b_addr nb \/ b_addr nb + b_size nb <= b_addr c).
  { intros c Hc. assert (c <> nb) by auto. apply (used_apart _ _ _ _ _ I'); auto; apply Hall; auto. }
  assert (HA : A !! (b_addr nb + HDR_SIZE) = None).
  { destruct (A !! _) as [l|] eqn:El; [|done]. apply Ho in El as (b & Hb & Heq & _).
    assert (b_addr b = b_addr nb) by lia. pose proof (Hap b Hb). pose proof (used_range _ _ _ _ I Hb). lia. }
  split; [done|]. split; [hlia|]. split; [done|]. split; [lia|]. split; [|split].
  - intros p l Hp. apply Ho in Hp as (b & Hb & -> & Hl & _). pose proof (Hap b Hb).
    replace (b_addr b + HDR_SIZE - HDR_SIZE) with (b_addr b) by lia.
    pose proof (used_range _ _ _ _ I Hb) as (_ & _ & _ & ->). hlia.
  - intros p l Hp. apply Ho in Hp as (b & Hb & Hsv).
    by eapply serves_frame in Hsv as (_ & _ & ?); [|intros x Hx; by apply (F b)].
  - intros m' l Hl Hb Hm'. exists bs', fl'. constructor.
    + apply (payload_write _ _ _ nb); [done|apply Hu..|]. intros x Hx. apply Hm'. unfold payload in Hx. hlia.
    + intros p l0 Hp. apply lookup_insert_Some in Hp as [[<- <-]|[_ Hp]].
      * exists nb. split; [done|]. split; [done|]. split; [lia|done].
      * apply Ho in Hp as (b & Hbu & Hsv). exists b. split; [apply Hall; by left|].
        eapply serves_frame; [exact Hsv|]. simpl. intros x Hx. rewrite Hm'; [by apply (F b)|].
        pose proof (Hap b Hbu). unfold payload in Hx. hlia.
    + intros b Hb'. apply Hall in Hb' as [Hb'| ->].
      * apply lookup_insert_is_Some'. right. by apply Ha.
      * apply lookup_insert_is_Some'. by left.
Qed.

Lemma repr_free hp A p l :
  repr hp A -> A !! p = Some l -> exists hp', kfree hp p = Ok hp' /\ repr hp' (delete p A).
Proof.
  intros (bs & fl & [I Ho Ha]) Hp. destruct (Ho _ _ Hp) as (b & Hb & -> & _).
  destruct (kfree_gone hp bs fl b I Hb) as (hp' & bs' & fl' & E & I' & Hall & F).
  exists hp'. split; [done|]. exists bs', fl'. constructor; [done|..].
  - intros q lq Hq. apply lookup_delete_Some in Hq as [Hne Hq]. destruct (Ho _ _ Hq) as (c & Hc & Hs).
    assert (c <> b) by (intros ->; by destruct Hs as [? _]). exists c. split; [by apply Hall|].
    eapply serves_frame; [exact Hs|]. intros x. by apply F.
  - intros c Hc. apply Hall in Hc as [Hc Hne]. rewrite lookup_delete_ne; [by apply Ha|].
    intros Heq. apply Hne. apply (used_inj _ _ _ _ _ I); [done|done|lia].
Qed.

Lemma repr_write hp A p l i v :
  repr hp A -> A !! p = Some l -> (i < length l)%nat ->
  repr (with_mem hp (mset (hm hp) (p + Z.of_nat i) v)) (<[p := <[i := v]> l]> A).
Proof.
  intros (bs & fl & [I Ho Ha]) Hp Hi. destruct (Ho _ _ Hp) as (b & Hb & -> & Hl & Hby). unfold alen in Hl.
  exists bs, fl. constructor.
  - apply (payload_write _ _ _ b); [done|apply Hb..|]. intros x Hx. apply mset_ne. unfold payload in Hx. hlia.
  - intros q lq Hq. apply lookup_insert_Some in Hq as [[<- <-]|[Hne Hq]].
    + exists b. split; [done|]. split; [done|]. split; [unfold alen; rewrite length_insert; lia|].
      intros j w Hj. simpl. destruct (decide (i = j)) as [->|Hij].
      * rewrite mset_eq. rewrite list_lookup_insert_eq in Hj by done. by inv Hj.
      * rewrite list_lookup_insert_ne in Hj by done. rewrite mset_ne by lia. by apply Hby.
    + destruct (Ho _ _ Hq) as (c & Hc & Hs). exists c. split; [done|].
      eapply serves_frame; [exact Hs|]. simpl. intros x Hx. apply mset_ne.
      assert (Hbc : b <> c) by (intros ->; by destruct Hs as [? _]).
      pose proof (used_apart _ _ _ _ _ I Hb Hc Hbc). unfold payload in Hx. hlia.
  - intros c Hc. apply lookup_insert_is_Some'. right. by apply Ha.
Qed.

Lemma read_has_bytes m p n : has_bytes m p (read_bytes m p n).
Proof. intros i v Hi. by apply read_bytes_lookup in Hi as [_ ?]. Qed.

Lemma repr_zalloc hp A n :
  repr hp A -> size_ok n ->
  exists hp' r A', kzalloc hp n = Ok (hp', r) /\ repr hp' A' /\
    fresh A n (fun l => l = replicate (Z.to_nat n) 0) r A'.
Proof.
  intros R Hn. unfold kzalloc.
  destruct (repr_malloc _ _ _ R Hn) as [->|(hp' & r & room & -> & Hr & HA & _ & _ & _ & K)]; simpl.
  - exists hp, 0, A. repeat split; [done|constructor].
  - destruct (Z.eqb_spec r 0); [lia|]. unfold size_ok in Hn.
    eexists _, r, (<[r := replicate (Z.to_nat n) 0]> A). split; [reflexivity|].
    assert (Hlen : alen (replicate (Z.to_nat n) 0) = n) by (unfold alen; rewrite length_replicate; lia).
    split; [|by constructor]. apply K; [done|..].
    + intros i v Hi. apply lookup_replicate in Hi as [-> ?]. rewrite memset_spec by lia.
      bdestr; simpl; try lia. done.
    + intros x Hx. rewrite memset_spec by lia. bdestr; simpl; try lia; done.
Qed.

Lemma repr_realloc hp A p l n :
  repr hp A -> A !! p = Some l -> 0 < n <= 2 ^ 64 - 64 -> p <> 0 ->
  exists hp' r A', krealloc hp p n = Ok (hp', r) /\ repr hp' A' /\
    ((r = 0 /\ A' = A) \/
     (r <> 0 /\ A !! r = None /\ exists l', alen l' = n /\
        take (Nat.min (length l) (length l')) l' = take (Nat.min (length l) (length l')) l /\
        A' = <[r := l']> (delete p A))).
Proof.
  intros R Hp Hn Hp0. unfold krealloc. destruct (Z.eqb_spec p 0); [done|]. destruct (Z.eqb_spec n 0); [lia|].
  assert (Hold : exists b, p = b_addr b + 40 /\ h_size (hm hp) (p - HDR_SIZE) = b_size b /\ alen l + 48 <= b_size b < 2 ^ 64).
  { destruct R as (bs & fl & [I Ho _]). destruct (Ho _ _ Hp) as (b & Hb & -> & Hl & _).
    pose proof (used_range _ _ _ _ I Hb) as (? & ? & ? & Hs). exists b. split; [done|].
    replace (b_addr b + HDR_SIZE - HDR_SIZE) with (b_addr b) by lia. split; [done|]. lia. }
  destruct Hold as (b & Hpb & Hs & Hb). unfold alen in Hb. rewrite Hs, u64_small by hlia.
  destruct (repr_malloc _ _ n R) as [->|(hp1 & r & room & -> & Hr & HA & Hroom & Hap & Hby & K)]; [unfold size_ok; lia|..]; simpl.
  { exists hp, 0, A. split; [done|]. auto. }
  destruct (Z.eqb_spec r 0); [lia|].
  set (cp := if b_size b - HDR_SIZE - FOOT_SIZE <? n then b_size b - HDR_SIZE - FOOT_SIZE else n).
  assert (Hcp : 0 <= cp <= n /\ cp <= b_size b - 48 /\ Z.min (Z.of_nat (length l)) n <= cp)
    by (unfold cp; hconst; bdestr; lia).
  assert (Hd : r + cp <= p \/ p + cp <= r) by (destruct (Hap p l Hp) as [|H]; [lia|rewrite Hs in H; lia]).
  set (m' := memcpy (hm hp1) r p cp).
  assert (Hm' : forall x, m' x = if (r <=? x) && (x <? r + cp) then hm hp1 (x - r + p) else hm hp1 x)
    by (intros; apply memcpy_spec; lia).
  set (l' := read_bytes m' r n).
  assert (R1 : repr (with_mem hp1 m') (<[r := l']> A)).
  { apply K; [apply alen_read_bytes; lia|apply read_has_bytes|]. intros x Hx. rewrite Hm'. bdestr; simpl; try lia; done. }
  assert (Hrp : r <> p) by congruence.
  destruct (repr_free _ _ p l R1) as (hp2 & -> & R2); [by rewrite lookup_insert_ne|]. simpl.
  exists hp2, r, (<[r := l']> (delete p A)). split; [done|]. split; [by rewrite delete_insert_ne in R2|].
  right. split; [done|]. split; [done|]. exists l'. split; [apply alen_read_bytes; lia|]. split; [|done].
  pose proof (alen_read_bytes m' r n) as Hl'. unfold alen in Hl'. fold l' in Hl'.
  apply list_eq. intros i. destruct (decide (i < Nat.min (length l) (length l'))%nat) as [Hi|Hi].
  - rewrite !lookup_take_lt by done. destruct (lookup_lt_is_Some_2 l i) as [v Hv]; [lia|]. rewrite Hv.
    apply read_bytes_lookup. split; [lia|]. rewrite Hm'. bdestr; simpl; try lia.
    replace (r + Z.of_nat i - r + p) with (p + Z.of_nat i) by lia. by apply (Hby p l).
  - by rewrite !lookup_take_ge by lia.
Qed.

Lemma repr_malloc_op hp A n :
  repr hp A -> size_ok n ->
  exists hp' r A', kmalloc hp n = Ok (hp', r) /\ fresh A n (fun _ => True) r A' /\ repr hp' A'.
Proof.
  intros R W. destruct (repr_malloc hp A n R W) as [->|(hp' & r & room & -> & Hr & HA & _ & _ & _ & K)].
  - exists hp, 0, A. repeat split; [constructor|done].
  - exists hp', r, (<[r := read_bytes (hm hp') r n]> A). split; [done|]. unfold size_ok in W.
    split; [constructor; [lia|done|apply alen_read_bytes; lia|done]|].
    rewrite <- (with_mem_id hp') at 1. apply K; [apply alen_read_bytes; lia|apply read_has_bytes|done].
Qed.

(** A freshly formatted region owns nothing. *)
Lemma format_repr m base size :
  65536 <= base -> 96 <= size -> size mod 16 = 0 -> base + size < 2 ^ 64 ->
  repr (kheap_format m base size) ∅.
Proof.
  intros H1 H2 H3 H4. exists [Blk base (size - 48) true], [base]. constructor.
  - by apply format_inv.
  - intros p l Hp. by rewrite lookup_empty in Hp.
  - intros b [Hb Hf]. apply list_elem_of_singleton in Hb as ->. done.
Qed.

Lemma unlink_region hp h :
  g_base (free_unlink hp h) = g_base hp /\ g_size (free_unlink hp h) = g_size hp.
Proof. unfold free_unlink. by case_match. Qed.

Lemma kfree_region hp p hp' : kfree hp p = Ok hp' -> g_base hp' = g_base hp /\ g_size hp' = g_size hp.
Proof.
  unfold kfree, coalesce_fwd, coalesce_bwd. intros H.
  repeat case_match; simplify_eq/=; try done; unfold with_mem in *; simplify_eq/=;
    rewrite ?(proj1 (unlink_region _ _)), ?(proj2 (unlink_region _ _)); done.
Qed.

Lemma take_region hp b need : g_base (kmalloc_take hp b need) = g_base hp.
Proof.
  unfold kmalloc_take. set (hp1 := if _ <=? _ then _ else hp).
  assert (g_base hp1 = g_base hp) by (unfold hp1; case_match; done).
  simpl. by rewrite (proj1 (unlink_region _ _)).
Qed.

Lemma kmalloc_region hp size hp' p : kmalloc hp size = Ok (hp', p) -> g_base hp' = g_base hp.
Proof.
  unfold kmalloc. case_match; [by intros [= <- <-]|]. generalize (walk_fuel hp) as n. generalize (g_free_head hp) as b.
  intros b n. revert b. induction n as [|n IH]; intros b; simpl; [done|].
  repeat (case_match; try done); [by intros [= <- <-]|apply IH|]. intros [= <- <-]. apply take_region.
Qed.

(** With nothing allocated the tiling is a single free block. *)
Lemma drained_tiling hp bs fl :
  heap_inv hp bs fl -> (forall b, ~ used bs b) -> bs = [] \/ bs = [Blk (g_base hp) (g_size hp - 48) true].
Proof.
  intros I Hu. pose proof (hr_tiles _ _ _ _ (hi_mem _ _ _ I)) as T. pose proof (hi_coal _ _ _ I) as C.
  assert (Hf : forall b, b ∈ bs -> b_free b = true).
  { intros b Hb. destruct (b_free b) eqn:E; [done|]. exfalso. by apply (Hu b). }
  destruct bs as [|b1 [|b2 bs]]; [by left|right|].
  - simpl in T. destruct T as (T1 & T2 & T3 & T4). specialize (Hf b1 ltac:(left)).
    destruct b1 as [a s f]; simpl in *. subst. repeat f_equal. hlia.
  - exfalso. simpl in C. destruct C as [C _]. rewrite !Hf in C by set_solver. done.
Qed.

Lemma kheap_pick_size tries : forall st st' phys size,
  kheap_pick st tries = (st', Some (phys, size)) ->
  phys <> 0 /\ exists t, t ∈ tries /\ size = t * 1024 * 1024 / PAGE_SIZE * PAGE_SIZE.
Proof.
  induction tries as [|t tries IH]; simpl; intros st st' phys size H; [by inv H|].
  destruct (pmm_alloc_contiguous st _) as [st1 ph]. destruct (Z.eqb_spec ph 0).
  - apply IH in H as (? & u & Hu & ->). split; [done|]. exists u. split; [by right|done].
  - inv H. split; [done|]. exists t. split; [left|done].
Qed.

(** ** Properties *)

(** C1: The heap refines its contract.  Whatever memory a client owns, every
    operation it is allowed to make (allocate, allocate zeroed, write inside an
    allocation, resize, free) returns without a panic, does to the map from
    pointers to contents exactly what the contract says (a new pointer is not
    yet owned and is disjoint from the others, realloc keeps the common prefix,
    free removes one pointer), and memory still holds all the owned contents. *)
Theorem heap_refines (hp : heap) (A : owned) (o : hop) (R : repr hp A) (W : hallowed A o) :
  exists hp' r A', hexec hp o = Ok (hp', r) /\ hspec A o r A' /\ repr hp' A'.
Proof.
  destruct o as [n|n|n k|p i v|p n|p]; simpl in *.
  - by apply repr_malloc_op.
  - destruct (repr_zalloc hp A n R W) as (hp' & r & A' & ? & ? & ?). eauto 6.
  - destruct W as (Hn & Hk & W). unfold kcalloc. unfold size_ok in W. rewrite u64_small by lia.
    destruct (repr_zalloc hp A _ R W) as (hp' & r & A' & ? & ? & ?). eauto 6.
  - destruct W as (l & Hp & Hi). eexists _, 0, _. split; [reflexivity|]. split; [by exists l|].
    by apply repr_write.
  - destruct W as [[->|[l Hp]] W].
    + by apply repr_malloc_op.
    + assert (p <> 0).
      { destruct R as (bs & fl & [I Ho _]). destruct (Ho _ _ Hp) as (b & Hb & -> & _).
        pose proof (used_range _ _ _ _ I Hb). hlia. }
      destruct (Z.eqb_spec p 0); [done|]. destruct (Z.eqb_spec n 0) as [->|].
      * unfold krealloc. destruct (Z.eqb_spec p 0); [done|]. simpl.
        destruct (repr_free _ _ _ _ R Hp) as (hp' & -> & R'). simpl. eauto 8.
      * unfold size_ok in W. destruct (repr_realloc hp A p l n R Hp) as (hp' & r & A' & E & R' & S); [lia|done|].
        exists hp', r, A'. split; [done|]. split; [|done]. by exists l.
  - destruct W as [->|[l Hp]].
    + unfold kfree. simpl. exists hp, 0, A. split; [done|]. split; [|done].
      rewrite delete_id; [done|]. destruct (A !! 0) as [l|] eqn:E; [|done].
      destruct R as (bs & fl & [I Ho _]). destruct (Ho _ _ E) as (b & Hb & Hz & _).
      pose proof (used_range _ _ _ _ I Hb). hlia.
    + destruct (repr_free _ _ _ _ R Hp) as (hp' & -> & R'). simpl. eauto 8.
Qed.

(** [kmalloc] is a first-class allocator on any well-formed heap: it never
    panics and terminates; it returns NULL, changing nothing, exactly when no
    free block is as large as the rounded request; otherwise the pointer it
    returns is the payload of a block that was free, with room for [size]
    bytes, at the same offset modulo 16 as every other block, and disjoint from
    every live block, whose payloads do not change. *)
Theorem kmalloc_spec (hp : heap) (bs : list blk) (fl : list Z) (size : Z)
  (I : heap_inv hp bs fl) (Hs : size_ok size) :
  (kmalloc hp size = Ok (hp, 0) <-> forall b, b ∈ bs -> b_free b = true -> b_size b < kmalloc_need size) /\
  exists hp' p, kmalloc hp size = Ok (hp', p) /\
    (p = 0 \/ exists b, b ∈ bs /\ b_free b = true /\ p = b_addr b + HDR_SIZE /\
      p + size + FOOT_SIZE <= b_addr b + b_size b /\
      (forall c, used bs c -> b_addr c + b_size c <= b_addr b \/ p + size + FOOT_SIZE <= b_addr c) /\
      (forall c x, used bs c -> payload c x -> hm hp' x = hm hp x)).
Proof.
  pose proof (need_fits size Hs) as Hfit. pose proof (hr_tiles _ _ _ _ (hi_mem _ _ _ I)) as T.
  pose proof (hr_base _ _ _ _ (hi_mem _ _ _ I)) as Hba.
  destruct (kmalloc_ok hp bs fl size I) as [(l1 & b & l2 & hp' & fl' & -> & Hf & Hn & E & _ & F)|[Hno E]].
  - assert (Hb : b ∈ l1 ++ b :: l2) by (rewrite elem_of_mid; auto).
    pose proof (tiles_bounds _ _ _ _ T Hb) as Hbb. rewrite E. split.
    + split; [intros H; inv H; hlia|]. intros H. specialize (H b Hb Hf). lia.
    + exists hp', (b_addr b + HDR_SIZE). split; [done|]. right. exists b. repeat split; try done; [hlia|..].
      * intros c [Hc Hcf]. destruct (tiles_apart _ _ _ _ _ T Hc Hb) as [->|]; [congruence|hlia].
      * intros c x [Hc Hcf]. by apply F.
  - split; [done|]. exists hp, 0. auto.
Qed.

(** [kfree] of a live block never panics and keeps the heap well-formed.
    Exactly that block stops being live, every other payload keeps its bytes,
    and since no two free blocks ever touch, freeing the last live block leaves
    the region as one free block again: the allocator does not fragment. *)
Theorem kfree_spec (hp : heap) (bs : list blk) (fl : list Z) (b : blk)
  (I : heap_inv hp bs fl) (U : used bs b) :
  exists hp' bs' fl', kfree hp (b_addr b + HDR_SIZE) = Ok hp' /\ heap_inv hp' bs' fl' /\
    (forall c, used bs' c <-> used bs c /\ c <> b) /\
    (forall c x, used bs c -> c <> b -> payload c x -> hm hp' x = hm hp x) /\
    ((forall c, used bs c -> c = b) -> bs' = [Blk (g_base hp) (g_size hp - 48) true]).
Proof.
  destruct (kfree_gone hp bs fl b I U) as (hp' & bs' & fl' & E & I' & Hall & F).
  exists hp', bs', fl'. repeat (split; [done|]). intros Honly.
  apply kfree_region in E as [E1 E2]. rewrite <- E1, <- E2.
  destruct (drained_tiling _ _ _ I') as [->|]; [|exfalso|done].
  - intros c Hc. apply Hall in Hc as [Hc Hne]. by apply Hne, Honly.
  - pose proof (hr_tiles _ _ _ _ (hi_mem _ _ _ I')) as T'. simpl in T'.
    pose proof (tiles_bounds _ _ _ _ (hr_tiles _ _ _ _ (hi_mem _ _ _ I)) (proj1 U)). hlia.
Qed.

(** When the frame allocator grants a region, [kheap_init] makes of it a
    heap of at least 1 MiB on which nothing is allocated: the largest size it
    tried that was granted, formatted as one free block before the sentinel. *)
Theorem kheap_init_repr (hhdm : Z) (st st' : pmm) (m : mem) (hp : heap)
  (E : kheap_init hhdm st m = Ok (st', hp))
  (Hb : 65536 <= g_base hp) (Hl : g_base hp + g_size hp < 2 ^ 64) :
  repr hp ∅ /\ 1048576 <= g_size hp <= 16777216 /\
  heap_inv hp [Blk (g_base hp) (g_size hp - 48) true] [g_base hp].
Proof.
  unfold kheap_init in E. destruct (kheap_pick st kheap_tries) as [st1 [[phys size]|]] eqn:P; [|done].
  apply kheap_pick_size in P as (_ & t & Ht & ->). inv E. simpl in *.
  assert (Hs : exists k, t * 1024 * 1024 / PAGE_SIZE * PAGE_SIZE = k * 16 /\ 65536 <= k <= 1048576).
  { exists (t * 65536). unfold kheap_tries in Ht. rewrite !elem_of_cons, elem_of_nil in Ht.
    destruct_or! Ht; try done; subst t; (split; [vm_compute; reflexivity|lia]). }
  destruct Hs as (k & Hs & Hk). rewrite Hs in *. pose proof (Z.mod_mul k 16 ltac:(lia)) as Hm.
  split; [apply format_repr; auto; lia|]. split; [lia|]. apply format_inv; auto; lia.
Qed.

(** The size computation of [kmalloc] wraps.  For the largest sizes the
    header and footer no longer fit in 64 bits and the request becomes the
    minimal block, so [kmalloc] of any of the last 48 values of [size_t] returns
    a pointer to a block with no payload at all. *)
Theorem kmalloc_size_wraps (size : Z) (H : 2 ^ 64 - 48 <= size < 2 ^ 64) :
  kmalloc_need size = KHEAP_MIN_BLOCK.
Proof.
  unfold kmalloc_need. destruct (Z.eqb_spec size 0); [lia|].
  rewrite align16.
  replace (u64 (size + HDR_SIZE + FOOT_SIZE)) with (size + 48 - 2 ^ 64)
    by (unfold u64; apply Z.mod_unique with 1; hlia).
  rewrite u64_small by lia. unfold KHEAP_MIN_BLOCK. bdestr; [done|].
  assert ((size + 48 - 2 ^ 64 + 15) / 16 <= 3) by (apply Z.lt_succ_r, Z.div_lt_upper_bound; lia). lia.
Qed.

(** ** Witnesses *)

Definition demo_heap : heap := kheap_format (fun _ => 0) 1048576 4096.

(** Allocate three blocks, free the first, then free the second twice: the
    address of the third allocation and of the next one granted. *)
Definition double_free_run (hp : heap) : res (Z * Z) :=
  do (h1, a) <- kmalloc hp 16; do (h2, b) <- kmalloc h1 16; do (h3, c) <- kmalloc h2 16;
  do h4 <- kfree h3 a; do h5 <- kfree h4 b; do h6 <- kfree h5 b;
  do (h7, d) <- kmalloc h6 144; Ok (c, d).

(** A double free that follows a backward merge is not detected, although
    [kfree] checks for it: the header swallowed by the merge still carries the
    magic and a clear free flag.  The second free grows the merged block over
    its live neighbour, and the next allocation of 144 bytes, which starts 128
    bytes below that neighbour's payload, is granted on top of it. *)
Theorem kfree_double_free_overlaps :
  double_free_run demo_heap = Ok (1048576 + 128 + HDR_SIZE, 1048576 + HDR_SIZE).
Proof. vm_compute. reflexivity. Qed.

Lemma demo_heap_repr : repr demo_heap ∅.
Proof. apply format_repr; done || lia. Qed.

Lemma demo_heap_inv : heap_inv demo_heap [Blk 1048576 4048 true] [1048576].
Proof. apply (format_inv (fun _ => 0) 1048576 4096); done || lia. Qed.

Lemma heap_refines_witness :
  exists hp' r A', hexec demo_heap (HMalloc 100) = Ok (hp', r) /\ hspec ∅ (HMalloc 100) r A' /\ repr hp' A'.
Proof. apply (heap_refines demo_heap ∅ (HMalloc 100) demo_heap_repr). simpl. unfold size_ok. lia. Defined.

Lemma kmalloc_spec_witness :
  kmalloc demo_heap 5000 = Ok (demo_heap, 0).
Proof.
  apply (kmalloc_spec demo_heap _ _ 5000 demo_heap_inv); [unfold size_ok; lia|].
  intros b Hb _. apply list_elem_of_singleton in Hb as ->. vm_compute. reflexivity.
Defined.

(** A heap with one live block of 64 bytes at the start of the region. *)
Definition demo_live : heap :=
  match kmalloc demo_heap 16 with Ok (hp, _) => hp | Panic => demo_heap end.

Lemma demo_live_inv :
  exists fl, heap_inv demo_live [Blk 1048576 64 false; Blk 1048640 3984 true] fl.
Proof.
  destruct (kmalloc_ok _ _ _ 16 demo_heap_inv) as [(l1 & b & l2 & hp' & fl' & Hbs & _ & _ & E & I & _)|[Hno _]].
  - unfold demo_live. rewrite E. destruct l1 as [|? [|]]; [|by inv Hbs|by inv Hbs].
    injection Hbs as <- <-. exists fl'. exact I.
  - specialize (Hno _ ltac:(left) eq_refl). vm_compute in Hno. done.
Qed.

Lemma used_pair a b c : b_free b = true -> used [a; b] c -> c = a.
Proof.
  intros Hb [Hc Hf]. rewrite !elem_of_cons, elem_of_nil in Hc. destruct Hc as [?|[->|[]]]; [done|congruence].
Qed.

Lemma kfree_spec_witness :
  exists hp' bs' fl', kfree demo_live (1048576 + HDR_SIZE) = Ok hp' /\ heap_inv hp' bs' fl' /\
    bs' = [Blk (g_base demo_live) (g_size demo_live - 48) true].
Proof.
  destruct demo_live_inv as [fl I].
  destruct (kfree_spec demo_live _ fl (Blk 1048576 64 false) I) as (hp' & bs' & fl' & E & I' & _ & _ & H).
  - split; [left|reflexivity].
  - exists hp', bs', fl'. split; [exact E|]. split; [exact I'|]. apply H.
    intros c Hc. exact (used_pair _ (Blk 1048640 3984 true) c eq_refl Hc).
Defined.

(** 264 free frames: enough for the smallest heap only. *)
Definition demo_frames : pmm := Pmm (repeat 255 1 ++ repeat 0 33) 34 272 264 [] 0 0.

Lemma demo_frames_pick :
  exists st', kheap_pick demo_frames kheap_tries = (st', Some (8 * PAGE_SIZE, 256 * PAGE_SIZE)).
Proof. eexists. vm_compute. reflexivity. Qed.

Lemma kheap_init_repr_witness : exists st' hp,
  kheap_init (2 ^ 47) demo_frames (fun _ => 0) = Ok (st', hp) /\ repr hp ∅ /\ g_size hp = 1048576.
Proof.
  destruct demo_frames_pick as [st' P].
  assert (E : kheap_init (2 ^ 47) demo_frames (fun _ => 0)
    = Ok (st', kheap_format (fun _ => 0) (pmm_virt (2 ^ 47) (8 * PAGE_SIZE)) (256 * PAGE_SIZE)))
    by (unfold kheap_init; rewrite P; reflexivity).
  exists st'. eexists. split; [exact E|].
  split; [|reflexivity]. apply (kheap_init_repr _ _ _ _ _ E); lazy; done.
Defined.

Lemma kmalloc_size_wraps_witness : kmalloc_need (2 ^ 64 - 1) = KHEAP_MIN_BLOCK.
Proof. apply (kmalloc_size_wraps (2 ^ 64 - 1)). lia. Defined.
