(* ===== verification/CList.v ===== *)
(** * lib/list/circular_list.c: linked lists

    The list operations over a store of nodes reached by address.  What they
    need of the store (allocate a node, free one, read and write its three
    fields) is the class [NodeStore]; what the store promises is
    [NodeStoreLaws], discharged by the kernel heap in CListHeap.

    A loop over links takes fuel and panics when it runs out: a list with a
    cycle would never be left.  The theorems show that the length of the list
    is enough. *)
From S2P Require Import Prelude.
#[local] Open Scope Z_scope.
#[local] Open Scope list_scope.

(** [struct clist] *)
Record cnode := CNode { c_data : Z; c_prev : Z; c_next : Z }.

Class NodeStore (H : Type) := {
  ns_kmalloc : H -> res (H * Z);
  ns_kfree : H -> Z -> res H;
  ns_data : H -> Z -> Z;
  ns_prev : H -> Z -> Z;
  ns_next : H -> Z -> Z;
  ns_set_data : H -> Z -> Z -> H;
  ns_set_prev : H -> Z -> Z -> H;
  ns_set_next : H -> Z -> Z -> H }.

(** ** The operations *)

Section Ops.
Context {H : Type} {NS : NodeStore H}.

Definition clist_alloc (h : H) (data : Z) : res (H * Z) :=
  do (h, node) <- ns_kmalloc h;
  if node =? 0 then Ok (h, 0)
  else Ok (ns_set_next (ns_set_prev (ns_set_data h node data) node 0) node 0, node).

Fixpoint clist_free (fuel : nat) (h : H) (clist : Z) : res (H * Z) :=
  if clist =? 0 then Ok (h, 0)
  else match fuel with
       | O => Panic
       | S k => let next := ns_next h clist in do h <- ns_kfree h clist; clist_free k h next
       end.

(** The data handed to the callback, in order, is returned as well. *)
Fixpoint clist_free_with (fuel : nat) (h : H) (clist : Z) : res (H * Z * list Z) :=
  if clist =? 0 then Ok (h, 0, [])
  else match fuel with
       | O => Panic
       | S k =>
           let next := ns_next h clist in
           let freed := ns_data h clist in
           do h <- ns_kfree h clist;
           do (h, r, log) <- clist_free_with k h next;
           Ok (h, r, freed :: log)
       end.

Fixpoint walk_next (fuel : nat) (h : H) (clist : Z) : res Z :=
  if ns_next h clist =? 0 then Ok clist
  else match fuel with O => Panic | S k => walk_next k h (ns_next h clist) end.

Fixpoint walk_prev (fuel : nat) (h : H) (clist : Z) : res Z :=
  if ns_prev h clist =? 0 then Ok clist
  else match fuel with O => Panic | S k => walk_prev k h (ns_prev h clist) end.

Definition clist_head (fuel : nat) (h : H) (clist : Z) : res Z :=
  if clist =? 0 then Ok 0 else walk_prev fuel h clist.

Definition clist_tail (fuel : nat) (h : H) (clist : Z) : res Z :=
  if clist =? 0 then Ok 0 else walk_next fuel h clist.

Definition clist_append (fuel : nat) (h : H) (clist data : Z) : res (H * Z) :=
  do (h, node) <- clist_alloc h data;
  if node =? 0 then Ok (h, clist)
  else if clist =? 0 then Ok (h, node)
  else
    do current <- walk_next fuel h clist;
    let h := ns_set_next h current node in
    Ok (ns_set_prev h node current, clist).

Definition clist_prepend (h : H) (clist data : Z) : res (H * Z) :=
  do (h, node) <- clist_alloc h data;
  if node =? 0 then Ok (h, clist)
  else
    let h := ns_set_next h node clist in
    let h := if negb (clist =? 0) then ns_set_prev h clist node else h in
    Ok (h, node).

(** The new value of [*clist_p] and the data. *)
Definition clist_pop (fuel : nat) (h : H) (clist_p : Z) : res (H * Z * Z) :=
  if clist_p =? 0 then Ok (h, clist_p, 0)
  else
    do clist <- clist_tail fuel h clist_p;
    let clist_p := if clist_p =? clist then ns_prev h clist else clist_p in
    let h := if negb (ns_prev h clist =? 0) then ns_set_next h (ns_prev h clist) 0 else h in
    let data := ns_data h clist in
    do h <- ns_kfree h clist;
    Ok (h, clist_p, data).

Fixpoint step_next (n : nat) (h : H) (clist : Z) : Z :=
  match n with
  | O => clist
  | S k => let clist := ns_next h clist in if clist =? 0 then 0 else step_next k h clist
  end.

Fixpoint step_prev (n : nat) (h : H) (clist : Z) : Z :=
  match n with
  | O => clist
  | S k => let clist := ns_prev h clist in if clist =? 0 then 0 else step_prev k h clist
  end.

Definition clist_nth (fuel : nat) (h : H) (clist : Z) (n : nat) : res Z :=
  if clist =? 0 then Ok 0 else do clist <- clist_head fuel h clist; Ok (step_next n h clist).

Definition clist_nth_last (fuel : nat) (h : H) (clist : Z) (n : nat) : res Z :=
  if clist =? 0 then Ok 0 else do clist <- clist_tail fuel h clist; Ok (step_prev n h clist).

(** The first node from [current] on that holds [data], or 0. *)
Fixpoint find_data (fuel : nat) (h : H) (current data : Z) : res Z :=
  if current =? 0 then Ok 0
  else if ns_data h current =? data then Ok current
  else match fuel with O => Panic | S k => find_data k h (ns_next h current) data end.

Definition clist_search (fuel : nat) (h : H) (clist data : Z) : res bool :=
  do node <- find_data fuel h clist data; Ok (negb (node =? 0)).

(** Unlink and free the first node. *)
Definition drop_first (h : H) (clist : Z) : res (H * Z) :=
  let temp := clist in
  let clist := ns_next h clist in
  let h := if negb (clist =? 0) then ns_set_prev h clist 0 else h in
  do h <- ns_kfree h temp;
  Ok (h, clist).

(** Unlink and free a node that has a predecessor. *)
Definition drop_inner (h : H) (current : Z) : res H :=
  let h := ns_set_next h (ns_prev h current) (ns_next h current) in
  let h := if negb (ns_next h current =? 0) then ns_set_prev h (ns_next h current) (ns_prev h current) else h in
  ns_kfree h current.

Definition clist_delete (fuel : nat) (h : H) (clist data : Z) : res (H * Z) :=
  if clist =? 0 then Ok (h, 0)
  else if ns_data h clist =? data then drop_first h clist
  else
    do current <- find_data fuel h (ns_next h clist) data;
    if current =? 0 then Ok (h, clist) else do h <- drop_inner h current; Ok (h, clist).

Definition clist_delete_with (fuel : nat) (h : H) (clist data : Z) : res (H * Z * list Z) :=
  if clist =? 0 then Ok (h, 0, [])
  else if ns_data h clist =? data then
    let freed := ns_data h clist in
    do (h, clist) <- drop_first h clist; Ok (h, clist, [freed])
  else
    do current <- find_data fuel h (ns_next h clist) data;
    if current =? 0 then Ok (h, clist, [])
    else
      let freed := ns_data h current in
      do h <- drop_inner h current; Ok (h, clist, [freed]).

Definition clist_delete_node (h : H) (clist node : Z) : res (H * Z) :=
  if (clist =? 0) || (node =? 0) then Ok (h, clist)
  else if clist =? node then drop_first h clist
  else do h <- drop_inner h node; Ok (h, clist).

(** The first node is freed without the callback. *)
Definition clist_delete_node_with (h : H) (clist node : Z) : res (H * Z * list Z) :=
  if (clist =? 0) || (node =? 0) then Ok (h, clist, [])
  else if clist =? node then do (h, clist) <- drop_first h clist; Ok (h, clist, [])
  else
    let freed := ns_data h node in
    do h <- drop_inner h node; Ok (h, clist, [freed]).

Fixpoint clist_length (fuel : nat) (h : H) (current : Z) : res Z :=
  if current =? 0 then Ok 0
  else match fuel with
       | O => Panic
       | S k => do n <- clist_length k h (ns_next h current); Ok (u64 (n + 1))
       end.
End Ops.

(** ** What the store promises *)

Definition word (x : Z) : Prop := 0 <= x < 2 ^ 64.

(** [holds h N]: the nodes of the client are exactly [N]. *)
Class NodeStoreLaws (H : Type) {NS : NodeStore H} := {
  holds : H -> gmap Z cnode -> Prop;
  holds_addr h N p : holds h N -> is_Some (N !! p) -> p <> 0 /\ word p;
  holds_get h N p n : holds h N -> N !! p = Some n ->
    ns_data h p = c_data n /\ ns_prev h p = c_prev n /\ ns_next h p = c_next n;
  holds_set_data h N p n v : holds h N -> N !! p = Some n -> word v ->
    holds (ns_set_data h p v) (<[p := CNode v (c_prev n) (c_next n)]> N);
  holds_set_prev h N p n v : holds h N -> N !! p = Some n -> word v ->
    holds (ns_set_prev h p v) (<[p := CNode (c_data n) v (c_next n)]> N);
  holds_set_next h N p n v : holds h N -> N !! p = Some n -> word v ->
    holds (ns_set_next h p v) (<[p := CNode (c_data n) (c_prev n) v]> N);
  holds_kmalloc h N : holds h N -> exists h' r, ns_kmalloc h = Ok (h', r) /\
    ((r = 0 /\ holds h' N) \/ (N !! r = None /\ exists n, holds h' (<[r := n]> N)));
  holds_kfree h N p : holds h N -> is_Some (N !! p) ->
    exists h', ns_kfree h p = Ok h' /\ holds h' (delete p N) }.

(** ** Lists in the store *)

Notation cells := (list (Z * Z)).

Definition hd0 (xs : cells) (q : Z) : Z := match xs with [] => q | (a, _) :: _ => a end.
Fixpoint lst (p : Z) (xs : cells) : Z := match xs with [] => p | (a, _) :: r => lst a r end.

(** The cells [xs], linked both ways, between [p] and [q]. *)
Fixpoint dll (N : gmap Z cnode) (p : Z) (xs : cells) (q : Z) : Prop :=
  match xs with
  | [] => True
  | (a, d) :: r => N !! a = Some (CNode d p (hd0 r q)) /\ dll N a r q
  end.

Lemma hd0_app xs ys q : hd0 (xs ++ ys) q = hd0 xs (hd0 ys q).
Proof. by destruct xs as [|[]]. Qed.

Lemma lst_app p xs ys : lst p (xs ++ ys) = lst (lst p xs) ys.
Proof. revert p. induction xs as [|[a d] xs IH]; intros p; simpl; [done|apply IH]. Qed.

Lemma dll_app N p xs ys q : dll N p (xs ++ ys) q <-> dll N p xs (hd0 ys q) /\ dll N (lst p xs) ys q.
Proof.
  revert p. induction xs as [|[a d] xs IH]; intros p; simpl; [tauto|]. rewrite IH, hd0_app. tauto.
Qed.

Lemma dll_frame N N' p xs q : (forall a, a ∈ xs.*1 -> N' !! a = N !! a) -> dll N p xs q -> dll N' p xs q.
Proof.
  revert p. induction xs as [|[a d] xs IH]; intros p Hf; simpl in *; [done|]. intros [H1 H2].
  split; [rewrite Hf; [done | set_solver]|]. apply IH; [|done]. intros b Hb. apply Hf. set_solver.
Qed.

Lemma dll_insert N p xs q a n : a ∉ xs.*1 -> dll N p xs q -> dll (<[a := n]> N) p xs q.
Proof. intros Ha. apply dll_frame. intros b Hb. apply lookup_insert_ne. set_solver. Qed.

Lemma dll_delete N p xs q a : a ∉ xs.*1 -> dll N p xs q -> dll (delete a N) p xs q.
Proof. intros Ha. apply dll_frame. intros b Hb. apply lookup_delete_ne. set_solver. Qed.

Lemma dll_lookup N p xs q a : dll N p xs q -> a ∈ xs.*1 -> is_Some (N !! a).
Proof.
  revert p. induction xs as [|[b d] xs IH]; intros p; simpl; [set_solver|]. intros [H1 H2] Ha.
  apply elem_of_cons in Ha as [->|Ha]; [by eexists | by eapply IH].
Qed.

(** Redirecting the last link and the first back link. *)
Lemma dll_set_next N p xs b e q q' : b ∉ xs.*1 -> dll N p (xs ++ [(b, e)]) q ->
  dll (<[b := CNode e (lst p xs) q']> N) p (xs ++ [(b, e)]) q'.
Proof.
  intros Hb. rewrite !dll_app. simpl. intros [H1 _]. split; [by apply dll_insert|]. by rewrite lookup_insert_eq.
Qed.

Lemma dll_set_prev N p p' a d xs q : a ∉ xs.*1 -> dll N p ((a, d) :: xs) q ->
  dll (<[a := CNode d p' (hd0 xs q)]> N) p' ((a, d) :: xs) q.
Proof. intros Ha [_ H2]. split; [by rewrite lookup_insert_eq | by apply dll_insert]. Qed.

Section Proofs.
Context {H : Type} {NS : NodeStore H} {NL : NodeStoreLaws H}.
Implicit Types (h : H) (N : gmap Z cnode).

Lemma dll_addr h N p xs q a : holds h N -> dll N p xs q -> a ∈ xs.*1 -> a <> 0 /\ word a.
Proof. intros Hh Hd Ha. apply (holds_addr h N); [done|]. by eapply dll_lookup. Qed.

Lemma hd0_zero h N p xs : holds h N -> dll N p xs 0 -> (hd0 xs 0 =? 0) = match xs with [] => true | _ => false end.
Proof.
  intros Hh Hd. destruct xs as [|[a d] xs]; [done|]. simpl. apply Z.eqb_neq.
  apply (dll_addr h N p ((a, d) :: xs) 0); [done | done |]. set_solver.
Qed.

Lemma lst_in p xs : xs <> [] -> lst p xs ∈ xs.*1.
Proof.
  revert p. induction xs as [|[a d] [|[b e] xs] IH]; intros p Hne; [done | set_solver |].
  simpl. right. apply (IH a). done.
Qed.

Lemma lst_word h N xs : holds h N -> dll N 0 xs 0 -> word (lst 0 xs).
Proof.
  intros Hh Hd. destruct xs as [|x xs]; [unfold word; simpl; lia|].
  apply (dll_addr h N 0 (x :: xs) 0); [done | done | by apply lst_in].
Qed.

(** ** Reading *)

Lemma walk_next_last h N k : forall p a d xs, holds h N -> dll N p ((a, d) :: xs) 0 -> (length xs <= k)%nat ->
  walk_next k h a = Ok (lst a xs).
Proof.
  induction k as [|k IH]; intros p a d xs Hh [H1 H2] Hk; cbn [walk_next];
    destruct (holds_get h N a _ Hh H1) as (_ & _ & ->); cbn [c_next]; rewrite (hd0_zero h N a xs Hh H2);
    destruct xs as [|[b e] xs]; try done; cbn [length] in Hk; [lia|]. apply (IH a b e); [done | done | lia].
Qed.

Lemma walk_prev_first h N k : forall l a d q, holds h N -> dll N 0 (l ++ [(a, d)]) q -> (length l <= k)%nat ->
  walk_prev k h a = Ok (hd0 (l ++ [(a, d)]) 0).
Proof.
  induction k as [|k IH]; intros l a d q Hh Hd Hk; pose proof Hd as Hd0; apply dll_app in Hd as [H1 [H2 _]];
    cbn [walk_prev]; destruct (holds_get h N a _ Hh H2) as (_ & -> & _); cbn [c_prev];
    destruct l as [|[b e] l _] using rev_ind; try done; rewrite length_app in Hk; simpl in Hk; [lia|].
  rewrite lst_app. simpl. apply dll_app in H1 as H1'. destruct H1' as [_ [H3 _]].
  destruct (holds_addr h N b Hh) as [Hb _]; [by eexists|]. destruct (Z.eqb_spec b 0); [done|].
  rewrite (IH l b e _ Hh H1) by lia. f_equal. rewrite !hd0_app. by destruct l as [|[]].
Qed.

Lemma step_next_nth h N n : forall p a d xs, holds h N -> dll N p ((a, d) :: xs) 0 ->
  step_next n h a = match ((a, d) :: xs) !! n with Some (b, _) => b | None => 0 end.
Proof.
  induction n as [|n IH]; intros p a d xs Hh [H1 H2]; cbn [step_next lookup list_lookup]; [done|].
  destruct (holds_get h N a _ Hh H1) as (_ & _ & ->). cbn [c_next]. rewrite (hd0_zero h N a xs Hh H2).
  destruct xs as [|[b e] xs]; [done|]. simpl hd0. by rewrite (IH a b e xs).
Qed.

Lemma step_prev_nth h N n : forall l a d q, holds h N -> dll N 0 (l ++ [(a, d)]) q ->
  step_prev n h a = match reverse (l ++ [(a, d)]) !! n with Some (b, _) => b | None => 0 end.
Proof.
  induction n as [|n IH]; intros l a d q Hh Hd; pose proof Hd as Hd0; apply dll_app in Hd as [H1 [H2 _]];
    rewrite reverse_snoc; cbn [step_prev lookup list_lookup]; [done|].
  destruct (holds_get h N a _ Hh H2) as (_ & -> & _). cbn [c_prev].
  destruct l as [|[b e] l _] using rev_ind; [done|]. rewrite lst_app. simpl. apply dll_app in H1 as H1'.
  destruct H1' as [_ [H3 _]]. destruct (holds_addr h N b Hh) as [Hb _]; [by eexists|].
  destruct (Z.eqb_spec b 0); [done|]. by apply (IH l b e _ Hh H1).
Qed.

Lemma clist_length_spec h N k : forall p xs, holds h N -> dll N p xs 0 -> (length xs <= k)%nat ->
  alen xs < 2 ^ 64 -> clist_length k h (hd0 xs 0) = Ok (alen xs).
Proof.
  unfold alen. induction k as [|k IH]; intros p xs Hh Hd Hk Hl; cbn [clist_length]; rewrite (hd0_zero h N p xs Hh Hd);
    destruct xs as [|[a d] xs]; try done; cbn [length] in *; [lia|].
  destruct Hd as [H1 H2]. destruct (holds_get h N a _ Hh H1) as (_ & _ & E). cbn [hd0]. rewrite E. cbn [c_next].
  rewrite (IH a xs Hh H2) by lia. cbn [rbind]. rewrite u64_small by lia. do 2 f_equal. lia.
Qed.

(** The cells before the first one that holds [d], that one, and the rest. *)
Fixpoint split_data (d : Z) (xs : cells) : option (cells * Z * cells) :=
  match xs with
  | [] => None
  | (a, e) :: r =>
      if e =? d then Some ([], a, r)
      else match split_data d r with Some (l, b, r') => Some ((a, e) :: l, b, r') | None => None end
  end.

Lemma split_data_some d xs l a r : split_data d xs = Some (l, a, r) -> xs = l ++ (a, d) :: r.
Proof.
  revert l a r. induction xs as [|[b e] xs IH]; intros l a r E; simpl in E; [done|].
  destruct (Z.eqb_spec e d) as [->|]; [by injection E as <- <- <-|].
  destruct (split_data d xs) as [[[l' b'] r']|]; [|done]. injection E as <- <- <-. simpl. f_equal. by apply IH.
Qed.

Lemma find_data_spec h N d k : forall p xs, holds h N -> dll N p xs 0 -> (length xs <= k)%nat ->
  find_data k h (hd0 xs 0) d = Ok (match split_data d xs with Some (_, a, _) => a | None => 0 end).
Proof.
  induction k as [|k IH]; intros p xs Hh Hd Hk; cbn [find_data]; rewrite (hd0_zero h N p xs Hh Hd);
    destruct xs as [|[a e] xs]; try done; cbn [length] in *; [lia|].
  destruct Hd as [H1 H2]. destruct (holds_get h N a _ Hh H1) as (E1 & _ & E). cbn [hd0 split_data]. rewrite E, E1.
  cbn [c_next c_data]. destruct (Z.eqb_spec e d); [done|]. rewrite (IH a xs Hh H2) by lia.
  by destruct (split_data d xs) as [[[l b] r]|].
Qed.

(** ** Writing *)

(** [N'] differs from [N] only at the cells of the list. *)
Definition only (xs ys : cells) (N N' : gmap Z cnode) : Prop :=
  forall a, a ∉ xs.*1 -> a ∉ ys.*1 -> N' !! a = N !! a.

Lemma clist_alloc_spec h N d : holds h N -> word d -> exists h' a, clist_alloc h d = Ok (h', a) /\
  ((a = 0 /\ holds h' N) \/ (a <> 0 /\ word a /\ N !! a = None /\ holds h' (<[a := CNode d 0 0]> N))).
Proof.
  intros Hh Hd. unfold clist_alloc. destruct (holds_kmalloc h N Hh) as (h1 & r & -> & Hr). cbn [rbind].
  destruct (Z.eqb_spec r 0) as [Hz|Hz].
  - exists h1, 0. split; [done|]. left. split; [done|]. destruct Hr as [[_ Hr]|(HN & n & Hr)]; [done|].
    by destruct (holds_addr h1 _ r Hr) as [? _]; [rewrite lookup_insert_eq; eexists|].
  - destruct Hr as [[? _]|(HN & n & Hr)]; [done|]. eexists _, r. split; [done|]. right.
    destruct (holds_addr h1 _ r Hr) as [_ Hw]; [by rewrite lookup_insert_eq; eexists|].
    split; [done|]. split; [done|]. split; [done|]. assert (W0 : word 0) by (unfold word; lia).
    pose proof (holds_set_data _ _ r _ d Hr (lookup_insert_eq _ _ _) Hd) as G1. rewrite insert_insert_eq in G1.
    pose proof (holds_set_prev _ _ r _ 0 G1 (lookup_insert_eq _ _ _) W0) as G2. rewrite insert_insert_eq in G2.
    pose proof (holds_set_next _ _ r _ 0 G2 (lookup_insert_eq _ _ _) W0) as G3. rewrite insert_insert_eq in G3. done.
Qed.

Lemma fresh_cell N p xs q a : dll N p xs q -> N !! a = None -> a ∉ xs.*1.
Proof. intros Hd Ha Hin. destruct (dll_lookup N p xs q a Hd Hin) as [n E]. congruence. Qed.

(** Each operation leaves a list [ys] in the store [N'], and touches nothing else. *)
Definition leaves h (N : gmap Z cnode) (xs ys : cells) (c : Z) : Prop :=
  exists N', holds h N' /\ dll N' 0 ys 0 /\ NoDup (ys.*1) /\ c = hd0 ys 0 /\ only xs ys N N' /\
    (forall a, a ∈ xs.*1 -> a ∉ ys.*1 -> N' !! a = None).

Lemma leaves_same h N xs : holds h N -> dll N 0 xs 0 -> NoDup (xs.*1) -> leaves h N xs xs (hd0 xs 0).
Proof. intros. exists N. repeat split; try done. Qed.

Lemma clist_append_spec h N xs d k : holds h N -> dll N 0 xs 0 -> NoDup (xs.*1) -> word d -> (length xs <= k)%nat ->
  exists h' c ys, clist_append k h (hd0 xs 0) d = Ok (h', c) /\ leaves h' N xs ys c /\
    (ys = xs \/ exists a, N !! a = None /\ ys = xs ++ [(a, d)]).
Proof.
  intros Hh Hd Hn Hw Hk. unfold clist_append.
  destruct (clist_alloc_spec h N d Hh Hw) as (h1 & a & -> & [[-> G]|(Ha & Wa & HN & G)]); cbn [rbind].
  { exists h1, (hd0 xs 0), xs. split; [done|]. split; [by apply leaves_same | by left]. }
  destruct (Z.eqb_spec a 0); [done|]. rewrite (hd0_zero h N 0 xs Hh Hd).
  pose proof (fresh_cell N 0 xs 0 a Hd HN) as Hf.
  destruct xs as [|[b e] xs].
  { exists h1, a, [(a, d)]. split; [done|]. split; [|right; by exists a].
    exists (<[a := CNode d 0 0]> N). split; [done|]. split; [split; [apply lookup_insert_eq | done]|].
    split; [apply NoDup_singleton|]. split; [done|]. split; [|set_solver].
    intros x _ Hx. apply lookup_insert_ne. set_solver. }
  set (L := (b, e) :: xs) in *. pose proof (dll_insert N 0 L 0 a (CNode d 0 0) Hf Hd) as Hd1.
  cbn [hd0 L] in *. rewrite (walk_next_last h1 _ k 0 b e xs G Hd1) by (simpl in Hk; lia). cbn [rbind].
  destruct (exists_last (l := L)) as (l & [z f] & EL); [done|].
  assert (Hz : lst b xs = z) by (change (lst 0 L = z); rewrite EL, lst_app; done). rewrite Hz.
  rewrite EL in *. rewrite fmap_app in Hn, Hf. apply NoDup_app in Hn as (Hn1 & Hn2 & _).
  assert (Hzl : z ∉ l.*1) by (intros Hz'; apply (Hn2 z Hz'); set_solver).
  assert (Haz : a <> z) by set_solver.
  assert (Ez : <[a := CNode d 0 0]> N !! z = Some (CNode f (lst 0 l) 0)).
  { apply dll_app in Hd1 as [_ [Hd1 _]]. exact Hd1. }
  pose proof (holds_set_next _ _ z _ a G Ez Wa) as G2. cbn [c_data c_prev] in G2.
  assert (Wz : word z) by (eapply (holds_addr h1); [exact G | by eexists]).
  eassert (Ea : _ !! a = Some (CNode d 0 0)); [|pose proof (holds_set_prev _ _ a _ z G2 Ea Wz) as G3].
  { rewrite lookup_insert_ne by done. apply lookup_insert_eq. }
  eexists _, _, ((l ++ [(z, f)]) ++ [(a, d)]). split; [done|]. split; [|right; by exists a].
  eexists. split; [exact G3|]. cbn [c_data c_next]. split; [|split; [|split; [|split]]].
  - apply dll_app. split.
    + apply dll_insert; [rewrite fmap_app; set_solver|]. simpl hd0. eapply dll_set_next; [done | exact Hd1].
    + simpl. rewrite lookup_insert_eq, lst_app. done.
  - rewrite !fmap_app. apply NoDup_app. split; [apply NoDup_app; split; [done | split; [done | apply NoDup_singleton]]|].
    split; [set_solver | apply NoDup_singleton].
  - rewrite hd0_app, <- EL. done.
  - intros x _ Hx. rewrite !fmap_app in Hx. rewrite !lookup_insert_ne by set_solver. done.
  - intros x Hx Hx'. rewrite !fmap_app in *. set_solver.
Qed.

Lemma clist_prepend_spec h N xs d : holds h N -> dll N 0 xs 0 -> NoDup (xs.*1) -> word d ->
  exists h' c ys, clist_prepend h (hd0 xs 0) d = Ok (h', c) /\ leaves h' N xs ys c /\
    (ys = xs \/ exists a, N !! a = None /\ ys = (a, d) :: xs).
Proof.
  intros Hh Hd Hn Hw. unfold clist_prepend.
  destruct (clist_alloc_spec h N d Hh Hw) as (h1 & a & -> & [[-> G]|(Ha & Wa & HN & G)]); cbn [rbind].
  { exists h1, (hd0 xs 0), xs. split; [done|]. split; [by apply leaves_same | by left]. }
  destruct (Z.eqb_spec a 0); [done|]. rewrite (hd0_zero h N 0 xs Hh Hd).
  pose proof (fresh_cell N 0 xs 0 a Hd HN) as Hf. pose proof (dll_insert N 0 xs 0 a (CNode d 0 (hd0 xs 0)) Hf Hd) as Hd1.
  assert (Wc : word (hd0 xs 0)).
  { destruct xs as [|[b e] xs]; [unfold word; simpl; lia|]. by apply (dll_addr h N 0 ((b, e) :: xs) 0); [| |left]. }
  pose proof (holds_set_next _ _ a _ _ G (lookup_insert_eq _ _ _) Wc) as G2. rewrite insert_insert_eq in G2.
  cbn [c_data c_prev] in G2.
  assert (Hok : forall h2 N2, holds h2 N2 -> N2 !! a = Some (CNode d 0 (hd0 xs 0)) -> dll N2 a xs 0 ->
    (forall x, x ∉ xs.*1 -> x <> a -> N2 !! x = N !! x) -> leaves h2 N xs ((a, d) :: xs) a).
  { intros h2 N2 P1 P2 P3 P4. exists N2. split; [done|]. split; [done|]. split; [by constructor|]. split; [done|].
    split; [|set_solver]. intros x Hx Hx'. apply P4; [done | set_solver]. }
  eexists _, a, ((a, d) :: xs). split; [done|]. split; [|right; by exists a].
  destruct xs as [|[b e] xs]; cbn [negb hd0] in *.
  - eapply Hok; [exact G2 | apply lookup_insert_eq | done |]. intros x _ Hx. by apply lookup_insert_ne.
  - assert (Hab : a <> b) by set_solver. pose proof Hd1 as [Eb _]. apply NoDup_cons in Hn as [Hb Hn].
    pose proof (holds_set_prev _ _ b _ a G2 Eb Wa) as G3. cbn [c_data c_next] in G3.
    eapply Hok; [exact G3 | by rewrite lookup_insert_ne, lookup_insert_eq | by apply (dll_set_prev _ 0) |].
    intros x Hx Hx'. rewrite !lookup_insert_ne by set_solver. done.
Qed.

Lemma drop_first_spec h N a d xs : holds h N -> dll N 0 ((a, d) :: xs) 0 -> NoDup (((a, d) :: xs).*1) ->
  exists h', drop_first h a = Ok (h', hd0 xs 0) /\ leaves h' N ((a, d) :: xs) xs (hd0 xs 0).
Proof.
  intros Hh Hd Hn. pose proof Hd as [Ea Hxs]. apply NoDup_cons in Hn as [Ha Hn]. simpl in Ha.
  unfold drop_first. destruct (holds_get h N a _ Hh Ea) as (_ & _ & ->). cbn [c_next].
  rewrite (hd0_zero h N a xs Hh Hxs).
  assert (Hok : forall h2 N2, holds h2 N2 -> N2 !! a = N !! a -> dll N2 0 xs 0 ->
    (forall x, x ∉ xs.*1 -> x <> a -> N2 !! x = N !! x) ->
    exists h', (do h <- ns_kfree h2 a; Ok (h, hd0 xs 0)) = Ok (h', hd0 xs 0) /\
      leaves h' N ((a, d) :: xs) xs (hd0 xs 0)).
  { intros h2 N2 P1 P2 P3 P4. destruct (holds_kfree h2 N2 a P1) as (h' & -> & Q); [rewrite P2; by eexists|].
    exists h'. split; [done|]. exists (delete a N2). split; [done|]. split; [by apply dll_delete|].
    split; [done|]. split; [done|]. split.
    - intros x Hx Hx'. rewrite lookup_delete_ne by set_solver. apply P4; set_solver.
    - intros x Hx Hx'. assert (x = a) as -> by set_solver. apply lookup_delete_eq. }
  destruct xs as [|[b e] xs]; cbn [negb hd0] in *; [by apply (Hok h N)|].
  pose proof Hxs as [Eb _]. assert (Hab : a <> b) by set_solver. apply NoDup_cons in Hn as [Hb Hn].
  pose proof (holds_set_prev _ _ b _ 0 Hh Eb ltac:(unfold word; lia)) as G. cbn [c_data c_next] in G.
  eapply Hok; [exact G | by rewrite lookup_insert_ne | by apply (dll_set_prev _ a) |].
  intros x Hx _. rewrite lookup_insert_ne by set_solver. done.
Qed.

Lemma drop_inner_spec h N l a d r : holds h N -> dll N 0 (l ++ (a, d) :: r) 0 -> NoDup ((l ++ (a, d) :: r).*1) ->
  l <> [] -> exists h', drop_inner h a = Ok h' /\ leaves h' N (l ++ (a, d) :: r) (l ++ r) (hd0 l 0).
Proof.
  intros Hh Hd Hn Hl. destruct (exists_last Hl) as (l1 & [b e] & ->). clear Hl.
  pose proof Hd as Hd0. apply dll_app in Hd0 as [D1 D2]. rewrite lst_app in D2. simpl in D2. destruct D2 as [Ea Dr].
  apply dll_app in D1 as D1'. destruct D1' as [_ [Eb _]]. simpl in Eb.
  rewrite !fmap_app in Hn. apply NoDup_app in Hn as (N1 & N2 & N3). apply NoDup_cons in N3 as [N3 N4].
  apply NoDup_app in N1 as (N0 & Nb & _). simpl in N2, N3, Nb.
  assert (Hbl : b ∉ l1.*1) by (intros Hb; apply (Nb b Hb); set_solver).
  assert (Hal : a ∉ (l1 ++ [(b, e)]).*1) by (rewrite fmap_app; intros Ha; apply (N2 a Ha); left).
  assert (Hlr : forall x, x ∈ (l1 ++ [(b, e)]).*1 -> x ∉ r.*1)
    by (intros x Hx Hr; rewrite fmap_app in Hx; apply (N2 x Hx); by right).
  assert (Hb : b ∈ (l1 ++ [(b, e)]).*1) by (rewrite fmap_app; apply elem_of_app; right; left).
  assert (Hba : b <> a) by congruence. assert (Hbr : b ∉ r.*1) by auto.
  unfold drop_inner. destruct (holds_get h N a _ Hh Ea) as (_ & -> & ->). cbn [c_prev c_next].
  assert (Wr : word (hd0 r 0)).
  { destruct r as [|[c f] r]; [unfold word; simpl; lia|]. by apply (dll_addr h N a ((c, f) :: r) 0); [| |left]. }
  pose proof (holds_set_next _ _ b _ _ Hh Eb Wr) as G. cbn [c_data c_prev] in G. set (h1 := ns_set_next h b _) in *.
  set (N1' := <[b := _]> N) in *. assert (Ea1 : N1' !! a = N !! a) by (by apply lookup_insert_ne).
  rewrite Ea in Ea1. destruct (holds_get h1 _ a _ G Ea1) as (_ & -> & ->). cbn [c_prev c_next].
  rewrite (hd0_zero h N a r Hh Dr).
  pose proof (dll_set_next N 0 l1 b e _ (hd0 r 0) Hbl D1) as Dl. fold N1' in Dl.
  pose proof (dll_insert N a r 0 b (CNode e (lst 0 l1) (hd0 r 0)) Hbr Dr) as Dr1. fold N1' in Dr1.
  assert (Hok : forall h2 M, holds h2 M -> M !! a = N !! a -> dll M 0 (l1 ++ [(b, e)]) (hd0 r 0) -> dll M b r 0 ->
    (forall x, x ∉ r.*1 -> x <> b -> M !! x = N !! x) ->
    exists h', ns_kfree h2 a = Ok h' /\
      leaves h' N ((l1 ++ [(b, e)]) ++ (a, d) :: r) ((l1 ++ [(b, e)]) ++ r) (hd0 (l1 ++ [(b, e)]) 0)).
  { intros h2 M P1 P2 P3 P3' P4. destruct (holds_kfree h2 M a P1) as (h' & -> & Q); [rewrite P2; by eexists|].
    exists h'. split; [done|]. exists (delete a M). split; [done|]. split; [|split; [|split; [|split]]].
    - apply dll_app. rewrite lst_app. by split; apply dll_delete.
    - rewrite !fmap_app. apply NoDup_app. split; [apply NoDup_app; split; [done | split; [done | apply NoDup_singleton]]|].
      split; [|done]. intros x Hx. apply Hlr. by rewrite fmap_app.
    - rewrite !hd0_app. by destruct l1 as [|[]].
    - intros x Hx _. rewrite !fmap_app, !not_elem_of_app, !fmap_cons, !not_elem_of_cons in Hx. simpl in Hx.
      destruct Hx as [[_ [Hxb _]] [Hxa Hxr]]. rewrite lookup_delete_ne by done. by apply P4.
    - intros x Hx Hx'. rewrite !fmap_app, !elem_of_app, !fmap_cons, !elem_of_cons in Hx.
      rewrite !fmap_app, !elem_of_app, !fmap_cons, !elem_of_cons in Hx'. simpl in Hx, Hx'.
      assert (x = a) as -> by tauto. apply lookup_delete_eq. }
  destruct r as [|[c f] r]; cbn [negb hd0] in *.
  - apply (Hok h1 N1'); try done; [by rewrite Ea1 | intros x _ Hx; by apply lookup_insert_ne].
  - pose proof Dr1 as [Ec _]. assert (Hcb : b <> c) by (intros ->; apply Hbr; left).
    assert (Hca : c <> a) by (intros ->; apply N3; left).
    apply NoDup_cons in N4 as [Nc Nr]. assert (Hcl : c ∉ (l1 ++ [(b, e)]).*1) by (intros Hc; apply (Hlr c Hc); left).
    assert (Wb : word b) by (eapply (holds_addr h); [exact Hh | by eexists]).
    pose proof (holds_set_prev _ _ c _ b G Ec Wb) as G2. cbn [c_data c_next] in G2.
    eapply Hok; [exact G2 | by rewrite lookup_insert_ne, Ea1 | by apply dll_insert | by apply (dll_set_prev _ a) |].
    intros x Hx Hx'. rewrite lookup_insert_ne by (intros ->; apply Hx; left). by apply lookup_insert_ne.
Qed.

Lemma clist_pop_spec h N xs k : holds h N -> dll N 0 xs 0 -> NoDup (xs.*1) -> (length xs <= k)%nat ->
  exists h' c, clist_pop k h (hd0 xs 0) = Ok (h', c, match last xs with Some (_, d) => d | None => 0 end) /\
    leaves h' N xs (removelast xs) c.
Proof.
  intros Hh Hd Hn Hk. unfold clist_pop. rewrite (hd0_zero h N 0 xs Hh Hd).
  destruct xs as [|[b e] xs]; [exists h, 0; split; [done | by apply (leaves_same h N [])]|].
  unfold clist_tail. cbn [hd0]. destruct (dll_addr h N 0 ((b, e) :: xs) 0 b Hh Hd ltac:(left)) as [Hb0 _].
  destruct (Z.eqb_spec b 0); [done|]. rewrite (walk_next_last h N k 0 b e xs Hh Hd) by (simpl in Hk; lia). cbn [rbind].
  destruct (exists_last (l := (b, e) :: xs)) as (l & [z f] & EL); [done|].
  assert (Hz : lst b xs = z) by (change (lst 0 ((b, e) :: xs) = z); rewrite EL, lst_app; done). rewrite Hz.
  assert (Hb : b = hd0 (l ++ [(z, f)]) 0) by (by rewrite <- EL). clear Hz. rewrite EL in *. clear EL xs e.
  rewrite last_snoc, removelast_last.
  pose proof Hd as Hd'. apply dll_app in Hd' as [D1 [Ez _]]. simpl in Ez.
  destruct (holds_get h N z _ Hh Ez) as (E1 & E2 & E3). cbn [c_data c_prev c_next] in *. rewrite E2.
  destruct l as [|[y g] l _] using rev_ind.
  { simpl in Hb. subst b. rewrite Z.eqb_refl. cbn [lst negb Z.eqb]. rewrite E1.
    destruct (drop_first_spec h N z f [] Hh Hd Hn) as (h' & E & Hl). unfold drop_first in E. rewrite E3 in E.
    cbn [hd0 negb Z.eqb] in E. exists h', 0. destruct (ns_kfree h z) as [h1|]; [|done]. cbn [rbind] in *.
    injection E as ->. by rewrite Z.eqb_refl. }
  destruct (drop_inner_spec h N (l ++ [(y, g)]) z f [] Hh Hd Hn) as (h' & E & Hl); [by destruct l|].
  rewrite app_nil_r in Hl. unfold drop_inner in E. rewrite E2, E3, lst_app in E. cbn [hd0 lst] in E.
  rewrite lst_app. cbn [lst]. set (h1 := ns_set_next h y 0) in *.
  assert (Hyz : y <> z /\ N !! y = Some (CNode g (lst 0 l) z)).
  { split; [|apply dll_app in D1 as [_ [Ey _]]; exact Ey]. rewrite !fmap_app in Hn. apply NoDup_app in Hn as (_ & Hn & _).
    intros ->. apply (Hn z); [apply elem_of_app; right; left | left]. }
  destruct Hyz as [Hyz Ey]. pose proof (holds_set_next _ _ y _ 0 Hh Ey ltac:(unfold word; lia)) as G. fold h1 in G.
  destruct (holds_get h1 _ z (CNode f (lst 0 (l ++ [(y, g)])) 0) G) as (F1 & _ & F3);
    [by rewrite lookup_insert_ne|]. cbn [c_next c_data] in F1, F3. rewrite F3 in E. cbn [negb Z.eqb] in E.
  assert (Hy0 : (y =? 0) = false) by (apply Z.eqb_neq; eapply (holds_addr h N); [done | by eexists]).
  rewrite Hy0. cbn [negb]. rewrite F1, E. cbn [rbind].
  eexists _, _. split; [reflexivity|].
  assert (Hbz : (b =? z) = false).
  { apply Z.eqb_neq. rewrite Hb, hd0_app. intros Heq. rewrite !fmap_app in Hn. apply NoDup_app in Hn as (_ & Hn & _).
    apply (Hn z); [|left]. rewrite <- Heq. destruct l as [|[w u] l]; simpl; left. }
  rewrite Hbz, Hb, hd0_app. replace (hd0 (l ++ [(y, g)]) _) with (hd0 (l ++ [(y, g)]) 0); [done|].
  by destruct l as [|[]].
Qed.

Lemma clist_free_with_spec k h : forall N p xs, holds h N -> dll N p xs 0 -> NoDup (xs.*1) -> (length xs <= k)%nat ->
  exists h' N', clist_free_with k h (hd0 xs 0) = Ok (h', 0, xs.*2) /\ clist_free k h (hd0 xs 0) = Ok (h', 0) /\
    holds h' N' /\ (forall a, a ∉ xs.*1 -> N' !! a = N !! a) /\ (forall a, a ∈ xs.*1 -> N' !! a = None).
Proof.
  revert h. induction k as [|k IH]; intros h N p xs Hh Hd Hn Hk; cbn [clist_free clist_free_with];
    rewrite (hd0_zero h N p xs Hh Hd); destruct xs as [|[a d] xs]; try (simpl in Hk; lia);
    try (exists h, N; repeat split; try done; set_solver).
  destruct Hd as [Ea Hd]. destruct (holds_get h N a _ Hh Ea) as (E1 & _ & E3). cbn [hd0 c_data c_next] in *.
  apply NoDup_cons in Hn as [Ha Hn]. simpl in Ha.
  destruct (holds_kfree h N a Hh ltac:(by eexists)) as (h1 & F & G). rewrite E1, E3, F. cbn [rbind].
  destruct (IH h1 _ a xs G (dll_delete _ _ _ _ _ Ha Hd) Hn ltac:(simpl in Hk; lia)) as (h' & N' & -> & -> & P1 & P2 & P3).
  cbn [rbind]. exists h', N'. split; [done|]. split; [done|]. split; [done|]. split; intros x Hx; rewrite fmap_cons in Hx; simpl in Hx.
  - rewrite P2 by set_solver. apply lookup_delete_ne. set_solver.
  - apply elem_of_cons in Hx as [->|Hx]; [|by apply P3]. rewrite P2 by done. apply lookup_delete_eq.
Qed.

(** The cells without the one at [a]. *)
Definition without (a : Z) (xs : cells) : cells := filter (fun x => x.1 <> a) xs.

Lemma without_split l a d r : NoDup ((l ++ (a, d) :: r).*1) -> without a (l ++ (a, d) :: r) = l ++ r.
Proof.
  rewrite fmap_app, fmap_cons. intros Hn. apply NoDup_app in Hn as (_ & H1 & H2). apply NoDup_cons in H2 as [H2 _].
  unfold without. rewrite filter_app, filter_cons_False by (simpl; tauto).
  assert (Hid : forall ys : cells, a ∉ ys.*1 -> filter (fun x => x.1 <> a) ys = ys).
  { induction ys as [|[b e] ys IH]; [done|]. intros Hb. rewrite fmap_cons, not_elem_of_cons in Hb.
    rewrite filter_cons_True by (simpl in *; naive_solver). f_equal. apply IH. tauto. }
  rewrite !Hid; [done | exact H2 |]. intros Hl. apply (H1 a Hl). left.
Qed.

Lemma clist_delete_node_spec h N xs a : holds h N -> dll N 0 xs 0 -> NoDup (xs.*1) -> a ∈ xs.*1 ->
  exists h' c, clist_delete_node h (hd0 xs 0) a = Ok (h', c) /\ leaves h' N xs (without a xs) c.
Proof.
  intros Hh Hd Hn Ha. unfold clist_delete_node. destruct (dll_addr h N 0 xs 0 a Hh Hd Ha) as [Ha0 _].
  rewrite (hd0_zero h N 0 xs Hh Hd). destruct (Z.eqb_spec a 0); [done|].
  apply list_elem_of_fmap in Ha as ([a' d] & -> & Ha). apply list_elem_of_split in Ha as (l & r & ->). cbn [fst] in *.
  rewrite (without_split l a' d r Hn). destruct l as [|[b e] l].
  - cbn [app hd0]. rewrite Z.eqb_refl. cbn [orb]. destruct (drop_first_spec h N a' d r Hh Hd Hn) as (h' & -> & Hl). eauto.
  - cbn [app hd0 orb]. destruct (Z.eqb_spec b a') as [->|].
    { rewrite fmap_app, !fmap_cons in Hn. apply NoDup_cons in Hn as [Hn _]. destruct Hn. apply elem_of_app. right. left. }
    destruct (drop_inner_spec h N ((b, e) :: l) a' d r Hh Hd Hn) as (h' & -> & Hl); [done|]. eauto.
Qed.

Lemma clist_delete_spec h N xs d k : holds h N -> dll N 0 xs 0 -> NoDup (xs.*1) -> (length xs <= k)%nat ->
  exists h' c, clist_delete k h (hd0 xs 0) d = Ok (h', c) /\
    leaves h' N xs (match split_data d xs with Some (l, _, r) => l ++ r | None => xs end) c.
Proof.
  intros Hh Hd Hn Hk. unfold clist_delete. rewrite (hd0_zero h N 0 xs Hh Hd).
  destruct xs as [|[b e] xs]; [exists h, 0; split; [done | by apply (leaves_same h N [])]|].
  pose proof Hd as [Eb Dx]. destruct (holds_get h N b _ Hh Eb) as (E1 & _ & E3). cbn [c_data c_next hd0] in *.
  rewrite E1, E3. cbn [split_data]. destruct (Z.eqb_spec e d) as [->|].
  { destruct (drop_first_spec h N b d xs Hh Hd Hn) as (h' & -> & Hl). eauto. }
  rewrite (find_data_spec h N d k b xs Hh Dx) by (simpl in Hk; lia). cbn [rbind].
  destruct (split_data d xs) as [[[l a] r]|] eqn:Es.
  2:{ rewrite Z.eqb_refl. exists h, b. split; [done | by apply (leaves_same h N ((b, e) :: xs))]. }
  apply split_data_some in Es as ->.
  destruct (dll_addr h N b _ 0 a Hh Dx) as [Ha _]; [rewrite fmap_app; apply elem_of_app; right; left|].
  destruct (Z.eqb_spec a 0); [done|].
  destruct (drop_inner_spec h N ((b, e) :: l) a d r Hh Hd Hn) as (h' & -> & Hl); [done|]. cbn [rbind]. eauto.
Qed.

(** ** The contract: sequences of cells *)

Inductive cop :=
| OAppend (d : Z) | OPrepend (d : Z) | OPop
| ODelete (d : Z) | ODeleteWith (d : Z) | ODeleteNode (a : Z) | ODeleteNodeWith (a : Z)
| OFree | OFreeWith
| OLength | OSearch (d : Z) | ONth (n : nat) | ONthLast (n : nat) | OHead (a : Z) | OTail (a : Z).

(** The new list pointer and what the call returns or hands to its callback. *)
Definition cexec (k : nat) h (c : Z) (o : cop) : res (H * Z * list Z) :=
  match o with
  | OAppend d => do (h, c) <- clist_append k h c d; Ok (h, c, [])
  | OPrepend d => do (h, c) <- clist_prepend h c d; Ok (h, c, [])
  | OPop => do (h, c, d) <- clist_pop k h c; Ok (h, c, [d])
  | ODelete d => do (h, c) <- clist_delete k h c d; Ok (h, c, [])
  | ODeleteWith d => clist_delete_with k h c d
  | ODeleteNode a => do (h, c) <- clist_delete_node h c a; Ok (h, c, [])
  | ODeleteNodeWith a => clist_delete_node_with h c a
  | OFree => do (h, c) <- clist_free k h c; Ok (h, c, [])
  | OFreeWith => clist_free_with k h c
  | OLength => do n <- clist_length k h c; Ok (h, c, [n])
  | OSearch d => do b <- clist_search k h c d; Ok (h, c, [Z.b2z b])
  | ONth n => do a <- clist_nth k h c n; Ok (h, c, [a])
  | ONthLast n => do a <- clist_nth_last k h c n; Ok (h, c, [a])
  | OHead a => do a <- clist_head k h a; Ok (h, c, [a])
  | OTail a => do a <- clist_tail k h a; Ok (h, c, [a])
  end.

Definition callowed (xs : cells) (o : cop) : Prop :=
  match o with
  | OAppend d | OPrepend d => word d
  | ODeleteNode a | ODeleteNodeWith a | OHead a | OTail a => a ∈ xs.*1
  | OLength => alen xs < 2 ^ 64
  | _ => True
  end.

Definition addr_at (xs : cells) (n : nat) : Z := match xs !! n with Some (a, _) => a | None => 0 end.

Definition removed (d : Z) (xs : cells) : cells :=
  match split_data d xs with Some (l, _, r) => l ++ r | None => xs end.

(** What each call does to the sequence and what it returns. *)
Definition cspec (N : gmap Z cnode) (xs : cells) (o : cop) (ys : cells) (out : list Z) : Prop :=
  match o with
  | OAppend d => (ys = xs \/ exists a, N !! a = None /\ ys = xs ++ [(a, d)]) /\ out = []
  | OPrepend d => (ys = xs \/ exists a, N !! a = None /\ ys = (a, d) :: xs) /\ out = []
  | OPop => ys = removelast xs /\ out = [match last xs with Some (_, d) => d | None => 0 end]
  | ODelete d => ys = removed d xs /\ out = []
  | ODeleteWith d => ys = removed d xs /\ out = if split_data d xs then [d] else []
  | ODeleteNode a => ys = without a xs /\ out = []
  | ODeleteNodeWith a =>
      ys = without a xs /\ out = if a =? hd0 xs 0 then [] else (filter (fun x => x.1 = a) xs).*2
  | OFree => ys = [] /\ out = []
  | OFreeWith => ys = [] /\ out = xs.*2
  | OLength => ys = xs /\ out = [alen xs]
  | OSearch d => ys = xs /\ out = [if split_data d xs then 1 else 0]
  | ONth n => ys = xs /\ out = [addr_at xs n]
  | ONthLast n => ys = xs /\ out = [addr_at (reverse xs) n]
  | OHead _ => ys = xs /\ out = [hd0 xs 0]
  | OTail _ => ys = xs /\ out = [lst 0 xs]
  end.

Lemma head_reads h N xs a k : holds h N -> dll N 0 xs 0 -> a ∈ xs.*1 -> (length xs <= k)%nat ->
  clist_head k h a = Ok (hd0 xs 0) /\ clist_tail k h a = Ok (lst 0 xs).
Proof.
  intros Hh Hd Ha Hk. destruct (dll_addr h N 0 xs 0 a Hh Hd Ha) as [Ha0 _].
  apply list_elem_of_fmap in Ha as ([a' d] & -> & Ha). apply list_elem_of_split in Ha as (l & r & ->). cbn [fst] in *.
  unfold clist_head, clist_tail. destruct (Z.eqb_spec a' 0); [done|]. rewrite length_app in Hk. simpl in Hk. split.
  - rewrite (cons_middle (a', d)), app_assoc in Hd. apply dll_app in Hd as [Hd _].
    rewrite (walk_prev_first h N k l a' d _ Hh Hd) by lia. f_equal. rewrite !hd0_app. by destruct l as [|[]].
  - apply dll_app in Hd as [_ Hd]. rewrite (walk_next_last h N k _ a' d r Hh Hd) by lia. by rewrite lst_app.
Qed.

Lemma filter_cell (l : cells) (a d : Z) (r : cells) : NoDup ((l ++ (a, d) :: r).*1) -> (filter (fun x => x.1 = a) (l ++ (a, d) :: r)).*2 = [d].
Proof.
  rewrite fmap_app, fmap_cons. intros Hn. apply NoDup_app in Hn as (_ & H1 & H2). apply NoDup_cons in H2 as [H2 _].
  assert (Hid : forall ys : cells, a ∉ ys.*1 -> filter (fun x => x.1 = a) ys = []).
  { induction ys as [|[b e] ys IH]; [done|]. intros Hb. rewrite fmap_cons, not_elem_of_cons in Hb.
    rewrite filter_cons_False by (simpl in *; naive_solver). apply IH. tauto. }
  rewrite filter_app, filter_cons_True by done. rewrite !Hid; [done | exact H2 |]. intros Hl. apply (H1 a Hl). left.
Qed.

Lemma delete_with_spec h N xs d k : holds h N -> dll N 0 xs 0 -> NoDup (xs.*1) -> (length xs <= k)%nat ->
  clist_delete_with k h (hd0 xs 0) d =
  (do (h, c) <- clist_delete k h (hd0 xs 0) d; Ok (h, c, if split_data d xs then [d] else [])).
Proof.
  intros Hh Hd Hn Hk. unfold clist_delete_with, clist_delete. rewrite (hd0_zero h N 0 xs Hh Hd).
  destruct xs as [|[b e] xs]; [done|].
  pose proof Hd as [Eb Dx]. destruct (holds_get h N b _ Hh Eb) as (E1 & _ & E3). cbn [c_data c_next hd0] in *.
  rewrite E1, E3. cbn [split_data]. destruct (Z.eqb_spec e d) as [->|]; [by destruct (drop_first h b) as [[]|]|].
  rewrite (find_data_spec h N d k b xs Hh Dx) by (simpl in Hk; lia). cbn [rbind].
  destruct (split_data d xs) as [[[l a] r]|] eqn:Es; [|by rewrite Z.eqb_refl]. apply split_data_some in Es as ->.
  destruct (dll_addr h N b _ 0 a Hh Dx) as [Ha _]; [rewrite fmap_app; apply elem_of_app; right; left|].
  destruct (Z.eqb_spec a 0); [done|]. apply dll_app in Dx as [_ [Ea _]].
  destruct (holds_get h N a _ Hh Ea) as (-> & _ & _). cbn [c_data]. by destruct (drop_inner h a).
Qed.

Lemma delete_node_with_spec h N xs a : holds h N -> dll N 0 xs 0 -> NoDup (xs.*1) -> a ∈ xs.*1 ->
  clist_delete_node_with h (hd0 xs 0) a =
  (do (h, c) <- clist_delete_node h (hd0 xs 0) a;
   Ok (h, c, if a =? hd0 xs 0 then [] else (filter (fun x => x.1 = a) xs).*2)).
Proof.
  intros Hh Hd Hn Ha. unfold clist_delete_node_with, clist_delete_node. rewrite (Z.eqb_sym a (hd0 xs 0)).
  destruct (dll_addr h N 0 xs 0 a Hh Hd Ha) as [Ha0 _]. rewrite (hd0_zero h N 0 xs Hh Hd).
  destruct (Z.eqb_spec a 0); [done|]. destruct xs as [|x xs]; [set_solver|]. cbn [orb].
  destruct (hd0 (x :: xs) 0 =? a); [by destruct (drop_first h _) as [[]|]|].
  apply list_elem_of_fmap in Ha as ([a' d] & -> & Ha). apply list_elem_of_split in Ha as (l & r & E). cbn [fst] in *.
  rewrite E in *. rewrite (filter_cell l a' d r Hn). apply dll_app in Hd as [_ [Ea _]].
  destruct (holds_get h N a' _ Hh Ea) as (-> & _ & _). cbn [c_data]. by destruct (drop_inner h a').
Qed.

Lemma clist_op h N xs o k : holds h N -> dll N 0 xs 0 -> NoDup (xs.*1) -> callowed xs o -> (length xs <= k)%nat ->
  exists h' c ys out, cexec k h (hd0 xs 0) o = Ok (h', c, out) /\ cspec N xs o ys out /\ leaves h' N xs ys c.
Proof.
  intros Hh Hd Hn Ha Hk. pose proof (leaves_same h N xs Hh Hd Hn) as Hsame.
  assert (Hpos : forall b e xs', xs = (b, e) :: xs' -> (b =? 0) = false).
  { intros b e xs' ->. apply Z.eqb_neq. apply (dll_addr h N 0 ((b, e) :: xs') 0); [done | done | left]. }
  destruct o as [d|d| |d|d|a|a| | | |d|n|n|a|a]; cbn [cexec cspec callowed] in *.
  - destruct (clist_append_spec h N xs d k) as (h' & c & ys & -> & ? & ?); eauto 10.
  - destruct (clist_prepend_spec h N xs d) as (h' & c & ys & -> & ? & ?); eauto 10.
  - destruct (clist_pop_spec h N xs k) as (h' & c & -> & ?); eauto 10.
  - destruct (clist_delete_spec h N xs d k) as (h' & c & -> & ?); eauto 10.
  - rewrite (delete_with_spec h N) by done. destruct (clist_delete_spec h N xs d k) as (h' & c & -> & ?); eauto 10.
  - destruct (clist_delete_node_spec h N xs a) as (h' & c & -> & ?); eauto 10.
  - rewrite (delete_node_with_spec h N) by done. destruct (clist_delete_node_spec h N xs a) as (h' & c & -> & ?); eauto 10.
  - destruct (clist_free_with_spec k h N 0 xs) as (h' & N' & _ & -> & H1 & H2 & H3); try done.
    exists h', 0, [], []. split; [done|]. split; [done|]. exists N'. repeat split; try done; [constructor | | auto].
    intros x Hx _. by apply H2.
  - destruct (clist_free_with_spec k h N 0 xs) as (h' & N' & -> & _ & H1 & H2 & H3); try done.
    exists h', 0, [], xs.*2. split; [done|]. split; [done|]. exists N'. repeat split; try done; [constructor | | auto].
    intros x Hx _. by apply H2.
  - rewrite (clist_length_spec h N k 0 xs) by done. eauto 10.
  - unfold clist_search. rewrite (find_data_spec h N d k 0 xs) by done. cbn [rbind].
    destruct (split_data d xs) as [[[l a] r]|] eqn:Es; [|eauto 10]. apply split_data_some in Es.
    destruct (dll_addr h N 0 xs 0 a Hh Hd) as [Ha0 _]; [rewrite Es, fmap_app; apply elem_of_app; right; left|].
    destruct (Z.eqb_spec a 0); [done|]. eauto 10.
  - exists h, (hd0 xs 0), xs, [addr_at xs n]. split; [|done]. unfold clist_nth, addr_at.
    destruct xs as [|[b e] xs]; [by destruct n|]. cbn [hd0]. rewrite (Hpos b e xs eq_refl).
    destruct (head_reads h N ((b, e) :: xs) b k Hh Hd ltac:(left) Hk) as [-> _]. cbn [rbind hd0].
    by rewrite (step_next_nth h N n 0 b e xs).
  - exists h, (hd0 xs 0), xs, [addr_at (reverse xs) n]. split; [|done]. unfold clist_nth_last, addr_at.
    destruct xs as [|[b e] xs]; [by destruct n|]. cbn [hd0]. rewrite (Hpos b e xs eq_refl).
    destruct (head_reads h N ((b, e) :: xs) b k Hh Hd ltac:(left) Hk) as [_ ->]. cbn [rbind].
    destruct (exists_last (l := (b, e) :: xs)) as (l & [z f] & EL); [done|]. rewrite EL in *. rewrite lst_app.
    simpl lst. by rewrite (step_prev_nth h N n l z f 0).
  - destruct (head_reads h N xs a k Hh Hd Ha Hk) as [-> _]. eauto 10.
  - destruct (head_reads h N xs a k Hh Hd Ha Hk) as [_ ->]. eauto 10.
Qed.
End Proofs.
