(* ===== verification/CListHeap.v ===== *)
(** * The linked lists on the kernel heap

    [struct clist] in byte memory (data at 0, prev at 8, next at 16), allocated
    with [kmalloc(24)]: the kernel heap discharges the laws the list operations
    were verified against, for any set of blocks other clients own. *)
From S2P Require Import Prelude Mem Heap HeapClient CList.
#[local] Open Scope Z_scope.
#[local] Open Scope list_scope.
#[local] Transparent ld64 st64.

Definition CLIST_SIZE := 24.

#[export] Instance heap_nodes : NodeStore heap := {
  ns_kmalloc hp := kmalloc hp CLIST_SIZE;
  ns_kfree hp p := kfree hp p;
  ns_data hp p := ld64 (hm hp) p;
  ns_prev hp p := ld64 (hm hp) (p + 8);
  ns_next hp p := ld64 (hm hp) (p + 16);
  ns_set_data hp p v := with_mem hp (st64 (hm hp) p v);
  ns_set_prev hp p v := with_mem hp (st64 (hm hp) (p + 8) v);
  ns_set_next hp p v := with_mem hp (st64 (hm hp) (p + 16) v) }.

(** ** A stored word in an owned block *)

(** The contents of a block, read like memory. *)
Definition mem_of (l : list Z) : mem := fun x => nth (Z.to_nat x) l 0.

Lemma st_cong n : forall m m' a v x, m x = m' x -> st n m a v x = st n m' a v x.
Proof. induction n as [|n IH]; intros m m' a v x E; simpl; [done|]. apply IH. unfold mset. by rewrite E. Qed.

Lemma mem_of_insert l i v x : (i < length l)%nat -> 0 <= x ->
  mem_of (<[i := v]> l) x = mset (mem_of l) (Z.of_nat i) v x.
Proof.
  intros Hi Hx. unfold mem_of, mset. destruct (Z.eqb_spec x (Z.of_nat i)) as [->|].
  - rewrite Nat2Z.id. apply nth_lookup_Some. by apply list_lookup_insert_eq.
  - rewrite !nth_lookup, list_lookup_insert_ne by lia. done.
Qed.

Lemma repr_store n : forall hp A p l off v, repr hp A -> A !! p = Some l -> (off + n <= length l)%nat ->
  exists l', repr (with_mem hp (st n (hm hp) (p + Z.of_nat off) v)) (<[p := l']> A) /\ length l' = length l /\
    forall x, 0 <= x -> mem_of l' x = st n (mem_of l) (Z.of_nat off) v x.
Proof.
  induction n as [|n IH]; intros hp A p l off v R Hp Hl; cbn [st].
  - exists l. split; [|done]. by rewrite insert_id, with_mem_id.
  - pose proof (repr_write hp A p l off (v mod 256) R Hp ltac:(lia)) as R1. set (hp1 := with_mem hp _) in *.
    destruct (IH hp1 _ p (<[off := v mod 256]> l) (S off) (v / 256) R1) as (l' & R2 & L2 & M2).
    + apply lookup_insert_eq.
    + rewrite length_insert. lia.
    + exists l'. rewrite insert_insert_eq in R2. rewrite length_insert in L2. split; [|split; [done|]].
      * replace (p + Z.of_nat off + 1) with (p + Z.of_nat (S off)) by lia. exact R2.
      * intros x Hx. rewrite M2 by done. replace (Z.of_nat off + 1) with (Z.of_nat (S off)) by lia.
        apply st_cong. apply mem_of_insert; [lia | done].
Qed.

Lemma owned_read hp A p l off : repr hp A -> A !! p = Some l -> 0 <= off -> off + 8 <= alen l ->
  ld64 (hm hp) (p + off) = ld64 (mem_of l) off.
Proof.
  intros (bs & fl & [I Ho _]) Hp Ho1 Ho2. destruct (Ho _ _ Hp) as (b & _ & _ & _ & Hb).
  apply ld64_shift. intros i Hi. unfold alen in Ho2.
  destruct (lookup_lt_is_Some_2 l (Z.to_nat (off + i))) as [v Ev]; [lia|].
  unfold mem_of. rewrite (nth_lookup_Some _ _ _ _ Ev), <- (Hb _ _ Ev). f_equal. lia.
Qed.

Lemma repr_addr hp A p l : repr hp A -> A !! p = Some l -> p <> 0 /\ word p.
Proof.
  intros (bs & fl & [I Ho _]) Hp. destruct (Ho _ _ Hp) as (b & Hb & -> & Hl & _).
  pose proof (used_range _ _ _ _ I Hb) as (? & ? & ? & _). unfold word, HDR_SIZE, alen in *. lia.
Qed.

(** ** The laws *)

(** A block that holds a node. *)
Definition node_block (l : list Z) (n : cnode) : Prop :=
  alen l = CLIST_SIZE /\ ld64 (mem_of l) 0 = c_data n /\ ld64 (mem_of l) 8 = c_prev n /\ ld64 (mem_of l) 16 = c_next n.

Section Laws.
(** The blocks everybody else owns. *)
Context (F : owned).

Record heap_holds (hp : heap) (N : gmap Z cnode) : Prop := {
  hh_repr : exists A, repr hp A /\ (forall p n, N !! p = Some n -> exists l, A !! p = Some l /\ node_block l n) /\
    (forall p, N !! p = None -> A !! p = F !! p);
  hh_apart : forall p, is_Some (N !! p) -> F !! p = None }.

(** Overwriting one field of one node. *)
Lemma heap_set hp N p n n' off v : heap_holds hp N -> N !! p = Some n -> word v -> off ∈ [0; 8; 16] ->
  n' = CNode (if off =? 0 then v else c_data n) (if off =? 8 then v else c_prev n) (if off =? 16 then v else c_next n) ->
  heap_holds (with_mem hp (st64 (hm hp) (p + off) v)) (<[p := n']> N).
Proof.
  intros [(A & R & HN & HF) Hap] Hp Hv Hoff ->. destruct (HN p n Hp) as (l & Hl & Hlen & B1 & B2 & B3).
  unfold alen, CLIST_SIZE in Hlen.
  assert (Ho : off = 0 \/ off = 8 \/ off = 16) by set_solver.
  destruct (repr_store 8 hp A p l (Z.to_nat off) v R Hl ltac:(lia)) as (l' & R' & L' & M').
  rewrite Z2Nat.id in R', M' by lia.
  assert (Hld : forall o, 0 <= o -> ld64 (mem_of l') o = ld64 (st64 (mem_of l) off v) o).
  { intros o Ho1. apply ld64_shift. intros i Hi. apply M'. lia. }
  split.
  - exists (<[p := l']> A). split; [exact R'|]. split.
    + intros q m Hq. apply lookup_insert_Some in Hq as [[<- <-]|[Hne Hq]].
      * exists l'. split; [apply lookup_insert_eq|]. split; [unfold alen, CLIST_SIZE; lia|].
        rewrite !Hld by lia. cbn [c_data c_prev c_next].
        destruct Ho as [->|[->| ->]]; cbn [Z.eqb Pos.eqb]; rewrite ?ld64_st64_same, ?ld64_st64_apart by (done || lia); done.
      * destruct (HN q m Hq) as (lq & Eq & Hb). exists lq. by rewrite lookup_insert_ne.
    + intros q Hq. apply lookup_insert_None in Hq as [Hq Hne]. rewrite lookup_insert_ne by done. by apply HF.
  - intros q Hq. apply lookup_insert_is_Some' in Hq as [<-|Hq]; apply Hap; [by eexists | done].
Qed.

#[export] Program Instance heap_laws : NodeStoreLaws heap := {| holds := heap_holds |}.
Next Obligation.
  intros hp N p [(A & R & HN & _) _] [n Hn]. destruct (HN p n Hn) as (l & Hl & _). by apply (repr_addr hp A p l).
Qed.
Next Obligation.
  intros hp N p n [(A & R & HN & _) _] Hn. destruct (HN p n Hn) as (l & Hl & Hlen & <- & <- & <-).
  unfold CLIST_SIZE in Hlen. cbn. rewrite <- (Z.add_0_r p) at 1.
  rewrite !(owned_read hp A p l) by (done || lia). done.
Qed.
Next Obligation.
  intros hp N p n v Hh Hn Hv. cbn. rewrite <- (Z.add_0_r p) at 1. by apply (heap_set hp N p n _ 0); [| | |set_solver|].
Qed.
Next Obligation.
  intros hp N p n v Hh Hn Hv. by apply (heap_set hp N p n _ 8); [| | |set_solver|].
Qed.
Next Obligation.
  intros hp N p n v Hh Hn Hv. by apply (heap_set hp N p n _ 16); [| | |set_solver|].
Qed.
Next Obligation.
  intros hp N [(A & R & HN & HF) Hap].
  destruct (repr_malloc_op hp A CLIST_SIZE R) as (hp' & r & A' & E & Hf & R'); [unfold size_ok, CLIST_SIZE; lia|].
  exists hp', r. split; [exact E|]. destruct Hf as [|r l Hr HA Hl _].
  - left. split; [done|]. split; [by exists A | done].
  - right. assert (HNr : N !! r = None).
    { destruct (N !! r) as [n|] eqn:En; [|done]. destruct (HN r n En) as (l' & El & _). congruence. }
    split; [done|]. exists (CNode (ld64 (mem_of l) 0) (ld64 (mem_of l) 8) (ld64 (mem_of l) 16)). split.
    + exists (<[r := l]> A). split; [done|]. split.
      * intros q m Hq. apply lookup_insert_Some in Hq as [[<- <-]|[Hne Hq]].
        -- exists l. by rewrite lookup_insert_eq.
        -- destruct (HN q m Hq) as (lq & Eq & Hb). exists lq. by rewrite lookup_insert_ne.
      * intros q Hq. apply lookup_insert_None in Hq as [Hq Hne]. rewrite lookup_insert_ne by done. by apply HF.
    + intros q Hq. apply lookup_insert_is_Some' in Hq as [<-|Hq]; [|by apply Hap]. by rewrite <- (HF r HNr).
Qed.
Next Obligation.
  intros hp N p [(A & R & HN & HF) Hap] [n Hn]. destruct (HN p n Hn) as (l & Hl & _).
  destruct (repr_free hp A p l R Hl) as (hp' & E & R'). exists hp'. split; [exact E|]. split.
  - exists (delete p A). split; [done|]. split.
    + intros q m Hq. apply lookup_delete_Some in Hq as [Hne Hq]. destruct (HN q m Hq) as (lq & Eq & Hb).
      exists lq. by rewrite lookup_delete_ne.
    + intros q Hq. destruct (decide (p = q)) as [<-|Hne]; [rewrite lookup_delete_eq; symmetry; apply Hap; by eexists|].
      rewrite lookup_delete_ne in Hq by done. rewrite lookup_delete_ne by done. by apply HF.
  - intros q Hq. apply Hap. destruct (decide (p = q)) as [<-|Hne]; [by eexists|]. by rewrite lookup_delete_ne in Hq.
Qed.
End Laws.

(** ** Property *)

(** A list of cells in the heap: [F] is what other clients own, [N] the nodes
    of this client. *)
Definition list_at (F : owned) (hp : heap) (N : gmap Z cnode) (xs : list (Z * Z)) : Prop :=
  heap_holds F hp N /\ dll N 0 xs 0 /\ NoDup (xs.*1).

(** C22: The linked lists, running on the kernel heap in byte memory, implement
    sequences.  Every call (append, prepend, pop, the four ways to delete,
    free, length, search, n-th from either end, head, tail) terminates without
    a panic with as much fuel as the list has cells; it changes the sequence
    and returns what the sequence model says (an append or prepend may leave
    the list as it is when the heap is full); the list pointer is the first
    cell; removed cells are freed exactly once, nodes of other lists and every
    block other clients own keep their contents. *)
Theorem clist_refines (F : owned) hp N xs o k :
  list_at F hp N xs -> callowed xs o -> (length xs <= k)%nat ->
  exists hp' c ys out N', cexec k hp (hd0 xs 0) o = Ok (hp', c, out) /\ cspec N xs o ys out /\
    list_at F hp' N' ys /\ c = hd0 ys 0 /\ only xs ys N N' /\
    (forall a, a ∈ xs.*1 -> a ∉ ys.*1 -> N' !! a = None).
Proof.
  intros (Hh & Hd & Hn) Ha Hk.
  destruct (clist_op (NL := heap_laws F) hp N xs o k Hh Hd Hn Ha Hk) as (hp' & c & ys & out & E & S & N' & H1 & H2 & H3 & H4).
  exists hp', c, ys, out, N'. split; [exact E|]. split; [exact S|]. split; [by split|]. exact H4.
Qed.

Lemma clist_refines_witness : exists hp c ys out N',
  cexec 0 demo_heap 0 (OAppend 7) = Ok (hp, c, out) /\ cspec ∅ [] (OAppend 7) ys out /\ list_at ∅ hp N' ys.
Proof.
  destruct (clist_refines ∅ demo_heap ∅ [] (OAppend 7) 0) as (hp & c & ys & out & N' & H1 & H2 & H3 & _).
  - split; [|by split; [done | constructor]]. split; [|intros p [n Hp]; by rewrite lookup_empty in Hp].
    exists ∅. split; [apply demo_heap_repr|]. split; [intros p n Hp; by rewrite lookup_empty in Hp | done].
  - unfold callowed, word. lia.
  - simpl. lia.
  - exists hp, c, ys, out, N'. auto.
Defined.
