(* ===== verification/Sched.v ===== *)
(** * kernel/proc.c: the EEVDF run queues

    The process table, the per-CPU run queues and the treap they are kept in.
    A queue's treap (the [tl]/[tr] links threaded through the processes) is an
    inductive tree of process indices; keys and priorities are read from the
    process table, as the code reads them through the pointers.  The refinement
    section shows that the treap operations implement a list sorted by
    (virtual deadline, pid), and the last section what that means for the
    choice of the next task. *)
From Stdlib Require Import Sorted.
From S2P Require Import Prelude.
#[local] Open Scope Z_scope.

Definition MAX_PROCS := 64.
Definition NR_RQ := 4.
Definition VIRT_SHIFT := 10.
Definition VIRT_UNIT := Z.shiftl 1 VIRT_SHIFT.

Inductive proc_state :=
  PROC_UNUSED | PROC_READY | PROC_RUNNING | PROC_BLOCKED | PROC_STOPPED | PROC_ZOMBIE.

Inductive wait_reason_t :=
  WAIT_NONE | WAIT_CHILD | WAIT_TTY | WAIT_PIPE | WAIT_NET | WAIT_SLEEP | WAIT_FUTEX
| WAIT_DRM | WAIT_CGROUP | WAIT_IPC | WAIT_VFORK | WAIT_MUTEX.

#[global] Instance proc_state_eq_dec : EqDecision proc_state.
Proof. solve_decision. Defined.
#[global] Instance wait_reason_eq_dec : EqDecision wait_reason_t.
Proof. solve_decision. Defined.

(** The fields of [proc_t] the scheduler and the signal code use. *)
Record proc := Proc {
  pid : Z;
  ppid : Z;
  pgid : Z;
  state : proc_state;
  wait_reason : wait_reason_t;
  wake_tick : Z;
  wait_q : Z;
  itimer_expire : Z;
  itimer_interval : Z;
  sig_pending : Z;
  sig_ignored : Z;
  sig_mask : Z;
  stop_sig : Z;
  reported : bool;
  traced : bool;
  ptrace_stopped : bool;
  vruntime : Z;
  deadline : Z;
  slice : Z;
  last_run_tick : Z;
  vlag : Z;
  rq_cpu : Z;
  tprio : Z;
  pi_boost : Z;
  bkl_held : bool;
  on_cpu : Z;
  cg : Z;
  sched_weight : Z;
  cg_park_next : Z
}.

Definition set_state (v : proc_state) (p : proc) : proc :=
  Proc (pid p) (ppid p) (pgid p) v (wait_reason p) (wake_tick p) (wait_q p) (itimer_expire p)
    (itimer_interval p) (sig_pending p) (sig_ignored p) (sig_mask p) (stop_sig p) (reported p) (traced
    p) (ptrace_stopped p) (vruntime p) (deadline p) (slice p) (last_run_tick p) (vlag p) (rq_cpu p)
    (tprio p) (pi_boost p) (bkl_held p) (on_cpu p) (cg p) (sched_weight p) (cg_park_next p).
Definition set_wait_reason (v : wait_reason_t) (p : proc) : proc :=
  Proc (pid p) (ppid p) (pgid p) (state p) v (wake_tick p) (wait_q p) (itimer_expire p) (itimer_interval p)
    (sig_pending p) (sig_ignored p) (sig_mask p) (stop_sig p) (reported p) (traced p) (ptrace_stopped p)
    (vruntime p) (deadline p) (slice p) (last_run_tick p) (vlag p) (rq_cpu p) (tprio p) (pi_boost p)
    (bkl_held p) (on_cpu p) (cg p) (sched_weight p) (cg_park_next p).
Definition set_wake_tick (v : Z) (p : proc) : proc :=
  Proc (pid p) (ppid p) (pgid p) (state p) (wait_reason p) v (wait_q p) (itimer_expire p) (itimer_interval
    p) (sig_pending p) (sig_ignored p) (sig_mask p) (stop_sig p) (reported p) (traced p) (ptrace_stopped
    p) (vruntime p) (deadline p) (slice p) (last_run_tick p) (vlag p) (rq_cpu p) (tprio p) (pi_boost p)
    (bkl_held p) (on_cpu p) (cg p) (sched_weight p) (cg_park_next p).
Definition set_itimer_expire (v : Z) (p : proc) : proc :=
  Proc (pid p) (ppid p) (pgid p) (state p) (wait_reason p) (wake_tick p) (wait_q p) v (itimer_interval p)
    (sig_pending p) (sig_ignored p) (sig_mask p) (stop_sig p) (reported p) (traced p) (ptrace_stopped p)
    (vruntime p) (deadline p) (slice p) (last_run_tick p) (vlag p) (rq_cpu p) (tprio p) (pi_boost p)
    (bkl_held p) (on_cpu p) (cg p) (sched_weight p) (cg_park_next p).
Definition set_sig_pending (v : Z) (p : proc) : proc :=
  Proc (pid p) (ppid p) (pgid p) (state p) (wait_reason p) (wake_tick p) (wait_q p) (itimer_expire p)
    (itimer_interval p) v (sig_ignored p) (sig_mask p) (stop_sig p) (reported p) (traced p)
    (ptrace_stopped p) (vruntime p) (deadline p) (slice p) (last_run_tick p) (vlag p) (rq_cpu p) (tprio
    p) (pi_boost p) (bkl_held p) (on_cpu p) (cg p) (sched_weight p) (cg_park_next p).
Definition set_stop_sig (v : Z) (p : proc) : proc :=
  Proc (pid p) (ppid p) (pgid p) (state p) (wait_reason p) (wake_tick p) (wait_q p) (itimer_expire p)
    (itimer_interval p) (sig_pending p) (sig_ignored p) (sig_mask p) v (reported p) (traced p)
    (ptrace_stopped p) (vruntime p) (deadline p) (slice p) (last_run_tick p) (vlag p) (rq_cpu p) (tprio
    p) (pi_boost p) (bkl_held p) (on_cpu p) (cg p) (sched_weight p) (cg_park_next p).
Definition set_reported (v : bool) (p : proc) : proc :=
  Proc (pid p) (ppid p) (pgid p) (state p) (wait_reason p) (wake_tick p) (wait_q p) (itimer_expire p)
    (itimer_interval p) (sig_pending p) (sig_ignored p) (sig_mask p) (stop_sig p) v (traced p)
    (ptrace_stopped p) (vruntime p) (deadline p) (slice p) (last_run_tick p) (vlag p) (rq_cpu p) (tprio
    p) (pi_boost p) (bkl_held p) (on_cpu p) (cg p) (sched_weight p) (cg_park_next p).
Definition set_vruntime (v : Z) (p : proc) : proc :=
  Proc (pid p) (ppid p) (pgid p) (state p) (wait_reason p) (wake_tick p) (wait_q p) (itimer_expire p)
    (itimer_interval p) (sig_pending p) (sig_ignored p) (sig_mask p) (stop_sig p) (reported p) (traced
    p) (ptrace_stopped p) v (deadline p) (slice p) (last_run_tick p) (vlag p) (rq_cpu p) (tprio p)
    (pi_boost p) (bkl_held p) (on_cpu p) (cg p) (sched_weight p) (cg_park_next p).
Definition set_deadline (v : Z) (p : proc) : proc :=
  Proc (pid p) (ppid p) (pgid p) (state p) (wait_reason p) (wake_tick p) (wait_q p) (itimer_expire p)
    (itimer_interval p) (sig_pending p) (sig_ignored p) (sig_mask p) (stop_sig p) (reported p) (traced
    p) (ptrace_stopped p) (vruntime p) v (slice p) (last_run_tick p) (vlag p) (rq_cpu p) (tprio p)
    (pi_boost p) (bkl_held p) (on_cpu p) (cg p) (sched_weight p) (cg_park_next p).
Definition set_last_run_tick (v : Z) (p : proc) : proc :=
  Proc (pid p) (ppid p) (pgid p) (state p) (wait_reason p) (wake_tick p) (wait_q p) (itimer_expire p)
    (itimer_interval p) (sig_pending p) (sig_ignored p) (sig_mask p) (stop_sig p) (reported p) (traced
    p) (ptrace_stopped p) (vruntime p) (deadline p) (slice p) v (vlag p) (rq_cpu p) (tprio p) (pi_boost
    p) (bkl_held p) (on_cpu p) (cg p) (sched_weight p) (cg_park_next p).
Definition set_vlag (v : Z) (p : proc) : proc :=
  Proc (pid p) (ppid p) (pgid p) (state p) (wait_reason p) (wake_tick p) (wait_q p) (itimer_expire p)
    (itimer_interval p) (sig_pending p) (sig_ignored p) (sig_mask p) (stop_sig p) (reported p) (traced
    p) (ptrace_stopped p) (vruntime p) (deadline p) (slice p) (last_run_tick p) v (rq_cpu p) (tprio p)
    (pi_boost p) (bkl_held p) (on_cpu p) (cg p) (sched_weight p) (cg_park_next p).
Definition set_rq_cpu (v : Z) (p : proc) : proc :=
  Proc (pid p) (ppid p) (pgid p) (state p) (wait_reason p) (wake_tick p) (wait_q p) (itimer_expire p)
    (itimer_interval p) (sig_pending p) (sig_ignored p) (sig_mask p) (stop_sig p) (reported p) (traced
    p) (ptrace_stopped p) (vruntime p) (deadline p) (slice p) (last_run_tick p) (vlag p) v (tprio p)
    (pi_boost p) (bkl_held p) (on_cpu p) (cg p) (sched_weight p) (cg_park_next p).
Definition set_tprio (v : Z) (p : proc) : proc :=
  Proc (pid p) (ppid p) (pgid p) (state p) (wait_reason p) (wake_tick p) (wait_q p) (itimer_expire p)
    (itimer_interval p) (sig_pending p) (sig_ignored p) (sig_mask p) (stop_sig p) (reported p) (traced
    p) (ptrace_stopped p) (vruntime p) (deadline p) (slice p) (last_run_tick p) (vlag p) (rq_cpu p) v
    (pi_boost p) (bkl_held p) (on_cpu p) (cg p) (sched_weight p) (cg_park_next p).
Definition set_bkl_held (v : bool) (p : proc) : proc :=
  Proc (pid p) (ppid p) (pgid p) (state p) (wait_reason p) (wake_tick p) (wait_q p) (itimer_expire p)
    (itimer_interval p) (sig_pending p) (sig_ignored p) (sig_mask p) (stop_sig p) (reported p) (traced
    p) (ptrace_stopped p) (vruntime p) (deadline p) (slice p) (last_run_tick p) (vlag p) (rq_cpu p)
    (tprio p) (pi_boost p) v (on_cpu p) (cg p) (sched_weight p) (cg_park_next p).
Definition set_on_cpu (v : Z) (p : proc) : proc :=
  Proc (pid p) (ppid p) (pgid p) (state p) (wait_reason p) (wake_tick p) (wait_q p) (itimer_expire p)
    (itimer_interval p) (sig_pending p) (sig_ignored p) (sig_mask p) (stop_sig p) (reported p) (traced
    p) (ptrace_stopped p) (vruntime p) (deadline p) (slice p) (last_run_tick p) (vlag p) (rq_cpu p)
    (tprio p) (pi_boost p) (bkl_held p) v (cg p) (sched_weight p) (cg_park_next p).
Definition set_cg_park_next (v : Z) (p : proc) : proc :=
  Proc (pid p) (ppid p) (pgid p) (state p) (wait_reason p) (wake_tick p) (wait_q p) (itimer_expire p)
    (itimer_interval p) (sig_pending p) (sig_ignored p) (sig_mask p) (stop_sig p) (reported p) (traced
    p) (ptrace_stopped p) (vruntime p) (deadline p) (slice p) (last_run_tick p) (vlag p) (rq_cpu p)
    (tprio p) (pi_boost p) (bkl_held p) (on_cpu p) (cg p) (sched_weight p) v.

(** The process table [g_procs], by slot. *)
Definition ptab := Z -> proc.

(** ** The treap *)

Inductive tree := Leaf | Node (l : tree) (p : Z) (r : tree).

Record rq := Rq {
  root : tree;
  vtime : Z;
  min_vtime : Z;
  count : Z
}.

Definition key_before (P : ptab) (a b : Z) : bool :=
  if negb (deadline (P a) =? deadline (P b)) then deadline (P a) <? deadline (P b)
  else pid (P a) <? pid (P b).

Fixpoint tr_merge (P : ptab) (l : tree) : tree -> tree :=
  fix go (r : tree) : tree :=
    match l, r with
    | Leaf, _ => r
    | _, Leaf => l
    | Node ll lp lr, Node rl rp rr =>
        if tprio (P rp) <? tprio (P lp) then Node ll lp (tr_merge P lr r)
        else Node (go rl) rp rr
    end.

Fixpoint tr_insert (P : ptab) (t : tree) (p : Z) : tree :=
  match t with
  | Leaf => Node Leaf p Leaf
  | Node l x r =>
      if key_before P p x then
        match tr_insert P l p with
        | Node ll y lr => if tprio (P x) <? tprio (P y) then Node ll y (Node lr x r) else Node (Node ll y lr) x r
        | Leaf => Node Leaf x r
        end
      else
        match tr_insert P r p with
        | Node rl y rr => if tprio (P x) <? tprio (P y) then Node (Node l x rl) y rr else Node l x (Node rl y rr)
        | Leaf => Node l x Leaf
        end
  end.

Fixpoint tr_delete (P : ptab) (t : tree) (p : Z) : tree :=
  match t with
  | Leaf => Leaf
  | Node l x r =>
      if x =? p then tr_merge P l r
      else if key_before P p x then Node (tr_delete P l p) x r
      else Node l x (tr_delete P r p)
  end.

Fixpoint tr_leftmost (t : tree) : option Z :=
  match t with
  | Leaf => None
  | Node Leaf x _ => Some x
  | Node l _ _ => tr_leftmost l
  end.

(** ** Picking *)

(** vlag of a task against a queue's clock. *)
Definition vlag_at (clock vr : Z) : Z := s64 (s64 clock - s64 vr).

(** [*elig], [*fb] and [*fb_vlag]. *)
Definition picked := (option Z * option Z * Z)%type.
Definition both_set (acc : picked) : bool :=
  match acc with (Some _, Some _, _) => true | _ => false end.

Definition pick_node (P : ptab) (clock x : Z) (acc : picked) : picked :=
  let '(elig, fb, fbv) := acc in
  let v := vlag_at clock (vruntime (P x)) in
  if v <=? 0 then (match elig with None => Some x | _ => elig end, fb, fbv)
  else match fb with
       | None => (elig, Some x, v)
       | Some _ => if v <? fbv then (elig, Some x, v) else acc
       end.

Fixpoint tr_pick (P : ptab) (clock : Z) (t : tree) (acc : picked) : picked :=
  match t with
  | Leaf => acc
  | Node l x r =>
      if both_set acc then acc
      else
        let acc1 := tr_pick P clock l acc in
        if both_set acc1 then acc1
        else tr_pick P clock r (pick_node P clock x acc1)
  end.

(** ** One run queue *)

(** The placement floor follows the leftmost task, upwards only. *)
Definition raise_floor (P : ptab) (q : rq) : rq :=
  match tr_leftmost (root q) with
  | Some lm =>
      if 0 <? s64 (u64 (vruntime (P lm) - min_vtime q))
      then Rq (root q) (vtime q) (vruntime (P lm)) (count q) else q
  | None => q
  end.

(** Placement: the remembered vlag against this queue's clock, clamped to the
    floor, and a fresh deadline. *)
Definition place (q : rq) (p : proc) : proc :=
  let vr := u64 (s64 (vtime q) - vlag p) in
  let p1 := if s64 (u64 (vr - min_vtime q)) <? 0
            then set_vlag (vlag_at (vtime q) (min_vtime q)) (set_vruntime (min_vtime q) p)
            else set_vruntime vr p in
  set_deadline (u64 (vruntime p1 + slice p1)) p1.

Definition rq_enqueue (P : ptab) (q : rq) (p : Z) : ptab * rq :=
  let P' := upd P p (place q (P p)) in
  (P', raise_floor P' (Rq (tr_insert P' (root q) p) (vtime q) (min_vtime q) (u32 (count q + 1)))).

Definition dec_count (n : Z) : Z := if n =? 0 then 0 else n - 1.

Definition rq_dequeue (P : ptab) (q : rq) (p : Z) : rq :=
  raise_floor P (Rq (tr_delete P (root q) p) (vtime q) (min_vtime q) (dec_count (count q))).

Definition rq_pick_best (P : ptab) (q : rq) : ptab * rq * option Z :=
  let '(elig, fb, _) := tr_pick P (vtime q) (root q) (None, None, 0) in
  match (match elig with Some _ => elig | None => fb end) with
  | None => (P, q, None)
  | Some x =>
      let P' := upd P x (set_vlag (vlag_at (vtime q) (vruntime (P x))) (P x)) in
      (P', raise_floor P' (Rq (tr_delete P' (root q) x) (vtime q) (min_vtime q) (dec_count (count q))), Some x)
  end.

(** ** Refinement: a treap is a list sorted by key *)

Fixpoint elems (t : tree) : list Z :=
  match t with Leaf => [] | Node l x r => elems l ++ x :: elems r end.

(** Priorities decrease downwards. *)
Fixpoint heap_ord (P : ptab) (t : tree) : Prop :=
  match t with
  | Leaf => True
  | Node l x r =>
      (forall y, y ∈ elems l ++ elems r -> tprio (P y) <= tprio (P x)) /\ heap_ord P l /\ heap_ord P r
  end.

Section treap.
Context (P : ptab).

Definition before (a b : Z) : Prop := key_before P a b = true.
Definition srt (l : list Z) : Prop := StronglySorted before l.

Lemma before_iff a b :
  before a b <-> deadline (P a) < deadline (P b) \/
                 (deadline (P a) = deadline (P b) /\ pid (P a) < pid (P b)).
Proof. unfold before, key_before. bdestr; simpl; split; intros; try lia; done. Qed.

Lemma before_trans a b c : before a b -> before b c -> before a c.
Proof. rewrite !before_iff. lia. Qed.

Lemma not_before a b : key_before P a b = false -> pid (P a) <> pid (P b) -> before b a.
Proof.
  intros H Hp. assert (~ before a b) by (unfold before; congruence). rewrite before_iff in *. lia.
Qed.

(** Insertion into the sorted list, before the first later key. *)
Fixpoint lins (p : Z) (l : list Z) : list Z :=
  match l with
  | [] => [p]
  | y :: l' => if key_before P p y then p :: y :: l' else y :: lins p l'
  end.

Lemma lins_left p x l r : before p x -> lins p (l ++ x :: r) = lins p l ++ x :: r.
Proof.
  intros H. induction l as [|y l IH]; simpl; [by rewrite H|].
  destruct (key_before P p y); [done|]. by rewrite IH.
Qed.

Lemma lins_right p x l r :
  key_before P p x = false -> (forall y, y ∈ l -> before y x) ->
  lins p (l ++ x :: r) = l ++ x :: lins p r.
Proof.
  intros H Hl. induction l as [|y l IH]; simpl; [by rewrite H|].
  destruct (key_before P p y) eqn:E.
  - exfalso. assert (before p x) by (apply (before_trans p y x); [done|apply Hl; left]).
    unfold before in *. congruence.
  - rewrite IH; [done|]. intros z Hz. apply Hl. by right.
Qed.

Lemma lins_perm p l : lins p l ≡ₚ p :: l.
Proof.
  induction l as [|y l IH]; simpl; [done|]. destruct (key_before P p y); [done|].
  rewrite IH. apply Permutation_swap.
Qed.

Lemma srt_mid l x r :
  srt (l ++ x :: r) <-> srt l /\ srt r /\ (forall y, y ∈ l -> before y x) /\
    (forall y, y ∈ r -> before x y) /\ (forall y z, y ∈ l -> z ∈ r -> before y z).
Proof.
  unfold srt. induction l as [|y l IH]; simpl.
  - split.
    + intros H. inv H. rewrite Forall_forall in *. repeat split; try constructor; try done; set_solver.
    + intros (_ & Hr & _ & Hx & _). constructor; [done|]. by apply Forall_forall.
  - split.
    + intros H. inv H. apply IH in H2 as (H1 & H2 & H4 & H5 & H6). rewrite Forall_forall in H3.
      repeat split; [constructor; [done|]|done|..]; try (apply Forall_forall; intros; apply H3; set_solver).
      * intros z [->|Hz]%elem_of_cons; [apply H3; set_solver|auto].
      * done.
      * intros z w [->|Hz]%elem_of_cons Hw; [apply H3; set_solver|auto].
    + intros (H1 & H2 & H3 & H4 & H5). inv H1. rewrite Forall_forall in *. constructor.
      * apply IH. repeat split; auto; intros; [apply H3|apply H5]; set_solver.
      * apply Forall_forall. intros z Hz. rewrite elem_of_app, elem_of_cons in Hz.
        destruct Hz as [?|[->|?]]; [auto|apply H3; left|apply H5; [left|done]].
Qed.

Lemma srt_lins p l : srt l -> (forall y, y ∈ l -> pid (P y) <> pid (P p)) -> srt (lins p l).
Proof.
  unfold srt. induction l as [|y l IH]; simpl; intros Hs Hp; [repeat constructor|].
  inv Hs. rewrite Forall_forall in *. destruct (key_before P p y) eqn:E.
  - constructor; [constructor; [done|by apply Forall_forall]|]. apply Forall_forall.
    intros z [->|Hz]%elem_of_cons; [done|]. apply (before_trans _ y); auto.
  - constructor; [apply IH; auto; set_solver|]. apply Forall_forall. intros z Hz.
    rewrite lins_perm in Hz. apply elem_of_cons in Hz as [->|Hz]; [|auto].
    apply not_before; [done|]. intros Heq. symmetry in Heq. revert Heq. apply Hp. left.
Qed.

Lemma insert_not_leaf t p : tr_insert P t p <> Leaf.
Proof. destruct t; simpl; [done|]. repeat case_match; done. Qed.

Lemma insert_elems t p : srt (elems t) -> elems (tr_insert P t p) = lins p (elems t).
Proof.
  induction t as [|l IHl x r IHr]; simpl; intros H; [done|].
  apply srt_mid in H as (H1 & H2 & H3 & H4 & _). destruct (key_before P p x) eqn:E.
  - specialize (IHl H1). rewrite lins_left by done. rewrite <- IHl.
    destruct (tr_insert P l p) as [|ll y lr] eqn:Ei; [by apply insert_not_leaf in Ei|].
    case_match; simpl; [|done]. by rewrite <- app_assoc.
  - specialize (IHr H2). rewrite lins_right by done. rewrite <- IHr.
    destruct (tr_insert P r p) as [|rl y rr] eqn:Ei; [by apply insert_not_leaf in Ei|].
    case_match; simpl; [|done]. by rewrite <- app_assoc.
Qed.

Lemma merge_elems l : forall r, elems (tr_merge P l r) = elems l ++ elems r.
Proof.
  induction l as [|ll _ lp lr IH]; intros r; [by destruct r|].
  induction r as [|rl IHr rp rr _]; [simpl; by rewrite app_nil_r|].
  simpl. destruct (tprio (P rp) <? tprio (P lp)); simpl.
  - rewrite IH. simpl. by rewrite <- app_assoc.
  - simpl in IHr. rewrite IHr. rewrite <- !app_assoc. done.
Qed.

Lemma filter_none (p : Z) (l : list Z) : p ∉ l -> filter (fun y => y <> p) l = l.
Proof.
  induction l as [|y l IH]; intros H; [done|]. rewrite filter_cons_True by set_solver.
  rewrite IH by set_solver. done.
Qed.

Lemma before_irrefl a : ~ before a a.
Proof. rewrite before_iff. lia. Qed.

Lemma before_asym a b : before a b -> ~ before b a.
Proof. rewrite !before_iff. lia. Qed.

Lemma delete_elems t p : srt (elems t) -> elems (tr_delete P t p) = filter (fun y => y <> p) (elems t).
Proof.
  induction t as [|l IHl x r IHr]; simpl; intros H; [done|].
  apply srt_mid in H as (H1 & H2 & H3 & H4 & _). rewrite filter_app.
  destruct (Z.eqb_spec x p) as [->|Hne].
  - rewrite merge_elems, filter_cons_False by auto.
    rewrite !filter_none; [done|intros Hin; by apply H4, before_irrefl in Hin|intros Hin; by apply H3, before_irrefl in Hin].
  - rewrite filter_cons_True by done. destruct (key_before P p x) eqn:E; simpl.
    + rewrite IHl, (filter_none p (elems r)); [done| |done].
      intros Hin. apply H4 in Hin. by apply before_asym in Hin.
    + rewrite IHr, (filter_none p (elems l)); [done| |done].
      intros Hin. apply H3 in Hin. unfold before in Hin. congruence.
Qed.

Lemma leftmost_elems t : tr_leftmost t = head (elems t).
Proof.
  induction t as [|l IHl x r _]; [done|]. simpl. destruct l as [|ll y lr]; [done|].
  rewrite IHl. simpl. destruct (elems ll); done.
Qed.

Lemma insert_perm t p : elems (tr_insert P t p) ≡ₚ p :: elems t.
Proof.
  induction t as [|l IHl x r IHr]; simpl; [done|]. destruct (key_before P p x).
  - destruct (tr_insert P l p) as [|ll y lr] eqn:Ei; [by apply insert_not_leaf in Ei|].
    transitivity ((elems ll ++ y :: elems lr) ++ x :: elems r).
    + case_match; simpl; by rewrite <- ?app_assoc.
    + simpl in IHl. by rewrite IHl.
  - destruct (tr_insert P r p) as [|rl y rr] eqn:Ei; [by apply insert_not_leaf in Ei|].
    transitivity (elems l ++ x :: (elems rl ++ y :: elems rr)).
    + case_match; simpl; by rewrite <- ?app_assoc.
    + simpl in IHr. rewrite IHr. solve_Permutation.
Qed.

(** A rotation is only made when the new task rose to the top, so what hangs
    below it was there before. *)
Lemma insert_rise t p l y r c :
  tr_insert P t p = Node l y r -> NoDup (p :: elems t) ->
  (forall z, z ∈ elems t -> tprio (P z) <= c) -> c < tprio (P y) ->
  forall z, z ∈ elems l ++ elems r -> tprio (P z) <= c.
Proof.
  intros E Hn Hc Hy z Hz. pose proof (insert_perm t p) as Hp. rewrite E in Hp. simpl in Hp.
  assert (Hin : forall z, z ∈ elems l ++ y :: elems r -> z = p \/ z ∈ elems t)
    by (intros w; by rewrite Hp, elem_of_cons).
  rewrite <- Hp, NoDup_app, NoDup_cons in Hn. destruct Hn as (N1 & N2 & N3 & _).
  assert (y = p) as -> by (destruct (Hin y) as [|Hyt]; [set_solver|done|specialize (Hc y Hyt); lia]).
  destruct (Hin z) as [->|]; [set_solver|set_solver|auto].
Qed.

Lemma insert_heap t p : NoDup (p :: elems t) -> heap_ord P t -> heap_ord P (tr_insert P t p).
Proof.
  induction t as [|l IHl x r IHr]; simpl; intros Hn H; [set_solver|]. destruct H as (Hx & Hl & Hr).
  apply NoDup_cons in Hn as [Hpn Hn]. apply NoDup_app in Hn as (Hn1 & Hn2 & Hn3).
  apply NoDup_cons in Hn3 as [Hxr Hn3]. rewrite not_elem_of_app, not_elem_of_cons in Hpn. destruct Hpn as (Q1 & Q2 & Q3).
  assert (Hxl : forall z, z ∈ elems l -> tprio (P z) <= tprio (P x)) by (intros; apply Hx, elem_of_app; auto).
  assert (Hxr' : forall z, z ∈ elems r -> tprio (P z) <= tprio (P x)) by (intros; apply Hx, elem_of_app; auto).
  destruct (key_before P p x).
  - assert (Nl : NoDup (p :: elems l)) by (by apply NoDup_cons). specialize (IHl Nl Hl).
    pose proof (fun a b c => insert_rise l p a b c (tprio (P x))) as Ht.
    destruct (tr_insert P l p) as [|ll y lr] eqn:Ei; [by apply insert_not_leaf in Ei|].
    destruct IHl as (Hy & Hll & Hlr). destruct (Z.ltb_spec (tprio (P x)) (tprio (P y))) as [Hlt|Hle]; simpl.
    + specialize (Ht _ _ _ eq_refl Nl Hxl Hlt). repeat split; auto.
      * intros z. rewrite elem_of_app. simpl. rewrite elem_of_app, elem_of_cons.
        intros [?|[?|[->|Hz]]]; [apply Hy, elem_of_app; auto|apply Hy, elem_of_app; auto|lia|]. apply Hxr' in Hz. lia.
      * intros z [Hz|Hz]%elem_of_app; [apply Ht, elem_of_app; auto|auto].
    + repeat split; auto. intros z. rewrite !elem_of_app, elem_of_cons.
      intros [[Hz|[->|Hz]]|Hz]; [|lia| |auto]; (transitivity (tprio (P y)); [apply Hy, elem_of_app; auto|lia]).
  - assert (Nr : NoDup (p :: elems r)) by (by apply NoDup_cons). specialize (IHr Nr Hr).
    pose proof (fun a b c => insert_rise r p a b c (tprio (P x))) as Ht.
    destruct (tr_insert P r p) as [|rl y rr] eqn:Ei; [by apply insert_not_leaf in Ei|].
    destruct IHr as (Hy & Hrl & Hrr). destruct (Z.ltb_spec (tprio (P x)) (tprio (P y))) as [Hlt|Hle]; simpl.
    + specialize (Ht _ _ _ eq_refl Nr Hxr' Hlt). repeat split; auto.
      * intros z. rewrite elem_of_app. simpl. rewrite elem_of_app, elem_of_cons.
        intros [[Hz|[->|?]]|?]; [|lia|apply Hy, elem_of_app; auto|apply Hy, elem_of_app; auto]. apply Hxl in Hz. lia.
      * intros z [Hz|Hz]%elem_of_app; [auto|apply Ht, elem_of_app; auto].
    + repeat split; auto. intros z. rewrite !elem_of_app, elem_of_cons.
      intros [Hz|[Hz|[->|Hz]]]; [auto| |lia|]; (transitivity (tprio (P y)); [apply Hy, elem_of_app; auto|lia]).
Qed.

Lemma merge_heap l : forall r, heap_ord P l -> heap_ord P r -> heap_ord P (tr_merge P l r).
Proof.
  induction l as [|ll _ lp lr IH]; intros r; [by destruct r|].
  induction r as [|rl IHr rp rr _]; [done|]. intros Hl Hr. pose proof Hl as (L1 & L2 & L3). pose proof Hr as (R1 & R2 & R3).
  pose proof (merge_elems lr (Node rl rp rr)) as E1. pose proof (merge_elems (Node ll lp lr) rl) as E2.
  simpl in *. destruct (Z.ltb_spec (tprio (P rp)) (tprio (P lp))); simpl.
  - rewrite E1. repeat split; [|done|apply IH; simpl; auto]. intros y. rewrite !elem_of_app, elem_of_cons.
    intros [?|[?|[?|[->|?]]]]; [apply L1, elem_of_app; auto|apply L1, elem_of_app; auto| |lia|];
      (transitivity (tprio (P rp)); [apply R1, elem_of_app; auto|lia]).
  - rewrite E2. repeat split; [|by apply IHr|done]. intros y. rewrite !elem_of_app, elem_of_cons.
    intros [[[?|[->|?]]|?]|?]; [|lia| |apply R1, elem_of_app; auto|apply R1, elem_of_app; auto];
      (transitivity (tprio (P lp)); [apply L1, elem_of_app; auto|lia]).
Qed.

Lemma delete_sub t p y : y ∈ elems (tr_delete P t p) -> y ∈ elems t.
Proof.
  induction t as [|l IHl x r IHr]; simpl; [done|]. destruct (x =? p).
  - rewrite merge_elems. set_solver.
  - destruct (key_before P p x); simpl; set_solver.
Qed.

Lemma delete_heap t p : heap_ord P t -> heap_ord P (tr_delete P t p).
Proof.
  induction t as [|l IHl x r IHr]; simpl; intros H; [done|]. destruct H as (H1 & H2 & H3).
  destruct (x =? p); [by apply merge_heap|]. destruct (key_before P p x); simpl; (split; [|auto]);
    intros y [Hy|Hy]%elem_of_app; apply H1; try apply delete_sub in Hy; set_solver.
Qed.
End treap.

(** A treap reads only deadlines, pids and priorities of its members. *)
Definition same_key (P P' : ptab) (x : Z) : Prop :=
  deadline (P' x) = deadline (P x) /\ pid (P' x) = pid (P x) /\ tprio (P' x) = tprio (P x).

Lemma srt_ext P P' l : (forall x, x ∈ l -> same_key P P' x) -> srt P l -> srt P' l.
Proof.
  unfold srt. intros H Hs. induction Hs as [|x l Hs IH Hf]; [constructor|].
  constructor; [apply IH; set_solver|]. rewrite Forall_forall in *. intros y Hy. specialize (Hf y Hy).
  rewrite before_iff in *. destruct (H x) as (-> & -> & _); [left|]. destruct (H y) as (-> & -> & _); [by right|done].
Qed.

Lemma heap_ext P P' t : (forall x, x ∈ elems t -> same_key P P' x) -> heap_ord P t -> heap_ord P' t.
Proof.
  induction t as [|l IHl x r IHr]; simpl; intros H Ht; [done|]. destruct Ht as (Hx & Hl & Hr).
  split; [|split; [apply IHl|apply IHr]]; auto; try (intros; apply H; set_solver).
  intros y Hy. destruct (H x) as (_ & _ & ->); [set_solver|]. destruct (H y) as (_ & _ & ->); [set_solver|auto].
Qed.

Lemma srt_nodup P l : srt P l -> NoDup l.
Proof.
  unfold srt. induction 1 as [|x l Hs IH Hf]; constructor; auto. intros Hin.
  rewrite Forall_forall in Hf. by apply Hf, before_irrefl in Hin.
Qed.

(** ** What picking computes *)

Section pick.
Context (P : ptab) (clock : Z).

Definition lag (x : Z) : Z := vlag_at clock (vruntime (P x)).
Definition eligible (x : Z) : Prop := lag x <= 0.

Definition pick_step (acc : picked) (x : Z) : picked :=
  if both_set acc then acc else pick_node P clock x acc.

Lemma both_set_fold l acc : both_set acc = true -> foldl pick_step acc l = acc.
Proof.
  intros H. induction l as [|x l IH]; [done|]. simpl. unfold pick_step at 2. by rewrite H.
Qed.

(** The walk with its early exits is a left fold over the sorted list. *)
Lemma tr_pick_fold t : forall acc, tr_pick P clock t acc = foldl pick_step acc (elems t).
Proof.
  induction t as [|l IHl x r IHr]; intros acc; [done|]. simpl. rewrite foldl_app. simpl.
  destruct (both_set acc) eqn:E.
  - by rewrite (both_set_fold (elems l)), (both_set_fold (elems r)); unfold pick_step; rewrite ?E.
  - rewrite IHl. set (acc1 := foldl pick_step acc (elems l)). unfold pick_step at 2.
    destruct (both_set acc1) eqn:E1; [by rewrite both_set_fold|]. apply IHr.
Qed.

(** What is known after the tasks [l] have been visited. *)
Definition pick_inv (l : list Z) (acc : picked) : Prop :=
  let '(elig, fb, fbv) := acc in
  match elig with
  | Some x => exists l1 l2, l = l1 ++ x :: l2 /\ eligible x /\ forall y, y ∈ l1 -> ~ eligible y
  | None => (forall y, y ∈ l -> ~ eligible y) /\
      match fb with
      | None => l = []
      | Some y => y ∈ l /\ fbv = lag y /\ forall z, z ∈ l -> lag y <= lag z
      end
  end.

Lemma pick_fold_inv l : pick_inv l (foldl pick_step (None, None, 0) l).
Proof.
  induction l as [|x l IH] using rev_ind; [simpl; set_solver|]. rewrite foldl_snoc.
  destruct (foldl pick_step _ l) as [[elig fb] fbv]. unfold pick_step.
  assert (K : forall e f v, elig = Some e -> pick_inv (l ++ [x]) (Some e, f, v)).
  { intros e f v ->. destruct IH as (l1 & l2 & -> & He & Hl1). exists l1, (l2 ++ [x]). by rewrite <- app_assoc. }
  destruct elig as [e|]; [|destruct IH as [Hne Hfb]].
  - destruct fb; cbn [both_set pick_node]; [by apply K|]. case_match; by apply K.
  - cbn [both_set pick_node]. fold (lag x). destruct (Z.leb_spec (lag x) 0); [by exists l, []|].
    assert (Hx : ~ eligible x) by (unfold eligible; lia). destruct fb as [y|]; simpl.
    + destruct Hfb as (Hy & -> & Hmin). destruct (Z.ltb_spec (lag x) (lag y));
        (split; [set_solver|]); (split; [set_solver|]); (split; [done|]);
        intros z; rewrite elem_of_app, list_elem_of_singleton; intros [Hz| ->]; try lia; specialize (Hmin z Hz); lia.
    + subst l. split; [set_solver|]. split; [set_solver|]. split; [done|].
      intros z ->%list_elem_of_singleton. lia.
Qed.

(** The task EEVDF prescribes for the queue contents [l], sorted by key. *)
Definition chosen (l : list Z) (x : Z) : Prop :=
  x ∈ l /\
  ((eligible x /\ forall y, y ∈ l -> eligible y -> y = x \/ before P x y) \/
   ((forall y, y ∈ l -> ~ eligible y) /\ forall y, y ∈ l -> lag x <= lag y)).

Lemma pick_chosen t elig fb fbv :
  srt P (elems t) -> tr_pick P clock t (None, None, 0) = (elig, fb, fbv) ->
  match (match elig with Some _ => elig | None => fb end) with
  | Some x => chosen (elems t) x
  | None => elems t = []
  end.
Proof.
  intros Hs E. rewrite tr_pick_fold in E. pose proof (pick_fold_inv (elems t)) as H. rewrite E in H.
  destruct elig as [x|]; simpl in H.
  - destruct H as (l1 & l2 & Hl & Hx & Hl1). rewrite Hl in *. apply srt_mid in Hs as (_ & _ & _ & Hr & _).
    split; [set_solver|]. left. split; [done|]. intros y Hy He.
    rewrite elem_of_app, elem_of_cons in Hy. destruct Hy as [Hy|[->|Hy]]; [by apply Hl1 in Hy|by left|right; auto].
  - destruct H as [Hne Hfb]. destruct fb as [y|]; [|done]. destruct Hfb as (Hy & _ & Hmin).
    split; [done|]. right. auto.
Qed.
End pick.

(** ** One run queue *)

Record rq_wf (P : ptab) (q : rq) : Prop := {
  wf_srt : srt P (elems (root q));
  wf_heap : heap_ord P (root q);
  wf_count : count q = alen (elems (root q))
}.

(** The placement floor only moves forward (in wrap-around order). *)
Definition floor_le (a b : Z) : Prop := 0 <= s64 (b - a).

Lemma raise_floor_same P q :
  root (raise_floor P q) = root q /\ vtime (raise_floor P q) = vtime q /\ count (raise_floor P q) = count q.
Proof. unfold raise_floor. repeat case_match; done. Qed.

Lemma raise_floor_le P q : floor_le (min_vtime q) (min_vtime (raise_floor P q)).
Proof.
  unfold raise_floor, floor_le. destruct (tr_leftmost (root q)) as [lm|]; [|by rewrite Z.sub_diag].
  rewrite s64_u64. case_match; simpl; [bdestr; try done; lia|by rewrite Z.sub_diag].
Qed.

Lemma raise_floor_wf P q : rq_wf P q -> rq_wf P (raise_floor P q).
Proof.
  intros [H1 H2 H3]. destruct (raise_floor_same P q) as (E1 & E2 & E3).
  constructor; by rewrite ?E1, ?E3.
Qed.


Lemma rq_wf_ext P P' q :
  (forall x, x ∈ elems (root q) -> same_key P P' x) -> rq_wf P q -> rq_wf P' q.
Proof.
  intros H [H1 H2 H3]. constructor; [by apply (srt_ext P)|by apply (heap_ext P)|done].
Qed.

Lemma place_pid q p : pid (place q p) = pid p /\ tprio (place q p) = tprio p /\ slice (place q p) = slice p /\
  state (place q p) = state p /\ rq_cpu (place q p) = rq_cpu p /\ on_cpu (place q p) = on_cpu p.
Proof. unfold place. case_match; done. Qed.

Lemma place_placed q p :
  - 2 ^ 63 <= vlag p < 2 ^ 63 ->
  let p' := place q p in
  vlag p' = vlag_at (vtime q) (vruntime p') /\ floor_le (min_vtime q) (vruntime p') /\
  deadline p' = u64 (vruntime p' + slice p) /\
  (floor_le (min_vtime q) (u64 (vtime q - vlag p)) -> vlag p' = vlag p).
Proof.
  intros Hv p'. unfold p', place, vlag_at, floor_le.
  assert (E : u64 (s64 (vtime q) - vlag p) = u64 (vtime q - vlag p)).
  { unfold u64. by rewrite Zminus_mod, s64_mod, <- Zminus_mod. }
  rewrite E, s64_u64. destruct (Z.ltb_spec (s64 (u64 (vtime q - vlag p) - min_vtime q)) 0); simpl.
  - rewrite Z.sub_diag. repeat split; try done. lia.
  - repeat split; try done. rewrite s64_sub.
    transitivity (s64 (vlag p)); [symmetry; by apply s64_small|].
    apply s64_cong. unfold u64. rewrite Zminus_mod_idemp_r. f_equal. lia.
Qed.

Lemma rq_enqueue_ok P q p P' q' :
  rq_wf P q -> p ∉ elems (root q) -> (forall y, y ∈ elems (root q) -> pid (P y) <> pid (P p)) ->
  alen (elems (root q)) < 2 ^ 32 - 1 -> rq_enqueue P q p = (P', q') ->
  rq_wf P' q' /\ elems (root q') ≡ₚ p :: elems (root q) /\ P' = upd P p (place q (P p)) /\
  vtime q' = vtime q /\ floor_le (min_vtime q) (min_vtime q').
Proof.
  intros W Hp Hpid Hlen E. injection E as <- <-. set (P' := upd P p (place q (P p))).
  assert (Hk : forall x, x ∈ elems (root q) -> same_key P P' x).
  { intros x Hx. unfold same_key, P'. rewrite upd_ne by set_solver. done. }
  pose proof (rq_wf_ext _ _ _ Hk W) as [W1 W2 W3].
  set (q1 := Rq _ _ _ _). destruct (raise_floor_same P' q1) as (E1 & E2 & E3). rewrite E1, E2. unfold q1. simpl.
  assert (Hpid' : forall y, y ∈ elems (root q) -> pid (P' y) <> pid (P' p)).
  { intros y Hy. unfold P'. rewrite upd_eq, upd_ne by set_solver.
    destruct (place_pid q (P p)) as (-> & _). auto. }
  split; [|split; [apply insert_perm|split; [done|split; [done|apply (raise_floor_le P' q1)]]]].
  apply raise_floor_wf. constructor; simpl.
  - rewrite insert_elems by done. by apply srt_lins.
  - apply insert_heap; [|done]. apply NoDup_cons. split; [done|]. by apply (srt_nodup P').
  - rewrite W3. unfold alen in *. rewrite insert_perm. simpl length. rewrite u32_small; lia.
Qed.

Lemma filter_length_one (p : Z) (l : list Z) :
  NoDup l -> p ∈ l -> alen (filter (fun y => y <> p) l) = alen l - 1.
Proof.
  unfold alen. induction l as [|y l IH]; intros Hn Hp; [by apply not_elem_of_nil in Hp|].
  apply NoDup_cons in Hn as [Hy Hn]. destruct (decide (y = p)) as [->|Hne].
  - rewrite filter_cons_False by auto. rewrite filter_none by done. simpl. lia.
  - rewrite filter_cons_True by done. simpl length. apply elem_of_cons in Hp as [|Hp]; [done|].
    specialize (IH Hn Hp). destruct l; [by apply not_elem_of_nil in Hp|]. simpl length in *. lia.
Qed.

(** Taking a queued task off the treap. *)
Lemma rq_take_ok P q p :
  rq_wf P q -> p ∈ elems (root q) ->
  let q' := raise_floor P (Rq (tr_delete P (root q) p) (vtime q) (min_vtime q) (dec_count (count q))) in
  rq_wf P q' /\ elems (root q') = filter (fun y => y <> p) (elems (root q)) /\
  vtime q' = vtime q /\ floor_le (min_vtime q) (min_vtime q').
Proof.
  intros [W1 W2 W3] Hp. set (q1 := Rq _ _ _ _). destruct (raise_floor_same P q1) as (E1 & E2 & E3).
  pose proof (delete_elems P (root q) p W1) as Ed. cbn zeta. rewrite E1, E2.
  split; [|split; [exact Ed|split; [done|apply (raise_floor_le P q1)]]].
  apply raise_floor_wf. constructor; simpl.
  - rewrite Ed. unfold srt in *. clear -W1. induction W1 as [|x l Hs IH Hf]; [constructor|].
    rewrite filter_cons. case_decide; [|done]. constructor; [done|]. rewrite Forall_forall in *.
    intros y Hy. apply list_elem_of_filter in Hy as [_ Hy]. auto.
  - by apply delete_heap.
  - rewrite Ed, filter_length_one by (done || by apply (srt_nodup P)). rewrite W3. unfold dec_count.
    assert (0 < alen (elems (root q))) by (destruct (elems (root q)); [by apply not_elem_of_nil in Hp|unfold alen; simpl; lia]).
    bdestr; lia.
Qed.

Lemma set_vlag_key P x v y : same_key P (upd P x (set_vlag v (P x))) y.
Proof. unfold same_key, upd. destruct (Z.eqb_spec y x) as [->|]; done. Qed.

Lemma rq_pick_ok P q P' q' r :
  rq_wf P q -> rq_pick_best P q = (P', q', r) ->
  match r with
  | None => elems (root q) = [] /\ P' = P /\ q' = q
  | Some x =>
      chosen P (vtime q) (elems (root q)) x /\
      P' = upd P x (set_vlag (lag P (vtime q) x) (P x)) /\ rq_wf P' q' /\
      elems (root q') = filter (fun y => y <> x) (elems (root q)) /\
      vtime q' = vtime q /\ floor_le (min_vtime q) (min_vtime q')
  end.
Proof.
  intros W E. unfold rq_pick_best in E.
  destruct (tr_pick P (vtime q) (root q) (None, None, 0)) as [[elig fb] fbv] eqn:T.
  pose proof (pick_chosen _ _ _ _ _ _ (wf_srt _ _ W) T) as C.
  destruct (match elig with Some _ => elig | None => fb end) as [x|]; injection E as <- <- <-; [|done].
  split; [done|]. split; [done|].
  apply (rq_take_ok _ q x); [|apply C]. apply (rq_wf_ext P); [|done]. intros y _. apply set_vlag_key.
Qed.

(** ** Affinity and virtual time *)

Definition proc_cpu_mask_all : Z := fold_left (fun m i => Z.lor m (Z.shiftl 1 i)) (seqZ 0 NR_RQ) 0.

(** [g_cpu_allowed] by slot; 0 means every core. *)
Definition proc_cpu_mask_of (allowed : Z -> Z) (idx : Z) : Z :=
  if (idx <? 0) || (MAX_PROCS <=? idx) || (allowed idx =? 0) then proc_cpu_mask_all else allowed idx.

Definition proc_set_cpu_mask (allowed : Z -> Z) (idx mask : Z) : Z -> Z :=
  if (idx <? 0) || (MAX_PROCS <=? idx) then allowed
  else upd allowed idx (Z.land mask proc_cpu_mask_all).

Definition proc_pick_cpu (allowed : Z -> Z) (idx : Z) : Z :=
  let m := proc_cpu_mask_of allowed idx in
  match List.find (fun i => negb (Z.land m (Z.shiftl 1 i) =? 0)) (seqZ 0 NR_RQ) with
  | Some i => i
  | None => 0
  end.

Definition proc_eff_weight (p : proc) : Z :=
  if sched_weight p <? pi_boost p then pi_boost p else sched_weight p.

Definition virt_delta (used w : Z) : Z :=
  let w := if w =? 0 then 1 else w in u64 (Z.shiftl used (VIRT_SHIFT + 10)) / w.

(** ** Properties *)

(** C30: EEVDF choice.  On a well-formed queue [rq_pick_best] returns nothing
    exactly when the queue is empty; otherwise it returns the eligible task
    (vlag at most 0 against the queue's clock) with the earliest (deadline,
    pid), and, when no task is eligible, the one closest to eligibility.  That
    task alone leaves the queue, which stays well-formed, and the placement
    floor does not move back. *)
Theorem rq_pick_best_eevdf (P : ptab) (q : rq) (W : rq_wf P q) :
  let '(P', q', r) := rq_pick_best P q in
  (r = None <-> elems (root q) = []) /\
  forall x, r = Some x ->
    chosen P (vtime q) (elems (root q)) x /\ elems (root q) ≡ₚ x :: elems (root q') /\
    rq_wf P' q' /\ vlag (P' x) = lag P (vtime q) x /\ floor_le (min_vtime q) (min_vtime q').
Proof.
  destruct (rq_pick_best P q) as [[P' q'] r] eqn:E. pose proof (rq_pick_ok _ _ _ _ _ W E) as H.
  destruct r as [x|].
  - destruct H as (C & -> & W' & El & _ & F). split.
    + split; [done|]. intros Hn. destruct C as [Hx _]. rewrite Hn in Hx. by apply not_elem_of_nil in Hx.
    + intros y [= <-]. split; [done|]. split; [|split; [done|split; [by rewrite upd_eq|done]]].
      rewrite El. destruct C as [Hx _]. pose proof (srt_nodup _ _ (wf_srt _ _ W)) as Hn. clear -Hx Hn.
      apply list_elem_of_split in Hx as (l1 & l2 & Hl). rewrite Hl in *.
      rewrite filter_app, filter_cons_False by auto.
      apply NoDup_app in Hn as (_ & N2 & N3). apply NoDup_cons in N3 as [N3 _].
      rewrite !filter_none; [|done|intros H; apply (N2 _ H); left]. by rewrite Permutation_middle.
  - destruct H as (-> & _). split; [done|]. done.
Qed.

(** Enqueueing.  A task that joins a queue it is not on is placed at the
    queue's clock minus its remembered lag, but never behind the placement
    floor; its lag and deadline agree with that position, the treap stays
    sorted, heap ordered and counted, and no other task changes. *)
Theorem rq_enqueue_places (P : ptab) (q : rq) (p : Z) (W : rq_wf P q)
  (Hp : p ∉ elems (root q)) (Hpid : forall y, y ∈ elems (root q) -> pid (P y) <> pid (P p))
  (Hlen : alen (elems (root q)) < 2 ^ 32 - 1) (Hv : - 2 ^ 63 <= vlag (P p) < 2 ^ 63) :
  let '(P', q') := rq_enqueue P q p in
  rq_wf P' q' /\ elems (root q') ≡ₚ p :: elems (root q) /\ floor_le (min_vtime q) (min_vtime q') /\
  (forall x, x <> p -> P' x = P x) /\
  vlag (P' p) = lag P' (vtime q) p /\ floor_le (min_vtime q) (vruntime (P' p)) /\
  deadline (P' p) = u64 (vruntime (P' p) + slice (P p)) /\
  (floor_le (min_vtime q) (u64 (vtime q - vlag (P p))) -> vlag (P' p) = vlag (P p)).
Proof.
  destruct (rq_enqueue P q p) as [P' q'] eqn:E.
  destruct (rq_enqueue_ok _ _ _ _ _ W Hp Hpid Hlen E) as (W' & El & -> & _ & F).
  split; [done|]. split; [done|]. split; [done|]. split; [intros; by apply upd_ne|].
  unfold lag. rewrite upd_eq. by apply place_placed.
Qed.

(** C31: The treap is a sorted list.  On any treap of a well-formed queue,
    insertion is insertion before the first later key, deletion removes exactly
    the given task, both keep the priorities heap ordered, and the leftmost
    node is the first of the list. *)
Theorem treap_refines_list (P : ptab) (q : rq) (p : Z) (W : rq_wf P q)
  (Hp : p ∉ elems (root q)) :
  elems (tr_insert P (root q) p) = lins P p (elems (root q)) /\
  heap_ord P (tr_insert P (root q) p) /\
  (forall x, elems (tr_delete P (root q) x) = filter (fun y => y <> x) (elems (root q))) /\
  (forall x, heap_ord P (tr_delete P (root q) x)) /\
  tr_leftmost (root q) = head (elems (root q)).
Proof.
  destruct W as [W1 W2 _]. split; [by apply insert_elems|].
  split; [apply insert_heap; [apply NoDup_cons; split; [done|by apply (srt_nodup P)]|done]|].
  split; [intros; by apply delete_elems|]. split; [intros; by apply delete_heap|]. apply leftmost_elems.
Qed.

(** Virtual time never stands still: at any weight a cgroup can give a task
    (up to 2^20, the largest being 262144) every tick of CPU time costs
    at least one unit, the cost does not exceed that of weight 1, and it is
    antitone in the weight. *)
Theorem virt_delta_bounds (used w w' : Z) (Hu : 1 <= used < 2 ^ 44) (Hw : 1 <= w <= w') (Hw' : w' <= 2 ^ 20) :
  used <= virt_delta used w' <= virt_delta used w /\ virt_delta used w <= used * 2 ^ 20.
Proof.
  unfold virt_delta. change (VIRT_SHIFT + 10) with 20. rewrite Z.shiftl_mul_pow2 by lia.
  rewrite u64_small by lia. destruct (Z.eqb_spec w 0); [lia|]. destruct (Z.eqb_spec w' 0); [lia|].
  repeat split.
  - apply Z.div_le_lower_bound; nia.
  - apply Z.div_le_compat_l; lia.
  - apply Z.div_le_upper_bound; nia.
Qed.

(** Affinity.  The core picked for a task is one its mask allows, and the
    first such core; a mask set through [proc_set_cpu_mask] that allows no
    existing core means every core. *)
Theorem proc_pick_cpu_allowed (allowed : Z -> Z) (idx mask : Z) (Hi : 0 <= idx < MAX_PROCS) :
  let a := proc_set_cpu_mask allowed idx mask in
  let c := proc_pick_cpu a idx in
  0 <= c < NR_RQ /\ Z.testbit (proc_cpu_mask_of a idx) c = true /\
  (forall i, 0 <= i < c -> Z.testbit (proc_cpu_mask_of a idx) i = false) /\
  (Z.land mask 15 <> 0 -> proc_cpu_mask_of a idx = Z.land mask 15).
Proof.
  assert (E : proc_cpu_mask_of (proc_set_cpu_mask allowed idx mask) idx =
    let m := Z.land mask 15 in if m =? 0 then 15 else m).
  { unfold proc_cpu_mask_of, proc_set_cpu_mask. change proc_cpu_mask_all with 15. unfold MAX_PROCS in *.
    destruct (Z.ltb_spec idx 0); [lia|]. destruct (Z.leb_spec 64 idx); [lia|]. simpl. by rewrite upd_eq. }
  unfold proc_pick_cpu. rewrite E. cbn zeta.
  pose proof (Z.land_ones mask 4 ltac:(lia)) as L. change (Z.ones 4) with 15 in L.
  pose proof (Z.mod_pos_bound mask (2 ^ 4) ltac:(lia)) as B. rewrite <- L in B.
  set (m := if Z.land mask 15 =? 0 then 15 else Z.land mask 15).
  assert (Hm : 0 < m < 2 ^ 4) by (unfold m; bdestr; lia).
  assert (K : Z.land mask 15 <> 0 -> m = Z.land mask 15) by (unfold m; bdestr; done).
  clearbody m. change (seqZ 0 NR_RQ) with [0; 1; 2; 3]. cbn [List.find].
  rewrite !land_bit by lia. rewrite !negb_involutive. unfold NR_RQ.
  assert (Hi' : forall k i, 0 <= i < k -> i = k - 1 \/ 0 <= i < k - 1) by lia.
  destruct (Z.testbit m 0) eqn:E0; [repeat split; auto; lia|].
  assert (H0 : forall i, 0 <= i < 1 -> Z.testbit m i = false) by (intros i Hi0; by replace i with 0 by lia).
  destruct (Z.testbit m 1) eqn:E1; [repeat split; auto; lia|].
  assert (H1 : forall i, 0 <= i < 2 -> Z.testbit m i = false) by (intros i [->|]%Hi'; auto).
  destruct (Z.testbit m 2) eqn:E2; [repeat split; auto; lia|].
  assert (H2 : forall i, 0 <= i < 3 -> Z.testbit m i = false) by (intros i [->|]%Hi'; auto).
  destruct (Z.testbit m 3) eqn:E3; [repeat split; auto; lia|].
  exfalso. assert (m = 0); [|lia]. apply Z.bits_inj_0. intros i.
  destruct (Z.lt_ge_cases i 0); [by apply Z.testbit_neg_r|].
  destruct (Z.lt_ge_cases i 4); [|apply (testbit_high m 4); lia].
  assert (i = 3 \/ 0 <= i < 3) as [->|] by lia; auto.
Qed.

(** ** Witnesses *)

(** Tasks with pid [i + 1], vruntime [vr] and deadline [vr + 5120]. *)
Definition demo_task (i vr : Z) : proc :=
  {| pid := i + 1; ppid := 0; pgid := 0; state := PROC_READY; wait_reason := WAIT_NONE; wake_tick := 0;
     wait_q := 0; itimer_expire := 0; itimer_interval := 0; sig_pending := 0; sig_ignored := 0; sig_mask := 0;
     stop_sig := 0; reported := false; traced := false; ptrace_stopped := false; vruntime := vr;
     deadline := vr + 5120; slice := 5120; last_run_tick := 0; vlag := 0; rq_cpu := 0; tprio := 7 * i + 1;
     pi_boost := 0; bkl_held := false; on_cpu := -1; cg := -1; sched_weight := 1024; cg_park_next := -1 |}.

Definition demo_tab : ptab := fun i => demo_task i (1000 * (i + 1)).

(** Tasks 0 and 1 queued at a clock of 1500: task 0 (vruntime 1000) is ahead in
    deadline but not eligible, task 1 (vruntime 2000) is. *)
Definition demo_rq : rq := Rq (Node (Node Leaf 0 Leaf) 1 Leaf) 1500 900 2.

Lemma demo_rq_wf : rq_wf demo_tab demo_rq.
Proof.
  constructor; [repeat constructor| |reflexivity].
  assert (N : forall y : Z, y ∈ @nil Z -> False) by (intros y Hy; by apply not_elem_of_nil in Hy).
  split; [|split; [split; [|done]|done]]; intros y Hy; simpl in Hy.
  - apply list_elem_of_singleton in Hy as ->. vm_compute. congruence.
  - by destruct (N y).
Qed.

Lemma rq_pick_best_eevdf_witness :
  snd (rq_pick_best demo_tab demo_rq) = Some 1 /\ chosen demo_tab 1500 [0; 1] 1.
Proof.
  pose proof (rq_pick_best_eevdf demo_tab demo_rq demo_rq_wf) as H.
  assert (E : snd (rq_pick_best demo_tab demo_rq) = Some 1) by (vm_compute; reflexivity).
  destruct (rq_pick_best demo_tab demo_rq) as [[P' q'] r]. simpl in E. subst r. split; [reflexivity|].
  apply (proj2 H 1 eq_refl).
Defined.

Lemma rq_enqueue_places_witness :
  let '(P', q') := rq_enqueue demo_tab demo_rq 2 in
  rq_wf P' q' /\ vruntime (P' 2) = 1500 /\ floor_le 900 (vruntime (P' 2)).
Proof.
  assert (H1 : 2 ∉ elems (root demo_rq)) by (simpl; rewrite !elem_of_cons, elem_of_nil; lia).
  assert (H2 : forall y, y ∈ elems (root demo_rq) -> pid (demo_tab y) <> pid (demo_tab 2))
    by (intros y; simpl; rewrite !elem_of_cons, elem_of_nil; lia).
  pose proof (rq_enqueue_places demo_tab demo_rq 2 demo_rq_wf H1 H2 ltac:(vm_compute; reflexivity)
    ltac:(vm_compute; split; congruence)) as H.
  assert (E : vruntime (fst (rq_enqueue demo_tab demo_rq 2) 2) = 1500) by (vm_compute; reflexivity).
  destruct (rq_enqueue demo_tab demo_rq 2) as [P' q']. split; [apply H|]. split; [exact E|apply H].
Defined.

Lemma treap_refines_list_witness :
  elems (tr_insert demo_tab (root demo_rq) 2) = [0; 1; 2] /\ tr_leftmost (root demo_rq) = Some 0.
Proof.
  assert (H1 : 2 ∉ elems (root demo_rq)) by (simpl; rewrite !elem_of_cons, elem_of_nil; lia).
  destruct (treap_refines_list demo_tab demo_rq 2 demo_rq_wf H1) as (E & _ & _ & _ & L).
  split; [rewrite E; reflexivity|rewrite L; reflexivity].
Defined.

Lemma virt_delta_bounds_witness : 3 <= virt_delta 3 262144.
Proof. apply (virt_delta_bounds 3 1024 262144); lia. Defined.

Lemma proc_pick_cpu_allowed_witness : Z.testbit (proc_cpu_mask_of (proc_set_cpu_mask (fun _ => 0) 5 12) 5)
  (proc_pick_cpu (proc_set_cpu_mask (fun _ => 0) 5 12) 5) = true.
Proof. apply (proc_pick_cpu_allowed (fun _ => 0) 5 12). unfold MAX_PROCS. lia. Defined.
