(* ===== verification/SchedOps.v ===== *)
(** * kernel/proc.c and kernel/cgroup/cgroup_cpu.c: the scheduler

    The operations that move a task between the run queues, a CPU and the
    blocked states, and the cpu.max throttling they go through, as functions on
    the whole scheduler state.  [schedule_locked] is modelled up to the
    [switch_context] it ends in; what it decided is its [outcome].  The stack,
    page-table, TLS and FPU switches, the console output and the locks are not
    part of the state: every operation here runs under [g_proc_lock]. *)
From S2P Require Import Prelude Sched.
#[local] Open Scope Z_scope.

Definition MAX_CGS := 512.
Definition CG_ROOT := 0.
Definition SIGKILL := 9.
Definition SIGALRM := 14.
Definition SIGCHLD := 17.
Definition SIGCONT := 18.
Definition SIGSTOP := 19.
Definition SIGTSTP := 20.
Definition SIGTTIN := 21.
Definition SIGTTOU := 22.
Definition NSIG := 64.
Definition SIGMASK (n : Z) : Z := Z.shiftl 1 (n - 1).

(** The cpu-controller part of a cgroup. *)
Record cgroup := Cgroup {
  cg_live : bool;
  cg_parent : Z;
  quota_ticks : Z;
  period_ticks : Z;
  period_start : Z;
  used_period : Z;
  usage_total : Z;
  throttled : bool;
  throttle_start : Z;
  throttled_total : Z;
  nr_throttled : Z;
  park_head : Z
}.

Record sched := Sched {
  procs : ptab;
  rqs : Z -> rq;
  cgs : Z -> cgroup;
  allowed : Z -> Z;
  current : Z -> option Z;
  ticks : Z
}.

Definition with_procs (s : sched) P := Sched P (rqs s) (cgs s) (allowed s) (current s) (ticks s).
Definition with_rqs (s : sched) Q := Sched (procs s) Q (cgs s) (allowed s) (current s) (ticks s).
Definition with_cgs (s : sched) G := Sched (procs s) (rqs s) G (allowed s) (current s) (ticks s).
Definition with_current (s : sched) C := Sched (procs s) (rqs s) (cgs s) (allowed s) C (ticks s).
Definition with_ticks (s : sched) t := Sched (procs s) (rqs s) (cgs s) (allowed s) (current s) t.
Definition with_proc (s : sched) (p : Z) (pr : proc) : sched := with_procs s (upd (procs s) p pr).
Definition with_rq (s : sched) (i : Z) (q : rq) : sched := with_rqs s (upd (rqs s) i q).
Definition with_cg (s : sched) (i : Z) (g : cgroup) : sched := with_cgs s (upd (cgs s) i g).

(** ** cpu.max accounting *)

(** The loop of [period_rollover]; [n] bounds its iterations. *)
Fixpoint rollover_loop (n : nat) (g : cgroup) (now : Z) : cgroup :=
  match n with
  | O => g
  | S n' =>
      let e := u64 (period_start g + period_ticks g) in
      if now <? e then g
      else
        let tt := if throttled g then u64 (throttled_total g + (if throttle_start g <? e then e - throttle_start g else 0))
                  else throttled_total g in
        rollover_loop n' (Cgroup (cg_live g) (cg_parent g) (quota_ticks g) (period_ticks g) e 0 (usage_total g)
                            false (throttle_start g) tt (nr_throttled g) (park_head g)) now
  end.

Definition rollover_fuel (g : cgroup) (now : Z) : nat :=
  S (Z.to_nat ((now - period_start g) / period_ticks g)).

Definition period_rollover (g : cgroup) (now : Z) : cgroup :=
  if (quota_ticks g =? 0) || (period_ticks g =? 0) then g
  else rollover_loop (rollover_fuel g now) g now.

(** The cgroups from [c] up to the root. *)
Fixpoint cg_chain (n : nat) (G : Z -> cgroup) (c : Z) : list Z :=
  match n with
  | O => []
  | S n' => if c =? -1 then [] else c :: (if c =? CG_ROOT then [] else cg_chain n' G (cg_parent (G c)))
  end.

(** A path cannot be longer than the pool of cgroups. *)
Definition chain_fuel : nat := Z.to_nat MAX_CGS.
#[global] Opaque chain_fuel.
Definition chain_of (s : sched) (p : Z) : list Z := cg_chain chain_fuel (cgs s) (cg (procs s p)).

Definition cg_chain_throttled (s : sched) (p : Z) : bool :=
  if cg (procs s p) <? 0 then false else existsb (fun c => throttled (cgs s c)) (chain_of s p).

(** The root-most throttled cgroup of the chain, -1 when there is none. *)
Definition anchor_of (s : sched) (p : Z) : Z :=
  fold_left (fun a c => if throttled (cgs s c) then c else a) (chain_of s p) (-1).

Definition set_park_head (v : Z) (g : cgroup) : cgroup :=
  Cgroup (cg_live g) (cg_parent g) (quota_ticks g) (period_ticks g) (period_start g) (used_period g)
    (usage_total g) (throttled g) (throttle_start g) (throttled_total g) (nr_throttled g) v.

(** Charging one cgroup: the new group and whether it is throttled. *)
Definition charge_one (g : cgroup) (used now : Z) : cgroup * bool :=
  let g1 := if u64 (period_start g + period_ticks g) <=? now then period_rollover g now else g in
  let usage := u64 (usage_total g1 + used) in
  if quota_ticks g1 =? 0 then
    (Cgroup (cg_live g1) (cg_parent g1) (quota_ticks g1) (period_ticks g1) (period_start g1) (used_period g1)
       usage (throttled g1) (throttle_start g1) (throttled_total g1) (nr_throttled g1) (park_head g1), false)
  else
    let up := u64 (used_period g1 + used) in
    if negb (throttled g1) && (quota_ticks g1 <? up) then
      (Cgroup (cg_live g1) (cg_parent g1) (quota_ticks g1) (period_ticks g1) (period_start g1) up
         usage true now (throttled_total g1) (u64 (nr_throttled g1 + 1)) (park_head g1), true)
    else
      (Cgroup (cg_live g1) (cg_parent g1) (quota_ticks g1) (period_ticks g1) (period_start g1) up
         usage (throttled g1) (throttle_start g1) (throttled_total g1) (nr_throttled g1) (park_head g1), throttled g1).

Definition cg_charge_runtime (s : sched) (p used : Z) : sched * bool :=
  if (cg (procs s p) <? 0) || (used =? 0) then (s, false)
  else
    fold_left (fun '(s, t) c =>
      let '(g, th) := charge_one (cgs s c) used (ticks s) in (with_cg s c g, t || th))
      (chain_of s p) (s, false).

(** ** Making a task runnable *)

(** [enqueue_fresh] first gives the task a core it may run on and a treap
    priority. *)
Definition settle (A : Z -> Z) (p : Z) (pr : proc) : proc :=
  let want := proc_pick_cpu A p in
  let pr1 := if (rq_cpu pr <? 0) || (NR_RQ <=? rq_cpu pr)
                || (Z.land (proc_cpu_mask_of A p) (Z.shiftl 1 (rq_cpu pr)) =? 0)
             then set_rq_cpu want pr else pr in
  if tprio pr1 =? 0 then set_tprio (Z.lxor (u32 (pid pr1 * 2654435769)) 2246822507) pr1 else pr1.

(** The part of [enqueue_fresh] after the throttle check. *)
Definition enqueue_body (s : sched) (p : Z) : sched :=
  let pr := settle (allowed s) p (procs s p) in
  let '(P, q) := rq_enqueue (upd (procs s) p pr) (rqs s (rq_cpu pr)) p in
  let s1 := with_rq (with_procs s P) (rq_cpu pr) q in
  with_proc s1 p (set_state PROC_READY (procs s1 p)).

(** [cg_park], whose fallback is the call [enq] of [sched_enqueue]. *)
Definition cg_park_with (enq : sched -> Z -> sched) (s : sched) (p : Z) : sched :=
  if cg (procs s p) <? 0 then s
  else
    let s1 := with_proc s p
      (set_cg_park_next (-1) (set_wait_reason WAIT_CGROUP (set_state PROC_BLOCKED (procs s p)))) in
    let a := anchor_of s1 p in
    if a =? -1 then enq s1 p
    else
      let s2 := with_proc s1 p (set_cg_park_next (park_head (cgs s1 a)) (procs s1 p)) in
      with_cg s2 a (set_park_head (pid (procs s2 p)) (cgs s2 a)).

(** [sched_enqueue], [enqueue_fresh] and [cg_park] call each other; two levels
    of calls are the most there can be. *)
Fixpoint enqueue_fresh_n (n : nat) (s : sched) (p : Z) : sched :=
  match n with
  | O => s
  | S n' => if cg_chain_throttled s p then cg_park_with (enqueue_fresh_n n') s p else enqueue_body s p
  end.

Definition enqueue_fresh : sched -> Z -> sched := enqueue_fresh_n 2.
Definition cg_park : sched -> Z -> sched := cg_park_with enqueue_fresh.
Definition sched_enqueue (s : sched) (p : Z) : sched :=
  if cg_chain_throttled s p then cg_park s p else enqueue_fresh s p.
Definition proc_make_runnable : sched -> Z -> sched := enqueue_fresh.

Definition rq_remove (s : sched) (p : Z) : sched :=
  let pr := procs s p in
  if negb (bool_decide (state pr = PROC_READY)) || (rq_cpu pr <? 0) || (NR_RQ <=? rq_cpu pr) then s
  else
    let q := rqs s (rq_cpu pr) in
    let s1 := with_proc s p (set_vlag (vlag_at (vtime q) (vruntime pr)) pr) in
    let s2 := with_rq s1 (rq_cpu pr) (rq_dequeue (procs s1) q p) in
    with_proc s2 p (set_rq_cpu (-1) (procs s2 p)).

(** ** New tasks *)

Definition EEVDF_SLICE_TICKS := 5.
Definition CG_NICE0 := 1024.

(** The scheduler's part of a slot as [proc_alloc] leaves it: still UNUSED. *)
Definition blank_proc (next_pid : Z) : proc :=
  {| pid := next_pid; ppid := 0; pgid := 0; state := PROC_UNUSED; wait_reason := WAIT_NONE; wake_tick := 0;
     wait_q := 0; itimer_expire := 0; itimer_interval := 0; sig_pending := 0; sig_ignored := 0; sig_mask := 0;
     stop_sig := 0; reported := false; traced := false; ptrace_stopped := false; vruntime := 0; deadline := 0;
     slice := EEVDF_SLICE_TICKS * VIRT_UNIT; last_run_tick := 0; vlag := 0; rq_cpu := -1; tprio := 0;
     pi_boost := 0; bkl_held := false; on_cpu := -1; cg := -1; sched_weight := CG_NICE0; cg_park_next := -1 |}.

(** The first unused slot whose bit of [g_slot_busy] is clear, claimed for the
    next pid: the new table, the new busy mask and the slot. *)
Definition proc_alloc (s : sched) (busy next_pid : Z) : option (sched * Z * Z) :=
  match List.find (fun i => bool_decide (state (procs s i) = PROC_UNUSED)
                            && (Z.land busy (Z.shiftl 1 i) =? 0)) (seqZ 0 MAX_PROCS) with
  | None => None
  | Some i => Some (with_proc s i (blank_proc next_pid), Z.lor busy (Z.shiftl 1 i), i)
  end.

(** A slot is handed back only by a task that is on no queue and no core. *)
Definition slot_release (s : sched) (busy p : Z) : sched * Z :=
  match state (procs s p) with
  | PROC_READY | PROC_RUNNING | PROC_BLOCKED => (s, busy)
  | _ => (with_proc s p (set_state PROC_UNUSED (procs s p)), Z.land busy (not64 (Z.shiftl 1 p)))
  end.

(** ** Dispatch *)

(** What [schedule_locked] decided: carry on (returns 0), park this core in the
    idle context, the caller was picked again, or switch to another task, with
    the lock dropped early for a task that never ran. *)
Inductive outcome := Stay | Idle | Same | Switch (next : Z) (fresh : bool).

(** The queue a task is charged on: that of its core, 0 for a core without one. *)
Definition home_rq (pr : proc) : Z :=
  if (0 <=? on_cpu pr) && (on_cpu pr <? NR_RQ) then on_cpu pr else 0.

(** Virtual-time accounting of the ticks [p] has run since it was last charged. *)
Definition account (s : sched) (p : Z) : sched * Z :=
  let pr := procs s p in
  let used := u64 (ticks s - last_run_tick pr) in
  let q := rqs s (home_rq pr) in
  let vr := u64 (vruntime pr + virt_delta used (proc_eff_weight pr)) in
  let q' := Rq (root q) (u64 (vtime q + used * VIRT_UNIT)) (min_vtime q) (count q) in
  let pr' := set_last_run_tick (ticks s) (set_vlag (vlag_at (vtime q') vr) (set_vruntime vr pr)) in
  (with_rq (with_proc s p pr') (home_rq pr) q', used).

(** The outgoing task: charged, and back on its queue if it was running. *)
Definition put_prev (s : sched) (p : Z) : sched :=
  let '(s1, used) := account s p in
  let pr := procs s1 p in
  if bool_decide (state pr = PROC_RUNNING) then
    let pr1 := set_state PROC_READY pr in
    let pr2 := if deadline pr1 <=? vruntime pr1 then set_deadline (u64 (vruntime pr1 + slice pr1)) pr1 else pr1 in
    let '(s2, throttled) := cg_charge_runtime (with_proc s1 p pr2) p used in
    if throttled || cg_chain_throttled s2 p then cg_park s2 p
    else
      let i := home_rq pr in
      let '(P, q) := rq_enqueue (procs s2) (rqs s2 i) p in with_rq (with_procs s2 P) i q
  else s1.

(** The fullest other queue, the first one on a tie. *)
Definition fullest (Q : Z -> rq) (mycpu : Z) : option Z :=
  fold_left (fun best i =>
    if i =? mycpu then best
    else if negb (count (Q i) =? 0)
            && (match best with None => true | Some b => count (Q b) <? count (Q i) end)
         then Some i else best) (seqZ 0 NR_RQ) None.

(** The next task: from this core's queue, or stolen. *)
Definition pick_next (s : sched) (mycpu : Z) : sched * option Z :=
  let '(P, q, r) := rq_pick_best (procs s) (rqs s mycpu) in
  let s1 := with_rq (with_procs s P) mycpu q in
  match r with
  | Some x => (with_proc s1 x (set_rq_cpu mycpu (procs s1 x)), Some x)
  | None =>
      match fullest (rqs s1) mycpu with
      | None => (s1, None)
      | Some b =>
          let '(P2, q2, r2) := rq_pick_best (procs s1) (rqs s1 b) in
          let s2 := with_rq (with_procs s1 P2) b q2 in
          match r2 with
          | None => (s2, None)
          | Some x =>
              let pr := procs s2 x in
              (with_proc s2 x (set_rq_cpu mycpu
                 (set_vruntime (u64 (s64 (vtime (rqs s2 mycpu)) - vlag pr)) pr)), Some x)
          end
      end
  end.

Definition drop_bkl (s : sched) (o : option Z) : sched :=
  match o with Some p => with_proc s p (set_bkl_held false (procs s p)) | None => s end.

Definition schedule_locked (s : sched) (c : Z) : sched * outcome :=
  let prev := current s c in
  let s1 := match prev with Some p => put_prev s p | None => s end in
  let '(s2, next) := pick_next s1 (c mod NR_RQ) in
  match next with
  | None =>
      match prev with
      | None => (s2, Stay)
      | Some p =>
          if bool_decide (state (procs s2 p) = PROC_RUNNING) then (s2, Stay)
          else (with_current (drop_bkl s2 prev) (upd (current s2) c None), Idle)
      end
  | Some n =>
      let s3 := with_proc s2 n (set_state PROC_RUNNING (procs s2 n)) in
      if bool_decide (prev = Some n) then (drop_bkl s3 prev, Same)
      else
        let pr := procs s3 n in
        let fresh := on_cpu pr =? -1 in
        let pr' := set_on_cpu c (set_last_run_tick (ticks s3) (set_deadline (u64 (vruntime pr + slice pr)) pr)) in
        (drop_bkl (with_current (with_proc s3 n pr') (upd (current s3) c (Some n))) prev, Switch n fresh)
  end.

(** ** Entry points *)

Definition sched_yield (s : sched) (c : Z) : sched * outcome :=
  schedule_locked (drop_bkl s (current s c)) c.

(** [bkl_return_from_switch], when a parked task runs again. *)
Definition bkl_return_from_switch (s : sched) (c : Z) : sched :=
  match current s c with Some p => with_proc s p (set_bkl_held true (procs s p)) | None => s end.

(** [sched_block] and [sched_block_irqoff], up to the switch. *)
Definition sched_block (s : sched) (c : Z) (why : wait_reason_t) : sched * outcome :=
  match current s c with
  | None => (s, Stay)
  | Some p =>
      let s1 := drop_bkl (with_proc s p (set_wait_reason why (procs s p))) (Some p) in
      schedule_locked (with_proc s1 p (set_state PROC_BLOCKED (procs s1 p))) c
  end.

Definition sched_block_timeout (s : sched) (c : Z) (why : wait_reason_t) (t : Z) : sched * outcome :=
  match current s c with
  | None => (s, Stay)
  | Some p =>
      let wake := u64 (ticks s + (if t =? 0 then 1 else t)) in
      let s1 := drop_bkl (with_proc s p (set_wake_tick wake (set_wait_reason why (procs s p)))) (Some p) in
      schedule_locked (with_proc s1 p (set_state PROC_BLOCKED (procs s1 p))) c
  end.

Definition sched_tick (s : sched) (c : Z) : sched * outcome :=
  match current s c with
  | None => (s, Stay)
  | Some p =>
      let '(s1, used) := account s p in
      let '(s2, throttled) := cg_charge_runtime s1 p used in
      let i := home_rq (procs s p) in
      let '(P, q, owed) := rq_pick_best (procs s2) (rqs s2 i) in
      let s3 := with_rq (with_procs s2 P) i q in
      let s4 := match owed with
                | Some o => let '(P', q') := rq_enqueue (procs s3) (rqs s3 i) o in with_rq (with_procs s3 P') i q'
                | None => s3
                end in
      let cur := procs s4 p in
      let preempt := throttled || (deadline cur <=? vruntime cur)
        || match owed with
           | Some o => (vlag (procs s4 o) <=? 0) && (deadline (procs s4 o) <? deadline cur)
           | None => false
           end in
      if preempt then schedule_locked s4 c else (s4, Stay)
  end.

Definition sched_wake (s : sched) (p : Z) : sched :=
  if bool_decide (state (procs s p) = PROC_BLOCKED) then
    enqueue_fresh (with_proc s p (set_wake_tick 0 (set_wait_reason WAIT_NONE (procs s p)))) p
  else s.

Definition wake_if (test : proc -> bool) (s : sched) : sched :=
  fold_left (fun s i => if bool_decide (state (procs s i) = PROC_BLOCKED) && test (procs s i)
                        then sched_wake s i else s) (seqZ 0 MAX_PROCS) s.

Definition sched_wake_reason (s : sched) (why : wait_reason_t) : sched :=
  wake_if (fun p => bool_decide (wait_reason p = why)) s.
Definition sched_wake_queue (s : sched) (q : Z) : sched := wake_if (fun p => wait_q p =? q) s.
Definition sched_wake_poll_channels (s : sched) : sched :=
  sched_wake_reason (sched_wake_reason (sched_wake_reason s WAIT_PIPE) WAIT_NET) WAIT_TTY.

(** ** Releasing throttled tasks *)

Definition proc_by_pid (s : sched) (pd : Z) : option Z :=
  List.find (fun i => negb (bool_decide (state (procs s i) = PROC_UNUSED)) && (pid (procs s i) =? pd))
    (seqZ 0 MAX_PROCS).

(** One task of a park list that is being drained. *)
Definition release_one (s : sched) (p : Z) : sched :=
  let pr := procs s p in
  if bool_decide (state pr = PROC_BLOCKED) && bool_decide (wait_reason pr = WAIT_CGROUP) then
    let s1 := with_proc s p (set_cg_park_next (-1) pr) in
    let a := anchor_of s1 p in
    if a =? -1 then sched_enqueue s1 p
    else
      let s2 := with_proc s1 p (set_cg_park_next (park_head (cgs s1 a)) (procs s1 p)) in
      with_cg s2 a (set_park_head (pid (procs s2 p)) (cgs s2 a))
  else s.

(** The walk over a detached park list, for at most [n] tasks. *)
Fixpoint release_walk (n : nat) (s : sched) (pd : Z) : sched :=
  match n with
  | O => s
  | S n' =>
      if pd =? -1 then s
      else
        match proc_by_pid s pd with
        | None => s
        | Some p => release_walk n' (release_one s p) (cg_park_next (procs s p))
        end
  end.

Definition release_parked (s : sched) (g : Z) : sched :=
  let hd := park_head (cgs s g) in
  release_walk (Z.to_nat (2 * MAX_PROCS)) (with_cg s g (set_park_head (-1) (cgs s g))) hd.

Definition cg_tick_refresh (s : sched) : sched :=
  fold_left (fun s i =>
    let g := cgs s i in
    if negb (cg_live g) || (quota_ticks g =? 0) then s
    else if throttled g && (u64 (period_start g + period_ticks g) <=? ticks s)
         then release_parked (with_cg s i (period_rollover g (ticks s))) i
         else s) (seqZ 0 MAX_CGS) s.

(** Writing cpu.max. *)
Definition cg_cpu_set_max (g : cgroup) (quota period now : Z) : cgroup :=
  period_rollover (Cgroup (cg_live g) (cg_parent g) (if quota =? 0 then 1 else quota) period (period_start g)
    (used_period g) (usage_total g) (throttled g) (throttle_start g) (throttled_total g) (nr_throttled g)
    (park_head g)) now.

(** ** Signals that move tasks *)

Definition sig_is_stop (s : Z) : bool := (s =? SIGSTOP) || (s =? SIGTSTP) || (s =? SIGTTIN) || (s =? SIGTTOU).

Definition STOP_MASK : Z :=
  Z.lor (Z.lor (Z.lor (SIGMASK SIGSTOP) (SIGMASK SIGTSTP)) (SIGMASK SIGTTIN)) (SIGMASK SIGTTOU).

Definition proc_signal (s : sched) (p sig : Z) : sched * Z :=
  let pr := procs s p in
  if (sig <=? 0) || (NSIG <=? sig) || bool_decide (state pr = PROC_UNUSED) || bool_decide (state pr = PROC_ZOMBIE)
  then (s, - E_INVAL)
  else if sig =? SIGCONT then
    let s1 := with_proc s p (set_sig_pending (Z.land (sig_pending pr) (not64 STOP_MASK)) pr) in
    if bool_decide (state pr = PROC_STOPPED) then
      if traced pr && ptrace_stopped pr then (s1, 0)
      else (enqueue_fresh (with_proc s1 p (set_reported false (procs s1 p))) p, 0)
    else (s1, 0)
  else if negb (Z.land (sig_ignored pr) (SIGMASK sig) =? 0) then (s, 0)
  else
    let pend := if sig_is_stop sig then Z.land (sig_pending pr) (not64 (SIGMASK SIGCONT)) else sig_pending pr in
    let s1 := with_proc s p (set_sig_pending (Z.lor pend (SIGMASK sig)) pr) in
    if bool_decide (state pr = PROC_BLOCKED) then (sched_wake s1 p, 0)
    else if bool_decide (state pr = PROC_STOPPED) && (sig =? SIGKILL) then (enqueue_fresh s1 p, 0)
    else (s1, 0).

Definition proc_signal_group (s : sched) (pg sig : Z) : sched * Z :=
  fold_left (fun '(s, n) i =>
    let pr := procs s i in
    if bool_decide (state pr = PROC_UNUSED) || bool_decide (state pr = PROC_ZOMBIE) || negb (pgid pr =? pg) then (s, n)
    else (fst (proc_signal s i sig), n + 1)) (seqZ 0 MAX_PROCS) (s, 0).

(** The tick handler's sweep over the process table. *)
Definition expire_one (now : Z) (s : sched) (i : Z) : sched :=
  let pr := procs s i in
  let s1 :=
    if negb (itimer_expire pr =? 0) && (itimer_expire pr <=? now) then
      let s' := with_proc s i (set_itimer_expire
                  (if negb (itimer_interval pr =? 0) then u64 (now + itimer_interval pr) else 0) pr) in
      fst (proc_signal s' i SIGALRM)
    else s in
  let pr1 := procs s1 i in
  if bool_decide (state pr1 = PROC_BLOCKED) && negb (wake_tick pr1 =? 0) && (wake_tick pr1 <=? now)
  then sched_wake s1 i else s1.

Definition sched_expire_timeouts (s : sched) : sched :=
  let s1 := cg_tick_refresh s in
  fold_left (expire_one (ticks s1)) (seqZ 0 MAX_PROCS) s1.

(** Job-control stop of the running task, up to the switch. *)
Definition stop_current (s : sched) (c sig : Z) : sched * outcome :=
  match current s c with
  | None => (s, Stay)
  | Some p =>
      let pr := procs s p in
      let s1 := with_proc s p (set_reported false (set_stop_sig sig (set_state PROC_STOPPED
                  (set_sig_pending (Z.land (sig_pending pr) (not64 (SIGMASK sig))) pr)))) in
      let s2 :=
        match proc_by_pid s1 (ppid pr) with
        | None => s1
        | Some par =>
            let s' := fst (proc_signal s1 par SIGCHLD) in
            if bool_decide (state (procs s' par) = PROC_BLOCKED) && bool_decide (wait_reason (procs s' par) = WAIT_CHILD)
            then sched_wake s' par else s'
        end in
      sched_yield s2 c
  end.
