(* ===== verification/SchedInv.v ===== *)
(** * The scheduler invariant

    Every operation of the scheduler keeps the process states, the run queues
    and the per-CPU current tasks consistent: a task is READY exactly when it
    is on the one queue its [rq_cpu] names, RUNNING exactly when some core runs
    it, and every queue is a well-formed treap. *)
From S2P Require Import Prelude Sched SchedOps.
#[local] Open Scope Z_scope.

#[local] Arguments place : simpl never.

Definition is_slot (p : Z) : Prop := 0 <= p < MAX_PROCS.
Definition is_cpu (c : Z) : Prop := 0 <= c < NR_RQ.

(** Neither queued nor on a core. *)
Definition parked (st : proc_state) : Prop := st <> PROC_READY /\ st <> PROC_RUNNING.

Record inv (P : ptab) (Q : Z -> rq) (C : Z -> option Z) : Prop := {
  inv_wf : forall q, is_cpu q -> rq_wf P (Q q);
  inv_queued : forall q p, is_cpu q -> p ∈ elems (root (Q q)) ->
    is_slot p /\ state (P p) = PROC_READY /\ rq_cpu (P p) = q;
  inv_ready : forall p, is_slot p -> state (P p) = PROC_READY ->
    is_cpu (rq_cpu (P p)) /\ p ∈ elems (root (Q (rq_cpu (P p))));
  inv_cur : forall c p, is_cpu c -> C c = Some p ->
    is_slot p /\ state (P p) = PROC_RUNNING /\ on_cpu (P p) = c /\ rq_cpu (P p) = c;
  inv_running : forall p, is_slot p -> state (P p) = PROC_RUNNING -> exists c, is_cpu c /\ C c = Some p;
  inv_pid : forall p p', is_slot p -> is_slot p' ->
    state (P p) <> PROC_UNUSED -> state (P p') <> PROC_UNUSED -> pid (P p) = pid (P p') -> p = p'
}.

Definition sched_inv (s : sched) : Prop := inv (procs s) (rqs s) (current s).

(** The queues hold at most one entry per slot. *)
Lemma queue_small P Q C q : inv P Q C -> is_cpu q -> alen (elems (root (Q q))) <= MAX_PROCS.
Proof.
  intros I Hq. pose proof (srt_nodup _ _ (wf_srt _ _ (inv_wf _ _ _ I q Hq))) as Hn.
  assert (Hs : elems (root (Q q)) ⊆ seqZ 0 MAX_PROCS).
  { intros p Hp. apply elem_of_seqZ. destruct (inv_queued _ _ _ I q p Hq Hp) as [Hs _]. unfold is_slot in Hs. lia. }
  unfold alen.
  pose proof (NoDup_submseteq _ _ Hn Hs) as Hsub. apply submseteq_length in Hsub.
  rewrite length_seqZ in Hsub. unfold MAX_PROCS in *. lia.
Qed.

(** The fields of a task the invariant reads. *)
Definition same_view (a b : proc) : Prop :=
  state b = state a /\ pid b = pid a /\ deadline b = deadline a /\ tprio b = tprio a /\
  rq_cpu b = rq_cpu a /\ on_cpu b = on_cpu a.

(** Changing fields the invariant does not read. *)
Lemma inv_touch P P' Q C : (forall x, same_view (P x) (P' x)) -> inv P Q C -> inv P' Q C.
Proof.
  intros H I. assert (E : forall x, state (P' x) = state (P x) /\ pid (P' x) = pid (P x) /\ same_key P P' x /\
    rq_cpu (P' x) = rq_cpu (P x) /\ on_cpu (P' x) = on_cpu (P x)).
  { intros x. destruct (H x) as (?&?&?&?&?&?). unfold same_key. tauto. }
  constructor.
  - intros q Hq. apply (rq_wf_ext P); [intros; apply E|by apply I].
  - intros q p Hq Hp. destruct (E p) as (-> & _ & _ & -> & _). by apply (inv_queued _ _ _ I).
  - intros p Hp. destruct (E p) as (-> & _ & _ & -> & _). by apply (inv_ready _ _ _ I).
  - intros c p Hc. destruct (E p) as (-> & _ & _ & -> & ->). by apply (inv_cur _ _ _ I).
  - intros p Hp. destruct (E p) as (-> & _). by apply (inv_running _ _ _ I).
  - intros p p' Hp Hp'. destruct (E p) as (-> & -> & _), (E p') as (-> & -> & _). by apply (inv_pid _ _ _ I).
Qed.

(** Changing a queue's clock or floor. *)
Lemma inv_clock P Q C q v m :
  inv P Q C -> inv P (upd Q q (Rq (root (Q q)) v m (count (Q q)))) C.
Proof.
  intros I. set (Q' := upd Q q _). assert (E : forall i, root (Q' i) = root (Q i) /\ count (Q' i) = count (Q i)).
  { intros i. unfold Q', upd. destruct (Z.eqb_spec i q) as [->|]; done. }
  constructor; try apply I.
  - intros i Hi. destruct (inv_wf _ _ _ I i Hi). destruct (E i). constructor; congruence.
  - intros i p Hi. destruct (E i) as [-> _]. by apply (inv_queued _ _ _ I).
  - intros p Hp Hs. destruct (E (rq_cpu (P p))) as [-> _]. by apply (inv_ready _ _ _ I).
Qed.

(** The tables agree away from [x]. *)
Definition agree_off (x : Z) (P P' : ptab) : Prop := forall y, y <> x -> P' y = P y.

Lemma parked_unqueued P Q C x q : inv P Q C -> parked (state (P x)) -> is_cpu q -> x ∉ elems (root (Q q)).
Proof. intros I [H _] Hq Hx. by destruct (inv_queued _ _ _ I q x Hq Hx) as (_ & ? & _). Qed.

Lemma parked_not_current P Q C x c : inv P Q C -> parked (state (P x)) -> is_cpu c -> C c <> Some x.
Proof. intros I [_ H] Hc Hx. by destruct (inv_cur _ _ _ I c x Hc Hx) as (_ & ? & _). Qed.

(** No other task in use has the pid of [x]. *)
Definition fresh_pid (P : ptab) (x : Z) : Prop :=
  forall y, is_slot y -> y <> x -> state (P y) <> PROC_UNUSED -> pid (P y) <> pid (P x).

Lemma inv_fresh P Q C x : inv P Q C -> is_slot x -> state (P x) <> PROC_UNUSED -> fresh_pid P x.
Proof. intros I Hx Hu y Hy Hne Hyu Heq. apply Hne. by apply (inv_pid _ _ _ I). Qed.

Lemma fresh_off P P' x : agree_off x P P' -> pid (P' x) = pid (P x) -> fresh_pid P x -> fresh_pid P' x.
Proof. intros Ha Hp H y Hy Hne. rewrite Ha, Hp by done. by apply H. Qed.

Lemma fresh_upd P x pr : pid pr = pid (P x) -> fresh_pid P x -> fresh_pid (upd P x pr) x.
Proof. intros Hp. apply fresh_off; [intros y Hy; by rewrite upd_ne|by rewrite upd_eq]. Qed.

Lemma inv_pid_off P P' Q C x :
  inv P Q C -> agree_off x P P' -> pid (P' x) = pid (P x) -> fresh_pid P x ->
  forall p p', is_slot p -> is_slot p' ->
    state (P' p) <> PROC_UNUSED -> state (P' p') <> PROC_UNUSED -> pid (P' p) = pid (P' p') -> p = p'.
Proof.
  intros I Ha Hpid Hx p p' Hp Hp' H1 H2 Heq. destruct (decide (p = x)) as [->|Hn1], (decide (p' = x)) as [->|Hn2].
  - done.
  - rewrite Ha in H2 by done. rewrite (Ha p'), Hpid in Heq by done. by destruct (Hx p').
  - rewrite Ha in H1 by done. rewrite (Ha p), Hpid in Heq by done. by destruct (Hx p).
  - rewrite !Ha in * by done. by apply (inv_pid _ _ _ I).
Qed.

(** A task that is not queued may change in any way that keeps it parked. *)
Lemma inv_parked P P' Q C x :
  inv P Q C -> agree_off x P P' -> pid (P' x) = pid (P x) ->
  parked (state (P x)) -> fresh_pid P x -> parked (state (P' x)) -> inv P' Q C.
Proof.
  intros I Ha Hpid Hx Hxu Hx'. pose proof (fun q => parked_unqueued _ _ _ x q I Hx) as Hq.
  pose proof (fun c => parked_not_current _ _ _ x c I Hx) as Hc.
  constructor.
  - intros q Hqc. apply (rq_wf_ext P); [|by apply I]. intros y Hy. unfold same_key. rewrite Ha; [done|].
    intros ->. by apply (Hq q).
  - intros q p Hqc Hp. rewrite Ha; [by apply I|]. intros ->. by apply (Hq q).
  - intros p Hp Hs. destruct (decide (p = x)) as [->|Hne]; [by destruct Hx'|]. rewrite Ha in * by done. by apply I.
  - intros c p Hcc Hp. rewrite Ha; [by apply I|]. intros ->. by apply (Hc c).
  - intros p Hp Hs. destruct (decide (p = x)) as [->|Hne]; [by destruct Hx'|]. rewrite Ha in * by done. by apply I.
  - by apply (inv_pid_off P P' Q C x).
Qed.

(** The current task of core [c] stops running. *)
Lemma inv_leave P P' Q C c x :
  inv P Q C -> is_cpu c -> C c = Some x -> agree_off x P P' -> pid (P' x) = pid (P x) ->
  parked (state (P' x)) -> inv P' Q (upd C c None).
Proof.
  intros I Hc Hx Ha Hpid Hpk. destruct (inv_cur _ _ _ I c x Hc Hx) as (Hs & Hr & Ho & Hrq).
  assert (Hq : forall q, is_cpu q -> x ∉ elems (root (Q q))).
  { intros q Hqc Hin. destruct (inv_queued _ _ _ I q x Hqc Hin) as (_ & ? & _). congruence. }
  constructor.
  - intros q Hqc. apply (rq_wf_ext P); [|by apply I]. intros y Hy. unfold same_key. rewrite Ha; [done|].
    intros ->. by apply (Hq q).
  - intros q p Hqc Hp. rewrite Ha; [by apply I|]. intros ->. by apply (Hq q).
  - intros p Hp H. destruct (decide (p = x)) as [->|Hne]; [by destruct Hpk|]. rewrite Ha in * by done. by apply I.
  - intros c' p Hc' Hp. unfold upd in Hp. destruct (Z.eqb_spec c' c) as [->|Hne]; [done|].
    rewrite Ha; [by apply I|]. intros ->. destruct (inv_cur _ _ _ I c' x Hc' Hp) as (_ & _ & ? & _). congruence.
  - intros p Hp H. destruct (decide (p = x)) as [->|Hne]; [by destruct Hpk|]. rewrite Ha in H by done.
    destruct (inv_running _ _ _ I p Hp H) as (c' & Hc' & E). exists c'. split; [done|].
    rewrite upd_ne; [done|]. intros ->. congruence.
  - apply (inv_pid_off P P' Q C x); auto. apply (inv_fresh _ _ _ _ I Hs). congruence.
Qed.

(** A parked task starts running on the free core [c]. *)
Lemma inv_run P P' Q C c x :
  inv P Q C -> is_cpu c -> C c = None -> is_slot x -> parked (state (P x)) -> fresh_pid P x ->
  agree_off x P P' -> pid (P' x) = pid (P x) ->
  state (P' x) = PROC_RUNNING -> on_cpu (P' x) = c -> rq_cpu (P' x) = c -> inv P' Q (upd C c (Some x)).
Proof.
  intros I Hc HC Hs Hpk Hu Ha Hpid H1 H2 H3.
  pose proof (fun q => parked_unqueued _ _ _ x q I Hpk) as Hq.
  pose proof (fun c => parked_not_current _ _ _ x c I Hpk) as Hn.
  constructor.
  - intros q Hqc. apply (rq_wf_ext P); [|by apply I]. intros y Hy. unfold same_key. rewrite Ha; [done|].
    intros ->. by apply (Hq q).
  - intros q p Hqc Hp. rewrite Ha; [by apply I|]. intros ->. by apply (Hq q).
  - intros p Hp H. destruct (decide (p = x)) as [->|Hne]; [congruence|]. rewrite Ha in * by done. by apply I.
  - intros c' p Hc' Hp. unfold upd in Hp. destruct (Z.eqb_spec c' c) as [->|Hne].
    + injection Hp as <-. auto.
    + rewrite Ha; [by apply I|]. intros ->. by apply (Hn c').
  - intros p Hp H. destruct (decide (p = x)) as [->|Hne]; [exists c; by rewrite upd_eq|]. rewrite Ha in H by done.
    destruct (inv_running _ _ _ I p Hp H) as (c' & Hc' & E). exists c'. split; [done|].
    rewrite upd_ne; [done|]. intros ->. congruence.
  - apply (inv_pid_off P P' Q C x); auto.
Qed.

(** A parked task joins queue [q]. *)
Lemma inv_enqueue P P1 P2 P3 Q C q q2 x :
  inv P Q C -> is_cpu q -> is_slot x -> parked (state (P x)) -> fresh_pid P x ->
  agree_off x P P1 -> pid (P1 x) = pid (P x) -> rq_enqueue P1 (Q q) x = (P2, q2) ->
  agree_off x P2 P3 -> same_key P2 P3 x -> state (P3 x) = PROC_READY -> rq_cpu (P3 x) = q ->
  inv P3 (upd Q q q2) C.
Proof.
  intros I Hqc Hs Hpk Hu Ha Hpid E Ha3 Hk Hst Hrq.
  pose proof (fun q => parked_unqueued _ _ _ x q I Hpk) as Hq.
  pose proof (fun c => parked_not_current _ _ _ x c I Hpk) as Hn.
  assert (W1 : rq_wf P1 (Q q)).
  { apply (rq_wf_ext P); [|by apply I]. intros y Hy. unfold same_key. rewrite Ha; [done|]. intros ->. by apply (Hq q). }
  destruct (rq_enqueue_ok P1 (Q q) x P2 q2 W1) as (W2 & El & -> & _ & _); [by apply Hq| | |done|].
  { intros y Hy Heq. assert (y <> x) by (intros ->; by apply (Hq q)). rewrite Ha in Heq by done.
    destruct (inv_queued _ _ _ I q y Hqc Hy) as (Hys & Hyr & _).
    apply (Hu y Hys H); congruence. }
  { pose proof (queue_small _ _ _ q I Hqc). unfold MAX_PROCS in *. lia. }
  assert (Ha' : agree_off x P P3).
  { intros y Hy. rewrite Ha3, upd_ne, Ha by done. done. }
  assert (Hpid3 : pid (P3 x) = pid (P x)).
  { destruct Hk as (_ & -> & _). rewrite upd_eq. destruct (place_pid (Q q) (P1 x)) as (-> & _). done. }
  constructor.
  - intros i Hi. unfold upd. destruct (Z.eqb_spec i q) as [->|Hne].
    + eapply rq_wf_ext; [|exact W2]. intros y _. destruct (decide (y = x)) as [->|]; [done|].
      unfold same_key. by rewrite Ha3.
    + apply (rq_wf_ext P); [|by apply I]. intros y Hy. unfold same_key. rewrite Ha'; [done|]. intros ->. by apply (Hq i).
  - intros i p Hi Hp. destruct (decide (p = x)) as [->|Hne].
    + split; [done|]. split; [done|]. unfold upd in Hp. destruct (Z.eqb_spec i q) as [->|]; [done|]. by apply (Hq i) in Hp.
    + rewrite Ha' by done. apply I; [done|]. unfold upd in Hp. destruct (Z.eqb_spec i q) as [->|]; [|done].
      rewrite El, elem_of_cons in Hp. by destruct Hp.
  - intros p Hp H. destruct (decide (p = x)) as [->|Hne].
    + rewrite Hrq, upd_eq. split; [done|]. rewrite El. left.
    + rewrite Ha' in * by done. destruct (inv_ready _ _ _ I p Hp H) as [Hr Hin]. split; [done|].
      unfold upd. destruct (Z.eqb_spec (rq_cpu (P p)) q) as [<-|]; [|done]. rewrite El. by right.
  - intros c p Hc Hp. rewrite Ha'; [by apply I|]. intros ->. by apply (Hn c).
  - intros p Hp H. destruct (decide (p = x)) as [->|Hne]; [congruence|]. rewrite Ha' in H by done. by apply I.
  - apply (inv_pid_off P P3 Q C x); auto.
Qed.

(** A queued task leaves its queue and parks. *)
Lemma inv_unqueue P P1 P2 Q C q q1 x :
  inv P Q C -> is_cpu q -> x ∈ elems (root (Q q)) ->
  agree_off x P P1 -> rq_wf P1 q1 -> elems (root q1) = filter (fun y => y <> x) (elems (root (Q q))) ->
  agree_off x P1 P2 -> pid (P2 x) = pid (P x) -> parked (state (P2 x)) ->
  inv P2 (upd Q q q1) C.
Proof.
  intros I Hqc Hx Ha W1 El Ha2 Hpid Hpk. destruct (inv_queued _ _ _ I q x Hqc Hx) as (Hs & Hr & Hrq).
  assert (Ha' : agree_off x P P2) by (intros y Hy; by rewrite Ha2, Ha).
  assert (Hq : forall i, is_cpu i -> x ∉ elems (root (upd Q q q1 i))).
  { intros i Hi. unfold upd. destruct (Z.eqb_spec i q) as [->|]; [rewrite El, list_elem_of_filter; tauto|].
    intros Hin. by destruct (inv_queued _ _ _ I i x Hi Hin) as (_ & _ & <-). }
  constructor.
  - intros i Hi. pose proof (Hq i Hi) as Hxi. unfold upd in *. destruct (Z.eqb_spec i q) as [->|Hne].
    + eapply rq_wf_ext; [|exact W1]. intros y Hy. unfold same_key. rewrite Ha2; [done|]. by intros ->.
    + apply (rq_wf_ext P); [|by apply I]. intros y Hy. unfold same_key. rewrite Ha'; [done|]. by intros ->.
  - intros i p Hi Hp. assert (p <> x) by (intros ->; by apply (Hq i)). rewrite Ha' by done. apply I; [done|].
    unfold upd in Hp. destruct (Z.eqb_spec i q) as [->|]; [|done]. rewrite El, list_elem_of_filter in Hp. tauto.
  - intros p Hp H. destruct (decide (p = x)) as [->|Hne]; [by destruct Hpk|]. rewrite Ha' in * by done.
    destruct (inv_ready _ _ _ I p Hp H) as [Hrp Hin]. split; [done|].
    unfold upd. destruct (Z.eqb_spec (rq_cpu (P p)) q) as [<-|]; [|done]. rewrite El, list_elem_of_filter. done.
  - intros c p Hc Hp. rewrite Ha'; [by apply I|]. intros ->.
    destruct (inv_cur _ _ _ I c x Hc Hp) as (_ & ? & _). congruence.
  - intros p Hp H. destruct (decide (p = x)) as [->|Hne]; [by destruct Hpk|]. rewrite Ha' in H by done. by apply I.
  - apply (inv_pid_off P P2 Q C x); auto. apply (inv_fresh _ _ _ _ I Hs). congruence.
Qed.

Lemma inv_ext P P' Q Q' C C' :
  (forall x, P' x = P x) -> (forall q, Q' q = Q q) -> (forall c, C' c = C c) -> inv P Q C -> inv P' Q' C'.
Proof.
  intros HP HQ HC I. constructor.
  - intros q Hq. rewrite HQ. apply (rq_wf_ext P); [|by apply I]. intros x _. unfold same_key. by rewrite HP.
  - intros q p Hq. rewrite HQ, HP. by apply I.
  - intros p Hp. rewrite HP, HQ. by apply I.
  - intros c p Hc. rewrite HC, HP. by apply I.
  - intros p Hp. rewrite HP. intros H. destruct (inv_running _ _ _ I p Hp H) as (c & ? & ?). exists c. by rewrite HC.
  - intros p p' Hp Hp'. rewrite !HP. by apply I.
Qed.

(** ** Throttling *)

Lemma chain_valid n G : forall c x, x ∈ cg_chain n G c -> x <> -1.
Proof.
  induction n as [|n IH]; simpl; intros c x Hx; [by apply not_elem_of_nil in Hx|].
  destruct (Z.eqb_spec c (-1)); [by apply not_elem_of_nil in Hx|].
  apply elem_of_cons in Hx as [->|Hx]; [done|].
  destruct (c =? CG_ROOT); [by apply not_elem_of_nil in Hx|eauto].
Qed.

Lemma anchor_fold (G : Z -> cgroup) l : forall a,
  (forall x, x ∈ l -> x <> -1) -> a <> -1 \/ existsb (fun c => throttled (G c)) l = true ->
  fold_left (fun a c => if throttled (G c) then c else a) l a <> -1.
Proof.
  induction l as [|x l IH]; simpl; intros a Hl Ha; [destruct Ha; done|].
  apply IH; [set_solver|]. destruct (throttled (G x)); [left; apply Hl; left|].
  destruct Ha as [?|?]; auto.
Qed.

(** A throttled task has a cgroup to be parked on. *)
Lemma throttled_anchor s p : cg_chain_throttled s p = true -> 0 <= cg (procs s p) /\ anchor_of s p <> -1.
Proof.
  unfold cg_chain_throttled, anchor_of. destruct (Z.ltb_spec (cg (procs s p)) 0); [done|]. intros H0. split; [done|].
  apply anchor_fold; [|by right]. intros x. apply chain_valid.
Qed.

(** What parking a throttled task does to the table. *)
Lemma park_effect enq s p :
  cg_chain_throttled s p = true ->
  let s' := cg_park_with enq s p in
  agree_off p (procs s) (procs s') /\ rqs s' = rqs s /\ current s' = current s /\ ticks s' = ticks s /\
  allowed s' = allowed s /\
  state (procs s' p) = PROC_BLOCKED /\ wait_reason (procs s' p) = WAIT_CGROUP /\ pid (procs s' p) = pid (procs s p) /\
  on_cpu (procs s' p) = on_cpu (procs s p) /\ rq_cpu (procs s' p) = rq_cpu (procs s p).
Proof.
  intros H. apply throttled_anchor in H as [Hcg Ha]. unfold cg_park_with.
  destruct (Z.ltb_spec (cg (procs s p)) 0); [lia|].
  set (s1 := with_proc s p _).
  assert (E : anchor_of s1 p = anchor_of s p).
  { unfold anchor_of, chain_of, s1. simpl. by rewrite upd_eq. }
  rewrite E. destruct (Z.eqb_spec (anchor_of s p) (-1)); [done|].
  unfold s1. simpl. rewrite !upd_eq. repeat split. intros y Hy. by rewrite !upd_ne.
Qed.

Lemma charge_same s p used :
  let s' := fst (cg_charge_runtime s p used) in
  procs s' = procs s /\ rqs s' = rqs s /\ current s' = current s /\ ticks s' = ticks s /\ allowed s' = allowed s.
Proof.
  unfold cg_charge_runtime. case_match; [done|]. generalize (chain_of s p) as l. intros l. generalize false as b.
  clear H. revert s. induction l as [|c l IH]; intros s b; [done|]. simpl.
  destruct (charge_one (cgs s c) used (ticks s)) as [g th].
  destruct (IH (with_cg s c g) (b || th)) as (-> & -> & -> & -> & ->). done.
Qed.

(** Only a task in a cgroup is charged. *)
Lemma charge_cg s p used : snd (cg_charge_runtime s p used) = true -> 0 <= cg (procs (fst (cg_charge_runtime s p used)) p).
Proof.
  destruct (charge_same s p used) as (-> & _). unfold cg_charge_runtime.
  destruct (Z.ltb_spec (cg (procs s p)) 0); [done|]. intros _. lia.
Qed.

(** ** Waking *)

Lemma pick_cpu_range A p : is_cpu (proc_pick_cpu A p).
Proof.
  unfold proc_pick_cpu. destruct (List.find _ (seqZ 0 NR_RQ)) as [i|] eqn:E; [|unfold is_cpu, NR_RQ; lia].
  apply List.find_some in E as [E _]. apply list_elem_of_In, elem_of_seqZ in E. unfold is_cpu. lia.
Qed.

Lemma settle_ok A p pr :
  is_cpu (rq_cpu (settle A p pr)) /\ pid (settle A p pr) = pid pr /\ on_cpu (settle A p pr) = on_cpu pr.
Proof.
  unfold settle. set (c := (rq_cpu pr <? 0) || _ || _).
  assert (H : is_cpu (rq_cpu (if c then set_rq_cpu (proc_pick_cpu A p) pr else pr))).
  { destruct c eqn:E; [apply pick_cpu_range|]. unfold c in E. rewrite !orb_false_iff in E.
    destruct E as [[E1 E2] _]. unfold is_cpu. bdestr; lia. }
  destruct c; case_match; done.
Qed.

Lemma enqueue_body_inv s p :
  sched_inv s -> is_slot p -> parked (state (procs s p)) -> fresh_pid (procs s) p ->
  let s' := enqueue_body s p in
  sched_inv s' /\ agree_off p (procs s) (procs s') /\ current s' = current s /\ ticks s' = ticks s /\
  state (procs s' p) = PROC_READY /\ on_cpu (procs s' p) = on_cpu (procs s p).
Proof.
  intros I Hs Hpk Hu. unfold enqueue_body.
  destruct (settle_ok (allowed s) p (procs s p)) as (Hq & Hpid & Hon).
  set (pr := settle (allowed s) p (procs s p)) in *.
  destruct (rq_enqueue (upd (procs s) p pr) (rqs s (rq_cpu pr)) p) as [P q] eqn:E. simpl.
  pose proof E as E'. apply (f_equal fst) in E'. simpl in E'. subst P. rewrite !upd_eq.
  split; [|split; [|split; [done|split; [done|split; [done|]]]]].
  - apply (inv_enqueue (procs s) (upd (procs s) p pr) _ _ _ _ _ _ p I Hq Hs Hpk Hu) with (3 := E); simpl.
    + intros y Hy. by rewrite upd_ne.
    + by rewrite upd_eq.
    + intros y Hy. by rewrite !upd_ne.
    + unfold same_key. rewrite !upd_eq. by generalize (place (rqs s (rq_cpu pr)) pr).
    + by rewrite upd_eq.
    + rewrite upd_eq. simpl. apply place_pid.
  - intros y Hy. by rewrite !upd_ne.
  - simpl. rewrite <- Hon. apply place_pid.
Qed.

Lemma enqueue_fresh_inv s p :
  sched_inv s -> is_slot p -> parked (state (procs s p)) -> fresh_pid (procs s) p ->
  let s' := enqueue_fresh s p in
  sched_inv s' /\ agree_off p (procs s) (procs s') /\ current s' = current s /\ ticks s' = ticks s /\
  state (procs s' p) = (if cg_chain_throttled s p then PROC_BLOCKED else PROC_READY).
Proof.
  intros I Hs Hpk Hu. unfold enqueue_fresh. cbn [enqueue_fresh_n].
  destruct (cg_chain_throttled s p) eqn:T; [|destruct (enqueue_body_inv s p) as (?&?&?&?&?&?); auto].
  cbn zeta. match goal with |- context [cg_park_with ?f s p] => generalize f end. intros enq.
  destruct (park_effect enq s p T) as (Ha & Hq & Hc & Ht & _ & Hst & _ & Hpid & _).
  split; [|done]. unfold sched_inv. rewrite Hq, Hc.
  apply (inv_parked (procs s) _ _ _ p I Ha Hpid Hpk Hu). by rewrite Hst.
Qed.

(** Updating a parked task in place. *)
Lemma with_parked s p pr :
  sched_inv s -> parked (state (procs s p)) -> fresh_pid (procs s) p -> pid pr = pid (procs s p) ->
  parked (state pr) -> sched_inv (with_proc s p pr).
Proof.
  intros I Hpk Hu Hpid Hpk'. unfold sched_inv. simpl. apply (inv_parked (procs s) _ _ _ p); auto.
  - intros y Hy. by rewrite upd_ne.
  - by rewrite upd_eq.
  - by rewrite upd_eq.
Qed.

(** Updating fields the scheduler does not look at. *)
Lemma with_view s p pr : sched_inv s -> same_view (procs s p) pr -> sched_inv (with_proc s p pr).
Proof.
  intros I Hv. unfold sched_inv. simpl. apply (inv_touch (procs s)); [|done]. intros x. unfold upd.
  destruct (Z.eqb_spec x p) as [->|]; [done|]. by repeat split.
Qed.

Lemma sched_wake_inv s p : sched_inv s -> is_slot p -> sched_inv (sched_wake s p).
Proof.
  intros I Hs. unfold sched_wake. case_bool_decide as Hb; [|done]. apply enqueue_fresh_inv; auto.
  - by apply with_view.
  - simpl. rewrite upd_eq. simpl. by rewrite Hb.
  - apply fresh_upd; [done|]. apply (inv_fresh _ _ _ _ I Hs). by rewrite Hb.
Qed.

Lemma enqueue_body_current s C p : enqueue_body (with_current s C) p = with_current (enqueue_body s p) C.
Proof. reflexivity. Qed.
Lemma enqueue_body_cur s p : current (enqueue_body s p) = current s.
Proof. reflexivity. Qed.

(** Parking from the running state: the caller has already made the task
    neither queued nor current. *)
Lemma cg_park_inv s C p :
  0 <= cg (procs s p) -> is_slot p -> fresh_pid (procs s) p ->
  (forall P', agree_off p (procs s) P' -> pid (P' p) = pid (procs s p) -> parked (state (P' p)) -> inv P' (rqs s) C) ->
  let s' := cg_park s p in
  inv (procs s') (rqs s') C /\ current s' = current s /\ ticks s' = ticks s /\
  on_cpu (procs s' p) = on_cpu (procs s p) /\
  (state (procs s' p) = PROC_READY \/ (state (procs s' p) = PROC_BLOCKED /\ wait_reason (procs s' p) = WAIT_CGROUP)).
Proof.
  intros Hcg Hs Hfr K. unfold cg_park, cg_park_with. destruct (Z.ltb_spec (cg (procs s p)) 0); [lia|].
  set (s1 := with_proc s p _).
  assert (I1 : sched_inv (with_current s1 C)).
  { apply K; simpl; rewrite ?upd_eq; [|done|done]. intros y Hy. by rewrite upd_ne. }
  destruct (Z.eqb_spec (anchor_of s1 p) (-1)) as [Ha|Ha]; cbn zeta.
  - assert (T : cg_chain_throttled s1 p = false).
    { destruct (cg_chain_throttled s1 p) eqn:T; [|done]. by apply throttled_anchor in T as []. }
    unfold enqueue_fresh. cbn [enqueue_fresh_n]. rewrite T.
    destruct (enqueue_body_inv (with_current s1 C) p I1 Hs) as (I2 & _ & _ & Ht & H1 & H2);
      [simpl; by rewrite upd_eq|by apply fresh_upd|].
    rewrite enqueue_body_current in I2, Ht, H1, H2.
    assert (O1 : on_cpu (procs s1 p) = on_cpu (procs s p)) by (simpl; by rewrite upd_eq).
    pose proof (enqueue_body_cur s1 p) as Hcur. rewrite <- O1. generalize dependent (enqueue_body s1 p).
    intros s2 I2 Ht H1 H2 Hcur.
    split; [exact I2|]. split; [exact Hcur|]. split; [exact Ht|]. split; [exact H2|left; exact H1].
  - simpl. rewrite !upd_eq. split; [|repeat split; auto]. apply K; simpl; rewrite ?upd_eq; [|done|done].
    intros y Hy. by rewrite !upd_ne.
Qed.

(** ** Dispatch *)

(** The state in which [schedule_locked] starts on core [c]: consistent but for
    the current task [p], whose state the caller may already have changed. *)
Record leaving (s : sched) (c p : Z) : Prop := {
  lv_inv : exists P0, inv P0 (rqs s) (current s) /\ agree_off p P0 (procs s) /\ pid (procs s p) = pid (P0 p);
  lv_cur : current s c = Some p;
  lv_cpu : is_cpu c;
  lv_on : on_cpu (procs s p) = c;
  lv_rq : rq_cpu (procs s p) = c;
  lv_state : state (procs s p) = PROC_RUNNING \/ (parked (state (procs s p)) /\ state (procs s p) <> PROC_UNUSED)
}.

Lemma home_of s c p : leaving s c p -> home_rq (procs s p) = c.
Proof.
  intros L. unfold home_rq. rewrite (lv_on _ _ _ L). pose proof (lv_cpu _ _ _ L) as H. unfold is_cpu in H.
  destruct (Z.leb_spec 0 c), (Z.ltb_spec c NR_RQ); simpl; lia.
Qed.

(** After [put_prev] the core is free: everything is consistent when its current
    task is taken to be none. *)
Lemma put_prev_inv s c p :
  leaving s c p -> is_slot p ->
  let s' := put_prev s p in
  inv (procs s') (rqs s') (upd (current s) c None) /\ current s' = current s /\ ticks s' = ticks s /\
  on_cpu (procs s' p) = c /\
  (if decide (state (procs s p) = PROC_RUNNING)
   then state (procs s' p) = PROC_READY \/ (state (procs s' p) = PROC_BLOCKED /\ wait_reason (procs s' p) = WAIT_CGROUP)
   else state (procs s' p) = state (procs s p)).
Proof.
  intros L Hs. pose proof (home_of _ _ _ L) as Hh. unfold put_prev, account. rewrite Hh.
  destruct (lv_inv _ _ _ L) as (P0 & I & Ha & Hpid). pose proof (lv_on _ _ _ L) as Hon. pose proof (lv_rq _ _ _ L) as Hrq.
  assert (Fr : fresh_pid P0 p).
  { destruct (inv_cur _ _ _ I c p (lv_cpu _ _ _ L) (lv_cur _ _ _ L)) as (_ & Hr0 & _).
    apply (inv_fresh _ _ _ _ I Hs). by rewrite Hr0. }
  set (q' := Rq _ _ _ _). set (pr' := set_last_run_tick _ _).
  pose proof (inv_clock _ _ _ c (vtime q') (min_vtime q') I) as I1.
  set (Q1 := upd (rqs s) c q') in *. change (inv P0 Q1 (current s)) in I1.
  assert (K : forall P', agree_off p P0 P' -> pid (P' p) = pid (P0 p) -> parked (state (P' p)) ->
    inv P' Q1 (upd (current s) c None)).
  { intros P'. apply inv_leave; [done|apply L|apply L]. }
  set (s1 := with_rq _ _ _). assert (E1 : procs s1 p = pr') by (simpl; by rewrite upd_eq).
  assert (A1 : agree_off p P0 (procs s1)) by (intros y Hy; simpl; rewrite upd_ne by done; auto).
  rewrite E1. change (state pr') with (state (procs s p)).
  destruct (decide (state (procs s p) = PROC_RUNNING)) as [Hr|Hr].
  2:{ rewrite bool_decide_false by done. split; [|by rewrite E1]. destruct (lv_state _ _ _ L) as [|[Hpk _]]; [done|].
      apply K; rewrite ?E1; auto. }
  rewrite bool_decide_true by done. fold pr'.
  set (pr2 := if _ <=? _ then _ else set_state PROC_READY pr').
  assert (E2 : state pr2 = PROC_READY /\ pid pr2 = pid (P0 p) /\ on_cpu pr2 = c /\ rq_cpu pr2 = c).
  { unfold pr2. case_match; unfold pr'; simpl; auto. }
  clearbody pr2. destruct E2 as (S2 & D2 & O2 & R2).
  destruct (cg_charge_runtime (with_proc s1 p pr2) p _) as [s2 th] eqn:Ec.
  match type of Ec with cg_charge_runtime ?a ?b ?u = _ => pose proof (charge_same a b u) as H; pose proof (charge_cg a b u) as Hcg end.
  rewrite Ec in H, Hcg. simpl in H, Hcg. destruct H as (Ep & Eq & Er & Et & Eal).
  assert (Ep2 : procs s2 p = pr2) by (rewrite Ep; by rewrite upd_eq).
  assert (A2 : agree_off p P0 (procs s2)) by (intros y Hy; rewrite Ep, upd_ne by done; by apply A1).
  change (home_rq pr') with (home_rq (procs s p)). rewrite Hh.
  destruct (th || cg_chain_throttled s2 p) eqn:Eth.
  - destruct (cg_park_inv s2 (upd (current s) c None) p) as (I3 & H1 & H2 & H3 & H4); [|done|..].
    + destruct th; [by apply Hcg|]. apply throttled_anchor in Eth. tauto.
    + apply (fresh_off P0); [done|congruence|done].
    + intros P' HP' Hd Hk. rewrite Eq. apply K; [|congruence|done]. intros y Hy. by rewrite HP', A2.
    + rewrite H1, H2, H3, Ep2. split; [done|]. split; [done|]. split; [done|]. split; [done|]. done.
  - destruct (rq_enqueue (procs s2) (rqs s2 c) p) as [P q] eqn:Ee. simpl.
    assert (EP : P = upd (procs s2) p (place (rqs s2 c) (procs s2 p))) by (by injection Ee as <- _).
    rewrite Eq in Ee |- *. simpl.
    destruct (place_pid (rqs s2 c) (procs s2 p)) as (B1 & B2 & B3 & B4 & B5 & B6).
    split; [|rewrite EP, upd_eq, B4, B6, Ep2; auto].
    set (Pb := upd P0 p (set_state PROC_BLOCKED (P0 p))).
    apply (inv_enqueue Pb (procs s2) P P Q1 _ c q p); auto; try (unfold Pb; simpl; rewrite upd_eq; done).
    + apply K; unfold Pb; simpl; rewrite ?upd_eq; [|done|done]. intros y Hy. by rewrite upd_ne.
    + apply L.
    + by apply fresh_upd.
    + intros y Hy. unfold Pb. by rewrite A2, upd_ne.
    + unfold Pb. rewrite upd_eq, Ep2. done.
    + intros y Hy. done.
    + by repeat split.
    + by rewrite EP, upd_eq, B4, Ep2.
    + by rewrite EP, upd_eq, B5, Ep2.
Qed.

(** The steal target: the fullest queue of the other cores. *)
Lemma fullest_spec Q c :
  (forall i, is_cpu i -> 0 <= count (Q i)) ->
  match fullest Q c with
  | None => forall i, is_cpu i -> i <> c -> count (Q i) = 0
  | Some b => is_cpu b /\ b <> c /\ count (Q b) <> 0 /\ forall i, is_cpu i -> i <> c -> count (Q i) <= count (Q b)
  end.
Proof.
  assert (E : forall i, is_cpu i <-> i ∈ seqZ 0 NR_RQ) by (intros; rewrite elem_of_seqZ; unfold is_cpu; lia).
  assert (K : (forall i, i ∈ seqZ 0 NR_RQ -> 0 <= count (Q i)) ->
    match fullest Q c with
    | None => forall i, i ∈ seqZ 0 NR_RQ -> i <> c -> count (Q i) = 0
    | Some b => b ∈ seqZ 0 NR_RQ /\ b <> c /\ count (Q b) <> 0 /\
        forall i, i ∈ seqZ 0 NR_RQ -> i <> c -> count (Q i) <= count (Q b)
    end).
  2:{ intros Hn. destruct (fullest Q c) as [b|].
      - destruct K as (? & ? & ? & ?); [intros; by apply Hn, E|]. repeat split; auto; [by apply E..|].
        intros i Hi. by apply H2, E.
      - intros i Hi. apply K; [intros; by apply Hn, E|by apply E]. }
  unfold fullest. generalize (seqZ 0 NR_RQ) as l. clear E.
  induction l as [|i l IH] using rev_ind; intros Hn;
    [simpl; intros i Hi; by apply not_elem_of_nil in Hi|]. rewrite fold_left_app. simpl.
  assert (Hi : 0 <= count (Q i)) by (apply Hn; set_solver).
  assert (Hl : forall j, j ∈ l -> 0 <= count (Q j)) by (intros; apply Hn; set_solver).
  specialize (IH Hl). destruct (fold_left _ l None) as [b|].
  - destruct IH as (Hb & Hbc & Hb0 & Hmax). pose proof (Hl b Hb).
    destruct (Z.eqb_spec i c) as [->|]; [|destruct (Z.eqb_spec (count (Q i)) 0); simpl;
      [|destruct (Z.ltb_spec (count (Q b)) (count (Q i)))]];
      (split; [set_solver|split; [done|split; [done|]]]);
      intros j; rewrite elem_of_app, list_elem_of_singleton; intros [Hj| ->] Hne; try lia; try done;
      specialize (Hmax j Hj Hne); lia.
  - destruct (Z.eqb_spec i c) as [->|]; [|destruct (Z.eqb_spec (count (Q i)) 0); simpl].
    + intros j. rewrite elem_of_app, list_elem_of_singleton. intros [Hj| ->] Hne; [auto|done].
    + intros j. rewrite elem_of_app, list_elem_of_singleton. intros [Hj| ->] Hne; auto.
    + split; [set_solver|]. split; [done|]. split; [done|]. intros j.
      rewrite elem_of_app, list_elem_of_singleton. intros [Hj| ->] Hne; [rewrite IH by done|]; lia.
Qed.

Lemma wf_count_nonneg P q : rq_wf P q -> 0 <= count q.
Proof. intros [_ _ ->]. unfold alen. lia. Qed.

Lemma wf_empty P q : rq_wf P q -> count q = 0 -> elems (root q) = [].
Proof. intros [_ _ ->]. unfold alen. destruct (elems (root q)); [done|]. simpl. lia. Qed.

(** Taking the picked task [x] off queue [q] for the free core [c]. *)
Lemma pick_run P Q C q c x P1 q1 :
  inv P Q C -> is_cpu q -> is_cpu c -> C c = None -> rq_pick_best P (Q q) = (P1, q1, Some x) ->
  is_slot x /\ agree_off x P P1 /\ pid (P1 x) = pid (P x) /\ on_cpu (P1 x) = on_cpu (P x) /\
  state (P x) = PROC_READY /\
  forall P', agree_off x P1 P' -> pid (P' x) = pid (P x) -> state (P' x) = PROC_RUNNING ->
    on_cpu (P' x) = c -> rq_cpu (P' x) = c -> inv P' (upd Q q q1) (upd C c (Some x)).
Proof.
  intros I Hq Hc HC E. pose proof (rq_pick_ok _ _ _ _ _ (inv_wf _ _ _ I q Hq) E) as (Ch & EP & W & El & _).
  destruct Ch as [Hx _]. destruct (inv_queued _ _ _ I q x Hq Hx) as (Hs & Hr & _).
  assert (A1 : agree_off x P P1) by (intros y Hy; by rewrite EP, upd_ne).
  assert (D1 : pid (P1 x) = pid (P x) /\ on_cpu (P1 x) = on_cpu (P x)) by (rewrite EP, upd_eq; done).
  destruct D1 as [D1 D2]. repeat (split; [done|]). intros P' A' Hpid Hst Hon Hrq.
  set (Pb := upd P1 x (set_state PROC_BLOCKED (P1 x))).
  assert (Ib : inv Pb (upd Q q q1) C).
  { apply (inv_unqueue P P1 Pb Q C q q1 x); auto; unfold Pb; simpl; rewrite ?upd_eq; auto; [|by split].
    intros y Hy. by rewrite upd_ne. }
  apply (inv_run Pb P' (upd Q q q1) C c x); auto.
  - unfold Pb. rewrite upd_eq. by split.
  - apply fresh_upd; [done|]. apply (fresh_off P); auto. apply (inv_fresh _ _ _ _ I Hs). by rewrite Hr.
  - intros y Hy. unfold Pb. by rewrite A', upd_ne.
  - unfold Pb. rewrite upd_eq. simpl. congruence.
Qed.

Lemma pick_next_inv s C c :
  inv (procs s) (rqs s) C -> is_cpu c -> C c = None ->
  let '(s', r) := pick_next s c in
  current s' = current s /\ ticks s' = ticks s /\
  match r with
  | None => inv (procs s') (rqs s') C /\ procs s' = procs s /\ forall q, is_cpu q -> elems (root (rqs s' q)) = []
  | Some x =>
      is_slot x /\ agree_off x (procs s) (procs s') /\ pid (procs s' x) = pid (procs s x) /\
      on_cpu (procs s' x) = on_cpu (procs s x) /\ rq_cpu (procs s' x) = c /\ state (procs s x) = PROC_READY /\
      forall P', agree_off x (procs s') P' -> pid (P' x) = pid (procs s x) -> state (P' x) = PROC_RUNNING ->
        on_cpu (P' x) = c -> rq_cpu (P' x) = c -> inv P' (rqs s') (upd C c (Some x))
  end.
Proof.
  intros I Hc HC. unfold pick_next. pose proof (fun i Hi => wf_count_nonneg _ _ (inv_wf _ _ _ I i Hi)) as Hn.
  destruct (rq_pick_best (procs s) (rqs s c)) as [[P q] r] eqn:E. destruct r as [x|].
  - destruct (pick_run _ _ _ _ c _ _ _ I Hc Hc HC E) as (Hs & A1 & D1 & D2 & Hr & K).
    simpl. split; [done|]. split; [done|]. rewrite !upd_eq. simpl.
    split; [done|]. split; [intros y Hy; rewrite upd_ne by done; by apply A1|]. repeat (split; [done|]).
    intros P' A'. apply K. intros y Hy. rewrite A', upd_ne by done. done.
  - pose proof (rq_pick_ok _ _ _ _ _ (inv_wf _ _ _ I c Hc) E) as (El & -> & ->).
    set (s1 := with_rq (with_procs s (procs s)) c (rqs s c)).
    assert (EQ : forall i, rqs s1 i = rqs s i) by (intros i; simpl; unfold upd; destruct (Z.eqb_spec i c) as [->|]; done).
    assert (I1 : inv (procs s1) (rqs s1) C) by (by apply (inv_ext (procs s) _ (rqs s) _ C C)).
    assert (Hn1 : forall i, is_cpu i -> 0 <= count (rqs s1 i)) by (intros; rewrite EQ; auto).
    pose proof (fullest_spec (rqs s1) c Hn1) as Hf. destruct (fullest (rqs s1) c) as [b|].
    + destruct Hf as (Hb & Hbc & Hb0 & _). rewrite EQ in Hb0 |- *.
      destruct (rq_pick_best (procs s1) (rqs s b)) as [[P2 q2] r2] eqn:E2. change (procs s1) with (procs s) in E2.
      destruct r2 as [x|].
      * rewrite <- EQ in E2. destruct (pick_run _ _ _ _ c _ _ _ I1 Hb Hc HC E2) as (Hs & A1 & D1 & D2 & Hr & K).
        split; [done|]. split; [done|]. simpl. rewrite !upd_eq. simpl.
        split; [done|]. split; [intros y Hy; rewrite upd_ne by done; by apply A1|]. repeat (split; [done|]).
        intros P' A'. apply K. intros y Hy. rewrite A', upd_ne by done. done.
      * exfalso. pose proof (rq_pick_ok _ _ _ _ _ (inv_wf _ _ _ I b Hb) E2) as (Elb & _).
        apply Hb0. rewrite (wf_count _ _ (inv_wf _ _ _ I b Hb)), Elb. done.
    + split; [done|]. split; [done|]. split; [done|]. split; [done|]. intros i Hi.
      destruct (Z.eq_dec i c) as [->|Hne]; [by rewrite EQ|]. apply (wf_empty (procs s)); [by apply I1|auto].
Qed.

Lemma drop_bkl_inv s o : sched_inv s -> sched_inv (drop_bkl s o).
Proof. intros I. destruct o as [p|]; [|done]. by apply with_view. Qed.

Lemma drop_bkl_fields s o :
  rqs (drop_bkl s o) = rqs s /\ current (drop_bkl s o) = current s /\ ticks (drop_bkl s o) = ticks s /\
  forall x, same_view (procs s x) (procs (drop_bkl s o) x).
Proof.
  destruct o as [p|]; [|done]. simpl. repeat (split; [done|]). intros x. unfold upd.
  destruct (Z.eqb_spec x p) as [->|]; by repeat split.
Qed.

(** The end of [schedule_locked]: the chosen task takes the core. *)
Lemma dispatch_inv s C c n prev pr :
  is_cpu c ->
  (forall P', agree_off n (procs s) P' -> pid (P' n) = pid (procs s n) -> state (P' n) = PROC_RUNNING ->
     on_cpu (P' n) = c -> rq_cpu (P' n) = c -> inv P' (rqs s) (upd C c (Some n))) ->
  (forall c', c' <> c -> current s c' = C c') ->
  pid pr = pid (procs s n) -> state pr = PROC_RUNNING -> on_cpu pr = c -> rq_cpu pr = c ->
  sched_inv (drop_bkl (with_current (with_proc s n pr) (upd (current s) c (Some n))) prev).
Proof.
  intros Hc K HC H1 H2 H3 H4. apply drop_bkl_inv. unfold sched_inv. simpl.
  eapply (inv_ext _ _ _ _ (upd C c (Some n))); [reflexivity|reflexivity| |].
  - intros c'. unfold upd. destruct (Z.eqb_spec c' c); [done|auto].
  - apply K; rewrite ?upd_eq; auto. intros y Hy. by rewrite upd_ne.
Qed.

Lemma schedule_inv s c :
  is_cpu c -> (current s c = None -> sched_inv s) ->
  (forall p, current s c = Some p -> leaving s c p /\ is_slot p) ->
  let '(s', o) := schedule_locked s c in
  sched_inv s' /\ (forall c', c' <> c -> current s' c' = current s c') /\
  match o with
  | Stay => current s c = None /\ current s' c = None /\ forall q, is_cpu q -> elems (root (rqs s' q)) = []
  | Idle => current s' c = None /\ forall q, is_cpu q -> elems (root (rqs s' q)) = []
  | Same => current s' c = current s c
  | Switch n _ => current s' c = Some n /\ current s c <> Some n
  end.
Proof.
  intros Hc HN HS. unfold schedule_locked. replace (c mod NR_RQ) with c
    by (symmetry; apply Z.mod_small; unfold is_cpu in Hc; lia).
  set (s1 := match current s c with Some p => put_prev s p | None => s end).
  set (C := upd (current s) c None).
  assert (H1 : inv (procs s1) (rqs s1) C /\ current s1 = current s /\
     forall p, current s c = Some p -> on_cpu (procs s1 p) = c /\ state (procs s1 p) <> PROC_RUNNING).
  { unfold s1, C. destruct (current s c) as [p|] eqn:Ec.
    - destruct (HS p eq_refl) as [L Hs]. destruct (put_prev_inv s c p L Hs) as (I & H1 & _ & H2 & H3).
      split; [done|]. split; [done|]. intros p' [= <-]. split; [done|].
      destruct (decide _) as [Hr|Hr]; [destruct H3 as [->|[-> _]]; done|]. by rewrite H3.
    - split; [|done]. eapply (inv_ext _ _ _ _ (current s)); [reflexivity|reflexivity| |by apply HN].
      intros c'. unfold upd. destruct (Z.eqb_spec c' c) as [->|]; done. }
  destruct H1 as (I1 & Hcur & Hprev). assert (HC : C c = None) by apply upd_eq.
  pose proof (pick_next_inv s1 C c I1 Hc HC) as H2. destruct (pick_next s1 c) as [s2 next]. destruct H2 as (E2 & _ & H2).
  rewrite Hcur in E2. destruct next as [n|].
  - destruct H2 as (Hs & A2 & D1 & D2 & D3 & Hr & K).
    assert (HCo : forall c', c' <> c -> current s2 c' = C c') by (intros c' Hc'; unfold C; by rewrite upd_ne, E2).
    case_bool_decide as Hp.
    + destruct (drop_bkl_fields (with_proc s2 n (set_state PROC_RUNNING (procs s2 n))) (current s c)) as (_ & F2 & _).
      split; [|rewrite F2; simpl; rewrite E2; done].
      apply drop_bkl_inv. unfold sched_inv. simpl.
      eapply (inv_ext _ _ _ _ (upd C c (Some n))); [reflexivity|reflexivity| |].
      * intros c'. unfold C, upd. rewrite E2. destruct (Z.eqb_spec c' c) as [->|]; done.
      * destruct (Hprev n Hp) as [Hon _]. apply K; rewrite ?upd_eq; simpl; auto; [|congruence].
        intros y Hy. by rewrite upd_ne.
    + simpl. rewrite upd_eq. set (pr' := set_on_cpu c _).
      set (s3 := with_current _ _). destruct (drop_bkl_fields s3 (current s c)) as (_ & F2 & _). rewrite F2. simpl.
      split; [|split; [intros c' Hc'; rewrite upd_ne, E2 by done; done|rewrite upd_eq; done]].
      set (s2' := with_proc s2 n (set_state PROC_RUNNING (procs s2 n))).
      change (sched_inv (drop_bkl (with_current (with_proc s2' n pr') (upd (current s2') c (Some n))) (current s c))).
      apply (dispatch_inv s2' C); auto; try (unfold s2'; simpl; rewrite upd_eq; done).
      intros P' A' Hpid. apply K; [|rewrite Hpid; unfold s2'; simpl; rewrite upd_eq; exact D1].
      intros y Hy. rewrite A' by done. unfold s2'. simpl. by rewrite upd_ne.
  - destruct H2 as (I2 & EP & Hempty). destruct (current s c) as [p|] eqn:Ec.
    + destruct (Hprev p eq_refl) as [_ Hnr]. rewrite EP, bool_decide_false by done.
      split; [|simpl; rewrite upd_eq; split; [intros c' Hc'; by rewrite upd_ne, E2|done]].
      unfold sched_inv. simpl. apply (inv_touch (procs s2)).
      * intros x. destruct (drop_bkl_fields s2 (Some p)) as (_ & _ & _ & F4). apply F4.
      * eapply (inv_ext _ _ _ _ C); [reflexivity|reflexivity| |exact I2]. intros c'. unfold C. by rewrite E2.
    + split; [|rewrite E2; done]. eapply (inv_ext _ _ _ _ C); [reflexivity|reflexivity| |exact I2].
      intros c'. unfold C, upd. rewrite E2. destruct (Z.eqb_spec c' c) as [->|]; done.
Qed.
