(* ===== verification/SchedSafe.v ===== *)
(** * Safety of the scheduler's entry points

    Each entry point of SchedOps preserves the invariant of SchedInv; by rule
    induction it holds in every state reachable from boot.  The properties of
    the dispatcher (it is work conserving, a task runs on one core at a time)
    and the accounting of cpu.max follow. *)
From S2P Require Import Prelude Sched SchedOps SchedInv.
#[local] Open Scope Z_scope.
#[local] Arguments place : simpl never.

Lemma leaving_of s s' c p :
  sched_inv s -> is_cpu c -> current s c = Some p ->
  rqs s' = rqs s -> current s' = current s -> agree_off p (procs s) (procs s') ->
  pid (procs s' p) = pid (procs s p) -> on_cpu (procs s' p) = on_cpu (procs s p) ->
  rq_cpu (procs s' p) = rq_cpu (procs s p) ->
  state (procs s' p) = PROC_RUNNING \/ (parked (state (procs s' p)) /\ state (procs s' p) <> PROC_UNUSED) ->
  leaving s' c p /\ is_slot p.
Proof.
  intros I Hc Hcur Hq HC Ha H1 H2 H3 H4. destruct (inv_cur _ _ _ I c p Hc Hcur) as (Hs & Hr & Hon & Hrq).
  split; [|done]. constructor; [|congruence|done|congruence|congruence|done].
  exists (procs s). rewrite Hq, HC. done.
Qed.

Lemma leaving_running s c p : sched_inv s -> is_cpu c -> current s c = Some p -> leaving s c p /\ is_slot p.
Proof.
  intros I Hc Hcur. destruct (inv_cur _ _ _ I c p Hc Hcur) as (_ & Hr & _). apply (leaving_of s); auto.
  intros y Hy. done.
Qed.

(** [schedule_locked] from a consistent state. *)
Lemma schedule_safe s c : is_cpu c -> sched_inv s -> sched_inv (fst (schedule_locked s c)).
Proof.
  intros Hc I. pose proof (schedule_inv s c Hc (fun _ => I) (fun p => leaving_running s c p I Hc)) as H.
  destruct (schedule_locked s c) as [s' o]. apply H.
Qed.

Lemma yield_safe s c : is_cpu c -> sched_inv s -> sched_inv (fst (sched_yield s c)).
Proof. intros Hc I. apply schedule_safe; [done|]. by apply drop_bkl_inv. Qed.

(** Blocking: the current task changes state just before [schedule_locked]. *)
Lemma block_safe s s' c p :
  sched_inv s -> is_cpu c -> current s c = Some p ->
  rqs s' = rqs s -> current s' = current s -> agree_off p (procs s) (procs s') ->
  pid (procs s' p) = pid (procs s p) -> on_cpu (procs s' p) = on_cpu (procs s p) ->
  rq_cpu (procs s' p) = rq_cpu (procs s p) -> state (procs s' p) = PROC_BLOCKED ->
  sched_inv (fst (schedule_locked s' c)).
Proof.
  intros I Hc Hcur Hq HC Ha H1 H2 H3 H4.
  pose proof (schedule_inv s' c Hc) as H. destruct (schedule_locked s' c) as [s2 o]. apply H.
  - rewrite HC. congruence.
  - rewrite HC. intros p' Hp'. assert (p' = p) as -> by congruence.
    apply (leaving_of s); auto. right. by rewrite H4.
Qed.

Lemma sched_block_safe s c why : is_cpu c -> sched_inv s -> sched_inv (fst (sched_block s c why)).
Proof.
  intros Hc I. unfold sched_block. destruct (current s c) as [p|] eqn:E; [|done].
  apply (block_safe s _ c p); auto; simpl; rewrite ?upd_eq; try done. intros y Hy. by rewrite !upd_ne.
Qed.

Lemma sched_block_timeout_safe s c why t :
  is_cpu c -> sched_inv s -> sched_inv (fst (sched_block_timeout s c why t)).
Proof.
  intros Hc I. unfold sched_block_timeout. destruct (current s c) as [p|] eqn:E; [|done].
  apply (block_safe s _ c p); auto; simpl; rewrite ?upd_eq; try done. intros y Hy. by rewrite !upd_ne.
Qed.

(** ** The tick *)

Lemma account_safe s p : sched_inv s -> sched_inv (fst (account s p)).
Proof.
  intros I. unfold account. simpl. unfold sched_inv. simpl. apply inv_clock.
  apply (inv_touch (procs s)); [|done]. intros x. unfold upd. destruct (Z.eqb_spec x p) as [->|]; by repeat split.
Qed.

(** Taking the best task off a queue and putting it straight back. *)
Lemma repick_inv P Q C i P1 q1 o P2 q2 :
  inv P Q C -> is_cpu i -> rq_pick_best P (Q i) = (P1, q1, Some o) ->
  rq_enqueue P1 q1 o = (P2, q2) -> inv P2 (upd (upd Q i q1) i q2) C.
Proof.
  intros I Hi E1 E2. pose proof (rq_pick_ok _ _ _ _ _ (inv_wf _ _ _ I i Hi) E1) as ((Ho & _) & EP & W & El & _).
  destruct (inv_queued _ _ _ I i o Hi Ho) as (Hs & Hr & Hrq).
  assert (A1 : agree_off o P P1) by (intros y Hy; by rewrite EP, upd_ne).
  assert (D : pid (P1 o) = pid (P o) /\ state (P1 o) = PROC_READY /\ rq_cpu (P1 o) = i) by (rewrite EP, upd_eq; done).
  destruct D as (D1 & D2 & D3). set (Pb := upd P1 o (set_state PROC_BLOCKED (P1 o))).
  assert (Ib : inv Pb (upd Q i q1) C).
  { apply (inv_unqueue P P1 Pb Q C i q1 o); auto; unfold Pb; simpl; rewrite ?upd_eq; auto; [|by split].
    intros y Hy. by rewrite upd_ne. }
  assert (EP2 : P2 = upd P1 o (place q1 (P1 o))) by (by injection E2 as <- _).
  destruct (place_pid q1 (P1 o)) as (B1 & B2 & B3 & B4 & B5 & B6).
  apply (inv_enqueue Pb P1 P2 P2 (upd Q i q1) C i q2 o); auto.
  - unfold Pb. rewrite upd_eq. by split.
  - apply fresh_upd; [done|]. apply (fresh_off P); auto. apply (inv_fresh _ _ _ _ I Hs). by rewrite Hr.
  - intros y Hy. unfold Pb. by rewrite upd_ne.
  - unfold Pb. by rewrite upd_eq.
  - by rewrite upd_eq.
  - intros y Hy. done.
  - by repeat split.
  - by rewrite EP2, upd_eq, B4.
  - by rewrite EP2, upd_eq, B5.
Qed.

Lemma home_is_cpu pr : is_cpu (home_rq pr).
Proof. unfold home_rq, is_cpu, NR_RQ. destruct (Z.leb_spec 0 (on_cpu pr)), (Z.ltb_spec (on_cpu pr) 4); simpl; lia. Qed.

Lemma sched_tick_safe s c : is_cpu c -> sched_inv s -> sched_inv (fst (sched_tick s c)).
Proof.
  intros Hc I. unfold sched_tick. destruct (current s c) as [p|] eqn:E; [|done].
  pose proof (account_safe s p I) as I1. destruct (account s p) as [s1 used]. simpl in I1.
  destruct (charge_same s1 p used) as (C1 & C2 & C3 & _). destruct (cg_charge_runtime s1 p used) as [s2 th].
  simpl in C1, C2, C3. assert (I2 : sched_inv s2) by (unfold sched_inv; by rewrite C1, C2, C3).
  pose proof (home_is_cpu (procs s p)) as Hh. generalize dependent (home_rq (procs s p)). intros i Hh.
  destruct (rq_pick_best (procs s2) (rqs s2 i)) as [[P q] owed] eqn:Ep. simpl rqs.
  set (s4 := match owed with Some o => _ | None => _ end).
  assert (I4 : sched_inv s4).
  { unfold s4. destruct owed as [o|].
    - simpl. rewrite upd_eq. destruct (rq_enqueue P q o) as [P' q'] eqn:Ee. unfold sched_inv. simpl.
      by apply (repick_inv (procs s2) _ _ i P q o).
    - pose proof (rq_pick_ok _ _ _ _ _ (inv_wf _ _ _ I2 i Hh) Ep) as (_ & -> & ->). unfold sched_inv. simpl.
      apply (inv_ext (procs s2) _ (rqs s2) _ (current s2)); auto. intros j. unfold upd.
      destruct (Z.eqb_spec j i) as [->|]; done. }
  clearbody s4. case_match; [by apply schedule_safe|done].
Qed.

(** ** Waking, signals, timeouts *)

Lemma fold_safe {A} (f : sched -> A -> sched) l :
  (forall s a, a ∈ l -> sched_inv s -> sched_inv (f s a)) ->
  forall s, sched_inv s -> sched_inv (fold_left f l s).
Proof.
  induction l as [|a l IH]; intros H s I; [done|]. simpl. apply IH; [|apply H; [left|done]].
  intros s' b Hb. apply H. by right.
Qed.

Lemma slot_elem i : i ∈ seqZ 0 MAX_PROCS -> is_slot i.
Proof. rewrite elem_of_seqZ. unfold is_slot. lia. Qed.

Lemma wake_if_safe test s : sched_inv s -> sched_inv (wake_if test s).
Proof.
  apply fold_safe. intros s' i Hi I. apply slot_elem in Hi. case_match; [by apply sched_wake_inv|done].
Qed.

(** Making a stopped task runnable after an update of its bookkeeping. *)
Lemma restart_safe s p pr :
  sched_inv s -> is_slot p -> same_view (procs s p) pr -> parked (state pr) -> state pr <> PROC_UNUSED ->
  sched_inv (enqueue_fresh (with_proc s p pr) p).
Proof.
  intros I Hs Hv Hpk Hu. apply enqueue_fresh_inv; auto.
  - by apply with_view.
  - simpl. by rewrite upd_eq.
  - apply fresh_upd; [apply Hv|]. apply (inv_fresh _ _ _ _ I Hs). destruct Hv as (<- & _). done.
Qed.

Lemma proc_signal_safe s p sig : is_slot p -> sched_inv s -> sched_inv (fst (proc_signal s p sig)).
Proof.
  intros Hs I. unfold proc_signal. destruct (_ || _); [done|].
  destruct (sig =? SIGCONT).
  - set (s1 := with_proc s p _). assert (I1 : sched_inv s1) by (by apply with_view).
    case_bool_decide as Hst; [|done]. destruct (_ && _); [done|]. cbn [fst].
    assert (E1 : state (procs s1 p) = PROC_STOPPED) by (simpl; rewrite upd_eq; done).
    apply restart_safe; auto; [by repeat split|..]; change (state (set_reported false (procs s1 p))) with (state (procs s1 p));
      by rewrite E1.
  - destruct (negb _); [done|]. set (s1 := with_proc s p _).
    assert (I1 : sched_inv s1) by (by apply with_view).
    case_bool_decide as Hb; [by apply sched_wake_inv|]. case_bool_decide as Hst; simpl; [|done].
    destruct (sig =? SIGKILL); [|done]. apply restart_safe; auto; [by repeat split|..]; simpl; by rewrite Hst.
Qed.

Lemma group_safe s pg sig : sched_inv s -> sched_inv (fst (proc_signal_group s pg sig)).
Proof.
  intros I. unfold proc_signal_group.
  match goal with |- sched_inv (fst (fold_left ?f _ _)) => assert (K : forall l n s, (forall i, i ∈ l -> is_slot i) ->
    sched_inv s -> sched_inv (fst (fold_left f l (s, n)))) end.
  { clear. induction l as [|i l IH]; intros n s Hl I; [exact I|]. simpl.
    assert (Hl' : forall i, i ∈ l -> is_slot i) by (intros; apply Hl; by right).
    destruct (_ || _); apply IH; auto. apply proc_signal_safe; [apply Hl; left|done]. }
  apply K; [apply slot_elem|done].
Qed.

Lemma expire_one_safe now s i : is_slot i -> sched_inv s -> sched_inv (expire_one now s i).
Proof.
  intros Hi I. unfold expire_one. set (s1 := if _ && _ then _ else s).
  assert (I1 : sched_inv s1).
  { unfold s1. destruct (_ && _); [|done]. apply proc_signal_safe; [done|]. by apply with_view. }
  clearbody s1. destruct (_ && _); [by apply sched_wake_inv|done].
Qed.

Lemma sched_enqueue_safe s p :
  sched_inv s -> is_slot p -> parked (state (procs s p)) -> state (procs s p) <> PROC_UNUSED ->
  sched_inv (sched_enqueue s p).
Proof.
  intros I Hs Hpk Hu. pose proof (inv_fresh _ _ _ _ I Hs Hu) as Hf. unfold sched_enqueue.
  destruct (cg_chain_throttled s p) eqn:T; [|by apply enqueue_fresh_inv].
  unfold cg_park. destruct (park_effect enqueue_fresh s p T) as (Ha & Hq & Hc & _ & _ & Hst & _ & Hpid & _).
  unfold sched_inv. rewrite Hq, Hc. apply (inv_parked (procs s) _ _ _ p I Ha Hpid Hpk Hf). by rewrite Hst.
Qed.

Lemma release_one_safe s p : is_slot p -> sched_inv s -> sched_inv (release_one s p).
Proof.
  intros Hs I. unfold release_one. case_bool_decide as Hb; simpl; [|done]. destruct (bool_decide _); [|done].
  assert (I1 : forall v, sched_inv (with_proc s p (set_cg_park_next v (procs s p)))) by (intros; by apply with_view).
  destruct (_ =? _).
  - apply sched_enqueue_safe; auto; simpl; rewrite upd_eq; simpl; by rewrite Hb.
  - set (s1 := with_proc s p _). apply (with_view s1 p); [apply I1|by repeat split].
Qed.

Lemma proc_by_pid_slot s pd p : proc_by_pid s pd = Some p -> is_slot p.
Proof.
  unfold proc_by_pid. intros H. apply List.find_some in H as [H _]. by apply slot_elem, list_elem_of_In.
Qed.

Lemma release_walk_safe n : forall s pd, sched_inv s -> sched_inv (release_walk n s pd).
Proof.
  induction n as [|n IH]; intros s pd I; [done|]. simpl. destruct (pd =? -1); [done|].
  destruct (proc_by_pid s pd) as [p|] eqn:E; [|done]. apply IH, release_one_safe; [|done].
  by apply (proc_by_pid_slot s pd).
Qed.

Lemma cg_tick_refresh_safe s : sched_inv s -> sched_inv (cg_tick_refresh s).
Proof.
  apply fold_safe. intros s' i _ I. cbv beta zeta. destruct (_ || _); [done|]. destruct (_ && _); [|done].
  by apply release_walk_safe.
Qed.

Lemma expire_safe s : sched_inv s -> sched_inv (sched_expire_timeouts s).
Proof.
  intros I. unfold sched_expire_timeouts. apply fold_safe; [|by apply cg_tick_refresh_safe].
  intros s' i Hi. apply expire_one_safe. by apply slot_elem.
Qed.

(** A new task: a slot claimed by [proc_alloc] with a pid nobody uses, made
    runnable in cgroup [g] with weight [w]. *)
Definition spawn (s : sched) (busy next_pid g w : Z) : sched :=
  match proc_alloc s busy next_pid with
  | None => s
  | Some (s1, _, i) =>
      let pr := procs s1 i in
      let pr' := Proc (pid pr) (ppid pr) (pgid pr) (state pr) (wait_reason pr) (wake_tick pr) (wait_q pr)
        (itimer_expire pr) (itimer_interval pr) (sig_pending pr) (sig_ignored pr) (sig_mask pr) (stop_sig pr)
        (reported pr) (traced pr) (ptrace_stopped pr) (vruntime pr) (deadline pr) (slice pr) (last_run_tick pr)
        (vlag pr) (rq_cpu pr) (tprio pr) (pi_boost pr) (bkl_held pr) (on_cpu pr) g w (cg_park_next pr) in
      proc_make_runnable (with_proc s1 i pr') i
  end.

(** An unused slot may be rewritten. *)
Lemma inv_unused P P' Q C x :
  inv P Q C -> agree_off x P P' -> state (P x) = PROC_UNUSED -> state (P' x) = PROC_UNUSED -> inv P' Q C.
Proof.
  intros I Ha Hx Hx'. assert (Hpk : parked (state (P x))) by (by rewrite Hx).
  pose proof (fun q => parked_unqueued _ _ _ x q I Hpk) as Hq.
  pose proof (fun c => parked_not_current _ _ _ x c I Hpk) as Hc.
  constructor.
  - intros q Hqc. apply (rq_wf_ext P); [|by apply I]. intros y Hy. unfold same_key. rewrite Ha; [done|].
    intros ->. by apply (Hq q).
  - intros q p Hqc Hp. rewrite Ha; [by apply I|]. intros ->. by apply (Hq q).
  - intros p Hp Hs. destruct (decide (p = x)) as [->|Hne]; [congruence|]. rewrite Ha in * by done. by apply I.
  - intros c p Hcc Hp. rewrite Ha; [by apply I|]. intros ->. by apply (Hc c).
  - intros p Hp Hs. destruct (decide (p = x)) as [->|Hne]; [congruence|]. rewrite Ha in * by done. by apply I.
  - intros p p' Hp Hp' H1 H2. destruct (decide (p = x)) as [->|], (decide (p' = x)) as [->|]; try done.
    rewrite !Ha in * by done. by apply I.
Qed.

(** No task in use has pid [np]. *)
Definition unused_pid (s : sched) (np : Z) : Prop :=
  forall y, is_slot y -> state (procs s y) <> PROC_UNUSED -> pid (procs s y) <> np.

Lemma spawn_safe s busy np g w : sched_inv s -> unused_pid s np -> sched_inv (spawn s busy np g w).
Proof.
  intros I Hp. unfold spawn, proc_alloc. destruct (List.find _ _) as [i|] eqn:E; [|done].
  apply List.find_some in E as [Hi Hu]. apply list_elem_of_In, slot_elem in Hi.
  apply andb_true_iff in Hu as [Hu _]. apply bool_decide_eq_true in Hu.
  set (s1 := with_proc s i _). cbn zeta. set (pr := Proc _ _ _ _ _ _ _ _ _ _ _ _ _ _ _ _ _ _ _ _ _ _ _ _ _ _ _ _ _).
  assert (Epr : pid pr = np /\ state pr = PROC_UNUSED) by (unfold pr, s1; simpl; by rewrite upd_eq).
  clearbody pr. destruct Epr as [E1 E2]. apply enqueue_fresh_inv; simpl; rewrite ?upd_eq; auto.
  - apply (inv_unused (procs s) _ _ _ i); auto; simpl; rewrite ?upd_eq; auto. intros y Hy. by rewrite !upd_ne.
  - by rewrite E2.
  - intros y Hy Hne. rewrite upd_eq, !upd_ne, E1 by done. by apply Hp.
Qed.

Lemma slot_release_safe s busy p : sched_inv s -> is_slot p -> sched_inv (fst (slot_release s busy p)).
Proof.
  intros I Hs. unfold slot_release.
  assert (Ha : agree_off p (procs s) (upd (procs s) p (set_state PROC_UNUSED (procs s p))))
    by (intros y Hy; by rewrite upd_ne).
  destruct (state (procs s p)) eqn:E; try exact I.
  - apply (inv_unused (procs s) _ _ _ p); auto; simpl; by rewrite upd_eq.
  - apply (inv_parked (procs s) _ _ _ p); auto; simpl; rewrite ?upd_eq, ?E; try done.
    apply (inv_fresh _ _ _ _ I Hs). by rewrite E.
  - apply (inv_parked (procs s) _ _ _ p); auto; simpl; rewrite ?upd_eq, ?E; try done.
    apply (inv_fresh _ _ _ _ I Hs). by rewrite E.
Qed.

(** A task is killed by another one, as exit_group does to the leader: off its
    queue if it is on one, then a zombie. *)
Definition kill_task (s : sched) (p : Z) : sched :=
  let s1 := rq_remove s p in with_proc s1 p (set_state PROC_ZOMBIE (procs s1 p)).

Lemma kill_parked_safe s p : sched_inv s -> is_slot p -> parked (state (procs s p)) -> state (procs s p) <> PROC_UNUSED ->
  sched_inv (kill_task s p).
Proof.
  intros I Hs [Hr Hrun] Hu. unfold kill_task, rq_remove. rewrite bool_decide_false by done. cbn [negb orb].
  apply (inv_parked (procs s) _ _ _ p); auto; simpl; rewrite ?upd_eq; try done.
  - intros y Hy. by rewrite upd_ne.
  - by apply (inv_fresh _ _ _ _ I Hs).
Qed.

Lemma kill_queued_safe s p :
  sched_inv s -> is_slot p -> state (procs s p) = PROC_READY -> sched_inv (kill_task s p).
Proof.
  intros I Hs Hr. destruct (inv_ready _ _ _ I p Hs Hr) as [Hq Hin].
  unfold kill_task, rq_remove. rewrite bool_decide_true by done. simpl negb. unfold is_cpu in Hq.
  destruct (Z.ltb_spec (rq_cpu (procs s p)) 0); [lia|]. destruct (Z.leb_spec NR_RQ (rq_cpu (procs s p))); [lia|].
  simpl. unfold sched_inv. simpl. set (P1 := upd (procs s) p _).
  assert (W1 : rq_wf P1 (rqs s (rq_cpu (procs s p)))).
  { apply (rq_wf_ext (procs s)); [|by apply (inv_wf _ _ _ I)]. intros y _. apply set_vlag_key. }
  destruct (rq_take_ok P1 _ p W1 Hin) as (W2 & El & _).
  apply (inv_unqueue (procs s) P1 _ _ _ _ _ p I Hq Hin) with (2 := W2) (3 := El).
  - intros y Hy. unfold P1. by rewrite upd_ne.
  - intros y Hy. by rewrite !upd_ne.
  - unfold P1. by rewrite !upd_eq.
  - unfold P1. by rewrite !upd_eq.
Qed.

(** ** Reachability *)

(** One operation of the kernel on the scheduler state: an entry point called
    on some core, a tick of the clock, or a task created or killed.  There are
    as many cores as run queues, [NR_RQ], and a task that is running is not
    killed by another: the code allows both a fifth core and the death of a
    running leader, and what holds of the steps below then fails (see
    [fifth_core_misfiles] and [running_task_killed]). *)
Inductive sched_step (s : sched) : sched -> Prop :=
| st_tick_clock : sched_step s (with_ticks s (u64 (ticks s + 1)))
| st_tick c : is_cpu c -> sched_step s (fst (sched_tick s c))
| st_yield c : is_cpu c -> sched_step s (fst (sched_yield s c))
| st_block c why : is_cpu c -> sched_step s (fst (sched_block s c why))
| st_block_timeout c why t : is_cpu c -> sched_step s (fst (sched_block_timeout s c why t))
| st_resume c : is_cpu c -> sched_step s (bkl_return_from_switch s c)
| st_wake p : is_slot p -> sched_step s (sched_wake s p)
| st_wake_reason why : sched_step s (sched_wake_reason s why)
| st_wake_queue q : sched_step s (sched_wake_queue s q)
| st_signal p sig : is_slot p -> sched_step s (fst (proc_signal s p sig))
| st_signal_group pg sig : sched_step s (fst (proc_signal_group s pg sig))
| st_expire : sched_step s (sched_expire_timeouts s)
| st_affinity p m : sched_step s (Sched (procs s) (rqs s) (cgs s) (proc_set_cpu_mask (allowed s) p m) (current s) (ticks s))
| st_cpu_max g quota period : sched_step s (with_cg s g (cg_cpu_set_max (cgs s g) quota period (ticks s)))
| st_spawn busy np g w : unused_pid s np -> sched_step s (spawn s busy np g w)
| st_release busy p : is_slot p -> sched_step s (fst (slot_release s busy p))
| st_kill p : is_slot p -> state (procs s p) <> PROC_UNUSED -> state (procs s p) <> PROC_RUNNING -> sched_step s (kill_task s p).

(** Boot: no task, empty queues, idle cores. *)
Definition boot_sched (G : Z -> cgroup) : sched :=
  Sched (fun _ => blank_proc 0) (fun _ => Rq Leaf 0 0 0) G (fun _ => 0) (fun _ => None) 0.

Inductive reachable (G : Z -> cgroup) : sched -> Prop :=
| reach_boot : reachable G (boot_sched G)
| reach_step s s' : reachable G s -> sched_step s s' -> reachable G s'.

Lemma boot_safe G : sched_inv (boot_sched G).
Proof.
  constructor; simpl; try done.
  - intros q _. constructor; simpl; [constructor|done|done].
  - intros q p _ Hp. by apply not_elem_of_nil in Hp.
Qed.

Lemma step_safe s s' : sched_inv s -> sched_step s s' -> sched_inv s'.
Proof.
  intros I [|c Hc|c Hc|c why Hc|c why t Hc|c Hc|p Hp|why|q|p sig Hp|pg sig| |p m|g qt pe|busy np g w Hn|busy p Hp|p Hp Hu Hr]; auto;
    try exact I.
  - by apply sched_tick_safe.
  - by apply yield_safe.
  - by apply sched_block_safe.
  - by apply sched_block_timeout_safe.
  - unfold bkl_return_from_switch. destruct (current s c); [|done]. by apply with_view.
  - by apply sched_wake_inv.
  - by apply wake_if_safe.
  - by apply wake_if_safe.
  - by apply proc_signal_safe.
  - by apply group_safe.
  - by apply expire_safe.
  - by apply spawn_safe.
  - by apply slot_release_safe.
  - destruct (decide (state (procs s p) = PROC_READY)); [by apply kill_queued_safe|by apply kill_parked_safe].
Qed.

Lemma reachable_inv G s : reachable G s -> sched_inv s.
Proof. induction 1; [apply boot_safe|by eapply step_safe]. Qed.

(** ** cpu.max periods *)

Lemma rollover_loop_spec n : forall g now,
  0 < period_ticks g -> 0 <= period_start g -> now + period_ticks g < 2 ^ 64 -> period_start g + period_ticks g < 2 ^ 64 ->
  (now - period_start g) / period_ticks g < Z.of_nat n ->
  let g' := rollover_loop n g now in
  now < period_start g' + period_ticks g /\ (period_start g <= now -> period_start g' <= now) /\
  (exists k, 0 <= k /\ period_start g' = period_start g + k * period_ticks g) /\
  (if now <? period_start g + period_ticks g then g' = g else used_period g' = 0 /\ throttled g' = false) /\
  quota_ticks g' = quota_ticks g /\ period_ticks g' = period_ticks g /\ park_head g' = park_head g.
Proof.
  induction n as [|n IH]; intros g now Hp Hs Hn1 Hn2 Hn; simpl.
  - assert ((now - period_start g) / period_ticks g < 0) by lia.
    assert (now - period_start g < 0) by (destruct (Z.lt_ge_cases (now - period_start g) 0); [done|];
      pose proof (Z.div_pos (now - period_start g) (period_ticks g)); lia).
    destruct (Z.ltb_spec now (period_start g + period_ticks g)); [|lia].
    repeat split; try lia. exists 0. lia.
  - rewrite u64_small by lia. destruct (Z.ltb_spec now (period_start g + period_ticks g)) as [Hlt|Hge].
    + repeat split; try lia. exists 0. lia.
    + set (g1 := Cgroup _ _ _ _ _ _ _ _ _ _ _ _).
      assert (Hd : (now - period_start g) / period_ticks g = (now - period_start g1) / period_ticks g + 1).
      { unfold g1; simpl. rewrite <- Z.div_add by lia. f_equal. lia. }
      destruct (IH g1 now) as (H1 & H2 & (k & Hk & H3) & H4 & H5 & H6 & H7); unfold g1 in *; simpl in *; try lia.
      split; [done|]. split; [intros; apply H2; lia|].
      split; [exists (k + 1); lia|]. split; [|done].
      destruct (now <? _); [rewrite H4; done|done].
Qed.

(** ** Properties *)

(** C3: On a machine with at most four cores, in every state the scheduler
    reaches by the steps of [sched_step], in whatever order they come: ticks,
    yields, blocks and switches of the cores, wakeups, signals, timeouts,
    throttling, affinity and quota changes, task creation and release, and the
    killing of a task that is not running: each run queue is a well-formed treap with the
    right count; a task is READY exactly when it is on a run queue, and then on
    one queue only, the one it names; a task is RUNNING exactly when it is the
    current task of a core, and then of one core only.  The two restrictions are
    needed: there are four run queues, the code starts up to sixteen cores, and a
    fifth one files its task on a queue the task does not name (see
    [fifth_core_misfiles]); and exit_group by a thread makes a leader that runs
    on another core a zombie (see [running_task_killed]). *)
Theorem scheduler_consistent (G : Z -> cgroup) (s : sched) (R : reachable G s) :
  (forall q, is_cpu q -> rq_wf (procs s) (rqs s q)) /\
  forall p, is_slot p ->
    (state (procs s p) = PROC_READY <-> exists q, is_cpu q /\ p ∈ elems (root (rqs s q))) /\
    (forall q q', is_cpu q -> is_cpu q' -> p ∈ elems (root (rqs s q)) -> p ∈ elems (root (rqs s q')) -> q = q') /\
    (state (procs s p) = PROC_RUNNING <-> exists c, is_cpu c /\ current s c = Some p) /\
    (forall c c', is_cpu c -> is_cpu c' -> current s c = Some p -> current s c' = Some p -> c = c').
Proof.
  pose proof (reachable_inv _ _ R) as I. split; [apply I|]. intros p Hp. split; [split|split; [|split; [split|]]].
  - intros H. destruct (inv_ready _ _ _ I p Hp H). eauto.
  - intros (q & Hq & Hin). by destruct (inv_queued _ _ _ I q p Hq Hin) as (_ & ? & _).
  - intros q q' Hq Hq' H H'. destruct (inv_queued _ _ _ I q p Hq H) as (_ & _ & <-).
    by destruct (inv_queued _ _ _ I q' p Hq' H') as (_ & _ & <-).
  - apply (inv_running _ _ _ I p Hp).
  - intros (c & Hc & Hcur). by destruct (inv_cur _ _ _ I c p Hc Hcur) as (_ & ? & _).
  - intros c c' Hc Hc' H H'. destruct (inv_cur _ _ _ I c p Hc H) as (_ & _ & <- & _).
    by destruct (inv_cur _ _ _ I c' p Hc' H') as (_ & _ & <- & _).
Qed.

(** C35: The dispatcher is work conserving on a machine with at most four cores,
    as many as there are run queues.  In a state reached by the steps of
    [sched_step] (those cores' operations, and no killing of a running task), one
    of these cores that calls [schedule_locked] is left without a task only when
    every run queue is empty; otherwise it ends up with a RUNNING task, and no
    other core's current task changes. *)
Theorem schedule_work_conserving (G : Z -> cgroup) (s : sched) (c : Z) (R : reachable G s) (Hc : is_cpu c) :
  let '(s', o) := schedule_locked s c in
  (forall c', c' <> c -> current s' c' = current s c') /\
  (current s' c = None <-> o = Stay \/ o = Idle) /\
  (current s' c = None -> forall q, is_cpu q -> elems (root (rqs s' q)) = []) /\
  (forall p, current s' c = Some p -> state (procs s' p) = PROC_RUNNING /\ on_cpu (procs s' p) = c).
Proof.
  pose proof (reachable_inv _ _ R) as I.
  pose proof (schedule_inv s c Hc (fun _ => I) (fun p => leaving_running s c p I Hc)) as H.
  destruct (schedule_locked s c) as [s' o] eqn:E. destruct H as (I' & Hoth & Ho).
  split; [done|]. split; [|split].
  - destruct o as [| | |n f].
    + split; [auto|intros _; apply Ho].
    + split; [auto|intros _; apply Ho].
    + split; [|by intros [|]]. rewrite Ho. intros Hn. exfalso.
      unfold schedule_locked in E. rewrite Hn in E. destruct (pick_next s _) as [s2 [n|]]; [|done].
      by rewrite bool_decide_false in E.
    + destruct Ho as [-> _]. split; [done|by intros [|]].
  - intros Hn. destruct o as [| | |n f]; [apply Ho|apply Ho| |by destruct Ho as [? _]; congruence].
    exfalso. rewrite Ho in Hn. unfold schedule_locked in E. rewrite Hn in E.
    destruct (pick_next s _) as [s2 [n|]]; [|done]. by rewrite bool_decide_false in E.
  - intros p Hp. destruct (inv_cur _ _ _ I' c p Hc Hp) as (_ & ? & ? & _). done.
Qed.

(** A wakeup is never lost.  In a reachable state [sched_wake] of a blocked
    task whose cgroups are not throttled makes it READY on exactly the queue it
    names; when a cgroup on its path is throttled it is parked on a park list
    instead, blocked for that reason alone. *)
Theorem sched_wake_effect (G : Z -> cgroup) (s : sched) (p : Z) (R : reachable G s) (Hp : is_slot p)
  (Hb : state (procs s p) = PROC_BLOCKED) :
  let s' := sched_wake s p in
  if cg_chain_throttled s p
  then state (procs s' p) = PROC_BLOCKED /\ wait_reason (procs s' p) = WAIT_CGROUP /\ rqs s' = rqs s
  else state (procs s' p) = PROC_READY /\ p ∈ elems (root (rqs s' (rq_cpu (procs s' p)))).
Proof.
  pose proof (reachable_inv _ _ R) as I. cbn zeta. pose proof (sched_wake_inv s p I Hp) as I'. unfold sched_wake in *.
  rewrite bool_decide_true in * by done. set (s1 := with_proc s p _) in *.
  assert (I1 : sched_inv s1) by (by apply with_view).
  assert (T : cg_chain_throttled s1 p = cg_chain_throttled s p).
  { unfold cg_chain_throttled, chain_of, s1. simpl. by rewrite upd_eq. }
  assert (S1 : state (procs s1 p) = PROC_BLOCKED) by (unfold s1; simpl; by rewrite upd_eq).
  destruct (enqueue_fresh_inv s1 p I1 Hp) as (_ & _ & _ & _ & St); [by rewrite S1| |].
  { apply (inv_fresh _ _ _ _ I1 Hp). by rewrite S1. }
  rewrite T in St. destruct (cg_chain_throttled s p) eqn:Ht.
  - split; [done|]. unfold enqueue_fresh. cbn [enqueue_fresh_n]. rewrite T.
    match goal with |- context [cg_park_with ?f s1 p] => generalize f end. intros enq.
    destruct (park_effect enq s1 p T) as (_ & -> & _ & _ & _ & _ & -> & _). done.
  - split; [done|]. by apply (inv_ready _ _ _ I').
Qed.

(** Quota periods.  When a period of a limited cgroup has ended,
    [period_rollover] advances it by whole periods to the one that contains the
    current tick, and starts it with an empty budget and no throttle; a period
    still in progress is left alone.  The loop terminates. *)
Theorem period_rollover_spec (g : cgroup) (now : Z)
  (Hq : quota_ticks g <> 0) (Hp : 0 < period_ticks g) (Hs : 0 <= period_start g <= now)
  (Hn : now + period_ticks g < 2 ^ 64) :
  let g' := period_rollover g now in
  period_start g' <= now < period_start g' + period_ticks g' /\
  (period_start g' - period_start g) mod period_ticks g = 0 /\
  (now < period_start g + period_ticks g -> g' = g) /\
  (period_start g + period_ticks g <= now -> used_period g' = 0 /\ throttled g' = false).
Proof.
  unfold period_rollover. destruct (Z.eqb_spec (quota_ticks g) 0); [done|].
  destruct (Z.eqb_spec (period_ticks g) 0); [lia|]. simpl orb.
  destruct (rollover_loop_spec (rollover_fuel g now) g now) as (H1 & H2 & (k & Hk & H3) & H4 & H5 & H6 & _); try lia.
  { unfold rollover_fuel. rewrite Nat2Z.inj_succ, Z2Nat.id by (apply Z.div_pos; lia). lia. }
  cbn zeta iota. rewrite H6. split; [split; [apply H2; lia|done]|].
  split; [rewrite H3; replace (period_start g + k * period_ticks g - period_start g) with (k * period_ticks g) by lia;
    by apply Z.mod_mul|].
  destruct (Z.ltb_spec now (period_start g + period_ticks g)); split; intros; try lia; done.
Qed.

(** ** Witnesses and defects on concrete states *)

(** The root, and one throttled group with a quota of 1 tick in 10. *)
Definition demo_groups (c : Z) : cgroup :=
  if c =? 0 then Cgroup true (-1) 0 10 0 0 0 false 0 0 0 (-1)
  else if c =? 1 then Cgroup true 0 1 10 0 2 2 true 0 0 1 (-1)
  else Cgroup false (-1) 0 0 0 0 0 false 0 0 0 (-1).

(** Two tasks, pids 1 and 2, parked in the throttled group. *)
Definition demo_parked : sched := spawn (spawn (boot_sched demo_groups) 0 1 1 CG_NICE0) 1 2 1 CG_NICE0.

(** The period ends at tick 10 and the tick handler sweeps. *)
Definition period_ends (s : sched) : sched := sched_expire_timeouts (with_ticks s 10).

Definition states (s : sched) : proc_state * proc_state := (state (procs s 0), state (procs s 1)).

(** A signal to a throttled task strands the tasks parked behind it.  Two
    tasks parked on a throttled cgroup are both released when the period ends;
    but if the first of the list is sent a signal while parked, waking it parks
    it again on top of itself, the list loses its tail, and after the period
    has ended the second task stays blocked on an empty list of a cgroup that
    is no longer throttled. *)
Theorem signal_strands_parked :
  states (period_ends demo_parked) = (PROC_READY, PROC_READY) /\
  let s := period_ends (fst (proc_signal demo_parked 1 10)) in
  states s = (PROC_BLOCKED, PROC_READY) /\ wait_reason (procs s 0) = WAIT_CGROUP /\
  throttled (cgs s 1) = false /\ park_head (cgs s 1) = -1.
Proof. vm_compute. repeat split. Qed.

(** A cpu.max write that rolls the period over strands every parked task:
    [cg_cpu_set_max] clears the throttle without draining the park list, and
    the tick handler only drains the lists of throttled groups. *)
Theorem cpu_max_write_strands_parked :
  let s := with_ticks demo_parked 10 in
  let s' := sched_expire_timeouts (with_cg s 1 (cg_cpu_set_max (cgs s 1) 5 10 10)) in
  states s' = (PROC_BLOCKED, PROC_BLOCKED) /\ throttled (cgs s' 1) = false /\ park_head (cgs s' 1) <> -1.
Proof. vm_compute. repeat split. discriminate. Qed.

Lemma cpu0 : is_cpu 0.
Proof. done. Qed.
Lemma slot0 : is_slot 0.
Proof. done. Qed.

(** One unthrottled task, made runnable. *)
Definition demo_ready : sched := spawn (boot_sched demo_groups) 0 1 0 CG_NICE0.

Lemma demo_ready_reachable : reachable demo_groups demo_ready.
Proof.
  apply (reach_step _ (boot_sched demo_groups)); [constructor|].
  apply (st_spawn (boot_sched demo_groups) 0 1 0 CG_NICE0). intros y _ H. by destruct H.
Qed.

(** The same task dispatched on core 0, then blocked. *)
Definition demo_running : sched := fst (sched_yield demo_ready 0).
Definition demo_blocked : sched := fst (sched_block demo_running 0 WAIT_PIPE).

Lemma demo_blocked_reachable : reachable demo_groups demo_blocked.
Proof.
  apply (reach_step _ demo_running); [|exact (st_block demo_running 0 WAIT_PIPE cpu0)].
  apply (reach_step _ demo_ready); [apply demo_ready_reachable|exact (st_yield demo_ready 0 cpu0)].
Qed.

(** A fifth core (id 5) and core 1 each run a task; core 1's blocks and is woken
    on queue 1, and core 5 changes tasks. *)
Definition demo_fifth : sched :=
  let s := spawn (spawn (boot_sched demo_groups) 0 1 0 CG_NICE0) 1 2 0 CG_NICE0 in
  let s := fst (sched_yield (fst (sched_yield s 5)) 1) in
  fst (sched_yield (sched_wake (fst (sched_block s 1 WAIT_PIPE)) 1) 5).

(** A core without a queue of its own.  [schedule_locked] puts the task that
    core 5 leaves on queue 0, but the task names queue 1, the one core 5 picks
    from: when it is killed it is not found there, and a zombie stays on queue
    0. *)
Lemma fifth_core_misfiles :
  let s := demo_fifth in
  state (procs s 0) = PROC_READY /\ rq_cpu (procs s 0) = 1 /\ elems (root (rqs s 0)) = [0] /\ elems (root (rqs s 1)) = [] /\
  let s' := kill_task s 0 in state (procs s' 0) = PROC_ZOMBIE /\ elems (root (rqs s' 0)) = [0].
Proof. vm_compute. repeat split. Qed.

(** A running task killed by another core is still what its core runs. *)
Lemma running_task_killed : let s := kill_task demo_running 0 in current s 0 = Some 0 /\ state (procs s 0) = PROC_ZOMBIE.
Proof. vm_compute. repeat split. Qed.

Lemma scheduler_consistent_witness :
  state (procs demo_ready 0) = PROC_READY /\ exists q, is_cpu q /\ 0 ∈ elems (root (rqs demo_ready q)).
Proof.
  assert (H : state (procs demo_ready 0) = PROC_READY) by (vm_compute; reflexivity). split; [exact H|].
  destruct (scheduler_consistent demo_groups demo_ready demo_ready_reachable) as [_ K].
  apply (K 0 slot0). exact H.
Defined.

Lemma schedule_work_conserving_witness :
  snd (schedule_locked demo_ready 0) = Switch 0 true /\
  state (procs (fst (schedule_locked demo_ready 0)) 0) = PROC_RUNNING.
Proof.
  pose proof (schedule_work_conserving demo_groups demo_ready 0 demo_ready_reachable cpu0) as H.
  assert (E : snd (schedule_locked demo_ready 0) = Switch 0 true) by (vm_compute; reflexivity).
  assert (C : current (fst (schedule_locked demo_ready 0)) 0 = Some 0) by (vm_compute; reflexivity).
  destruct (schedule_locked demo_ready 0) as [s' o]. split; [exact E|].
  destruct H as (_ & _ & _ & H). apply (H 0 C).
Defined.

Lemma sched_wake_effect_witness :
  let s' := sched_wake demo_blocked 0 in
  state (procs s' 0) = PROC_READY /\ 0 ∈ elems (root (rqs s' (rq_cpu (procs s' 0)))).
Proof.
  assert (Hb : state (procs demo_blocked 0) = PROC_BLOCKED) by (vm_compute; reflexivity).
  assert (Ht : cg_chain_throttled demo_blocked 0 = false) by (vm_compute; reflexivity).
  pose proof (sched_wake_effect demo_groups demo_blocked 0 demo_blocked_reachable slot0 Hb) as H.
  cbn zeta in H. rewrite Ht in H. exact H.
Defined.

Lemma period_rollover_spec_witness : throttled (period_rollover (demo_groups 1) 25) = false.
Proof. apply (period_rollover_spec (demo_groups 1) 25); simpl; lia. Defined.
