(* ===== verification/SchedCalm.v ===== *)
(** * What the scheduler leaves alone

    The scheduler's operations move live tasks between the queues, the cores
    and the blocked states.  None of them creates or ends a task, changes a pid
    or a parent, or puts a task to sleep in waitpid: the relation [calm] says
    so, and every operation of SchedOps is shown to respect it. *)
From S2P Require Import Prelude Sched SchedOps SchedInv SchedSafe.
#[local] Open Scope Z_scope.
#[local] Arguments place : simpl never.

Definition alive (st : proc_state) : Prop := st <> PROC_UNUSED /\ st <> PROC_ZOMBIE.

(** Asleep in waitpid. *)
Definition waits_child (p : proc) : Prop := state p = PROC_BLOCKED /\ wait_reason p = WAIT_CHILD.

Record calm1 (a b : proc) : Prop := {
  calm_pid : pid b = pid a;
  calm_ppid : ppid b = ppid a;
  calm_alive : alive (state a) -> alive (state b);
  calm_dead : ~ alive (state a) -> state b = state a;
  calm_reason : wait_reason b = WAIT_CHILD -> wait_reason a = WAIT_CHILD;
  calm_waits : waits_child b -> waits_child a
}.

Definition calm (P P' : ptab) : Prop := forall x, calm1 (P x) (P' x).

Lemma alive_dec st : alive st \/ ~ alive st.
Proof. unfold alive. destruct st; naive_solver. Qed.

#[export] Instance calm1_refl : Reflexive calm1.
Proof. intros a. by constructor. Qed.
#[export] Instance calm1_trans : Transitive calm1.
Proof.
  intros a b c H H'. destruct H, H'. constructor; try congruence; auto.
  intros Ha. destruct (alive_dec (state b)); [|rewrite calm_dead1 by done; auto].
  exfalso. rewrite calm_dead0 in H by done. done.
Qed.
#[export] Instance calm_refl : Reflexive calm.
Proof. intros P x. reflexivity. Qed.
#[export] Instance calm_trans : Transitive calm.
Proof. intros P P' P'' H H' x. etransitivity; [apply H|apply H']. Qed.

Lemma calm_upd P p pr : calm1 (P p) pr -> calm P (upd P p pr).
Proof. intros H x. unfold upd. destruct (Z.eqb_spec x p) as [->|]; [done|reflexivity]. Qed.

Lemma calm_at P P' p : agree_off p P P' -> calm1 (P p) (P' p) -> calm P P'.
Proof. intros Ha H x. destruct (decide (x = p)) as [->|]; [done|]. rewrite Ha by done. reflexivity. Qed.

(** The fields of a task this file speaks of. *)
Definition calm_view (a b : proc) : Prop :=
  state b = state a /\ wait_reason b = wait_reason a /\ pid b = pid a /\ ppid b = ppid a.

Lemma view_calm a b : calm_view a b -> calm1 a b.
Proof. intros (H1 & H2 & H3 & H4). constructor; unfold waits_child; rewrite ?H1, ?H2; auto. Qed.

(** A live task moved to another live state. *)
Lemma live_calm a b :
  pid b = pid a -> ppid b = ppid a -> alive (state a) -> alive (state b) ->
  (wait_reason b = wait_reason a /\ state b <> PROC_BLOCKED) \/ wait_reason b <> WAIT_CHILD -> calm1 a b.
Proof.
  intros H1 H2 Ha Hb Hw. constructor; [done|done|done|done| |].
  - intros H. destruct Hw as [[<- _]|Hw]; done.
  - intros [Hs H]. destruct Hw as [[_ Hw]|Hw]; done.
Qed.

Lemma place_view q p : calm_view p (place q p).
Proof. unfold place. destruct (_ <? _); by repeat split. Qed.

Lemma rq_enqueue_calm P q p : calm P (fst (rq_enqueue P q p)).
Proof. apply calm_upd, view_calm, place_view. Qed.

Lemma settle_view A p pr : calm_view pr (settle A p pr).
Proof. unfold settle. destruct (_ || _ || _); destruct (_ =? 0); by repeat split. Qed.

(** The signals and the group of a task are not touched either. *)
Definition sig_view (a b : proc) : Prop :=
  pgid b = pgid a /\ sig_pending b = sig_pending a /\ sig_ignored b = sig_ignored a /\ sig_mask b = sig_mask a.

Lemma place_sig q p : sig_view p (place q p).
Proof. unfold place. destruct (_ <? _); by repeat split. Qed.
Lemma settle_sig A p pr : sig_view pr (settle A p pr).
Proof. unfold settle. destruct (_ || _ || _); destruct (_ =? 0); by repeat split. Qed.

(** What queueing does to the task, and to nobody else. *)
Lemma enqueue_body_task s p :
  agree_off p (procs s) (procs (enqueue_body s p)) /\
  exists pl, calm_view (procs s p) pl /\ sig_view (procs s p) pl /\
    procs (enqueue_body s p) p = set_state PROC_READY pl.
Proof.
  unfold enqueue_body. cbn zeta.
  set (pr := settle _ _ _). pose proof (settle_view (allowed s) p (procs s p) : calm_view _ pr) as V1.
  destruct (rq_enqueue _ _ _) as [P q] eqn:E. assert (EP : P = upd (upd (procs s) p pr) p (place (rqs s (rq_cpu pr)) pr)).
  { unfold rq_enqueue in E. rewrite upd_eq in E. by injection E as <- _. }
  pose proof (settle_sig (allowed s) p (procs s p) : sig_view _ pr) as V3.
  simpl. rewrite EP, upd_eq. set (pl := place _ pr). pose proof (place_view (rqs s (rq_cpu pr)) pr : calm_view _ pl) as V2.
  pose proof (place_sig (rqs s (rq_cpu pr)) pr : sig_view _ pl) as V4.
  clearbody pl pr. split; [intros y Hy; by rewrite !upd_ne|]. exists pl. rewrite !upd_eq.
  destruct V1 as (A1 & A2 & A3 & A4), V2 as (B1 & B2 & B3 & B4), V3 as (C1 & C2 & C3 & C4), V4 as (D1 & D2 & D3 & D4).
  repeat split; congruence.
Qed.

(** What parking does to the task. *)
Lemma park_task enq s p :
  cg_chain_throttled s p = true ->
  exists v, procs (cg_park_with enq s p) p =
    set_cg_park_next v (set_cg_park_next (-1) (set_wait_reason WAIT_CGROUP (set_state PROC_BLOCKED (procs s p)))).
Proof.
  intros H. apply throttled_anchor in H as [Hcg Ha]. unfold cg_park_with.
  destruct (Z.ltb_spec (cg (procs s p)) 0); [lia|]. cbv zeta. set (s1 := with_proc s p _).
  assert (E : anchor_of s1 p = anchor_of s p) by (unfold anchor_of, chain_of, s1; simpl; by rewrite upd_eq).
  rewrite E. destruct (Z.eqb_spec (anchor_of s p) (-1)); [done|]. unfold s1. simpl. rewrite !upd_eq. by eexists.
Qed.

(** What making a task runnable does to it. *)
Record queued_as (a b : proc) (th : bool) : Prop := {
  qa_pid : pid b = pid a;
  qa_ppid : ppid b = ppid a;
  qa_state : state b = if th then PROC_BLOCKED else PROC_READY;
  qa_reason : wait_reason b = if th then WAIT_CGROUP else wait_reason a
}.

Lemma enqueue_fresh_task s p :
  agree_off p (procs s) (procs (enqueue_fresh s p)) /\
  queued_as (procs s p) (procs (enqueue_fresh s p) p) (cg_chain_throttled s p).
Proof.
  unfold enqueue_fresh. cbn [enqueue_fresh_n]. destruct (cg_chain_throttled s p) eqn:T.
  - match goal with |- context [cg_park_with ?f s p] => generalize f end. intros enq.
    destruct (park_effect enq s p T) as (Ha & _). split; [exact Ha|].
    destruct (park_task enq s p T) as [v ->]. by constructor.
  - destruct (enqueue_body_task s p) as (Ha & pl & (H1 & H2 & H3 & H4) & _ & E). split; [exact Ha|].
    rewrite E. by constructor.
Qed.

Lemma enqueue_fresh_sig s p : sig_view (procs s p) (procs (enqueue_fresh s p) p).
Proof.
  unfold enqueue_fresh. cbn [enqueue_fresh_n]. destruct (cg_chain_throttled s p) eqn:T.
  - match goal with |- context [cg_park_with ?f s p] => generalize f end. intros enq.
    destruct (park_task enq s p T) as [v ->]. by repeat split.
  - destruct (enqueue_body_task s p) as (_ & pl & _ & H & ->). exact H.
Qed.

Lemma enqueue_fresh_calm s p : alive (state (procs s p)) -> calm (procs s) (procs (enqueue_fresh s p)).
Proof.
  intros Ha. destruct (enqueue_fresh_task s p) as [Hag [H1 H2 H3 H4]]. apply (calm_at _ _ p); [done|].
  destruct (cg_chain_throttled s p); apply live_calm; rewrite ?H3, ?H4; try done; [by right|by left].
Qed.

Lemma park_calm enq s p :
  cg_chain_throttled s p = true -> alive (state (procs s p)) -> calm (procs s) (procs (cg_park_with enq s p)).
Proof.
  intros T Ha. destruct (park_effect enq s p T) as (Hag & _). apply (calm_at _ _ p); [done|].
  destruct (park_task enq s p T) as [v ->]. apply live_calm; try done. by right.
Qed.

Lemma put_prev_calm s p : calm (procs s) (procs (put_prev s p)).
Proof.
  unfold put_prev. destruct (account s p) as [s1 used] eqn:Ea.
  assert (H1 : calm (procs s) (procs s1)).
  { unfold account in Ea. injection Ea as <- <-. simpl. apply calm_upd, view_calm. by repeat split. }
  transitivity (procs s1); [done|]. case_bool_decide as Hr; [|reflexivity].
  set (pr1 := set_state PROC_READY (procs s1 p)). set (pr2 := if _ <=? _ then _ else pr1).
  assert (E2 : pid pr2 = pid (procs s1 p) /\ ppid pr2 = ppid (procs s1 p) /\ state pr2 = PROC_READY /\
    wait_reason pr2 = wait_reason (procs s1 p)) by (unfold pr2, pr1; destruct (_ <=? _); done).
  clearbody pr2. destruct E2 as (E1 & E2 & E3 & E4).
  destruct (charge_same (with_proc s1 p pr2) p used) as (C1 & _). destruct (cg_charge_runtime _ p used) as [s2 th] eqn:Ec.
  pose proof (charge_cg (with_proc s1 p pr2) p used) as Hcg. rewrite Ec in Hcg.
  simpl in C1, Hcg. assert (H2 : calm (procs s1) (procs s2)).
  { rewrite C1. apply calm_upd, live_calm; auto; rewrite ?Hr, ?E3; try done. left. by rewrite E4. }
  transitivity (procs s2); [done|].
  assert (Hp : procs s2 p = pr2) by (rewrite C1; apply upd_eq).
  destruct (th || cg_chain_throttled s2 p) eqn:T.
  - unfold cg_park. unfold cg_park_with.
    destruct (cg (procs s2 p) <? 0); [reflexivity|]. cbn zeta. set (s3 := with_proc s2 p _).
    assert (H3 : calm (procs s2) (procs s3)).
    { apply calm_upd, live_calm; simpl; rewrite ?Hp, ?E3; try done. by right. }
    destruct (_ =? -1).
    + transitivity (procs s3); [done|]. apply enqueue_fresh_calm. simpl. by rewrite upd_eq.
    + simpl. transitivity (procs s3); [done|]. apply calm_upd, view_calm. by repeat split.
  - pose proof (rq_enqueue_calm (procs s2) (rqs s2 (home_rq (procs s1 p))) p) as H3.
    destruct (rq_enqueue _ _ _) as [P q]. exact H3.
Qed.

Lemma drop_bkl_calm s o : calm (procs s) (procs (drop_bkl s o)).
Proof. destruct o as [p|]; [|reflexivity]. apply calm_upd, view_calm. by repeat split. Qed.

Lemma rq_pick_calm P q : calm P (fst (fst (rq_pick_best P q))).
Proof.
  unfold rq_pick_best. destruct (tr_pick _ _ _ _) as [[elig fb] fbv]. destruct (match elig with Some _ => _ | None => _ end).
  - apply calm_upd, view_calm. by repeat split.
  - reflexivity.
Qed.

Lemma pick_next_calm s c : calm (procs s) (procs (fst (pick_next s c))).
Proof.
  unfold pick_next. pose proof (rq_pick_calm (procs s) (rqs s c)) as H1. destruct (rq_pick_best _ _) as [[P q] [x|]]; simpl in H1 |- *.
  - transitivity P; [done|]. apply calm_upd, view_calm. by repeat split.
  - destruct (fullest _ c) as [b|]; [|done]. pose proof (rq_pick_calm P (upd (rqs s) c q b)) as H2.
    destruct (rq_pick_best _ _) as [[P2 q2] [x|]]; simpl in H2 |- *; (transitivity P; [done|]); [|done].
    transitivity P2; [done|]. apply calm_upd, view_calm. by repeat split.
Qed.

(** [schedule_locked], also from a state in which the current task is leaving. *)
Lemma schedule_calm s c :
  is_cpu c -> (current s c = None -> sched_inv s) ->
  (forall p, current s c = Some p -> leaving s c p /\ is_slot p) ->
  calm (procs s) (procs (fst (schedule_locked s c))).
Proof.
  intros Hc HN HS. unfold schedule_locked. replace (c mod NR_RQ) with c
    by (symmetry; apply Z.mod_small; unfold is_cpu in Hc; lia).
  set (s1 := match current s c with Some p => put_prev s p | None => s end).
  assert (H1 : inv (procs s1) (rqs s1) (upd (current s) c None) /\ calm (procs s) (procs s1)).
  { unfold s1. destruct (current s c) as [p|] eqn:Ec.
    - destruct (HS p eq_refl) as [L Hs]. destruct (put_prev_inv s c p L Hs) as (I & _). split; [done|]. apply put_prev_calm.
    - split; [|reflexivity]. eapply (inv_ext _ _ _ _ (current s)); [reflexivity|reflexivity| |by apply HN].
      intros c'. unfold upd. destruct (Z.eqb_spec c' c) as [->|]; done. }
  destruct H1 as (I1 & H1). pose proof (pick_next_inv s1 _ c I1 Hc (upd_eq _ _ _)) as Hp.
  pose proof (pick_next_calm s1 c) as H2. destruct (pick_next s1 c) as [s2 next]. simpl in H2.
  assert (H3 : calm (procs s) (procs s2)) by (by transitivity (procs s1)).
  destruct next as [n|].
  - destruct Hp as (_ & _ & _ & _ & _ & _ & _ & Hr & _).
    destruct (H2 n) as [_ _ Hal _ _ _]. rewrite Hr in Hal. specialize (Hal ltac:(done)).
    set (s3 := with_proc s2 n _). assert (H4 : calm (procs s2) (procs s3)).
    { apply calm_upd, live_calm; try done. by left. }
    transitivity (procs s3); [by transitivity (procs s2)|]. case_bool_decide; simpl fst.
    + apply drop_bkl_calm.
    + etransitivity; [|apply drop_bkl_calm]. simpl. apply calm_upd, view_calm. by repeat split.
  - destruct (current s c) as [p|]; [|done]. case_bool_decide; [done|]. simpl fst.
    transitivity (procs s2); [done|]. apply (drop_bkl_calm s2 (Some p)).
Qed.

Lemma schedule_safe_calm s c : is_cpu c -> sched_inv s -> calm (procs s) (procs (fst (schedule_locked s c))).
Proof. intros Hc I. apply schedule_calm; auto. intros p. by apply leaving_running. Qed.

Lemma yield_calm s c : is_cpu c -> sched_inv s -> calm (procs s) (procs (fst (sched_yield s c))).
Proof.
  intros Hc I. unfold sched_yield. etransitivity; [apply drop_bkl_calm|]. apply schedule_safe_calm; [done|].
  by apply drop_bkl_inv.
Qed.

(** ** Blocking *)

(** The current task's slot is rewritten as a blocked one, then the core is
    given away. *)
Lemma calm_schedule_from s c p s1 :
  sched_inv s -> is_cpu c -> current s c = Some p -> rqs s1 = rqs s -> current s1 = current s ->
  agree_off p (procs s) (procs s1) -> pid (procs s1 p) = pid (procs s p) ->
  on_cpu (procs s1 p) = on_cpu (procs s p) -> rq_cpu (procs s1 p) = rq_cpu (procs s p) ->
  state (procs s1 p) = PROC_BLOCKED -> calm1 (procs s p) (procs s1 p) ->
  calm (procs s) (procs (fst (schedule_locked s1 c))).
Proof.
  intros I Hc Hcur Hq HC Ha H1 H2 H3 H4 H5. transitivity (procs s1); [by apply (calm_at _ _ p)|].
  apply schedule_calm; [done|rewrite HC; congruence|]. rewrite HC. intros p' Hp'.
  assert (p' = p) as -> by congruence. apply (leaving_of s); auto. right. by rewrite H4.
Qed.

Lemma current_running s c p : sched_inv s -> is_cpu c -> current s c = Some p -> state (procs s p) = PROC_RUNNING.
Proof. intros I Hc H. by destruct (inv_cur _ _ _ I c p Hc H) as (_ & ? & _). Qed.

Lemma sched_block_calm s c why :
  is_cpu c -> sched_inv s -> why <> WAIT_CHILD -> calm (procs s) (procs (fst (sched_block s c why))).
Proof.
  intros Hc I Hw. unfold sched_block. destruct (current s c) as [p|] eqn:E; [|reflexivity].
  pose proof (current_running s c p I Hc E) as Hr.
  apply (calm_schedule_from s c p); auto; simpl; rewrite ?upd_eq; try done; [intros y Hy; by rewrite !upd_ne|].
  apply live_calm; simpl; rewrite ?Hr; try done. by right.
Qed.

Lemma sched_block_timeout_calm s c why t :
  is_cpu c -> sched_inv s -> why <> WAIT_CHILD -> calm (procs s) (procs (fst (sched_block_timeout s c why t))).
Proof.
  intros Hc I Hw. unfold sched_block_timeout. destruct (current s c) as [p|] eqn:E; [|reflexivity].
  pose proof (current_running s c p I Hc E) as Hr.
  apply (calm_schedule_from s c p); auto; simpl; rewrite ?upd_eq; try done; [intros y Hy; by rewrite !upd_ne|].
  apply live_calm; simpl; rewrite ?Hr; try done. by right.
Qed.

Lemma sched_tick_calm s c : is_cpu c -> sched_inv s -> calm (procs s) (procs (fst (sched_tick s c))).
Proof.
  intros Hc I. unfold sched_tick. destruct (current s c) as [p|] eqn:E; [|reflexivity].
  pose proof (account_safe s p I) as I1. destruct (account s p) as [s1 used] eqn:Ea. simpl in I1.
  assert (H1 : calm (procs s) (procs s1)).
  { unfold account in Ea. injection Ea as <- _. simpl. apply calm_upd, view_calm. by repeat split. }
  destruct (charge_same s1 p used) as (C1 & C2 & C3 & _). destruct (cg_charge_runtime s1 p used) as [s2 th].
  simpl in C1, C2, C3. assert (I2 : sched_inv s2) by (unfold sched_inv; by rewrite C1, C2, C3).
  pose proof (home_is_cpu (procs s p)) as Hh. generalize dependent (home_rq (procs s p)). intros i Hh.
  pose proof (rq_pick_calm (procs s2) (rqs s2 i)) as H2.
  destruct (rq_pick_best (procs s2) (rqs s2 i)) as [[P q] owed] eqn:Ep. simpl rqs. simpl in H2. rewrite C1 in H2.
  set (s4 := match owed with Some o => _ | None => _ end).
  assert (I4 : sched_inv s4 /\ calm P (procs s4)).
  { unfold s4. destruct owed as [o|].
    - simpl. rewrite upd_eq. destruct (rq_enqueue P q o) as [P' q'] eqn:Ee.
      split; [|apply calm_upd, view_calm, place_view]. unfold sched_inv. simpl. by apply (repick_inv (procs s2) _ _ i P q o).
    - split; [|reflexivity]. pose proof (rq_pick_ok _ _ _ _ _ (inv_wf _ _ _ I2 i Hh) Ep) as (_ & -> & ->).
      unfold sched_inv. simpl. apply (inv_ext (procs s2) _ (rqs s2) _ (current s2)); auto. intros j. unfold upd.
      destruct (Z.eqb_spec j i) as [->|]; done. }
  destruct I4 as [I4 H3]. clearbody s4. assert (H4 : calm (procs s) (procs s4)).
  { transitivity (procs s1); [done|]. by transitivity P. }
  destruct (_ || _); [|done]. transitivity (procs s4); [done|]. by apply schedule_safe_calm.
Qed.

(** ** Waking, signals, timeouts *)

Lemma sched_wake_calm s p : calm (procs s) (procs (sched_wake s p)).
Proof.
  unfold sched_wake. case_bool_decide as Hb; [|reflexivity].
  etransitivity; [|apply enqueue_fresh_calm; simpl; rewrite upd_eq; simpl; by rewrite Hb].
  apply calm_upd, live_calm; simpl; rewrite ?Hb; try done. by right.
Qed.

Lemma fold_calm {A} (f : sched -> A -> sched) l :
  (forall s a, a ∈ l -> calm (procs s) (procs (f s a))) -> forall s, calm (procs s) (procs (fold_left f l s)).
Proof.
  induction l as [|a l IH]; intros H s; [reflexivity|]. simpl. transitivity (procs (f s a)); [apply H; left|].
  apply IH. intros s' b Hb. apply H. by right.
Qed.

Lemma wake_if_calm test s : calm (procs s) (procs (wake_if test s)).
Proof. apply fold_calm. intros s' i _. destruct (_ && _); [apply sched_wake_calm|reflexivity]. Qed.

Lemma proc_signal_calm s p sig : calm (procs s) (procs (fst (proc_signal s p sig))).
Proof.
  unfold proc_signal. destruct (_ || _); [reflexivity|]. destruct (sig =? SIGCONT).
  - case_bool_decide as Hst; [|apply calm_upd, view_calm; by repeat split].
    destruct (_ && _); [apply calm_upd, view_calm; by repeat split|]. cbn [fst].
    etransitivity; [|apply enqueue_fresh_calm; simpl; rewrite !upd_eq; simpl; by rewrite Hst].
    simpl. etransitivity; [apply calm_upd, view_calm|apply calm_upd, view_calm]; by repeat split.
  - destruct (negb _); [reflexivity|]. set (s1 := with_proc s p _).
    assert (H1 : calm (procs s) (procs s1)) by (apply calm_upd, view_calm; by repeat split).
    case_bool_decide as Hb; [transitivity (procs s1); [done|apply sched_wake_calm]|].
    case_bool_decide as Hst; simpl; [|done]. destruct (sig =? SIGKILL); [|done].
    transitivity (procs s1); [done|]. apply enqueue_fresh_calm. simpl. rewrite upd_eq. simpl. by rewrite Hst.
Qed.

Lemma group_calm s pg sig : calm (procs s) (procs (fst (proc_signal_group s pg sig))).
Proof.
  unfold proc_signal_group. generalize 0 at 2. generalize (seqZ 0 MAX_PROCS) as l. intros l. revert s.
  induction l as [|i l IH]; intros s n; [reflexivity|]. simpl. destruct (_ || _); [apply IH|].
  etransitivity; [|apply IH]. apply proc_signal_calm.
Qed.

Lemma expire_one_calm now s i : calm (procs s) (procs (expire_one now s i)).
Proof.
  unfold expire_one. set (s1 := if _ && _ then _ else s).
  assert (H1 : calm (procs s) (procs s1)).
  { unfold s1. destruct (_ && _); [|reflexivity]. etransitivity; [|apply proc_signal_calm].
    apply calm_upd, view_calm. by repeat split. }
  clearbody s1. destruct (_ && _); [|done]. transitivity (procs s1); [done|]. apply sched_wake_calm.
Qed.

Lemma release_one_calm s p : calm (procs s) (procs (release_one s p)).
Proof.
  unfold release_one. case_bool_decide as Hb; simpl; [|reflexivity]. destruct (bool_decide _); [|reflexivity].
  assert (H1 : forall v, calm (procs s) (upd (procs s) p (set_cg_park_next v (procs s p)))).
  { intros v. apply calm_upd, view_calm. by repeat split. }
  destruct (_ =? _).
  - etransitivity; [apply (H1 (-1))|]. set (s1 := with_proc s p _). change (calm (procs s1) (procs (sched_enqueue s1 p))).
    assert (Ha : alive (state (procs s1 p))) by (simpl; rewrite upd_eq; simpl; by rewrite Hb).
    unfold sched_enqueue. destruct (cg_chain_throttled s1 p) eqn:T; [by apply park_calm|by apply enqueue_fresh_calm].
  - simpl. etransitivity; [apply (H1 (-1))|]. apply calm_upd, view_calm. by repeat split.
Qed.

Lemma release_walk_calm n : forall s pd, calm (procs s) (procs (release_walk n s pd)).
Proof.
  induction n as [|n IH]; intros s pd; [reflexivity|]. simpl. destruct (pd =? -1); [reflexivity|].
  destruct (proc_by_pid s pd) as [p|]; [|reflexivity]. etransitivity; [apply release_one_calm|apply IH].
Qed.

Lemma cg_tick_refresh_calm s : calm (procs s) (procs (cg_tick_refresh s)).
Proof.
  apply fold_calm. intros s' i _. cbv beta zeta. destruct (_ || _); [reflexivity|]. destruct (_ && _); [|reflexivity].
  unfold release_parked. etransitivity; [|apply release_walk_calm]. reflexivity.
Qed.

Lemma expire_calm s : calm (procs s) (procs (sched_expire_timeouts s)).
Proof.
  unfold sched_expire_timeouts. etransitivity; [apply cg_tick_refresh_calm|]. apply fold_calm.
  intros s' i _. apply expire_one_calm.
Qed.

(** ** Every step *)

(** The steps of the scheduler that neither create nor end tasks and put nobody
    to sleep in waitpid: all of [sched_step] but its last three. *)
Inductive plain_step (s : sched) : sched -> Prop :=
| pl_clock : plain_step s (with_ticks s (u64 (ticks s + 1)))
| pl_tick c : is_cpu c -> plain_step s (fst (sched_tick s c))
| pl_yield c : is_cpu c -> plain_step s (fst (sched_yield s c))
| pl_block c why : is_cpu c -> why <> WAIT_CHILD -> plain_step s (fst (sched_block s c why))
| pl_block_timeout c why t :
    is_cpu c -> why <> WAIT_CHILD -> plain_step s (fst (sched_block_timeout s c why t))
| pl_resume c : is_cpu c -> plain_step s (bkl_return_from_switch s c)
| pl_wake p : is_slot p -> plain_step s (sched_wake s p)
| pl_wake_reason why : plain_step s (sched_wake_reason s why)
| pl_wake_queue q : plain_step s (sched_wake_queue s q)
| pl_signal p sig : is_slot p -> plain_step s (fst (proc_signal s p sig))
| pl_signal_group pg sig : plain_step s (fst (proc_signal_group s pg sig))
| pl_expire : plain_step s (sched_expire_timeouts s)
| pl_affinity p m :
    plain_step s (Sched (procs s) (rqs s) (cgs s) (proc_set_cpu_mask (allowed s) p m) (current s) (ticks s))
| pl_cpu_max g quota period : plain_step s (with_cg s g (cg_cpu_set_max (cgs s g) quota period (ticks s))).

Lemma plain_step_safe s s' : plain_step s s' -> sched_inv s -> sched_inv s'.
Proof.
  intros H I. apply (step_safe s); [done|]. destruct H.
  - exact (st_tick_clock s).
  - by apply st_tick.
  - by apply st_yield.
  - by apply st_block.
  - by apply st_block_timeout.
  - by apply st_resume.
  - by apply st_wake.
  - exact (st_wake_reason s why).
  - exact (st_wake_queue s q).
  - by apply st_signal.
  - exact (st_signal_group s pg sig).
  - exact (st_expire s).
  - exact (st_affinity s p m).
  - exact (st_cpu_max s g quota period).
Qed.

Lemma plain_step_calm s s' : plain_step s s' -> sched_inv s -> calm (procs s) (procs s').
Proof.
  intros H I. destruct H.
  - reflexivity.
  - by apply sched_tick_calm.
  - by apply yield_calm.
  - by apply sched_block_calm.
  - by apply sched_block_timeout_calm.
  - unfold bkl_return_from_switch. destruct (current s c); [|reflexivity]. apply calm_upd, view_calm. by repeat split.
  - apply sched_wake_calm.
  - apply wake_if_calm.
  - apply wake_if_calm.
  - apply proc_signal_calm.
  - apply group_calm.
  - apply expire_calm.
  - reflexivity.
  - reflexivity.
Qed.
