(* ===== verification/Cgroup.v ===== *)
(** * kernel/cgroup/cgroup.c and cgroup_fs.c: the control-group tree

    The static pool of groups with its parent, child and sibling links, the
    membership of tasks, the hierarchical weights, and the text interface of
    the mounted tree (paths, control files, mkdir and rmdir).  The cpu.max part
    of a group is the record the scheduler charges (SchedOps); its [cg_live] and
    [cg_parent] are the struct's own [live] and [parent] fields.

    A C string is the list of its bytes before the terminator; a read at its end
    yields the terminator.  A walk along sibling or parent links is given as
    many steps as the pool has slots. *)
From Stdlib Require Import String Ascii.
From S2P Require Import Prelude Sched SchedOps.
#[local] Open Scope Z_scope.
#[local] Open Scope list_scope.

(** ** State *)

Definition CG_CTRL_CPU := 0.
Definition CG_CTRL_PIDS := 1.
Definition CG_CTRL_MEM := 2.
Definition CG_NCTRLS := 3.
Definition CG_CTRL_BIT (n : Z) : Z := Z.shiftl 1 n.
Definition CG_ALL_CTRLS : Z := Z.lor (Z.lor (CG_CTRL_BIT CG_CTRL_CPU) (CG_CTRL_BIT CG_CTRL_PIDS)) (CG_CTRL_BIT CG_CTRL_MEM).
Definition CG_NAME_MAX := 31.
Definition CG_WEIGHT_MIN := 1.
Definition CG_WEIGHT_MAX := 10000.
Definition CG_WEIGHT_DEFAULT := 100.
Definition CG_NICE0 := 1024.
Definition CG_EFF_MIN := 16.
Definition CG_EFF_MAX := 262144.
Definition CG_PERIOD_DEFAULT_TICKS := 10.
Definition GNUOS_PATH_MAX := 256.
Definition MEM_UNLIMITED := 2 ^ 64 - 1.

Record cgrp := Cgrp {
  g_cpu : cgroup;
  first_child : Z;
  next_sibling : Z;
  cname : list Z;
  weight : Z;
  subtree_ctl : Z;
  nprocs : Z;
  pids_max : Z;
  mem_max : Z;
  mem_bytes : Z;
  mem_anon : Z;
  mem_file : Z }.

Record task := Task {
  t_used : bool;
  t_pid : Z;
  t_tgid : Z;
  t_cg : Z;
  t_weight : Z;
  t_as : option Z;
  t_park_next : Z }.

Record cgst := Cgst {
  g_cgs : Z -> cgrp;
  g_nlive : Z;
  tasks : Z -> task;
  as_cgs : Z -> Z }.

Definition with_groups (s : cgst) (G : Z -> cgrp) : cgst := Cgst G (g_nlive s) (tasks s) (as_cgs s).
Definition with_tasks (s : cgst) (T : Z -> task) : cgst := Cgst (g_cgs s) (g_nlive s) T (as_cgs s).
Definition with_group (s : cgst) (c : Z) (g : cgrp) : cgst := with_groups s (upd (g_cgs s) c g).
Definition with_task (s : cgst) (i : Z) (t : task) : cgst := with_tasks s (upd (tasks s) i t).

Definition set_cpu (v : cgroup) (g : cgrp) : cgrp :=
  Cgrp v (first_child g) (next_sibling g) (cname g) (weight g) (subtree_ctl g) (nprocs g) (pids_max g) (mem_max g)
    (mem_bytes g) (mem_anon g) (mem_file g).
Definition set_first_child (v : Z) (g : cgrp) : cgrp :=
  Cgrp (g_cpu g) v (next_sibling g) (cname g) (weight g) (subtree_ctl g) (nprocs g) (pids_max g) (mem_max g)
    (mem_bytes g) (mem_anon g) (mem_file g).
Definition set_next_sibling (v : Z) (g : cgrp) : cgrp :=
  Cgrp (g_cpu g) (first_child g) v (cname g) (weight g) (subtree_ctl g) (nprocs g) (pids_max g) (mem_max g)
    (mem_bytes g) (mem_anon g) (mem_file g).
Definition set_weight (v : Z) (g : cgrp) : cgrp :=
  Cgrp (g_cpu g) (first_child g) (next_sibling g) (cname g) v (subtree_ctl g) (nprocs g) (pids_max g) (mem_max g)
    (mem_bytes g) (mem_anon g) (mem_file g).
Definition set_subtree_ctl (v : Z) (g : cgrp) : cgrp :=
  Cgrp (g_cpu g) (first_child g) (next_sibling g) (cname g) (weight g) v (nprocs g) (pids_max g) (mem_max g)
    (mem_bytes g) (mem_anon g) (mem_file g).
Definition set_nprocs (v : Z) (g : cgrp) : cgrp :=
  Cgrp (g_cpu g) (first_child g) (next_sibling g) (cname g) (weight g) (subtree_ctl g) v (pids_max g) (mem_max g)
    (mem_bytes g) (mem_anon g) (mem_file g).
Definition set_pids_max (v : Z) (g : cgrp) : cgrp :=
  Cgrp (g_cpu g) (first_child g) (next_sibling g) (cname g) (weight g) (subtree_ctl g) (nprocs g) v (mem_max g)
    (mem_bytes g) (mem_anon g) (mem_file g).
Definition set_mem_max (v : Z) (g : cgrp) : cgrp :=
  Cgrp (g_cpu g) (first_child g) (next_sibling g) (cname g) (weight g) (subtree_ctl g) (nprocs g) (pids_max g) v
    (mem_bytes g) (mem_anon g) (mem_file g).

(** ** Tree walks *)

Definition live (G : Z -> cgrp) (c : Z) : bool := (0 <=? c) && (c <? MAX_CGS) && cg_live (g_cpu (G c)).
Definition parent (G : Z -> cgrp) (c : Z) : Z := cg_parent (g_cpu (G c)).

Definition get_parent (G : Z -> cgrp) (c : Z) : Z := if live G c then parent G c else -1.

(** The groups from [c] along the sibling links. *)
Fixpoint sibs (n : nat) (G : Z -> cgrp) (c : Z) : list Z :=
  match n with
  | O => []
  | S n => if c =? -1 then [] else c :: sibs n G (next_sibling (G c))
  end.

Definition children (G : Z -> cgrp) (c : Z) : list Z := sibs (Z.to_nat MAX_CGS) G (first_child (G c)).

(** The groups from [c] up to the root. *)
Definition chain (G : Z -> cgrp) (c : Z) : list Z := cg_chain (Z.to_nat MAX_CGS) (fun c => g_cpu (G c)) c.

Definition cg_child (G : Z -> cgrp) (c i : Z) : Z :=
  if negb (live G c) then -1
  else let d := default (-1) (children G c !! Z.to_nat i) in
    if negb (d =? -1) && cg_live (g_cpu (G d)) then d else -1.

Definition cg_count (s : cgst) : Z := g_nlive s.
Definition cg_member_count (G : Z -> cgrp) (c : Z) : Z := nprocs (G c).

Definition zsum (l : list Z) : Z := foldr Z.add 0 l.

Fixpoint subtree_tasks (n : nat) (G : Z -> cgrp) (c : Z) : Z :=
  match n with
  | O => 0
  | S n => cg_member_count G c + zsum (subtree_tasks n G <$> children G c)
  end.

Definition cg_subtree_tasks_locked (G : Z -> cgrp) (c : Z) : Z := subtree_tasks (Z.to_nat MAX_CGS) G c.
Definition cg_subtree_tasks (G : Z -> cgrp) (c : Z) : Z := if live G c then cg_subtree_tasks_locked G c else 0.

Definition SLASH := 47.

(** The path of a group and its length, or a negative length. *)
Fixpoint render_path (n : nat) (G : Z -> cgrp) (c cap : Z) : Z * list Z :=
  match n with
  | O => (0, [])
  | S n =>
      if c =? CG_ROOT then (1, if 0 <? cap then [SLASH] else [])
      else
        let '(plen, pbuf) := render_path n G (parent G c) GNUOS_PATH_MAX in
        if plen <=? 0 then (plen, [])
        else if cap <? plen + 1 + alen (cname (G c)) + 1 then (- E_NOSPC, [])
        else
          let buf := (if 1 <? plen then drop 1 pbuf else []) ++ [SLASH] ++ cname (G c) in
          (alen buf, buf)
  end.

Definition cg_path (G : Z -> cgrp) (c cap : Z) : Z * list Z :=
  if live G c || (c =? CG_ROOT) then render_path (Z.to_nat MAX_CGS) G c cap else (- E_NOENT, []).

(** ** Controllers and weights *)

Definition has_ctl (m bit : Z) : bool := negb (Z.land m bit =? 0).

Definition cg_ctrl_usable (G : Z -> cgrp) (c bit : Z) : bool :=
  if c =? CG_ROOT then true else forallb (fun a => has_ctl (subtree_ctl (G a)) bit) (chain G (parent G c)).

Definition cg_controllers (G : Z -> cgrp) (c : Z) : Z :=
  if live G c then
    foldl (fun m k => if cg_ctrl_usable G c (CG_CTRL_BIT k) then Z.lor m (CG_CTRL_BIT k) else m) 0 (seqZ 0 CG_NCTRLS)
  else 0.

Definition cg_subtree (G : Z -> cgrp) (c : Z) : Z := if live G c then subtree_ctl (G c) else 0.
Definition cg_weight (G : Z -> cgrp) (c : Z) : Z :=
  if live G c && negb (c =? CG_ROOT) then weight (G c) else CG_WEIGHT_DEFAULT.

(** The summed weights of the children of [pa]. *)
Definition level_sum (G : Z -> cgrp) (pa : Z) : Z :=
  let sum := foldl (fun n d => if cg_live (g_cpu (G d)) then u64 (n + weight (G d)) else n) 0 (children G pa) in
  if sum =? 0 then 1 else sum.

(** One level of the loop of [eff_weight]. *)
Definition eff_step (G : Z -> cgrp) (cur eff : Z) : Z :=
  let pa := parent G cur in
  if (pa =? -1) || has_ctl (subtree_ctl (G pa)) (CG_CTRL_BIT CG_CTRL_CPU) then
    let eff := u64 (eff * weight (G cur)) / level_sum G pa in
    let eff := if eff <? CG_EFF_MIN then CG_EFF_MIN else eff in
    if CG_EFF_MAX <? eff then CG_EFF_MAX else eff
  else eff.

Fixpoint eff_loop (n : nat) (G : Z -> cgrp) (cur eff : Z) : Z :=
  match n with
  | O => eff
  | S n => if cur =? CG_ROOT then eff else eff_loop n G (parent G cur) (eff_step G cur eff)
  end.

Definition eff_weight (G : Z -> cgrp) (c : Z) : Z :=
  if negb (live G c) then CG_NICE0 else u32 (eff_loop (Z.to_nat MAX_CGS) G c CG_NICE0).
Definition cg_eff_weight := eff_weight.

Definition set_t_weight (w : Z) (t : task) : task :=
  Task (t_used t) (t_pid t) (t_tgid t) (t_cg t) w (t_as t) (t_park_next t).
Definition set_t_cg (c : Z) (t : task) : task :=
  Task (t_used t) (t_pid t) (t_tgid t) c (t_weight t) (t_as t) (t_park_next t).

Definition proc_slots : list Z := seqZ 0 MAX_PROCS.

Definition refresh_task (s : cgst) (i : Z) : cgst :=
  let t := tasks s i in
  if negb (t_used t) || (t_cg t <? 0) then s else with_task s i (set_t_weight (eff_weight (g_cgs s) (t_cg t)) t).

Definition cg_refresh_weights_locked (s : cgst) : cgst := foldl refresh_task s proc_slots.
Definition cg_refresh_weights := cg_refresh_weights_locked.

(** ** Membership *)

Definition pids_allow_one (G : Z -> cgrp) (c : Z) : Z :=
  if existsb (fun a => (0 <=? pids_max (G a)) && (pids_max (G a) <=? cg_subtree_tasks_locked G a)) (chain G c)
  then - E_AGAIN else 0.

(** [p->as->cg = cg] where the task has an address space. *)
Definition set_as_cg (s : cgst) (t : task) (c : Z) : cgst :=
  match t_as t with
  | Some a => Cgst (g_cgs s) (g_nlive s) (tasks s) (upd (as_cgs s) a c)
  | None => s
  end.

Definition cg_attach_new (s : cgst) (p c : Z) : cgst * Z :=
  let t := tasks s p in
  if negb (t_cg t =? -1) || negb (live (g_cgs s) c) then (s, - E_INVAL)
  else
    let r := pids_allow_one (g_cgs s) c in
    if negb (r =? 0) then (s, r)
    else
      let s := with_task s p (set_t_weight (eff_weight (g_cgs s) c) (set_t_cg c t)) in
      let s := with_group s c (set_nprocs (nprocs (g_cgs s c) + 1) (g_cgs s c)) in
      (set_as_cg s t c, 0).

Definition cg_detach (s : cgst) (p : Z) : cgst :=
  let t := tasks s p in
  let s :=
    if live (g_cgs s) (t_cg t) && (0 <? nprocs (g_cgs s (t_cg t)))
    then with_group s (t_cg t) (set_nprocs (nprocs (g_cgs s (t_cg t)) - 1) (g_cgs s (t_cg t))) else s in
  with_task s p (Task (t_used t) (t_pid t) (t_tgid t) (-1) (t_weight t) (t_as t) (-1)).

(** One task of the moving loop. *)
Definition move_task (tgid c : Z) (s : cgst) (i : Z) : cgst :=
  let q := tasks s i in
  if negb (t_used q) || negb (t_tgid q =? tgid) then s
  else
    let s :=
      if (0 <=? t_cg q) && negb (t_cg q =? c) then
        let s := with_group s (t_cg q) (set_nprocs (nprocs (g_cgs s (t_cg q)) - 1) (g_cgs s (t_cg q))) in
        let s := with_task s i (set_t_cg c q) in
        with_group s c (set_nprocs (nprocs (g_cgs s c) + 1) (g_cgs s c))
      else s in
    let s := with_task s i (set_t_weight (eff_weight (g_cgs s) c) (tasks s i)) in
    set_as_cg s q c.

Definition moves (s : cgst) (tgid c i : Z) : bool :=
  let q := tasks s i in t_used q && (t_tgid q =? tgid) && (0 <=? t_cg q) && negb (t_cg q =? c).

Definition cg_move_tgid_locked (s : cgst) (pid c : Z) : cgst * Z :=
  if negb (live (g_cgs s) c) then (s, - E_NOENT)
  else
    match List.find (fun i => t_used (tasks s i) && (t_pid (tasks s i) =? pid)) proc_slots with
    | None => (s, - E_SRCH)
    | Some leader =>
        let tgid := t_tgid (tasks s leader) in
        let moving := alen (List.filter (moves s tgid c) proc_slots) in
        if moving =? 0 then (s, 0)
        else if existsb (fun a => (0 <=? pids_max (g_cgs s a))
                  && (pids_max (g_cgs s a) <? cg_subtree_tasks_locked (g_cgs s) a + moving)) (chain (g_cgs s) c)
        then (s, - E_AGAIN)
        else (foldl (move_task tgid c) s proc_slots, 0)
    end.
Definition cg_move_tgid := cg_move_tgid_locked.

(** The [i]-th member of a group. *)
Definition cg_member_pid (s : cgst) (c i : Z) : Z :=
  if live (g_cgs s) c && (0 <=? i) then
    default (-1) ((fun k => t_pid (tasks s k)) <$>
      (List.filter (fun k => t_used (tasks s k) && (t_cg (tasks s k) =? c)) proc_slots !! Z.to_nat i))
  else -1.

(** The line of /proc/<pid>/cgroup: its length, and the bytes written. *)
Definition cg_proc_cgroup_line (s : cgst) (p cap : Z) : Z * list Z :=
  let t := tasks s p in
  if cap <=? 0 then (- E_INVAL, [])
  else if (0 <=? t_cg t) && live (g_cgs s) (t_cg t) then
    let '(plen, path) := render_path (Z.to_nat MAX_CGS) (g_cgs s) (t_cg t) GNUOS_PATH_MAX in
    if plen <? 0 then (plen, [])
    else if cap <? 3 + plen + 2 then (- E_NOSPC, [])
    else (3 + plen + 1, chars "0::" ++ path ++ [10; 0])
  else if cap <? 4 then (- E_NOSPC, [])
  else (4, chars "0::/" ++ [10]).

Definition zeroed : cgrp := Cgrp (Cgroup false 0 0 0 0 0 0 false 0 0 0 0) 0 0 [] 0 0 0 0 0 0 0 0.

Definition cgroup_init (s : cgst) : cgst :=
  let root := Cgrp (Cgroup true (-1) 0 CG_PERIOD_DEFAULT_TICKS 0 0 0 false 0 0 0 (-1)) (-1) (-1) [] CG_WEIGHT_DEFAULT
    CG_ALL_CTRLS 0 (-1) MEM_UNLIMITED 0 0 0 in
  Cgst (upd (fun _ => zeroed) CG_ROOT root) 1 (tasks s) (as_cgs s).
