(* ===== verification/CgroupFs.v ===== *)
(** * kernel/cgroup/cgroup_fs.c: the mounted control-group tree

    Path resolution, the control files' text, writes to them, and the creation
    and removal of groups.  Buffers are lists of bytes; [cgbuf] appends to one
    of bounded capacity as the source's [cgbuf_t] does.  The data of a write is
    what [cgfile_write] copies into its local array: the bytes, then a
    terminator, which is what reading past the end of the list yields. *)
From Stdlib Require Import String Ascii.
From S2P Require Import Prelude Sched SchedOps Cgroup.
#[local] Open Scope Z_scope.
#[local] Open Scope list_scope.

Definition NL := 10.
Definition BLANK := 32.

(** ** Text writers *)

Record cgbuf := Cgbuf { b_cap : Z; b_data : list Z }.

Definition cg_char (b : cgbuf) (c : Z) : cgbuf :=
  if alen (b_data b) <? b_cap b - 1 then Cgbuf (b_cap b) (b_data b ++ [c]) else b.

Definition cg_str (b : cgbuf) (s : list Z) : cgbuf := foldl cg_char b s.

(** The digits of [tmp], least significant first; 20 are enough for 64 bits. *)
Fixpoint digits (n : nat) (v : Z) : list Z :=
  match n with
  | O => []
  | S n => (48 + v mod 10) :: (if v / 10 =? 0 then [] else digits n (v / 10))
  end.

Definition cg_u64 (b : cgbuf) (v : Z) : cgbuf := cg_str b (rev (digits 20 v)).

Fixpoint descendants (n : nat) (G : Z -> cgrp) (c : Z) : Z :=
  match n with
  | O => 0
  | S n => zsum ((fun d => 1 + descendants n G d) <$> children G c)
  end.
Definition count_descendants (G : Z -> cgrp) (c : Z) : Z := descendants (Z.to_nat MAX_CGS) G c.

(** ** Control files *)

Inductive cgfile :=
  F_PROCS | F_CONTROLLERS | F_SUBTREE | F_EVENTS | F_STAT | F_CPU_WEIGHT | F_CPU_MAX | F_CPU_STAT
| F_PIDS_MAX | F_PIDS_CURRENT | F_MEM_CURRENT | F_MEM_MAX | F_MEM_STAT.

#[export] Instance cgfile_eq_dec : EqDecision cgfile.
Proof. solve_decision. Defined.

(** Name, file, and the controller it needs ([CG_NCTRLS]: none). *)
Definition g_files : list (list Z * cgfile * Z) :=
  [(chars "cgroup.procs", F_PROCS, CG_NCTRLS);
   (chars "cgroup.controllers", F_CONTROLLERS, CG_NCTRLS);
   (chars "cgroup.subtree_control", F_SUBTREE, CG_NCTRLS);
   (chars "cgroup.events", F_EVENTS, CG_NCTRLS);
   (chars "cgroup.stat", F_STAT, CG_NCTRLS);
   (chars "cpu.weight", F_CPU_WEIGHT, CG_CTRL_CPU);
   (chars "cpu.max", F_CPU_MAX, CG_CTRL_CPU);
   (chars "cpu.stat", F_CPU_STAT, CG_CTRL_CPU);
   (chars "pids.max", F_PIDS_MAX, CG_CTRL_PIDS);
   (chars "pids.current", F_PIDS_CURRENT, CG_CTRL_PIDS);
   (chars "memory.current", F_MEM_CURRENT, CG_CTRL_MEM);
   (chars "memory.max", F_MEM_MAX, CG_CTRL_MEM);
   (chars "memory.stat", F_MEM_STAT, CG_CTRL_MEM)].

Definition ctrl_name (k : Z) : list Z :=
  if k =? CG_CTRL_CPU then chars "cpu" else if k =? CG_CTRL_PIDS then chars "pids" else chars "memory".

Definition ends_with (b : cgbuf) (c : Z) : bool :=
  match last (b_data b) with Some d => d =? c | None => false end.

Definition TICK_USEC := 10000.

Definition render_file (s : cgst) (c : Z) (f : cgfile) (b : cgbuf) : cgbuf :=
  let G := g_cgs s in
  let g := G c in
  match f with
  | F_PROCS =>
      foldl (fun b i =>
        let q := tasks s i in
        if negb (t_used q) || negb (t_cg q =? c) || negb (t_pid q =? t_tgid q) then b
        else cg_char (cg_u64 b (u64 (t_pid q))) NL) b proc_slots
  | F_CONTROLLERS =>
      let b := foldl (fun b k =>
        if negb (cg_ctrl_usable G c (CG_CTRL_BIT k)) then b
        else
          let b := if (0 <? alen (b_data b)) && negb (ends_with b NL) && negb (ends_with b BLANK)
                   then cg_char b BLANK else b in
          cg_str b (ctrl_name k)) b (seqZ 0 CG_NCTRLS) in
      cg_char b NL
  | F_SUBTREE =>
      let b := foldl (fun b k =>
        if negb (has_ctl (subtree_ctl g) (CG_CTRL_BIT k)) then b
        else cg_char (cg_str (cg_char b 43) (ctrl_name k)) BLANK) b (seqZ 0 CG_NCTRLS) in
      let b := if (0 <? alen (b_data b)) && ends_with b BLANK then Cgbuf (b_cap b) (removelast (b_data b)) else b in
      cg_char b NL
  | F_EVENTS =>
      cg_str (cg_u64 (cg_str b (chars "populated ")) (if 0 <? cg_subtree_tasks_locked G c then 1 else 0))
        ([NL] ++ chars "frozen 0" ++ [NL])
  | F_STAT =>
      cg_str (cg_u64 (cg_str b (chars "nr_descendants ")) (u64 (count_descendants G c)))
        ([NL] ++ chars "nr_dying_descendants 0" ++ [NL])
  | F_CPU_WEIGHT => cg_char (cg_u64 b (weight g)) NL
  | F_CPU_MAX =>
      let b := if quota_ticks (g_cpu g) =? 0 then cg_str b (chars "max ")
               else cg_char (cg_u64 b (u64 (quota_ticks (g_cpu g) * TICK_USEC))) BLANK in
      cg_char (cg_u64 b (u64 (period_ticks (g_cpu g) * TICK_USEC))) NL
  | F_CPU_STAT =>
      let b := cg_u64 (cg_str b (chars "usage_usec ")) (u64 (usage_total (g_cpu g) * TICK_USEC)) in
      let b := cg_u64 (cg_str b ([NL] ++ chars "throttled_usec ")) (u64 (throttled_total (g_cpu g) * TICK_USEC)) in
      cg_char (cg_u64 (cg_str b ([NL] ++ chars "nr_throttled ")) (nr_throttled (g_cpu g))) NL
  | F_PIDS_MAX =>
      if pids_max g <? 0 then cg_str b (chars "max" ++ [NL]) else cg_char (cg_u64 b (pids_max g)) NL
  | F_PIDS_CURRENT => cg_char (cg_u64 b (u64 (cg_subtree_tasks_locked G c))) NL
  | F_MEM_CURRENT => cg_char (cg_u64 b (mem_bytes g)) NL
  | F_MEM_MAX =>
      if mem_max g =? MEM_UNLIMITED then cg_str b (chars "max" ++ [NL]) else cg_char (cg_u64 b (mem_max g)) NL
  | F_MEM_STAT =>
      cg_str (cg_u64 (cg_str (cg_u64 (cg_str b (chars "anon ")) (mem_anon g)) ([NL] ++ chars "file ")) (mem_file g)) [NL]
  end.

Definition cgdir_read : Z := - E_ISDIR.

Definition SCRATCH := 1024.

(** The bytes a read returns, or the error. *)
Definition cgfile_read (s : cgst) (c : Z) (f : cgfile) (off len : Z) : list Z + Z :=
  if negb (live (g_cgs s) c) then inr (- E_NOENT)
  else
    let data := b_data (render_file s c f (Cgbuf SCRATCH [])) in
    inl (if off <? alen data then take (Z.to_nat len) (drop (Z.to_nat off) data) else []).

(** ** Parsing writes *)

Definition is_space (c : Z) : bool := (c =? 32) || (c =? 9) || (c =? 13) || (c =? 10).
Definition is_digit (c : Z) : bool := (48 <=? c) && (c <=? 57).

Fixpoint skip_space (p : list Z) : list Z :=
  match p with c :: q => if is_space c then skip_space q else p | [] => [] end.

(** [p[i]], the terminator at the end. *)
Definition at_ (p : list Z) (i : nat) : Z := nth i p 0.

Fixpoint parse_digits (v : Z) (p : list Z) : Z * list Z :=
  match p with
  | c :: q => if is_digit c then parse_digits (u64 (u64 (v * 10) + (c - 48))) q else (v, p)
  | [] => (v, [])
  end.

Definition is_max (p : list Z) : bool :=
  (at_ p 0 =? 109) && (at_ p 1 =? 97) && (at_ p 2 =? 120)
  && ((at_ p 3 =? 0) || (at_ p 3 =? 32) || (at_ p 3 =? 10) || (at_ p 3 =? 13)).

(** The value and the text after it. *)
Definition parse_u64 (p : list Z) : option (Z * list Z) :=
  let p := skip_space p in
  if is_max p then Some (2 ^ 64 - 1, drop 3 p)
  else if negb (is_digit (at_ p 0)) then None
  else Some (parse_digits 0 p).

Definition parse_s32 (p : list Z) : option (Z * list Z) :=
  match parse_u64 p with
  | None => None
  | Some (v, q) => if v =? 2 ^ 64 - 1 then None else Some (s32 v, q)
  end.

(** ** Writes *)

Fixpoint write_procs (n : nat) (s : cgst) (c : Z) (p : list Z) : cgst * Z :=
  match n with
  | O => (s, 0)
  | S n =>
      match skip_space p with
      | [] => (s, 0)
      | p =>
          match parse_u64 p with
          | None => (s, - E_INVAL)
          | Some (pid, q) =>
              if 0x7FFFFFFF <? pid then (s, - E_INVAL)
              else
                let '(s, r) := cg_move_tgid_locked s pid c in
                if r <? 0 then (s, r) else write_procs n s c q
          end
      end
  end.

(** [strncmp(p, w, length w) == 0] for a word without a terminator. *)
Definition starts (w p : list Z) : bool := bool_decide (take (length w) p = w).

(** The controller named at [p] and the text after it. *)
Definition ctrl_token (p : list Z) : option (Z * list Z) :=
  if starts (chars "cpu") p then Some (CG_CTRL_BIT CG_CTRL_CPU, drop 3 p)
  else if starts (chars "pids") p then Some (CG_CTRL_BIT CG_CTRL_PIDS, drop 4 p)
  else if starts (chars "memory") p then Some (CG_CTRL_BIT CG_CTRL_MEM, drop 6 p)
  else None.

(** The mask [subtree_control] asks for, or the error. *)
Fixpoint write_subtree (n : nat) (G : Z -> cgrp) (c want : Z) (p : list Z) : Z + Z :=
  match n with
  | O => inl want
  | S n =>
      match skip_space p with
      | [] => inl want
      | ch :: p =>
          if negb (ch =? 43) && negb (ch =? 45) then inr (- E_INVAL)
          else
            match ctrl_token p with
            | None => inr (- E_INVAL)
            | Some (bit, q) =>
                if ch =? 43 then
                  if negb (cg_ctrl_usable G c bit) then inr (- E_INVAL)
                  else if negb (c =? CG_ROOT) && (0 <? cg_member_count G c) then inr (- E_BUSY)
                  else write_subtree n G c (Z.lor want bit) q
                else write_subtree n G c (Z.land want (not32 bit)) q
            end
      end
  end.

(** The period in ticks and the quota (0 for none) of a cpu.max write. *)
Definition parse_cpu_max (p : list Z) : (Z * Z) + Z :=
  match parse_u64 p with
  | None => inr (- E_INVAL)
  | Some (quota, p) =>
      match parse_u64 p with
      | None => inr (- E_INVAL)
      | Some (period, _) =>
          if (period =? 0) || (period =? 2 ^ 64 - 1) then inr (- E_INVAL)
          else
            let period := if period <? TICK_USEC then TICK_USEC else period in
            let ticks := u32 (u64 (period + 9999) / TICK_USEC) in
            if 10000 <? ticks then inr (- E_RANGE)
            else inl (ticks, if quota =? 2 ^ 64 - 1 then 0 else u64 (quota + 9999) / TICK_USEC)
      end
  end.

Definition apply_write (s : cgst) (now c : Z) (f : cgfile) (data : list Z) : cgst * Z :=
  let G := g_cgs s in
  let g := G c in
  let len := alen data in
  match f with
  | F_PROCS => let '(s, r) := write_procs (S (length data)) s c data in (s, if r <? 0 then r else len)
  | F_SUBTREE =>
      match write_subtree (S (length data)) G c (subtree_ctl g) data with
      | inr e => (s, e)
      | inl want => (cg_refresh_weights_locked (with_group s c (set_subtree_ctl want g)), len)
      end
  | F_CPU_WEIGHT =>
      match parse_s32 data with
      | None => (s, - E_INVAL)
      | Some (w, _) =>
          if (w <? CG_WEIGHT_MIN) || (CG_WEIGHT_MAX <? w) then (s, - E_RANGE)
          else (cg_refresh_weights_locked (with_group s c (set_weight w g)), len)
      end
  | F_CPU_MAX =>
      match parse_cpu_max data with
      | inr e => (s, e)
      | inl (ticks, qticks) => (with_group s c (set_cpu (cg_cpu_set_max (g_cpu g) qticks ticks now) g), len)
      end
  | F_PIDS_MAX =>
      match parse_s32 data with
      | None => (s, - E_INVAL)
      | Some (v, _) => (with_group s c (set_pids_max (if v <? 0 then -1 else v) g), len)
      end
  | F_MEM_MAX =>
      match parse_u64 data with
      | None => (s, - E_INVAL)
      | Some (v, _) => (with_group s c (set_mem_max v g), len)
      end
  | _ => (s, - E_ROFS)
  end.

Definition cgfile_write (s : cgst) (now c : Z) (f : cgfile) (buf : list Z) : cgst * Z :=
  if negb (live (g_cgs s) c) then (s, - E_NOENT)
  else if alen buf =? 0 then (s, 0)
  else if 255 <? alen buf then (s, - E_INVAL)
  else let '(s, r) := apply_write s now c f buf in (s, if r <? 0 then r else alen buf).

(** ** Lookup *)

Definition file_visible (G : Z -> cgrp) (c ctrl : Z) : bool :=
  (ctrl =? CG_NCTRLS) || cg_ctrl_usable G c (CG_CTRL_BIT ctrl).

(** The index in [g_files]. *)
Definition name_to_file (G : Z -> cgrp) (c : Z) (name : list Z) : option nat :=
  fst <$> list_find (fun e => file_visible G c e.2 && bool_decide (e.1.1 = name) = true) g_files.

Fixpoint skip_slash (p : list Z) : list Z :=
  match p with c :: q => if c =? SLASH then skip_slash q else p | [] => [] end.

(** The first component and what follows it. *)
Fixpoint component (p : list Z) : list Z * list Z :=
  match p with
  | c :: q => if c =? SLASH then ([], p) else let '(a, r) := component q in (c :: a, r)
  | [] => ([], [])
  end.

Definition child_named (G : Z -> cgrp) (c : Z) (name : list Z) : option Z :=
  List.find (fun d => cg_live (g_cpu (G d)) && bool_decide (cname (G d) = name)) (children G c).

(** The directory, and the control file when the path names one. *)
Fixpoint walk_path (n : nat) (G : Z -> cgrp) (c : Z) (p : list Z) : option (Z * option nat) :=
  match n with
  | O => None
  | S n =>
      match skip_slash p with
      | [] => Some (c, None)
      | p =>
          let '(name, rest) := component p in
          if CG_NAME_MAX <? alen name then None
          else match rest with
          | _ :: _ => match child_named G c name with Some d => walk_path n G d rest | None => None end
          | [] => match name_to_file G c name with Some i => Some (c, Some i) | None => None end
          end
      end
  end.

Definition walk_rel (G : Z -> cgrp) (rel : list Z) : option (Z * option nat) :=
  match rel with
  | ch :: p => if ch =? SLASH then walk_path (S (length p)) G CG_ROOT p else None
  | [] => None
  end.

(** A directory, or a control file of a group. *)
Inductive cgnode := CgDir | CgFile (c : Z) (f : cgfile).

Definition cgfs_resolve (G : Z -> cgrp) (rel : list Z) : cgnode + Z :=
  match walk_rel G rel with
  | Some (c, o) =>
      if negb (live G c) then inr (- E_NOENT)
      else match o with
      | Some i => match g_files !! i with Some (_, f, _) => inl (CgFile c f) | None => inr (- E_NOENT) end
      | None => inl CgDir
      end
  | None => inr (- E_NOENT)
  end.

(** The [index]-th name of a directory. *)
Definition cgfs_readdir (G : Z -> cgrp) (rel : list Z) (index : Z) : (list Z * bool) + Z :=
  match walk_rel G rel with
  | None => inr (- E_NOTDIR)
  | Some (c, _) =>
      if negb (live G c) then inr (- E_NOTDIR)
      else
        let entries := [(chars ".", true); (chars "..", true)]
          ++ ((fun d => (cname (G d), true)) <$> List.filter (fun d => cg_live (g_cpu (G d))) (children G c))
          ++ ((fun e => (e.1.1, false)) <$> List.filter (fun e : list Z * cgfile * Z => file_visible G c e.2) g_files) in
        match entries !! Z.to_nat index with Some e => inl e | None => inr (- E_NOENT) end
  end.

(** ** mkdir and rmdir *)

Definition name_ok (name : list Z) : bool :=
  negb (alen name =? 0) && negb (bool_decide (name = chars ".")) && negb (bool_decide (name = chars ".."))
  && forallb (fun c => negb (c =? SLASH)) name && (alen name <=? CG_NAME_MAX).

(** What precedes the last slash, and what follows it. *)
Fixpoint split_last (p : list Z) : option (list Z * list Z) :=
  match p with
  | [] => None
  | c :: q =>
      match split_last q with
      | Some (a, b) => Some (c :: a, b)
      | None => if c =? SLASH then Some ([], q) else None
      end
  end.

Definition free_group (G : Z -> cgrp) : option Z :=
  List.find (fun i => negb (cg_live (g_cpu (G i)))) (seqZ (CG_ROOT + 1) (MAX_CGS - 1)).

Definition new_group (parent next : Z) (name : list Z) : cgrp :=
  Cgrp (Cgroup true parent 0 CG_PERIOD_DEFAULT_TICKS 0 0 0 false 0 0 0 (-1)) (-1) next name CG_WEIGHT_DEFAULT 0 0 (-1)
    MEM_UNLIMITED 0 0 0.

(** Creating the group [name] below [c]. *)
Definition add_group (s : cgst) (c : Z) (name : list Z) : cgst * Z :=
  let G := g_cgs s in
  match child_named G c name with
  | Some _ => (s, - E_EXIST)
  | None =>
      match free_group G with
      | None => (s, - E_NOSPC)
      | Some slot =>
          let G := upd G slot (new_group c (first_child (G c)) name) in
          let G := upd G c (set_first_child slot (G c)) in
          (cg_refresh_weights_locked (Cgst G (g_nlive s + 1) (tasks s) (as_cgs s)), 0)
      end
  end.

Definition cgfs_mkdir (s : cgst) (rel : list Z) : cgst * Z :=
  if negb (at_ rel 0 =? SLASH) then (s, - E_INVAL)
  else
    match split_last rel with
    | None => (s, - E_INVAL)
    | Some (parent_rel, name) =>
        if alen parent_rel =? 0 then (s, - E_EXIST)
        else if negb (name_ok name) then (s, - E_INVAL)
        else
          match walk_rel (g_cgs s) parent_rel with
          | None => (s, - E_NOENT)
          | Some (c, _) => if negb (live (g_cgs s) c) then (s, - E_NOENT) else add_group s c name
          end
    end.

(** [*link] is the first child of a group or the next sibling of one. *)
Definition link_get (G : Z -> cgrp) (l : bool * Z) : Z :=
  if fst l then first_child (G (snd l)) else next_sibling (G (snd l)).
Definition link_set (G : Z -> cgrp) (l : bool * Z) (v : Z) : Z -> cgrp :=
  upd G (snd l) (if fst l then set_first_child v (G (snd l)) else set_next_sibling v (G (snd l))).

Fixpoint unlink (n : nat) (G : Z -> cgrp) (l : bool * Z) (c : Z) : Z -> cgrp :=
  match n with
  | O => G
  | S n =>
      let d := link_get G l in
      if d =? -1 then G
      else if d =? c then link_set G l (next_sibling (G c))
      else unlink n G (false, d) c
  end.

Definition set_live (v : bool) (g : cgrp) : cgrp :=
  let p := g_cpu g in
  set_cpu (Cgroup v (cg_parent p) (quota_ticks p) (period_ticks p) (period_start p) (used_period p) (usage_total p)
    (throttled p) (throttle_start p) (throttled_total p) (nr_throttled p) (park_head p)) g.

(** Removing the group [c]. *)
Definition remove_group (s : cgst) (c : Z) : cgst * Z :=
  let G := g_cgs s in
  if c =? CG_ROOT then (s, - E_BUSY)
  else if (0 <? cg_member_count G c) || negb (first_child (G c) =? -1) || negb (subtree_ctl (G c) =? 0)
          || negb (park_head (g_cpu (G c)) =? -1)
  then (s, - E_BUSY)
  else
    let G := upd G c (set_live false (G c)) in
    let G := unlink (S (Z.to_nat MAX_CGS)) G (true, parent G c) c in
    (cg_refresh_weights_locked (Cgst G (g_nlive s - 1) (tasks s) (as_cgs s)), 0).

Definition cgfs_rmdir (s : cgst) (rel : list Z) : cgst * Z :=
  if negb (at_ rel 0 =? SLASH) || bool_decide (rel = [SLASH]) then (s, - E_INVAL)
  else
    match walk_rel (g_cgs s) rel with
    | None => (s, - E_NOENT)
    | Some (c, _) => if negb (live (g_cgs s) c) then (s, - E_NOENT) else remove_group s c
    end.
