(* ===== verification/CgroupSpec.v ===== *)
(** * The control-group tree: invariant and counting

    The links of the pool form a tree, every walk along them ends within the
    fuel the model gives it, and the recursive task count of a group is the
    number of tasks whose group lies below it. *)
From S2P Require Import Prelude Sched SchedOps Cgroup.
#[local] Open Scope Z_scope.
#[local] Open Scope list_scope.

(** ** Sums *)

Lemma zsum_cons x l : zsum (x :: l) = x + zsum l.
Proof. done. Qed.

Lemma zsum_add {A} (f g : A -> Z) l : zsum ((fun x => f x + g x) <$> l) = zsum (f <$> l) + zsum (g <$> l).
Proof. induction l as [|x l IH]; [done|]. rewrite !fmap_cons, !zsum_cons, IH. lia. Qed.

Lemma zsum_ext {A} (f g : A -> Z) l : (forall x, x ∈ l -> f x = g x) -> zsum (f <$> l) = zsum (g <$> l).
Proof. intros H. f_equal. apply list_fmap_ext. intros i x Hx. apply H. by eapply list_elem_of_lookup_2. Qed.

Lemma zsum_zero {A} (f : A -> Z) l : (forall x, x ∈ l -> f x = 0) -> zsum (f <$> l) = 0.
Proof. intros H. rewrite (zsum_ext f (fun _ => 0)) by done. clear H. by induction l. Qed.

Lemma zsum_swap {A B} (f : A -> B -> Z) l k :
  zsum ((fun x => zsum ((fun y => f x y) <$> k)) <$> l) = zsum ((fun y => zsum ((fun x => f x y) <$> l)) <$> k).
Proof.
  induction l as [|x l IH]; [symmetry; by apply zsum_zero|]. rewrite fmap_cons, zsum_cons, IH, <- zsum_add.
  by apply zsum_ext.
Qed.

Lemma zsum_scale {A} (f : A -> Z) (n : Z) l : zsum ((fun x => f x * n) <$> l) = zsum (f <$> l) * n.
Proof. induction l as [|x l IH]; [done|]. rewrite !fmap_cons, !zsum_cons, IH. lia. Qed.

Lemma zsum_le {A} (f g : A -> Z) l : (forall x, x ∈ l -> f x <= g x) -> zsum (f <$> l) <= zsum (g <$> l).
Proof.
  induction l as [|x l IH]; intros H; [done|]. rewrite !fmap_cons, !zsum_cons. pose proof (H x ltac:(left)).
  pose proof (IH ltac:(intros y Hy; apply H; by right)). lia.
Qed.

Definition ind (P : Prop) `{Decision P} : Z := if decide P then 1 else 0.

Lemma ind_ext (P Q : Prop) `{Decision P, Decision Q} : (P <-> Q) -> ind P = ind Q.
Proof. intros E. unfold ind. destruct (decide P), (decide Q); naive_solver. Qed.

Lemma zsum_ind_in (l : list Z) d : NoDup l -> zsum ((fun k => ind (k = d)) <$> l) = ind (d ∈ l).
Proof.
  induction 1 as [|x l Hx Hnd IH]; [unfold ind; by rewrite decide_False by apply not_elem_of_nil|].
  rewrite fmap_cons, zsum_cons, IH. unfold ind. destruct (decide (x = d)) as [->|Hne].
  - rewrite decide_False by done. by rewrite decide_True by left.
  - rewrite Z.add_0_l. apply ind_ext. rewrite elem_of_cons. naive_solver.
Qed.

(** ** The invariant *)

Fixpoint linked (G : Z -> cgrp) (c : Z) (l : list Z) : Prop :=
  match l with [] => c = -1 | d :: l => c = d /\ linked G (next_sibling (G d)) l end.

Record tree_ok (G : Z -> cgrp) (kids : Z -> list Z) (rank : Z -> nat) : Prop := {
  to_root : live G CG_ROOT = true;
  to_links : forall c, live G c = true -> linked G (first_child (G c)) (kids c);
  to_kids : forall c d, live G c = true -> d ∈ kids c <-> live G d = true /\ d <> CG_ROOT /\ parent G d = c;
  to_nodup : forall c, live G c = true -> NoDup (kids c);
  to_up : forall d, live G d = true -> d <> CG_ROOT -> live G (parent G d) = true /\ (rank (parent G d) < rank d)%nat }.

Lemma live_range G c : live G c = true -> 0 <= c < MAX_CGS.
Proof. unfold live. rewrite !andb_true_iff, Z.leb_le, Z.ltb_lt. tauto. Qed.

Lemma live_flag G c : live G c = true -> cg_live (g_cpu (G c)) = true.
Proof. unfold live. rewrite !andb_true_iff. tauto. Qed.

Section Tree.
Context (G : Z -> cgrp) (kids : Z -> list Z) (rank : Z -> nat) (HT : tree_ok G kids rank).

Lemma slots_bound (l : list Z) lo : NoDup l -> (forall x, x ∈ l -> lo <= x < MAX_CGS) -> lo <= MAX_CGS ->
  alen l <= MAX_CGS - lo.
Proof.
  intros Hn Hl Hlo. assert (H : l ⊆+ seqZ lo (MAX_CGS - lo)).
  { apply NoDup_submseteq; [done|]. intros x Hx. apply elem_of_seqZ. specialize (Hl x Hx). lia. }
  apply submseteq_length in H. rewrite length_seqZ in H. unfold alen. lia.
Qed.

(** *** Children *)

Lemma sibs_linked l : forall n c, linked G c l -> (forall d, d ∈ l -> d <> -1) -> (length l <= n)%nat -> sibs n G c = l.
Proof.
  induction l as [|d l IH]; intros [|n] c H Hl Hn; cbn in *; try done; try lia.
  - by subst.
  - destruct H as [-> H]. destruct (Z.eqb_spec d (-1)) as [E|_]; [by apply Hl in E; [|left]|]. f_equal.
    apply IH; [done | intros x Hx; apply Hl; by right | lia].
Qed.

Lemma kids_live c d : live G c = true -> d ∈ kids c -> live G d = true.
Proof. intros Hc Hd. by apply (to_kids _ _ _ HT c d Hc) in Hd as [? _]. Qed.

Lemma kids_len c : live G c = true -> alen (kids c) <= MAX_CGS.
Proof.
  intros Hc. pose proof (slots_bound (kids c) 0 (to_nodup _ _ _ HT c Hc)) as H. unfold MAX_CGS in *.
  specialize (H ltac:(intros x Hx; by eapply live_range, kids_live) ltac:(lia)). lia.
Qed.

Lemma children_kids c : live G c = true -> children G c = kids c.
Proof.
  intros Hc. apply sibs_linked; [by apply HT | |].
  - intros d Hd ->. apply (kids_live c _ Hc), live_range in Hd. lia.
  - pose proof (kids_len c Hc). unfold alen, MAX_CGS in *. lia.
Qed.

(** *** Chains to the root *)

Notation chn n := (cg_chain n (fun c => g_cpu (G c))).

Lemma chn_up n : forall c x, live G c = true -> x ∈ chn n c -> live G x = true /\ (rank x <= rank c)%nat.
Proof.
  induction n as [|n IH]; intros c x Hc Hx; cbn in Hx; [by apply elem_of_nil in Hx|].
  destruct (c =? -1); [by apply elem_of_nil in Hx|]. apply elem_of_cons in Hx as [->|Hx]; [done|].
  destruct (Z.eqb_spec c CG_ROOT); [by apply elem_of_nil in Hx|].
  destruct (to_up _ _ _ HT c Hc) as [H1 H2]; [done|]. destruct (IH _ _ H1 Hx). split; [done | unfold parent in *; lia].
Qed.

Lemma chn_nodup n : forall c, live G c = true -> NoDup (chn n c).
Proof.
  induction n as [|n IH]; intros c Hc; cbn; [constructor|]. destruct (c =? -1); [constructor|].
  destruct (Z.eqb_spec c CG_ROOT); [apply NoDup_singleton|].
  destruct (to_up _ _ _ HT c Hc) as [H1 H2]; [done|]. constructor; [|by apply IH].
  intros Hin. destruct (chn_up n _ _ H1 Hin). unfold parent in *. lia.
Qed.

Lemma chn_full n : forall c, live G c = true -> CG_ROOT ∉ chn n c -> length (chn n c) = n.
Proof.
  induction n as [|n IH]; intros c Hc Hx; cbn in *; [done|]. pose proof (live_range G c Hc).
  destruct (Z.eqb_spec c (-1)); [lia|]. destruct (Z.eqb_spec c CG_ROOT) as [->|]; [destruct Hx; left|].
  cbn. f_equal. apply IH; [by apply (to_up _ _ _ HT c Hc)|]. intros Hin. apply Hx. by right.
Qed.

Lemma chn_more n : forall c, CG_ROOT ∈ chn n c -> chn (S n) c = chn n c.
Proof.
  induction n as [|n IH]; intros c H; [by apply elem_of_nil in H|]. cbn in H. change (chn (S (S n)) c) with
    (if c =? -1 then [] else c :: (if c =? CG_ROOT then [] else chn (S n) (parent G c))). cbn.
  destruct (c =? -1); [done|]. destruct (Z.eqb_spec c CG_ROOT); [done|]. f_equal.
  apply elem_of_cons in H as [?|H]; [congruence|]. by apply IH.
Qed.

Lemma chain_has_root c : live G c = true -> CG_ROOT ∈ chain G c.
Proof.
  intros Hc. unfold chain. set (n := Z.to_nat MAX_CGS). destruct (decide (CG_ROOT ∈ chn n c)) as [|Hn]; [done|].
  exfalso. pose proof (chn_full n c Hc Hn) as Hlen.
  pose proof (slots_bound (chn n c) 1 (chn_nodup n c Hc)) as Hb. unfold alen in Hb. rewrite Hlen in Hb.
  assert (Z.of_nat n <= MAX_CGS - 1); [|unfold n, MAX_CGS in *; lia]. apply Hb; [|unfold MAX_CGS; lia].
  intros x Hx. destruct (chn_up n c x Hc Hx) as [Hl _]. apply live_range in Hl.
  assert (x <> CG_ROOT) by (intros ->; done). unfold CG_ROOT in *. lia.
Qed.

Lemma chain_step c : live G c = true -> c <> CG_ROOT -> chain G c = c :: chain G (parent G c).
Proof.
  intros Hc Hr. pose proof (chain_has_root c Hc) as H. unfold chain in *. rewrite <- chn_more by done.
  pose proof (live_range G c Hc). cbn [cg_chain]. destruct (Z.eqb_spec c (-1)); [lia|].
  by destruct (Z.eqb_spec c CG_ROOT).
Qed.

Lemma chain_root : chain G CG_ROOT = [CG_ROOT].
Proof. done. Qed.

Lemma chain_self c : live G c = true -> c ∈ chain G c.
Proof. intros Hc. destruct (decide (c = CG_ROOT)) as [->|]; [rewrite chain_root | rewrite chain_step by done]; left. Qed.

Lemma chain_nodup c : live G c = true -> NoDup (chain G c).
Proof. apply chn_nodup. Qed.

Lemma chain_up c x : live G c = true -> x ∈ chain G c -> live G x = true /\ (rank x <= rank c)%nat.
Proof. apply chn_up. Qed.

Lemma chain_len c : live G c = true -> (length (chain G c) <= Z.to_nat MAX_CGS)%nat.
Proof.
  intros Hc. pose proof (slots_bound (chain G c) 0 (chain_nodup c Hc)) as H. unfold alen, MAX_CGS in *.
  assert (forall x, x ∈ chain G c -> 0 <= x < 512) as Hx by (intros x Hx; by apply (live_range G), (chain_up c x Hc Hx)).
  specialize (H Hx ltac:(lia)). lia.
Qed.

(** *** Counting below a group *)

(** [d] is [c], or below exactly one child of [c]. *)
Lemma below_split c d : live G c = true -> live G d = true ->
  ind (c ∈ chain G d) = ind (d = c) + zsum ((fun k => ind (k ∈ chain G d)) <$> kids c).
Proof.
  intros Hc. remember (rank d) as r eqn:Er. revert d Er.
  induction r as [r IH] using lt_wf_ind. intros d -> Hd.
  destruct (decide (d = c)) as [->|Hne].
  - rewrite (zsum_zero _ (kids c)); [unfold ind; rewrite decide_True by (by apply chain_self); by rewrite decide_True|].
    intros k Hk. pose proof (kids_live c k Hc Hk) as Hl. apply (to_kids _ _ _ HT) in Hk as (_ & Hr & Hp); [|done].
    unfold ind. rewrite decide_False; [done|]. intros Hin. destruct (chain_up c k Hc Hin) as [_ Hle].
    destruct (to_up _ _ _ HT k Hl Hr) as [_ Hlt]. rewrite Hp in Hlt. lia.
  - replace (ind (d = c)) with 0 by (unfold ind; by rewrite decide_False). destruct (decide (d = CG_ROOT)) as [->|Hr].
    + rewrite chain_root. rewrite zsum_zero.
      * unfold ind. rewrite decide_False; [done|]. by intros ->%list_elem_of_singleton.
      * intros k Hk. apply (to_kids _ _ _ HT) in Hk as (_ & Hkr & _); [|done]. unfold ind. rewrite decide_False; [done|].
        by intros ->%list_elem_of_singleton.
    + destruct (to_up _ _ _ HT d Hd Hr) as [Hp Hlt]. pose proof (IH _ Hlt _ eq_refl Hp) as E.
      rewrite (chain_step d Hd Hr). transitivity (ind (c ∈ chain G (parent G d))).
      { apply ind_ext. rewrite elem_of_cons. naive_solver. }
      rewrite E, Z.add_0_l. rewrite (zsum_ext (fun k => ind (k ∈ d :: chain G (parent G d)))
        (fun k => ind (k = d) + ind (k ∈ chain G (parent G d)))).
      2:{ intros k _. unfold ind at 2. destruct (decide (k = d)) as [->|Hkd].
          - unfold ind. rewrite decide_True by left. rewrite decide_False; [done|]. intros Hin.
            destruct (chain_up _ d Hp Hin). lia.
          - rewrite Z.add_0_l. apply ind_ext. rewrite elem_of_cons. naive_solver. }
      rewrite zsum_add, zsum_ind_in by (by apply HT). f_equal. apply ind_ext.
      rewrite (to_kids _ _ _ HT c d Hc). naive_solver.
Qed.

Definition slots : list Z := seqZ 0 MAX_CGS.

(** The sum of [w] over the live groups at or below [c]. *)
Definition below (w : Z -> Z) (c : Z) : Z :=
  zsum ((fun d => if live G d then ind (c ∈ chain G d) * w d else 0) <$> slots).

Lemma below_kids w c : live G c = true -> below w c = w c + zsum (below w <$> kids c).
Proof.
  intros Hc. unfold below. rewrite (zsum_ext _ (fun d => (if live G d then ind (d = c) * w d else 0) +
    zsum ((fun k => if live G d then ind (k ∈ chain G d) * w d else 0) <$> kids c))).
  2:{ intros d _. destruct (live G d) eqn:Hd; [|rewrite zsum_zero; done].
      rewrite below_split by done. rewrite zsum_scale. lia. }
  rewrite zsum_add. f_equal; [|apply zsum_swap].
  rewrite (zsum_ext _ (fun d => ind (d = c) * w c)).
  2:{ intros d _. unfold ind. destruct (decide (d = c)) as [->|]; [by rewrite Hc | by destruct (live G d)]. }
  rewrite zsum_scale, zsum_ind_in by apply NoDup_seqZ. unfold ind. rewrite decide_True; [lia|].
  apply elem_of_seqZ. by apply live_range in Hc.
Qed.

Lemma subtree_tasks_below n : forall c, live G c = true -> (Z.to_nat MAX_CGS < n + length (chain G c))%nat ->
  subtree_tasks n G c = below (fun d => nprocs (G d)) c.
Proof.
  induction n as [|n IH]; intros c Hc Hn; [pose proof (chain_len c Hc); lia|].
  cbn [subtree_tasks]. rewrite below_kids, children_kids by done. unfold cg_member_count. f_equal. apply zsum_ext.
  intros k Hk. pose proof (kids_live c k Hc Hk) as Hl. apply (to_kids _ _ _ HT) in Hk as (_ & Hr & Hp); [|done].
  apply IH; [done|]. rewrite (chain_step k), Hp by done. cbn. lia.
Qed.

Lemma subtree_count c : live G c = true -> cg_subtree_tasks_locked G c = below (fun d => nprocs (G d)) c.
Proof.
  intros Hc. apply subtree_tasks_below; [done|].
  pose proof (chain_self c Hc) as H. destruct (chain G c); [by apply elem_of_nil in H|]. cbn. lia.
Qed.
End Tree.
