(* ===== verification/CgroupInv.v ===== *)
(** * The control-group tree: every operation keeps it consistent

    One invariant over the pool, the task table and the counters; its
    preservation by boot, attaching, leaving, moving, control-file writes,
    creation and removal; and the guarantees that rest on it. *)
From S2P Require Import Prelude Sched SchedOps Cgroup CgroupFs CgroupSpec.
#[local] Open Scope Z_scope.
#[local] Open Scope list_scope.

(** ** Counting tasks *)

Lemma zsum_upd {A} `{EqDecision A} (f g : A -> Z) l p : NoDup l -> p ∈ l -> (forall x, x <> p -> g x = f x) ->
  zsum (g <$> l) = zsum (f <$> l) - f p + g p.
Proof.
  induction 1 as [|x l Hx Hnd IH]; intros Hp Hg; [by apply elem_of_nil in Hp|].
  rewrite !fmap_cons, !zsum_cons. apply elem_of_cons in Hp as [->|Hp].
  - rewrite (zsum_ext g f); [lia|]. intros y Hy. apply Hg. congruence.
  - rewrite (IH Hp Hg), (Hg x); [lia|]. congruence.
Qed.

Definition members (T : Z -> task) (c : Z) : Z := zsum ((fun i => ind (t_cg (T i) = c)) <$> proc_slots).

Lemma proc_slots_nodup : NoDup proc_slots.
Proof. apply NoDup_seqZ. Qed.

Lemma members_upd T p t c : p ∈ proc_slots ->
  members (upd T p t) c = members T c - ind (t_cg (T p) = c) + ind (t_cg t = c).
Proof.
  intros Hp. unfold members. rewrite (zsum_upd (fun i => ind (t_cg (T i) = c)) _ proc_slots p proc_slots_nodup Hp).
  - f_equal. apply ind_ext. by rewrite upd_eq.
  - intros x Hx. apply ind_ext. by rewrite upd_ne.
Qed.

Lemma members_ext T T' c : (forall i, t_cg (T' i) = t_cg (T i)) -> members T' c = members T c.
Proof. intros H. apply zsum_ext. intros i _. apply ind_ext. by rewrite H. Qed.

Lemma zsum_nonneg {A} (f : A -> Z) l : (forall x, 0 <= f x) -> 0 <= zsum (f <$> l).
Proof. intros H. induction l as [|x l IH]; [done|]. rewrite fmap_cons, zsum_cons. specialize (H x). lia. Qed.

Lemma ind_range P `{Decision P} : 0 <= ind P <= 1.
Proof. unfold ind. case_decide; lia. Qed.

Lemma members_pos T p c : p ∈ proc_slots -> t_cg (T p) = c -> 1 <= members T c.
Proof.
  intros Hp Hc. pose proof (members_upd T p (set_t_cg (c - 1) (T p)) c Hp) as E.
  assert (0 <= members (upd T p (set_t_cg (c - 1) (T p))) c) by (apply zsum_nonneg; intros; apply ind_range).
  unfold ind in E. rewrite decide_True in E by done. cbn in E. rewrite decide_False in E by lia. lia.
Qed.

(** ** The invariant *)

Record cg_inv (s : cgst) : Prop := {
  ci_tree : exists kids rank, tree_ok (g_cgs s) kids rank;
  ci_members : forall c, live (g_cgs s) c = true -> nprocs (g_cgs s c) = members (tasks s) c;
  ci_tasks : forall i, i ∈ proc_slots -> t_cg (tasks s i) = -1 \/ live (g_cgs s) (t_cg (tasks s i)) = true;
  ci_weight : forall c, live (g_cgs s) c = true -> CG_WEIGHT_MIN <= weight (g_cgs s c) <= CG_WEIGHT_MAX;
  ci_nlive : g_nlive s = zsum ((fun c => ind (live (g_cgs s) c = true)) <$> slots) }.

(** Updates that leave the links alone. *)
Definition same_shape (G G' : Z -> cgrp) : Prop := forall c,
  cg_live (g_cpu (G' c)) = cg_live (g_cpu (G c)) /\ parent G' c = parent G c /\
  first_child (G' c) = first_child (G c) /\ next_sibling (G' c) = next_sibling (G c).

Lemma shape_live G G' c : same_shape G G' -> live G' c = live G c.
Proof. intros H. unfold live. by rewrite (proj1 (H c)). Qed.

Lemma shape_linked G G' l : forall c, same_shape G G' -> linked G' c l <-> linked G c l.
Proof.
  induction l as [|d l IH]; intros c H; cbn; [done|]. destruct (H d) as (_ & _ & _ & ->). by rewrite IH.
Qed.

Lemma shape_tree G G' kids rank : same_shape G G' -> tree_ok G kids rank -> tree_ok G' kids rank.
Proof.
  intros H [T1 T2 T3 T4 T5]. pose proof (fun c => shape_live G G' c H) as L.
  constructor; intros *; rewrite ?L; auto.
  - intros Hc. apply (shape_linked G G' _ _ H). destruct (H c) as (_ & _ & -> & _). auto.
  - intros Hc. destruct (H d) as (_ & -> & _). auto.
  - intros Hd Hr. destruct (H d) as (_ & -> & _). auto.
Qed.

Lemma shape_chain G G' : same_shape G G' -> forall c, chain G' c = chain G c.
Proof.
  intros H. unfold chain. generalize (Z.to_nat MAX_CGS). induction n as [|n IH]; intros c; cbn; [done|].
  destruct (H c) as (_ & Hp & _). unfold parent in Hp. by rewrite Hp, IH.
Qed.

Lemma shape_upd G c g : cg_live (g_cpu g) = cg_live (g_cpu (G c)) -> cg_parent (g_cpu g) = cg_parent (g_cpu (G c)) ->
  first_child g = first_child (G c) -> next_sibling g = next_sibling (G c) -> same_shape G (upd G c g).
Proof. intros H1 H2 H3 H4 d. unfold parent, upd. by destruct (Z.eqb_spec d c) as [->|]. Qed.

(** Updates of one group that keep links, members and a valid weight. *)
Lemma inv_group s c g : cg_inv s -> same_shape (g_cgs s) (upd (g_cgs s) c g) ->
  nprocs g = nprocs (g_cgs s c) -> (live (g_cgs s) c = true -> CG_WEIGHT_MIN <= weight g <= CG_WEIGHT_MAX) ->
  cg_inv (with_group s c g).
Proof.
  intros [(kids & rank & H1) H2 H3 H4 H5] Hs Hn Hw. pose proof (fun d => shape_live _ _ d Hs) as L.
  constructor; cbn; intros *; rewrite ?L; auto.
  - exists kids, rank. by eapply shape_tree.
  - intros Hl. rewrite <- H2 by done. unfold upd. by destruct (Z.eqb_spec c0 c) as [->|].
  - intros Hl. unfold upd. destruct (Z.eqb_spec c0 c) as [->|]; auto.
  - rewrite H5. apply zsum_ext. intros d _. by rewrite L.
Qed.

(** Updates of the task table that keep the membership. *)
Lemma inv_tasks s T : cg_inv s -> (forall i, t_cg (T i) = t_cg (tasks s i)) -> cg_inv (with_tasks s T).
Proof.
  intros [H1 H2 H3 H4 H5] HT. constructor; cbn; auto.
  - intros c Hc. rewrite (members_ext _ _ c HT). auto.
  - intros i Hi. rewrite HT. auto.
Qed.

Lemma inv_as s t c : cg_inv s -> cg_inv (set_as_cg s t c).
Proof. intros [H1 H2 H3 H4 H5]. unfold set_as_cg. destruct (t_as t); by constructor. Qed.

Lemma inv_foldl {A} (f : cgst -> A -> cgst) (P : cgst -> Prop) l : (forall s x, x ∈ l -> P s -> P (f s x)) ->
  forall s, P s -> P (foldl f s l).
Proof.
  induction l as [|x l IH]; intros H s Hs; cbn; [done|]. apply IH; [intros; apply H; [by right|done]|].
  apply H; [left | done].
Qed.

Lemma inv_refresh s : cg_inv s -> cg_inv (cg_refresh_weights_locked s).
Proof.
  apply inv_foldl. intros s' i _ H. unfold refresh_task. case_match; [done|]. apply inv_tasks; [done|].
  intros j. unfold upd. by destruct (Z.eqb_spec j i) as [->|].
Qed.

(** A task joins, leaves or changes group. *)
Lemma shape_nprocs G c n : same_shape G (upd G c (set_nprocs n (G c))).
Proof. by apply shape_upd. Qed.

(** Setting the counters to the members makes the invariant hold again. *)
Lemma inv_member s s' : cg_inv s -> same_shape (g_cgs s) (g_cgs s') ->
  (forall c, weight (g_cgs s' c) = weight (g_cgs s c)) -> g_nlive s' = g_nlive s ->
  (forall c, live (g_cgs s) c = true -> nprocs (g_cgs s' c) = members (tasks s') c) ->
  (forall i, i ∈ proc_slots -> t_cg (tasks s' i) = -1 \/ live (g_cgs s) (t_cg (tasks s' i)) = true) -> cg_inv s'.
Proof.
  intros [(kids & rank & H1) H2 H3 H4 H5] Hs Hw Hn Hm Ht. pose proof (fun d => shape_live _ _ d Hs) as L.
  constructor; intros *; rewrite ?L; auto.
  - exists kids, rank. by eapply shape_tree.
  - intros Hc. rewrite Hw. auto.
  - rewrite Hn, H5. apply zsum_ext. intros d _. by rewrite L.
Qed.

(** The state after a task has joined a group. *)
Lemma inv_join s p c t : cg_inv s -> p ∈ proc_slots -> t_cg (tasks s p) = -1 -> live (g_cgs s) c = true -> t_cg t = c ->
  cg_inv (with_group (with_task s p t) c (set_nprocs (nprocs (g_cgs s c) + 1) (g_cgs s c))).
Proof.
  intros H Hp Hn Hc Ht. pose proof (live_range _ _ Hc) as Hr. apply (inv_member s); auto; cbn.
  - apply shape_nprocs.
  - intros d. unfold upd. by destruct (Z.eqb_spec d c) as [->|].
  - intros d Hd. rewrite members_upd, <- (ci_members s H) by done. unfold ind. rewrite Hn, Ht.
    destruct (decide (c = d)) as [->|Hne].
    + rewrite upd_eq, decide_False by lia. cbn. lia.
    + rewrite upd_ne by done. apply live_range in Hd. rewrite decide_False by lia. lia.
  - intros i Hi. unfold upd. destruct (Z.eqb_spec i p) as [->|]; [right; by rewrite Ht | by apply (ci_tasks s H)].
Qed.

Lemma inv_attach s p c : cg_inv s -> p ∈ proc_slots -> cg_inv (cg_attach_new s p c).1.
Proof.
  intros H Hp. unfold cg_attach_new. destruct (Z.eqb_spec (t_cg (tasks s p)) (-1)) as [E|]; [|done]. cbn [negb orb].
  destruct (live (g_cgs s) c) eqn:Hc; [|done]. cbn [negb]. case_match; [done|]. cbn [fst]. apply inv_as.
  exact (inv_join s p c (set_t_weight _ (set_t_cg c (tasks s p))) H Hp E Hc eq_refl).
Qed.

Lemma inv_detach s p : cg_inv s -> p ∈ proc_slots -> cg_inv (cg_detach s p).
Proof.
  intros H Hp. unfold cg_detach. set (t := tasks s p). destruct (ci_tasks s H p Hp) as [E|Hl]; fold t in E || fold t in Hl.
  - rewrite E. cbn [live Z.leb Z.compare andb]. apply inv_tasks; [done|].
    intros i. unfold upd. destruct (Z.eqb_spec i p) as [->|]; [by rewrite <- E | done].
  - pose proof (live_range _ _ Hl). rewrite Hl, (ci_members s H _ Hl).
    pose proof (members_pos (tasks s) p _ Hp eq_refl) as Hpos. fold t in Hpos.
    destruct (Z.ltb_spec 0 (members (tasks s) (t_cg t))); [|lia]. cbn [andb].
    apply (inv_member s); auto; cbn.
    + apply shape_nprocs.
    + intros d. unfold upd. by destruct (Z.eqb_spec d (t_cg t)) as [->|].
    + intros d Hd. rewrite members_upd by done. fold t. cbn [t_cg]. unfold ind. pose proof (live_range _ _ Hd).
      rewrite (decide_False (P := -1 = d)) by lia. destruct (decide (t_cg t = d)) as [<-|Hne].
      * rewrite upd_eq. cbn. lia.
      * rewrite upd_ne by done. rewrite (ci_members s H d Hd). lia.
    + intros i Hi. unfold upd. destruct (Z.eqb_spec i p) as [->|]; [by left | by apply (ci_tasks s H)].
Qed.

(** The counters and the task when it goes from one group to another. *)
Lemma inv_switch s i c : cg_inv s -> i ∈ proc_slots -> live (g_cgs s) c = true -> 0 <= t_cg (tasks s i) ->
  t_cg (tasks s i) <> c ->
  let old := t_cg (tasks s i) in
  let s1 := with_group s old (set_nprocs (nprocs (g_cgs s old) - 1) (g_cgs s old)) in
  let s2 := with_task s1 i (set_t_cg c (tasks s i)) in
  cg_inv (with_group s2 c (set_nprocs (nprocs (g_cgs s2 c) + 1) (g_cgs s2 c))).
Proof.
  intros H Hi Hc H0 Hne. cbn zeta. set (old := t_cg (tasks s i)) in *. cbn [with_task with_tasks with_group with_groups g_cgs tasks].
  rewrite (upd_ne _ old _ c) by done. destruct (ci_tasks s H i Hi) as [E|Hl]; fold old in E || fold old in Hl; [lia|].
  assert (Hsh : same_shape (g_cgs s) (upd (upd (g_cgs s) old (set_nprocs (nprocs (g_cgs s old) - 1) (g_cgs s old))) c
    (set_nprocs (nprocs (g_cgs s c) + 1) (g_cgs s c)))).
  { intros d. unfold parent, upd. destruct (Z.eqb_spec d c) as [->|]; [done|]. by destruct (Z.eqb_spec d old) as [->|]. }
  apply (inv_member s); auto; cbn.
  - intros d. unfold upd. destruct (Z.eqb_spec d c) as [->|]; [done|]. by destruct (Z.eqb_spec d old) as [->|].
  - intros d Hd. rewrite members_upd by done. fold old. cbn [t_cg set_t_cg]. unfold ind.
    destruct (decide (c = d)) as [<-|Hcd].
    + rewrite upd_eq, decide_False by done. cbn. rewrite (ci_members s H c Hc). lia.
    + rewrite upd_ne by done. destruct (decide (old = d)) as [<-|Hod].
      * rewrite upd_eq. cbn. rewrite (ci_members s H old Hl). lia.
      * rewrite upd_ne by done. rewrite (ci_members s H d Hd). lia.
  - intros j Hj. unfold upd. destruct (Z.eqb_spec j i) as [->|]; [right; done | by apply (ci_tasks s H)].
Qed.

Lemma inv_move_task tgid c s i : i ∈ proc_slots -> cg_inv s /\ live (g_cgs s) c = true ->
  cg_inv (move_task tgid c s i) /\ live (g_cgs (move_task tgid c s i)) c = true.
Proof.
  intros Hi [H Hc]. unfold move_task. set (q := tasks s i). case_match; [done|].
  set (s1 := if (0 <=? t_cg q) && negb (t_cg q =? c) then _ else s).
  assert (H1 : cg_inv s1 /\ live (g_cgs s1) c = true).
  { unfold s1. destruct (Z.leb_spec 0 (t_cg q)) as [Hz|]; [|done]. destruct (Z.eqb_spec (t_cg q) c) as [|Hne]; [done|].
    cbn [andb negb]. split; [by apply inv_switch|]. unfold live. cbn [with_task with_tasks with_group with_groups g_cgs].
    rewrite upd_eq, upd_ne by congruence. exact Hc. }
  destruct H1 as [H1 Hc1]. split.
  - apply inv_as, inv_tasks; [done|]. intros j. unfold upd. by destruct (Z.eqb_spec j i) as [->|].
  - unfold set_as_cg. by destruct (t_as q).
Qed.

Lemma inv_move_all s tgid c : cg_inv s -> live (g_cgs s) c = true -> cg_inv (foldl (move_task tgid c) s proc_slots).
Proof.
  intros H Hc.
  refine (proj1 (inv_foldl _ (fun s => cg_inv s /\ live (g_cgs s) c = true) proc_slots _ s (conj H Hc))).
  intros s' i Hi Hs. by apply inv_move_task.
Qed.

Lemma inv_move s pid c : cg_inv s -> cg_inv (cg_move_tgid_locked s pid c).1.
Proof.
  intros H. unfold cg_move_tgid_locked. destruct (live (g_cgs s) c) eqn:Hc; [|done]. cbn [negb].
  destruct (List.find _ proc_slots) as [l|]; [|done]. do 2 (case_match; [done|]). cbn [fst].
  by apply inv_move_all.
Qed.

(** ** Creating a group *)

Lemma linked_frame G G' l : forall c, (forall d, d ∈ l -> next_sibling (G' d) = next_sibling (G d)) ->
  linked G c l -> linked G' c l.
Proof.
  induction l as [|d l IH]; intros c H; cbn; [done|]. intros [-> HL]. split; [done|]. rewrite H by left.
  apply IH; [intros x Hx; apply H; by right | done].
Qed.

Section Add.
Context (G : Z -> cgrp) (kids : Z -> list Z) (rank : Z -> nat) (HT : tree_ok G kids rank).
Context (c slot : Z) (name : list Z) (Hc : live G c = true) (Hs : 1 <= slot < MAX_CGS).
Context (Hf : cg_live (g_cpu (G slot)) = false).
Notation G1 := (upd G slot (new_group c (first_child (G c)) name)).
Notation G' := (upd G1 c (set_first_child slot (G c))).

Lemma slot_dead d : live G d = true -> d <> slot.
Proof. intros Hd ->. apply live_flag in Hd. congruence. Qed.

Lemma add_live d : live G' d = live G d || (d =? slot).
Proof.
  unfold live. pose proof (slot_dead c Hc). destruct (Z.eqb_spec d slot) as [->|].
  - rewrite upd_ne, upd_eq by done. cbn. destruct (Z.leb_spec 0 slot), (Z.ltb_spec slot MAX_CGS); lia.
  - rewrite orb_false_r. unfold upd. destruct (Z.eqb_spec d c) as [->|]; [done|]. by destruct (Z.eqb_spec d slot).
Qed.

Lemma add_parent d : parent G' d = if d =? slot then c else parent G d.
Proof.
  unfold parent, upd. pose proof (slot_dead c Hc). destruct (Z.eqb_spec d c) as [->|]; [by destruct (Z.eqb_spec c slot)|].
  by destruct (Z.eqb_spec d slot).
Qed.

Lemma add_tree : tree_ok G' (fun d => if d =? slot then [] else if d =? c then slot :: kids c else kids d)
  (fun d => if d =? slot then S (rank c) else rank d).
Proof.
  pose proof (slot_dead c Hc) as Hcs.
  assert (Hk : forall d k, live G d = true -> k ∈ kids d -> k <> slot)
    by (intros d k Hd Hk; by eapply slot_dead, kids_live).
  assert (Hn : forall d, d <> slot -> next_sibling (G' d) = next_sibling (G d)).
  { intros d Hd. unfold upd. destruct (Z.eqb_spec d c) as [->|]; [done|]. by destruct (Z.eqb_spec d slot). }
  constructor.
  - rewrite add_live. by rewrite (to_root _ _ _ HT).
  - intros d. rewrite add_live. destruct (Z.eqb_spec d slot) as [->|Hd].
    + intros _. rewrite upd_ne, upd_eq by done. done.
    + rewrite orb_false_r. intros Hl. destruct (Z.eqb_spec d c) as [->|Hdc].
      * rewrite upd_eq. cbn. split; [done|]. rewrite upd_ne, upd_eq by done. cbn.
        apply (linked_frame G); [intros k Hkk; by eapply Hn, Hk | by apply HT].
      * rewrite !upd_ne by done. apply (linked_frame G); [intros k Hkk; by eapply Hn, Hk | by apply HT].
  - intros d k. rewrite !add_live, add_parent. pose proof (to_kids _ _ _ HT d k) as E.
    destruct (Z.eqb_spec d slot) as [->|Hd].
    + intros _. split; [by intros ?%elem_of_nil|]. destruct (Z.eqb_spec k slot) as [->|]; [naive_solver|].
      rewrite orb_false_r. intros (Hkl & Hkr & Hp). destruct (to_up _ _ _ HT k Hkl Hkr) as [Hpl _].
      exfalso. rewrite Hp in Hpl. by apply (slot_dead slot).
    + rewrite orb_false_r. intros Hl. specialize (E Hl). destruct (Z.eqb_spec k slot) as [->|Hks].
      * rewrite orb_true_r. destruct (Z.eqb_spec d c) as [->|Hdc].
        -- split; [|intros _; left]. intros _. unfold CG_ROOT. split; [done|]. split; [lia | done].
        -- split; [intros Hin; by apply (Hk d) in Hin | intros (_ & _ & <-); done].
      * rewrite orb_false_r. destruct (Z.eqb_spec d c) as [->|Hdc]; [|done]. rewrite elem_of_cons, <- E.
        split; [by intros [?|?] | by right].
  - intros d. rewrite add_live. destruct (Z.eqb_spec d slot) as [->|Hd]; [constructor|]. rewrite orb_false_r. intros Hl.
    destruct (Z.eqb_spec d c) as [->|]; [|by apply HT]. constructor; [|by apply HT]. intros Hin. by apply (Hk c) in Hin.
  - intros d. rewrite !add_live, add_parent. destruct (Z.eqb_spec d slot) as [->|Hd].
    + intros _ _. rewrite Hc. destruct (Z.eqb_spec c slot); [done|]. split; [done | lia].
    + rewrite orb_false_r. intros Hl Hr. destruct (to_up _ _ _ HT d Hl Hr) as [Hpl Hlt]. rewrite Hpl.
      destruct (Z.eqb_spec (parent G d) slot) as [E|]; [by apply slot_dead in E|]. done.
Qed.
End Add.

Lemma free_group_spec G slot : free_group G = Some slot -> 1 <= slot < MAX_CGS /\ cg_live (g_cpu (G slot)) = false.
Proof.
  intros H. apply List.find_some in H as [H1 H2]. apply list_elem_of_In, elem_of_seqZ in H1.
  unfold CG_ROOT, MAX_CGS in *. apply negb_true_iff in H2. split; [lia | done].
Qed.

Lemma inv_add s c name : cg_inv s -> live (g_cgs s) c = true -> cg_inv (add_group s c name).1.
Proof.
  intros H Hc. pose proof H as [(kids & rank & H1) H2 H3 H4 H5]. unfold add_group. destruct (child_named _ c name); [done|].
  destruct (free_group (g_cgs s)) as [slot|] eqn:Ef; [|done]. apply free_group_spec in Ef as [Hs Hf]. cbn [fst].
  pose proof (slot_dead (g_cgs s) slot Hf c Hc) as Hcs. rewrite (upd_ne _ slot _ c) by done. apply inv_refresh.
  pose proof (add_live (g_cgs s) c slot name Hc Hs Hf) as L. set (G' := upd _ c _) in *.
  assert (Hold : forall d, live (g_cgs s) d = true -> nprocs (G' d) = nprocs (g_cgs s d) /\ weight (G' d) = weight (g_cgs s d)).
  { intros d Hd. pose proof (slot_dead (g_cgs s) slot Hf d Hd). unfold G'. unfold upd.
    destruct (Z.eqb_spec d c) as [->|]; [done|]. by destruct (Z.eqb_spec d slot). }
  assert (Hnew : G' slot = new_group c (first_child (g_cgs s c)) name) by (unfold G'; by rewrite upd_ne, upd_eq by done).
  constructor; cbn [g_cgs tasks g_nlive].
  - eexists _, _. by apply (add_tree _ _ _ H1 c slot name Hc Hs Hf).
  - intros d. rewrite L. destruct (Z.eqb_spec d slot) as [->|].
    + intros _. rewrite Hnew. cbn. symmetry. apply zsum_zero. intros i Hi. unfold ind. rewrite decide_False; [done|].
      intros E. destruct (H3 i Hi) as [E'|Hl]; [lia|]. rewrite E in Hl. by apply (slot_dead (g_cgs s) slot Hf slot).
    + rewrite orb_false_r. intros Hl. destruct (Hold d Hl) as [-> _]. auto.
  - intros i Hi. rewrite L. destruct (H3 i Hi) as [?| ->]; [by left | by right].
  - intros d. rewrite L. destruct (Z.eqb_spec d slot) as [->|]; [intros _; by rewrite Hnew|].
    rewrite orb_false_r. intros Hl. destruct (Hold d Hl) as [_ ->]. auto.
  - rewrite H5. rewrite (zsum_upd (fun d => ind (live (g_cgs s) d = true)) (fun d => ind (live G' d = true)) slots slot).
    + unfold ind. rewrite L, Z.eqb_refl, orb_true_r.
      rewrite decide_False by (intros E; by apply (slot_dead (g_cgs s) slot Hf slot)). rewrite decide_True by done. lia.
    + apply NoDup_seqZ.
    + apply elem_of_seqZ. lia.
    + intros d Hd. apply ind_ext. rewrite L. destruct (Z.eqb_spec d slot); [done|]. by rewrite orb_false_r.
Qed.

(** ** Removing a group *)

(** Where the walk of [unlink] ends: at the link that names [c]. *)
Definition link_to (l1 : list Z) (lk : bool * Z) : bool * Z :=
  match last l1 with Some x => (false, x) | None => lk end.

Lemma link_to_cons d l lk : link_to (d :: l) lk = link_to l (false, d).
Proof. unfold link_to. rewrite last_cons. by destruct (last l). Qed.

Lemma unlink_found G c l2 : forall l1 n lk, linked G (link_get G lk) (l1 ++ c :: l2) -> c ∉ l1 ->
  (forall d, d ∈ l1 ++ [c] -> d <> -1) -> (length l1 < n)%nat ->
  unlink n G lk c = link_set G (link_to l1 lk) (next_sibling (G c)) /\ link_get G (link_to l1 lk) = c.
Proof.
  induction l1 as [|d l1 IH]; intros [|n] lk HL Hc Hm Hn; cbn in Hn; try lia; cbn [unlink app linked] in *.
  - destruct HL as [E _]. rewrite E. destruct (Z.eqb_spec c (-1)) as [E1|]; [by destruct (Hm c); [left|]|].
    by rewrite Z.eqb_refl.
  - destruct HL as [E HL]. rewrite E. destruct (Z.eqb_spec d (-1)) as [E1|]; [by destruct (Hm d); [left|]|].
    destruct (Z.eqb_spec d c) as [->|]; [destruct Hc; left|]. rewrite link_to_cons. apply IH; [done | | | lia].
    + intros Hin. apply Hc. by right.
    + intros x Hx. apply Hm. by right.
Qed.

(** The list without [c], in any table whose links were redirected there. *)
Lemma linked_cut G G' c l2 : forall l1 a b, linked G a (l1 ++ c :: l2) -> c ∉ l1 -> NoDup (l1 ++ c :: l2) ->
  (forall d, d ∈ l1 ++ l2 -> next_sibling (G' d) =
     if decide (last l1 = Some d) then next_sibling (G c) else next_sibling (G d)) ->
  b = match l1 with [] => next_sibling (G c) | _ => a end -> linked G' b (l1 ++ l2).
Proof.
  induction l1 as [|d l1 IH]; intros a b HL Hc Hnd Hn ->; cbn in *.
  - apply (linked_frame G); [|apply HL]. intros d Hd. rewrite Hn by done. by rewrite decide_False.
  - destruct HL as [-> HL]. split; [done|]. apply NoDup_cons in Hnd as [Hd Hnd]. apply (IH (next_sibling (G d)));
      [done | intros Hin; apply Hc; by right | done | |].
    + intros x Hx. rewrite Hn by (by right). destruct l1 as [|y l1]; [|by rewrite last_cons_cons].
      cbn. rewrite (decide_False (P := None = Some x)) by done. rewrite decide_False; [done|]. intros [= ->].
      apply Hd. cbn. by right.
    + rewrite Hn by left. destruct l1 as [|y l1]; [by rewrite decide_True|]. rewrite decide_False; [done|].
      rewrite last_cons_cons. intros E. apply Hd. apply elem_of_app. left. by apply last_Some_elem_of.
Qed.

Lemma link_set_keeps G l v d : g_cpu (link_set G l v d) = g_cpu (G d) /\ nprocs (link_set G l v d) = nprocs (G d) /\
  weight (link_set G l v d) = weight (G d).
Proof. unfold link_set, upd. destruct (Z.eqb_spec d (snd l)) as [->|]; [by destruct (fst l) | done]. Qed.

Section Remove.
Context (G : Z -> cgrp) (kids : Z -> list Z) (rank : Z -> nat) (HT : tree_ok G kids rank).
Context (c : Z) (l1 l2 : list Z) (Hc : live G c = true) (Hr : c <> CG_ROOT) (Hleaf : first_child (G c) = -1).
Notation pa := (parent G c).
Context (Hk : kids pa = l1 ++ c :: l2).
Notation G1 := (upd G c (set_live false (G c))).
Notation G2 := (unlink (S (Z.to_nat MAX_CGS)) G1 (true, parent G1 c) c).

Lemma pa_live : live G pa = true.
Proof. by apply (to_up _ _ _ HT c). Qed.

Lemma pa_nodup : NoDup (l1 ++ c :: l2) /\ c ∉ l1.
Proof.
  pose proof (to_nodup _ _ _ HT pa pa_live) as H. rewrite Hk in H. split; [done|].
  apply NoDup_app in H as (_ & H & _). intros Hin. apply (H c Hin). left.
Qed.

Lemma kids_leaf : kids c = [].
Proof.
  pose proof (to_links _ _ _ HT c Hc) as H. rewrite Hleaf in H. destruct (kids c) as [|d l] eqn:E; [done|].
  destruct H as [H _]. assert (Hd : live G d = true) by (apply (kids_live _ _ _ HT c d Hc); rewrite E; left).
  apply live_range in Hd. lia.
Qed.

Lemma dead_next d : next_sibling (G1 d) = next_sibling (G d).
Proof. unfold upd. by destruct (Z.eqb_spec d c) as [->|]. Qed.

Lemma dead_first d : first_child (G1 d) = first_child (G d).
Proof. unfold upd. by destruct (Z.eqb_spec d c) as [->|]. Qed.

Lemma unlink_eq : G2 = link_set G1 (link_to l1 (true, pa)) (next_sibling (G c)) /\
  forall d, d ∈ l1 -> live G d = true /\ parent G d = pa.
Proof.
  pose proof pa_live as Hp. pose proof pa_nodup as [Hnd Hn].
  assert (Hm : forall d, d ∈ l1 ++ c :: l2 -> live G d = true /\ parent G d = pa).
  { intros d Hd. rewrite <- Hk in Hd. apply (to_kids _ _ _ HT pa d Hp) in Hd. naive_solver. }
  assert (Hlen : alen (l1 ++ c :: l2) <= MAX_CGS) by (rewrite <- Hk; by apply (kids_len G kids rank HT)).
  assert (HL : linked G1 (link_get G1 (true, pa)) (l1 ++ c :: l2)).
  { apply (linked_frame G); [intros d _; apply dead_next|]. unfold link_get. cbn [fst snd]. rewrite dead_first, <- Hk.
    by apply HT. }
  assert (Ep : parent G1 c = pa) by (unfold parent; by rewrite upd_eq).
  rewrite Ep. split; [|intros d Hd; apply Hm, elem_of_app; by left].
  rewrite <- (dead_next c). apply (unlink_found G1 c l2 l1); [done | done | |].
  - intros d Hd ->. assert (live G (-1) = true); [|by apply live_range in H; lia]. apply Hm.
    apply elem_of_app in Hd as [?|?%list_elem_of_singleton]; [apply elem_of_app; by left | subst; apply elem_of_app; right; left].
  - unfold alen, MAX_CGS in *. rewrite length_app in Hlen. cbn in Hlen. lia.
Qed.

Lemma cut_first d : first_child (G2 d) = if decide (l1 = [] /\ d = pa) then next_sibling (G c) else first_child (G d).
Proof.
  destruct unlink_eq as [-> _]. unfold link_set, link_to. destruct (last l1) as [x|] eqn:E; cbn [fst snd].
  - rewrite decide_False by (intros [-> _]; done). unfold upd at 1. destruct (Z.eqb_spec d x) as [->|]; cbn; apply dead_first.
  - apply last_None in E. subst l1. unfold upd at 1. destruct (Z.eqb_spec d pa) as [->|]; [by rewrite decide_True|].
    rewrite decide_False by naive_solver. apply dead_first.
Qed.

Lemma cut_next d : next_sibling (G2 d) = if decide (last l1 = Some d) then next_sibling (G c) else next_sibling (G d).
Proof.
  destruct unlink_eq as [-> _]. unfold link_set, link_to. destruct (last l1) as [x|] eqn:E; cbn [fst snd].
  - unfold upd at 1. destruct (Z.eqb_spec d x) as [->|]; [by rewrite decide_True|]. rewrite decide_False by congruence.
    apply dead_next.
  - rewrite decide_False by done. unfold upd at 1. destruct (Z.eqb_spec d pa) as [->|]; cbn; apply dead_next.
Qed.

Lemma cut_cpu d : g_cpu (G2 d) = g_cpu (G1 d) /\ nprocs (G2 d) = nprocs (G d) /\ weight (G2 d) = weight (G d).
Proof.
  destruct unlink_eq as [-> _]. destruct (link_set_keeps G1 (link_to l1 (true, pa)) (next_sibling (G c)) d) as (-> & -> & ->).
  split; [done|]. unfold upd. by destruct (Z.eqb_spec d c) as [->|].
Qed.

Lemma cut_live d : live G2 d = live G d && negb (d =? c).
Proof.
  unfold live. destruct (cut_cpu d) as (-> & _). unfold upd. destruct (Z.eqb_spec d c) as [->|]; cbn;
    by rewrite ?andb_false_r, ?andb_true_r.
Qed.

Lemma cut_parent d : parent G2 d = parent G d.
Proof.
  transitivity (cg_parent (g_cpu (G2 d))); [done|]. destruct (cut_cpu d) as (-> & _). unfold upd, parent.
  by destruct (Z.eqb_spec d c) as [->|].
Qed.

Lemma remove_tree : tree_ok G2 (fun d => if d =? pa then l1 ++ l2 else kids d) rank.
Proof.
  pose proof pa_live as Hp. pose proof pa_nodup as [Hnd Hn]. pose proof unlink_eq as [_ Hl1].
  constructor.
  - rewrite cut_live, (to_root _ _ _ HT). by destruct (Z.eqb_spec CG_ROOT c).
  - intros d. rewrite cut_live, andb_true_iff, negb_true_iff, Z.eqb_neq. intros [Hd Hdc]. rewrite cut_first.
    pose proof (to_links _ _ _ HT d Hd) as HL. destruct (Z.eqb_spec d pa) as [->|Hdp].
    + rewrite Hk in HL. eapply (linked_cut G); [exact HL | done | done | intros; apply cut_next |].
      destruct l1; [by rewrite decide_True | by rewrite decide_False by naive_solver].
    + rewrite decide_False by naive_solver. apply (linked_frame G); [|done]. intros k Hkd. rewrite cut_next.
      rewrite decide_False; [done|]. intros E. apply last_Some_elem_of in E. apply Hl1 in E as [_ E].
      apply (to_kids _ _ _ HT d k Hd) in Hkd as (_ & _ & Hkp). congruence.
  - intros d k. rewrite !cut_live, cut_parent, andb_true_iff, negb_true_iff, Z.eqb_neq. intros [Hd Hdc].
    rewrite andb_true_iff, negb_true_iff, Z.eqb_neq. pose proof (to_kids _ _ _ HT d k Hd) as E.
    destruct (Z.eqb_spec d pa) as [->|Hdp].
    + assert (Hin : k ∈ l1 ++ l2 <-> k ∈ kids pa /\ k <> c).
      { rewrite Hk, !elem_of_app, elem_of_cons. apply NoDup_app in Hnd as (_ & _ & Hnd). apply NoDup_cons in Hnd as [? _].
        naive_solver. }
      rewrite Hin, E. tauto.
    + rewrite E. split; [|tauto]. intros (? & ? & Hpk). split; [split; [done|]|done]. intros ->. congruence.
  - intros d. rewrite cut_live, andb_true_iff. intros [Hd _]. destruct (Z.eqb_spec d pa) as [->|]; [|by apply HT].
    apply NoDup_app in Hnd as (N1 & N2 & N3). apply NoDup_cons in N3 as [_ N3]. apply NoDup_app.
    split; [done|]. split; [|done]. intros x Hx Hx2. apply (N2 x Hx). by right.
  - intros d. rewrite !cut_live, cut_parent, !andb_true_iff. intros [Hd _] Hdr.
    destruct (to_up _ _ _ HT d Hd Hdr) as [Hpl Hlt]. split; [|done]. split; [done|]. apply negb_true_iff, Z.eqb_neq.
    intros E. pose proof kids_leaf as K. assert (Hin : d ∈ kids c) by (by apply (to_kids _ _ _ HT c d Hc)).
    rewrite K in Hin. by apply elem_of_nil in Hin.
Qed.
End Remove.

Lemma inv_remove s c : cg_inv s -> live (g_cgs s) c = true -> cg_inv (remove_group s c).1.
Proof.
  intros H Hc. pose proof H as [(kids & rank & H1) H2 H3 H4 H5]. unfold remove_group, cg_member_count.
  destruct (Z.eqb_spec c CG_ROOT) as [|Hr]; [done|]. destruct (Z.ltb_spec 0 (nprocs (g_cgs s c))) as [|Hn]; [done|].
  destruct (Z.eqb_spec (first_child (g_cgs s c)) (-1)) as [Hleaf|]; [|done]. cbn [negb orb].
  destruct (_ || _); [done|]. cbn [fst]. apply inv_refresh.
  destruct (to_up _ _ _ H1 c Hc Hr) as [Hp _].
  assert (Hin : c ∈ kids (parent (g_cgs s) c)) by (by apply (to_kids _ _ _ H1 _ c Hp)).
  apply list_elem_of_split in Hin as (l1 & l2 & Hk).
  pose proof (cut_live _ _ _ H1 c l1 l2 Hc Hr Hleaf Hk) as L. pose proof (cut_cpu _ _ _ H1 c l1 l2 Hc Hr Hleaf Hk) as F.
  pose proof (remove_tree _ _ _ H1 c l1 l2 Hc Hr Hleaf Hk) as HT. set (G2 := unlink _ _ _ c) in *. clearbody G2.
  assert (Hno : forall i, i ∈ proc_slots -> t_cg (tasks s i) <> c).
  { intros i Hi E. pose proof (members_pos (tasks s) i c Hi E). rewrite <- (H2 c Hc) in H0. lia. }
  constructor; cbn [g_cgs tasks g_nlive].
  - by exists (fun d => if d =? parent (g_cgs s) c then l1 ++ l2 else kids d), rank.
  - intros d. rewrite L, andb_true_iff. intros [Hd _]. destruct (F d) as (_ & -> & _). auto.
  - intros i Hi. rewrite L. destruct (H3 i Hi) as [?| ->]; [by left|]. right. apply negb_true_iff, Z.eqb_neq. auto.
  - intros d. rewrite L, andb_true_iff. intros [Hd _]. destruct (F d) as (_ & _ & ->). auto.
  - rewrite H5. rewrite (zsum_upd (fun d => ind (live (g_cgs s) d = true)) (fun d => ind (live G2 d = true)) slots c).
    + unfold ind. rewrite L, Hc, Z.eqb_refl. rewrite decide_True by done. rewrite decide_False by done. lia.
    + apply NoDup_seqZ.
    + apply elem_of_seqZ. by apply live_range in Hc.
    + intros d Hd. apply ind_ext. rewrite L. destruct (Z.eqb_spec d c); [done|]. by rewrite andb_true_r.
Qed.
