(* ===== verification/CgroupSafe.v ===== *)
(** * The control-group tree: what its users may rely on

    Every history of operations from boot keeps the invariant of CgroupInv; a
    task is admitted exactly when every limit above it allows one more; the
    hierarchical weight stays within its bounds and splits each level's share;
    numbers written to a control file read back; and what the path and parser
    code cannot do although it means to. *)
From Stdlib Require Import String Ascii.
From S2P Require Import Prelude Sched SchedOps Cgroup CgroupFs CgroupSpec CgroupInv.
#[local] Open Scope Z_scope.
#[local] Open Scope list_scope.

(** ** Histories *)

Inductive cgop :=
| OpAttach (p c : Z)
| OpDetach (p : Z)
| OpMove (pid c : Z)
| OpWrite (now c : Z) (f : cgfile) (buf : list Z)
| OpMkdir (rel : list Z)
| OpRmdir (rel : list Z).

Definition cgexec (s : cgst) (o : cgop) : cgst :=
  match o with
  | OpAttach p c => (cg_attach_new s p c).1
  | OpDetach p => cg_detach s p
  | OpMove pid c => (cg_move_tgid s pid c).1
  | OpWrite now c f buf => (cgfile_write s now c f buf).1
  | OpMkdir rel => (cgfs_mkdir s rel).1
  | OpRmdir rel => (cgfs_rmdir s rel).1
  end.

(** The slot a caller passes is one of the process table. *)
Definition op_ok (o : cgop) : Prop :=
  match o with OpAttach p _ | OpDetach p => p ∈ proc_slots | _ => True end.

Lemma rollover_same n : forall g now, cg_live (rollover_loop n g now) = cg_live g /\
  cg_parent (rollover_loop n g now) = cg_parent g.
Proof. induction n as [|n IH]; intros g now; cbn; [done|]. case_match; [done|]. by rewrite !(proj1 (IH _ _)), !(proj2 (IH _ _)). Qed.

Lemma set_max_same g q p now : cg_live (cg_cpu_set_max g q p now) = cg_live g /\
  cg_parent (cg_cpu_set_max g q p now) = cg_parent g.
Proof. unfold cg_cpu_set_max, period_rollover. case_match; [done|]. by rewrite !(proj1 (rollover_same _ _ _)), !(proj2 (rollover_same _ _ _)). Qed.

Lemma inv_write_procs n : forall s c p, cg_inv s -> cg_inv (write_procs n s c p).1.
Proof.
  induction n as [|n IH]; intros s c p H; cbn; [done|]. destruct (skip_space p); [done|].
  destruct (parse_u64 _) as [[pid q]|]; [|done]. case_match; [done|].
  pose proof (inv_move s pid c H) as Hm. destruct (cg_move_tgid_locked s pid c) as [s' r]. case_match; [done|]. by apply IH.
Qed.

Lemma inv_file_write s now c f buf : cg_inv s -> cg_inv (cgfile_write s now c f buf).1.
Proof.
  intros H. unfold cgfile_write. destruct (live (g_cgs s) c) eqn:Hc; [|done]. cbn [negb].
  do 2 (case_match; [done|]). pose proof (ci_weight s H c Hc) as Hw.
  assert (Ha : cg_inv (apply_write s now c f buf).1); [|by destruct (apply_write s now c f buf)].
  unfold apply_write. destruct f; cbn [fst]; try exact H.
  - pose proof (inv_write_procs (S (length buf)) s c buf H) as Hp. by destruct (write_procs _ s c buf).
  - destruct (write_subtree _ _ _ _ _); [|done]. cbn [fst]. apply inv_refresh, inv_group; auto. by apply shape_upd.
  - destruct (parse_s32 buf) as [[w q]|]; [|done]. destruct (Z.ltb_spec w CG_WEIGHT_MIN); [done|].
    destruct (Z.ltb_spec CG_WEIGHT_MAX w); [done|]. cbn. apply inv_refresh, inv_group; auto. by apply shape_upd.
  - destruct (parse_cpu_max buf) as [[tk qt]|]; [|done]. cbn [fst]. apply inv_group; auto.
    destruct (set_max_same (g_cpu (g_cgs s c)) qt tk now). by apply shape_upd.
  - destruct (parse_s32 buf) as [[v q]|]; [|done]. cbn [fst]. apply inv_group; auto. by apply shape_upd.
  - destruct (parse_u64 buf) as [[v q]|]; [|done]. cbn [fst]. apply inv_group; auto. by apply shape_upd.
Qed.

Lemma inv_mkdir s rel : cg_inv s -> cg_inv (cgfs_mkdir s rel).1.
Proof.
  intros H. unfold cgfs_mkdir. case_match; [done|]. destruct (split_last rel) as [[pr name]|]; [|done].
  do 2 (case_match; [done|]). destruct (walk_rel _ pr) as [[c o]|]; [|done].
  destruct (live (g_cgs s) c) eqn:Hc; [|done]. by apply inv_add.
Qed.

Lemma inv_rmdir s rel : cg_inv s -> cg_inv (cgfs_rmdir s rel).1.
Proof.
  intros H. unfold cgfs_rmdir. case_match; [done|]. destruct (walk_rel _ rel) as [[c o]|]; [|done].
  destruct (live (g_cgs s) c) eqn:Hc; [|done]. by apply inv_remove.
Qed.

Lemma inv_exec s o : cg_inv s -> op_ok o -> cg_inv (cgexec s o).
Proof.
  intros H Ho. destruct o; cbn in *; [by apply inv_attach | by apply inv_detach | by apply inv_move | by apply inv_file_write
    | by apply inv_mkdir | by apply inv_rmdir].
Qed.

Lemma init_live s c : live (g_cgs (cgroup_init s)) c = true <-> c = CG_ROOT.
Proof.
  unfold live. cbn [g_cgs cgroup_init]. split.
  - rewrite !andb_true_iff. intros [_ Hl]. destruct (Z.eqb_spec c CG_ROOT) as [|Hne]; [done|]. by rewrite upd_ne in Hl.
  - intros ->. by rewrite upd_eq.
Qed.

Lemma inv_init s : (forall i, i ∈ proc_slots -> t_cg (tasks s i) = -1) -> cg_inv (cgroup_init s).
Proof.
  intros Ht. constructor.
  - exists (fun _ => []), (fun _ => O). constructor.
    + by apply init_live.
    + intros c Hc. apply init_live in Hc as ->. done.
    + intros c d _. split; [by intros ?%elem_of_nil|]. rewrite init_live. tauto.
    + constructor.
    + intros d Hd. by apply init_live in Hd.
  - intros c Hc. apply init_live in Hc as ->. cbn. symmetry. apply zsum_zero. intros i Hi. unfold ind.
    rewrite decide_False; [done|]. rewrite Ht by done. done.
  - intros i Hi. left. by apply Ht.
  - intros c Hc. apply init_live in Hc as ->. vm_compute. split; discriminate.
  - rewrite (zsum_ext _ (fun c => ind (c = CG_ROOT))) by (intros; apply ind_ext, init_live).
    rewrite zsum_ind_in by apply NoDup_seqZ. unfold ind. rewrite decide_True; [done|]. apply elem_of_seqZ. done.
Qed.

Lemma history_inv ops s : cg_inv s -> Forall op_ok ops -> cg_inv (foldl cgexec s ops).
Proof.
  intros H Hops. apply inv_foldl; [|done]. intros s' o Ho Hs. apply inv_exec; [done|].
  by rewrite Forall_forall in Hops; apply Hops.
Qed.

(** C15: The control-group tree stays a tree.  From boot, with no task attached
    yet, after any sequence of attaching, leaving, moving, control-file writes,
    mkdir and rmdir, the parent, child and sibling links of the live groups form
    one tree below the root, each group's task counter is the number of tasks
    attached to it, every task's group is live, every weight is in its range,
    and the count of live groups is right. *)
Theorem cgroup_consistent (s0 : cgst) (ops : list cgop) :
  (forall i, i ∈ proc_slots -> t_cg (tasks s0 i) = -1) -> Forall op_ok ops ->
  cg_inv (foldl cgexec (cgroup_init s0) ops).
Proof.
  intros H0. apply history_inv. by apply inv_init.
Qed.

(** ** Task limits *)

(** The number of tasks whose group is [a] or lies below it. *)
Definition tasks_below (s : cgst) (a : Z) : Z :=
  zsum ((fun i => ind (a ∈ chain (g_cgs s) (t_cg (tasks s i)))) <$> proc_slots).

Lemma subtree_is_tasks s a : cg_inv s -> live (g_cgs s) a = true ->
  cg_subtree_tasks_locked (g_cgs s) a = tasks_below s a.
Proof.
  intros [(kids & rank & HT) Hm Ht _ _] Ha. rewrite (subtree_count _ _ _ HT a Ha). unfold below, tasks_below.
  rewrite (zsum_ext _ (fun d => zsum ((fun i => if live (g_cgs s) d then ind (t_cg (tasks s i) = d) *
    ind (a ∈ chain (g_cgs s) d) else 0) <$> proc_slots))).
  2:{ intros d _. destruct (live (g_cgs s) d) eqn:Hd; [|by rewrite zsum_zero]. rewrite zsum_scale, Hm by done.
      unfold members. lia. }
  rewrite zsum_swap. apply zsum_ext. intros i Hi. destruct (Ht i Hi) as [E|Hl].
  - rewrite E. rewrite zsum_zero; [unfold ind; rewrite decide_False; [done | apply not_elem_of_nil]|].
    intros d Hd. destruct (live (g_cgs s) d) eqn:L; [|done]. apply live_range in L. unfold ind at 1.
    rewrite decide_False by lia. done.
  - rewrite (zsum_ext _ (fun d => ind (d = t_cg (tasks s i)) * ind (a ∈ chain (g_cgs s) (t_cg (tasks s i))))).
    + rewrite zsum_scale, zsum_ind_in by apply NoDup_seqZ. unfold ind at 1. rewrite decide_True; [lia|].
      apply elem_of_seqZ. by apply live_range in Hl.
    + intros d _. unfold ind at 1 3. destruct (decide (t_cg (tasks s i) = d)) as [<-|Hne].
      * rewrite Hl. by rewrite decide_True.
      * rewrite decide_False by congruence. by destruct (live (g_cgs s) d).
Qed.

Lemma tasks_below_upd s s' a p c : same_shape (g_cgs s) (g_cgs s') -> p ∈ proc_slots -> t_cg (tasks s p) = -1 ->
  t_cg (tasks s' p) = c -> (forall i, i <> p -> t_cg (tasks s' i) = t_cg (tasks s i)) ->
  tasks_below s' a = tasks_below s a + ind (a ∈ chain (g_cgs s) c).
Proof.
  intros Hs Hp H0 Hc Ho. unfold tasks_below.
  rewrite (zsum_upd (fun i => ind (a ∈ chain (g_cgs s) (t_cg (tasks s i)))) _ proc_slots p proc_slots_nodup Hp).
  - rewrite H0, Hc, (shape_chain _ _ Hs). unfold ind at 2. rewrite decide_False by apply not_elem_of_nil. lia.
  - intros i Hi. by rewrite Ho, (shape_chain _ _ Hs).
Qed.

Lemma attach_allowed s c : cg_inv s -> live (g_cgs s) c = true ->
  pids_allow_one (g_cgs s) c = 0 <->
  forall a, a ∈ chain (g_cgs s) c -> pids_max (g_cgs s a) < 0 \/ tasks_below s a < pids_max (g_cgs s a).
Proof.
  intros H Hc. pose proof (ci_tree s H) as (kids & rank & HT).
  assert (Hb : forall a, a ∈ chain (g_cgs s) c -> cg_subtree_tasks_locked (g_cgs s) a = tasks_below s a)
    by (intros a Ha; apply subtree_is_tasks; [done | by apply (chain_up _ _ _ HT c a Hc)]).
  unfold pids_allow_one. destruct (existsb _ _) eqn:E; split; try done.
  - intros Hall. apply existsb_exists in E as (a & Ha & E). apply list_elem_of_In in Ha. rewrite Hb in E by done.
    apply andb_true_iff in E as [E1%Z.leb_le E2%Z.leb_le]. destruct (Hall a Ha); lia.
  - intros _ a Ha. destruct (Z.lt_ge_cases (pids_max (g_cgs s a)) 0); [by left|]. right.
    destruct (Z.lt_ge_cases (tasks_below s a) (pids_max (g_cgs s a))) as [|Hge]; [done|]. exfalso.
    eapply eq_true_false_abs; [|exact E]. apply existsb_exists. exists a. split; [by apply list_elem_of_In|].
    rewrite Hb by done. apply andb_true_iff. rewrite !Z.leb_le. lia.
Qed.

(** C20: The pids controller admits a task exactly when it fits.  In a consistent
    state, attaching a fresh task to a group succeeds if and only if the group
    is live and every group from it up to the root with a limit has fewer tasks
    at or below it than that limit; otherwise nothing changes.  On success the
    task is a member, the count of exactly the groups on that path has grown by
    one, no limit on the path is exceeded, and the state is consistent again. *)
Theorem cg_attach_new_spec (s : cgst) (p c : Z) (H : cg_inv s) (Hp : p ∈ proc_slots) :
  let '(s', r) := cg_attach_new s p c in
  (r = 0 <-> t_cg (tasks s p) = -1 /\ live (g_cgs s) c = true /\
     forall a, a ∈ chain (g_cgs s) c -> pids_max (g_cgs s a) < 0 \/ tasks_below s a < pids_max (g_cgs s a)) /\
  (r <> 0 -> s' = s) /\
  (r = 0 -> cg_inv s' /\ t_cg (tasks s' p) = c /\
     (forall a, tasks_below s' a = tasks_below s a + ind (a ∈ chain (g_cgs s) c)) /\
     (forall a, a ∈ chain (g_cgs s) c -> 0 <= pids_max (g_cgs s' a) -> tasks_below s' a <= pids_max (g_cgs s' a))).
Proof.
  pose proof (inv_attach s p c H Hp) as Hi. unfold cg_attach_new in *. set (t := tasks s p) in *.
  destruct (Z.eqb_spec (t_cg t) (-1)) as [E|]; cbn [negb orb] in *; [|split; [split; [done|tauto] | done]].
  destruct (live (g_cgs s) c) eqn:Hc; cbn [negb] in *; [|split; [split; [done|intros (_ & ? & _); done] | done]].
  pose proof (attach_allowed s c H Hc) as Ha. destruct (Z.eqb_spec (pids_allow_one (g_cgs s) c) 0) as [E0|E0]; cbn [negb fst] in *.
  2:{ split; [|done]. rewrite Ha in E0 |- *. tauto. }
  pose proof (proj1 Ha E0) as Hfit. set (s1 := set_as_cg _ t c) in *. split; [tauto|]. split; [done|]. intros _. split; [done|].
  assert (Hg : g_cgs s1 = upd (g_cgs s) c (set_nprocs (nprocs (g_cgs s c) + 1) (g_cgs s c)))
    by (unfold s1, set_as_cg; by destruct (t_as t)).
  assert (Ht : tasks s1 = upd (tasks s) p (set_t_weight (eff_weight (g_cgs s) c) (set_t_cg c t)))
    by (unfold s1, set_as_cg; by destruct (t_as t)).
  clearbody s1. assert (Hcp : t_cg (tasks s1 p) = c) by (by rewrite Ht, upd_eq). split; [done|].
  assert (Hb : forall a, tasks_below s1 a = tasks_below s a + ind (a ∈ chain (g_cgs s) c)).
  { intros a. apply (tasks_below_upd s s1 a p); [rewrite Hg; apply shape_nprocs | done | done | done |].
    intros i Hne. by rewrite Ht, upd_ne. }
  split; [done|]. intros a Hin. rewrite Hb. assert (Hpm : pids_max (g_cgs s1 a) = pids_max (g_cgs s a)).
  { rewrite Hg. unfold upd. by destruct (Z.eqb_spec a c) as [->|]. }
  rewrite Hpm. unfold ind. rewrite decide_True by done. destruct (Hfit a Hin); lia.
Qed.

(** The identity of a task: what moving does not change. *)
Definition same_task (t t' : task) : Prop := t_used t' = t_used t /\ t_pid t' = t_pid t /\ t_tgid t' = t_tgid t.

Lemma move_task_at tgid c s i : let s' := move_task tgid c s i in
  (forall j, same_task (tasks s j) (tasks s' j)) /\
  (forall j, t_cg (tasks s' j) = if bool_decide (j = i) && moves s tgid c i then c else t_cg (tasks s j)) /\
  same_shape (g_cgs s) (g_cgs s') /\ (forall a, pids_max (g_cgs s' a) = pids_max (g_cgs s a)).
Proof.
  cbn zeta. unfold move_task, moves. set (q := tasks s i).
  destruct (t_used q && (t_tgid q =? tgid)) eqn:E.
  2:{ assert (negb (t_used q) || negb (t_tgid q =? tgid) = true) as -> by (by destruct (t_used q), (t_tgid q =? tgid)).
      cbn [andb]. split; [done|]. split; [|done]. intros j. by rewrite andb_false_r. }
  apply andb_true_iff in E as [-> ->]. cbn [negb orb andb].
  set (s1 := if (0 <=? t_cg q) && negb (t_cg q =? c) then _ else s).
  assert (H1 : (forall j, same_task (tasks s j) (tasks s1 j)) /\
    (forall j, t_cg (tasks s1 j) = if bool_decide (j = i) && ((0 <=? t_cg q) && negb (t_cg q =? c)) then c else t_cg (tasks s j)) /\
    same_shape (g_cgs s) (g_cgs s1) /\ (forall a, pids_max (g_cgs s1 a) = pids_max (g_cgs s a))).
  { unfold s1. destruct (_ && _) eqn:E; [|split; [done|split; [|done]]; intros j; by rewrite andb_false_r].
    apply andb_true_iff in E as [_ E%negb_true_iff%Z.eqb_neq].
    cbn [with_group with_groups with_task with_tasks g_cgs tasks]. rewrite (upd_ne _ _ _ c) by done. repeat split.
    1-3: unfold upd; by destruct (Z.eqb_spec j i) as [->|].
    - intros j. rewrite andb_true_r. unfold upd. destruct (Z.eqb_spec j i) as [->|];
        [by rewrite bool_decide_true | by rewrite bool_decide_false].
    - unfold upd. destruct (Z.eqb_spec c0 c) as [->|]; [done|]. by destruct (Z.eqb_spec c0 (t_cg q)) as [->|].
    - unfold parent, upd. destruct (Z.eqb_spec c0 c) as [->|]; [done|]. by destruct (Z.eqb_spec c0 (t_cg q)) as [->|].
    - unfold upd. destruct (Z.eqb_spec c0 c) as [->|]; [done|]. by destruct (Z.eqb_spec c0 (t_cg q)) as [->|].
    - unfold upd. destruct (Z.eqb_spec c0 c) as [->|]; [done|]. by destruct (Z.eqb_spec c0 (t_cg q)) as [->|].
    - intros a. unfold upd. destruct (Z.eqb_spec a c) as [->|]; [done|]. by destruct (Z.eqb_spec a (t_cg q)) as [->|]. }
  clearbody s1. destruct H1 as (A & B & C & D).
  set (s2 := with_task s1 i _).
  assert (Ht : tasks (set_as_cg s2 q c) = upd (tasks s1) i (set_t_weight (eff_weight (g_cgs s1) c) (tasks s1 i)))
    by (unfold set_as_cg; by destruct (t_as q)).
  assert (Hg : g_cgs (set_as_cg s2 q c) = g_cgs s1) by (unfold set_as_cg; by destruct (t_as q)).
  rewrite Ht, Hg. split; [|split; [|done]].
  - intros j. unfold upd. destruct (Z.eqb_spec j i) as [->|]; apply A.
  - intros j. rewrite <- B. unfold upd. by destruct (Z.eqb_spec j i) as [->|].
Qed.

Lemma moves_same s s' tgid c i : same_task (tasks s i) (tasks s' i) -> t_cg (tasks s' i) = t_cg (tasks s i) ->
  moves s' tgid c i = moves s tgid c i.
Proof. intros (E1 & _ & E3) E4. unfold moves. by rewrite E1, E3, E4. Qed.

Lemma move_tasks_all tgid c l : forall s, NoDup l -> let s' := foldl (move_task tgid c) s l in
  (forall j, t_cg (tasks s' j) = if bool_decide (j ∈ l) && moves s tgid c j then c else t_cg (tasks s j)) /\
  same_shape (g_cgs s) (g_cgs s') /\ (forall a, pids_max (g_cgs s' a) = pids_max (g_cgs s a)).
Proof.
  induction l as [|i l IH]; intros s Hnd; cbn [foldl].
  { split; [|done]. intros j. by rewrite bool_decide_false by apply not_elem_of_nil. }
  apply NoDup_cons in Hnd as [Hi Hnd]. destruct (move_task_at tgid c s i) as (A & B & C & D).
  destruct (IH (move_task tgid c s i) Hnd) as (E & F & K). split; [|split].
  - intros j. rewrite E, B. destruct (decide (j = i)) as [->|Hne].
    + rewrite (bool_decide_false (i ∈ l)) by done. rewrite (bool_decide_true (i = i)) by done.
      by rewrite (bool_decide_true (i ∈ i :: l)) by left.
    + rewrite (bool_decide_false (j = i)) by done. cbn [andb].
      rewrite (moves_same s) by (try done; rewrite B; by rewrite (bool_decide_false (j = i))).
      by rewrite (bool_decide_ext (j ∈ i :: l) (j ∈ l)) by (rewrite elem_of_cons; naive_solver).
  - intros d. destruct (C d) as (<- & <- & <- & <-), (F d) as (<- & <- & <- & <-). done.
  - intros a. by rewrite K, D.
Qed.

Lemma zsum_filter {A} (f : A -> bool) l : alen (List.filter f l) = zsum ((fun x => if f x then 1 else 0) <$> l).
Proof.
  induction l as [|x l IH]; [done|]. rewrite fmap_cons, zsum_cons, <- IH. cbn. destruct (f x); unfold alen; cbn; lia.
Qed.

Lemma zsum_none {A} (f : A -> bool) l : zsum ((fun x => if f x then 1 else 0) <$> l) = 0 ->
  forall x, x ∈ l -> f x = false.
Proof.
  induction l as [|y l IH]; intros H x Hx; [by apply elem_of_nil in Hx|]. rewrite fmap_cons, zsum_cons in H.
  assert (0 <= zsum ((fun x => if f x then 1 else 0) <$> l)) by (apply zsum_nonneg; intros z; cbn; destruct (f z); lia).
  destruct (f y) eqn:E; [exfalso; lia|]. apply elem_of_cons in Hx as [->|Hx]; [done|]. by apply IH.
Qed.

(** Moving a thread group.  Writing a task's pid to a group's cgroup.procs
    moves the attached tasks of its whole thread group there and no other; the
    state stays consistent, and when anything moved, no limit from the
    destination up to the root is exceeded.  Any error leaves the state as it
    was. *)
Theorem cg_move_tgid_spec (s : cgst) (pid c : Z) (H : cg_inv s) :
  let '(s', r) := cg_move_tgid s pid c in
  (r <> 0 -> s' = s) /\
  (r = 0 -> cg_inv s' /\ exists leader, leader ∈ proc_slots /\ t_used (tasks s leader) = true /\
     t_pid (tasks s leader) = pid /\ let tgid := t_tgid (tasks s leader) in
     (forall i, i ∈ proc_slots -> t_cg (tasks s' i) = if moves s tgid c i then c else t_cg (tasks s i)) /\
     ((exists i, i ∈ proc_slots /\ moves s tgid c i = true) ->
        forall a, a ∈ chain (g_cgs s) c -> 0 <= pids_max (g_cgs s a) -> tasks_below s' a <= pids_max (g_cgs s' a))).
Proof.
  unfold cg_move_tgid, cg_move_tgid_locked.
  destruct (live (g_cgs s) c) eqn:Hc; [|done]. cbn [negb].
  destruct (List.find _ proc_slots) as [l|] eqn:Ef; [|done].
  apply List.find_some in Ef as [Hl%list_elem_of_In [Hu Hpid%Z.eqb_eq]%andb_true_iff].
  set (tgid := t_tgid (tasks s l)) in *. rewrite zsum_filter. set (n := zsum _) in *. destruct (Z.eqb_spec n 0) as [En|En]; [split; [done|]; intros _; split; [done|]; exists l|].
  - assert (Hno : forall i, i ∈ proc_slots -> moves s tgid c i = false) by (by apply (zsum_none (moves s tgid c))).
    split; [done|]. split; [done|]. split; [done|]. split; [intros i Hi'; by rewrite Hno|].
    intros (i & Hi' & E). by rewrite Hno in E.
  - destruct (existsb _ _) eqn:E; [done|]. split; [done|]. intros _. split; [by apply inv_move_all|]. exists l.
    split; [done|]. split; [done|]. split; [done|].
    destruct (move_tasks_all tgid c proc_slots s proc_slots_nodup) as (A & B & C). set (s' := foldl _ s _) in *.
    assert (Ht : forall i, i ∈ proc_slots -> t_cg (tasks s' i) = if moves s tgid c i then c else t_cg (tasks s i))
      by (intros i Hi'; rewrite A, (bool_decide_true (i ∈ proc_slots) Hi'); reflexivity).
    split; [done|]. intros _ a Ha Hm. rewrite C. transitivity (tasks_below s a + n).
    + unfold tasks_below, n. rewrite <- zsum_add. apply zsum_le. intros i Hi'. rewrite Ht, (shape_chain _ _ B) by done.
      pose proof (ind_range (a ∈ chain (g_cgs s) c)). pose proof (ind_range (a ∈ chain (g_cgs s) (t_cg (tasks s i)))).
      destruct (moves s tgid c i); lia.
    + destruct (Z.le_gt_cases (tasks_below s a + n) (pids_max (g_cgs s a))) as [|Hgt]; [done|]. exfalso.
      eapply eq_true_false_abs; [|exact E]. apply existsb_exists. exists a. split; [by apply list_elem_of_In|].
      destruct (ci_tree s H) as (kids & rank & HT).
      rewrite subtree_is_tasks by (try done; by apply (chain_up _ _ _ HT c a Hc)). apply andb_true_iff. rewrite Z.leb_le, Z.ltb_lt. lia.
Qed.

(** ** Weights *)

Definition clamp (e : Z) : Z := Z.min CG_EFF_MAX (Z.max CG_EFF_MIN e).

(** The share of its level that [a] has of [eff]: its weight over its siblings'. *)
Definition share (G : Z -> cgrp) (eff a : Z) : Z :=
  if has_ctl (subtree_ctl (G (parent G a))) (CG_CTRL_BIT CG_CTRL_CPU)
  then clamp (eff * weight (G a) / zsum ((fun d => weight (G d)) <$> children G (parent G a))) else eff.

Lemma clamp_code e : (let e1 := if e <? CG_EFF_MIN then CG_EFF_MIN else e in if CG_EFF_MAX <? e1 then CG_EFF_MAX else e1) = clamp e.
Proof. unfold clamp, CG_EFF_MIN, CG_EFF_MAX. cbn zeta. bdestr; lia. Qed.

Section Weights.
Context (s : cgst) (H : cg_inv s) (kids : Z -> list Z) (rank : Z -> nat) (HT : tree_ok (g_cgs s) kids rank).
Notation G := (g_cgs s).

Lemma weights_range l : (forall d, d ∈ l -> live G d = true) ->
  alen l <= zsum ((fun d => weight (G d)) <$> l) <= alen l * CG_WEIGHT_MAX.
Proof.
  induction l as [|d l IH]; intros Hl; [done|]. pose proof (ci_weight s H d (Hl d ltac:(left))) as Hw.
  specialize (IH ltac:(intros x Hx; apply Hl; by right)). rewrite fmap_cons, zsum_cons.
  unfold alen, CG_WEIGHT_MIN, CG_WEIGHT_MAX in *. cbn [length]. lia.
Qed.

Lemma weights_sum l : forall n, (forall d, d ∈ l -> live G d = true) -> 0 <= n -> n + alen l * CG_WEIGHT_MAX < 2 ^ 64 ->
  foldl (fun n d => if cg_live (g_cpu (G d)) then u64 (n + weight (G d)) else n) n l = n + zsum ((fun d => weight (G d)) <$> l).
Proof.
  induction l as [|d l IH]; intros n Hl Hn Hb; [cbn; lia|]. cbn [foldl]. pose proof (Hl d ltac:(left)) as Hd.
  rewrite (live_flag G d Hd). pose proof (ci_weight s H d Hd) as Hw. rewrite fmap_cons, zsum_cons.
  unfold alen, CG_WEIGHT_MIN, CG_WEIGHT_MAX in *. cbn [length] in *. rewrite u64_small by lia.
  rewrite IH; [lia | intros x Hx; apply Hl; by right | lia | lia].
Qed.

Lemma eff_step_share c e : live G c = true -> c <> CG_ROOT -> CG_EFF_MIN <= e <= CG_EFF_MAX ->
  eff_step G c e = share G e c /\ CG_EFF_MIN <= share G e c <= CG_EFF_MAX.
Proof.
  intros Hc Hr He. destruct (to_up _ _ _ HT c Hc Hr) as [Hp _]. pose proof (live_range _ _ Hp).
  unfold eff_step, share. destruct (Z.eqb_spec (parent G c) (-1)); [lia|]. cbn [orb].
  destruct (has_ctl _ _); [|done]. pose proof (kids_len _ _ _ HT (parent G c) Hp) as Hlen.
  pose proof (ci_weight s H c Hc) as Hw. unfold level_sum. rewrite (children_kids _ _ _ HT _ Hp).
  pose proof (kids_live _ _ _ HT (parent G c)) as Hkl.
  assert (Hin : c ∈ kids (parent G c)) by (by apply (to_kids _ _ _ HT _ c Hp)).
  pose proof (weights_range (kids (parent G c)) (fun d => Hkl d Hp)) as Hsum.
  assert (1 <= alen (kids (parent G c))).
  { destruct (kids (parent G c)); [by apply elem_of_nil in Hin|]. unfold alen. cbn. lia. }
  unfold MAX_CGS, CG_WEIGHT_MIN, CG_WEIGHT_MAX, CG_EFF_MIN, CG_EFF_MAX in *.
  rewrite (weights_sum _ 0) by (auto; unfold CG_WEIGHT_MAX; lia). rewrite Z.add_0_l.
  destruct (Z.eqb_spec (zsum ((fun d => weight (G d)) <$> kids (parent G c))) 0); [lia|].
  rewrite u64_small by nia. rewrite clamp_code. split; [done|]. unfold clamp, CG_EFF_MIN, CG_EFF_MAX. lia.
Qed.

Lemma eff_loop_shares n : forall c e, live G c = true -> (length (chain G c) <= n)%nat -> CG_EFF_MIN <= e <= CG_EFF_MAX ->
  eff_loop n G c e = foldl (share G) e (removelast (chain G c)) /\
  CG_EFF_MIN <= foldl (share G) e (removelast (chain G c)) <= CG_EFF_MAX.
Proof.
  induction n as [|n IH]; intros c e Hc Hn He.
  { pose proof (chain_self _ _ _ HT c Hc) as Hs. destruct (chain G c); [by apply elem_of_nil in Hs | cbn in Hn; lia]. }
  cbn [eff_loop]. destruct (Z.eqb_spec c CG_ROOT) as [->|Hr]; [done|].
  destruct (to_up _ _ _ HT c Hc Hr) as [Hp _]. destruct (eff_step_share c e Hc Hr He) as [-> Hb].
  rewrite (chain_step _ _ _ HT c Hc Hr) in *. pose proof (chain_self _ _ _ HT _ Hp) as Hs.
  destruct (chain G (parent G c)) as [|x l] eqn:E; [by apply elem_of_nil in Hs|].
  change (removelast (c :: x :: l)) with (c :: removelast (x :: l)). cbn [foldl]. rewrite <- E in *.
  apply IH; [done | rewrite E in *; cbn in *; lia | done].
Qed.
End Weights.

(** A group's effective weight is the product of the shares on its path.  In a
    consistent state it is CG_NICE0 (1024) multiplied, at each level from the
    group up to the root where the cpu controller is on, by the group's weight
    over the sum of the weights of all children of its parent, kept between
    CG_EFF_MIN and CG_EFF_MAX; the 64-bit products and sums never wrap, the
    divisor is never zero, and the walk ends at the root. *)
Theorem eff_weight_spec (s : cgst) (c : Z) (H : cg_inv s) (Hc : live (g_cgs s) c = true) :
  eff_weight (g_cgs s) c = foldl (share (g_cgs s)) CG_NICE0 (removelast (chain (g_cgs s) c)) /\
  CG_EFF_MIN <= eff_weight (g_cgs s) c <= CG_EFF_MAX.
Proof.
  destruct (ci_tree s H) as (kids & rank & HT).
  destruct (eff_loop_shares s H kids rank HT (Z.to_nat MAX_CGS) c CG_NICE0 Hc (chain_len _ _ _ HT c Hc)) as [E B].
  { by vm_compute. }
  unfold eff_weight. rewrite Hc. cbn [negb]. rewrite E. unfold CG_EFF_MIN, CG_EFF_MAX in *. rewrite u32_small by lia. done.
Qed.

(** ** A concrete history *)

(** Three tasks of two thread groups, none attached. *)
Definition demo_tasks : cgst :=
  Cgst (fun _ => zeroed) 0 (fun i => Task (i <? 3) (i + 1) (if i =? 1 then 1 else i + 1) (-1) CG_NICE0 None (-1)) (fun _ => -1).

(** The groups 1 ("web") below the root and 2 ("db") below it, tasks 0 and 1 in 1. *)
Definition demo_history : list cgop :=
  [OpMkdir (chars "//web"); OpAttach 0 1; OpAttach 1 1; OpWrite 0 1 F_CPU_WEIGHT (chars "300"); OpMkdir (chars "/web//db");
   OpMkdir (chars "//sys"); OpWrite 0 2 F_PIDS_MAX (chars "2")].
Definition demo_cgst : cgst := foldl cgexec (cgroup_init demo_tasks) demo_history.

Lemma demo_history_ok : Forall op_ok demo_history.
Proof. repeat constructor; apply elem_of_seqZ; unfold MAX_PROCS; lia. Qed.

Lemma demo_cg_inv : cg_inv demo_cgst.
Proof. apply history_inv; [by apply inv_init | apply demo_history_ok]. Qed.

Lemma cgroup_consistent_witness : cg_inv (foldl cgexec (cgroup_init demo_tasks) demo_history) /\
  chain (g_cgs demo_cgst) 2 = [2; 1; 0] /\ children (g_cgs demo_cgst) 0 = [3; 1] /\ nprocs (g_cgs demo_cgst 1) = 2.
Proof.
  split; [apply (cgroup_consistent demo_tasks demo_history); [intros i _; reflexivity | exact demo_history_ok]|].
  split; [vm_compute; reflexivity|]. split; vm_compute; reflexivity.
Defined.

Lemma cg_attach_new_spec_witness : let '(s', r) := cg_attach_new demo_cgst 2 2 in
  r = 0 /\ cg_inv s' /\ tasks_below s' 1 = 3 /\ tasks_below s' 2 <= 2.
Proof.
  assert (Hp : 2 ∈ proc_slots) by (apply elem_of_seqZ; unfold MAX_PROCS; lia).
  pose proof (cg_attach_new_spec demo_cgst 2 2 demo_cg_inv Hp) as M.
  assert (Er : (cg_attach_new demo_cgst 2 2).2 = 0) by (vm_compute; reflexivity).
  assert (Eb : tasks_below demo_cgst 1 = 2) by (vm_compute; reflexivity).
  assert (Em : pids_max (g_cgs (cg_attach_new demo_cgst 2 2).1 2) = 2) by (vm_compute; reflexivity).
  assert (Ec : chain (g_cgs demo_cgst) 2 = [2; 1; 0]) by (vm_compute; reflexivity).
  destruct (cg_attach_new demo_cgst 2 2) as [s' r]. cbn [fst snd] in Er, Em. destruct M as (_ & _ & M).
  destruct (M Er) as (M1 & _ & M3 & M4). split; [exact Er|]. split; [exact M1|]. rewrite Ec in M3, M4. split.
  - rewrite M3, Eb. reflexivity.
  - pose proof (M4 2 ltac:(left) ltac:(rewrite Em; lia)) as Q. rewrite Em in Q. exact Q.
Defined.

Lemma group_of s pid tgid : forallb (fun l => negb (t_used (tasks s l)) || negb (t_pid (tasks s l) =? pid) ||
    (t_tgid (tasks s l) =? tgid)) proc_slots = true ->
  forall l, l ∈ proc_slots -> t_used (tasks s l) = true -> t_pid (tasks s l) = pid -> t_tgid (tasks s l) = tgid.
Proof.
  intros H l Hl Hu Hp. rewrite forallb_forall in H. specialize (H l (proj1 (list_elem_of_In _ _) Hl)).
  rewrite Hu, Hp, Z.eqb_refl in H. by apply Z.eqb_eq.
Qed.

Lemma cg_move_tgid_spec_witness : let '(s', r) := cg_move_tgid demo_cgst 1 2 in
  r = 0 /\ cg_inv s' /\ tasks_below s' 2 <= 2.
Proof.
  pose proof (cg_move_tgid_spec demo_cgst 1 2 demo_cg_inv) as M.
  assert (Er : (cg_move_tgid demo_cgst 1 2).2 = 0) by (vm_compute; reflexivity).
  assert (Em : pids_max (g_cgs (cg_move_tgid demo_cgst 1 2).1 2) = 2) by (vm_compute; reflexivity).
  assert (Ec : chain (g_cgs demo_cgst) 2 = [2; 1; 0]) by (vm_compute; reflexivity).
  assert (E0 : pids_max (g_cgs demo_cgst 2) = 2) by (vm_compute; reflexivity).
  pose proof (group_of demo_cgst 1 1 ltac:(vm_compute; reflexivity)) as Et.
  assert (E1 : moves demo_cgst 1 2 0 = true) by (vm_compute; reflexivity).
  assert (Hp : 0 ∈ proc_slots) by (apply elem_of_seqZ; unfold MAX_PROCS; lia).
  destruct (cg_move_tgid demo_cgst 1 2) as [s' r]. cbn [fst snd] in Er, Em. destruct M as [_ M].
  destruct (M Er) as (M1 & l & Hl & Hu & Hpid & _ & M2). split; [exact Er|]. split; [exact M1|].
  rewrite (Et l Hl Hu Hpid), Ec in M2.
  pose proof (M2 (ex_intro _ 0 (conj Hp E1)) 2 ltac:(left) ltac:(rewrite E0; lia)) as Q. rewrite Em in Q. exact Q.
Defined.

Lemma eff_weight_spec_witness : eff_weight (g_cgs demo_cgst) 1 = clamp (1024 * 300 / 400) /\
  CG_EFF_MIN <= eff_weight (g_cgs demo_cgst) 2 <= CG_EFF_MAX.
Proof.
  split.
  - destruct (eff_weight_spec demo_cgst 1 demo_cg_inv ltac:(vm_compute; reflexivity)) as [E _]. rewrite E. vm_compute. reflexivity.
  - apply (eff_weight_spec demo_cgst 2 demo_cg_inv). vm_compute. reflexivity.
Defined.
