(* ===== verification/CgroupText.v ===== *)
(** * The control-group files: text in, text out

    Numbers a control file shows are read back by the parser as they were; and
    three things the text interface means to do but cannot: write an unlimited
    value, and create or open a group by an ordinary path. *)
From Stdlib Require Import String Ascii.
From S2P Require Import Prelude Sched SchedOps Cgroup CgroupFs CgroupSpec CgroupInv CgroupSafe.
#[local] Open Scope Z_scope.
#[local] Open Scope list_scope.

(** ** Decimal numbers *)

Definition dstep (v c : Z) : Z := u64 (u64 (v * 10) + (c - 48)).

Lemma parse_digits_app l : forall v rest, Forall (fun c => is_digit c = true) l ->
  parse_digits v (l ++ rest) = parse_digits (foldl dstep v l) rest.
Proof.
  induction l as [|c l IH]; intros v rest H; [done|]. inversion_clear H as [|? ? Hc Hl]. cbn. rewrite Hc. by apply IH.
Qed.

Lemma digit_char v : is_digit (48 + v mod 10) = true.
Proof. unfold is_digit. pose proof (Z.mod_pos_bound v 10). apply andb_true_iff. rewrite !Z.leb_le. lia. Qed.

Lemma digits_ok n : forall v, Forall (fun c => is_digit c = true) (rev (digits n v)).
Proof.
  intros v. apply Forall_rev. revert v. induction n as [|n IH]; intros v; cbn; constructor; [apply digit_char|].
  case_match; [constructor | apply IH].
Qed.

Lemma digits_value n : forall v, 0 <= v < 2 ^ 64 -> v < 10 ^ Z.of_nat (S n) -> foldl dstep 0 (rev (digits (S n) v)) = v.
Proof.
  induction n as [|n IH]; intros v Hv Hn.
  - change (10 ^ Z.of_nat 1) with 10 in Hn. cbn -[Z.add Z.modulo Z.div]. rewrite Z.div_small, Z.mod_small by lia. cbn -[Z.add].
    unfold dstep. rewrite (u64_small (0 * 10)) by lia. rewrite u64_small by lia. lia.
  - pose proof (Z.div_mod v 10 ltac:(lia)) as Hdm. pose proof (Z.mod_pos_bound v 10 ltac:(lia)).
    assert (Hd : 0 <= v / 10 < 2 ^ 64) by (split; [apply Z.div_pos; lia | apply Z.div_lt_upper_bound; lia]).
    assert (Hk : v / 10 < 10 ^ Z.of_nat (S n)).
    { apply Z.div_lt_upper_bound; [lia|]. rewrite <- Z.pow_succ_r by lia. by rewrite <- Nat2Z.inj_succ. }
    change (digits (S (S n)) v) with ((48 + v mod 10) :: (if v / 10 =? 0 then [] else digits (S n) (v / 10))).
    cbn [rev]. rewrite foldl_app. assert (E : foldl dstep 0 (rev (if v / 10 =? 0 then [] else digits (S n) (v / 10))) = v / 10).
    { destruct (Z.eqb_spec (v / 10) 0) as [->|]; [done|]. by apply IH. }
    rewrite E. cbn [foldl]. unfold dstep. rewrite (u64_small (v / 10 * 10)) by lia. rewrite u64_small by lia. lia.
Qed.

Lemma digits_len n v : (1 <= length (digits (S n) v) <= S n)%nat.
Proof.
  revert v. induction n as [|n IH]; intros v; [cbn; case_match; cbn; lia|].
  change (digits (S (S n)) v) with ((48 + v mod 10) :: (if v / 10 =? 0 then [] else digits (S n) (v / 10))).
  cbn [length]. specialize (IH (v / 10)). case_match; cbn [length]; lia.
Qed.

(** What [cg_u64] writes, [parse_u64] reads. *)
Lemma parse_number v rest : 0 <= v < 2 ^ 64 -> (forall c q, rest = c :: q -> is_digit c = false) ->
  parse_u64 (rev (digits 20 v) ++ rest) = Some (v, rest).
Proof.
  intros Hv Hr. pose proof (digits_ok 20 v) as Hd. pose proof (digits_value 19 v Hv ltac:(lia)) as Hval.
  pose proof (digits_len 19 v) as Hlen. rewrite <- length_rev in Hlen. set (l := rev (digits 20 v)) in *.
  unfold parse_u64. destruct l as [|c l]; [cbn in Hlen; lia|]. pose proof Hd as [Hc _]%Forall_cons.
  assert (Hb : 48 <= c <= 57) by (unfold is_digit in Hc; apply andb_true_iff in Hc; rewrite !Z.leb_le in Hc; lia).
  cbn [app skip_space]. assert (is_space c = false) as ->.
  { unfold is_space. repeat match goal with |- context [c =? ?k] => destruct (Z.eqb_spec c k); [lia|] end. done. }
  assert (is_max (c :: l ++ rest) = false) as ->.
  { unfold is_max, at_. cbn [nth]. destruct (Z.eqb_spec c 109); [lia | done]. }
  unfold at_. cbn [nth]. rewrite Hc. cbn [negb]. rewrite app_comm_cons, parse_digits_app by done. rewrite Hval.
  destruct rest as [|r rest]; [done|]. cbn. by rewrite (Hr r rest eq_refl).
Qed.

(** ** Buffers *)

Lemma cg_str_fits l : forall b, alen (b_data b) + alen l < b_cap b ->
  b_data (cg_str b l) = b_data b ++ l /\ b_cap (cg_str b l) = b_cap b.
Proof.
  induction l as [|c l IH]; intros b Hb; [by rewrite app_nil_r|]. unfold alen in *. cbn [length] in Hb.
  unfold cg_str. cbn [foldl]. fold (cg_str (cg_char b c) l).
  assert (E : cg_char b c = Cgbuf (b_cap b) (b_data b ++ [c])).
  { unfold cg_char, alen. destruct (Z.ltb_spec (Z.of_nat (length (b_data b))) (b_cap b - 1)); [done | lia]. }
  rewrite E. destruct (IH (Cgbuf (b_cap b) (b_data b ++ [c]))) as [-> ->]; cbn; [rewrite length_app; cbn; lia|].
  by rewrite <- app_assoc.
Qed.

(** A number and a newline into an empty scratch buffer. *)
Lemma number_line v : b_data (cg_char (cg_u64 (Cgbuf SCRATCH []) v) NL) = rev (digits 20 v) ++ [NL].
Proof.
  pose proof (digits_len 19 v) as Hlen. change (cg_char (cg_u64 (Cgbuf SCRATCH []) v) NL)
    with (cg_str (cg_str (Cgbuf SCRATCH []) (rev (digits 20 v))) [NL]).
  destruct (cg_str_fits (rev (digits 20 v)) (Cgbuf SCRATCH [])) as [E1 E2].
  { unfold alen, SCRATCH. rewrite length_rev. cbn [b_data b_cap length]. lia. }
  destruct (cg_str_fits [NL] (cg_str (Cgbuf SCRATCH []) (rev (digits 20 v)))) as [-> _].
  - rewrite E1, E2. unfold alen, SCRATCH. cbn [b_data b_cap app length]. rewrite length_rev. lia.
  - rewrite E1. done.
Qed.

Lemma refresh_groups s : g_cgs (cg_refresh_weights_locked s) = g_cgs s.
Proof.
  unfold cg_refresh_weights_locked. generalize proc_slots. intros l. revert s.
  induction l as [|i l IH]; intros s; [done|]. cbn [foldl]. rewrite IH. unfold refresh_task. by case_match.
Qed.

(** ** Reading back *)

(** The number a writable control file holds, and its range. *)
Definition value (f : cgfile) (g : cgrp) : Z :=
  match f with F_CPU_WEIGHT => weight g | F_PIDS_MAX => pids_max g | F_MEM_MAX => mem_max g | _ => 0 end.

Definition value_ok (f : cgfile) (g : cgrp) : Prop :=
  match f with
  | F_CPU_WEIGHT => CG_WEIGHT_MIN <= weight g <= CG_WEIGHT_MAX
  | F_PIDS_MAX => 0 <= pids_max g < 2 ^ 31
  | F_MEM_MAX => 0 <= mem_max g < 2 ^ 64
  | _ => False
  end.

(** The text of such a file. *)
Definition value_text (f : cgfile) (g : cgrp) : list Z :=
  if bool_decide (f = F_MEM_MAX) && (mem_max g =? MEM_UNLIMITED) then chars "max" ++ [NL]
  else rev (digits 20 (value f g)) ++ [NL].

Lemma render_value s c f : value_ok f (g_cgs s c) ->
  b_data (render_file s c f (Cgbuf SCRATCH [])) = value_text f (g_cgs s c).
Proof.
  intros Hv. unfold value_text. destruct f; try done; cbn [render_file value].
  - apply number_line.
  - cbn in Hv. destruct (Z.ltb_spec (pids_max (g_cgs s c)) 0); [lia|]. apply number_line.
  - destruct (Z.eqb_spec (mem_max (g_cgs s c)) MEM_UNLIMITED); [by vm_compute|]. apply number_line.
Qed.

Lemma value_text_len f g : 1 <= alen (value_text f g) <= 21.
Proof.
  unfold value_text, alen. case_match; [by vm_compute|]. rewrite length_app, length_rev. pose proof (digits_len 19 (value f g)).
  cbn [length]. lia.
Qed.

Lemma parse_value f g : value_ok f g -> parse_u64 (value_text f g) = Some (value f g, [NL]).
Proof.
  intros Hv. unfold value_text. destruct (bool_decide (f = F_MEM_MAX) && (mem_max g =? MEM_UNLIMITED)) eqn:E.
  - apply andb_true_iff in E as [->%bool_decide_eq_true E%Z.eqb_eq]. cbn [value]. rewrite E. by vm_compute.
  - apply parse_number; [|by intros c q [= <- <-]]. destruct f; try done; cbn in *; unfold CG_WEIGHT_MIN, CG_WEIGHT_MAX in *; lia.
Qed.

(** C33: What a control file shows can be written back.  For cpu.weight, a limited
    pids.max and memory.max (limited or not), reading the file of a live group
    yields a text which, written to the same file of that group in any state,
    is accepted whole and sets the same value. *)
Theorem cgfile_roundtrip (s s0 : cgst) (now c : Z) (f : cgfile) :
  live (g_cgs s) c = true -> live (g_cgs s0) c = true -> value_ok f (g_cgs s c) ->
  exists text, cgfile_read s c f 0 SCRATCH = inl text /\
    let '(s1, r) := cgfile_write s0 now c f text in
    r = alen text /\ value f (g_cgs s1 c) = value f (g_cgs s c).
Proof.
  intros Hs H0 Hv. pose proof (value_text_len f (g_cgs s c)) as Hlen. pose proof (parse_value f _ Hv) as Hp.
  exists (value_text f (g_cgs s c)). unfold cgfile_read. rewrite Hs. cbn [negb]. rewrite render_value by done. split.
  - destruct (Z.ltb_spec 0 (alen (value_text f (g_cgs s c)))); [|lia]. f_equal. rewrite drop_0. apply take_ge.
    unfold alen, SCRATCH in *. lia.
  - unfold cgfile_write. rewrite H0. cbn [negb]. destruct (Z.eqb_spec (alen (value_text f (g_cgs s c))) 0); [lia|].
    destruct (Z.ltb_spec 255 (alen (value_text f (g_cgs s c)))); [lia|]. set (text := value_text f _) in *.
    assert (Ew : exists s1, apply_write s0 now c f text = (s1, alen text) /\ value f (g_cgs s1 c) = value f (g_cgs s c)).
    { unfold apply_write, parse_s32. rewrite Hp. destruct f; try done; cbn [value] in *; cbn in Hv.
      - unfold CG_WEIGHT_MIN, CG_WEIGHT_MAX in Hv. destruct (Z.eqb_spec (weight (g_cgs s c)) (2 ^ 64 - 1)); [lia|].
        rewrite s32_small by lia. unfold CG_WEIGHT_MIN, CG_WEIGHT_MAX. destruct (Z.ltb_spec (weight (g_cgs s c)) 1); [lia|].
        destruct (Z.ltb_spec 10000 (weight (g_cgs s c))); [lia|]. eexists. split; [done|]. rewrite refresh_groups. cbn.
        by rewrite upd_eq.
      - destruct (Z.eqb_spec (pids_max (g_cgs s c)) (2 ^ 64 - 1)); [lia|]. rewrite s32_small by lia.
        destruct (Z.ltb_spec (pids_max (g_cgs s c)) 0); [lia|]. eexists. split; [done|]. cbn. by rewrite upd_eq.
      - eexists. split; [done|]. cbn. by rewrite upd_eq. }
    destruct Ew as (s1 & -> & E). destruct (Z.ltb_spec (alen text) 0); [lia|]. done.
Qed.

(** ** Unlimited values *)

Lemma rollover_quota n : forall g now, quota_ticks (rollover_loop n g now) = quota_ticks g.
Proof. induction n as [|n IH]; intros g now; cbn; [done|]. case_match; [done|]. by rewrite IH. Qed.

(** C0: "max" cannot be written to pids.max, and means one tick in cpu.max.  A group
    without a task limit shows "max" in pids.max, but writing that text back to
    any live group is refused; and writing "max" with any valid period to
    cpu.max is accepted and leaves the group with a quota of one tick per
    period, not without a quota. *)
Theorem unlimited_not_writable (s : cgst) (now c : Z) (H : live (g_cgs s) c = true) :
  cgfile_write s now c F_PIDS_MAX (chars "max" ++ [NL]) = (s, - E_INVAL) /\
  (pids_max (g_cgs s c) < 0 -> cgfile_read s c F_PIDS_MAX 0 SCRATCH = inl (chars "max" ++ [NL])) /\
  let '(s1, r) := cgfile_write s now c F_CPU_MAX (chars "max 100000" ++ [NL]) in
  r = 11 /\ quota_ticks (g_cpu (g_cgs s1 c)) = 1.
Proof.
  split; [unfold cgfile_write; rewrite H; vm_compute; by destruct s|]. split.
  - intros Hp. unfold cgfile_read. rewrite H. cbn [negb render_file]. destruct (Z.ltb_spec (pids_max (g_cgs s c)) 0); [|lia].
    by vm_compute.
  - unfold cgfile_write. rewrite H. cbn [negb]. change (alen (chars "max 100000" ++ [NL])) with 11. cbn [Z.eqb Z.ltb Z.compare].
    unfold apply_write. change (parse_cpu_max (chars "max 100000" ++ [NL])) with (inl (10, 0) : (Z * Z) + Z).
    cbn [Z.ltb]. change (alen (chars "max 100000" ++ [NL])) with 11. split; [done|].
    cbn [with_group with_groups g_cgs]. rewrite upd_eq. cbn [g_cpu set_cpu]. unfold cg_cpu_set_max, period_rollover.
    case_match; [done|]. by rewrite rollover_quota.
Qed.

(** ** Ordinary paths *)

(** "/a/b/c" from its components. *)
Definition path_of (comps : list (list Z)) : list Z := concat (cons SLASH <$> comps).
Definition comp_ok (a : list Z) : Prop := a <> [] /\ SLASH ∉ a.
Definition file_named (a : list Z) : Prop := exists f ctrl, (a, f, ctrl) ∈ g_files.

Lemma component_slash a rest : SLASH ∉ a -> component (a ++ SLASH :: rest) = (a, SLASH :: rest).
Proof.
  induction a as [|c a IH]; intros Ha; [done|]. cbn. destruct (Z.eqb_spec c SLASH) as [->|]; [destruct Ha; left|].
  rewrite IH; [done|]. intros Hin. apply Ha. by right.
Qed.

Lemma component_end a : SLASH ∉ a -> component a = (a, []).
Proof.
  induction a as [|c a IH]; intros Ha; [done|]. cbn. destruct (Z.eqb_spec c SLASH) as [->|]; [destruct Ha; left|].
  rewrite IH; [done|]. intros Hin. apply Ha. by right.
Qed.

Lemma skip_slash_comp a rest : comp_ok a -> skip_slash (a ++ rest) = a ++ rest /\ skip_slash (SLASH :: a ++ rest) = a ++ rest.
Proof.
  intros [Hne Ha]. destruct a as [|c a]; [done|]. cbn. destruct (Z.eqb_spec c SLASH) as [->|]; [destruct Ha; left | done].
Qed.

Lemma no_file G c a : ~ file_named a -> name_to_file G c a = None.
Proof.
  intros Hn. unfold name_to_file. destruct (list_find _ g_files) as [[i [[nm f] ctrl]]|] eqn:E; [|done]. exfalso.
  apply list_find_Some in E as (Hi & Hp & _). cbn in Hp. apply andb_true_iff in Hp as [_ ->%bool_decide_eq_true].
  apply Hn. exists f, ctrl. by eapply list_elem_of_lookup_2.
Qed.

Lemma walk_normal G n : forall c comps a, Forall comp_ok (comps ++ [a]) -> ~ file_named a -> forall p,
  p = path_of (comps ++ [a]) \/ SLASH :: p = path_of (comps ++ [a]) -> walk_path n G c p = None.
Proof.
  induction n as [|n IH]; intros c comps a Hok Hn p Hp; [done|]. cbn [walk_path].
  destruct comps as [|b comps]; cbn [app] in *; apply Forall_cons in Hok as [Hb Hok].
  - assert (skip_slash p = a) as ->.
    { destruct (skip_slash_comp a [] Hb) as [E1 E2]. rewrite app_nil_r in *.
      destruct Hp as [->|E]; [cbn; rewrite app_nil_r; exact E2|]. cbn in E. rewrite app_nil_r in E. by injection E as ->. }
    destruct Hb as [Hne Ha]. destruct a as [|x a]; [done|]. rewrite component_end by done.
    rewrite no_file by done. by case_match.
  - assert (skip_slash p = b ++ path_of (comps ++ [a])) as ->.
    { destruct (skip_slash_comp b (path_of (comps ++ [a])) Hb) as [E1 E2].
      destruct Hp as [->|E]; [exact E2|]. cbn in E. by injection E as ->. }
    assert (Hcat : exists q, path_of (comps ++ [a]) = SLASH :: q).
    { unfold path_of. destruct comps; cbn; by eexists. }
    destruct Hcat as [q Hq]. rewrite Hq. destruct Hb as [Hne Hbs]. destruct b as [|x b]; [done|]. cbn [app].
    rewrite (app_comm_cons b (SLASH :: q) x), component_slash by done. case_match; [done|]. destruct (child_named G c (x :: b)); [|done].
    apply (IH _ comps a Hok Hn). left. by symmetry.
Qed.

Lemma split_last_none a : SLASH ∉ a -> split_last a = None.
Proof.
  induction a as [|c a IH]; intros Ha; [done|]. cbn. rewrite IH by (intros Hin; apply Ha; by right).
  destruct (Z.eqb_spec c SLASH) as [->|]; [destruct Ha; left | done].
Qed.

Lemma split_last_path p a : SLASH ∉ a -> split_last (p ++ SLASH :: a) = Some (p, a).
Proof. intros Ha. induction p as [|c p IH]; cbn; [by rewrite split_last_none | by rewrite IH]. Qed.

(** No group can be made, opened or removed by an ordinary path.  For a path
    "/a/b/.../name" without empty components, in which neither the last
    component nor the one before it is the name of a control file, in any state
    whatsoever (the group may exist): resolving it and removing it fail with
    ENOENT, and mkdir fails too (EEXIST when the path has one component); the
    tree does not change. *)
Theorem cgfs_paths_unreachable (s : cgst) (comps : list (list Z)) (name : list Z) :
  Forall comp_ok (comps ++ [name]) -> ~ file_named name -> (forall b, last comps = Some b -> ~ file_named b) ->
  let rel := path_of (comps ++ [name]) in
  cgfs_resolve (g_cgs s) rel = inr (- E_NOENT) /\ cgfs_rmdir s rel = (s, - E_NOENT) /\
  cgfs_mkdir s rel = (s, if bool_decide (comps = []) then - E_EXIST else if name_ok name then - E_NOENT else - E_INVAL).
Proof.
  intros Hok Hn Hl. cbn zeta.
  assert (Hw : forall cs a, Forall comp_ok (cs ++ [a]) -> ~ file_named a -> walk_rel (g_cgs s) (path_of (cs ++ [a])) = None).
  { intros cs a Ho Ha. assert (exists q, path_of (cs ++ [a]) = SLASH :: q) as [q Hq]
      by (unfold path_of; destruct cs; cbn; by eexists).
    rewrite Hq. cbn [walk_rel]. rewrite Z.eqb_refl. apply (walk_normal _ _ _ cs a Ho Ha). right. by rewrite Hq. }
  pose proof (Hw comps name Hok Hn) as E. apply Forall_app in Hok as [Hcs [[Hne Hs] _]%Forall_cons].
  assert (Hp : path_of (comps ++ [name]) = path_of comps ++ SLASH :: name).
  { unfold path_of. rewrite fmap_app, concat_app. cbn. by rewrite app_nil_r. }
  assert (H0 : at_ (path_of (comps ++ [name])) 0 = SLASH) by (unfold path_of; by destruct comps).
  split; [unfold cgfs_resolve; by rewrite E|]. split.
  - unfold cgfs_rmdir. rewrite H0, E. cbn [Z.eqb negb orb]. rewrite bool_decide_false; [done|].
    rewrite Hp. destruct (path_of comps); cbn; [|by destruct l]. intros [= ->]. done.
  - unfold cgfs_mkdir. rewrite H0. cbn [Z.eqb negb]. rewrite Hp, split_last_path by done.
    destruct (decide (comps = [])) as [->|Hc]; [done|]. rewrite (bool_decide_false (comps = [])) by done.
    destruct (exists_last Hc) as (cs & b & ->). rewrite (Hw cs b); [|done | apply Hl; by rewrite last_snoc].
    assert (alen (path_of (cs ++ [b])) =? 0 = false) as ->.
    { unfold alen, path_of. rewrite fmap_app, concat_app, length_app. cbn. destruct (Z.eqb_spec (Z.of_nat
        (length (concat (cons SLASH <$> cs)) + S (length (b ++ [])))) 0); [lia | done]. }
    by destruct (name_ok name).
Qed.

Lemma cgfile_roundtrip_witness : exists text, cgfile_read demo_cgst 1 F_CPU_WEIGHT 0 SCRATCH = inl text /\
  let '(s1, r) := cgfile_write (cgroup_init demo_tasks) 0 0 F_MEM_MAX (chars "max") in r = 3 /\
  let '(s2, r) := cgfile_write demo_cgst 0 1 F_CPU_WEIGHT text in r = alen text /\ weight (g_cgs s2 1) = 300.
Proof.
  destruct (cgfile_roundtrip demo_cgst demo_cgst 0 1 F_CPU_WEIGHT) as (text & Hr & Hw);
    [vm_compute; reflexivity | vm_compute; reflexivity | vm_compute; split; discriminate |].
  exists text. split; [exact Hr|]. split; [vm_compute; reflexivity|].
  assert (E : value F_CPU_WEIGHT (g_cgs demo_cgst 1) = 300) by (vm_compute; reflexivity). rewrite E in Hw.
  destruct (cgfile_write demo_cgst 0 1 F_CPU_WEIGHT text) as [s2 r]. exact Hw.
Defined.

Lemma unlimited_not_writable_witness :
  cgfile_write demo_cgst 0 1 F_PIDS_MAX (chars "max" ++ [NL]) = (demo_cgst, - E_INVAL).
Proof.
  assert (H : live (g_cgs demo_cgst) 1 = true) by (vm_compute; reflexivity).
  exact (proj1 (unlimited_not_writable demo_cgst 0 1 H)).
Defined.

Lemma not_control_file a : forallb (fun e : list Z * cgfile * Z => negb (bool_decide (e.1.1 = a))) g_files = true -> ~ file_named a.
Proof.
  intros H (f & ctrl & Hin). rewrite forallb_forall in H. specialize (H _ (proj1 (list_elem_of_In _ _) Hin)).
  cbn in H. by rewrite bool_decide_true in H.
Qed.

(** Both "web" and "web/db" exist in the demonstration tree. *)
Lemma cgfs_paths_unreachable_witness :
  cgfs_resolve (g_cgs demo_cgst) (chars "/web/db") = inr (- E_NOENT) /\
  cgfs_mkdir demo_cgst (chars "/new") = (demo_cgst, - E_EXIST).
Proof.
  assert (Hok : forall l, forallb (fun a => negb (bool_decide (a = [])) && forallb (fun c => negb (c =? SLASH)) a) l = true ->
    Forall comp_ok l).
  { intros l H. apply Forall_forall. intros a Ha. rewrite forallb_forall in H.
    specialize (H a (proj1 (list_elem_of_In _ _) Ha)). apply andb_true_iff in H as [H1 H2]. split.
    - apply negb_true_iff, bool_decide_eq_false in H1. exact H1.
    - intros Hin. rewrite forallb_forall in H2. specialize (H2 _ (proj1 (list_elem_of_In _ _) Hin)). discriminate. }
  split.
  - refine (proj1 (cgfs_paths_unreachable demo_cgst [chars "web"] (chars "db") (Hok _ _) _ _));
      [vm_compute; reflexivity | apply not_control_file; vm_compute; reflexivity |].
    intros b [= <-]. apply not_control_file. vm_compute. reflexivity.
  - refine (proj2 (proj2 (cgfs_paths_unreachable demo_cgst [] (chars "new") (Hok _ _) _ _)));
      [vm_compute; reflexivity | apply not_control_file; vm_compute; reflexivity | intros b [=]].
Defined.
