(* ===== verification/CgroupMem.v ===== *)
(** * kernel/cgroup/cgroup_mem.c on the control-group tree

    The memory controller sees, of each group, whether it is live, its parent,
    its counter and its limit.  Over a well-formed tree the counter of a group
    is the sum of what was charged to the groups at or below it. *)
From S2P Require Import Prelude Sched SchedOps Mem Kstring Pmm FrameRef Vmm Cgroup CgroupFs CgroupSpec CgroupInv CgroupSafe.
#[local] Open Scope Z_scope.
#[local] Open Scope list_scope.

(** One update of every counter on a list. *)
Definition bump (f : Z -> Z) (M : Z -> cgmem) (l : list Z) : Z -> cgmem :=
  foldl (fun M c => set_mem_bytes M c (f (Vmm.mem_bytes (M c)))) M l.

Lemma bump_at f l : forall M a, NoDup l ->
  Vmm.mem_bytes (bump f M l a) = (if bool_decide (a ∈ l) then f (Vmm.mem_bytes (M a)) else Vmm.mem_bytes (M a)) /\
  Vmm.mem_max (bump f M l a) = Vmm.mem_max (M a) /\ Vmm.cg_parent (bump f M l a) = Vmm.cg_parent (M a) /\
  Vmm.cg_live (bump f M l a) = Vmm.cg_live (M a).
Proof.
  induction l as [|c l IH]; intros M a Hnd.
  { rewrite bool_decide_false by apply not_elem_of_nil. done. }
  apply NoDup_cons in Hnd as [Hc Hnd]. change (bump f M (c :: l)) with (bump f (set_mem_bytes M c (f (Vmm.mem_bytes (M c)))) l).
  destruct (IH (set_mem_bytes M c (f (Vmm.mem_bytes (M c)))) a Hnd) as (-> & -> & -> & ->). unfold set_mem_bytes.
  destruct (Z.eqb_spec a c) as [->|Hne].
  - rewrite (bool_decide_false (c ∈ l)) by done. by rewrite (bool_decide_true (c ∈ c :: l)) by left.
  - by rewrite (bool_decide_ext (a ∈ c :: l) (a ∈ l)) by (rewrite elem_of_cons; naive_solver).
Qed.

(** What was charged to each group itself accounts for every counter. *)
Definition accounted (G : Z -> cgrp) (M : Z -> cgmem) (own : Z -> Z) : Prop :=
  forall a, live G a = true -> Vmm.mem_bytes (M a) = below G own a.

Section Charge.
Context (G : Z -> cgrp) (kids : Z -> list Z) (rank : Z -> nat) (HT : tree_ok G kids rank).

Lemma below_upd own c v a : live G c = true ->
  below G (upd own c v) a = below G own a + ind (a ∈ chain G c) * (v - own c).
Proof.
  intros Hc. unfold below. rewrite (zsum_upd (fun d => if live G d then ind (a ∈ chain G d) * own d else 0) _ slots c).
  - rewrite Hc, upd_eq. lia.
  - apply NoDup_seqZ.
  - apply elem_of_seqZ. by apply live_range in Hc.
  - intros d Hd. by rewrite upd_ne.
Qed.

Lemma below_nonneg own a : (forall d, 0 <= own d) -> 0 <= below G own a.
Proof.
  intros H. apply zsum_nonneg. intros d. destruct (live G d); [|done].
  pose proof (ind_range (a ∈ chain G d)). specialize (H d). nia.
Qed.

Lemma below_own own c a : (forall d, 0 <= own d) -> live G c = true -> a ∈ chain G c -> own c <= below G own a.
Proof.
  intros H Hc Ha. pose proof (below_upd own c 0 a Hc) as E. unfold ind in E. rewrite decide_True in E by done.
  assert (Hn : forall d, 0 <= upd own c 0 d) by (intros d; unfold upd; case_match; [done | apply H]).
  pose proof (below_nonneg (upd own c 0) a Hn). lia.
Qed.

Context (M : Z -> cgmem) (HM : forall a, Vmm.cg_parent (M a) = parent G a /\ Vmm.cg_live (M a) = SchedOps.cg_live (g_cpu (G a))).

Lemma charge_chain c : cg_chain_of M c = chain G c.
Proof.
  unfold cg_chain_of, chain. change Vmm.MAX_CGS with SchedOps.MAX_CGS. generalize (Z.to_nat SchedOps.MAX_CGS).
  intros n. revert c. induction n as [|n IH]; intros c; cbn; [done|]. rewrite IH. by destruct (HM c) as [-> _].
Qed.

Lemma not_skipped c bytes : live G c = true -> 0 < bytes -> cg_skip M c bytes = false.
Proof.
  intros Hc Hb. pose proof (live_range G c Hc) as Hr. unfold cg_skip. destruct (HM c) as [_ ->].
  rewrite (live_flag G c Hc). change Vmm.MAX_CGS with SchedOps.MAX_CGS.
  destruct (Z.ltb_spec c 0); [lia|]. destruct (Z.leb_spec SchedOps.MAX_CGS c); [lia|]. destruct (Z.eqb_spec bytes 0); [lia | done].
Qed.
End Charge.

(** C32: The memory controller keeps exact hierarchical accounts.  Over a
    well-formed tree in which every counter is the sum of the charges at or
    below its group: charging a live group succeeds exactly when every group up
    to the root stays within its limit, and then the accounts hold with the
    group's own charge grown by that amount; otherwise it fails with ENOMEM and
    no counter changes, not even in part.  Discharging at most what the group
    was charged keeps the accounts with its own charge lowered. *)
Theorem cg_mem_accounts (G : Z -> cgrp) (kids : Z -> list Z) (rank : Z -> nat) (M : Z -> cgmem) (own : Z -> Z) (c bytes : Z) :
  tree_ok G kids rank -> (forall a, Vmm.cg_parent (M a) = parent G a /\ Vmm.cg_live (M a) = SchedOps.cg_live (g_cpu (G a))) ->
  accounted G M own -> (forall d, 0 <= own d) -> live G c = true -> 0 < bytes -> below G own CG_ROOT + bytes < 2 ^ 64 ->
  (let '(M', r) := cg_mem_charge M c bytes in
   let fits := forall a, a ∈ chain G c -> Vmm.mem_bytes (M a) + bytes <= Vmm.mem_max (M a) in
   (r = 0 /\ fits /\ accounted G M' (upd own c (own c + bytes)) \/ r = - E_NOMEM /\ ~ fits /\ M' = M)) /\
  (bytes <= own c -> accounted G (cg_mem_discharge M c bytes) (upd own c (own c - bytes))).
Proof.
  intros HT HM Hacc Hown Hc Hb Hlt. pose proof (chain_nodup _ _ _ HT c Hc) as Hnd.
  assert (Hbound : forall a, a ∈ chain G c -> 0 <= Vmm.mem_bytes (M a) /\ Vmm.mem_bytes (M a) + bytes < 2 ^ 64).
  { intros a Ha. destruct (chain_up _ _ _ HT c a Hc Ha) as [Hl _]. rewrite Hacc by done.
    pose proof (below_nonneg G own a Hown). assert (below G own a <= below G own CG_ROOT); [|lia].
    apply zsum_le. intros d _. destruct (live G d) eqn:Hd; [|done]. pose proof (Hown d).
    unfold ind at 2. rewrite decide_True by (by apply (chain_has_root _ _ _ HT)). pose proof (ind_range (a ∈ chain G d)). nia. }
  unfold cg_mem_charge, cg_mem_discharge. rewrite (not_skipped G M HM c bytes Hc Hb). unfold mem_limit_ok.
  rewrite (charge_chain G M HM). split.
  - destruct (forallb _ (chain G c)) eqn:E; cbn [negb].
    + left. split; [done|]. rewrite forallb_forall in E. split.
      * intros a Ha. pose proof (E a (proj1 (list_elem_of_In _ _) Ha)) as L. apply Z.leb_le in L.
        destruct (Hbound a Ha). by rewrite u64_small in L by lia.
      * intros a Ha. rewrite (below_upd G own c _ a Hc). fold (bump (fun n => u64 (n + bytes)) M (chain G c)).
        destruct (bump_at (fun n => u64 (n + bytes)) (chain G c) M a Hnd) as (-> & _). unfold ind.
        destruct (decide (a ∈ chain G c)) as [Hin|Hin].
        -- rewrite bool_decide_true by done. destruct (Hbound a Hin). rewrite u64_small by lia. rewrite Hacc by done. lia.
        -- rewrite bool_decide_false by done. rewrite Hacc by done. lia.
    + right. split; [done|]. split; [|done]. intros Hf. eapply eq_true_false_abs; [|exact E]. apply forallb_forall.
      intros a Ha%list_elem_of_In. apply Z.leb_le. destruct (Hbound a Ha). rewrite u64_small by lia. by apply Hf.
  - intros Hle a Ha. rewrite (below_upd G own c _ a Hc).
    fold (bump (fun n => if bytes <=? n then n - bytes else 0) M (chain G c)).
    destruct (bump_at (fun n => if bytes <=? n then n - bytes else 0) (chain G c) M a Hnd) as (-> & _). unfold ind.
    destruct (decide (a ∈ chain G c)) as [Hin|Hin].
    + rewrite bool_decide_true by done. cbv beta; rewrite !Hacc by done. pose proof (below_own G own c a Hown Hc Hin).
      destruct (Z.leb_spec bytes (below G own a)); lia.
    + rewrite bool_decide_false by done. rewrite Hacc by done. lia.
Qed.

(** The boot tree: only the root, limited to two pages. *)
Definition demo_root : Z -> cgrp := g_cgs (cgroup_init (Cgst (fun _ => zeroed) 0 (fun _ => Task false 0 0 (-1) 0 None (-1)) (fun _ => -1))).

Lemma cg_mem_accounts_witness : let M := fun c => Cgmem (c =? 0) (parent demo_root c) 0 8192 in
  (cg_mem_charge M 0 4096).2 = 0 /\ Vmm.mem_bytes ((cg_mem_charge M 0 4096).1 0) = 4096.
Proof.
  cbn zeta. set (M := fun c => _).
  assert (HI : cg_inv (cgroup_init (Cgst (fun _ => zeroed) 0 (fun _ => Task false 0 0 (-1) 0 None (-1)) (fun _ => -1)))).
  { apply inv_init. intros i _. reflexivity. }
  destruct (ci_tree _ HI) as (kids & rank & HT).
  assert (HM : forall a, Vmm.cg_parent (M a) = parent demo_root a /\ Vmm.cg_live (M a) = SchedOps.cg_live (g_cpu (demo_root a))).
  { intros a. split; [reflexivity|]. unfold M, demo_root, cgroup_init, upd, CG_ROOT. cbn. destruct (Z.eqb_spec a 0); reflexivity. }
  assert (Hz : forall a, below demo_root (fun _ => 0) a = 0) by (intros a; apply zsum_zero; intros d _; case_match; lia).
  assert (Hr : (cg_mem_charge M 0 4096).2 = 0) by (vm_compute; reflexivity).
  assert (Hroot : live demo_root 0 = true) by (vm_compute; reflexivity).
  destruct (cg_mem_accounts demo_root kids rank M (fun _ => 0) 0 4096 HT HM) as [H _];
    [intros a _; rewrite Hz; reflexivity | intros d; lia | exact Hroot | lia | rewrite Hz; lia |].
  destruct (cg_mem_charge M 0 4096) as [M' r]. cbn [fst snd] in *. split; [exact Hr|].
  destruct H as [(_ & _ & H)|(H & _)]; [|rewrite Hr in H; discriminate].
  rewrite (H 0 Hroot), (below_upd demo_root _ 0 _ 0 Hroot), Hz. vm_compute. reflexivity.
Defined.
