(* ===== verification/Seccomp.v ===== *)
(** * kernel/seccomp.c: seccomp-BPF

    The classic-BPF interpreter, the check made on every system call, and the
    prctl(2) and seccomp(2) entry points that install filters.  A filter is a
    kernel-heap buffer: instructions are read from memory where the code reads
    them, and [sys_seccomp] allocates and fills the buffer with the [kmalloc] of
    Heap and the [memcpy] of Kstring.  A load outside the [seccomp_data]
    snapshot, which C would perform, is the value [Oob]. *)
From S2P Require Import Prelude Mem Kstring Pmm Heap HeapSpec HeapClient.
#[local] Open Scope Z_scope.

Definition SECCOMP_MODE_DISABLED := 0.
Definition SECCOMP_MODE_STRICT := 1.
Definition SECCOMP_MODE_FILTER := 2.
Definition SECCOMP_SET_MODE_FILTER := 1.
Definition SECCOMP_GET_ACTION_AVAIL := 2.
Definition SECCOMP_RET_KILL_PROCESS := 0.
Definition SECCOMP_RET_KILL_THREAD := 65536.
Definition SECCOMP_RET_TRAP := 131072.
Definition SECCOMP_RET_ERRNO := 327680.
Definition SECCOMP_RET_TRACE := 2146435072.
Definition SECCOMP_RET_LOG := 2147221504.
Definition SECCOMP_RET_ALLOW := 2147418112.
Definition SECCOMP_RET_ACTION_MASK := 4294901760.
Definition SECCOMP_BPF_MAXINSNS := 256.
Definition PR_GET_SECCOMP := 21.
Definition PR_SET_SECCOMP := 22.
Definition PR_SET_NO_NEW_PRIVS := 38.
Definition PR_GET_NO_NEW_PRIVS := 39.
Definition AUDIT_ARCH_X86_64 := 3221225534.

(** ** The interpreter *)

Record sock_filter := SockFilter { code : Z; jt : Z; jf : Z; fk : Z }.
Definition SOCK_FILTER_SIZE := 8.

(** The instruction at index [i] of the program at address [base]. *)
Definition insn_at (m : mem) (base i : Z) : sock_filter :=
  let a := base + i * SOCK_FILTER_SIZE in
  SockFilter (ld16 m a) (m (a + 2)) (m (a + 3)) (ld32 m (a + 4)).

(** [struct seccomp_data] as the 64 bytes it occupies. *)
Definition le_bytes (n : nat) (v : Z) : list Z := map (fun i => Z.shiftr v (8 * Z.of_nat i) mod 256) (seq 0 n).
Definition seccomp_data (nr : Z) (args : list Z) : list Z :=
  le_bytes 4 nr ++ le_bytes 4 AUDIT_ARCH_X86_64 ++ concat (map (le_bytes 8) args).
Definition SD_SIZE := 64.

Record bpf := Bpf { rA : Z; rX : Z; rM : list Z; ip : Z }.
Inductive bpf_res := Ret (v : Z) | Oob (k : Z).

Definition load_sd (sd : list Z) (k : Z) : Z := ld32 (aget 0 sd) k.

Definition jump (st : bpf) (i : sock_filter) (c : bool) : bpf :=
  Bpf (rA st) (rX st) (rM st) (ip st + 1 + (if c then jt i else jf i)).
Definition go (st : bpf) (a x : Z) (mm : list Z) : bpf := Bpf a x mm (ip st + 1).

(** One instruction: the next state, or a result. *)
Definition bpf_step (sd : list Z) (i : sock_filter) (st : bpf) : bpf + bpf_res :=
  let A := rA st in let X := rX st in let M := rM st in let k := fk i in
  match code i with
  | 0x20 => (* LD|W|ABS *)
      if SD_SIZE <? u32 (k + 4) then inr (Ret SECCOMP_RET_KILL_PROCESS)
      else if k + 4 <=? SD_SIZE then inl (go st (load_sd sd k) X M) else inr (Oob k)
  | 0x54 => inl (go st (Z.land A k) X M) (* ALU|AND|K *)
  | 0x15 => inl (jump st i (A =? k)) (* JMP|JEQ|K *)
  | 0x35 => inl (jump st i (k <=? A)) (* JMP|JGE|K *)
  | 0x25 => inl (jump st i (k <? A)) (* JMP|JGT|K *)
  | 0x45 => inl (jump st i (negb (Z.land A k =? 0))) (* JMP|JSET|K *)
  | 0x1D => inl (jump st i (A =? X)) (* JMP|JEQ|X *)
  | 0x3D => inl (jump st i (X <=? A)) (* JMP|JGE|X *)
  | 0x2D => inl (jump st i (X <? A)) (* JMP|JGT|X *)
  | 0x4D => inl (jump st i (negb (Z.land A X =? 0))) (* JMP|JSET|X *)
  | 0x07 => inl (go st A A M) (* MISC|TAX *)
  | 0x02 => inl (go st A X (if k <? 16 then aset M k A else M)) (* ST *)
  | 0x03 => inl (go st A X (if k <? 16 then aset M k X else M)) (* STX *)
  | 0x60 => inl (go st (if k <? 16 then aget 0 M k else 0) X M) (* LD|W|MEM *)
  | 0x06 => inr (Ret k) (* RET|K *)
  | 0x16 => inr (Ret A) (* RET|A *)
  | _ => inr (Ret SECCOMP_RET_KILL_PROCESS)
  end.

(** The loop; [ticks] is the code's own budget. *)
Fixpoint bpf_loop (ticks : nat) (prog : Z -> sock_filter) (len : Z) (sd : list Z) (st : bpf) : bpf_res :=
  match ticks with
  | O => Ret SECCOMP_RET_KILL_PROCESS
  | S t =>
      if ip st <? len then
        match bpf_step sd (prog (ip st)) st with
        | inl st' => bpf_loop t prog len sd st'
        | inr r => r
        end
      else Ret SECCOMP_RET_KILL_PROCESS
  end.

Definition bpf_run (prog : Z -> sock_filter) (len : Z) (sd : list Z) : bpf_res :=
  bpf_loop (Z.to_nat (u32 (len * 4 + 64))) prog len sd (Bpf 0 0 (replicate 16 0) 0).

(** ** Processes *)

Record sproc := SProc {
  in_use : bool; (* state != PROC_UNUSED *)
  tgid : Z;
  secc_mode : Z;
  seccomp_filter : Z;
  seccomp_len : Z;
  no_new_privs : bool
}.

(** What the check asks of the syscall path: return a value, or additionally
    deliver SIGSYS. *)
Record verdict := Verdict { v_ret : Z; v_sigsys : bool }.

Definition strict_allowed : list Z := [0; 1; 8; 19; 20; 17; 18; 60; 61; 231; 15].

(** The verdict for the value a filter returned. *)
Definition apply_action (result : Z) : verdict :=
  let action := Z.land result SECCOMP_RET_ACTION_MASK in
  if action =? SECCOMP_RET_ALLOW then Verdict 0 false
  else if action =? SECCOMP_RET_LOG then Verdict 0 false
  else if action =? SECCOMP_RET_ERRNO then
    let e := Z.land result 65535 in
    let e := if e =? 0 then - E_INVAL else e in Verdict (- e) false
  else if (action =? SECCOMP_RET_KILL_PROCESS) || (action =? SECCOMP_RET_KILL_THREAD) then Verdict (- E_KILLED) false
  else if action =? SECCOMP_RET_TRAP then Verdict (- E_INVAL) true
  else if action =? SECCOMP_RET_TRACE then Verdict 0 false
  else Verdict (- E_INVAL) false.

(** [None] is the out-of-bounds load. *)
Definition seccomp_check (m : mem) (p : sproc) (nr : Z) (args : list Z) : option verdict :=
  if secc_mode p =? SECCOMP_MODE_DISABLED then Some (Verdict 0 false)
  else if secc_mode p =? SECCOMP_MODE_STRICT then
    Some (Verdict (if existsb (Z.eqb nr) strict_allowed then 0 else - E_INVAL) false)
  else if secc_mode p =? SECCOMP_MODE_FILTER then
    if (seccomp_filter p =? 0) || (seccomp_len p =? 0) then Some (Verdict 0 false)
    else
      match bpf_run (insn_at m (seccomp_filter p)) (seccomp_len p) (seccomp_data nr args) with
      | Ret result => Some (apply_action result)
      | Oob _ => None
      end
  else Some (Verdict 0 false).

Definition set_mode (v : Z) (p : sproc) : sproc :=
  SProc (in_use p) (tgid p) v (seccomp_filter p) (seccomp_len p) (no_new_privs p).
Definition set_nnp (p : sproc) : sproc :=
  SProc (in_use p) (tgid p) (secc_mode p) (seccomp_filter p) (seccomp_len p) true.
Definition set_filter (f len mode : Z) (p : sproc) : sproc :=
  SProc (in_use p) (tgid p) mode f len (no_new_privs p).

Definition seccomp_prctl (p : sproc) (option_ arg2 : Z) : sproc * Z :=
  if option_ =? PR_SET_NO_NEW_PRIVS then
    if negb (arg2 =? 1) then (p, - E_INVAL) else (set_nnp p, 0)
  else if option_ =? PR_GET_NO_NEW_PRIVS then (p, if no_new_privs p then 1 else 0)
  else if option_ =? PR_SET_SECCOMP then
    let mode := s32 arg2 in
    if secc_mode p =? SECCOMP_MODE_FILTER then (p, - E_INVAL)
    else if mode =? SECCOMP_MODE_STRICT then (set_mode SECCOMP_MODE_STRICT p, 0)
    else if (mode =? SECCOMP_MODE_FILTER) && negb (no_new_privs p) then (p, - E_INVAL)
    else if negb (mode =? SECCOMP_MODE_FILTER) && negb (mode =? SECCOMP_MODE_STRICT) then (p, - E_INVAL)
    else (p, 0)
  else if option_ =? PR_GET_SECCOMP then (p, secc_mode p)
  else (p, - E_INVAL).

(** ** seccomp(2) *)

Definition proc_cap := 64.

(** TSYNC for one other slot [q]: its own copy of the filter. *)
Definition tsync_one (hp : heap) (P : Z -> sproc) (me buf len : Z) (q : Z) : res (heap * (Z -> sproc)) :=
  let pq := P q in
  if (q =? me) || negb (in_use pq) || negb (tgid pq =? tgid (P me)) then Ok (hp, P)
  else if negb (secc_mode pq =? SECCOMP_MODE_FILTER) && no_new_privs pq then
    let sz := len * SOCK_FILTER_SIZE in
    do (hp1, b) <- kmalloc hp sz;
    if b =? 0 then
      Ok (hp1, fun i => if i =? q then set_filter 0 (seccomp_len pq) SECCOMP_MODE_DISABLED pq else P i)
    else
      Ok (with_mem hp1 (memcpy (hm hp1) b buf sz),
          fun i => if i =? q then set_filter b len SECCOMP_MODE_FILTER pq else P i)
  else Ok (hp, P).

Fixpoint tsync (hp : heap) (P : Z -> sproc) (me buf len : Z) (l : list Z) : res (heap * (Z -> sproc)) :=
  match l with
  | [] => Ok (hp, P)
  | q :: l' => do (hp1, P1) <- tsync_one hp P me buf len q; tsync hp1 P1 me buf len l'
  end.

Definition kfree_if (hp : heap) (f : Z) : res heap := if f =? 0 then Ok hp else kfree hp f.

Definition sys_seccomp (hp : heap) (P : Z -> sproc) (me op flags u_fprog : Z) : res (heap * (Z -> sproc) * Z) :=
  let p := P me in
  if op =? SECCOMP_SET_MODE_FILTER then
    if negb (no_new_privs p) then Ok (hp, P, - E_INVAL)
    else if secc_mode p =? SECCOMP_MODE_FILTER then Ok (hp, P, - E_INVAL)
    else if negb (user_ptr_ok u_fprog 16) then Ok (hp, P, - E_INVAL)
    else
      let len := ld16 (hm hp) u_fprog in
      let filter := ld64 (hm hp) (u_fprog + 8) in
      if (len =? 0) || (SECCOMP_BPF_MAXINSNS <? len) then Ok (hp, P, - E_INVAL)
      else if negb (user_ptr_ok filter (len * SOCK_FILTER_SIZE)) then Ok (hp, P, - E_INVAL)
      else
        let sz := len * SOCK_FILTER_SIZE in
        do (hp1, buf) <- kmalloc hp sz;
        if buf =? 0 then Ok (hp1, P, - E_NOMEM)
        else
          let hp2 := with_mem hp1 (memcpy (hm hp1) buf filter sz) in
          do hp3 <- kfree_if hp2 (seccomp_filter p);
          let P1 := fun i => if i =? me then set_filter buf len SECCOMP_MODE_FILTER p else P i in
          if negb (Z.land flags 1 =? 0) then
            do (hp4, P2) <- tsync hp3 P1 me buf len (seqZ 0 proc_cap); Ok (hp4, P2, 0)
          else Ok (hp3, P1, 0)
  else if op =? SECCOMP_GET_ACTION_AVAIL then
    let a := Z.land (u32 flags) SECCOMP_RET_ACTION_MASK in
    if existsb (Z.eqb a) [SECCOMP_RET_ALLOW; SECCOMP_RET_LOG; SECCOMP_RET_ERRNO; SECCOMP_RET_KILL_PROCESS;
                          SECCOMP_RET_TRAP; SECCOMP_RET_TRACE]
    then Ok (hp, P, 0) else Ok (hp, P, - E_NOSYS)
  else Ok (hp, P, - E_NOSYS).

Definition seccomp_free (hp : heap) (p : sproc) : res (heap * sproc) :=
  if seccomp_filter p =? 0 then Ok (hp, p)
  else do hp1 <- kfree hp (seccomp_filter p); Ok (hp1, set_filter 0 0 (secc_mode p) p).

(** ** Lemmas *)

Definition jumps_ok (prog : Z -> sock_filter) : Prop := forall i, 0 <= jt (prog i) /\ 0 <= jf (prog i).

(** Every instruction that does not return moves forward. *)
Lemma step_forward sd i st st' : 0 <= jt i -> 0 <= jf i -> bpf_step sd i st = inl st' -> ip st < ip st'.
Proof.
  intros H1 H2 H. unfold bpf_step in H.
  repeat case_match; try done; injection H as <-; unfold go, jump; simpl; try case_match; lia.
Qed.

Lemma loop_fuel prog len sd : jumps_ok prog ->
  forall t1 t2 st, len - ip st < Z.of_nat t1 -> len - ip st < Z.of_nat t2 ->
  bpf_loop t1 prog len sd st = bpf_loop t2 prog len sd st.
Proof.
  intros J. induction t1 as [|t1 IH]; intros t2 st H1 H2.
  - destruct t2; [done|]. simpl. destruct (Z.ltb_spec (ip st) len); [lia|done].
  - destruct t2 as [|t2]; simpl; (destruct (Z.ltb_spec (ip st) len) as [Hlt|]; [|done]); [lia|].
    destruct (bpf_step sd (prog (ip st)) st) as [st'|r] eqn:E; [|done].
    destruct (J (ip st)). apply step_forward in E; [|done|done]. apply IH; lia.
Qed.

Lemma step_no_oob sd i st k : 0 <= fk i < 2 ^ 32 - 4 -> bpf_step sd i st <> inr (Oob k).
Proof.
  intros H E. unfold bpf_step in E. rewrite u32_small in E by lia. repeat case_match; try done.
  bdestr; lia.
Qed.

(** Equal bytes are equal instructions. *)
Lemma insn_shift m m' a b n i :
  (forall x, 0 <= x < n * SOCK_FILTER_SIZE -> m' (b + x) = m (a + x)) -> 0 <= i < n ->
  insn_at m' b i = insn_at m a i.
Proof.
  unfold insn_at, SOCK_FILTER_SIZE. intros H Hi. f_equal.
  - apply ld16_shift. intros. rewrite <- !Z.add_assoc. apply H. lia.
  - rewrite <- !Z.add_assoc. apply H. lia.
  - rewrite <- !Z.add_assoc. apply H. lia.
  - apply ld32_shift. intros. rewrite <- !Z.add_assoc. apply H. lia.
Qed.

(** ** Properties *)

(** C36: Filters always terminate with an answer of their own.  Conditional
    jumps only go forward, so for every program of at most
    SECCOMP_BPF_MAXINSNS instructions the tick budget of [bpf_run] is never what
    ends the run: the result is that of the interpreter with any larger budget,
    and a run whose loads do not wrap always returns an action. *)
Theorem bpf_run_terminates (prog : Z -> sock_filter) (len : Z) (sd : list Z)
  (J : jumps_ok prog) (Hl : 0 <= len <= SECCOMP_BPF_MAXINSNS) :
  (forall t, len < Z.of_nat t -> bpf_run prog len sd = bpf_loop t prog len sd (Bpf 0 0 (replicate 16 0) 0)) /\
  ((forall i, 0 <= fk (prog i) < 2 ^ 32 - 4) -> exists v, bpf_run prog len sd = Ret v).
Proof.
  unfold SECCOMP_BPF_MAXINSNS in Hl. split.
  - intros t Ht. unfold bpf_run. rewrite u32_small by lia. apply loop_fuel; simpl; [done| |]; lia.
  - intros Hk. unfold bpf_run. generalize (Bpf 0 0 (replicate 16 0) 0) as st. generalize (Z.to_nat (u32 (len * 4 + 64))) as t.
    induction t as [|t IH]; intros st; simpl; [eauto|]. destruct (ip st <? len); [|eauto].
    destruct (bpf_step sd (prog (ip st)) st) as [st'|[v|k]] eqn:E; [apply IH|eauto|].
    by apply step_no_oob in E.
Qed.

(** C38: The bounds check on a load wraps.  [k + 4] is computed in 32 bits, so
    the four largest offsets pass the check against the 64-byte snapshot and the
    kernel reads about 4 GiB past it; every other offset beyond the snapshot is
    refused with KILL_PROCESS. *)
Theorem bpf_load_offset_wraps (sd : list Z) (st : bpf) (k : Z) (Hk : 0 <= k < 2 ^ 32) :
  (2 ^ 32 - 4 <= k -> bpf_step sd (SockFilter 0x20 0 0 k) st = inr (Oob k)) /\
  (60 < k < 2 ^ 32 - 4 -> bpf_step sd (SockFilter 0x20 0 0 k) st = inr (Ret SECCOMP_RET_KILL_PROCESS)) /\
  (k <= 60 -> bpf_step sd (SockFilter 0x20 0 0 k) st = inl (go st (load_sd sd k) (rX st) (rM st))).
Proof.
  unfold bpf_step, SD_SIZE. simpl code. simpl fk. split; [|split]; intros H.
  - replace (u32 (k + 4)) with (k + 4 - 2 ^ 32) by (unfold u32; apply Z.mod_unique with 1; lia).
    destruct (Z.ltb_spec 64 (k + 4 - 2 ^ 32)); [lia|]. destruct (Z.leb_spec (k + 4) 64); [lia|done].
  - rewrite u32_small by lia. destruct (Z.ltb_spec 64 (k + 4)); [done|lia].
  - rewrite u32_small by lia. destruct (Z.ltb_spec 64 (k + 4)); [lia|]. destruct (Z.leb_spec (k + 4) 64); [done|lia].
Qed.

(** The mode is sticky.  No prctl ever lowers a process's mode or replaces
    its filter, and no_new_privs is never cleared; in strict mode exactly the
    listed system calls pass. *)
Theorem seccomp_prctl_sticky (m : mem) (p p' : sproc) (option_ arg2 r nr : Z) (args : list Z)
  (H : seccomp_prctl p option_ arg2 = (p', r)) (Hm : 0 <= secc_mode p <= 2) :
  secc_mode p <= secc_mode p' <= 2 /\ seccomp_filter p' = seccomp_filter p /\ seccomp_len p' = seccomp_len p /\
  (no_new_privs p = true -> no_new_privs p' = true) /\
  (secc_mode p' = SECCOMP_MODE_STRICT ->
     seccomp_check m p' nr args = Some (Verdict 0 false) <-> nr ∈ strict_allowed).
Proof.
  assert (K : secc_mode p' = SECCOMP_MODE_STRICT ->
     seccomp_check m p' nr args = Some (Verdict 0 false) <-> nr ∈ strict_allowed).
  { intros E. unfold seccomp_check. rewrite E. simpl Z.eqb. cbv iota.
    destruct (existsb (Z.eqb nr) strict_allowed) eqn:X.
    - split; [intros _|done]. apply existsb_exists in X as (y & Hy & ->%Z.eqb_eq). by apply list_elem_of_In.
    - split; [intros [=]; done|]. intros Hin. exfalso. assert (existsb (Z.eqb nr) strict_allowed = true); [|congruence].
      apply existsb_exists. exists nr. split; [by apply list_elem_of_In|apply Z.eqb_refl]. }
  assert (G : secc_mode p <= secc_mode p' <= 2 /\ seccomp_filter p' = seccomp_filter p /\
    seccomp_len p' = seccomp_len p /\ (no_new_privs p = true -> no_new_privs p' = true)); [|tauto].
  clear K. unfold seccomp_prctl, SECCOMP_MODE_FILTER, SECCOMP_MODE_STRICT in H.
  repeat (case_match; simplify_eq/=; try (repeat split; auto; lia)).
Qed.

(** Installing a filter.  On a well-formed heap, seccomp(2) with a valid
    program in user memory (below the heap) either reports ENOMEM and changes
    nothing, or puts the caller in filter mode with a private kernel copy that
    is, instruction by instruction, the program the user supplied; no other
    process changes and no live heap block is disturbed. *)
Theorem sys_seccomp_installs (hp : heap) (bs : list blk) (fl : list Z) (P : Z -> sproc) (me flags u len prog : Z)
  (I : heap_inv hp bs fl) (Hn : no_new_privs (P me) = true) (Hm : secc_mode (P me) <> SECCOMP_MODE_FILTER)
  (Hf : seccomp_filter (P me) = 0) (Hfl : Z.land flags 1 = 0) (Hu : user_ptr_ok u 16 = true)
  (El : ld16 (hm hp) u = len) (Ep : ld64 (hm hp) (u + 8) = prog) (Hlen : 0 < len <= SECCOMP_BPF_MAXINSNS)
  (Hprog : user_ptr_ok prog (len * SOCK_FILTER_SIZE) = true) (Hlow : prog + len * SOCK_FILTER_SIZE <= g_base hp) :
  sys_seccomp hp P me SECCOMP_SET_MODE_FILTER flags u = Ok (hp, P, - E_NOMEM) \/
  exists hp' P' buf, sys_seccomp hp P me SECCOMP_SET_MODE_FILTER flags u = Ok (hp', P', 0) /\
    P' me = set_filter buf len SECCOMP_MODE_FILTER (P me) /\ (forall q, q <> me -> P' q = P q) /\
    (forall i, 0 <= i < len -> insn_at (hm hp') buf i = insn_at (hm hp) prog i) /\
    (exists bs' fl', heap_inv hp' bs' fl') /\
    (forall c x, used bs c -> payload c x -> hm hp' x = hm hp x).
Proof.
  unfold sys_seccomp. simpl Z.eqb. cbv iota. rewrite Hn, Hu, El, Ep, Hf. simpl negb. cbv iota.
  destruct (Z.eqb_spec (secc_mode (P me)) SECCOMP_MODE_FILTER); [done|].
  destruct (Z.eqb_spec len 0); [lia|]. destruct (Z.ltb_spec SECCOMP_BPF_MAXINSNS len); [lia|]. simpl orb. cbv iota.
  rewrite Hprog. simpl negb. cbv iota. set (sz := len * SOCK_FILTER_SIZE) in *.
  assert (Hsz : 0 <= sz <= 2 ^ 64 - 64) by (unfold sz, SOCK_FILTER_SIZE, SECCOMP_BPF_MAXINSNS in *; lia).
  destruct (kmalloc_fresh hp bs fl sz I Hsz) as [->|(hp1 & bs1 & fl1 & nb & E & I1 & Unb & Hroom & Hall & Hne & F)];
    [left; done|right].
  rewrite E. simpl rbind. set (buf := b_addr nb + HDR_SIZE).
  pose proof (used_range _ _ _ _ I1 Unb) as (R1 & R2 & R3 & _).
  destruct (Z.eqb_spec buf 0); [unfold buf in *; hlia|]. rewrite Hfl. simpl.
  set (m' := memcpy (hm hp1) buf prog sz).
  pose proof (tiles_bounds _ _ _ _ (hr_tiles _ _ _ _ (hi_mem _ _ _ I1)) (proj1 Unb)) as Hb.
  assert (Hg : g_base hp1 = g_base hp) by (eapply kmalloc_region; exact E).
  assert (Hm' : forall x, m' x = if (buf <=? x) && (x <? buf + sz) then hm hp1 (x - buf + prog) else hm hp1 x)
    by (intros; apply memcpy_spec; unfold buf; hlia).
  eexists _, _, buf. split; [reflexivity|]. simpl. rewrite Z.eqb_refl. split; [done|].
  split; [intros q Hq; destruct (Z.eqb_spec q me); done|]. split; [|split].
  - intros i Hi. apply (insn_shift _ _ _ _ len); [|done]. intros x Hx. fold sz in Hx. rewrite Hm'. bdestr; simpl; try lia.
    replace (buf + x - buf + prog) with (prog + x) by lia. apply (kmalloc_outside _ _ _ _ _ _ _ I E). lia.
  - exists bs1, fl1. apply (payload_write _ _ _ nb); [done|apply Unb..|]. intros x Hx. rewrite Hm'.
    unfold payload in Hx. bdestr; simpl; try done. unfold buf in *. hlia.
  - intros c x Hc Hx. rewrite Hm'. assert (Hc1 : used bs1 c) by (apply Hall; by left).
    pose proof (used_apart _ _ _ _ _ I1 Hc1 Unb (Hne c Hc)). unfold payload in Hx.
    bdestr; simpl; try (by apply (F c)). unfold buf in *. hlia.
Qed.

(** Verdicts.  A filter result lets the call through exactly when its
    action is ALLOW, LOG or TRACE; KILL asks for termination, TRAP for SIGSYS,
    ERRNO with a non-zero code for that error, everything else for EINVAL; but
    ERRNO with code 0 yields the positive value 22, which is not an error. *)
Theorem apply_action_spec (result : Z) (Hr : 0 <= result < 2 ^ 32) :
  let v := apply_action result in
  let action := Z.land result SECCOMP_RET_ACTION_MASK in
  (v_ret v = 0 <-> action = SECCOMP_RET_ALLOW \/ action = SECCOMP_RET_LOG \/ action = SECCOMP_RET_TRACE) /\
  (v_sigsys v = true <-> action = SECCOMP_RET_TRAP) /\
  (v_ret v > 0 <-> action = SECCOMP_RET_ERRNO /\ Z.land result 65535 = 0) /\
  (v_ret v > 0 -> v_ret v = E_INVAL) /\
  (action = SECCOMP_RET_ERRNO -> Z.land result 65535 <> 0 -> v_ret v = - Z.land result 65535).
Proof.
  assert (Hd : 0 <= Z.land result 65535) by (apply Z.land_nonneg; lia).
  unfold apply_action. generalize dependent (Z.land result 65535). intros e He.
  generalize (Z.land result SECCOMP_RET_ACTION_MASK) as a. intros a.
  unfold SECCOMP_RET_ALLOW, SECCOMP_RET_LOG, SECCOMP_RET_TRACE, SECCOMP_RET_ERRNO, SECCOMP_RET_TRAP,
    SECCOMP_RET_KILL_PROCESS, SECCOMP_RET_KILL_THREAD, E_INVAL, E_KILLED.
  destruct (Z.eqb_spec a 2147418112); [simpl; repeat split; intros; try lia; auto|].
  destruct (Z.eqb_spec a 2147221504); [simpl; repeat split; intros; try lia; auto|].
  destruct (Z.eqb_spec a 327680); [destruct (Z.eqb_spec e 0); simpl; repeat split; intros; lia|].
  destruct (Z.eqb_spec a 0); [simpl; repeat split; intros; lia|].
  destruct (Z.eqb_spec a 65536); [simpl; repeat split; intros; lia|]. simpl.
  destruct (Z.eqb_spec a 131072); [simpl; repeat split; intros; lia|].
  destruct (Z.eqb_spec a 2146435072); simpl; repeat split; intros; lia.
Qed.

(** A failed TSYNC lowers a thread's protection.  When the copy of the
    filter for a sibling thread cannot be allocated, that thread is set to
    DISABLED whatever its mode was, so a thread in strict mode ends up with no
    restriction at all, although modes may only become stricter. *)
Theorem tsync_failure_disables (hp hp1 : heap) (P : Z -> sproc) (me buf len q : Z)
  (Hq : q <> me) (Hu : in_use (P q) = true) (Ht : tgid (P q) = tgid (P me)) (Hn : no_new_privs (P q) = true)
  (Hm : secc_mode (P q) = SECCOMP_MODE_STRICT) (E : kmalloc hp (len * SOCK_FILTER_SIZE) = Ok (hp1, 0)) :
  exists P', tsync_one hp P me buf len q = Ok (hp1, P') /\ secc_mode (P' q) = SECCOMP_MODE_DISABLED /\
    forall m nr args, seccomp_check m (P' q) nr args = Some (Verdict 0 false).
Proof.
  unfold tsync_one. rewrite Hu, Ht, Z.eqb_refl, Hn, Hm, E. destruct (Z.eqb_spec q me); [done|]. simpl.
  eexists. split; [reflexivity|]. cbv beta. rewrite Z.eqb_refl. done.
Qed.

(** ** Witnesses *)

(** Kill on system call 57, allow the rest. *)
Definition demo_filter (i : Z) : sock_filter :=
  if i =? 0 then SockFilter 0x20 0 0 0
  else if i =? 1 then SockFilter 0x15 0 1 57
  else if i =? 2 then SockFilter 0x06 0 0 SECCOMP_RET_KILL_PROCESS
  else SockFilter 0x06 0 0 SECCOMP_RET_ALLOW.

Lemma bpf_run_terminates_witness :
  bpf_run demo_filter 4 (seccomp_data 57 (repeat 0 6)) = Ret SECCOMP_RET_KILL_PROCESS /\
  exists v, bpf_run demo_filter 4 (seccomp_data 1 (repeat 0 6)) = Ret v.
Proof.
  split; [vm_compute; reflexivity|].
  apply (bpf_run_terminates demo_filter 4 (seccomp_data 1 (repeat 0 6))).
  - intros i. unfold demo_filter. repeat case_match; simpl; lia.
  - unfold SECCOMP_BPF_MAXINSNS. lia.
  - intros i. unfold demo_filter. repeat case_match; simpl;
      unfold SECCOMP_RET_KILL_PROCESS, SECCOMP_RET_ALLOW; lia.
Defined.

Lemma bpf_load_offset_wraps_witness :
  bpf_step (seccomp_data 0 (repeat 0 6)) (SockFilter 0x20 0 0 (2 ^ 32 - 4)) (Bpf 0 0 [] 0) = inr (Oob (2 ^ 32 - 4)).
Proof. apply (bpf_load_offset_wraps (seccomp_data 0 (repeat 0 6)) (Bpf 0 0 [] 0) (2 ^ 32 - 4)); lia. Defined.

Definition demo_sproc (mode : Z) : sproc := SProc true 7 mode 0 0 true.

Lemma seccomp_prctl_sticky_witness :
  seccomp_check (fun _ => 0) (fst (seccomp_prctl (demo_sproc 0) PR_SET_SECCOMP 1)) 231 [] = Some (Verdict 0 false).
Proof.
  apply (seccomp_prctl_sticky (fun _ => 0) (demo_sproc 0) _ PR_SET_SECCOMP 1 0 231 []); try reflexivity.
  - simpl. lia.
  - repeat (first [left | right]).
Defined.

Lemma apply_action_spec_witness : v_ret (apply_action 327680) > 0.
Proof. apply (apply_action_spec 327680); [lia|]. split; reflexivity. Defined.

(** A heap of one block with 3000 bytes taken: no room for 256 instructions. *)
Definition demo_full : heap := match kmalloc demo_heap 3000 with Ok (hp, _) => hp | Panic => demo_heap end.

Lemma tsync_failure_disables_witness : exists hp1 P',
  tsync_one demo_full (fun i => demo_sproc (if i =? 1 then 1 else 2)) 0 4096 256 1 = Ok (hp1, P') /\
  secc_mode (P' 1) = SECCOMP_MODE_DISABLED.
Proof.
  assert (E0 : match kmalloc demo_full (256 * SOCK_FILTER_SIZE) with Ok (_, p) => p | Panic => 1 end = 0)
    by (vm_compute; reflexivity).
  destruct (kmalloc demo_full (256 * SOCK_FILTER_SIZE)) as [[hp1 p]|] eqn:E; [subst p|discriminate]. exists hp1.
  destruct (tsync_failure_disables demo_full hp1 (fun i => demo_sproc (if i =? 1 then 1 else 2)) 0 4096 256 1)
    as (P' & H1 & H2 & _); try reflexivity; [lia|exact E|]. exists P'. split; [exact H1|exact H2].
Defined.

(** A one-instruction program at 8192, described by a [sock_fprog] at 4096. *)
Definition demo_user : mem := fun a =>
  if a =? 4096 then 1 else if a =? 4105 then 32 else if a =? 8192 then 6 else if a =? 8198 then 255
  else if a =? 8199 then 127 else 0.
Definition demo_user_heap : heap := kheap_format demo_user 1048576 4096.

Lemma demo_user_heap_inv : heap_inv demo_user_heap [Blk 1048576 4048 true] [1048576].
Proof. apply (format_inv demo_user 1048576 4096); done || lia. Qed.

Lemma sys_seccomp_installs_witness :
  sys_seccomp demo_user_heap (fun _ => demo_sproc 0) 0 SECCOMP_SET_MODE_FILTER 0 4096
    = Ok (demo_user_heap, fun _ => demo_sproc 0, - E_NOMEM) \/
  exists hp' P' buf, sys_seccomp demo_user_heap (fun _ => demo_sproc 0) 0 SECCOMP_SET_MODE_FILTER 0 4096 = Ok (hp', P', 0) /\
    P' 0 = set_filter buf 1 SECCOMP_MODE_FILTER (demo_sproc 0) /\ (forall q, q <> 0 -> P' q = demo_sproc 0) /\
    (forall i, 0 <= i < 1 -> insn_at (hm hp') buf i = insn_at (hm demo_user_heap) 8192 i) /\
    (exists bs' fl', heap_inv hp' bs' fl') /\
    (forall c x, used [Blk 1048576 4048 true] c -> payload c x -> hm hp' x = hm demo_user_heap x).
Proof.
  apply (sys_seccomp_installs demo_user_heap [Blk 1048576 4048 true] [1048576] (fun _ => demo_sproc 0) 0 0 4096 1 8192
    demo_user_heap_inv); try (vm_compute; reflexivity); try (vm_compute; congruence).
  unfold SECCOMP_BPF_MAXINSNS. lia.
Defined.
