(* ===== verification/Signal.v ===== *)
(** * kernel/signal.c: signal frames

    Delivery of a signal to a user handler and the return from it.  The
    rt_sigframe is written to user memory field by field at the offsets of the
    C structures; fxsave and fxrstor copy a 512-byte state.  [buf_ok] stands for
    [user_buf_ok], the page-table check mm/vmm.c makes for the alternate stack. *)
From S2P Require Import Prelude Mem Kstring.
#[local] Open Scope Z_scope.

Definition USER_STACK_TOP := 123145302310912. (* 0x700000000000 *)
Definition USER_STACK_SIZE := 64 * 4096.
Definition SEL_UDATA := 27.
Definition SEL_UCODE := 35.
Definition SYSCALL_VECTOR := 128.
Definition SIGSEGV := 11.
Definition SIG_KILL := 9.
Definition SIG_STOP := 19.
Definition SA_ONSTACK := 0x08000000.
Definition SA_RESTART := 0x10000000.
Definition SA_NODEFER := 0x40000000.
Definition SA_RESETHAND := 0x80000000.
Definition SS_DISABLE := 2.
Definition FPSTATE_SIZE := 512.
Definition MXCSR_OFFSET := 24.
Definition MXCSR_VALID := 0x0000FFBF.
Definition RFLAGS_USER := 0x00240CD5.
Definition RFLAGS_FIXED := 0x202.
Definition FRAME_SIZE := 440. (* sizeof(rt_sigframe_t) *)

(** Bit (n - 1) of a sigset. *)
Definition SIGBIT (n : Z) : Z := Z.shiftl 1 (n - 1).
Definition UNBLOCKABLE : Z := Z.lor (SIGBIT SIG_KILL) (SIGBIT SIG_STOP).

Record regs := Regs {
  r15 : Z; r14 : Z; r13 : Z; r12 : Z; r11 : Z; r10 : Z; r9 : Z; r8 : Z;
  rbp : Z; rdi : Z; rsi : Z; rdx : Z; rcx : Z; rbx : Z; rax : Z;
  vector : Z; errcode : Z; rip : Z; cs : Z; rflags : Z; rsp : Z; ss : Z
}.

Record sigact := Sigact { sa_handler : Z; sa_flags : Z; sa_restorer : Z; sa_mask : Z }.

Record sigproc := SigProc {
  s_act : Z -> sigact;
  s_mask : Z;
  s_saved_mask : Z;
  s_restore_mask : bool;
  alt_ss_sp : Z;
  alt_ss_size : Z;
  alt_ss_flags : Z;
  syscall_nr : Z;
  term_sig : Z
}.

Definition has (flags bit : Z) : bool := negb (Z.land flags bit =? 0).

Definition on_user_stack (addr len : Z) : bool :=
  let lo := USER_STACK_TOP - USER_STACK_SIZE in
  if (addr <? lo) || (USER_STACK_TOP <=? addr) then false
  else u64 (addr + len) <=? USER_STACK_TOP.

Definition never_restarts (nr : Z) : bool := existsb (Z.eqb nr) [130; 7; 271; 23; 270].

Definition set_rip_rax (r : regs) (ip ax : Z) : regs :=
  Regs (r15 r) (r14 r) (r13 r) (r12 r) (r11 r) (r10 r) (r9 r) (r8 r) (rbp r) (rdi r) (rsi r) (rdx r) (rcx r)
    (rbx r) ax (vector r) (errcode r) ip (cs r) (rflags r) (rsp r) (ss r).

Definition maybe_restart_syscall (p : sigproc) (r : regs) (sig : Z) : regs :=
  if negb (vector r =? SYSCALL_VECTOR) || (syscall_nr p <? 0) then r
  else if negb (s64 (rax r) =? - E_INTR) then r
  else if negb (has (sa_flags (s_act p sig)) SA_RESTART) then r
  else if never_restarts (syscall_nr p) then r
  else set_rip_rax r (u64 (rip r - 2)) (u64 (syscall_nr p)).

(** ** The frame *)

(** Where the frame and the FPU area go for a stack pointer: (base, fp). *)
Definition carve (sp : Z) : Z * Z :=
  let fp := Z.land (u64 (u64 (sp - 128) - FPSTATE_SIZE)) (not64 63) in
  let base := u64 (Z.land (u64 (fp - FRAME_SIZE)) (not64 15) - 8) in
  (base, fp).

(** A field: its offset in the frame, its size in bytes, its value. *)
Definition field := (Z * nat * Z)%type.
Definition store (m : mem) (base : Z) (l : list field) : mem :=
  fold_left (fun m '(o, n, v) => st n m (base + o) v) l m.

(** The stores of [signal_deliver], in order. *)
Definition frame_fields (p : sigproc) (r : regs) (sig fp retmask : Z) (on_alt : bool) : list field :=
  [ (48, 8%nat, r8 r); (56, 8%nat, r9 r); (64, 8%nat, r10 r); (72, 8%nat, r11 r); (80, 8%nat, r12 r);
    (88, 8%nat, r13 r); (96, 8%nat, r14 r); (104, 8%nat, r15 r); (112, 8%nat, rdi r); (120, 8%nat, rsi r);
    (128, 8%nat, rbp r); (136, 8%nat, rbx r); (144, 8%nat, rdx r); (152, 8%nat, rax r); (160, 8%nat, rcx r);
    (168, 8%nat, rsp r); (176, 8%nat, rip r); (184, 8%nat, rflags r); (192, 2%nat, u16 (cs r)); (198, 2%nat, u16 (ss r));
    (200, 8%nat, errcode r); (208, 8%nat, vector r); (216, 8%nat, retmask); (232, 8%nat, fp);
    (24, 8%nat, if on_alt then alt_ss_sp p else 0); (40, 8%nat, if on_alt then alt_ss_size p else 0);
    (32, 4%nat, if on_alt then 0 else SS_DISABLE); (304, 8%nat, retmask);
    (312, 4%nat, sig); (320, 4%nat, 0); (0, 8%nat, sa_restorer (s_act p sig)) ].

(** fxsave: the FPU state is written at [fp]. *)
Definition fxsave (m : mem) (fp : Z) (fpu : Z -> Z) : mem :=
  fun x => if (fp <=? x) && (x <? fp + FPSTATE_SIZE) then fpu (x - fp) else m x.

Section deliver.
Context (buf_ok : Z -> Z -> bool).

(** The alternate stack, when it is asked for, registered and mapped. *)
Definition choose_stack (p : sigproc) (act : sigact) (r : regs) : Z * Z * bool :=
  let '(base, fp) := carve (rsp r) in
  if has (sa_flags act) SA_ONSTACK && negb (alt_ss_sp p =? 0) && negb (alt_ss_size p =? 0)
     && negb (has (alt_ss_flags p) SS_DISABLE) then
    let '(abase, afp) := carve (u64 (alt_ss_sp p + alt_ss_size p)) in
    if buf_ok abase FRAME_SIZE && buf_ok afp FPSTATE_SIZE then (abase, afp, true) else (base, fp, false)
  else (base, fp, false).

(** The handler's mask: never SIGKILL or SIGSTOP. *)
Definition handler_mask (p : sigproc) (act : sigact) (sig : Z) : Z :=
  let m1 := Z.lor (s_mask p) (sa_mask act) in
  let m2 := if has (sa_flags act) SA_NODEFER then m1 else Z.lor m1 (SIGBIT sig) in
  Z.land m2 (not64 UNBLOCKABLE).

(** [None] is the -1 of a frame that does not fit. *)
Definition signal_deliver (p : sigproc) (sig : Z) (r0 : regs) (m : mem) (fpu : Z -> Z) : option (sigproc * regs * mem) :=
  let act := s_act p sig in
  let r := maybe_restart_syscall p r0 sig in
  let '(base, fp, on_alt) := choose_stack p act r in
  if negb on_alt && (negb (on_user_stack base FRAME_SIZE) || negb (on_user_stack fp FPSTATE_SIZE)) then None
  else
    let m1 := fxsave (memset m base 0 FRAME_SIZE) fp fpu in
    let retmask := if s_restore_mask p then s_saved_mask p else s_mask p in
    let m2 := store m1 base (frame_fields p r sig fp retmask on_alt) in
    let acts := if has (sa_flags act) SA_RESETHAND
                then (fun i => if i =? sig then Sigact 0 0 0 0 else s_act p i) else s_act p in
    let p' := SigProc acts (handler_mask p act sig) (s_saved_mask p) false (alt_ss_sp p) (alt_ss_size p)
                (alt_ss_flags p) (syscall_nr p) (term_sig p) in
    let r' := Regs (r15 r) (r14 r) (r13 r) (r12 r) (r11 r) (r10 r) (r9 r) (r8 r) (rbp r)
                (u64 sig) (base + 312) (base + 8) (rcx r) (rbx r) 0 (vector r) (errcode r)
                (sa_handler act) (cs r) (Z.land (rflags r) (not64 (Z.lor 0x400 0x100))) base (ss r) in
    Some (p', r', m2).
End deliver.

(** ** Return *)

Inductive sigret :=
| Killed (* term_sig := SIGSEGV and proc_exit *)
| Resumed (p : sigproc) (r : regs) (m : mem) (fpu : Z -> Z).

(** The FPU area with the reserved MXCSR bits cleared, loaded if it is usable. *)
Definition restore_fpu (m : mem) (fp : Z) (fpu : Z -> Z) : mem * (Z -> Z) :=
  if negb (fp =? 0) && (Z.land fp 15 =? 0) && on_user_stack fp FPSTATE_SIZE then
    let mx := Z.land (ld 4 m (fp + MXCSR_OFFSET)) MXCSR_VALID in
    let m' := st 4 m (fp + MXCSR_OFFSET) mx in
    (m', fun i => m' (fp + i))
  else (m, fpu).

Definition signal_return (p : sigproc) (r : regs) (m : mem) (fpu : Z -> Z) : sigret :=
  let base := u64 (rsp r - 8) in
  if negb (on_user_stack base FRAME_SIZE) then Killed
  else
    let g o := ld 8 m (base + o) in
    let r' := Regs (g 104) (g 96) (g 88) (g 80) (g 72) (g 64) (g 56) (g 48) (g 128) (g 112) (g 120) (g 144) (g 160)
                (g 136) (g 152) (vector r) (errcode r) (g 176) SEL_UCODE
                (Z.lor (Z.land (g 184) RFLAGS_USER) RFLAGS_FIXED) (g 168) SEL_UDATA in
    if (USER_LIMIT <=? rip r') || (USER_LIMIT <=? rsp r') then Killed
    else
      let mask := Z.land (g 304) (not64 UNBLOCKABLE) in
      let '(m', fpu') := restore_fpu m (g 232) fpu in
      Resumed (SigProc (s_act p) mask (s_saved_mask p) (s_restore_mask p) (alt_ss_sp p) (alt_ss_size p)
                 (alt_ss_flags p) (-1) (term_sig p)) r' m' fpu'.

(** ** Reading the frame back *)

#[local] Arguments ld : simpl never.
#[local] Arguments st : simpl never.

(** The fields do not overlap. *)
Fixpoint apart_fields (l : list field) : bool :=
  match l with
  | [] => true
  | (o, n, _) :: l' =>
      forallb (fun '(o', n', _) => (o + Z.of_nat n <=? o') || (o' + Z.of_nat n' <=? o)) l' && apart_fields l'
  end.

Lemma store_apart base o n l : forall m,
  forallb (fun '(o', n', _) => (o + Z.of_nat n <=? o') || (o' + Z.of_nat n' <=? o)) l = true ->
  ld n (store m base l) (base + o) = ld n m (base + o).
Proof.
  induction l as [|[[o' n'] v'] l IH]; intros m H; simpl; [done|]. simpl in H. apply andb_true_iff in H as [H1 H2].
  unfold store in *. simpl. rewrite IH by done. apply ld_st_apart. unfold apart. apply orb_true_iff in H1. bdestr; lia.
Qed.

Lemma store_get base l : forall m o n v,
  apart_fields l = true -> (o, n, v) ∈ l -> 0 <= v < 256 ^ Z.of_nat n -> ld n (store m base l) (base + o) = v.
Proof.
  induction l as [|[[o' n'] v'] l IH]; intros m o n v Ha Hin Hv; [by apply not_elem_of_nil in Hin|].
  simpl in Ha. apply andb_true_iff in Ha as [H1 H2]. unfold store. simpl.
  apply elem_of_cons in Hin as [[= -> -> ->]|Hin].
  - fold (store (st n' m (base + o') v') base l). rewrite store_apart by done. by apply ld_st_same.
  - by apply IH.
Qed.

Lemma store_outside base l : forall m x,
  Forall (fun '(o, n, _) => x < base + o \/ base + o + Z.of_nat n <= x) l -> store m base l x = m x.
Proof.
  induction l as [|[[o n] v] l IH]; intros m x H; [done|]. inv H. unfold store. simpl.
  fold (store (st n m (base + o) v) base l). rewrite IH by done. apply st_outside. done.
Qed.

(** Every store of the frame is inside it. *)
Lemma frame_outside p r sig fp rm alt m base x :
  x < base \/ base + FRAME_SIZE <= x -> store m base (frame_fields p r sig fp rm alt) x = m x.
Proof.
  intros H. apply store_outside. unfold frame_fields, FRAME_SIZE in *.
  repeat (apply Forall_cons; split; [simpl Z.of_nat; lia|]). apply Forall_nil. done.
Qed.

Definition regs_ok (r : regs) : Prop :=
  Forall (fun v => 0 <= v < 2 ^ 64)
    [r15 r; r14 r; r13 r; r12 r; r11 r; r10 r; r9 r; r8 r; rbp r; rdi r; rsi r; rdx r; rcx r; rbx r; rax r;
     vector r; errcode r; rip r; cs r; rflags r; rsp r; ss r].

Lemma restart_ok p r sig : regs_ok r -> regs_ok (maybe_restart_syscall p r sig).
Proof.
  intros H. unfold maybe_restart_syscall. repeat (case_match; [done|]). unfold regs_ok in *. simpl.
  rewrite !Forall_cons in *. pose proof (u64_range (syscall_nr p)). pose proof (u64_range (rip r - 2)). tauto.
Qed.

Lemma on_user_stack_spec a n : 0 <= a -> 0 <= n < 2 ^ 48 ->
  on_user_stack a n = true <-> USER_STACK_TOP - USER_STACK_SIZE <= a /\ a < USER_STACK_TOP /\ a + n <= USER_STACK_TOP.
Proof.
  intros Ha Hn. unfold on_user_stack, USER_STACK_TOP, USER_STACK_SIZE.
  destruct (Z.ltb_spec a (123145302310912 - 64 * 4096)); [split; [done|lia]|].
  destruct (Z.leb_spec 123145302310912 a); [split; [done|lia]|]. simpl.
  rewrite u64_small by lia. rewrite Z.leb_le. lia.
Qed.

(** Where a frame that fits ends up: below the red zone, the FPU area above it,
    both aligned. *)
Lemma carve_spec sp base fp :
  0 <= sp < 2 ^ 64 -> carve sp = (base, fp) -> on_user_stack base FRAME_SIZE = true -> on_user_stack fp FPSTATE_SIZE = true ->
  fp + 512 <= sp - 128 /\ base + 440 <= fp /\ fp mod 64 = 0 /\ base mod 16 = 8 /\
  USER_STACK_TOP - USER_STACK_SIZE <= base /\ sp - 128 - 512 - 63 - 440 - 15 - 8 <= base.
Proof.
  unfold carve, FRAME_SIZE, FPSTATE_SIZE. intros Hsp E H1 H2. injection E as Eb Ef.
  change (not64 63) with (not64 (2 ^ 6 - 1)) in Ef, Eb. change (not64 15) with (not64 (2 ^ 4 - 1)) in Eb.
  rewrite Ef in Eb. rewrite land_not_pow2 in Ef by (lia || apply u64_range).
  rewrite land_not_pow2 in Eb by (lia || apply u64_range).
  rewrite u64_sub_l in Ef. replace (sp - 128 - 512) with (sp - 640) in Ef by lia.
  pose proof (u64_range (sp - 640)) as R1. pose proof (Z.div_mod (u64 (sp - 640)) (2 ^ 6)) as D1.
  pose proof (Z.mod_pos_bound (u64 (sp - 640)) (2 ^ 6)) as D2.
  pose proof (u64_range (fp - 440)) as R2. pose proof (Z.div_mod (u64 (fp - 440)) (2 ^ 4)) as D3.
  pose proof (Z.mod_pos_bound (u64 (fp - 440)) (2 ^ 4)) as D4.
  assert (Hb : 0 <= base) by (rewrite <- Eb; apply u64_range).
  apply on_user_stack_spec in H1; [|lia|lia]. apply on_user_stack_spec in H2; [|lia|lia].
  unfold USER_STACK_TOP, USER_STACK_SIZE in *.
  assert (Hs : 640 <= sp).
  { destruct (Z.lt_ge_cases sp 640); [|done]. exfalso.
    rewrite (u64_wrap (sp - 640)) in * by lia. lia. }
  rewrite (u64_small (sp - 640)) in * by lia. rewrite (u64_small (fp - 440)) in * by lia.
  rewrite u64_small in Eb by lia. subst fp. repeat split; try lia.
  - apply Z.mod_mul. lia.
  - rewrite <- Eb. replace (_ / 2 ^ 4 * 2 ^ 4 - 8) with (8 + (((sp - 640) / 2 ^ 6 * 2 ^ 6 - 440) / 2 ^ 4 - 1) * 16) by lia.
    rewrite Z.mod_add by lia. done.
Qed.

(** A signal whose handler does not ask for the alternate stack goes on the
    main one. *)
Lemma main_stack buf_ok p act r :
  has (sa_flags act) SA_ONSTACK = false -> choose_stack buf_ok p act r = (fst (carve (rsp r)), snd (carve (rsp r)), false).
Proof. intros H. unfold choose_stack. rewrite H. by destruct (carve (rsp r)). Qed.

Lemma restart_rsp p r sig : rsp (maybe_restart_syscall p r sig) = rsp r.
Proof. unfold maybe_restart_syscall. repeat (case_match; [done|]). done. Qed.

Lemma restart_rflags p r sig : rflags (maybe_restart_syscall p r sig) = rflags r.
Proof. unfold maybe_restart_syscall. repeat (case_match; [done|]). done. Qed.

Lemma restart_rip p r sig :
  rip (maybe_restart_syscall p r sig) = rip r \/ rip (maybe_restart_syscall p r sig) = u64 (rip r - 2).
Proof. unfold maybe_restart_syscall. repeat (case_match; [by left|]). by right. Qed.

Lemma fields_apart p r sig fp rm alt : apart_fields (frame_fields p r sig fp rm alt) = true.
Proof. reflexivity. Qed.

(** What a main-stack delivery computes. *)
Lemma deliver_main buf_ok p sig r0 m fpu p' r' m' :
  signal_deliver buf_ok p sig r0 m fpu = Some (p', r', m') ->
  has (sa_flags (s_act p sig)) SA_ONSTACK = false -> regs_ok r0 ->
  let r := maybe_restart_syscall p r0 sig in
  exists base fp rm, carve (rsp r0) = (base, fp) /\ on_user_stack base FRAME_SIZE = true /\
    on_user_stack fp FPSTATE_SIZE = true /\ rsp r' = base /\ rip r' = sa_handler (s_act p sig) /\
    rm = (if s_restore_mask p then s_saved_mask p else s_mask p) /\
    s_mask p' = handler_mask p (s_act p sig) sig /\
    m' = store (fxsave (memset m base 0 FRAME_SIZE) fp fpu) base (frame_fields p r sig fp rm false).
Proof.
  intros H Ha Hr r. unfold signal_deliver in H. rewrite main_stack in H by done. fold r in H.
  assert (E : rsp r = rsp r0) by apply restart_rsp. rewrite E in H.
  destruct (carve (rsp r0)) as [base fp] eqn:Ec. simpl fst in H. simpl snd in H. simpl negb in H. simpl andb in H.
  destruct (on_user_stack base FRAME_SIZE) eqn:H1; [|done]. destruct (on_user_stack fp FPSTATE_SIZE) eqn:H2; [|done].
  simpl in H. injection H as <- <- <-. exists base, fp. eexists. repeat (split; [done|]). reflexivity.
Qed.

(** fxrstor of an area fxsave wrote. *)
Lemma restore_fpu_saved m fp fpu fpu2 :
  on_user_stack fp FPSTATE_SIZE = true -> 0 < fp -> fp mod 64 = 0 ->
  (forall i, 0 <= i < 512 -> m (fp + i) = fpu i) ->
  exists m3 fpu3, restore_fpu m fp fpu2 = (m3, fpu3) /\
    ld 4 fpu3 MXCSR_OFFSET = Z.land (ld 4 fpu MXCSR_OFFSET) 0xFFBF /\
    forall i, 0 <= i < 512 -> i < MXCSR_OFFSET \/ MXCSR_OFFSET + 4 <= i -> fpu3 i = fpu i.
Proof.
  intros H Hp Hm Hi. unfold restore_fpu. rewrite H.
  destruct (Z.eqb_spec fp 0); [lia|]. replace (Z.land fp 15) with 0.
  - cbn [negb andb Z.eqb]. eexists _, _. split; [reflexivity|]. split.
    + set (mx := Z.land _ MXCSR_VALID). set (m' := st 4 m _ mx).
      rewrite (ld_shift 4 m' (fun i => m' (fp + i)) (fp + MXCSR_OFFSET) MXCSR_OFFSET) by (intros; f_equal; lia).
      unfold m'. rewrite ld_st_same.
      * unfold mx. f_equal. apply ld_shift. intros i Hi'. unfold MXCSR_OFFSET in *. simpl Z.of_nat in Hi'.
        rewrite <- Z.add_assoc. apply Hi. lia.
      * assert (E : mx = mx mod 2 ^ 16) by (unfold mx; rewrite <- Z.land_ones, <- Z.land_assoc by lia; reflexivity).
        rewrite E. pose proof (Z.mod_pos_bound mx (2 ^ 16)). simpl Z.of_nat. lia.
    + intros i H1 H2. cbv beta. rewrite st_outside by (simpl Z.of_nat; lia). auto.
  - change 15 with (Z.ones 4). rewrite Z.land_ones by lia. symmetry.
    rewrite (Z.div_mod fp 64), Hm, Z.add_0_r, Z.mul_comm by lia.
    replace (fp / 64 * 64) with (fp / 64 * 4 * 2 ^ 4) by lia. by apply Z.mod_mul.
Qed.

(** The general registers, RIP and RSP. *)
Definition user_regs (r : regs) : list Z :=
  [r15 r; r14 r; r13 r; r12 r; r11 r; r10 r; r9 r; r8 r; rbp r; rdi r; rsi r; rdx r; rcx r; rbx r; rax r; rip r; rsp r].

Ltac in_fields := repeat (first [left; reflexivity | right]).

(** ** Properties *)

(** C9: A handler that returns puts everything back.  For a signal delivered on
    the main stack, if the handler leaves the frame and the FPU area as they
    are and returns through the restorer (RSP one word above the frame), then
    [signal_return] resumes the interrupted code with all its general registers,
    RIP (rewound if the call is to be restarted) and RSP, in ring 3, with the
    signal mask from before (less the unblockable signals) and the same FPU
    state, byte for byte, except that MXCSR keeps only the bits of the mask
    0xFFBF (bits 0 to 15 without bit 6). *)
Theorem signal_roundtrip (buf_ok : Z -> Z -> bool) (p : sigproc) (sig : Z) (r0 : regs) (m : mem) (fpu : Z -> Z)
  (p' : sigproc) (r' : regs) (m' : mem) (p2 : sigproc) (r2 : regs) (m2 : mem) (fpu2 : Z -> Z)
  (D : signal_deliver buf_ok p sig r0 m fpu = Some (p', r', m'))
  (Ha : has (sa_flags (s_act p sig)) SA_ONSTACK = false) (Hr : regs_ok r0)
  (Hip : 2 <= rip r0 < USER_LIMIT) (Hsp : rsp r0 < USER_LIMIT)
  (Hmask : 0 <= s_mask p < 2 ^ 64 /\ 0 <= s_saved_mask p < 2 ^ 64)
  (Hframe : forall x, rsp r' <= x < rsp r0 - 128 -> m2 x = m' x) (Hret : rsp r2 = rsp r' + 8) :
  exists p3 r3 m3 fpu3, signal_return p2 r2 m2 fpu2 = Resumed p3 r3 m3 fpu3 /\
    user_regs r3 = user_regs (maybe_restart_syscall p r0 sig) /\
    cs r3 = SEL_UCODE /\ ss r3 = SEL_UDATA /\
    rflags r3 = Z.lor (Z.land (rflags r0) RFLAGS_USER) RFLAGS_FIXED /\
    s_mask p3 = Z.land (if s_restore_mask p then s_saved_mask p else s_mask p) (not64 UNBLOCKABLE) /\
    (forall i, 0 <= i < 512 -> i < MXCSR_OFFSET \/ MXCSR_OFFSET + 4 <= i -> fpu3 i = fpu i) /\
    ld 4 fpu3 MXCSR_OFFSET = Z.land (ld 4 fpu MXCSR_OFFSET) 0xFFBF.
Proof.
  destruct (deliver_main _ _ _ _ _ _ _ _ _ D Ha Hr) as (base & fp & rm & Ec & H1 & H2 & Ers & _ & Erm & _ & Em).
  assert (Hsp0 : 0 <= rsp r0 < 2 ^ 64).
  { pose proof (proj1 (Forall_forall _ _) Hr (rsp r0)) as K. apply K. unfold regs_ok. in_fields. }
  destruct (carve_spec _ _ _ Hsp0 Ec H1 H2) as (C1 & C2 & C3 & C4 & C5 & C6).
  pose proof (restart_ok p r0 sig Hr) as Hrk. set (r := maybe_restart_syscall p r0 sig) in *.
  assert (Hrm : 0 <= rm < 2 ^ 64) by (rewrite Erm; destruct (s_restore_mask p); lia).
  assert (Hfp : 0 <= fp < 2 ^ 64) by (unfold USER_STACK_TOP, USER_STACK_SIZE in *; lia).
  assert (G : forall o v, (o, 8%nat, v) ∈ frame_fields p r sig fp rm false -> 0 <= o -> o + 8 <= 440 -> 0 <= v < 2 ^ 64 ->
    ld 8 m2 (base + o) = v).
  { intros o v Hin Ho Ho' Hv. transitivity (ld 8 m' (base + o)).
    - apply ld_ext. intros x Hx. rewrite Ers in Hframe. apply Hframe. lia.
    - rewrite Em. apply store_get; [apply fields_apart|done|done]. }
  assert (K : forall v, v ∈ user_regs r ++ [rflags r] -> 0 <= v < 2 ^ 64).
  { intros v Hv. apply (proj1 (Forall_forall _ _) Hrk v). unfold user_regs in Hv. simpl in Hv.
    rewrite !elem_of_cons in Hv. destruct_or! Hv; try (by apply not_elem_of_nil in Hv); subst v; in_fields. }
  assert (Hu : 0 <= rip r < USER_LIMIT).
  { destruct (restart_rip p r0 sig) as [E|E]; fold r in E; rewrite E; [lia|].
    rewrite u64_small; unfold USER_LIMIT in *; lia. }
  assert (Er : rsp r = rsp r0) by apply restart_rsp.
  assert (Ef : rflags r = rflags r0) by apply restart_rflags.
  assert (Hl : USER_STACK_TOP < 2 ^ 64 /\ 0 < USER_STACK_TOP - USER_STACK_SIZE) by (split; reflexivity).
  unfold signal_return. rewrite Hret, Ers. replace (base + 8 - 8) with base by lia.
  rewrite u64_small by (apply on_user_stack_spec in H1; unfold FRAME_SIZE in *; lia). rewrite H1. simpl negb. cbv iota.
  unfold frame_fields in G.
  repeat match goal with |- context [ld 8 m2 (base + ?o)] => erewrite (G o); [|in_fields|lia|lia|first [assumption|apply K; unfold user_regs; simpl; in_fields]] end.
  cbn [rip rsp]. destruct (Z.leb_spec USER_LIMIT (rip r)); [lia|]. destruct (Z.leb_spec USER_LIMIT (rsp r)); [lia|]. simpl orb. cbv iota.
  destruct (restore_fpu_saved m2 fp fpu fpu2 H2) as (m3 & fpu3 & -> & Hmx & Hfpu); [lia|done| |].
  { intros i Hi. rewrite Ers in Hframe. rewrite Hframe, Em by lia. rewrite frame_outside by (unfold FRAME_SIZE; lia).
    unfold fxsave. replace (fp + i - fp) with i by lia. unfold FPSTATE_SIZE. bdestr; simpl; (done || lia). }
  eexists _, _, _, _. split; [reflexivity|]. cbn [cs ss rflags s_mask]. rewrite Ef, Erm. repeat (split; [done|]). exact Hmx.
Qed.

(** C34: A sigreturn cannot raise privilege.  Whatever bytes the user left in the
    frame, [signal_return] either kills the process or resumes it with the ring-3
    selectors, at user addresses, with interrupts on, I/O privilege 0, and TF,
    NT, RF and VM clear, and with neither SIGKILL nor SIGSTOP blocked. *)
Theorem signal_return_safe (p p' : sigproc) (r r' : regs) (m m' : mem) (fpu fpu' : Z -> Z)
  (H : signal_return p r m fpu = Resumed p' r' m' fpu') :
  cs r' = SEL_UCODE /\ ss r' = SEL_UDATA /\ rip r' < USER_LIMIT /\ rsp r' < USER_LIMIT /\
  Z.testbit (rflags r') 9 = true /\
  (forall b, b ∈ [8; 12; 13; 14; 16; 17] -> Z.testbit (rflags r') b = false) /\
  Z.testbit (s_mask p') (SIG_KILL - 1) = false /\ Z.testbit (s_mask p') (SIG_STOP - 1) = false /\
  syscall_nr p' = -1.
Proof.
  unfold signal_return in H. destruct (negb _); [done|]. cbn [rip rsp] in H.
  destruct (Z.leb_spec USER_LIMIT (ld 8 m (u64 (rsp r - 8) + 176))); [done|].
  destruct (Z.leb_spec USER_LIMIT (ld 8 m (u64 (rsp r - 8) + 168))); [done|]. simpl in H.
  destruct (restore_fpu _ _ _) as [m3 fpu3]. injection H as <- <- _ _. cbn [cs ss rip rsp rflags s_mask syscall_nr].
  assert (B : forall x i, Z.testbit (Z.lor (Z.land x RFLAGS_USER) RFLAGS_FIXED) i =
    (Z.testbit x i && Z.testbit RFLAGS_USER i) || Z.testbit RFLAGS_FIXED i)
    by (intros; by rewrite Z.lor_spec, Z.land_spec).
  repeat (split; [done || lia|]). split; [rewrite B; apply orb_true_r|]. split; [|split; [|split; [|done]]].
  - apply Forall_forall. repeat constructor; rewrite B; change (Z.testbit RFLAGS_FIXED _) with false; apply orb_false_iff;
      (split; [apply andb_false_r|done]).
  - rewrite Z.land_spec. apply andb_false_r.
  - rewrite Z.land_spec. apply andb_false_r.
Qed.

(** The frame.  A delivery on the main stack writes only below the red zone
    of the interrupted code: the bytes from RSP - 128 up, and everything more
    than about 1200 bytes below, keep their values; the handler starts at an
    address 8 modulo 16 inside the user stack, with the signal number and
    pointers into the frame as arguments, and with a mask that covers the old
    one and the handler's own mask but not SIGKILL or SIGSTOP. *)
Theorem signal_deliver_frame (buf_ok : Z -> Z -> bool) (p : sigproc) (sig : Z) (r0 : regs) (m : mem) (fpu : Z -> Z)
  (p' : sigproc) (r' : regs) (m' : mem)
  (D : signal_deliver buf_ok p sig r0 m fpu = Some (p', r', m'))
  (Ha : has (sa_flags (s_act p sig)) SA_ONSTACK = false) (Hr : regs_ok r0) (Hs : 1 <= sig < 64) :
  rsp r' mod 16 = 8 /\ USER_STACK_TOP - USER_STACK_SIZE <= rsp r' /\ rsp r0 - 1166 <= rsp r' /\
  rip r' = sa_handler (s_act p sig) /\
  (forall x, x < rsp r' \/ rsp r0 - 128 <= x -> m' x = m x) /\
  Z.testbit (s_mask p') (SIG_KILL - 1) = false /\ Z.testbit (s_mask p') (SIG_STOP - 1) = false /\
  (forall b, 0 <= b < 64 -> b <> SIG_KILL - 1 -> b <> SIG_STOP - 1 ->
     Z.testbit (s_mask p') b = Z.testbit (s_mask p) b || Z.testbit (sa_mask (s_act p sig)) b
       || (negb (has (sa_flags (s_act p sig)) SA_NODEFER) && (b =? sig - 1))).
Proof.
  destruct (deliver_main _ _ _ _ _ _ _ _ _ D Ha Hr) as (base & fp & rm & Ec & H1 & H2 & Ers & Eip & _ & Emk & Em).
  assert (Hsp0 : 0 <= rsp r0 < 2 ^ 64).
  { pose proof (proj1 (Forall_forall _ _) Hr (rsp r0)) as K. apply K. unfold regs_ok. in_fields. }
  destruct (carve_spec _ _ _ Hsp0 Ec H1 H2) as (C1 & C2 & C3 & C4 & C5 & C6). rewrite Ers, Emk.
  repeat (split; [done || lia|]). split; [|split; [|split]].
  - intros x Hx. rewrite Em, frame_outside by (unfold FRAME_SIZE; lia). unfold fxsave, FPSTATE_SIZE.
    rewrite memset_spec by (unfold FRAME_SIZE; lia). unfold FRAME_SIZE. bdestr; simpl; (done || lia).
  - unfold handler_mask. rewrite Z.land_spec. apply andb_false_r.
  - unfold handler_mask. rewrite Z.land_spec. apply andb_false_r.
  - intros b Hb Hk Hst. unfold handler_mask. rewrite Z.land_spec.
    assert (Z.testbit (not64 UNBLOCKABLE) b = true) as ->.
    { unfold not64, u64, UNBLOCKABLE, SIGBIT. rewrite Z.mod_pow2_bits_low, Z.lnot_spec, Z.lor_spec, !Z.shiftl_1_l by lia.
      rewrite !Z.pow2_bits_false by lia. done. }
    rewrite andb_true_r. destruct (has _ SA_NODEFER); simpl; rewrite ?Z.lor_spec, ?orb_false_r; [done|].
    f_equal. unfold SIGBIT. rewrite Z.shiftl_1_l, Z.pow2_bits_eqb by lia. apply Z.eqb_sym.
Qed.

(** ** The alternate stack *)

(** The alternate stack [p] has registered is usable for a handler of [sig]. *)
Record alt_ready (buf_ok : Z -> Z -> bool) (p : sigproc) (sig : Z) : Prop := {
  ar_flag : has (sa_flags (s_act p sig)) SA_ONSTACK = true;
  ar_sp : 0 < alt_ss_sp p;
  ar_size : 2048 <= alt_ss_size p;
  ar_top : alt_ss_sp p + alt_ss_size p < 2 ^ 47;
  ar_on : has (alt_ss_flags p) SS_DISABLE = false;
  ar_map : forall a n, alt_ss_sp p <= a -> a + n <= alt_ss_sp p + alt_ss_size p -> buf_ok a n = true
}.

Lemma carve_bounds sp base fp :
  1200 <= sp < 2 ^ 64 -> carve sp = (base, fp) ->
  sp - 1166 <= base /\ base + 440 <= fp /\ fp + 512 <= sp - 128.
Proof.
  unfold carve, FRAME_SIZE, FPSTATE_SIZE. intros Hsp E. injection E as Eb Ef.
  change (not64 63) with (not64 (2 ^ 6 - 1)) in Ef, Eb. change (not64 15) with (not64 (2 ^ 4 - 1)) in Eb.
  rewrite Ef in Eb. rewrite land_not_pow2 in Ef by (lia || apply u64_range).
  rewrite land_not_pow2 in Eb by (lia || apply u64_range).
  rewrite u64_sub_l in Ef. replace (sp - 128 - 512) with (sp - 640) in Ef by lia. rewrite u64_small in Ef by lia.
  pose proof (Z.div_mod (sp - 640) (2 ^ 6) ltac:(lia)) as D1. pose proof (Z.mod_pos_bound (sp - 640) (2 ^ 6) ltac:(lia)) as D2.
  rewrite (u64_small (fp - 440)) in Eb by lia.
  pose proof (Z.div_mod (fp - 440) (2 ^ 4) ltac:(lia)) as D3. pose proof (Z.mod_pos_bound (fp - 440) (2 ^ 4) ltac:(lia)) as D4.
  rewrite u64_small in Eb by lia. lia.
Qed.

Lemma alt_stack buf_ok p sig r :
  alt_ready buf_ok p sig -> exists base fp,
    carve (alt_ss_sp p + alt_ss_size p) = (base, fp) /\ choose_stack buf_ok p (s_act p sig) r = (base, fp, true) /\
    alt_ss_sp p <= base /\ base + 440 <= fp /\ fp + 512 <= alt_ss_sp p + alt_ss_size p.
Proof.
  intros [H1 H2 H3 H4 H5 H6]. destruct (carve (alt_ss_sp p + alt_ss_size p)) as [base fp] eqn:E.
  pose proof (carve_bounds (alt_ss_sp p + alt_ss_size p) base fp ltac:(lia) E) as (B1 & B2 & B3). exists base, fp. split; [done|].
  split; [|lia]. unfold choose_stack. rewrite H1, H5. destruct (carve (rsp r)).
  destruct (Z.eqb_spec (alt_ss_sp p) 0); [lia|]. destruct (Z.eqb_spec (alt_ss_size p) 0); [lia|]. cbn [negb andb].
  rewrite (u64_small (alt_ss_sp p + alt_ss_size p)), E by lia. unfold FRAME_SIZE, FPSTATE_SIZE. rewrite !H6 by lia. done.
Qed.

(** A handler on the alternate stack can never return.  [signal_return]
    only accepts a frame on the main user stack, so for every alternate stack
    below it the delivery that [signal_deliver] makes there succeeds, and the
    matching sigreturn kills the process, whatever the handler did. *)
Theorem alt_stack_return_kills (buf_ok : Z -> Z -> bool) (p : sigproc) (sig : Z) (r0 : regs) (m : mem) (fpu : Z -> Z)
  (A : alt_ready buf_ok p sig) (Hlow : alt_ss_sp p + alt_ss_size p <= USER_STACK_TOP - USER_STACK_SIZE) :
  exists p' r' m', signal_deliver buf_ok p sig r0 m fpu = Some (p', r', m') /\
    alt_ss_sp p <= rsp r' < alt_ss_sp p + alt_ss_size p /\
    forall p2 r2 m2 fpu2, rsp r2 = rsp r' + 8 -> signal_return p2 r2 m2 fpu2 = Killed.
Proof.
  destruct (alt_stack buf_ok p sig (maybe_restart_syscall p r0 sig) A) as (base & fp & _ & Ec & B1 & B2 & B3).
  unfold signal_deliver. rewrite Ec. simpl negb. simpl andb. cbv iota. eexists _, _, _. split; [reflexivity|]. cbn [rsp].
  destruct A. split; [lia|]. intros p2 r2 m2 fpu2 E. unfold signal_return. rewrite E.
  replace (base + 8 - 8) with base by lia. rewrite u64_small by (unfold USER_STACK_TOP, USER_STACK_SIZE in *; lia).
  unfold on_user_stack. destruct (Z.ltb_spec base (USER_STACK_TOP - USER_STACK_SIZE)); [done|lia].
Qed.

(** A second signal on the alternate stack destroys the first frame.  The
    stack is always carved from its top, even when the interrupted code is
    already running on it, so a nested delivery puts its frame exactly where
    the first one is, and the saved RIP of the interrupted program is replaced
    by the address of the first handler. *)
Theorem alt_stack_nesting_clobbers (buf_ok : Z -> Z -> bool) (p p1 p2 : sigproc) (sig sig2 : Z) (r0 r1 r2 : regs)
  (m m1 m2 : mem) (fpu fpu1 : Z -> Z)
  (A1 : alt_ready buf_ok p sig) (A2 : alt_ready buf_ok p1 sig2)
  (D1 : signal_deliver buf_ok p sig r0 m fpu = Some (p1, r1, m1))
  (D2 : signal_deliver buf_ok p1 sig2 r1 m1 fpu1 = Some (p2, r2, m2))
  (Hh : 0 <= sa_handler (s_act p sig) < 2 ^ 64) :
  rsp r2 = rsp r1 /\ ld 8 m2 (rsp r1 + 176) = sa_handler (s_act p sig).
Proof.
  destruct (alt_stack buf_ok p sig (maybe_restart_syscall p r0 sig) A1) as (base & fp & Eb & Ec & _).
  unfold signal_deliver in D1. rewrite Ec in D1. simpl negb in D1. simpl andb in D1. cbv iota in D1.
  injection D1 as Ep1 Er1 _. assert (Es : alt_ss_sp p1 = alt_ss_sp p /\ alt_ss_size p1 = alt_ss_size p) by (by subst p1).
  assert (Ex : maybe_restart_syscall p1 r1 sig2 = r1).
  { unfold maybe_restart_syscall. subst r1. cbn [vector rax]. destruct (_ || _); [done|]. done. }
  destruct (alt_stack buf_ok p1 sig2 (maybe_restart_syscall p1 r1 sig2) A2) as (base2 & fp2 & Eb2 & Ec2 & _).
  destruct Es as [Es1 Es2]. rewrite Es1, Es2, Eb in Eb2. injection Eb2 as <- <-.
  unfold signal_deliver in D2. rewrite Ec2 in D2. simpl negb in D2. simpl andb in D2. cbv iota in D2.
  rewrite Ex in D2. set (fr := frame_fields p1 r1 sig2 fp _ true) in D2.
  assert (Hin : (176, 8%nat, rip r1) ∈ fr) by (unfold fr; in_fields).
  assert (Hap : apart_fields fr = true) by apply fields_apart. clearbody fr. injection D2 as _ Er2 Em2.
  assert (R1 : rsp r1 = base /\ rip r1 = sa_handler (s_act p sig)) by (by subst r1). destruct R1 as [R1 R2].
  split; [subst r2; cbn [rsp]; congruence|]. rewrite <- Em2, R1, <- R2. apply store_get; [done|done|by rewrite R2].
Qed.

(** Restarting.  A system call interrupted by a handler with SA_RESTART is
    restarted, by rewinding RIP over the two-byte trap and putting its number
    back in RAX, exactly when it came in through the system-call gate, failed
    with EINTR, and is not one of the five calls that wait for an event. *)
Theorem restart_iff (p : sigproc) (r : regs) (sig : Z) (Hr : regs_ok r) (Hip : 2 <= rip r) :
  (maybe_restart_syscall p r sig <> r <->
     vector r = SYSCALL_VECTOR /\ 0 <= syscall_nr p /\ rax r = 2 ^ 64 - E_INTR /\
     has (sa_flags (s_act p sig)) SA_RESTART = true /\ never_restarts (syscall_nr p) = false) /\
  (maybe_restart_syscall p r sig <> r ->
     rip (maybe_restart_syscall p r sig) = rip r - 2 /\ rax (maybe_restart_syscall p r sig) = u64 (syscall_nr p)).
Proof.
  assert (Hx : 0 <= rax r < 2 ^ 64) by (apply (proj1 (Forall_forall _ _) Hr (rax r)); in_fields).
  assert (Hi : 0 <= rip r < 2 ^ 64) by (apply (proj1 (Forall_forall _ _) Hr (rip r)); in_fields).
  assert (Es : s64 (rax r) = - E_INTR <-> rax r = 2 ^ 64 - E_INTR).
  { unfold s64, sgn, E_INTR. rewrite Z.mod_small by lia. change (64 - 1) with 63.
    destruct (Z.ltb_spec (rax r) (2 ^ 63)); lia. }
  assert (Hne : forall ax, set_rip_rax r (u64 (rip r - 2)) ax <> r).
  { intros ax E. apply (f_equal rip) in E. cbn [set_rip_rax rip] in E. rewrite u64_small in E by lia. lia. }
  unfold maybe_restart_syscall. destruct (Z.eqb_spec (vector r) SYSCALL_VECTOR); simpl; [|split; [split|]; intros; tauto].
  destruct (Z.ltb_spec (syscall_nr p) 0); [split; [split|]; intros; try tauto; lia|].
  destruct (Z.eqb_spec (s64 (rax r)) (- E_INTR)); simpl; [|split; [split|]; intros; tauto].
  destruct (has _ SA_RESTART); simpl; [|split; [split|]; intros; try tauto; by destruct_and?].
  destruct (never_restarts _); [split; [split|]; intros; try tauto; by destruct_and?|].
  split; [split; [tauto|intros; apply Hne]|]. intros _. cbn [set_rip_rax rip rax]. rewrite u64_small by lia. done.
Qed.

(** ** Witnesses *)

(** A program interrupted in user code near the top of its stack. *)
Definition demo_regs : regs :=
  Regs 15 14 13 12 11 10 9 8 7 6 5 4 3 2 1 32 0 4198400 SEL_UCODE 0x202 (USER_STACK_TOP - 4096) SEL_UDATA.
Definition demo_sig (flags : Z) : sigproc :=
  SigProc (fun _ => Sigact 4202496 flags 4206592 0) 0 0 false 65536 8192 0 (-1) 0.
Definition demo_mem : mem := fun _ => 0.

Lemma demo_regs_ok : regs_ok demo_regs.
Proof. unfold regs_ok, demo_regs, USER_STACK_TOP. simpl. repeat (apply Forall_cons; split; [vm_compute; split; congruence|]). apply Forall_nil. done. Qed.

Definition demo_frame := signal_deliver (fun _ _ => true) (demo_sig 0) 10 demo_regs demo_mem (fun i => i mod 256).
Definition demo_handler_rsp : Z := match demo_frame with Some (_, r, _) => rsp r | None => 0 end.

(** The handler's return: RSP one word up, other registers as they fall. *)
Definition demo_back : regs :=
  Regs 0 0 0 0 0 0 0 0 0 0 0 0 0 0 15 128 0 0 SEL_UCODE 0x202 (demo_handler_rsp + 8) SEL_UDATA.

Lemma demo_frame_some : exists p' r' m', demo_frame = Some (p', r', m') /\ rsp r' = demo_handler_rsp.
Proof.
  unfold demo_handler_rsp. destruct demo_frame as [[[p' r'] m']|] eqn:E; [by exists p', r', m'|].
  exfalso. assert (H : match demo_frame with Some _ => true | None => false end = true) by (vm_compute; reflexivity).
  by rewrite E in H.
Qed.

Lemma signal_roundtrip_witness : exists p3 r3 m3 fpu3 m',
  signal_return (demo_sig 0) demo_back m' (fun _ => 0) = Resumed p3 r3 m3 fpu3 /\ user_regs r3 = user_regs demo_regs.
Proof.
  destruct demo_frame_some as (p' & r' & m' & D & E).
  destruct (signal_roundtrip (fun _ _ => true) (demo_sig 0) 10 demo_regs demo_mem (fun i => i mod 256) p' r' m'
              (demo_sig 0) demo_back m' (fun _ => 0) D) as (p3 & r3 & m3 & fpu3 & H & Hr & _);
    [reflexivity|apply demo_regs_ok|vm_compute; split; congruence|vm_compute; congruence
    |vm_compute; repeat split; congruence|reflexivity|simpl; rewrite E; reflexivity|].
  exists p3, r3, m3, fpu3, m'. split; [exact H|exact Hr].
Defined.

Definition demo_return_regs : regs :=
  Regs 0 0 0 0 0 0 0 0 0 0 0 0 0 0 15 128 0 0 SEL_UCODE 0x202 (USER_STACK_TOP - 2040) SEL_UDATA.
Definition demo_return : sigret := signal_return (demo_sig 0) demo_return_regs (fun _ => 0) (fun _ => 0).

Lemma demo_return_some : exists p' r' m' fpu', demo_return = Resumed p' r' m' fpu'.
Proof. unfold demo_return, signal_return. simpl. eexists _, _, _, _. reflexivity. Qed.

Lemma signal_return_safe_witness : exists p' r' m' fpu', demo_return = Resumed p' r' m' fpu' /\ cs r' = SEL_UCODE.
Proof.
  destruct demo_return_some as (p' & r' & m' & fpu' & E). exists p', r', m', fpu'. split; [exact E|].
  apply (signal_return_safe (demo_sig 0) p' demo_return_regs r' (fun _ => 0) m' (fun _ => 0) fpu' E).
Defined.

Lemma signal_deliver_frame_witness : exists p' r' m', demo_frame = Some (p', r', m') /\ rsp r' mod 16 = 8.
Proof.
  destruct demo_frame_some as (p' & r' & m' & D & E). exists p', r', m'. split; [exact D|].
  apply (signal_deliver_frame (fun _ _ => true) (demo_sig 0) 10 demo_regs demo_mem (fun i => i mod 256) p' r' m' D);
    [reflexivity|apply demo_regs_ok|lia].
Defined.

Lemma demo_alt_ready : forall sig, alt_ready (fun _ _ => true) (demo_sig SA_ONSTACK) sig.
Proof. intros sig. constructor; simpl; (reflexivity || lia || done). Qed.

Lemma alt_stack_return_kills_witness : exists p' r' m',
  signal_deliver (fun _ _ => true) (demo_sig SA_ONSTACK) 10 demo_regs demo_mem (fun _ => 0) = Some (p', r', m') /\
  forall p2 r2 m2 fpu2, rsp r2 = rsp r' + 8 -> signal_return p2 r2 m2 fpu2 = Killed.
Proof.
  destruct (alt_stack_return_kills (fun _ _ => true) (demo_sig SA_ONSTACK) 10 demo_regs demo_mem (fun _ => 0)
    (demo_alt_ready 10)) as (p' & r' & m' & D & _ & K); [vm_compute; congruence|].
  exists p', r', m'. split; [exact D|exact K].
Defined.

Lemma alt_deliver_some p sig r m fpu : alt_ready (fun _ _ => true) p sig ->
  exists p' r' m', signal_deliver (fun _ _ => true) p sig r m fpu = Some (p', r', m') /\
    (has (sa_flags (s_act p sig)) SA_RESETHAND = false -> s_act p' = s_act p) /\ alt_ss_sp p' = alt_ss_sp p /\
    alt_ss_size p' = alt_ss_size p /\ alt_ss_flags p' = alt_ss_flags p.
Proof.
  intros A. destruct (alt_stack _ p sig (maybe_restart_syscall p r sig) A) as (base & fp & _ & Ec & _).
  unfold signal_deliver. rewrite Ec. simpl negb. simpl andb. cbv iota. eexists _, _, _. split; [reflexivity|].
  split; [|done]. cbn [s_act]. intros ->. done.
Qed.

Lemma alt_stack_nesting_clobbers_witness : exists r1 r2 m2,
  rsp r2 = rsp r1 /\ ld 8 m2 (rsp r1 + 176) = 4202496.
Proof.
  destruct (alt_deliver_some (demo_sig SA_ONSTACK) 10 demo_regs demo_mem (fun _ => 0) (demo_alt_ready 10))
    as (p1 & r1 & m1 & D1 & E1 & E2 & E3 & E4). specialize (E1 eq_refl).
  assert (A1 : alt_ready (fun _ _ => true) p1 12).
  { constructor; rewrite ?E1, ?E2, ?E3, ?E4; apply (demo_alt_ready 12). }
  destruct (alt_deliver_some p1 12 r1 m1 (fun _ => 0) A1) as (p2 & r2 & m2 & D2 & _). exists r1, r2, m2.
  apply (alt_stack_nesting_clobbers (fun _ _ => true) (demo_sig SA_ONSTACK) p1 p2 10 12 demo_regs r1 r2 demo_mem m1 m2
           (fun _ => 0) (fun _ => 0) (demo_alt_ready 10) A1 D1 D2). simpl. lia.
Defined.

(** read(2) interrupted: system call 0 that failed with EINTR. *)
Definition demo_eintr : regs :=
  Regs 15 14 13 12 11 10 9 8 7 6 5 4 3 2 (2 ^ 64 - 4) 128 0 4198400 SEL_UCODE 0x202 (USER_STACK_TOP - 4096) SEL_UDATA.
Definition demo_restart : sigproc :=
  SigProc (fun _ => Sigact 4202496 SA_RESTART 4206592 0) 0 0 false 0 0 2 0 0.

Lemma restart_iff_witness : rip (maybe_restart_syscall demo_restart demo_eintr 10) = 4198398.
Proof.
  apply (restart_iff demo_restart demo_eintr 10); [|simpl; lia|].
  - unfold regs_ok, demo_eintr, USER_STACK_TOP. simpl.
    repeat (apply Forall_cons; split; [vm_compute; split; congruence|]). apply Forall_nil. done.
  - intros E. apply (f_equal rip) in E. vm_compute in E. congruence.
Defined.
