(* ===== verification/Crypto.v ===== *)
(** * crypto/crypto.c: SHA-256, CRC-32, AES-128 and their self-test

    Arrays are lists of machine integers.  A buffer argument [(data, len)] is
    the list of its [len] bytes.  The two lazily built static tables with
    their ready flags are a record that every function reading them takes and
    returns.  Loops that run until a condition holds take fuel and return
    [None] when it runs out; the theorems show that they never do. *)
From Stdlib Require Import String Ascii.
From S2P Require Import Prelude.
#[local] Open Scope Z_scope.

(** [for (i = from; i < from + n; i++) body] *)
Fixpoint for_ {S} (n : nat) (i : Z) (body : Z -> S -> S) (s : S) : S :=
  match n with
  | O => s
  | Datatypes.S n' => for_ n' (i + 1) body (body i s)
  end.

(** [memcpy(dst + off, src, length src)] inside one array. *)
Definition blit {A} (dst : list A) (off : Z) (src : list A) : list A :=
  (take (Z.to_nat off) dst ++ src ++ drop (Z.to_nat off + length src) dst)%list.

(** ** SHA-256 *)

Definition K256 : list Z :=
  [0x428A2F98; 0x71374491; 0xB5C0FBCF; 0xE9B5DBA5; 0x3956C25B; 0x59F111F1; 0x923F82A4; 0xAB1C5ED5;
   0xD807AA98; 0x12835B01; 0x243185BE; 0x550C7DC3; 0x72BE5D74; 0x80DEB1FE; 0x9BDC06A7; 0xC19BF174;
   0xE49B69C1; 0xEFBE4786; 0xFC19DC6; 0x240CA1CC; 0x2DE92C6F; 0x4A7484AA; 0x5CB0A9DC; 0x76F988DA;
   0x983E5152; 0xA831C66D; 0xB00327C8; 0xBF597FC7; 0xC6E00BF3; 0xD5A79147; 0x6CA6351; 0x14292967;
   0x27B70A85; 0x2E1B2138; 0x4D2C6DFC; 0x53380D13; 0x650A7354; 0x766A0ABB; 0x81C2C92E; 0x92722C85;
   0xA2BFE8A1; 0xA81A664B; 0xC24B8B70; 0xC76C51A3; 0xD192E819; 0xD6990624; 0xF40E3585; 0x106AA070;
   0x19A4C116; 0x1E376C08; 0x2748774C; 0x34B0BCB5; 0x391C0CB3; 0x4ED8AA4A; 0x5B9CCA4F; 0x682E6FF3;
   0x748F82EE; 0x78A5636F; 0x84C87814; 0x8CC70208; 0x90BEFFFA; 0xA4506CEB; 0xBEF9A3F7; 0xC67178F2].

Definition rotr (x n : Z) : Z := Z.lor (Z.shiftr x n) (u32 (Z.shiftl x (32 - n))).

(** Four bytes of [b] from index [i], most significant first. *)
Definition be32 (b : list Z) (i : Z) : Z :=
  Z.lor (Z.lor (Z.lor (Z.shiftl (aget 0 b i) 24) (Z.shiftl (aget 0 b (i + 1)) 16))
           (Z.shiftl (aget 0 b (i + 2)) 8)) (aget 0 b (i + 3)).

Definition sha256_schedule (block : list Z) : list Z :=
  let w := for_ 16 0 (fun i w => aset w i (be32 block (i * 4))) (replicate 64 0) in
  for_ 48 16 (fun i w =>
    let w15 := aget 0 w (i - 15) in
    let w2 := aget 0 w (i - 2) in
    let s0 := Z.lxor (Z.lxor (rotr w15 7) (rotr w15 18)) (Z.shiftr w15 3) in
    let s1 := Z.lxor (Z.lxor (rotr w2 17) (rotr w2 19)) (Z.shiftr w2 10) in
    aset w i (u32 (aget 0 w (i - 16) + s0 + aget 0 w (i - 7) + s1))) w.

Definition sha256_round (w : list Z) (i : Z) (v : Z * Z * Z * Z * Z * Z * Z * Z) :=
  let '(a, b, c, d, e, f, g, hh) := v in
  let S1 := Z.lxor (Z.lxor (rotr e 6) (rotr e 11)) (rotr e 25) in
  let ch := Z.lxor (Z.land e f) (Z.land (not32 e) g) in
  let t1 := u32 (hh + S1 + ch + aget 0 K256 i + aget 0 w i) in
  let S0 := Z.lxor (Z.lxor (rotr a 2) (rotr a 13)) (rotr a 22) in
  let maj := Z.lxor (Z.lxor (Z.land a b) (Z.land a c)) (Z.land b c) in
  let t2 := u32 (S0 + maj) in
  (u32 (t1 + t2), a, b, c, u32 (d + t1), e, f, g).

Definition sha256_block (h block : list Z) : list Z :=
  let w := sha256_schedule block in
  let v0 := (aget 0 h 0, aget 0 h 1, aget 0 h 2, aget 0 h 3,
             aget 0 h 4, aget 0 h 5, aget 0 h 6, aget 0 h 7) in
  let '(a, b, c, d, e, f, g, hh) := for_ 64 0 (sha256_round w) v0 in
  [u32 (aget 0 h 0 + a); u32 (aget 0 h 1 + b); u32 (aget 0 h 2 + c); u32 (aget 0 h 3 + d);
   u32 (aget 0 h 4 + e); u32 (aget 0 h 5 + f); u32 (aget 0 h 6 + g); u32 (aget 0 h 7 + hh)].

Record sha256_ctx := mk_sha { h_of : list Z; total : Z; buf : list Z; buflen : Z }.

Definition H0 : list Z :=
  [0x6A09E667; 0xBB67AE85; 0x3C6EF372; 0xA54FF53A;
   0x510E527F; 0x9B05688C; 0x1F83D9AB; 0x5BE0CD19].

(** The buffer keeps whatever the caller's memory held. *)
Definition sha256_init (ctx : sha256_ctx) : sha256_ctx := mk_sha H0 0 (buf ctx) 0.

(** One turn of the [while (len)] loop: the context and the bytes left. *)
Definition update_step (ctx : sha256_ctx) (p : list Z) : sha256_ctx * list Z :=
  let len := alen p in
  let room := u32 (64 - buflen ctx) in
  let take_ := if len <? room then u32 len else room in
  let buf' := blit (buf ctx) (buflen ctx) (take (Z.to_nat take_) p) in
  let n := u32 (buflen ctx + take_) in
  (if n =? 64 then mk_sha (sha256_block (h_of ctx) buf') (total ctx) buf' 0
   else mk_sha (h_of ctx) (total ctx) buf' n,
   drop (Z.to_nat take_) p).

Fixpoint update_loop (fuel : nat) (ctx : sha256_ctx) (p : list Z) : option sha256_ctx :=
  if alen p =? 0 then Some ctx else
  match fuel with
  | O => None
  | S k => let '(ctx', p') := update_step ctx p in update_loop k ctx' p'
  end.

Definition sha256_update (ctx : sha256_ctx) (data : list Z) : option sha256_ctx :=
  update_loop (length data)
    (mk_sha (h_of ctx) (u64 (total ctx + alen data)) (buf ctx) (buflen ctx)) data.

(** [while (ctx->buflen != 56) sha256_update(ctx, &zero, 1);] *)
Fixpoint pad_loop (fuel : nat) (ctx : sha256_ctx) : option sha256_ctx :=
  if buflen ctx =? 56 then Some ctx else
  match fuel with
  | O => None
  | S k => ctx' ← sha256_update ctx [0]; pad_loop k ctx'
  end.

(** [for (i = 0; i < 8; i++) lenb[i] = (uint8_t)(bits >> (56 - i * 8));] *)
Definition len_bytes (bits : Z) : list Z :=
  for_ 8 0 (fun i lenb => aset lenb i (u8 (Z.shiftr bits (56 - i * 8)))) (replicate 8 0).

(** The eight state words, most significant byte first. *)
Definition digest_bytes (h : list Z) : list Z :=
  for_ 8 0 (fun i out =>
    let x := aget 0 h i in
    aset (aset (aset (aset out (i * 4) (u8 (Z.shiftr x 24))) (i * 4 + 1) (u8 (Z.shiftr x 16)))
            (i * 4 + 2) (u8 (Z.shiftr x 8))) (i * 4 + 3) (u8 x)) (replicate 32 0).

Definition sha256_final (ctx : sha256_ctx) : option (list Z) :=
  let bits := u64 (total ctx * 8) in
  ctx1 ← sha256_update ctx [0x80];
  ctx2 ← pad_loop 64 ctx1;
  let buf' := blit (buf ctx2) 56 (len_bytes bits) in
  Some (digest_bytes (sha256_block (h_of ctx2) buf')).

(** An uninitialised context: its buffer holds arbitrary bytes. *)
Definition crypto_sha256 (stack : sha256_ctx) (data : list Z) : option (list Z) :=
  ctx ← sha256_update (sha256_init stack) data;
  sha256_final ctx.

(** ** The static tables *)

Record crypto_state := mk_crypto {
  crc_table : list Z; crc_table_ready : bool;
  INV_SBOX : list Z; aes_tables_ready : bool }.

Definition crypto_boot : crypto_state :=
  mk_crypto (replicate 256 0) false (replicate 256 0) false.

(** ** CRC-32 *)

Definition crc_bit (c : Z) : Z :=
  if Z.land c 1 =? 0 then Z.shiftr c 1 else Z.lxor 0xEDB88320 (Z.shiftr c 1).

Definition crc_init_table (s : crypto_state) : crypto_state :=
  mk_crypto
    (for_ 256 0 (fun i t => aset t i (for_ 8 0 (fun _ c => crc_bit c) i)) (crc_table s))
    true (INV_SBOX s) (aes_tables_ready s).

Definition crypto_crc32 (s : crypto_state) (data : list Z) : Z * crypto_state :=
  let s := if crc_table_ready s then s else crc_init_table s in
  let crc := foldl (fun crc b =>
    Z.lxor (aget 0 (crc_table s) (Z.land (Z.lxor crc b) 0xFF)) (Z.shiftr crc 8)) 0xFFFFFFFF data in
  (Z.lxor crc 0xFFFFFFFF, s).

(** ** AES-128 *)

Definition SBOX : list Z :=
  [0x63; 0x7c; 0x77; 0x7b; 0xf2; 0x6b; 0x6f; 0xc5; 0x30; 0x1; 0x67; 0x2b; 0xfe; 0xd7; 0xab; 0x76;
   0xca; 0x82; 0xc9; 0x7d; 0xfa; 0x59; 0x47; 0xf0; 0xad; 0xd4; 0xa2; 0xaf; 0x9c; 0xa4; 0x72; 0xc0;
   0xb7; 0xfd; 0x93; 0x26; 0x36; 0x3f; 0xf7; 0xcc; 0x34; 0xa5; 0xe5; 0xf1; 0x71; 0xd8; 0x31; 0x15;
   0x4; 0xc7; 0x23; 0xc3; 0x18; 0x96; 0x5; 0x9a; 0x7; 0x12; 0x80; 0xe2; 0xeb; 0x27; 0xb2; 0x75;
   0x9; 0x83; 0x2c; 0x1a; 0x1b; 0x6e; 0x5a; 0xa0; 0x52; 0x3b; 0xd6; 0xb3; 0x29; 0xe3; 0x2f; 0x84;
   0x53; 0xd1; 0x0; 0xed; 0x20; 0xfc; 0xb1; 0x5b; 0x6a; 0xcb; 0xbe; 0x39; 0x4a; 0x4c; 0x58; 0xcf;
   0xd0; 0xef; 0xaa; 0xfb; 0x43; 0x4d; 0x33; 0x85; 0x45; 0xf9; 0x2; 0x7f; 0x50; 0x3c; 0x9f; 0xa8;
   0x51; 0xa3; 0x40; 0x8f; 0x92; 0x9d; 0x38; 0xf5; 0xbc; 0xb6; 0xda; 0x21; 0x10; 0xff; 0xf3; 0xd2;
   0xcd; 0xc; 0x13; 0xec; 0x5f; 0x97; 0x44; 0x17; 0xc4; 0xa7; 0x7e; 0x3d; 0x64; 0x5d; 0x19; 0x73;
   0x60; 0x81; 0x4f; 0xdc; 0x22; 0x2a; 0x90; 0x88; 0x46; 0xee; 0xb8; 0x14; 0xde; 0x5e; 0xb; 0xdb;
   0xe0; 0x32; 0x3a; 0xa; 0x49; 0x6; 0x24; 0x5c; 0xc2; 0xd3; 0xac; 0x62; 0x91; 0x95; 0xe4; 0x79;
   0xe7; 0xc8; 0x37; 0x6d; 0x8d; 0xd5; 0x4e; 0xa9; 0x6c; 0x56; 0xf4; 0xea; 0x65; 0x7a; 0xae; 0x8;
   0xba; 0x78; 0x25; 0x2e; 0x1c; 0xa6; 0xb4; 0xc6; 0xe8; 0xdd; 0x74; 0x1f; 0x4b; 0xbd; 0x8b; 0x8a;
   0x70; 0x3e; 0xb5; 0x66; 0x48; 0x3; 0xf6; 0xe; 0x61; 0x35; 0x57; 0xb9; 0x86; 0xc1; 0x1d; 0x9e;
   0xe1; 0xf8; 0x98; 0x11; 0x69; 0xd9; 0x8e; 0x94; 0x9b; 0x1e; 0x87; 0xe9; 0xce; 0x55; 0x28; 0xdf;
   0x8c; 0xa1; 0x89; 0xd; 0xbf; 0xe6; 0x42; 0x68; 0x41; 0x99; 0x2d; 0xf; 0xb0; 0x54; 0xbb; 0x16].

(** [a = (uint8_t)((a << 1) ^ ((a & 0x80) ? 0x1B : 0))] *)
Definition xtime (a : Z) : Z :=
  u8 (Z.lxor (Z.shiftl a 1) (if Z.land a 0x80 =? 0 then 0 else 0x1B)).

Fixpoint gmul_loop (fuel : nat) (r a b : Z) : option Z :=
  if b =? 0 then Some r else
  match fuel with
  | O => None
  | S k => gmul_loop k (if Z.land b 1 =? 0 then r else Z.lxor r a) (xtime a) (Z.shiftr b 1)
  end.

(** A byte has at most eight bits to shift out. *)
Definition gmul (a b : Z) : Z := default 0 (gmul_loop 8 0 a b).

Definition RCON : list Z := [0x01; 0x02; 0x04; 0x08; 0x10; 0x20; 0x40; 0x80; 0x1b; 0x36].

Definition key_word (i t : Z) : Z :=
  if i mod 4 =? 0 then
    let t := Z.lor (u32 (Z.shiftl t 8)) (Z.shiftr t 24) in
    let t := Z.lor (Z.lor (Z.lor
               (Z.shiftl (aget 0 SBOX (Z.land (Z.shiftr t 24) 0xFF)) 24)
               (Z.shiftl (aget 0 SBOX (Z.land (Z.shiftr t 16) 0xFF)) 16))
               (Z.shiftl (aget 0 SBOX (Z.land (Z.shiftr t 8) 0xFF)) 8))
               (aget 0 SBOX (Z.land t 0xFF)) in
    Z.lxor t (Z.shiftl (aget 0 RCON (i / 4 - 1)) 24)
  else t.

Definition crypto_aes128_expand_key (key : list Z) : list Z :=
  let rk := for_ 4 0 (fun i rk => aset rk i (be32 key (i * 4))) (replicate 44 0) in
  for_ 40 4 (fun i rk =>
    aset rk i (Z.lxor (aget 0 rk (i - 4)) (key_word i (aget 0 rk (i - 1))))) rk.

(** [rk] points [off] words into the round keys. *)
Definition aes_add_round_key (st rk : list Z) (off : Z) : list Z :=
  for_ 4 0 (fun i st =>
    let k := aget 0 rk (off + i) in
    let x st j v := aset st j (Z.lxor (aget 0 st j) (u8 v)) in
    x (x (x (x st (i * 4) (Z.shiftr k 24)) (i * 4 + 1) (Z.shiftr k 16))
         (i * 4 + 2) (Z.shiftr k 8)) (i * 4 + 3) k) st.

Definition aes_init_tables (s : crypto_state) : crypto_state :=
  mk_crypto (crc_table s) (crc_table_ready s)
    (for_ 256 0 (fun i t => aset t (aget 0 SBOX i) (u8 i)) (INV_SBOX s)) true.

Definition aes_mix_columns (st : list Z) : list Z :=
  for_ 4 0 (fun c st =>
    let a0 := aget 0 st (c * 4) in let a1 := aget 0 st (c * 4 + 1) in
    let a2 := aget 0 st (c * 4 + 2) in let a3 := aget 0 st (c * 4 + 3) in
    let st := aset st (c * 4) (Z.lxor (Z.lxor (Z.lxor (gmul a0 2) (gmul a1 3)) a2) a3) in
    let st := aset st (c * 4 + 1) (Z.lxor (Z.lxor (Z.lxor a0 (gmul a1 2)) (gmul a2 3)) a3) in
    let st := aset st (c * 4 + 2) (Z.lxor (Z.lxor (Z.lxor a0 a1) (gmul a2 2)) (gmul a3 3)) in
    aset st (c * 4 + 3) (Z.lxor (Z.lxor (Z.lxor (gmul a0 3) a1) a2) (gmul a3 2))) st.

Definition aes_inv_mix_columns (st : list Z) : list Z :=
  for_ 4 0 (fun c st =>
    let a0 := aget 0 st (c * 4) in let a1 := aget 0 st (c * 4 + 1) in
    let a2 := aget 0 st (c * 4 + 2) in let a3 := aget 0 st (c * 4 + 3) in
    let x4 a b c d := Z.lxor (Z.lxor (Z.lxor a b) c) d in
    let st := aset st (c * 4) (x4 (gmul a0 14) (gmul a1 11) (gmul a2 13) (gmul a3 9)) in
    let st := aset st (c * 4 + 1) (x4 (gmul a0 9) (gmul a1 14) (gmul a2 11) (gmul a3 13)) in
    let st := aset st (c * 4 + 2) (x4 (gmul a0 13) (gmul a1 9) (gmul a2 14) (gmul a3 11)) in
    aset st (c * 4 + 3) (x4 (gmul a0 11) (gmul a1 13) (gmul a2 9) (gmul a3 14))) st.

(** [for (i = 0; i < 16; i++) st[i] = table[st[i]];] *)
Definition sub_bytes (table st : list Z) : list Z :=
  for_ 16 0 (fun i st => aset st i (aget 0 table (aget 0 st i))) st.

(** [st[c * 4 + r] = t[((c + r) & 3) * 4 + r]] for every row and column. *)
Definition shift_rows (st : list Z) : list Z :=
  for_ 4 0 (fun r => for_ 4 0 (fun c s =>
    aset s (c * 4 + r) (aget 0 st (Z.land (c + r) 3 * 4 + r)))) st.

Definition inv_shift_rows (st : list Z) : list Z :=
  for_ 4 0 (fun r => for_ 4 0 (fun c s =>
    aset s (c * 4 + r) (aget 0 st (Z.land (c - r + 4) 3 * 4 + r)))) st.

Definition crypto_aes128_encrypt_block (roundkeys inp : list Z) : list Z :=
  let st := aes_add_round_key inp roundkeys 0 in
  let st := for_ 9 1 (fun round st =>
    aes_add_round_key (aes_mix_columns (shift_rows (sub_bytes SBOX st))) roundkeys (round * 4)) st in
  aes_add_round_key (shift_rows (sub_bytes SBOX st)) roundkeys 40.

(** The loop counts [round] down from 9 to 1. *)
Definition crypto_aes128_decrypt_block (s : crypto_state) (roundkeys inp : list Z)
    : list Z * crypto_state :=
  let s := if aes_tables_ready s then s else aes_init_tables s in
  let st := aes_add_round_key inp roundkeys 40 in
  let st := for_ 9 0 (fun k st => let round := 9 - k in
    aes_inv_mix_columns
      (aes_add_round_key (sub_bytes (INV_SBOX s) (inv_shift_rows st)) roundkeys (round * 4))) st in
  (aes_add_round_key (sub_bytes (INV_SBOX s) (inv_shift_rows st)) roundkeys 0, s).

(** ** The boot-time self-test *)

Definition hx : list Z := chars "0123456789abcdef".

Fixpoint hex_eq_from (got want : list Z) (i : Z) (n : nat) : bool :=
  match n with
  | O => true
  | S k =>
    let hi := aget 0 hx (Z.shiftr (aget 0 got i) 4) in
    let lo := aget 0 hx (Z.land (aget 0 got i) 0xF) in
    if negb (hi =? aget 0 want (i * 2)) || negb (lo =? aget 0 want (i * 2 + 1)) then false
    else hex_eq_from got want (i + 1) k
  end.
Definition hex_eq (got want : list Z) (n : nat) : bool := hex_eq_from got want 0 n.

(** [memcmp(a, b, n) == 0] on two arrays of the compared length. *)
Definition bytes_eqb (a b : list Z) : bool := bool_decide (a = b).

(** [sha256_update(&ctx, big + i, min(137, 1000 - i))] for [i] by 137. *)
Fixpoint feed (n : nat) (ctx : sha256_ctx) (big : list Z) : option sha256_ctx :=
  match n with
  | O => Some ctx
  | S k => ctx' ← sha256_update ctx (take 137 big); feed k ctx' (drop 137 big)
  end.

(** The value of one hex digit: the last match of the inner loop, 0 if none. *)
Definition nibble (c : Z) : Z :=
  for_ 16 0 (fun k v => if aget 0 hx k =? c then u8 k else v) 0.

Definition unhex (s : list Z) : list Z :=
  for_ 16 0 (fun i w => aset w i
    (u8 (Z.lor (Z.shiftl (nibble (aget 0 s (i * 2))) 4) (nibble (aget 0 s (i * 2 + 1))))))
    (replicate 16 0).

Definition sha_is (stack : sha256_ctx) (msg : list Z) (want : string) : bool :=
  match crypto_sha256 stack msg with
  | Some h => hex_eq h (chars want) 32
  | None => false
  end.

Definition streaming_agrees (stack : sha256_ctx) : bool :=
  let big := replicate 1000 0x5A in
  match (ctx ← feed 8 (sha256_init stack) big; sha256_final ctx), crypto_sha256 stack big with
  | Some h, Some h2 => bytes_eqb h h2
  | _, _ => false
  end.

(** The FIPS 197 key and plaintext: [key[i] = i; pt[i] = i * 0x11]. *)
Definition kat_key : list Z := for_ 16 0 (fun i a => aset a i (u8 i)) (replicate 16 0).
Definition kat_pt : list Z := for_ 16 0 (fun i a => aset a i (u8 (i * 0x11))) (replicate 16 0).

(** The flag the self-test reports, [stack] being its uninitialised context. *)
Definition crypto_selftest (stack : sha256_ctx) (s : crypto_state) : bool * crypto_state :=
  let '(crc, s) := crypto_crc32 s (chars "123456789") in
  let ok := crc =? 0xCBF43926 in
  let ok := ok && sha_is stack (chars "abc")
    "ba7816bf8f01cfea414140de5dae2223b00361a396177a9cb410ff61f20015ad" in
  let ok := ok && sha_is stack (chars "")
    "e3b0c44298fc1c149afbf4c8996fb92427ae41e4649b934ca495991b7852b855" in
  let ok := ok && streaming_agrees stack in
  let rk := crypto_aes128_expand_key kat_key in
  let ct := crypto_aes128_encrypt_block rk kat_pt in
  let want := unhex (chars "69c4e0d86a7b0430d8cdb78070b4c55a") in
  let ok := ok && bytes_eqb ct want in
  let '(back, s) := crypto_aes128_decrypt_block s rk ct in
  (ok && bytes_eqb back kat_pt, s).
