(* ===== verification/CryptoSpec.v ===== *)
(** * What crypto/crypto.c computes

    Reference definitions (FIPS 180-4 padding and iteration, the bit-serial
    CRC register) and the proofs that the hash and checksum code of [Crypto]
    implements them. *)
From Stdlib Require Import String Ascii Btauto.
From S2P Require Import Prelude Crypto.
#[local] Open Scope Z_scope.
#[local] Open Scope list_scope.

(** ** SHA-256: streaming refines the padded-message definition *)

(** The state after the first [n] blocks of [m]. *)
Fixpoint hash_blocks (n : nat) (h m : list Z) : list Z :=
  match n with
  | O => h
  | S k => hash_blocks k (sha256_block h (take 64 m)) (drop 64 m)
  end.

(** FIPS 180-4, 5.1.1: a one bit, zeros up to 56 modulo 64, the bit length. *)
Definition sha256_pad (m : list Z) : list Z :=
  m ++ [0x80] ++ replicate (Z.to_nat ((55 - alen m) mod 64)) 0 ++ len_bytes (8 * alen m).

Definition sha256_spec (m : list Z) : list Z :=
  let p := sha256_pad m in digest_bytes (hash_blocks (length p / 64) H0 p).

(** Feeding a message in chunks. *)
Fixpoint updates (ctx : sha256_ctx) (chunks : list (list Z)) : option sha256_ctx :=
  match chunks with
  | [] => Some ctx
  | c :: cs => ctx' ← sha256_update ctx c; updates ctx' cs
  end.

(** The context has absorbed [m]: whole blocks are in the state, the rest is
    at the front of the buffer. *)
Record absorbed (ctx : sha256_ctx) (m : list Z) : Prop := {
  ab_buf : length (buf ctx) = 64%nat;
  ab_len : 0 <= buflen ctx < 64;
  ab_ex : exists n full, m = full ++ take (Z.to_nat (buflen ctx)) (buf ctx) /\
    length full = (64 * n)%nat /\ h_of ctx = hash_blocks n H0 full }.

Lemma hash_blocks_app n k : forall h a b,
  length a = (64 * n)%nat -> hash_blocks (n + k) h (a ++ b) = hash_blocks k (hash_blocks n h a) b.
Proof.
  induction n as [|n IH]; intros h a b Ha; simpl.
  - destruct a; [done | discriminate].
  - rewrite take_app_le, drop_app_le by lia. apply IH. rewrite length_drop. lia.
Qed.

Lemma blit_take {A} (dst src : list A) off :
  0 <= off -> (Z.to_nat off <= length dst)%nat ->
  take (Z.to_nat off + length src) (blit dst off src) = take (Z.to_nat off) dst ++ src.
Proof.
  intros H0 H. unfold blit. rewrite app_assoc. apply take_app_length'.
  rewrite length_app, length_take. lia.
Qed.

Lemma blit_length {A} (dst src : list A) off :
  0 <= off -> (Z.to_nat off + length src <= length dst)%nat -> length (blit dst off src) = length dst.
Proof. intros. unfold blit. rewrite !length_app, length_take, length_drop. lia. Qed.

(** One turn of the loop absorbs the bytes it takes, and takes at least one. *)
Lemma update_step_absorbs ctx m p ctx' p' :
  absorbed ctx m -> p <> [] -> update_step ctx p = (ctx', p') ->
  exists q, p = q ++ p' /\ q <> [] /\ absorbed ctx' (m ++ q).
Proof.
  intros [Hb Hl (n & full & Hm & Hf & Hh)] Hp E.
  unfold update_step in E. rewrite (u32_small (64 - _)) in E by lia.
  assert (Hlen : 0 < alen p) by (unfold alen; destruct p; [done | simpl; lia]).
  set (k := if alen p <? 64 - buflen ctx then u32 (alen p) else 64 - buflen ctx) in E.
  assert (Hk : 0 < k /\ k <= alen p /\ k <= 64 - buflen ctx).
  { subst k. destruct (Z.ltb_spec (alen p) (64 - buflen ctx)); [rewrite u32_small by lia|]; lia. }
  rewrite u32_small in E by lia. clearbody k.
  set (q := take (Z.to_nat k) p) in *.
  assert (Hq : length q = Z.to_nat k) by (unfold q, alen in *; rewrite length_take; lia).
  set (b' := blit (buf ctx) (buflen ctx) q) in *.
  assert (Hb' : length b' = 64%nat) by (unfold b'; rewrite blit_length by lia; done).
  assert (Ht : take (Z.to_nat (buflen ctx + k)) b' = take (Z.to_nat (buflen ctx)) (buf ctx) ++ q).
  { unfold b'. rewrite <- blit_take by lia. f_equal. lia. }
  injection E as <- <-. exists q. split; [unfold q; by rewrite take_drop|].
  split; [intros E; rewrite E in Hq; simpl in Hq; lia|].
  destruct (Z.eqb_spec (buflen ctx + k) 64) as [E64|]; (split; [done | simpl; lia | simpl]).
  - exists (n + 1)%nat, (full ++ b'). rewrite E64 in Ht.
    rewrite (take_ge b') in Ht by (rewrite Hb'; done).
    split; [rewrite Ht, take_0, app_nil_r, Hm; by rewrite app_assoc|].
    split; [rewrite length_app; lia|].
    rewrite hash_blocks_app, <- Hh by done. simpl. rewrite take_ge; [done | lia].
  - exists n, full. rewrite Ht, Hm. split; [by rewrite app_assoc|]. done.
Qed.

Lemma update_loop_absorbs fuel : forall ctx m p,
  absorbed ctx m -> (length p <= fuel)%nat ->
  exists ctx', update_loop fuel ctx p = Some ctx' /\ absorbed ctx' (m ++ p) /\ total ctx' = total ctx.
Proof.
  induction fuel as [|k IH]; intros ctx m p Ha Hf.
  - destruct p; [|simpl in Hf; lia]. exists ctx. rewrite app_nil_r. auto.
  - destruct p as [|x p]; [exists ctx; rewrite app_nil_r; auto|].
    assert (Hnil : x :: p <> []) by done.
    cbn [update_loop]. destruct (Z.eqb_spec (alen (x :: p)) 0) as [E|]; [unfold alen in E; simpl in E; lia|].
    destruct (update_step ctx (x :: p)) as [c1 p1] eqn:E.
    destruct (update_step_absorbs _ _ _ _ _ Ha Hnil E) as (q & Hq & Hne & Ha1).
    destruct (IH c1 (m ++ q) p1 Ha1) as (c2 & E2 & Ha2 & Ht2).
    + apply (f_equal length) in Hq. rewrite length_app in Hq. destruct q; [done|]. simpl in *. lia.
    + exists c2. split; [done|]. rewrite Hq, app_assoc. split; [done|].
      rewrite Ht2. unfold update_step in E. case_match; by inv E.
Qed.

Lemma update_absorbs ctx m p :
  absorbed ctx m ->
  exists ctx', sha256_update ctx p = Some ctx' /\ absorbed ctx' (m ++ p) /\
    total ctx' = u64 (total ctx + alen p).
Proof.
  intros [H1 H2 H3]. unfold sha256_update.
  destruct (update_loop_absorbs (length p)
    (mk_sha (h_of ctx) (u64 (total ctx + alen p)) (buf ctx) (buflen ctx)) m p) as (c & E & Ha & Ht).
  - by split.
  - lia.
  - by exists c.
Qed.

Lemma init_absorbs stack : length (buf stack) = 64%nat -> absorbed (sha256_init stack) [].
Proof. intros. split; [done | simpl; lia | by exists O, []]. Qed.

Lemma absorbed_mod ctx m : absorbed ctx m -> buflen ctx = alen m mod 64.
Proof.
  intros [Hb Hl (n & full & -> & Hf & _)]. unfold alen. rewrite length_app, length_take, Hb, Hf.
  apply Z.mod_unique with (Z.of_nat n); lia.
Qed.

Lemma updates_absorb chunks : forall ctx m,
  absorbed ctx m -> 0 <= total ctx -> total ctx + alen (concat chunks) < 2 ^ 64 ->
  exists ctx', updates ctx chunks = Some ctx' /\ absorbed ctx' (m ++ concat chunks) /\
    total ctx' = total ctx + alen (concat chunks).
Proof.
  induction chunks as [|c cs IH]; intros ctx m Ha H0 Hlt; simpl in *.
  - exists ctx. rewrite app_nil_r. unfold alen. simpl. split; [done|]. split; [done|lia].
  - unfold alen in *. rewrite length_app in *.
    destruct (update_absorbs ctx m c Ha) as (c1 & E1 & Ha1 & Ht1). rewrite E1. simpl.
    unfold alen in Ht1. rewrite u64_small in Ht1 by lia.
    destruct (IH c1 (m ++ c) Ha1) as (c2 & E2 & Ha2 & Ht2); [lia | lia |].
    exists c2. rewrite app_assoc. split; [done|]. split; [done | lia].
Qed.

(** The padding loop stops at the first length that is 56 modulo 64. *)
Lemma pad_loop_absorbs fuel : forall ctx m,
  absorbed ctx m -> (56 - alen m) mod 64 <= Z.of_nat fuel ->
  exists ctx', pad_loop fuel ctx = Some ctx' /\ buflen ctx' = 56 /\
    absorbed ctx' (m ++ replicate (Z.to_nat ((56 - alen m) mod 64)) 0).
Proof.
  induction fuel as [|k IH]; intros ctx m Ha Hf; cbn [pad_loop];
    pose proof (absorbed_mod _ _ Ha) as Hl; pose proof (ab_len _ _ Ha);
    destruct (Z.eqb_spec (buflen ctx) 56) as [E|E].
  1, 3: assert (Hz : (56 - alen m) mod 64 = 0)
    by (rewrite Zminus_mod, <- Hl, E; reflexivity);
    exists ctx; rewrite Hz; simpl; rewrite app_nil_r; auto.
  1: exfalso; pose proof (Z.mod_pos_bound (56 - alen m) 64); apply E; rewrite Hl; Z.div_mod_to_equations; lia.
  destruct (update_absorbs ctx m [0] Ha) as (c1 & E1 & Ha1 & _). rewrite E1. simpl.
  assert (Hz : (56 - alen m) mod 64 = 1 + (56 - alen (m ++ [0])) mod 64).
  { unfold alen in *. rewrite length_app. simpl.
    rewrite Nat2Z.inj_add. Z.div_mod_to_equations. lia. }
  destruct (IH c1 (m ++ [0]) Ha1) as (c2 & E2 & Hb & Ha2); [lia|].
  exists c2. split; [done|]. split; [done|]. rewrite Hz.
  pose proof (Z.mod_pos_bound (56 - alen (m ++ [0])) 64).
  rewrite Z2Nat.inj_add by lia. simpl. by rewrite <- app_assoc in Ha2.
Qed.

Lemma len_bytes_length b : length (len_bytes b) = 8%nat.
Proof. reflexivity. Qed.

Lemma absorbed_block ctx m tail :
  absorbed ctx m -> buflen ctx = 56 -> length tail = 8%nat ->
  sha256_block (h_of ctx) (blit (buf ctx) 56 tail) =
  hash_blocks (length (m ++ tail) / 64) H0 (m ++ tail).
Proof.
  intros [Hb _ (n & full & -> & Hf & Hh)] H56 Ht. rewrite H56.
  assert (Hl : length (take (Z.to_nat 56) (buf ctx) ++ tail) = 64%nat)
    by (rewrite length_app, length_take; lia).
  rewrite <- app_assoc, length_app, Hf, Hl.
  replace ((64 * n + 64) / 64)%nat with (n + 1)%nat
    by (rewrite Nat.mul_comm, Nat.div_add_l by lia; done).
  rewrite hash_blocks_app, <- Hh by done. cbn [hash_blocks]. rewrite take_ge by lia.
  unfold blit. rewrite (drop_ge (buf ctx)) by lia. by rewrite app_nil_r.
Qed.

(** Finalising a context that absorbed [m] yields the digest of [m]. *)
Lemma sha256_final_spec ctx m :
  absorbed ctx m -> total ctx = alen m -> alen m < 2 ^ 61 -> sha256_final ctx = Some (sha256_spec m).
Proof.
  intros Ha Ht Hlt. unfold sha256_final.
  destruct (update_absorbs ctx m [0x80] Ha) as (c1 & E1 & Ha1 & _). rewrite E1. cbn [mbind option_bind].
  assert (Hl : (56 - alen (m ++ [0x80])) mod 64 = (55 - alen m) mod 64).
  { unfold alen. rewrite length_app. simpl. f_equal. lia. }
  destruct (pad_loop_absorbs 64 c1 (m ++ [0x80]) Ha1) as (c2 & E2 & H56 & Ha2);
    [pose proof (Z.mod_pos_bound (56 - alen (m ++ [0x80])) 64); lia|].
  rewrite E2. cbn [mbind option_bind]. rewrite Hl in Ha2.
  rewrite (absorbed_block _ _ _ Ha2 H56 (len_bytes_length _)).
  unfold sha256_spec, sha256_pad. rewrite Ht, u64_small by (unfold alen in *; lia).
  rewrite <- !app_assoc, (Z.mul_comm (alen m)). done.
Qed.

Lemma crypto_sha256_eq stack m :
  length (buf stack) = 64%nat -> alen m < 2 ^ 61 -> crypto_sha256 stack m = Some (sha256_spec m).
Proof.
  intros Hb Hl. unfold crypto_sha256.
  destruct (update_absorbs (sha256_init stack) [] m) as (c & E & Ha & Ht); [by apply init_absorbs|].
  rewrite E. cbn [mbind option_bind]. apply sha256_final_spec; [done | | done].
  rewrite Ht. simpl. apply u64_small. unfold alen in *. lia.
Qed.

Lemma feed_absorbs n : forall ctx m big,
  absorbed ctx m -> total ctx = alen m -> alen m + alen big < 2 ^ 61 -> (length big <= 137 * n)%nat ->
  exists ctx', feed n ctx big = Some ctx' /\ absorbed ctx' (m ++ big) /\ total ctx' = alen (m ++ big).
Proof.
  induction n as [|n IH]; intros ctx m big Ha Ht Hl Hn.
  - destruct big; [|simpl in Hn; lia]. exists ctx. rewrite app_nil_r. auto.
  - cbn [feed]. destruct (update_absorbs ctx m (take 137 big) Ha) as (c1 & E1 & Ha1 & Ht1).
    rewrite E1. cbn [mbind option_bind].
    destruct (IH c1 (m ++ take 137 big) (drop 137 big) Ha1) as (c2 & E2 & Ha2 & Ht2).
    + rewrite Ht1, Ht. unfold alen in *. rewrite length_app, length_take, u64_small by lia. lia.
    + unfold alen in *. rewrite length_app, length_take, length_drop. lia.
    + rewrite length_drop. lia.
    + exists c2. by rewrite <- app_assoc, take_drop in Ha2, Ht2.
Qed.

Lemma streaming_agrees_ok stack : length (buf stack) = 64%nat -> streaming_agrees stack = true.
Proof.
  intros Hb. unfold streaming_agrees. rewrite crypto_sha256_eq by (done || reflexivity).
  destruct (feed_absorbs 8 (sha256_init stack) [] (replicate 1000 0x5A)) as (c & E & Ha & Ht);
    [by apply init_absorbs | done | reflexivity | rewrite length_replicate; lia |].
  rewrite E. cbn [mbind option_bind]. rewrite (sha256_final_spec c (replicate 1000 0x5A));
    [by apply bool_decide_eq_true | done | done | reflexivity].
Qed.

(** ** CRC-32 *)

(** The eight shifts one byte costs. *)
Definition crc8 (c : Z) : Z := for_ 8 0 (fun _ c => crc_bit c) c.

(** The bits of a byte, least significant first. *)
Definition byte_bits (n : nat) (b : Z) : list bool := List.map (fun i => Z.testbit b (Z.of_nat i)) (seq 0 n).

(** The shift register of IEEE 802.3 fed one message bit at a time. *)
Definition crc_serial (data : list Z) : Z :=
  Z.lxor (foldl (fun r (b : bool) => crc_bit (Z.lxor r (Z.b2z b))) 0xFFFFFFFF
            (concat (List.map (byte_bits 8) data))) 0xFFFFFFFF.

Definition byte (x : Z) : Prop := 0 <= x < 256.

(** Whatever has been built is right; the rest is unconstrained. *)
Record crypto_ok (s : crypto_state) : Prop := {
  ok_crc_len : length (crc_table s) = 256%nat;
  ok_crc : crc_table_ready s = true -> forall i, byte i -> aget 0 (crc_table s) i = crc8 i;
  ok_inv_len : length (INV_SBOX s) = 256%nat;
  ok_inv : aes_tables_ready s = true -> forall i, byte i -> aget 0 (INV_SBOX s) (aget 0 SBOX i) = i }.

Lemma land1 c : (Z.land c 1 =? 0) = negb (Z.testbit c 0).
Proof. apply (land_bit c 0). lia. Qed.

Lemma crc_bit_lxor x y : crc_bit (Z.lxor x y) = Z.lxor (crc_bit x) (crc_bit y).
Proof.
  unfold crc_bit. rewrite !land1, Z.lxor_spec, Z.shiftr_lxor.
  destruct (Z.testbit x 0), (Z.testbit y 0); simpl; apply Z.bits_inj'; intros i Hi;
    rewrite !Z.lxor_spec; btauto.
Qed.

Lemma crc_bit_double y : crc_bit (Z.shiftl y 1) = y.
Proof.
  unfold crc_bit. rewrite land1, Z.shiftl_spec_low by lia. simpl.
  rewrite Z.shiftr_shiftl_l by lia. apply Z.shiftl_0_r.
Qed.

Lemma crc8_iter c : crc8 c = Nat.iter 8 crc_bit c.
Proof. reflexivity. Qed.

Lemma iter_crc_lxor n x y :
  Nat.iter n crc_bit (Z.lxor x y) = Z.lxor (Nat.iter n crc_bit x) (Nat.iter n crc_bit y).
Proof. induction n as [|n IH]; simpl; [done|]. by rewrite IH, crc_bit_lxor. Qed.

Lemma iter_crc_shift n : forall y, Nat.iter n crc_bit (Z.shiftl y (Z.of_nat n)) = y.
Proof.
  induction n as [|n IH]; intros y; [apply Z.shiftl_0_r|].
  rewrite Nat.iter_succ_r, Nat2Z.inj_succ, <- Z.add_1_r, <- Z.shiftl_shiftl by lia.
  by rewrite crc_bit_double.
Qed.

Lemma lxor_low_high x k : 0 <= k -> x = Z.lxor (Z.land x (Z.ones k)) (Z.shiftl (Z.shiftr x k) k).
Proof.
  intros Hk. apply Z.bits_inj'. intros i Hi. rewrite Z.lxor_spec, Z.land_spec, Z.shiftl_spec by lia.
  destruct (Z.lt_ge_cases i k).
  - rewrite Z.ones_spec_low, (Z.testbit_neg_r _ (i - k)) by lia. btauto.
  - rewrite Z.ones_spec_high, Z.shiftr_spec by lia.
    replace (i - k + k) with i by lia. btauto.
Qed.

(** Eight shifts: the table entry of the low byte and the rest shifted. *)
Lemma crc8_split x : crc8 x = Z.lxor (crc8 (Z.land x 0xFF)) (Z.shiftr x 8).
Proof.
  rewrite (lxor_low_high x 8) at 1 by lia. rewrite !crc8_iter, iter_crc_lxor.
  rewrite (iter_crc_shift 8). done.
Qed.

Lemma byte_bits_S n b : byte_bits (S n) b = Z.testbit b 0 :: byte_bits n (Z.shiftr b 1).
Proof.
  unfold byte_bits. simpl. f_equal. rewrite <- seq_shift, List.map_map. apply List.map_ext. intros i.
  rewrite Z.shiftr_spec by lia. f_equal. lia.
Qed.

Lemma serial_bits n : forall r b, 0 <= b < 2 ^ Z.of_nat n ->
  foldl (fun r (b : bool) => crc_bit (Z.lxor r (Z.b2z b))) r (byte_bits n b) =
  Nat.iter n crc_bit (Z.lxor r b).
Proof.
  induction n as [|n IH]; intros r b Hb.
  - simpl in *. replace b with 0 by lia. by rewrite Z.lxor_0_r.
  - rewrite byte_bits_S, Nat.iter_succ_r. simpl.
    rewrite Nat2Z.inj_succ, Z.pow_succ_r in Hb by lia.
    rewrite IH by (rewrite Z.shiftr_div_pow2 by lia; change (2 ^ 1) with 2;
      split; [apply Z.div_pos; lia | apply Z.div_lt_upper_bound; lia]).
    f_equal. rewrite (lxor_low_high b 1) at 3 by lia.
    rewrite <- Z.lxor_assoc, !crc_bit_lxor, crc_bit_double. do 3 f_equal.
    change (Z.ones 1) with 1. change 1 with (Z.ones 1). rewrite Z.land_ones by lia.
    change (2 ^ 1) with 2. rewrite <- Z.bit0_mod. done.
Qed.

Lemma byte_land x : byte (Z.land x 0xFF).
Proof. unfold byte. change 0xFF with (Z.ones 8). rewrite Z.land_ones by lia. apply Z.mod_pos_bound. lia. Qed.

Lemma shiftr_byte b : byte b -> Z.shiftr b 8 = 0.
Proof. intros [??]. rewrite Z.shiftr_div_pow2 by lia. apply Z.div_small. lia. Qed.

(** A loop that fills slots [i .. i + n) of an array. *)
Lemma for_aset f n : forall i (t : list Z) j, 0 <= i -> i + Z.of_nat n <= alen t -> 0 <= j < alen t ->
  aget 0 (for_ n i (fun i t => aset t i (f i)) t) j =
  if (i <=? j) && (j <? i + Z.of_nat n) then f j else aget 0 t j.
Proof.
  induction n as [|n IH]; intros i t j Hi Hn Hj; cbn [for_].
  - destruct (Z.leb_spec i j), (Z.ltb_spec j (i + Z.of_nat 0)); simpl; try done; lia.
  - rewrite IH by (rewrite ?alen_aset; lia). rewrite aget_aset by lia.
    destruct (Z.leb_spec (i + 1) j), (Z.leb_spec i j), (Z.ltb_spec j (i + 1 + Z.of_nat n)),
      (Z.ltb_spec j (i + Z.of_nat (S n))), (Z.eqb_spec i j) as [->|]; simpl; try done; lia.
Qed.

Lemma for_aset_length f g n : forall i (t : list Z),
  length (for_ n i (fun i t => aset t (g i) (f i)) t) = length t.
Proof.
  induction n as [|n IH]; intros i t; cbn [for_]; [done|]. rewrite IH.
  apply Nat2Z.inj. apply (alen_aset t).
Qed.

Lemma crc_init_ok s : crypto_ok s -> crypto_ok (crc_init_table s).
Proof.
  intros [H1 H2 H3 H4]. split; try done.
  - unfold crc_init_table. cbn [crc_table]. rewrite (for_aset_length _ (fun i => i)). done.
  - intros _ i Hi. unfold crc_init_table. cbn [crc_table]. unfold byte in Hi.
    change (fun i t => aset t i (for_ 8 0 (fun _ c => crc_bit c) i)) with
      (fun i t => aset t i (crc8 i)).
    rewrite for_aset by (unfold alen; lia).
    destruct (Z.leb_spec 0 i), (Z.ltb_spec i (0 + Z.of_nat 256)); [done | lia..].
Qed.

(** One byte through the table is eight steps of the serial register. *)
Lemma crc_table_step s r b : crypto_ok s -> crc_table_ready s = true -> byte b ->
  Z.lxor (aget 0 (crc_table s) (Z.land (Z.lxor r b) 0xFF)) (Z.shiftr r 8) = crc8 (Z.lxor r b).
Proof.
  intros Hok Hr Hb. rewrite (ok_crc s) by (auto using byte_land).
  rewrite (crc8_split (Z.lxor r b)), Z.shiftr_lxor, (shiftr_byte b), Z.lxor_0_r; done.
Qed.

(** The bytes of a message through the register. *)
Definition crc_fold (r : Z) (data : list Z) : Z := foldl (fun r b => crc8 (Z.lxor r b)) r data.

Lemma crc_table_fold s data : crypto_ok s -> crc_table_ready s = true -> forall r, Forall byte data ->
  foldl (fun crc b => Z.lxor (aget 0 (crc_table s) (Z.land (Z.lxor crc b) 0xFF)) (Z.shiftr crc 8)) r data =
  crc_fold r data.
Proof.
  intros Hok Hr. induction data as [|b data IH]; intros r Hd; [done|]. inv Hd. simpl.
  rewrite IH, crc_table_step by done. done.
Qed.

Lemma crc_serial_fold data : forall r, Forall byte data ->
  foldl (fun r (b : bool) => crc_bit (Z.lxor r (Z.b2z b))) r (concat (List.map (byte_bits 8) data)) =
  crc_fold r data.
Proof.
  induction data as [|b data IH]; intros r Hd; [done|]. inv Hd. cbn [List.map concat].
  rewrite foldl_app, serial_bits by done. by rewrite IH.
Qed.

Lemma crc32_fold s data : crypto_ok s -> Forall byte data ->
  fst (crypto_crc32 s data) = Z.lxor (crc_fold 0xFFFFFFFF data) 0xFFFFFFFF /\
  crypto_ok (snd (crypto_crc32 s data)).
Proof.
  intros Hok Hd. unfold crypto_crc32. simpl.
  assert (Hok' : crypto_ok (if crc_table_ready s then s else crc_init_table s))
    by (destruct (crc_table_ready s); auto using crc_init_ok).
  split; [|done]. rewrite crc_table_fold; [done | done | | done].
  by destruct (crc_table_ready s) eqn:E.
Qed.

(** The register step is injective on 32-bit values: the polynomial's top
    coefficient records the bit shifted out. *)
Lemma crc_bit_range x : 0 <= x < 2 ^ 32 -> 0 <= crc_bit x < 2 ^ 32.
Proof.
  intros H. unfold crc_bit.
  assert (Hs : 0 <= Z.shiftr x 1 < 2 ^ 31).
  { rewrite Z.shiftr_div_pow2 by lia. change (2 ^ 1) with 2.
    split; [apply Z.div_pos; lia | apply Z.div_lt_upper_bound; lia]. }
  case_match; [lia|]. apply range_of_testbit; [lia | |].
  - apply Z.lxor_nonneg. lia.
  - intros i Hi. rewrite Z.lxor_spec, !(testbit_high _ 32) by lia. done.
Qed.

Lemma crc_bit_zero x : 0 <= x < 2 ^ 32 -> crc_bit x = 0 -> x = 0.
Proof.
  intros H E. pose proof E as E'. unfold crc_bit in E. rewrite land1 in E.
  assert (Hs : 0 <= Z.shiftr x 1 < 2 ^ 31).
  { rewrite Z.shiftr_div_pow2 by lia. change (2 ^ 1) with 2.
    split; [apply Z.div_pos; lia | apply Z.div_lt_upper_bound; lia]. }
  destruct (Z.testbit x 0) eqn:B; cbn [negb] in E.
  - apply (f_equal (fun y => Z.testbit y 31)) in E.
    rewrite Z.lxor_spec, (testbit_high (Z.shiftr x 1) 31) in E by lia. discriminate.
  - rewrite (lxor_low_high x 1), E by lia. change (Z.ones 1) with 1.
    apply Z.bits_inj'. intros i Hi. rewrite Z.lxor_0_r, Z.land_spec, Z.testbit_0_l.
    destruct (Z.eq_dec i 0) as [->|]; [by rewrite B|].
    rewrite (testbit_high 1 1) by lia. btauto.
Qed.

Lemma iter_crc_range n x : 0 <= x < 2 ^ 32 -> 0 <= Nat.iter n crc_bit x < 2 ^ 32.
Proof. intros. induction n as [|n IH]; simpl; auto using crc_bit_range. Qed.

Lemma iter_crc_inj n x y : 0 <= Z.lxor x y < 2 ^ 32 ->
  Nat.iter n crc_bit x = Nat.iter n crc_bit y -> x = y.
Proof.
  intros H E. apply Z.lxor_eq.
  assert (Hz : Nat.iter n crc_bit (Z.lxor x y) = 0) by (rewrite iter_crc_lxor, E; apply Z.lxor_nilpotent).
  clear E. induction n as [|n IH]; [done|]. simpl in Hz. apply IH.
  apply crc_bit_zero; auto using iter_crc_range.
Qed.

(** The little-endian value of a byte string. *)
Fixpoint pack (l : list Z) : Z :=
  match l with
  | [] => 0
  | b :: l => Z.lxor b (Z.shiftl (pack l) 8)
  end.

Lemma crc_fold_pack l : forall r,
  crc_fold r l = Nat.iter (8 * length l) crc_bit (Z.lxor r (pack l)).
Proof.
  induction l as [|b l IH]; intros r; [simpl; by rewrite Z.lxor_0_r|].
  change (crc_fold r (b :: l)) with (crc_fold (crc8 (Z.lxor r b)) l). rewrite IH.
  cbn [length pack]. rewrite Nat.mul_succ_r, Nat.iter_add, <- Z.lxor_assoc.
  rewrite (iter_crc_lxor 8 _ (Z.shiftl _ 8)), crc8_iter. do 2 f_equal.
  symmetry. apply (iter_crc_shift 8).
Qed.

Lemma pack_range l : Forall byte l -> 0 <= pack l < 2 ^ (8 * Z.of_nat (length l)).
Proof.
  induction 1 as [|b l Hb Hl IH]; [simpl; lia|]. cbn [pack]. unfold byte in Hb.
  assert (0 <= Z.shiftl (pack l) 8) by (apply Z.shiftl_nonneg; lia).
  apply range_of_testbit; [lia | apply Z.lxor_nonneg; lia |].
  intros i Hi. cbn [length] in Hi. rewrite Z.lxor_spec, (testbit_high b 8), Z.shiftl_spec by lia.
  by rewrite (testbit_high _ (8 * Z.of_nat (length l))) by lia.
Qed.

Lemma pack_inj x : forall y, Forall byte x -> Forall byte y -> length x = length y -> pack x = pack y -> x = y.
Proof.
  induction x as [|a x IH]; intros [|b y] Hx Hy Hl E; try done. inv Hx. inv Hy. cbn [pack] in E.
  assert (Ha : a = b).
  { apply (f_equal (fun z => Z.land z 0xFF)) in E. apply Z.bits_inj'. intros i Hi.
    apply (f_equal (fun z => Z.testbit z i)) in E.
    rewrite !Z.land_spec, !Z.lxor_spec, !Z.shiftl_spec in E by lia.
    destruct (Z.lt_ge_cases i 8).
    - change 0xFF with (Z.ones 8) in E. rewrite Z.ones_spec_low in E by lia.
      rewrite !(Z.testbit_neg_r _ (i - 8)) in E by lia. by rewrite !xorb_false_r, !andb_true_r in E.
    - unfold byte in *. rewrite !(testbit_high _ 8) by lia. done. }
  subst b. f_equal. apply IH; [done | done | simpl in Hl; lia |].
  apply (f_equal (fun z => Z.shiftr z 8)) in E.
  rewrite !Z.shiftr_lxor, !Z.shiftr_shiftl_l in E by lia. rewrite !Z.shiftl_0_r in E.
  rewrite !(shiftr_byte a) in E by done. by rewrite !Z.lxor_0_l in E.
Qed.

Lemma lxor_range n x y : 0 <= n -> 0 <= x < 2 ^ n -> 0 <= y < 2 ^ n -> 0 <= Z.lxor x y < 2 ^ n.
Proof.
  intros Hn Hx Hy. apply range_of_testbit; [done | apply Z.lxor_nonneg; lia |].
  intros i Hi. by rewrite Z.lxor_spec, !(testbit_high _ n) by lia.
Qed.

Lemma crc_fold_inj l r r' :
  0 <= Z.lxor r r' < 2 ^ 32 -> crc_fold r l = crc_fold r' l -> r = r'.
Proof.
  intros H. rewrite !crc_fold_pack. intros E. apply iter_crc_inj in E.
  - apply Z.lxor_eq. apply (f_equal (Z.lxor (Z.lxor r' (pack l)))) in E.
    rewrite Z.lxor_nilpotent in E. rewrite <- E.
    apply Z.bits_inj'. intros i Hi. rewrite !Z.lxor_spec. btauto.
  - replace (Z.lxor (Z.lxor r (pack l)) (Z.lxor r' (pack l))) with (Z.lxor r r'); [done|].
    apply Z.bits_inj'. intros i Hi. rewrite !Z.lxor_spec. btauto.
Qed.

Lemma crc_fold_range r l : 0 <= r < 2 ^ 32 -> Forall byte l -> 0 <= crc_fold r l < 2 ^ 32.
Proof.
  intros Hr Hl. revert r Hr. induction Hl as [|b l Hb Hl IH]; intros r Hr; [done|].
  apply IH. apply (iter_crc_range 8). apply lxor_range; unfold byte in Hb; lia.
Qed.

Lemma crc_fold_burst r x y :
  0 <= r < 2 ^ 32 -> Forall byte x -> Forall byte y -> length x = length y -> (length x <= 4)%nat ->
  crc_fold r x = crc_fold r y -> x = y.
Proof.
  intros Hr Hx Hy Hl H4 E. apply pack_inj; try done. rewrite !crc_fold_pack, Hl in E.
  assert (Hp : forall l, Forall byte l -> length l = length y -> 0 <= pack l < 2 ^ 32).
  { intros l Hb Hll. pose proof (pack_range l Hb). split; [lia|]. eapply Z.lt_le_trans; [apply H|].
    apply Z.pow_le_mono_r; lia. }
  apply iter_crc_inj in E; [|apply lxor_range; [lia | apply lxor_range; auto; lia..]].
  apply (f_equal (Z.lxor r)) in E. by rewrite <- !Z.lxor_assoc, Z.lxor_nilpotent, !Z.lxor_0_l in E.
Qed.

(** ** Theorems *)

(** C26: However a message of less than 2^61 bytes is cut into chunks, feeding
    the chunks to [sha256_update] from a fresh context (whose 64-byte buffer
    may hold anything) and finalising terminates and yields the FIPS 180-4
    digest of the concatenation: pad with a one bit, zeros and the bit length,
    then iterate the block function from [H0]. *)
Theorem sha256_streaming stack chunks :
  length (buf stack) = 64%nat -> alen (concat chunks) < 2 ^ 61 ->
  (ctx ← updates (sha256_init stack) chunks; sha256_final ctx) = Some (sha256_spec (concat chunks)) /\
  crypto_sha256 stack (concat chunks) = Some (sha256_spec (concat chunks)).
Proof.
  intros Hb Hl. split.
  - destruct (updates_absorb chunks (sha256_init stack) []) as (c & E & Ha & Ht);
      [by apply init_absorbs | simpl; lia | simpl; lia |].
    rewrite E. cbn [mbind option_bind]. apply sha256_final_spec; [done | simpl in Ht; lia | done].
  - by apply crypto_sha256_eq.
Qed.

Lemma sha256_streaming_witness :
  (ctx ← updates (sha256_init (mk_sha [] 0 (replicate 64 7) 0)) [chars "a"; chars "bc"]; sha256_final ctx) =
  crypto_sha256 (mk_sha [] 0 (replicate 64 7) 0) (chars "abc").
Proof.
  destruct (sha256_streaming (mk_sha [] 0 (replicate 64 7) 0) [chars "a"; chars "bc"]) as [H1 H2];
    [reflexivity | reflexivity |].
  exact (eq_trans H1 (eq_sym H2)).
Defined.

(** The table-driven [crypto_crc32] computes the bit-serial IEEE 802.3
    register on every message, whether the table was built before or is built
    by this call, and leaves the tables right; and it tells apart any two
    messages that differ only within a window of at most four bytes. *)
Theorem crypto_crc32_spec s pre x y post :
  crypto_ok s -> Forall byte (pre ++ x ++ post) -> Forall byte y ->
  length x = length y -> (length x <= 4)%nat ->
  fst (crypto_crc32 s (pre ++ x ++ post)) = crc_serial (pre ++ x ++ post) /\
  crypto_ok (snd (crypto_crc32 s (pre ++ x ++ post))) /\
  (fst (crypto_crc32 s (pre ++ x ++ post)) = fst (crypto_crc32 s (pre ++ y ++ post)) -> x = y).
Proof.
  intros Hok Hd Hy Hl H4. pose proof Hd as Hd'. rewrite !Forall_app in Hd'. destruct Hd' as (Hp & Hx & Ht).
  destruct (crc32_fold s (pre ++ x ++ post) Hok Hd) as [E Hok'].
  destruct (crc32_fold s (pre ++ y ++ post) Hok) as [E2 _]; [by rewrite !Forall_app|].
  split; [rewrite E; unfold crc_serial; by rewrite crc_serial_fold|]. split; [done|].
  rewrite E, E2. intros Heq.
  apply (f_equal (fun z => Z.lxor z 0xFFFFFFFF)) in Heq.
  rewrite !Z.lxor_assoc, Z.lxor_nilpotent, !Z.lxor_0_r in Heq.
  unfold crc_fold in Heq. rewrite !foldl_app in Heq. fold (crc_fold 0xFFFFFFFF pre) in Heq.
  assert (Hr : 0 <= crc_fold 0xFFFFFFFF pre < 2 ^ 32) by (apply crc_fold_range; [lia | done]).
  apply crc_fold_burst with (crc_fold 0xFFFFFFFF pre); try done.
  apply crc_fold_inj with post; [|done].
  apply lxor_range; [lia | by apply crc_fold_range..].
Qed.

Lemma crypto_boot_ok : crypto_ok crypto_boot.
Proof. by split. Qed.

Lemma crypto_crc32_spec_witness :
  let m := chars "123" ++ chars "45" ++ chars "6789" in
  fst (crypto_crc32 crypto_boot m) = crc_serial m.
Proof.
  assert (Hd : Forall byte (chars "123" ++ chars "45" ++ chars "6789"))
    by (repeat constructor; vm_compute; intuition discriminate).
  assert (Hy : Forall byte (chars "54")) by (repeat constructor; vm_compute; intuition discriminate).
  destruct (crypto_crc32_spec crypto_boot (chars "123") (chars "45") (chars "54") (chars "6789")
    crypto_boot_ok Hd Hy eq_refl ltac:(simpl; lia)) as [H _].
  exact H.
Defined.
