(* ===== verification/AesSpec.v ===== *)
(** * AES-128 of crypto/crypto.c is a permutation

    Each layer of the cipher (byte substitution, row shift, column mixing, key
    addition) is shown to invert its counterpart, then the rounds compose.
    GF(2^8) multiplication is linear in its first argument, which reduces the
    column-mixing inverse to identities on one byte, checked on all 256. *)
From Stdlib Require Import String Ascii Btauto.
From S2P Require Import Prelude Crypto CryptoSpec.
#[local] Open Scope Z_scope.
#[local] Open Scope list_scope.

Lemma lxor_swap a b c d : Z.lxor (Z.lxor a b) (Z.lxor c d) = Z.lxor (Z.lxor a c) (Z.lxor b d).
Proof. apply Z.bits_inj'. intros i Hi. rewrite !Z.lxor_spec. btauto. Qed.

(** ** Additive functions of a byte are determined on the eight powers of two *)

Definition additive (f : Z -> Z) : Prop := forall x y, f (Z.lxor x y) = Z.lxor (f x) (f y).

Lemma additive_0 f : additive f -> f 0 = 0.
Proof. intros H. rewrite <- (Z.lxor_0_r 0) at 1. by rewrite H, Z.lxor_nilpotent. Qed.

Lemma clear_top_bit n x : 0 <= n -> 0 <= x < 2 ^ Z.succ n -> Z.testbit x n = true ->
  0 <= Z.lxor x (2 ^ n) < 2 ^ n.
Proof.
  intros Hn Hx Hb. assert (0 < 2 ^ n) by (apply Z.pow_pos_nonneg; lia).
  apply range_of_testbit; [done | apply Z.lxor_nonneg; lia |].
  intros i Hi. rewrite Z.lxor_spec, Z.pow2_bits_eqb by lia.
  destruct (Z.eqb_spec n i) as [->|]; [by rewrite Hb|].
  rewrite (testbit_high x (Z.succ n)) by lia. done.
Qed.

Lemma additive_ext f g n : additive f -> additive g ->
  (forall i, 0 <= i < Z.of_nat n -> f (2 ^ i) = g (2 ^ i)) -> forall x, 0 <= x < 2 ^ Z.of_nat n -> f x = g x.
Proof.
  intros Hf Hg. induction n as [|n IH]; intros H x Hx.
  - simpl in Hx. replace x with 0 by lia. by rewrite !additive_0.
  - rewrite Nat2Z.inj_succ in *. destruct (Z.testbit x (Z.of_nat n)) eqn:E.
    + replace x with (Z.lxor (Z.lxor x (2 ^ Z.of_nat n)) (2 ^ Z.of_nat n))
        by (by rewrite Z.lxor_assoc, Z.lxor_nilpotent, Z.lxor_0_r).
      rewrite Hf, Hg, (H (Z.of_nat n)) by lia. f_equal. apply IH; [intros; apply H; lia|].
      apply clear_top_bit; [lia | done | done].
    + apply IH; [intros; apply H; lia|]. apply range_of_testbit; [lia | lia |].
      intros i Hi. destruct (Z.eq_dec i (Z.of_nat n)) as [->|]; [done|].
      apply (testbit_high x (Z.succ (Z.of_nat n))); lia.
Qed.

Lemma additive_byte f g : additive f -> additive g ->
  forallb (fun x => f x =? g x) [1; 2; 4; 8; 16; 32; 64; 128] = true -> forall x, byte x -> f x = g x.
Proof.
  intros Hf Hg H x Hx. apply (additive_ext f g 8); try done. intros i Hi.
  rewrite forallb_forall in H. apply Z.eqb_eq, H.
  assert (i = 0 \/ i = 1 \/ i = 2 \/ i = 3 \/ i = 4 \/ i = 5 \/ i = 6 \/ i = 7) as Hc by lia.
  repeat destruct Hc as [->|Hc]; subst; simpl; tauto.
Qed.

(** ** GF(2^8) *)

Lemma xtime_lxor a b : xtime (Z.lxor a b) = Z.lxor (xtime a) (xtime b).
Proof.
  unfold xtime. change 0x80 with (Z.shiftl 1 7). rewrite !land_bit, Z.lxor_spec, Z.shiftl_lxor by lia.
  apply Z.bits_inj'. intros i Hi. unfold u8. destruct (Z.lt_ge_cases i 8).
  - rewrite Z.lxor_spec, !Z.mod_pow2_bits_low, !Z.lxor_spec by lia.
    destruct (Z.testbit a 7), (Z.testbit b 7); simpl; rewrite ?Z.testbit_0_l; btauto.
  - rewrite Z.lxor_spec, !Z.mod_pow2_bits_high by lia. done.
Qed.

Lemma gmul_loop_lxor n : forall r r' a a' b x x',
  gmul_loop n r a b = Some x -> gmul_loop n r' a' b = Some x' ->
  gmul_loop n (Z.lxor r r') (Z.lxor a a') b = Some (Z.lxor x x').
Proof.
  induction n as [|n IH]; intros r r' a a' b x x' E E'; cbn [gmul_loop] in *;
    destruct (b =? 0); try discriminate; simplify_eq; [done | done |].
  rewrite xtime_lxor. destruct (Z.land b 1 =? 0); [by apply IH|].
  rewrite lxor_swap. by apply IH.
Qed.

(** Eight turns are enough for a byte multiplier. *)
Lemma gmul_loop_total n : forall r a b, 0 <= b < 2 ^ Z.of_nat n -> exists x, gmul_loop n r a b = Some x.
Proof.
  induction n as [|n IH]; intros r a b Hb; cbn [gmul_loop].
  - simpl in Hb. replace b with 0 by lia. eauto.
  - destruct (Z.eqb_spec b 0); [eauto|]. apply IH.
    rewrite Nat2Z.inj_succ, Z.pow_succ_r, Z.shiftr_div_pow2 in * by lia. change (2 ^ 1) with 2.
    split; [apply Z.div_pos; lia | apply Z.div_lt_upper_bound; lia].
Qed.

Lemma gmul_lxor a a' k : byte k -> gmul (Z.lxor a a') k = Z.lxor (gmul a k) (gmul a' k).
Proof.
  intros Hk. unfold gmul.
  destruct (gmul_loop_total 8 0 a k Hk) as [x E]. destruct (gmul_loop_total 8 0 a' k Hk) as [x' E'].
  pose proof (gmul_loop_lxor 8 0 0 a a' k x x' E E') as E2. rewrite Z.lxor_0_l in E2.
  by rewrite E, E', E2.
Qed.

Lemma gmul_byte_loop n : forall r a b x, byte r -> byte a -> gmul_loop n r a b = Some x -> byte x.
Proof.
  induction n as [|n IH]; intros r a b x Hr Ha E; cbn [gmul_loop] in E; destruct (b =? 0); simplify_eq; try done.
  eapply IH; [| |apply E].
  - destruct (_ =? 0); [done|]. by apply (lxor_range 8).
  - apply (u8_range).
Qed.

Lemma gmul_byte a k : byte a -> byte k -> byte (gmul a k).
Proof.
  intros Ha Hk. unfold gmul. destruct (gmul_loop_total 8 0 a k Hk) as [x E]. rewrite E.
  eapply gmul_byte_loop; [| |apply E]; [unfold byte; lia | done].
Qed.

Lemma lxor_byte x y : byte x -> byte y -> byte (Z.lxor x y).
Proof. apply (lxor_range 8). lia. Qed.
Lemma u8_byte x : byte (u8 x).
Proof. apply u8_range. Qed.

#[local] Hint Resolve gmul_byte lxor_byte u8_byte : gnos.
#[local] Hint Extern 1 (byte _) => (unfold byte; lia) : gnos.

(** ** Column mixing *)

(** Multiplying a byte by a row of [m] and then by [k]: the coefficient that
    input contributes to an output of the composed matrices. *)
Definition comb (f g h e : Z) (k0 k1 k2 k3 : Z) : Z :=
  Z.lxor (Z.lxor (Z.lxor (gmul f k0) (gmul g k1)) (gmul h k2)) (gmul e k3).

Lemma comb_add f g h e f' g' h' e' k0 k1 k2 k3 : byte k0 -> byte k1 -> byte k2 -> byte k3 ->
  comb (Z.lxor f f') (Z.lxor g g') (Z.lxor h h') (Z.lxor e e') k0 k1 k2 k3 =
  Z.lxor (comb f g h e k0 k1 k2 k3) (comb f' g' h' e' k0 k1 k2 k3).
Proof.
  intros. unfold comb. rewrite !gmul_lxor by done.
  by rewrite (lxor_swap (gmul f k0)), (lxor_swap (Z.lxor _ (gmul g k1))), (lxor_swap (Z.lxor _ (gmul h k2))).
Qed.

Lemma gmul_1 a : gmul a 1 = a.
Proof. unfold gmul. simpl. apply Z.lxor_0_l. Qed.

Lemma comb_additive f g h e k0 k1 k2 k3 :
  additive f -> additive g -> additive h -> additive e -> byte k0 -> byte k1 -> byte k2 -> byte k3 ->
  additive (fun a => comb (f a) (g a) (h a) (e a) k0 k1 k2 k3).
Proof.
  intros Hf Hg Hh He ? ? ? ? x y. rewrite Hf, Hg, Hh, He. by apply comb_add.
Qed.
Lemma gmul_additive k : byte k -> additive (fun a => gmul a k).
Proof. intros Hk x y. by apply gmul_lxor. Qed.
Lemma id_additive : additive (fun a => a).
Proof. done. Qed.
Lemma zero_additive : additive (fun _ => 0).
Proof. done. Qed.

(** Decide an identity between additive functions of the byte [a]. *)
Ltac by_basis :=
  match goal with H : byte ?a |- _ => revert a H end;
  refine (additive_byte _ _ _ _ _);
  [apply comb_additive; solve [apply gmul_additive; unfold byte; lia | apply id_additive | unfold byte; lia]
  | solve [apply id_additive | apply zero_additive]
  | vm_compute; reflexivity].

(** The sixteen coefficients of InvMixColumns after MixColumns form the
    identity matrix, and so do those of MixColumns after InvMixColumns. *)
Lemma inv_mix_coeff a : byte a ->
  (comb (gmul a 2) a a (gmul a 3) 14 11 13 9 = a /\ comb (gmul a 2) a a (gmul a 3) 9 14 11 13 = 0 /\
   comb (gmul a 2) a a (gmul a 3) 13 9 14 11 = 0 /\ comb (gmul a 2) a a (gmul a 3) 11 13 9 14 = 0) /\
  (comb (gmul a 3) (gmul a 2) a a 14 11 13 9 = 0 /\ comb (gmul a 3) (gmul a 2) a a 9 14 11 13 = a /\
   comb (gmul a 3) (gmul a 2) a a 13 9 14 11 = 0 /\ comb (gmul a 3) (gmul a 2) a a 11 13 9 14 = 0) /\
  (comb a (gmul a 3) (gmul a 2) a 14 11 13 9 = 0 /\ comb a (gmul a 3) (gmul a 2) a 9 14 11 13 = 0 /\
   comb a (gmul a 3) (gmul a 2) a 13 9 14 11 = a /\ comb a (gmul a 3) (gmul a 2) a 11 13 9 14 = 0) /\
  (comb a a (gmul a 3) (gmul a 2) 14 11 13 9 = 0 /\ comb a a (gmul a 3) (gmul a 2) 9 14 11 13 = 0 /\
   comb a a (gmul a 3) (gmul a 2) 13 9 14 11 = 0 /\ comb a a (gmul a 3) (gmul a 2) 11 13 9 14 = a).
Proof. intros H. repeat split; by_basis. Qed.

Lemma mix_inv_coeff a : byte a ->
  let p k := gmul a k in
  (comb (p 14) (p 9) (p 13) (p 11) 2 3 1 1 = a /\ comb (p 14) (p 9) (p 13) (p 11) 1 2 3 1 = 0 /\
   comb (p 14) (p 9) (p 13) (p 11) 1 1 2 3 = 0 /\ comb (p 14) (p 9) (p 13) (p 11) 3 1 1 2 = 0) /\
  (comb (p 11) (p 14) (p 9) (p 13) 2 3 1 1 = 0 /\ comb (p 11) (p 14) (p 9) (p 13) 1 2 3 1 = a /\
   comb (p 11) (p 14) (p 9) (p 13) 1 1 2 3 = 0 /\ comb (p 11) (p 14) (p 9) (p 13) 3 1 1 2 = 0) /\
  (comb (p 13) (p 11) (p 14) (p 9) 2 3 1 1 = 0 /\ comb (p 13) (p 11) (p 14) (p 9) 1 2 3 1 = 0 /\
   comb (p 13) (p 11) (p 14) (p 9) 1 1 2 3 = a /\ comb (p 13) (p 11) (p 14) (p 9) 3 1 1 2 = 0) /\
  (comb (p 9) (p 13) (p 11) (p 14) 2 3 1 1 = 0 /\ comb (p 9) (p 13) (p 11) (p 14) 1 2 3 1 = 0 /\
   comb (p 9) (p 13) (p 11) (p 14) 1 1 2 3 = 0 /\ comb (p 9) (p 13) (p 11) (p 14) 3 1 1 2 = a).
Proof. intros H p. unfold p. clear p. repeat split; by_basis. Qed.

(** One column of each transformation. *)
Definition mix_col (a0 a1 a2 a3 : Z) : list Z :=
  [Z.lxor (Z.lxor (Z.lxor (gmul a0 2) (gmul a1 3)) a2) a3;
   Z.lxor (Z.lxor (Z.lxor a0 (gmul a1 2)) (gmul a2 3)) a3;
   Z.lxor (Z.lxor (Z.lxor a0 a1) (gmul a2 2)) (gmul a3 3);
   Z.lxor (Z.lxor (Z.lxor (gmul a0 3) a1) a2) (gmul a3 2)].

Definition inv_mix_col (a0 a1 a2 a3 : Z) : list Z :=
  [comb a0 a1 a2 a3 14 11 13 9; comb a0 a1 a2 a3 9 14 11 13;
   comb a0 a1 a2 a3 13 9 14 11; comb a0 a1 a2 a3 11 13 9 14].

Definition on_columns (f : Z -> Z -> Z -> Z -> list Z) (st : list Z) : list Z :=
  let g i := f (aget 0 st i) (aget 0 st (i + 1)) (aget 0 st (i + 2)) (aget 0 st (i + 3)) in
  g 0 ++ g 4 ++ g 8 ++ g 12.

(** [g] undoes [f] on every column of bytes. *)
Definition col_inverse (f g : Z -> Z -> Z -> Z -> list Z) : Prop :=
  forall a0 a1 a2 a3, byte a0 -> byte a1 -> byte a2 -> byte a3 ->
  exists b0 b1 b2 b3, f a0 a1 a2 a3 = [b0; b1; b2; b3] /\ Forall byte [b0; b1; b2; b3] /\
    g b0 b1 b2 b3 = [a0; a1; a2; a3].

Ltac bytes_list := repeat first [apply Forall_nil_2 | apply Forall_cons_2]; auto 10 with gnos.

Lemma inv_mix_col_mix : col_inverse mix_col inv_mix_col.
Proof.
  intros a0 a1 a2 a3 H0 H1 H2 H3. do 4 eexists. split; [reflexivity|]. split; [bytes_list|].
  unfold inv_mix_col. rewrite !comb_add by (unfold byte; lia).
  apply inv_mix_coeff in H0, H1, H2, H3.
  destruct H0 as [(-> & -> & -> & ->) _]. destruct H1 as [_ [(-> & -> & -> & ->) _]].
  destruct H2 as [_ [_ [(-> & -> & -> & ->) _]]]. destruct H3 as [_ [_ [_ (-> & -> & -> & ->)]]].
  by rewrite !Z.lxor_0_l, !Z.lxor_0_r.
Qed.

Lemma mix_col_comb a0 a1 a2 a3 :
  mix_col a0 a1 a2 a3 = [comb a0 a1 a2 a3 2 3 1 1; comb a0 a1 a2 a3 1 2 3 1;
                         comb a0 a1 a2 a3 1 1 2 3; comb a0 a1 a2 a3 3 1 1 2].
Proof. unfold mix_col, comb. by rewrite !gmul_1. Qed.

Lemma mix_col_inv_mix : col_inverse inv_mix_col mix_col.
Proof.
  intros a0 a1 a2 a3 H0 H1 H2 H3. unfold inv_mix_col. unfold comb. do 4 eexists. split; [reflexivity|].
  split; [bytes_list|]. rewrite mix_col_comb.
  rewrite !comb_add by (unfold byte; lia).
  apply mix_inv_coeff in H0, H1, H2, H3.
  destruct H0 as [(-> & -> & -> & ->) _]. destruct H1 as [_ [(-> & -> & -> & ->) _]].
  destruct H2 as [_ [_ [(-> & -> & -> & ->) _]]]. destruct H3 as [_ [_ [_ (-> & -> & -> & ->)]]].
  by rewrite !Z.lxor_0_l, !Z.lxor_0_r.
Qed.

(** ** The sixteen-byte state *)

Definition valid (st : list Z) : Prop := length st = 16%nat /\ Forall byte st.

Lemma valid_16 (P : list Z -> Prop) :
  (forall a0 a1 a2 a3 a4 a5 a6 a7 a8 a9 a10 a11 a12 a13 a14 a15,
     Forall byte [a0; a1; a2; a3; a4; a5; a6; a7; a8; a9; a10; a11; a12; a13; a14; a15] ->
     P [a0; a1; a2; a3; a4; a5; a6; a7; a8; a9; a10; a11; a12; a13; a14; a15]) ->
  forall st, valid st -> P st.
Proof.
  intros H st [Hl Hb].
  do 16 (destruct st as [|? st]; [discriminate|]). destruct st; [|discriminate]. by apply H.
Qed.

Ltac state16 st := intros H; revert st H; apply valid_16;
  intros a0 a1 a2 a3 a4 a5 a6 a7 a8 a9 a10 a11 a12 a13 a14 a15 Hb.

#[local] Opaque gmul Z.lxor u8 Z.shiftr.

Lemma mix_columns_eq st : valid st -> aes_mix_columns st = on_columns mix_col st.
Proof. state16 st. reflexivity. Qed.
Lemma inv_mix_columns_eq st : valid st -> aes_inv_mix_columns st = on_columns inv_mix_col st.
Proof. state16 st. reflexivity. Qed.
Lemma sub_bytes_eq t st : valid st -> sub_bytes t st = List.map (aget 0 t) st.
Proof. state16 st. reflexivity. Qed.
Lemma shift_inv_shift st : valid st -> inv_shift_rows (shift_rows st) = st /\ shift_rows (inv_shift_rows st) = st.
Proof. state16 st. split; reflexivity. Qed.

Ltac bytes_split := repeat match goal with H : Forall byte (_ :: _) |- _ => inversion H; clear H; subst end.
Ltac bytes_done := split; [reflexivity | bytes_list].

Lemma shift_valid st : valid st -> valid (shift_rows st) /\ valid (inv_shift_rows st).
Proof. state16 st. bytes_split. split; bytes_done. Qed.

Lemma columns_inverse f g st : col_inverse f g -> valid st ->
  on_columns g (on_columns f st) = st /\ valid (on_columns f st).
Proof.
  intros Hi. state16 st. bytes_split. unfold on_columns. cbn [aget].
  destruct (Hi a0 a1 a2 a3) as (b0 & b1 & b2 & b3 & E0 & B0 & I0); [done..|].
  destruct (Hi a4 a5 a6 a7) as (b4 & b5 & b6 & b7 & E1 & B1 & I1); [done..|].
  destruct (Hi a8 a9 a10 a11) as (b8 & b9 & b10 & b11 & E2 & B2 & I2); [done..|].
  destruct (Hi a12 a13 a14 a15) as (b12 & b13 & b14 & b15 & E3 & B3 & I3); [done..|].
  unfold aget. simpl. rewrite E0, E1, E2, E3. simpl. rewrite I0, I1, I2, I3.
  split; [done|]. split; [done|]. bytes_split. bytes_list.
Qed.

Lemma mix_inverse st : valid st ->
  aes_inv_mix_columns (aes_mix_columns st) = st /\ valid (aes_mix_columns st).
Proof.
  intros H. rewrite mix_columns_eq by done.
  destruct (columns_inverse _ _ st inv_mix_col_mix H) as [E V]. by rewrite inv_mix_columns_eq.
Qed.

Lemma inv_mix_inverse st : valid st ->
  aes_mix_columns (aes_inv_mix_columns st) = st /\ valid (aes_inv_mix_columns st).
Proof.
  intros H. rewrite inv_mix_columns_eq by done.
  destruct (columns_inverse _ _ st mix_col_inv_mix H) as [E V]. by rewrite mix_columns_eq.
Qed.

(** The sixteen key bytes a round adds. *)
Definition key_bytes (rk : list Z) (off : Z) : list Z :=
  let w i := let k := aget 0 rk (off + i) in [u8 (Z.shiftr k 24); u8 (Z.shiftr k 16); u8 (Z.shiftr k 8); u8 k] in
  w 0 ++ w 1 ++ w 2 ++ w 3.

Lemma add_round_key_eq st rk off : valid st ->
  aes_add_round_key st rk off = zip_with Z.lxor st (key_bytes rk off).
Proof. state16 st. reflexivity. Qed.

Lemma key_bytes_ok rk off : valid (key_bytes rk off).
Proof. unfold key_bytes. bytes_done. Qed.

Lemma zip_lxor_valid st : forall k, valid st -> valid k -> valid (zip_with Z.lxor st k).
Proof.
  intros k [Hl Hb] [Kl Kb]. split; [rewrite length_zip_with; lia|].
  clear Hl Kl. revert k Kb. induction Hb as [|x l Hx Hl IH]; intros [|y k] Kb; simpl; [constructor..|].
  inv Kb. apply Forall_cons_2; auto with gnos.
Qed.

Lemma zip_lxor_twice st : forall k, length st = length k -> zip_with Z.lxor (zip_with Z.lxor st k) k = st.
Proof.
  induction st as [|x l IH]; intros [|y k] H; simpl; try done.
  rewrite Z.lxor_assoc, Z.lxor_nilpotent, Z.lxor_0_r, IH by (simpl in H; lia). done.
Qed.

Lemma ark_inverse st rk off : valid st ->
  aes_add_round_key (aes_add_round_key st rk off) rk off = st /\ valid (aes_add_round_key st rk off).
Proof.
  intros V. pose proof (key_bytes_ok rk off) as K. rewrite (add_round_key_eq st) by done.
  pose proof (zip_lxor_valid _ _ V K) as V2. split; [|done].
  rewrite add_round_key_eq by done. apply zip_lxor_twice. by rewrite (proj1 V), (proj1 K).
Qed.

(** ** The S-box and its inverse table *)

Definition all_bytes : list Z := List.map Z.of_nat (seq 0 256).

Lemma byte_in x : byte x -> In x all_bytes.
Proof.
  intros Hx. apply in_map_iff. exists (Z.to_nat x). unfold byte in Hx. split; [lia|].
  apply in_seq. lia.
Qed.

Lemma sbox_byte i : byte i -> byte (aget 0 SBOX i).
Proof.
  intros Hi. unfold byte in Hi. unfold aget. destruct (Z.ltb_spec i 0); [lia|].
  assert (HB : Forall byte SBOX).
  { apply Forall_forall. intros x Hx.
    assert (E : forallb (fun x => (0 <=? x) && (x <? 256)) SBOX = true) by (vm_compute; reflexivity).
    rewrite forallb_forall in E. apply list_elem_of_In, E in Hx. unfold byte. lia. }
  apply (proj1 (List.Forall_nth byte SBOX) HB). change (length SBOX) with 256%nat. lia.
Qed.

Lemma sbox_inj i j : byte i -> byte j -> aget 0 SBOX i = aget 0 SBOX j -> i = j.
Proof.
  unfold byte, aget. intros Hi Hj. destruct (Z.ltb_spec i 0), (Z.ltb_spec j 0); try lia.
  assert (HN : NoDup SBOX) by (apply (bool_decide_eq_true (NoDup SBOX)); vm_compute; reflexivity).
  rewrite !nth_lookup. intros E.
  destruct (lookup_lt_is_Some_2 SBOX (Z.to_nat i)) as [x Ex]; [change (length SBOX) with 256%nat; lia|].
  destruct (lookup_lt_is_Some_2 SBOX (Z.to_nat j)) as [y Ey]; [change (length SBOX) with 256%nat; lia|].
  rewrite Ex, Ey in E. simpl in E. subst y.
  pose proof (NoDup_lookup _ _ _ _ HN Ex Ey). lia.
Qed.

Lemma sbox_surj x : byte x -> exists i, byte i /\ aget 0 SBOX i = x.
Proof.
  intros Hx. assert (E : forallb (fun x => existsb (fun i => (x =? i)) SBOX) all_bytes = true)
    by (vm_compute; reflexivity).
  rewrite forallb_forall in E. specialize (E x (byte_in x Hx)). apply existsb_exists in E as (y & Hy & Eq).
  apply Z.eqb_eq in Eq. subst y. apply (In_nth _ _ 0) in Hy as (n & Hn & <-).
  change (length SBOX) with 256%nat in Hn. exists (Z.of_nat n). unfold byte, aget.
  destruct (Z.ltb_spec (Z.of_nat n) 0); [lia|]. rewrite Nat2Z.id. split; [lia | done].
Qed.

(** A loop that writes distinct slots [g i] keeps the slots it does not name
    and fills those it does. *)
Lemma for_aset_other f g n : forall i (t : list Z) k,
  (forall j, i <= j < i + Z.of_nat n -> g j <> k) ->
  aget 0 (for_ n i (fun i t => aset t (g i) (f i)) t) k = aget 0 t k.
Proof.
  induction n as [|n IH]; intros i t k H; cbn [for_]; [done|].
  rewrite IH by (intros j Hj; apply H; lia). apply aget_aset_ne. apply H. lia.
Qed.

Lemma for_aset_inj f g n : forall i (t : list Z) j,
  (forall a, i <= a < i + Z.of_nat n -> 0 <= g a < alen t) ->
  (forall a b, i <= a < i + Z.of_nat n -> i <= b < i + Z.of_nat n -> g a = g b -> a = b) ->
  i <= j < i + Z.of_nat n -> aget 0 (for_ n i (fun i t => aset t (g i) (f i)) t) (g j) = f j.
Proof.
  induction n as [|n IH]; intros i t j Hr Hi Hj; [lia|]. cbn [for_].
  destruct (Z.eq_dec i j) as [->|].
  - rewrite for_aset_other, aget_aset_eq; [done | apply Hr; lia |].
    intros k Hk E. apply Hi in E; lia.
  - apply IH; [| |lia].
    + intros a Ha. rewrite alen_aset. apply Hr. lia.
    + intros a b Ha Hb. apply Hi; lia.
Qed.

Lemma aes_init_ok s : crypto_ok s -> crypto_ok (aes_init_tables s).
Proof.
  intros [H1 H2 H3 H4]. split; try done; unfold aes_init_tables; cbn [INV_SBOX].
  - by rewrite for_aset_length.
  - intros _ i Hi. rewrite for_aset_inj.
    + by apply u8_small.
    + intros a Ha. unfold alen. rewrite H3. apply sbox_byte. unfold byte. lia.
    + intros a b Ha Hb. apply sbox_inj; unfold byte; lia.
    + unfold byte in Hi. lia.
Qed.

Lemma inv_sbox_ok s x : crypto_ok s -> aes_tables_ready s = true -> byte x ->
  byte (aget 0 (INV_SBOX s) x) /\ aget 0 SBOX (aget 0 (INV_SBOX s) x) = x.
Proof.
  intros Hok Hr Hx. destruct (sbox_surj x Hx) as (i & Hi & <-). by rewrite (ok_inv s).
Qed.

Lemma map_valid f st : (forall x, byte x -> byte (f x)) -> valid st -> valid (List.map f st).
Proof.
  intros Hf [Hl Hb]. split; [by rewrite List.length_map|]. clear Hl.
  induction Hb; simpl; [constructor|]. apply Forall_cons_2; auto.
Qed.

Lemma map_inverse (f g : Z -> Z) st : (forall x, byte x -> g (f x) = x) -> Forall byte st ->
  List.map g (List.map f st) = st.
Proof. intros Hf Hb. induction Hb; simpl; [done|]. rewrite Hf by done. congruence. Qed.

Lemma sub_inverse s st : crypto_ok s -> aes_tables_ready s = true -> valid st ->
  (sub_bytes (INV_SBOX s) (sub_bytes SBOX st) = st /\ valid (sub_bytes SBOX st)) /\
  (sub_bytes SBOX (sub_bytes (INV_SBOX s) st) = st /\ valid (sub_bytes (INV_SBOX s) st)).
Proof.
  intros Hok Hr V.
  assert (V1 : valid (List.map (aget 0 SBOX) st)) by (apply map_valid; auto using sbox_byte).
  assert (V2 : valid (List.map (aget 0 (INV_SBOX s)) st))
    by (apply map_valid; [intros x Hx; by apply (inv_sbox_ok s x) | done]).
  rewrite !(sub_bytes_eq _ st) by done. rewrite !sub_bytes_eq by done.
  split; (split; [|done]); apply map_inverse; try apply V.
  - intros x Hx. by apply (ok_inv s).
  - intros x Hx. by apply (inv_sbox_ok s x).
Qed.

(** ** Rounds *)

#[local] Opaque aes_add_round_key aes_mix_columns aes_inv_mix_columns sub_bytes shift_rows inv_shift_rows.

Lemma for_snoc {A} n (f : Z -> A -> A) : forall i s, for_ (S n) i f s = f (i + Z.of_nat n) (for_ n i f s).
Proof.
  induction n as [|n IH]; intros i s; [simpl; by rewrite Z.add_0_r|].
  change (for_ (S (S n)) i f s) with (for_ (S n) (i + 1) f (f i s)). rewrite IH. cbn [for_].
  f_equal. lia.
Qed.

Lemma for_shift {A} n (f g : Z -> A -> A) : (forall j s, f (j + 1) s = g j s) ->
  forall i s, for_ n (i + 1) f s = for_ n i g s.
Proof. intros H. induction n as [|n IH]; intros i s; cbn [for_]; [done|]. by rewrite H, IH. Qed.

Lemma for_ext {A} n (f g : Z -> A -> A) : (forall j s, f j s = g j s) -> forall i s, for_ n i f s = for_ n i g s.
Proof. intros H. induction n as [|n IH]; intros i s; cbn [for_]; [done|]. by rewrite H, IH. Qed.

(** A cipher built from key-independent layers [SS], [IS] and keyed rounds
    [E], [D]: if one layer and one round invert, the middle rounds do, the
    round counters running in opposite directions. *)
Section Composition.
  Context {A : Type} (ok : A -> Prop) (SS IS : A -> A) (E D : Z -> A -> A).
  Hypothesis round_inverse : forall off st, ok st ->
    (D off (SS (E off st)) = SS st /\ ok (E off st)) /\ (E off (IS (D off st)) = IS st /\ ok (D off st)).

Definition enc_rounds (n : nat) (i : Z) (st : A) : A := for_ n i (fun r st => E (r * 4) st) st.
Definition dec_rounds (n : nat) (i : Z) (st : A) : A :=
  for_ n 0 (fun k st => D ((i + Z.of_nat n - 1 - k) * 4) st) st.

Lemma enc_snoc n i st : enc_rounds (S n) i st = E ((i + Z.of_nat n) * 4) (enc_rounds n i st).
Proof. exact (for_snoc n (fun r st => E (r * 4) st) i st). Qed.
Lemma dec_cons n i st : dec_rounds (S n) i st = dec_rounds n i (D ((i + Z.of_nat n) * 4) st).
Proof.
  unfold dec_rounds. cbn [for_]. replace (i + Z.of_nat (S n) - 1 - 0) with (i + Z.of_nat n) by lia.
  apply for_shift. intros j s'.
  by replace (i + Z.of_nat (S n) - 1 - (j + 1)) with (i + Z.of_nat n - 1 - j) by lia.
Qed.
Lemma dec_snoc n i st : dec_rounds (S n) i st = D (i * 4) (dec_rounds n (i + 1) st).
Proof.
  unfold dec_rounds. rewrite for_snoc.
  replace (i + Z.of_nat (S n) - 1 - (0 + Z.of_nat n)) with i by lia. f_equal.
  apply for_ext. intros j s'.
  by replace (i + Z.of_nat (S n) - 1 - j) with (i + 1 + Z.of_nat n - 1 - j) by lia.
Qed.

Lemma middle_decrypts n i st : ok st ->
  ok (enc_rounds n i st) /\ dec_rounds n i (SS (enc_rounds n i st)) = SS st.
Proof.
  intros V. induction n as [|n [IHv IH]]; [done|]. rewrite enc_snoc, dec_cons.
  destruct (round_inverse ((i + Z.of_nat n) * 4) _ IHv) as [[-> Ve] _]. by split.
Qed.

Lemma middle_encrypts n : forall i st, ok st ->
  ok (dec_rounds n i st) /\ enc_rounds n i (IS (dec_rounds n i st)) = IS st.
Proof.
  induction n as [|n IH]; intros i st V; [done|]. rewrite dec_snoc.
  destruct (IH (i + 1) st V) as [Vd Ed].
  destruct (round_inverse (i * 4) _ Vd) as [_ [Ee Ve]]. split; [done|].
  change (enc_rounds (S n) i ?x) with (enc_rounds n (i + 1) (E (i * 4) x)).
  by rewrite Ee.
Qed.
End Composition.

Definition sub_shift (st : list Z) : list Z := shift_rows (sub_bytes SBOX st).
Definition inv_sub_shift (s : crypto_state) (st : list Z) : list Z :=
  sub_bytes (INV_SBOX s) (inv_shift_rows st).
Definition enc_round (rk : list Z) (off : Z) (st : list Z) : list Z :=
  aes_add_round_key (aes_mix_columns (sub_shift st)) rk off.
Definition dec_round (s : crypto_state) (rk : list Z) (off : Z) (st : list Z) : list Z :=
  aes_inv_mix_columns (aes_add_round_key (inv_sub_shift s st) rk off).

Lemma sub_shift_inverse s st : crypto_ok s -> aes_tables_ready s = true -> valid st ->
  (inv_sub_shift s (sub_shift st) = st /\ valid (sub_shift st)) /\
  (sub_shift (inv_sub_shift s st) = st /\ valid (inv_sub_shift s st)).
Proof.
  intros Hok Hr V. unfold sub_shift, inv_sub_shift. split.
  - destruct (sub_inverse s st Hok Hr V) as [[Es Vs] _].
    destruct (shift_inv_shift _ Vs) as [-> _]. split; [done|]. by apply shift_valid.
  - destruct (shift_valid st V) as [_ Vi].
    destruct (sub_inverse s _ Hok Hr Vi) as [_ [Es Vs]]. rewrite Es. split; [|done].
    by apply shift_inv_shift.
Qed.

Lemma round_inverse s rk off st : crypto_ok s -> aes_tables_ready s = true -> valid st ->
  (dec_round s rk off (sub_shift (enc_round rk off st)) = sub_shift st /\ valid (enc_round rk off st)) /\
  (enc_round rk off (inv_sub_shift s (dec_round s rk off st)) = inv_sub_shift s st /\
   valid (dec_round s rk off st)).
Proof.
  intros Hok Hr V. destruct (sub_shift_inverse s st Hok Hr V) as [[_ V1] [_ V2]].
  unfold dec_round, enc_round. split.
  - destruct (mix_inverse _ V1) as [Em Vm]. destruct (ark_inverse _ rk off Vm) as [Ea Va].
    split; [|done]. rewrite (proj1 (proj1 (sub_shift_inverse s _ Hok Hr Va))). by rewrite Ea.
  - destruct (ark_inverse _ rk off V2) as [Ea Va]. destruct (inv_mix_inverse _ Va) as [Em Vm].
    split; [|done]. rewrite (proj1 (proj2 (sub_shift_inverse s _ Hok Hr Vm))). by rewrite Em.
Qed.

Lemma encrypt_eq rk st : crypto_aes128_encrypt_block rk st =
  aes_add_round_key (sub_shift (enc_rounds (enc_round rk) 9 1 (aes_add_round_key st rk 0))) rk 40.
Proof. unfold crypto_aes128_encrypt_block, enc_rounds, enc_round, sub_shift. reflexivity. Qed.

Lemma decrypt_eq s rk st : aes_tables_ready s = true -> fst (crypto_aes128_decrypt_block s rk st) =
  aes_add_round_key (inv_sub_shift s (dec_rounds (dec_round s rk) 9 1 (aes_add_round_key st rk 40))) rk 0.
Proof.
  intros R. unfold crypto_aes128_decrypt_block. rewrite R.
  unfold dec_rounds, dec_round, inv_sub_shift. reflexivity.
Qed.

Lemma decrypt_encrypt s rk st : crypto_ok s -> aes_tables_ready s = true -> valid st ->
  fst (crypto_aes128_decrypt_block s rk (crypto_aes128_encrypt_block rk st)) = st /\
  crypto_aes128_encrypt_block rk (fst (crypto_aes128_decrypt_block s rk st)) = st.
Proof.
  intros Hok Hr V. rewrite !decrypt_eq, !encrypt_eq by done.
  pose proof (fun off st => round_inverse s rk off st Hok Hr) as RI.
  pose proof (fun st => sub_shift_inverse s st Hok Hr) as SI. split.
  - destruct (ark_inverse st rk 0 V) as [Ea Va].
    destruct (middle_decrypts valid _ _ _ _ RI 9 1 _ Va) as [Vm Em].
    destruct (SI _ Vm) as [[_ Vs] _]. rewrite (proj1 (ark_inverse _ rk 40 Vs)), Em.
    by rewrite (proj1 (proj1 (SI _ Va))).
  - destruct (ark_inverse st rk 40 V) as [Ea Va].
    destruct (middle_encrypts valid _ _ _ _ RI 9 1 _ Va) as [Vm Em].
    destruct (SI _ Vm) as [_ [_ Vs]]. rewrite (proj1 (ark_inverse _ rk 0 Vs)), Em.
    by rewrite (proj1 (proj2 (SI _ Va))).
Qed.

Lemma decrypt_tables s rk st : crypto_ok s ->
  let s' := if aes_tables_ready s then s else aes_init_tables s in
  crypto_ok s' /\ aes_tables_ready s' = true /\
  crypto_aes128_decrypt_block s rk st = crypto_aes128_decrypt_block s' rk st.
Proof.
  intros Hok. destruct (aes_tables_ready s) eqn:R; simpl; [done|].
  split; [by apply aes_init_ok|]. split; [done|].
  unfold crypto_aes128_decrypt_block. by rewrite R.
Qed.

(** ** Theorems *)

(** C25: AES-128 decryption and encryption invert each other on every
    sixteen-byte block under every key schedule, whether or not the inverse
    S-box was built before, and the tables are right afterwards. *)
Theorem aes128_roundtrip s rk block :
  crypto_ok s -> valid block ->
  fst (crypto_aes128_decrypt_block s rk (crypto_aes128_encrypt_block rk block)) = block /\
  crypto_aes128_encrypt_block rk (fst (crypto_aes128_decrypt_block s rk block)) = block /\
  crypto_ok (snd (crypto_aes128_decrypt_block s rk block)).
Proof.
  intros Hok V. destruct (decrypt_tables s rk block Hok) as (Ok' & R & E).
  destruct (decrypt_tables s rk (crypto_aes128_encrypt_block rk block) Hok) as (_ & _ & E').
  destruct (decrypt_encrypt _ rk block Ok' R V) as [H1 H2].
  rewrite E', E. split; [done|]. split; [done|].
  unfold crypto_aes128_decrypt_block. cbn [snd]. by rewrite R.
Qed.

Lemma aes128_roundtrip_witness :
  fst (crypto_aes128_decrypt_block crypto_boot (crypto_aes128_expand_key (replicate 16 7))
    (crypto_aes128_encrypt_block (crypto_aes128_expand_key (replicate 16 7)) (replicate 16 9))) = replicate 16 9.
Proof.
  apply (aes128_roundtrip crypto_boot (crypto_aes128_expand_key (replicate 16 7)) (replicate 16 9)).
  - exact crypto_boot_ok.
  - split; [reflexivity|]. apply Forall_replicate. unfold byte. lia.
Defined.

Lemma kat_pt_valid : valid kat_pt.
Proof. split; [reflexivity|]. unfold kat_pt. cbn -[u8]. bytes_list. Qed.

Lemma kat_ct : crypto_aes128_encrypt_block (crypto_aes128_expand_key kat_key) kat_pt =
  unhex (chars "69c4e0d86a7b0430d8cdb78070b4c55a").
Proof. vm_compute. reflexivity. Qed.

Lemma sha_is_spec stack m want : length (buf stack) = 64%nat -> alen m < 2 ^ 61 ->
  hex_eq (sha256_spec m) (chars want) 32 = true -> sha_is stack m want = true.
Proof. intros Hb Hl H. unfold sha_is. by rewrite crypto_sha256_eq. Qed.

Lemma kat_abc : hex_eq (sha256_spec (chars "abc"))
  (chars "ba7816bf8f01cfea414140de5dae2223b00361a396177a9cb410ff61f20015ad") 32 = true.
Proof. vm_compute. reflexivity. Qed.
Lemma kat_empty : hex_eq (sha256_spec (chars ""))
  (chars "e3b0c44298fc1c149afbf4c8996fb92427ae41e4649b934ca495991b7852b855") 32 = true.
Proof. vm_compute. reflexivity. Qed.

Lemma kat_crc s : crypto_ok s ->
  fst (crypto_crc32 s (chars "123456789")) = 0xCBF43926 /\ crypto_ok (snd (crypto_crc32 s (chars "123456789"))).
Proof.
  intros Hok. assert (Hb : Forall byte (chars "123456789"))
    by (repeat first [apply Forall_nil_2 | apply Forall_cons_2]; vm_compute; intuition discriminate).
  destruct (crc32_fold s _ Hok Hb) as [E Hok']. split; [rewrite E; vm_compute; reflexivity | done].
Qed.

Lemma kat_back s rk : crypto_ok s ->
  fst (crypto_aes128_decrypt_block s rk (crypto_aes128_encrypt_block rk kat_pt)) = kat_pt.
Proof.
  intros Hok. destruct (decrypt_tables s rk (crypto_aes128_encrypt_block rk kat_pt) Hok) as (Ok' & R & ->).
  exact (proj1 (decrypt_encrypt _ rk kat_pt Ok' R kat_pt_valid)).
Qed.

(** The boot-time self-test passes whatever its uninitialised stack
    context held and whichever static tables were built before: CRC-32 check
    value, SHA-256 of "abc" and of the empty string, streaming against one-shot
    on 1000 bytes, and the FIPS 197 appendix C.1 vector in both directions. *)
Theorem crypto_selftest_passes stack s :
  length (buf stack) = 64%nat -> crypto_ok s -> fst (crypto_selftest stack s) = true.
Proof.
  intros Hb Hok. unfold crypto_selftest. destruct (kat_crc s Hok) as [Ec Hok1].
  pose proof (sha_is_spec stack (chars "abc") _ Hb eq_refl kat_abc) as Ha.
  pose proof (sha_is_spec stack (chars "") _ Hb eq_refl kat_empty) as He.
  pose proof kat_ct as Ect. revert Ec Hok1 Ha He Ect.
  generalize (crypto_aes128_expand_key kat_key) as rk. intros rk.
  destruct (crypto_crc32 s (chars "123456789")) as [crc s1]. cbn [fst snd].
  intros -> Hok1 -> -> Ect. rewrite (streaming_agrees_ok stack Hb), <- Ect.
  pose proof (kat_back s1 rk Hok1) as Hd.
  destruct (crypto_aes128_decrypt_block s1 rk _) as [back s2]. cbn [fst] in *. rewrite Hd.
  unfold bytes_eqb. by rewrite !bool_decide_true.
Qed.

Lemma crypto_selftest_passes_witness :
  fst (crypto_selftest (mk_sha [] 0 (replicate 64 0xA5) 3) crypto_boot) = true.
Proof.
  exact (crypto_selftest_passes (mk_sha [] 0 (replicate 64 0xA5) 3) crypto_boot eq_refl crypto_boot_ok).
Defined.
