(* ===== verification/Gzip.v ===== *)
(** * lib/gzip.c: gzip and DEFLATE decompression

    Every read and write of an array is checked: an access out of range, a read
    of a cell that was never written, or a loop that outlives its fuel yields
    [Stuck], which the theorems exclude.  The output buffer and the table of
    code lengths are only ever appended to, so each is the list of what has
    been written, with its capacity checked on every append. *)
From S2P Require Import Prelude Pmm.
#[local] Open Scope Z_scope.
#[local] Open Scope list_scope.

(** ** Results *)

Inductive out (A : Type) : Type :=
| Got (a : A)
| Fail (code : Z)
| Stuck.
Arguments Got {A} a.
Arguments Fail {A} code.
Arguments Stuck {A}.

Definition obind {A B} (x : out A) (f : A -> out B) : out B :=
  match x with Got a => f a | Fail c => Fail c | Stuck => Stuck end.

Declare Scope gzip_scope.
Notation "'try' x <- m ; k" := (obind m (fun x => k))
  (at level 200, x pattern, m at level 100, k at level 200) : gzip_scope.
#[global] Open Scope gzip_scope.

Definition bad {A} : out A := Fail (- E_INVAL).

(** Checked array accesses. *)
Definition rd {A} (l : list A) (i : Z) : out A :=
  if i <? 0 then Stuck else match l !! Z.to_nat i with Some x => Got x | None => Stuck end.
Definition wr {A} (l : list A) (i : Z) (x : A) : out (list A) :=
  if (0 <=? i) && (i <? alen l) then Got (<[Z.to_nat i := x]> l) else Stuck.
Definition rd_init {A} (l : list (option A)) (i : Z) : out A :=
  try o <- rd l i; match o with Some x => Got x | None => Stuck end.
Definition push {A} (cap : Z) (l : list A) (x : A) : out (list A) :=
  if alen l <? cap then Got (l ++ [x]) else Stuck.
Fixpoint push_all {A} (cap : Z) (l xs : list A) : out (list A) :=
  match xs with [] => Got l | x :: xs => try l' <- push cap l x; push_all cap l' xs end.

(** ** The bit stream *)

Definition DEFLATE_MAX_BITS := 15.
Definition DEFLATE_MAX_SYMBOLS := 288.

Record deflate_stream := Stream { data : list Z; offset : Z; bits : Z; bit_count : Z }.

Fixpoint fill (fuel : nat) (st : deflate_stream) (count : Z) : out deflate_stream :=
  if bit_count st <? count then
    match fuel with
    | O => Stuck
    | S k =>
        if alen (data st) <=? offset st then bad
        else
          try b <- rd (data st) (offset st);
          fill k (Stream (data st) (offset st + 1) (Z.lor (bits st) (u32 (Z.shiftl b (bit_count st))))
                    (bit_count st + 8)) count
    end
  else Got st.

Definition read_bits (st : deflate_stream) (count : Z) : out (deflate_stream * Z) :=
  try st <- fill (Z.to_nat count) st count;
  Got (Stream (data st) (offset st) (Z.shiftr (bits st) count) (bit_count st - count),
       Z.land (bits st) (u32 (Z.shiftl 1 count) - 1)).

Definition align_to_byte (st : deflate_stream) : deflate_stream :=
  let discard := Z.land (bit_count st) 7 in
  Stream (data st) (offset st) (Z.shiftr (bits st) discard) (bit_count st - discard).

(** ** Huffman tables *)

Record deflate_huffman := Huffman { counts : list Z; symbols : list (option Z) }.

Fixpoint count_lengths (cs lens : list Z) : out (list Z) :=
  match lens with
  | [] => Got cs
  | l :: lens =>
      if DEFLATE_MAX_BITS <? l then bad
      else try c <- rd cs l; try cs' <- wr cs l (u16 (c + 1)); count_lengths cs' lens
  end.

(** [for (bits = b; bits <= 15; bits++)], [k] turns left. *)
Fixpoint check_remaining (cs : list Z) (remaining b : Z) (k : nat) : out unit :=
  match k with
  | O => Got tt
  | S k =>
      try c <- rd cs b;
      let remaining := Z.shiftl remaining 1 - c in
      if remaining <? 0 then bad else check_remaining cs remaining (b + 1) k
  end.

Fixpoint fill_offsets (offs : list (option Z)) (cs : list Z) (b : Z) (k : nat) : out (list (option Z)) :=
  match k with
  | O => Got offs
  | S k =>
      try o <- rd_init offs b;
      try c <- rd cs b;
      try offs' <- wr offs (b + 1) (Some (u16 (o + c)));
      fill_offsets offs' cs (b + 1) k
  end.

Fixpoint place_symbols (offs syms : list (option Z)) (lens : list Z) (symbol : Z) : out (list (option Z)) :=
  match lens with
  | [] => Got syms
  | l :: lens =>
      if l =? 0 then place_symbols offs syms lens (symbol + 1)
      else
        try o <- rd_init offs l;
        try offs' <- wr offs l (Some (u16 (o + 1)));
        try syms' <- wr syms o (Some (u16 symbol));
        place_symbols offs' syms' lens (symbol + 1)
  end.

(** [lens] are the [symbol_count] code lengths the caller points at. *)
Definition build_huffman (lens : list Z) : out deflate_huffman :=
  try cs <- count_lengths (replicate 16 0) lens;
  try c0 <- rd cs 0;
  if c0 =? alen lens then bad
  else
    try _ <- check_remaining cs 1 1 15;
    try offs <- wr (replicate 16 None) 1 (Some 0);
    try offs <- fill_offsets offs cs 1 14;
    try syms <- place_symbols offs (replicate 288 None) lens 0;
    Got (Huffman cs syms).

(** One bit per turn, [k] turns left. *)
Fixpoint decode_loop (tree : deflate_huffman) (st : deflate_stream) (code first index length : Z) (k : nat)
    : out (deflate_stream * Z) :=
  match k with
  | O => bad
  | S k =>
      try (st, bit) <- read_bits st 1;
      let code := Z.lor code bit in
      try count <- rd (counts tree) length;
      if code <? u32 (first + count) then
        try s <- rd_init (symbols tree) (u32 (index + code - first));
        Got (st, s)
      else decode_loop tree st (u32 (Z.shiftl code 1)) (u32 (Z.shiftl (first + count) 1)) (u32 (index + count))
             (length + 1) k
  end.

Definition decode_symbol (st : deflate_stream) (tree : deflate_huffman) : out (deflate_stream * Z) :=
  decode_loop tree st 0 0 0 1 15.

Definition fixed_literal_lengths : list Z :=
  replicate 144 8 ++ replicate 112 9 ++ replicate 24 7 ++ replicate 8 8.
Definition fixed_distance_lengths : list Z := replicate 32 5.

Definition build_fixed_trees : out (deflate_huffman * deflate_huffman) :=
  try lit <- build_huffman fixed_literal_lengths;
  try dist <- build_huffman fixed_distance_lengths;
  Got (lit, dist).

(** ** Dynamic trees *)

Definition code_order : list Z := [16; 17; 18; 0; 8; 7; 9; 6; 10; 5; 11; 4; 12; 3; 13; 2; 14; 1; 15].

Fixpoint read_code_lengths (st : deflate_stream) (cl : list Z) (i : Z) (k : nat) : out (deflate_stream * list Z) :=
  match k with
  | O => Got (st, cl)
  | S k =>
      try (st, value) <- read_bits st 3;
      try pos <- rd code_order i;
      try cl <- wr cl pos (u8 value);
      read_code_lengths st cl (i + 1) k
  end.

(** What a code-length symbol stands for: how often to append which length. *)
Definition length_run (st : deflate_stream) (lengths : list Z) (symbol : Z) : out (deflate_stream * Z * Z) :=
  if symbol =? 16 then
    if alen lengths =? 0 then bad
    else
      try (st, value) <- read_bits st 2;
      try l <- rd lengths (alen lengths - 1);
      Got (st, value + 3, l)
  else if symbol =? 17 then try (st, value) <- read_bits st 3; Got (st, value + 3, 0)
  else if symbol =? 18 then try (st, value) <- read_bits st 7; Got (st, value + 11, 0)
  else bad.

Fixpoint read_lengths (fuel : nat) (st : deflate_stream) (tree : deflate_huffman) (lengths : list Z) (total : Z)
    : out (deflate_stream * list Z) :=
  if alen lengths <? total then
    match fuel with
    | O => Stuck
    | S k =>
        try (st, symbol) <- decode_symbol st tree;
        if symbol <=? 15 then
          try lengths <- push 318 lengths (u8 symbol);
          read_lengths k st tree lengths total
        else
          try (st, repeat, l) <- length_run st lengths symbol;
          if total - alen lengths <? repeat then bad
          else
            try lengths <- push_all 318 lengths (replicate (Z.to_nat repeat) l);
            read_lengths k st tree lengths total
    end
  else Got (st, lengths).

Definition build_dynamic_trees (st : deflate_stream) : out (deflate_stream * deflate_huffman * deflate_huffman) :=
  try (st, value) <- read_bits st 5;
  let literal_count := value + 257 in
  try (st, value) <- read_bits st 5;
  let distance_count := value + 1 in
  try (st, value) <- read_bits st 4;
  let code_count := value + 4 in
  if (286 <? literal_count) || (32 <? distance_count) then bad
  else
    try (st, cl) <- read_code_lengths st (replicate 19 0) 0 (Z.to_nat code_count);
    try code_tree <- build_huffman cl;
    let total := literal_count + distance_count in
    try (st, lengths) <- read_lengths (Z.to_nat total) st code_tree [] total;
    try eob <- rd lengths 256;
    if eob =? 0 then bad
    else
      try lit <- build_huffman (take (Z.to_nat literal_count) lengths);
      try dist <- build_huffman (take (Z.to_nat distance_count) (drop (Z.to_nat literal_count) lengths));
      Got (st, lit, dist).

(** ** Blocks *)

Definition length_base : list Z :=
  [3; 4; 5; 6; 7; 8; 9; 10; 11; 13; 15; 17; 19; 23; 27; 31; 35; 43; 51; 59; 67; 83; 99; 115; 131; 163; 195; 227; 258].
Definition length_extra : list Z :=
  [0; 0; 0; 0; 0; 0; 0; 0; 1; 1; 1; 1; 2; 2; 2; 2; 3; 3; 3; 3; 4; 4; 4; 4; 5; 5; 5; 5; 0].
Definition distance_base : list Z :=
  [1; 2; 3; 4; 5; 7; 9; 13; 17; 25; 33; 49; 65; 97; 129; 193; 257; 385; 513; 769; 1025; 1537; 2049; 3073; 4097;
   6145; 8193; 12289; 16385; 24577].
Definition distance_extra : list Z :=
  [0; 0; 0; 0; 1; 1; 2; 2; 3; 3; 4; 4; 5; 5; 6; 6; 7; 7; 8; 8; 9; 9; 10; 10; 11; 11; 12; 12; 13; 13].

(** A base value plus its extra bits. *)
Definition read_extra (st : deflate_stream) (base extra : list Z) (i : Z) : out (deflate_stream * Z) :=
  try b <- rd base i;
  try e <- rd extra i;
  if e =? 0 then Got (st, b) else try (st, x) <- read_bits st e; Got (st, b + x).

(** The overlapping copy: [for (i = 0; i < length; i++) output[off++] = output[src + i];] *)
Fixpoint copy_match (cap : Z) (output : list Z) (src : Z) (n : nat) : out (list Z) :=
  match n with
  | O => Got output
  | S k => try b <- rd output src; try output <- push cap output b; copy_match cap output (src + 1) k
  end.

Definition emit_match (cap : Z) (output : list Z) (length distance : Z) : out (list Z) :=
  if (alen output <? distance) || (cap - alen output <? length) then bad
  else
    let src := alen output - distance in
    if length <=? distance then push_all cap output (take (Z.to_nat length) (drop (Z.to_nat src) output))
    else copy_match cap output src (Z.to_nat length).

Fixpoint compressed_loop (fuel : nat) (st : deflate_stream) (cap : Z) (output literals : list Z)
    (lit dist : deflate_huffman) : out (deflate_stream * list Z) :=
  match fuel with
  | O => Stuck
  | S k =>
      try (st, symbol) <- decode_symbol st lit;
      if symbol <? 256 then
        if cap <? alen output + alen literals + 1 then bad
        else
          try literals <- push 16 literals (u8 symbol);
          if alen literals =? 16 then
            try output <- push_all cap output literals;
            compressed_loop k st cap output [] lit dist
          else compressed_loop k st cap output literals lit dist
      else if symbol =? 256 then
        try output <- push_all cap output literals;
        Got (st, output)
      else if 285 <? symbol then bad
      else
        try (st, length) <- read_extra st length_base length_extra (symbol - 257);
        try (st, dsym) <- decode_symbol st dist;
        if 30 <=? dsym then bad
        else
          try (st, distance) <- read_extra st distance_base distance_extra dsym;
          if distance =? 0 then bad
          else
            try output <- push_all cap output literals;
            try output <- emit_match cap output length distance;
            compressed_loop k st cap output [] lit dist
  end.

(** Bits the stream still holds: each turn of a block loop consumes some. *)
Definition bits_left (st : deflate_stream) : Z := bit_count st + 8 * (alen (data st) - offset st).

Definition inflate_compressed_block (st : deflate_stream) (cap : Z) (output : list Z)
    (lit dist : deflate_huffman) : out (deflate_stream * list Z) :=
  compressed_loop (Z.to_nat (bits_left st + 1)) st cap output [] lit dist.

Fixpoint copy_stored (st : deflate_stream) (cap : Z) (output : list Z) (n : nat) : out (deflate_stream * list Z) :=
  match n with
  | O => Got (st, output)
  | S k =>
      try (st, b) <- read_bits st 8;
      try output <- push cap output (u8 b);
      copy_stored st cap output k
  end.

Definition inflate_stored_block (st : deflate_stream) (cap : Z) (output : list Z) : out (deflate_stream * list Z) :=
  let st := align_to_byte st in
  try (st, length) <- read_bits st 16;
  try (st, inverted_length) <- read_bits st 16;
  if negb (Z.lxor length 0xFFFF =? inverted_length) || (cap - alen output <? length) then bad
  else copy_stored st cap output (Z.to_nat length).

Definition inflate_block (st : deflate_stream) (cap : Z) (output : list Z) (type : Z) : out (deflate_stream * list Z) :=
  if type =? 0 then inflate_stored_block st cap output
  else if type =? 1 then
    try (lit, dist) <- build_fixed_trees;
    inflate_compressed_block st cap output lit dist
  else if type =? 2 then
    try (st, lit, dist) <- build_dynamic_trees st;
    inflate_compressed_block st cap output lit dist
  else bad.

Fixpoint inflate_loop (fuel : nat) (st : deflate_stream) (cap : Z) (output : list Z) : out (list Z) :=
  match fuel with
  | O => Stuck
  | S k =>
      try (st, final) <- read_bits st 1;
      try (st, type) <- read_bits st 2;
      try (st, output) <- inflate_block st cap output type;
      if final =? 0 then inflate_loop k st cap output else Got output
  end.

Definition inflate_data (input : list Z) (cap : Z) : out (list Z) :=
  inflate_loop (S (8 * length input)) (Stream input 0 0 0) cap [].

(** ** The container *)

Definition gzip_crc_bit (crc : Z) : Z :=
  Z.lxor (Z.shiftr crc 1) (Z.land 0xEDB88320 (u32 (0 - Z.land crc 1))).

Definition gzip_crc32 (l : list Z) : Z :=
  Z.lxor (foldl (fun crc b => Nat.iter 8 gzip_crc_bit (Z.lxor crc b)) 0xFFFFFFFF l) 0xFFFFFFFF.

Definition load_le32 (l : list Z) (i : Z) : out Z :=
  try a <- rd l i; try b <- rd l (i + 1); try c <- rd l (i + 2); try d <- rd l (i + 3);
  Got (Z.lor (Z.lor (Z.lor a (Z.shiftl b 8)) (Z.shiftl c 16)) (Z.shiftl d 24)).

Fixpoint skip_to_zero (fuel : nat) (input : list Z) (limit offset : Z) : out Z :=
  if offset <? limit then
    try b <- rd input offset;
    if b =? 0 then Got offset
    else match fuel with O => Stuck | S k => skip_to_zero k input limit (offset + 1) end
  else Got offset.

Definition skip_zero_terminated_field (input : list Z) (limit offset : Z) : out Z :=
  try o <- skip_to_zero (length input) input limit offset;
  if limit <=? o then bad else Got (o + 1).

Definition has_flag (flags bit : Z) : bool := negb (Z.land flags bit =? 0).

(** The extra field, the file name, the comment and the header checksum. *)
Definition skip_header (input : list Z) (trailer flags : Z) : out Z :=
  let offset := 10 in
  try offset <-
    (if has_flag flags 0x04 then
       if trailer <? offset + 2 then bad
       else
         try a <- rd input offset; try b <- rd input (offset + 1);
         let extra_size := Z.lor a (Z.shiftl b 8) in
         let offset := offset + 2 in
         if trailer - offset <? extra_size then bad else Got (offset + extra_size)
     else Got offset);
  try offset <- (if has_flag flags 0x08 then skip_zero_terminated_field input trailer offset else Got offset);
  try offset <- (if has_flag flags 0x10 then skip_zero_terminated_field input trailer offset else Got offset);
  try offset <-
    (if has_flag flags 0x02 then if trailer <? offset + 2 then bad else Got (offset + 2) else Got offset);
  if trailer <=? offset then bad else Got offset.

(** The checks before anything is allocated: where the deflate data starts and
    the size the trailer announces. *)
Definition gzip_header (input : list Z) : out (Z * Z) :=
  if alen input <? 18 then bad
  else
    try m0 <- rd input 0; try m1 <- rd input 1; try m2 <- rd input 2; try flags <- rd input 3;
    if negb (m0 =? 0x1f) || negb (m1 =? 0x8b) || negb (m2 =? 8) || has_flag flags 0xe0 then bad
    else
      try offset <- skip_header input (alen input - 8) flags;
      try expected <- load_le32 input (alen input - 4);
      Got (offset, expected).

(** The physical base of the buffer and its contents.  The buffer is not given
    back to the allocator when decompression fails. *)
Definition gzip_decompress (pm : pmm) (input : list Z) : pmm * out (Z * list Z) :=
  match gzip_header input with
  | Stuck => (pm, Stuck)
  | Fail c => (pm, Fail c)
  | Got (offset, expected_size) =>
      let '(pm, out_phys) := pmm_alloc_contiguous pm ((expected_size + 4095) / 4096) in
      if out_phys =? 0 then (pm, Fail (- E_NOMEM))
      else
        let trailer := alen input - 8 in
        (pm,
         try result <- inflate_data (take (Z.to_nat (trailer - offset)) (drop (Z.to_nat offset) input)) expected_size;
         try sum <- load_le32 input trailer;
         if negb (alen result =? expected_size) || negb (gzip_crc32 result =? sum) then bad
         else Got (out_phys, result))
  end.
