(* ===== verification/GzipSpec.v ===== *)
(** * The bit stream and the Huffman decoder of lib/gzip.c

    The stream is read as the list of its remaining bits; the canonical code
    of RFC 1951 is defined from the code lengths alone, and the table-driven
    decoder is shown to invert it. *)
From Stdlib Require Import Btauto.
From S2P Require Import Prelude Crypto CryptoSpec Gzip.
#[local] Open Scope Z_scope.
#[local] Open Scope list_scope.

(** ** Numbers as bits, least significant first *)

Fixpoint bval (l : list bool) : Z :=
  match l with [] => 0 | b :: l => Z.b2z b + 2 * bval l end.

Lemma byte_bits_length n x : length (byte_bits n x) = n.
Proof. unfold byte_bits. by rewrite List.length_map, List.length_seq. Qed.

Lemma byte_bits_app a b x : byte_bits (a + b) x = byte_bits a x ++ byte_bits b (Z.shiftr x (Z.of_nat a)).
Proof.
  revert x. induction a as [|a IH]; intros x; [by rewrite Z.shiftr_0_r|].
  change (S a + b)%nat with (S (a + b)). rewrite !byte_bits_S, IH. simpl. f_equal. f_equal.
  rewrite Z.shiftr_shiftr by lia. do 2 f_equal. lia.
Qed.

Lemma byte_bits_ext n x y : (forall i, 0 <= i < Z.of_nat n -> Z.testbit x i = Z.testbit y i) ->
  byte_bits n x = byte_bits n y.
Proof. intros H. apply List.map_ext_in. intros i Hi. apply List.in_seq in Hi. apply H. lia. Qed.

Lemma bval_byte_bits n : forall x, bval (byte_bits n x) = x mod 2 ^ Z.of_nat n.
Proof.
  induction n as [|n IH]; intros x; [symmetry; apply Z.mod_1_r|].
  rewrite byte_bits_S. cbn [bval]. rewrite IH, Nat2Z.inj_succ, Z.pow_succ_r by lia.
  rewrite Z.rem_mul_r by lia. rewrite Z.shiftr_div_pow2 by lia. change (2 ^ 1) with 2.
  f_equal. apply Z.bit0_mod.
Qed.

Lemma bval_range l : 0 <= bval l < 2 ^ Z.of_nat (length l).
Proof.
  induction l as [|b l IH]; cbn [bval length]; [simpl; lia|].
  rewrite Nat2Z.inj_succ, Z.pow_succ_r by lia. destruct b; simpl Z.b2z; lia.
Qed.

Lemma byte_bits_bval l : byte_bits (length l) (bval l) = l.
Proof.
  induction l as [|b l IH]; [done|]. cbn [length bval]. rewrite byte_bits_S.
  assert (E : Z.shiftr (Z.b2z b + 2 * bval l) 1 = bval l).
  { rewrite Z.shiftr_div_pow2 by lia. change (2 ^ 1) with 2. symmetry.
    apply Z.div_unique with (Z.b2z b); destruct b; simpl; lia. }
  rewrite E, IH. f_equal. rewrite Z.bit0_odd, Z.odd_add, Z.odd_mul.
  destruct b; reflexivity.
Qed.

(** ** The remaining bits of a stream *)

Definition data_bits (l : list Z) : list bool := concat (List.map (byte_bits 8) l).

Definition sbits (st : deflate_stream) : list bool :=
  byte_bits (Z.to_nat (bit_count st)) (bits st) ++ data_bits (drop (Z.to_nat (offset st)) (data st)).

(** [w] bounds the bits held between two reads: 8. *)
Record stream_in (w : Z) (st : deflate_stream) : Prop := {
  so_off : 0 <= offset st <= alen (data st);
  so_data : Forall byte (data st);
  so_count : 0 <= bit_count st < w;
  so_bits : 0 <= bits st < 2 ^ bit_count st }.
Notation stream_ok := (stream_in 8).

Lemma data_bits_length l : length (data_bits l) = (8 * length l)%nat.
Proof.
  induction l as [|b l IH]; [done|]. unfold data_bits in *. cbn [List.map concat].
  rewrite length_app, IH, byte_bits_length. simpl. lia.
Qed.

Lemma sbits_length w st : stream_in w st -> Z.of_nat (length (sbits st)) = bits_left st.
Proof.
  intros [H1 _ H3 _]. unfold sbits, bits_left, alen in *.
  rewrite length_app, byte_bits_length, data_bits_length, length_drop. lia.
Qed.

Lemma rd_lt {A} (l : list A) i : 0 <= i < alen l -> exists x, rd l i = Got x /\ l !! Z.to_nat i = Some x.
Proof.
  intros H. unfold rd, alen in *. destruct (Z.ltb_spec i 0); [lia|].
  destruct (lookup_lt_is_Some_2 l (Z.to_nat i)) as [x E]; [lia|]. exists x. by rewrite E.
Qed.

(** Taking a byte in keeps the remaining bits. *)
Lemma take_byte_bits st b w : stream_in w st -> w <= 24 -> data st !! Z.to_nat (offset st) = Some b ->
  let st' := Stream (data st) (offset st + 1) (Z.lor (bits st) (u32 (Z.shiftl b (bit_count st)))) (bit_count st + 8) in
  stream_in (w + 8) st' /\ sbits st' = sbits st.
Proof.
  intros [H1 H2 H3 H4] Hw Hb st'. pose proof (Forall_lookup_1 _ _ _ _ H2 Hb) as Hbyte. unfold byte in Hbyte.
  assert (Hs : u32 (Z.shiftl b (bit_count st)) = Z.shiftl b (bit_count st)).
  { apply u32_small. rewrite Z.shiftl_mul_pow2 by lia.
    assert (0 < 2 ^ bit_count st) by (apply Z.pow_pos_nonneg; lia).
    assert (2 ^ bit_count st <= 2 ^ 23) by (apply Z.pow_le_mono_r; lia). nia. }
  assert (Ht : forall i, 0 <= i -> Z.testbit (bits st') i =
     if i <? bit_count st then Z.testbit (bits st) i else Z.testbit b (i - bit_count st)).
  { intros i Hi. simpl. rewrite Hs, Z.lor_spec, Z.shiftl_spec by done.
    destruct (Z.ltb_spec i (bit_count st)).
    - rewrite (Z.testbit_neg_r b) by lia. btauto.
    - rewrite (testbit_high (bits st) (bit_count st)) by lia. btauto. }
  assert (Hlt : (Z.to_nat (offset st) < length (data st))%nat) by (apply lookup_lt_is_Some; eauto).
  split.
  - split; simpl; [unfold alen; lia | done | lia |].
    apply range_of_testbit; [lia | |].
    + apply Z.lor_nonneg. split; [lia|]. rewrite Hs. apply Z.shiftl_nonneg. lia.
    + intros i Hi. change (Z.testbit (bits st') i = false). rewrite Ht by lia.
      destruct (Z.ltb_spec i (bit_count st)); [lia|]. apply (testbit_high b 8); lia.
  - unfold sbits. cbn [bit_count offset data st'].
    rewrite (drop_S (data st) b (Z.to_nat (offset st))) by done.
    replace (Z.to_nat (offset st + 1)) with (S (Z.to_nat (offset st))) by lia.
    replace (Z.to_nat (bit_count st + 8)) with (Z.to_nat (bit_count st) + 8)%nat by lia.
    rewrite byte_bits_app, <- app_assoc. f_equal.
    + apply byte_bits_ext. intros i Hi. rewrite Ht by lia. by destruct (Z.ltb_spec i (bit_count st)); [|lia].
    + unfold data_bits. cbn [List.map concat]. f_equal. apply byte_bits_ext. intros i Hi.
      rewrite Z.shiftr_spec, Ht by lia. destruct (Z.ltb_spec (i + Z.of_nat (Z.to_nat (bit_count st))) (bit_count st)); [lia|].
      f_equal. lia.
Qed.

Lemma stream_weaken w w' st : stream_in w st -> w <= w' -> stream_in w' st.
Proof. intros [H1 H2 H3 H4] Hw. split; try done. lia. Qed.

Lemma fill_spec count k : forall st, 0 <= count <= 16 -> stream_in (count + 8) st ->
  count - bit_count st <= 8 * Z.of_nat k ->
  if count <=? bits_left st then
    exists st', fill k st count = Got st' /\ stream_in (count + 8) st' /\ sbits st' = sbits st /\
      count <= bit_count st' /\ data st' = data st
  else fill k st count = bad.
Proof.
  induction k as [|k IH]; intros st Hc Hst Hk; cbn [fill];
    (destruct (Z.ltb_spec (bit_count st) count);
     [|destruct (Z.leb_spec count (bits_left st)) as [|Hlt];
       [exists st; repeat split; try apply Hst; try done; lia
       |pose proof (so_off _ _ Hst); unfold bits_left in Hlt; lia]]); [lia|].
  pose proof (so_off _ _ Hst) as Ho. pose proof (so_count _ _ Hst) as Hb.
  destruct (Z.leb_spec (alen (data st)) (offset st)).
  - destruct (Z.leb_spec count (bits_left st)) as [Hle|]; [unfold bits_left in Hle; lia | done].
  - destruct (rd_lt (data st) (offset st)) as (b & E & El); [lia|]. rewrite E. cbn [obind].
    assert (Hst' : stream_in count st) by (split; try apply Hst; lia).
    destruct (take_byte_bits st b count Hst') as [H1 H2]; [lia | done |].
    set (st1 := Stream _ _ _ _) in *. specialize (IH st1 Hc H1).
    assert (Hl : bits_left st1 = bits_left st) by (unfold bits_left; simpl; lia). rewrite Hl, H2 in IH.
    apply IH. simpl. lia.
Qed.

Lemma land_low x n : 0 <= n < 32 -> Z.land x (u32 (Z.shiftl 1 n) - 1) = x mod 2 ^ n.
Proof.
  intros H. rewrite Z.shiftl_1_l, u32_small.
  - rewrite <- Z.land_ones, Z.ones_equiv by lia. done.
  - split; [apply Z.pow_nonneg; lia | apply Z.pow_lt_mono_r; lia].
Qed.

(** [read_bits] takes the next bits, or fails when there are too few. *)
Lemma read_bits_spec st count : 0 <= count <= 16 -> stream_ok st ->
  if count <=? bits_left st then
    exists st', read_bits st count = Got (st', bval (take (Z.to_nat count) (sbits st))) /\ stream_ok st' /\
      sbits st' = drop (Z.to_nat count) (sbits st) /\ data st' = data st
  else read_bits st count = bad.
Proof.
  intros Hc Hst. unfold read_bits.
  pose proof (fill_spec count (Z.to_nat count) st Hc) as F.
  destruct (Z.leb_spec count (bits_left st)).
  - destruct F as (st1 & E & H1 & H2 & H3 & H4); [apply (stream_weaken 8); [done|lia] |
      pose proof (so_count _ _ Hst); lia |].
    rewrite E. cbn [obind].
    assert (Ev : Z.land (bits st1) (u32 (Z.shiftl 1 count) - 1) = bval (take (Z.to_nat count) (sbits st))).
    { rewrite land_low, <- H2 by lia. unfold sbits.
      rewrite take_app_le by (rewrite byte_bits_length; lia).
      replace (Z.to_nat (bit_count st1)) with (Z.to_nat count + Z.to_nat (bit_count st1 - count))%nat by lia.
      rewrite byte_bits_app, take_app_le, take_ge by (rewrite byte_bits_length; lia).
      rewrite bval_byte_bits, Z2Nat.id by lia. done. }
    rewrite Ev. eexists. split; [reflexivity|]. split; [|split; [|done]].
    + destruct H1 as [P1 P2 P3 P4]. split; simpl; [done | done | lia |].
      rewrite Z.shiftr_div_pow2 by lia. split; [apply Z.div_pos; lia|].
      apply Z.div_lt_upper_bound; [lia|]. rewrite <- Z.pow_add_r by lia.
      replace (count + (bit_count st1 - count)) with (bit_count st1) by lia. apply P4.
    + rewrite <- H2. unfold sbits. cbn [bit_count bits offset data].
      replace (Z.to_nat (bit_count st1)) with (Z.to_nat count + Z.to_nat (bit_count st1 - count))%nat by lia.
      rewrite byte_bits_app, <- app_assoc, drop_app_ge by (rewrite byte_bits_length; lia).
      rewrite byte_bits_length, Nat.sub_diag, drop_0, Z2Nat.id by lia. done.
  - rewrite F; [done | apply (stream_weaken 8); [done|lia] | pose proof (so_count _ _ Hst); lia].
Qed.

Lemma read_bit_cons st b rest : stream_ok st -> sbits st = b :: rest ->
  exists st', read_bits st 1 = Got (st', Z.b2z b) /\ stream_ok st' /\ sbits st' = rest /\ data st' = data st.
Proof.
  intros Hst Hs. pose proof (read_bits_spec st 1 ltac:(lia) Hst) as R.
  pose proof (sbits_length 8 st Hst) as L. rewrite Hs in L. cbn [length] in L.
  destruct (Z.leb_spec 1 (bits_left st)); [|lia]. rewrite Hs in R.
  destruct R as (st' & E & H1 & H2 & H3). exists st'. split; [|done]. rewrite E. simpl.
  do 2 f_equal. destruct b; reflexivity.
Qed.

(** ** Arrays read through checked accesses *)

(** The array has [n] cells and cell [i] holds [f i]. *)
Definition arr {A} (l : list A) (n : Z) (f : Z -> A) : Prop :=
  alen l = n /\ forall i, 0 <= i < n -> rd l i = Got (f i).

Lemma rd_lookup {A} (l : list A) i x : 0 <= i -> l !! Z.to_nat i = Some x -> rd l i = Got x.
Proof. intros H E. unfold rd. destruct (Z.ltb_spec i 0); [lia|]. by rewrite E. Qed.

Lemma rd_wr {A} (l : list A) i x : 0 <= i < alen l -> exists l', wr l i x = Got l' /\ alen l' = alen l /\
  forall j, rd l' j = if j =? i then Got x else rd l j.
Proof.
  intros H. unfold wr. destruct (Z.leb_spec 0 i), (Z.ltb_spec i (alen l)); try lia. simpl.
  eexists. split; [done|]. split; [unfold alen; by rewrite length_insert|].
  intros j. unfold rd, alen in *. destruct (Z.ltb_spec j 0), (Z.eqb_spec j i); try lia; try done; subst.
  - by rewrite list_lookup_insert_eq by lia.
  - by rewrite list_lookup_insert_ne by lia.
Qed.

Lemma arr_wr {A} (l : list A) n f i x : arr l n f -> 0 <= i < n -> exists l', wr l i x = Got l' /\
  arr l' n (fun j => if j =? i then x else f j).
Proof.
  intros [Hn Hf] Hi. destruct (rd_wr l i x) as (l' & E & Hl & Hr); [lia|]. exists l'. split; [done|].
  split; [lia|]. intros j Hj. rewrite Hr. destruct (Z.eqb_spec j i); [done|]. by apply Hf.
Qed.

Lemma arr_ext {A} (l : list A) n f g : arr l n f -> (forall i, 0 <= i < n -> f i = g i) -> arr l n g.
Proof. intros [H1 H2] H. split; [done|]. intros i Hi. by rewrite H2, H. Qed.

Lemma arr_replicate {A} n (x : A) : 0 <= n -> arr (replicate (Z.to_nat n) x) n (fun _ => x).
Proof.
  intros H. split; [unfold alen; rewrite length_replicate; lia|].
  intros i Hi. apply rd_lookup; [lia|]. apply lookup_replicate_2. lia.
Qed.

(** ** Canonical codes *)

(** How many symbols have a code of length [l]. *)
Fixpoint cnt (l : Z) (lens : list Z) : Z :=
  match lens with [] => 0 | x :: r => (if x =? l then 1 else 0) + cnt l r end.

(** The first code of length [n + 1], and the number of codes no longer than [n]. *)
Fixpoint first_code (lens : list Z) (n : nat) : Z :=
  match n with O => 0 | S k => 2 * (first_code lens k + cnt (Z.of_nat n) lens) end.
Fixpoint idx (lens : list Z) (n : nat) : Z :=
  match n with O => 0 | S k => idx lens k + cnt (Z.of_nat n) lens end.

(** RFC 1951, 3.2.2: codes of one length are consecutive in symbol order. *)
Definition canon (lens : list Z) (s : nat) (L : nat) : Z :=
  first_code lens (L - 1) + cnt (Z.of_nat L) (take s lens).

(** The code of symbol [s] as it appears in the stream: most significant bit first. *)
Definition code_bits (lens : list Z) (s : nat) : list bool :=
  let L := Z.to_nat (nth s lens 0) in rev (byte_bits L (canon lens s L)).

Lemma cnt_nonneg l lens : 0 <= cnt l lens.
Proof. induction lens as [|x r IH]; simpl; [lia|]. destruct (x =? l); lia. Qed.

Lemma cnt_app l a b : cnt l (a ++ b) = cnt l a + cnt l b.
Proof. induction a as [|x r IH]; simpl; [lia|]. rewrite IH. lia. Qed.

Lemma cnt_le_length l lens : cnt l lens <= alen lens.
Proof. unfold alen. induction lens as [|x r IH]; simpl; [lia|]. destruct (x =? l); lia. Qed.

Lemma cnt_take_lt lens s l : lens !! s = Some l -> cnt l (take s lens) < cnt l lens.
Proof.
  intros E. rewrite <- (take_drop_middle lens s l E) at 2. rewrite cnt_app. simpl.
  rewrite Z.eqb_refl. pose proof (cnt_nonneg l (drop (S s) lens)). lia.
Qed.

Lemma cnt_take_mono l lens a b : (a <= b)%nat -> cnt l (take a lens) <= cnt l (take b lens).
Proof.
  intros H. replace (take b lens) with (take a lens ++ take (b - a) (drop a lens)).
  - rewrite cnt_app. pose proof (cnt_nonneg l (take (b - a) (drop a lens))). lia.
  - rewrite take_take_drop. f_equal. lia.
Qed.

Lemma cnt_take_strict lens a b l : lens !! a = Some l -> (a < b)%nat ->
  cnt l (take a lens) < cnt l (take b lens).
Proof.
  intros E H. pose proof (cnt_take_mono l lens (S a) b ltac:(lia)).
  rewrite (take_S_r _ _ _ E), cnt_app in H0. simpl in H0. rewrite Z.eqb_refl in H0. lia.
Qed.

Lemma idx_mono lens a b : (a <= b)%nat -> idx lens a <= idx lens b.
Proof.
  induction 1 as [|b H IH]; [lia|]. cbn [idx]. pose proof (cnt_nonneg (Z.of_nat (S b)) lens). lia.
Qed.

(** At most as many codes as symbols. *)
Lemma idx_le_length lens n : idx lens n <= alen lens.
Proof.
  unfold alen. induction lens as [|x r IH].
  - assert (E : idx [] n = 0) by (induction n as [|n IH]; cbn [idx cnt]; lia). rewrite E. simpl. lia.
  - cbn [length]. rewrite Nat2Z.inj_succ.
    assert (E : idx (x :: r) n <= idx r n + (if (1 <=? x) && (x <=? Z.of_nat n) then 1 else 0)).
    { clear. induction n as [|n IH]; [simpl; destruct (_ && _); lia|]. cbn [idx cnt]. revert IH.
      destruct (Z.eqb_spec x (Z.of_nat (S n))), (Z.leb_spec 1 x), (Z.leb_spec x (Z.of_nat n)),
        (Z.leb_spec x (Z.of_nat (S n))); simpl; lia. }
    destruct (_ && _); lia.
Qed.

(** ** The table [build_huffman] makes *)

Definition lens_ok (lens : list Z) : Prop := Forall (fun l => 0 <= l) lens /\ alen lens <= 288.

Lemma count_lengths_spec lens : forall cs f, arr cs 16 f -> Forall (fun l => 0 <= l) lens ->
  (forall l, 0 <= f l /\ f l + alen lens < 2 ^ 16) ->
  count_lengths cs lens = bad \/
  (Forall (fun l => l <= 15) lens /\ exists cs', count_lengths cs lens = Got cs' /\
     arr cs' 16 (fun l => f l + cnt l lens)).
Proof.
  induction lens as [|x r IH]; intros cs f Ha Hp Hf; cbn [count_lengths].
  - right. split; [constructor|]. exists cs. split; [done|]. apply (arr_ext _ _ f); [done|].
    intros; simpl; lia.
  - inversion Hp as [|? ? Hx Hr]; subst. unfold DEFLATE_MAX_BITS.
    destruct (Z.ltb_spec 15 x); [by left|].
    rewrite (proj2 Ha) by lia. cbn [obind].
    assert (Hb : 0 <= f x /\ f x + alen (x :: r) < 2 ^ 16) by apply Hf.
    unfold alen in Hb, Hf. cbn [length] in Hb, Hf. rewrite Nat2Z.inj_succ in Hb.
    assert (Eu : u16 (f x + 1) = f x + 1) by (unfold u16; apply Z.mod_small; lia). rewrite Eu.
    destruct (arr_wr cs 16 f x (f x + 1) Ha) as (cs1 & E1 & A1); [lia|]. rewrite E1. cbn [obind].
    destruct (IH cs1 _ A1 Hr) as [Hbad|(Hle & cs' & E & A)].
    + intros l. specialize (Hf l). unfold alen. destruct (Z.eqb_spec l x); subst; lia.
    + by left.
    + right. split; [by constructor|]. exists cs'. split; [done|]. apply (arr_ext _ _ _ _ A).
      intros i Hi. cbn [cnt]. rewrite (Z.eqb_sym i x). destruct (Z.eqb_spec x i); subst; lia.
Qed.

(** The Kraft check. *)
Definition kraft (lens : list Z) : Prop :=
  forall n, (n < 15)%nat -> first_code lens n + cnt (Z.of_nat (S n)) lens <= 2 ^ Z.of_nat (S n).

Lemma check_remaining_spec lens cs k : forall n, arr cs 16 (fun l => cnt l lens) -> (n + k = 15)%nat ->
  check_remaining cs (2 ^ Z.of_nat n - match n with O => 0 | S m => first_code lens m + cnt (Z.of_nat n) lens end)
    (Z.of_nat n + 1) k = bad \/
  (check_remaining cs (2 ^ Z.of_nat n - match n with O => 0 | S m => first_code lens m + cnt (Z.of_nat n) lens end)
    (Z.of_nat n + 1) k = Got tt /\
   forall j, (n <= j < 15)%nat -> first_code lens j + cnt (Z.of_nat (S j)) lens <= 2 ^ Z.of_nat (S j)).
Proof.
  induction k as [|k IH]; intros n Ha Hk; cbn [check_remaining]; [right; split; [done|lia]|].
  rewrite (proj2 Ha) by lia. cbn [obind]. rewrite Z.shiftl_mul_pow2 by lia. change (2 ^ 1) with 2.
  specialize (IH (S n) Ha ltac:(lia)). rewrite Nat2Z.inj_succ in IH. rewrite <- Z.add_1_r in IH.
  set (R := (2 ^ Z.of_nat n - _) * 2 - _).
  replace (2 ^ (Z.of_nat n + 1) - (first_code lens n + cnt (Z.of_nat n + 1) lens)) with R in IH.
  2:{ unfold R. rewrite Z.pow_add_r by lia. destruct n as [|m]; cbn [first_code]; lia. }
  destruct (Z.ltb_spec R 0) as [|HR]; [by left|]. destruct IH as [|[E Hj]]; [by left|]. right.
  split; [done|]. intros j Hjn. destruct (Nat.eq_dec j n) as [->|]; [|apply Hj; lia].
  unfold R in HR. rewrite Nat2Z.inj_succ, <- Z.add_1_r, Z.pow_add_r by lia.
  destruct n as [|m]; cbn [first_code]; lia.
Qed.

Lemma check_remaining_kraft lens cs : arr cs 16 (fun l => cnt l lens) ->
  check_remaining cs 1 1 15 = bad \/ (check_remaining cs 1 1 15 = Got tt /\ kraft lens).
Proof.
  intros Ha. destruct (check_remaining_spec lens cs 15 0 Ha eq_refl) as [E|[E H]]; [by left | right].
  split; [exact E|]. intros n Hn. apply H. lia.
Qed.

Lemma fill_offsets_spec lens cs k : forall offs n f, arr cs 16 (fun l => cnt l lens) -> alen lens <= 288 ->
  arr offs 16 f -> (forall j, (j <= n)%nat -> f (Z.of_nat (S j)) = Some (idx lens j)) -> (n + k = 14)%nat ->
  exists offs' g, fill_offsets offs cs (Z.of_nat (S n)) k = Got offs' /\ arr offs' 16 g /\
    forall j, (j <= 14)%nat -> g (Z.of_nat (S j)) = Some (idx lens j).
Proof.
  induction k as [|k IH]; intros offs n f Hc Hl Ha Hf Hk; cbn [fill_offsets].
  - exists offs, f. split; [done|]. split; [done|]. intros j Hj. apply Hf. lia.
  - unfold rd_init. rewrite (proj2 Ha), Hf, (proj2 Hc) by lia. cbn [obind].
    assert (Eu : u16 (idx lens n + cnt (Z.of_nat (S n)) lens) = idx lens (S n)).
    { unfold u16. pose proof (idx_le_length lens (S n)). pose proof (idx_mono lens 0 (S n) ltac:(lia)).
      cbn [idx] in *. apply Z.mod_small. lia. }
    rewrite Eu. destruct (arr_wr offs 16 f (Z.of_nat (S n) + 1) (Some (idx lens (S n))) Ha) as (o1 & E1 & A1); [lia|].
    rewrite E1. cbn [obind]. replace (Z.of_nat (S n) + 1) with (Z.of_nat (S (S n))) by lia.
    apply (IH o1 (S n) _ Hc Hl A1); [|lia]. intros j Hj.
    destruct (Z.eqb_spec (Z.of_nat (S j)) (Z.of_nat (S n) + 1)).
    + by replace j with (S n) by lia.
    + apply Hf. lia.
Qed.

(** Where symbol [s], of code length [l], lands in the symbol array. *)
Definition pos (lens : list Z) (s : nat) (l : Z) : Z := idx lens (Z.to_nat l - 1) + cnt l (take s lens).

Lemma pos_lt lens s l : lens !! s = Some l -> 1 <= l -> 0 <= pos lens s l < idx lens (Z.to_nat l).
Proof.
  intros E Hl. unfold pos. pose proof (cnt_take_lt lens s l E). pose proof (cnt_nonneg l (take s lens)).
  pose proof (idx_mono lens 0 (Z.to_nat l - 1) ltac:(lia)) as H1. cbn [idx] in H1.
  replace (Z.to_nat l) with (S (Z.to_nat l - 1)) at 3 by lia. cbn [idx].
  replace (Z.of_nat (S (Z.to_nat l - 1))) with l by lia. lia.
Qed.

Lemma pos_range lens s l : lens !! s = Some l -> 1 <= l -> alen lens <= 288 -> 0 <= pos lens s l < 288.
Proof. intros E Hl Hn. pose proof (pos_lt lens s l E Hl). pose proof (idx_le_length lens (Z.to_nat l)). lia. Qed.

Lemma pos_inj lens s l s' l' : lens !! s = Some l -> lens !! s' = Some l' -> 1 <= l -> 1 <= l' ->
  pos lens s l = pos lens s' l' -> s = s'.
Proof.
  intros E E' Hl Hl' Hp. pose proof (pos_lt lens s l E Hl). pose proof (pos_lt lens s' l' E' Hl').
  destruct (Z.lt_trichotomy l l') as [Hlt|[->|Hlt]].
  - pose proof (idx_mono lens (Z.to_nat l) (Z.to_nat l' - 1) ltac:(lia)).
    unfold pos in *. pose proof (cnt_nonneg l' (take s' lens)). lia.
  - unfold pos in Hp. destruct (Nat.lt_trichotomy s s') as [Hs|[|Hs]]; [|done|].
    + pose proof (cnt_take_strict lens s s' l' E Hs). lia.
    + pose proof (cnt_take_strict lens s' s l' E' Hs). lia.
  - pose proof (idx_mono lens (Z.to_nat l') (Z.to_nat l - 1) ltac:(lia)).
    unfold pos in *. pose proof (cnt_nonneg l (take s lens)). lia.
Qed.

Lemma place_symbols_spec lens post : forall pre offs syms g h,
  lens = pre ++ post -> lens_ok lens -> Forall (fun l => l <= 15) lens ->
  arr offs 16 g -> (forall l, 1 <= l <= 15 -> g l = Some (idx lens (Z.to_nat l - 1) + cnt l pre)) ->
  arr syms 288 h -> (forall s l, pre !! s = Some l -> 1 <= l -> h (pos lens s l) = Some (Z.of_nat s)) ->
  exists syms' h', place_symbols offs syms post (alen pre) = Got syms' /\ arr syms' 288 h' /\
    forall s l, lens !! s = Some l -> 1 <= l -> h' (pos lens s l) = Some (Z.of_nat s).
Proof.
  induction post as [|x post IH]; intros pre offs syms g h Hlens [Hp Hn] H15 Ho Hg Hs Hh; cbn [place_symbols].
  { exists syms, h. rewrite app_nil_r in Hlens. subst pre. done. }
  assert (Ex : lens !! length pre = Some x) by (rewrite Hlens; by apply list_lookup_middle).
  assert (Hlens' : lens = (pre ++ [x]) ++ post) by (rewrite <- app_assoc; done).
  replace (alen pre + 1) with (alen (pre ++ [x])) by (unfold alen; rewrite length_app; simpl; lia).
  assert (Hx : 0 <= x <= 15) by (split; [eapply (Forall_lookup_1 (fun l => 0 <= l)) | eapply (Forall_lookup_1 (fun l => l <= 15))]; eauto).
  destruct (Z.eqb_spec x 0) as [->|Hx0].
  - apply (IH (pre ++ [0]) offs syms g h); auto; [by split| |].
    + intros l Hl. rewrite Hg, cnt_app by done. cbn [cnt]. destruct (Z.eqb_spec 0 l); [lia|]. f_equal. lia.
    + intros s l E Hl. apply lookup_snoc_Some in E as [[_ E]|[_ E]]; [by apply Hh | lia].
  - assert (Hpos : pos lens (length pre) x = idx lens (Z.to_nat x - 1) + cnt x pre)
      by (unfold pos; by rewrite Hlens, take_app_length).
    pose proof (pos_range lens (length pre) x Ex ltac:(lia) Hn) as Hr.
    unfold rd_init. rewrite (proj2 Ho), Hg, <- Hpos by lia. cbn [obind].
    destruct (arr_wr offs 16 g x (Some (u16 (pos lens (length pre) x + 1))) Ho) as (o1 & E1 & A1); [lia|].
    rewrite E1. cbn [obind].
    destruct (arr_wr syms 288 h (pos lens (length pre) x) (Some (u16 (alen pre))) Hs) as (s1 & E2 & A2); [lia|].
    rewrite E2. cbn [obind].
    assert (Epre : u16 (alen pre) = alen pre).
    { unfold u16. apply Z.mod_small. apply (f_equal alen) in Hlens. unfold alen in *. rewrite length_app in Hlens. lia. }
    rewrite Epre in A2. eapply (IH (pre ++ [x]) o1 s1); [done | by split | done | exact A1 | | exact A2 |].
    + intros l Hl. rewrite cnt_app. cbn [cnt]. rewrite (Z.eqb_sym x l). destruct (Z.eqb_spec l x) as [->|].
      * f_equal. unfold u16. rewrite Z.mod_small by lia. lia.
      * rewrite Hg by done. f_equal. lia.
    + intros s l E Hl. apply lookup_snoc_Some in E as [[Hlt E]|[-> E]].
      * destruct (Z.eqb_spec (pos lens s l) (pos lens (length pre) x)) as [Ep|]; [|by apply Hh].
        apply (pos_inj lens s l (length pre) x) in Ep; auto; [lia| |lia].
        rewrite Hlens. by apply lookup_app_l_Some.
      * simplify_eq. by rewrite Z.eqb_refl.
Qed.

(** What the decoder relies on. *)
Record table_ok (lens : list Z) (tree : deflate_huffman) : Prop := {
  to_counts : arr (counts tree) 16 (fun l => cnt l lens);
  to_kraft : kraft lens;
  to_symbols : exists h, arr (symbols tree) 288 h /\
    forall s l, lens !! s = Some l -> 1 <= l -> h (pos lens s l) = Some (Z.of_nat s);
  to_max : Forall (fun l => l <= 15) lens }.

(** [build_huffman] fails cleanly or builds the table of its code lengths. *)
Lemma build_huffman_spec lens : lens_ok lens ->
  build_huffman lens = bad \/ exists tree, build_huffman lens = Got tree /\ table_ok lens tree.
Proof.
  intros [Hp Hn]. unfold build_huffman.
  destruct (count_lengths_spec lens (replicate 16 0) (fun _ => 0)) as [->|(H15 & cs & -> & Ac)];
    [by apply (arr_replicate 16) | done | intros; lia | by left |]. cbn [obind].
  assert (Ac' : arr cs 16 (fun l => cnt l lens)) by (apply (arr_ext _ _ _ _ Ac); intros; lia).
  rewrite (proj2 Ac') by lia. cbn [obind]. destruct (_ =? _); [by left|].
  destruct (check_remaining_kraft lens cs Ac') as [-> |[-> Hk]]; [by left|].
  cbn [obind].
  destruct (arr_wr (replicate 16 None) 16 (fun _ => None) 1 (Some 0)) as (o1 & E1 & A1);
    [by apply (arr_replicate 16) | lia |].
  rewrite E1. cbn [obind].
  destruct (fill_offsets_spec lens cs 14 o1 0 _ Ac' Hn A1) as (o2 & g & E2 & A2 & Hg); [|done|].
  { intros j Hj. replace j with 0%nat by lia. done. }
  change (Z.of_nat 1) with 1 in E2. rewrite E2. cbn [obind].
  destruct (place_symbols_spec lens lens [] o2 (replicate 288 None) g (fun _ => None)) as (syms & h & E3 & A3 & Hh);
    try done.
  - intros l Hl. specialize (Hg (Z.to_nat l - 1)%nat ltac:(lia)).
    replace (Z.of_nat (S (Z.to_nat l - 1))) with l in Hg by lia. rewrite Hg. f_equal. simpl. lia.
  - by apply (arr_replicate 288).
  - change (alen []) with 0 in E3. rewrite E3. cbn [obind]. right. eexists. split; [done|].
    split; [done | done | by exists h | done].
Qed.

(** ** Decoding one symbol *)

(** Most significant bit first. *)
Fixpoint mval (l : list bool) : Z :=
  match l with [] => 0 | b :: l => Z.b2z b * 2 ^ alen l + mval l end.

Lemma bval_snoc l b : bval (l ++ [b]) = bval l + 2 ^ alen l * Z.b2z b.
Proof.
  unfold alen. induction l as [|a l IH]; cbn [bval length app]; [destruct b; simpl; lia|].
  rewrite IH, Nat2Z.inj_succ, Z.pow_succ_r by lia. lia.
Qed.

Lemma mval_rev l : mval (rev l) = bval l.
Proof.
  rewrite <- (rev_involutive l) at 2. generalize (rev l). clear l. intros l.
  induction l as [|b l IH]; [done|]. cbn [mval rev]. rewrite bval_snoc, IH.
  unfold alen. rewrite List.length_rev. lia.
Qed.

Lemma mval_range l : 0 <= mval l < 2 ^ alen l.
Proof.
  rewrite <- (rev_involutive l), mval_rev. unfold alen. rewrite List.length_rev. apply bval_range.
Qed.

Lemma first_code_nonneg lens n : 0 <= first_code lens n.
Proof. induction n as [|n IH]; cbn [first_code]; [lia|]. pose proof (cnt_nonneg (Z.of_nat (S n)) lens). lia. Qed.

(** Codes of one length leave room for all longer ones. *)
Lemma first_code_growth lens n m :
  (first_code lens n + cnt (Z.of_nat (S n)) lens) * 2 ^ Z.of_nat (S m) <= first_code lens (S m + n).
Proof.
  induction m as [|m IH].
  - change (2 ^ Z.of_nat 1) with 2. cbn [first_code Nat.add]. lia.
  - rewrite (Nat2Z.inj_succ (S m)), Z.pow_succ_r by lia.
    change (S (S m) + n)%nat with (S (S m + n)). cbn [first_code]. cbn [first_code] in IH.
    pose proof (cnt_nonneg (Z.of_nat (S (S m + n))) lens). lia.
Qed.

Lemma first_code_bound lens n : kraft lens -> (n < 15)%nat -> first_code lens n <= 2 ^ Z.of_nat (S n).
Proof. intros H Hn. specialize (H n Hn). pose proof (cnt_nonneg (Z.of_nat (S n)) lens). lia. Qed.

(** The [r]-th symbol of a given code length. *)
Lemma nth_symbol l lens r : 0 <= r < cnt l lens -> exists s, lens !! s = Some l /\ cnt l (take s lens) = r.
Proof.
  revert r. induction lens as [|x lens IH]; intros r Hr; cbn [cnt] in Hr; [lia|].
  destruct (Z.eqb_spec x l) as [->|Hx].
  - destruct (Z.eq_dec r 0) as [->|]; [by exists 0%nat|].
    destruct (IH (r - 1)) as (s & E & Hc); [lia|]. exists (S s). split; [done|].
    cbn [take cnt]. rewrite Z.eqb_refl. lia.
  - destruct (IH r) as (s & E & Hc); [lia|]. exists (S s). split; [done|].
    cbn [take cnt]. destruct (Z.eqb_spec x l); [done|]. lia.
Qed.

(** The symbol found for a code in the range of its length. *)
Lemma table_lookup lens tree n code : table_ok lens tree -> alen lens <= 288 -> (n < 15)%nat ->
  first_code lens n <= code < first_code lens n + cnt (Z.of_nat (S n)) lens ->
  exists s, lens !! s = Some (Z.of_nat (S n)) /\ code = canon lens s (S n) /\
    rd_init (symbols tree) (u32 (idx lens n + code - first_code lens n)) = Got (Z.of_nat s).
Proof.
  intros [_ Hk (h & Ha & Hh) _] Hl Hn Hc.
  destruct (nth_symbol (Z.of_nat (S n)) lens (code - first_code lens n)) as (s & E & Hr); [lia|].
  exists s. split; [done|]. split; [unfold canon; rewrite Hr; replace (S n - 1)%nat with n by lia; lia|].
  pose proof (pos_range lens s _ E ltac:(lia) Hl) as Hp. specialize (Hh s _ E ltac:(lia)).
  assert (Ep : pos lens s (Z.of_nat (S n)) = idx lens n + code - first_code lens n).
  { unfold pos. rewrite Hr. replace (Z.to_nat (Z.of_nat (S n)) - 1)%nat with n by lia. lia. }
  rewrite <- Ep, u32_small by lia. unfold rd_init. rewrite (proj2 Ha) by lia. cbn [obind]. by rewrite Hh.
Qed.

(** One turn of the loop after its bit has been read. *)
Lemma decode_turn lens tree st st' b n k code : table_ok lens tree -> alen lens <= 288 -> (n < 15)%nat ->
  Z.even code = true -> 0 <= code < 2 ^ Z.of_nat (S n) - 1 -> first_code lens n <= code ->
  read_bits st 1 = Got (st', Z.b2z b) ->
  decode_loop tree st code (first_code lens n) (idx lens n) (Z.of_nat (S n)) (S k) =
  if code + Z.b2z b <? first_code lens n + cnt (Z.of_nat (S n)) lens then
    (try s <- rd_init (symbols tree) (u32 (idx lens n + (code + Z.b2z b) - first_code lens n)); Got (st', s))
  else decode_loop tree st' (2 * (code + Z.b2z b)) (first_code lens (S n)) (idx lens (S n)) (Z.of_nat (S (S n))) k.
Proof.
  intros Ht Hl Hn He Hc Hf Hb. cbn [decode_loop]. rewrite Hb. cbn [obind].
  assert (El : Z.lor code (Z.b2z b) = code + Z.b2z b).
  { rewrite <- Z.lxor_lor, <- Z.add_nocarry_lxor; try done;
      (apply Z.bits_inj'; intros i Hi; rewrite Z.land_spec, Z.bits_0;
       destruct (Z.eq_dec i 0) as [->|];
       [rewrite Z.bit0_odd, <- Z.negb_even, He; done
       |destruct b; simpl Z.b2z;
        [rewrite (testbit_high 1 1) by (simpl; lia); apply andb_false_r | rewrite Z.bits_0; apply andb_false_r]]). }
  rewrite El, (proj2 (to_counts _ _ Ht)) by lia. cbn [obind].
  assert (Hp : 2 ^ Z.of_nat (S n) <= 2 ^ 15) by (apply Z.pow_le_mono_r; lia). change (2 ^ 15) with 32768 in Hp.
  pose proof (to_kraft _ _ Ht n Hn) as Hk. pose proof (cnt_nonneg (Z.of_nat (S n)) lens).
  pose proof (first_code_nonneg lens n). pose proof (idx_le_length lens (S n)).
  pose proof (idx_mono lens 0 (S n) ltac:(lia)) as Hi. cbn [idx] in *.
  assert (0 <= Z.b2z b <= 1) by (destruct b; simpl; lia).
  rewrite u32_small by lia. destruct (Z.ltb_spec (code + Z.b2z b) (first_code lens n + cnt (Z.of_nat (S n)) lens)); [done|].
  rewrite !Z.shiftl_mul_pow2 by lia. change (2 ^ 1) with 2. rewrite !u32_small by lia.
  cbn [first_code]. f_equal; lia.
Qed.

(** Whatever the stream holds, decoding either fails cleanly or consumes
    exactly the code of the symbol it returns. *)
Lemma decode_loop_sound lens tree k : forall n st code, table_ok lens tree -> alen lens <= 288 ->
  (n + k = 15)%nat -> stream_ok st ->
  Z.even code = true -> 0 <= code < 2 ^ Z.of_nat (S n) - 1 -> first_code lens n <= code ->
  decode_loop tree st code (first_code lens n) (idx lens n) (Z.of_nat (S n)) k = bad \/
  exists st' s L bs, decode_loop tree st code (first_code lens n) (idx lens n) (Z.of_nat (S n)) k = Got (st', Z.of_nat s) /\
    lens !! s = Some (Z.of_nat L) /\ (n < L)%nat /\ stream_ok st' /\ sbits st = bs ++ sbits st' /\
    length bs = (L - n)%nat /\ 2 * canon lens s L = code * 2 ^ alen bs + 2 * mval bs.
Proof.
  induction k as [|k IH]; intros n st code Ht Hl Hn Hst He Hc Hf; [by left|].
  destruct (sbits st) as [|b rest] eqn:Es.
  { left. cbn [decode_loop]. pose proof (read_bits_spec st 1 ltac:(lia) Hst) as R.
    pose proof (sbits_length 8 st Hst) as L. rewrite Es in L. simpl in L. rewrite <- L in R. simpl in R. by rewrite R. }
  destruct (read_bit_cons st b rest Hst Es) as (st1 & E1 & Hst1 & Es1 & _).
  rewrite (decode_turn lens tree st st1 b n k code) by (done || lia).
  assert (Hb : 0 <= Z.b2z b <= 1) by (destruct b; simpl; lia).
  destruct (Z.ltb_spec (code + Z.b2z b) (first_code lens n + cnt (Z.of_nat (S n)) lens)) as [Hlt|Hge].
  - destruct (table_lookup lens tree n (code + Z.b2z b)) as (s & E & Ec & Er); [done | done | lia | lia |].
    rewrite Er. cbn [obind]. right. exists st1, s, (S n), [b].
    do 2 (split; [done|]). split; [lia|]. split; [done|]. split; [by rewrite Es1|]. split; [simpl; lia|].
    rewrite <- Ec. unfold alen. cbn [length mval]. unfold alen. simpl length. change (2 ^ Z.of_nat 1) with 2.
    change (2 ^ Z.of_nat 0) with 1. lia.
  - rewrite Nat2Z.inj_succ, Z.pow_succ_r in Hc by lia.
    destruct (IH (S n) st1 (2 * (code + Z.b2z b))) as [->|(st' & s & L & bs & E & Hs & HL & Hok & Hbs & Hlen & Hcan)];
      try done; [lia | by rewrite Z.even_mul | | cbn [first_code]; lia | by left |].
    { rewrite (Nat2Z.inj_succ (S n)), Z.pow_succ_r, Nat2Z.inj_succ, Z.pow_succ_r by lia. lia. }
    right. exists st', s, L, (b :: bs). split; [done|]. split; [done|]. split; [lia|]. split; [done|].
    split; [simpl; congruence|]. split; [simpl; lia|]. rewrite Hcan. cbn [mval].
    replace (alen (b :: bs)) with (Z.succ (alen bs)) by (unfold alen; simpl; lia).
    rewrite Z.pow_succ_r by (unfold alen; lia). lia.
Qed.

Lemma decode_symbol_sound lens tree st : table_ok lens tree -> alen lens <= 288 -> stream_ok st ->
  decode_symbol st tree = bad \/
  exists st' s L, decode_symbol st tree = Got (st', Z.of_nat s) /\ lens !! s = Some (Z.of_nat L) /\ (0 < L)%nat /\
    stream_ok st' /\ sbits st = code_bits lens s ++ sbits st'.
Proof.
  intros Ht Hl Hst. unfold decode_symbol.
  destruct (decode_loop_sound lens tree 15 0 st 0 Ht Hl) as [E|(st' & s & L & bs & E & Hs & HL & Hok & Hbs & Hlen & Hcan)];
    try done; [by left|]. right. exists st', s, L. do 4 (split; [done|]). rewrite Hbs. f_equal.
  unfold code_bits. rewrite (nth_lookup_Some _ _ _ _ Hs), Nat2Z.id.
  assert (Ec : canon lens s L = mval bs) by lia.
  rewrite Ec, <- (rev_involutive bs), mval_rev, rev_involutive.
  rewrite Nat.sub_0_r in Hlen. rewrite <- Hlen, <- List.length_rev, byte_bits_bval, rev_involutive. done.
Qed.

Lemma canon_bound lens s L : kraft lens -> lens !! s = Some (Z.of_nat L) -> (1 <= L <= 15)%nat ->
  first_code lens (L - 1) <= canon lens s L < first_code lens (L - 1) + cnt (Z.of_nat L) lens /\
  canon lens s L < 2 ^ Z.of_nat L.
Proof.
  intros Hk E HL. unfold canon. pose proof (cnt_take_lt _ _ _ E). pose proof (cnt_nonneg (Z.of_nat L) (take s lens)).
  specialize (Hk (L - 1)%nat ltac:(lia)). replace (S (L - 1)) with L in Hk by lia. lia.
Qed.

(** The code of a symbol of the table is decoded to that symbol. *)
Lemma decode_loop_complete lens tree s L rest k : forall n st code bs, table_ok lens tree -> alen lens <= 288 ->
  lens !! s = Some (Z.of_nat L) -> (n + k = 15)%nat -> stream_ok st ->
  Z.even code = true -> 0 <= code < 2 ^ Z.of_nat (S n) - 1 -> first_code lens n <= code ->
  (n < L <= 15)%nat -> sbits st = bs ++ rest -> length bs = (L - n)%nat ->
  2 * canon lens s L = code * 2 ^ alen bs + 2 * mval bs ->
  exists st', decode_loop tree st code (first_code lens n) (idx lens n) (Z.of_nat (S n)) k = Got (st', Z.of_nat s) /\
    stream_ok st' /\ sbits st' = rest.
Proof.
  induction k as [|k IH]; intros n st code bs Ht Hl Hs Hn Hst He Hc Hf HL Hsb Hlen Hcan; [lia|].
  destruct bs as [|b bs]; [simpl in Hlen; lia|].
  destruct (read_bit_cons st b (bs ++ rest) Hst Hsb) as (st1 & E1 & Hst1 & Es1 & _).
  rewrite (decode_turn lens tree st st1 b n k code) by (done || lia).
  assert (Hb : 0 <= Z.b2z b <= 1) by (destruct b; simpl; lia).
  destruct (canon_bound lens s L (to_kraft _ _ Ht) Hs) as [Hcb _]; [lia|].
  cbn [length mval] in Hlen, Hcan.
  replace (alen (b :: bs)) with (Z.succ (alen bs)) in Hcan by (unfold alen; simpl; lia).
  rewrite Z.pow_succ_r in Hcan by (unfold alen; lia).
  destruct bs as [|b' bs].
  - simpl in Hlen. assert (L = S n) as -> by lia. replace (S n - 1)%nat with n in Hcb by lia.
    change (alen []) with 0 in Hcan. change (2 ^ 0) with 1 in Hcan. cbn [mval] in Hcan.
    assert (Ec : code + Z.b2z b = canon lens s (S n)) by lia. rewrite Ec.
    destruct (Z.ltb_spec (canon lens s (S n)) (first_code lens n + cnt (Z.of_nat (S n)) lens)); [|lia].
    destruct (table_lookup lens tree n (canon lens s (S n))) as (s' & E & Ec' & Er); [done | done | lia | lia |].
    rewrite Er. cbn [obind]. assert (s' = s) as ->; [|by exists st1].
    unfold canon in Ec'. destruct (Nat.lt_trichotomy s s') as [Hlt|[|Hlt]]; [|done|].
    + pose proof (cnt_take_strict lens s s' _ Hs Hlt). lia.
    + pose proof (cnt_take_strict lens s' s _ E Hlt). lia.
  - set (bs1 := b' :: bs) in *. pose proof (mval_range bs1) as Hr.
    assert (HLn : (L - 1 = S (L - n - 2) + n)%nat) by (unfold bs1 in Hlen; simpl in Hlen; lia).
    pose proof (first_code_growth lens n (L - n - 2)) as Hg. rewrite <- HLn in Hg.
    replace (Z.of_nat (S (L - n - 2))) with (alen bs1) in Hg by (unfold alen; lia).
    destruct (Z.ltb_spec (code + Z.b2z b) (first_code lens n + cnt (Z.of_nat (S n)) lens)); [nia|].
    rewrite Nat2Z.inj_succ, Z.pow_succ_r in Hc by lia.
    apply (IH (S n) st1 (2 * (code + Z.b2z b)) bs1); try done; try lia.
    + by rewrite Z.even_mul.
    + rewrite (Nat2Z.inj_succ (S n)), Z.pow_succ_r, Nat2Z.inj_succ, Z.pow_succ_r by lia. lia.
    + cbn [first_code]. lia.
Qed.

Lemma decode_symbol_code lens tree st s L rest : table_ok lens tree -> alen lens <= 288 ->
  lens !! s = Some L -> 1 <= L -> stream_ok st -> sbits st = code_bits lens s ++ rest ->
  exists st', decode_symbol st tree = Got (st', Z.of_nat s) /\ stream_ok st' /\ sbits st' = rest.
Proof.
  intros Ht Hl Hs HL Hst Hsb. unfold decode_symbol. assert (H15 := Forall_lookup_1 _ _ _ _ (to_max _ _ Ht) Hs).
  simpl in H15. unfold code_bits in Hsb. rewrite (nth_lookup_Some _ _ _ _ Hs) in Hsb.
  rewrite <- (Z2Nat.id L) in Hs by lia.
  destruct (canon_bound lens s (Z.to_nat L) (to_kraft _ _ Ht) Hs) as [Hc1 Hc2]; [lia|].
  pose proof (first_code_nonneg lens (Z.to_nat L - 1)).
  apply (decode_loop_complete lens tree s (Z.to_nat L) rest 15 0 st 0
    (rev (byte_bits (Z.to_nat L) (canon lens s (Z.to_nat L)))) Ht Hl Hs eq_refl Hst); try done; try lia.
  - rewrite List.length_rev, byte_bits_length. lia.
  - rewrite mval_rev, bval_byte_bits, Z.mod_small by lia. lia.
Qed.

Lemma fixed_lens_ok : lens_ok fixed_literal_lengths /\ lens_ok fixed_distance_lengths.
Proof.
  unfold fixed_literal_lengths, fixed_distance_lengths, lens_ok.
  repeat split; try (rewrite !Forall_app; repeat split); try (apply Forall_replicate; lia); by vm_compute.
Qed.

(** ** The canonical code is inverted *)

(** C29: [build_huffman] and [decode_symbol] implement the canonical prefix code
    of RFC 1951: when a table could be built from a list of code lengths, then
    on every stream whose next bits are the canonical code of a symbol (the
    code is computed from the lengths alone, most significant bit first) the
    decoder returns exactly that symbol and consumes exactly those bits,
    whatever follows them. *)
Theorem decode_symbol_inverts_code lens tree st s L rest : lens_ok lens -> build_huffman lens = Got tree ->
  lens !! s = Some L -> 1 <= L -> stream_ok st -> sbits st = code_bits lens s ++ rest ->
  exists st', decode_symbol st tree = Got (st', Z.of_nat s) /\ stream_ok st' /\ sbits st' = rest.
Proof.
  intros Hl Hb Hs HL Hst Hsb. destruct (build_huffman_spec lens Hl) as [E|(t & E & Ht)]; rewrite Hb in E; [done|].
  injection E as <-. by apply (decode_symbol_code lens tree st s L rest Ht (proj2 Hl)).
Qed.

(** Symbol 200 of the fixed literal code is 111001000, nine bits. *)
Lemma decode_symbol_inverts_code_witness : exists tree st', build_huffman fixed_literal_lengths = Got tree /\
  decode_symbol (Stream [0x27; 0x5A] 0 0 0) tree = Got (st', 200) /\ stream_ok st' /\
  sbits st' = byte_bits 7 0x2D.
Proof.
  destruct (build_huffman fixed_literal_lengths) as [tree| |] eqn:E; [|by vm_compute in E..].
  destruct (decode_symbol_inverts_code fixed_literal_lengths tree (Stream [0x27; 0x5A] 0 0 0) 200 9 (byte_bits 7 0x2D))
    as (st' & H); [| exact E | reflexivity | lia | | vm_compute; reflexivity | exists tree, st'; by split].
  - apply fixed_lens_ok.
  - split; simpl; unfold alen; simpl; [lia | | lia | lia]. repeat constructor; unfold byte; lia.
Defined.
