(* ===== verification/GzipSafe.v ===== *)
(** * lib/gzip.c: no input makes the decompressor go wrong

    Every definition of Gzip is run through one predicate, [safe]: the result
    is never [Stuck], and a successful result satisfies a postcondition. *)
From S2P Require Import Prelude Crypto CryptoSpec Pmm Gzip GzipSpec.
#[local] Open Scope Z_scope.
#[local] Open Scope list_scope.

Definition safe {A} (P : A -> Prop) (m : out A) : Prop :=
  match m with Got a => P a | Fail c => c = - E_INVAL | Stuck => False end.

Lemma safe_bad {A} (P : A -> Prop) : safe P bad.
Proof. done. Qed.

Lemma safe_bind {A B} (P : A -> Prop) (Q : B -> Prop) (m : out A) (f : A -> out B) :
  safe P m -> (forall a, P a -> safe Q (f a)) -> safe Q (try x <- m; f x).
Proof. destruct m; simpl; auto. Qed.

Lemma safe_mono {A} (P Q : A -> Prop) (m : out A) : safe P m -> (forall a, P a -> Q a) -> safe Q m.
Proof. destruct m; simpl; auto. Qed.

Tactic Notation "bind" uconstr(H) := eapply safe_bind; [eapply H | cbv beta].


(** ** The parts *)

Definition left (st : deflate_stream) : nat := length (sbits st).

Lemma read_bits_safe st c : 0 <= c <= 16 -> stream_ok st ->
  safe (fun r => stream_ok r.1 /\ (left r.1 + Z.to_nat c = left st)%nat /\ 0 <= r.2 < 2 ^ c) (read_bits st c).
Proof.
  intros Hc Hst. pose proof (read_bits_spec st c Hc Hst) as H. pose proof (sbits_length 8 st Hst) as L.
  destruct (Z.leb_spec c (bits_left st)); [|by rewrite H].
  destruct H as (st' & -> & H1 & H2 & _). simpl. split; [done|]. split.
  - unfold left. rewrite H2, length_drop. lia.
  - pose proof (bval_range (take (Z.to_nat c) (sbits st))) as Hr. rewrite length_take in Hr.
    replace (Z.of_nat (Z.to_nat c `min` length (sbits st))) with c in Hr by lia. done.
Qed.

Lemma rd_safe {A} (l : list A) i : 0 <= i < alen l -> safe (fun x => l !! Z.to_nat i = Some x) (rd l i).
Proof. intros H. destruct (rd_lt l i H) as (x & -> & E). done. Qed.

Lemma rd_safe_Forall {A} (P : A -> Prop) (l : list A) i : Forall P l -> 0 <= i < alen l -> safe P (rd l i).
Proof. intros HP H. destruct (rd_lt l i H) as (x & -> & E). by apply (Forall_lookup_1 _ _ _ _ HP E). Qed.

Lemma wr_safe {A} (P : A -> Prop) (l : list A) i x : 0 <= i < alen l -> Forall P l -> P x ->
  safe (fun l' => alen l' = alen l /\ Forall P l') (wr l i x).
Proof.
  intros H HP Hx. unfold wr. destruct (Z.leb_spec 0 i), (Z.ltb_spec i (alen l)); try lia. simpl.
  split; [unfold alen; by rewrite length_insert | by apply Forall_insert].
Qed.

Lemma push_all_spec {A} cap (xs : list A) : forall l, alen l + alen xs <= cap -> push_all cap l xs = Got (l ++ xs).
Proof.
  induction xs as [|x xs IH]; intros l H; cbn [push_all]; [by rewrite app_nil_r|].
  unfold push, alen in *. cbn [length] in H. destruct (Z.ltb_spec (Z.of_nat (length l)) cap); [|lia].
  cbn [obind]. rewrite IH; [by rewrite <- app_assoc|]. rewrite length_app. simpl. lia.
Qed.

Lemma build_huffman_safe lens : lens_ok lens -> safe (table_ok lens) (build_huffman lens).
Proof. intros H. destruct (build_huffman_spec lens H) as [->|(t & -> & Ht)]; done. Qed.

(** A tree that decodes to one of [n] symbols. *)
Definition tree_ok (n : Z) (t : deflate_huffman) : Prop := exists lens, lens_ok lens /\ alen lens <= n /\ table_ok lens t.

Lemma decode_symbol_safe n t st : tree_ok n t -> stream_ok st ->
  safe (fun r => stream_ok r.1 /\ (left r.1 < left st)%nat /\ 0 <= r.2 < n) (decode_symbol st t).
Proof.
  intros (lens & Hl & Hn & Ht) Hst. destruct (decode_symbol_sound lens t st Ht (proj2 Hl) Hst) as [->|H]; [done|].
  destruct H as (st' & s & L & -> & Hs & HL & Hok & Hb). simpl. split; [done|]. split.
  - unfold left. rewrite Hb, length_app. unfold code_bits.
    rewrite (nth_lookup_Some _ _ _ _ Hs), List.length_rev, byte_bits_length. lia.
  - apply lookup_lt_Some in Hs. unfold alen in Hn. lia.
Qed.

Lemma build_tree_safe lens n : lens_ok lens -> alen lens <= n -> safe (tree_ok n) (build_huffman lens).
Proof. intros Hl Hn. eapply safe_mono; [by apply build_huffman_safe|]. intros t Ht. by exists lens. Qed.

Lemma build_fixed_trees_safe : safe (fun p => tree_ok 288 p.1 /\ tree_ok 288 p.2) build_fixed_trees.
Proof.
  destruct fixed_lens_ok as [H1 H2]. unfold build_fixed_trees.
  bind (build_tree_safe _ 288 H1); [apply H1|]. intros lit Hlit.
  bind (build_tree_safe _ 288 H2); [apply H2|]. intros dist Hdist. done.
Qed.

(** ** Dynamic trees *)

Lemma code_order_range i : 0 <= i < 19 -> safe (fun p => 0 <= p < 19) (rd code_order i).
Proof.
  intros H. apply rd_safe_Forall; [|by unfold alen; simpl; lia].
  unfold code_order. repeat constructor; lia.
Qed.

Lemma read_code_lengths_safe k : forall st cl i, stream_ok st -> alen cl = 19 -> Forall (fun l => 0 <= l) cl ->
  0 <= i -> i + Z.of_nat k <= 19 ->
  safe (fun r => stream_ok r.1 /\ (left r.1 <= left st)%nat /\ lens_ok r.2) (read_code_lengths st cl i k).
Proof.
  induction k as [|k IH]; intros st cl i Hst Hc Hf Hi Hk; cbn [read_code_lengths].
  { simpl. split; [done|]. split; [lia|]. split; [done | lia]. }
  bind read_bits_safe; [lia | done |]. intros [st1 v] (H1 & H2 & _). simpl in H1, H2.
  bind code_order_range; [lia|]. intros p Hp.
  bind (wr_safe (fun l => 0 <= l)); [lia | done | apply u8_range |].
  intros cl' [Hl Hf']. eapply safe_mono; [apply IH; (done || lia)|].
  intros [st2 cl2] (P1 & P2 & P3). simpl in *. split; [done|]. split; [lia | done].
Qed.

(** Every symbol stands for at least one length. *)
Lemma length_run_safe st ls s : stream_ok st -> Forall (fun l => 0 <= l) ls ->
  safe (fun r => stream_ok r.1.1 /\ (left r.1.1 <= left st)%nat /\ 1 <= r.1.2 /\ 0 <= r.2) (length_run st ls s).
Proof.
  intros Hst Hf. unfold length_run.
  assert (Hr : forall c n l, 0 <= c <= 16 -> 1 <= n -> 0 <= l ->
    safe (fun r => stream_ok r.1.1 /\ (left r.1.1 <= left st)%nat /\ 1 <= r.1.2 /\ 0 <= r.2)
      (try (st, value) <- read_bits st c; Got (st, value + n, l))).
  { intros c n l Hc Hn Hl. bind read_bits_safe; [lia | done |]. intros [st1 v] (H1 & H2 & H3). simpl in *.
    split; [done | lia]. }
  destruct (s =? 16); [|destruct (s =? 17); [|destruct (s =? 18); [|done]]]; [|apply Hr; lia..].
  destruct (Z.eqb_spec (alen ls) 0); [done|].
  bind read_bits_safe; [lia | done |]. intros [st1 v] (H1 & H2 & H3). simpl in H1, H2, H3.
  bind (rd_safe_Forall (fun l => 0 <= l)); [done | unfold alen in *; lia |]. intros l Hl. simpl. split; [done | lia].
Qed.

Lemma read_lengths_safe t total k : forall st ls, tree_ok 288 t -> stream_ok st -> Forall (fun l => 0 <= l) ls ->
  alen ls <= total -> total <= 318 -> total - alen ls <= Z.of_nat k ->
  safe (fun r => stream_ok r.1 /\ (left r.1 <= left st)%nat /\ Forall (fun l => 0 <= l) r.2 /\ alen r.2 = total)
    (read_lengths k st t ls total).
Proof.
  induction k as [|k IH]; intros st ls Ht Hst Hf Hle H318 Hk; cbn [read_lengths];
    (destruct (Z.ltb_spec (alen ls) total); [|simpl; split; [done | split; [lia | split; [done | lia]]]]); [lia|].
  bind (decode_symbol_safe 288); [done | done |]. intros [st1 s] (H1 & H2 & H3). simpl in H1, H2, H3.
  assert (Happ : forall st2 xs, stream_ok st2 -> (left st2 <= left st1)%nat -> Forall (fun l => 0 <= l) xs ->
    1 <= alen xs -> alen xs <= total - alen ls ->
    safe (fun r => stream_ok r.1 /\ (left r.1 <= left st)%nat /\ Forall (fun l => 0 <= l) r.2 /\ alen r.2 = total)
      (read_lengths k st2 t (ls ++ xs) total)).
  { intros st2 xs P1 P2 P3 P4 P5. eapply safe_mono; [apply IH|]; try done.
    - by apply Forall_app.
    - unfold alen in *. rewrite length_app. lia.
    - unfold alen in *. rewrite length_app. lia.
    - intros [st3 ls3] (Q1 & Q2 & Q3). simpl in *. split; [done|]. split; [lia | done]. }
  destruct (s <=? 15).
  - unfold push. destruct (Z.ltb_spec (alen ls) 318); [|lia]. cbn [obind].
    apply (Happ st1 [u8 s]); [done | lia | | unfold alen; simpl; lia | unfold alen in *; simpl; lia].
    repeat constructor. apply u8_range.
  - bind length_run_safe; [done | done |]. intros [[st2 n] l] (P1 & P2 & P3 & P4). simpl in P1, P2, P3, P4.
    destruct (Z.ltb_spec (total - alen ls) n); [done|].
    assert (El : alen (replicate (Z.to_nat n) l) = n) by (unfold alen; rewrite length_replicate; lia).
    rewrite push_all_spec by lia. cbn [obind]. apply Happ; try done; try lia. by apply Forall_replicate.
Qed.

Lemma lens_ok_take n ls : Forall (fun l => 0 <= l) ls -> 0 <= n <= 288 -> lens_ok (take (Z.to_nat n) ls).
Proof. intros H Hn. split; [by apply Forall_take|]. unfold alen. rewrite length_take. lia. Qed.

Lemma build_dynamic_trees_safe st : stream_ok st ->
  safe (fun r => stream_ok r.1.1 /\ (left r.1.1 <= left st)%nat /\ tree_ok 288 r.1.2 /\ tree_ok 288 r.2)
    (build_dynamic_trees st).
Proof.
  intros Hst. unfold build_dynamic_trees.
  bind read_bits_safe; [lia | done |]. intros [st1 v1] (A1 & A2 & A3). simpl in A1, A2, A3.
  bind read_bits_safe; [lia | done |]. intros [st2 v2] (B1 & B2 & B3). simpl in B1, B2, B3.
  bind read_bits_safe; [lia | done |]. intros [st3 v3] (C1 & C2 & C3). simpl in C1, C2, C3.
  destruct (Z.ltb_spec 286 (v1 + 257)), (Z.ltb_spec 32 (v2 + 1)); try done. cbn [orb].
  bind read_code_lengths_safe; [done | done | by apply Forall_replicate | lia | lia |].
  intros [st4 cl] (D1 & D2 & D3). simpl in D1, D2, D3.
  bind (build_tree_safe cl 288 D3); [apply D3|]. intros t Ht.
  bind read_lengths_safe; try done; [unfold alen; simpl; lia | lia | unfold alen; simpl; lia |].
  intros [st5 ls] (E1 & E2 & E3 & E4). simpl in E1, E2, E3, E4.
  bind rd_safe; [lia|]. intros eob _. destruct (eob =? 0); [done|].
  pose proof (lens_ok_take (v1 + 257) ls E3 ltac:(lia)) as L1.
  pose proof (lens_ok_take (v2 + 1) _ (Forall_drop _ (Z.to_nat (v1 + 257)) _ E3) ltac:(lia)) as L2.
  bind (build_tree_safe _ 288 L1); [apply L1|]. intros lit Hlit.
  bind (build_tree_safe _ 288 L2); [apply L2|]. intros dist Hdist. simpl.
  split; [done|]. split; [lia | done].
Qed.

(** ** Blocks *)

(** What has been written so far: bytes, within the buffer. *)
Definition out_ok (cap : Z) (o : list Z) : Prop := Forall byte o /\ alen o <= cap.

Lemma out_ok_app cap a b : out_ok cap a -> Forall byte b -> alen a + alen b <= cap -> out_ok cap (a ++ b).
Proof. intros [H1 H2] H3 H4. split; [by apply Forall_app | by rewrite alen_app]. Qed.

(** [read_extra] reads both tables at the same index. *)
Lemma read_extra_safe st base extra i : stream_ok st -> 0 <= i < alen base -> alen extra = alen base ->
  Forall (fun b => 1 <= b) base -> Forall (fun e => 0 <= e <= 13) extra ->
  safe (fun r => stream_ok r.1 /\ (left r.1 <= left st)%nat /\ 1 <= r.2) (read_extra st base extra i).
Proof.
  intros Hst Hi Hl Hb He. unfold read_extra.
  bind rd_safe_Forall; [exact Hb | done |]. intros b Hb1. bind rd_safe_Forall; [exact He | lia |]. intros e He1.
  simpl in Hb1, He1. destruct (Z.eqb_spec e 0); [simpl; split; [done | lia]|].
  bind read_bits_safe; [lia | done |]. intros [st1 v] (H1 & H2 & H3). simpl in *. split; [done | lia].
Qed.

Lemma length_safe st i : stream_ok st -> 0 <= i < 29 ->
  safe (fun r => stream_ok r.1 /\ (left r.1 <= left st)%nat /\ 1 <= r.2) (read_extra st length_base length_extra i).
Proof.
  intros Hst Hi. apply read_extra_safe; try done; [unfold length_base | unfold length_extra]; repeat constructor; lia.
Qed.

Lemma distance_safe st i : stream_ok st -> 0 <= i < 30 ->
  safe (fun r => stream_ok r.1 /\ (left r.1 <= left st)%nat /\ 1 <= r.2) (read_extra st distance_base distance_extra i).
Proof.
  intros Hst Hi. apply read_extra_safe; try done; [unfold distance_base | unfold distance_extra]; repeat constructor; lia.
Qed.

Lemma copy_match_safe cap n : forall o src, out_ok cap o -> 0 <= src < alen o -> alen o + Z.of_nat n <= cap ->
  safe (out_ok cap) (copy_match cap o src n).
Proof.
  induction n as [|n IH]; intros o src Ho Hs Hn; cbn [copy_match]; [done|].
  bind rd_safe_Forall; [apply Ho | done |]. intros b Hb. unfold push.
  destruct (Z.ltb_spec (alen o) cap); [|lia]. cbn [obind].
  apply IH; [apply out_ok_app; auto; unfold alen in *; simpl; lia | rewrite alen_app; unfold alen in *; simpl; lia
            | rewrite alen_app; unfold alen in *; simpl; lia].
Qed.

Lemma emit_match_safe cap o len dist : out_ok cap o -> 1 <= len -> 1 <= dist ->
  safe (out_ok cap) (emit_match cap o len dist).
Proof.
  intros Ho Hl Hd. unfold emit_match.
  destruct (Z.ltb_spec (alen o) dist), (Z.ltb_spec (cap - alen o) len); try done. cbn [orb].
  destruct (Z.leb_spec len dist).
  - assert (Ht : alen (take (Z.to_nat len) (drop (Z.to_nat (alen o - dist)) o)) <= len)
      by (unfold alen; rewrite length_take; lia).
    rewrite push_all_spec by lia. apply out_ok_app; [done | apply Forall_take, Forall_drop, Ho | lia].
  - apply copy_match_safe; [done | lia | lia].
Qed.

Lemma compressed_loop_safe cap lit dist k : forall st o ls, tree_ok 288 lit -> tree_ok 288 dist -> stream_ok st ->
  Forall byte o -> Forall byte ls -> alen ls < 16 -> alen o + alen ls <= cap -> (left st < k)%nat ->
  safe (fun r => stream_ok r.1 /\ (left r.1 < left st)%nat /\ out_ok cap r.2) (compressed_loop k st cap o ls lit dist).
Proof.
  induction k as [|k IH]; intros st o ls Hlit Hdist Hst Ho Hls H16 Hcap Hk; cbn [compressed_loop]; [lia|].
  assert (Hnil : Forall byte [] /\ alen (@nil Z) = 0) by done. destruct Hnil as [Hnil Hnil0].
  assert (Hgo : forall st1 o1 ls1, stream_ok st1 -> (left st1 < left st)%nat -> Forall byte o1 -> Forall byte ls1 ->
    alen ls1 < 16 -> alen o1 + alen ls1 <= cap ->
    safe (fun r => stream_ok r.1 /\ (left r.1 < left st)%nat /\ out_ok cap r.2) (compressed_loop k st1 cap o1 ls1 lit dist)).
  { intros. eapply safe_mono; [apply IH; (done || lia)|]. intros [st2 o2] (P1 & P2 & P3). simpl in *.
    split; [done|]. split; [lia | done]. }
  bind (decode_symbol_safe 288); [done | done |]. intros [st1 s] (H1 & H2 & H3). simpl in H1, H2, H3.
  destruct (Z.ltb_spec s 256); [|destruct (Z.eqb_spec s 256); [|destruct (Z.ltb_spec 285 s); [done|]]].
  - destruct (Z.ltb_spec cap (alen o + alen ls + 1)); [done|]. unfold push.
    destruct (Z.ltb_spec (alen ls) 16); [|lia]. cbn [obind].
    assert (Hls1 : Forall byte (ls ++ [u8 s])) by (apply Forall_app; split; [done | repeat constructor; apply u8_range]).
    assert (El : alen (ls ++ [u8 s]) = alen ls + 1) by (rewrite alen_app; done).
    destruct (Z.eqb_spec (alen (ls ++ [u8 s])) 16).
    + rewrite push_all_spec by lia. cbn [obind]. apply Hgo; try done; [by apply Forall_app | rewrite alen_app; lia].
    + apply Hgo; try done; lia.
  - rewrite push_all_spec by lia. cbn [obind safe fst snd]. split; [done|]. split; [done|]. by apply out_ok_app; [split; [done | unfold alen in *; lia] | |].
  - bind length_safe; [done | lia |]. intros [st2 len] (A1 & A2 & A3). simpl in A1, A2, A3.
    bind (decode_symbol_safe 288); [done | done |]. intros [st3 d] (B1 & B2 & B3). simpl in B1, B2, B3.
    destruct (Z.leb_spec 30 d); [done|].
    bind distance_safe; [done | lia |]. intros [st4 dis] (C1 & C2 & C3). simpl in C1, C2, C3.
    destruct (Z.eqb_spec dis 0); [lia|]. rewrite push_all_spec by lia. cbn [obind].
    bind emit_match_safe; [apply out_ok_app; [split; [done | unfold alen in *; lia] | done | done] | lia | lia |].
    intros o2 [Q1 Q2]. apply Hgo; try done; lia.
Qed.

Lemma align_to_byte_spec st : stream_ok st -> stream_ok (align_to_byte st) /\
  sbits (align_to_byte st) = data_bits (drop (Z.to_nat (offset st)) (data st)).
Proof.
  intros [H1 H2 H3 H4]. unfold align_to_byte.
  change 7 with (Z.ones 3). rewrite Z.land_ones, Z.mod_small by (simpl; lia).
  assert (E : Z.shiftr (bits st) (bit_count st) = 0)
    by (rewrite Z.shiftr_div_pow2, Z.div_small by lia; done).
  rewrite E, Z.sub_diag. split; [split; simpl; (done || lia) | done].
Qed.

Lemma align_left st : stream_ok st -> (left (align_to_byte st) <= left st)%nat.
Proof.
  intros H. unfold left. rewrite (proj2 (align_to_byte_spec st H)). unfold sbits. rewrite length_app. lia.
Qed.

Lemma copy_stored_safe cap n : forall st o, stream_ok st -> out_ok cap o -> alen o + Z.of_nat n <= cap ->
  safe (fun r => stream_ok r.1 /\ (left r.1 <= left st)%nat /\ out_ok cap r.2) (copy_stored st cap o n).
Proof.
  induction n as [|n IH]; intros st o Hst Ho Hn; cbn [copy_stored]; [simpl; split; [done | split; [lia | done]]|].
  bind read_bits_safe; [lia | done |]. intros [st1 v] (H1 & H2 & _). simpl in H1, H2. unfold push.
  destruct (Z.ltb_spec (alen o) cap); [|lia]. cbn [obind].
  eapply safe_mono; [apply IH; [done | apply out_ok_app; auto |]|].
  - repeat constructor; apply u8_range.
  - unfold alen in *. simpl. lia.
  - rewrite alen_app. unfold alen in *. simpl. lia.
  - intros [st2 o2] (P1 & P2 & P3). simpl in *. split; [done|]. split; [lia | done].
Qed.

Lemma inflate_block_safe st cap o type : stream_ok st -> out_ok cap o ->
  safe (fun r => stream_ok r.1 /\ (left r.1 <= left st)%nat /\ out_ok cap r.2) (inflate_block st cap o type).
Proof.
  intros Hst Ho. unfold inflate_block.
  assert (Hblock : forall st1 lit dist, stream_ok st1 -> (left st1 <= left st)%nat -> tree_ok 288 lit -> tree_ok 288 dist ->
    safe (fun r => stream_ok r.1 /\ (left r.1 <= left st)%nat /\ out_ok cap r.2)
      (inflate_compressed_block st1 cap o lit dist)).
  { intros st1 lit dist H1 H2 H3 H4. unfold inflate_compressed_block.
    pose proof (sbits_length 8 st1 H1) as L. destruct Ho as [Ho1 Ho2].
    eapply safe_mono; [apply compressed_loop_safe; try done; unfold alen in *; simpl; try lia; unfold left; lia|].
    intros [st2 o2] (P1 & P2 & P3). simpl in *. split; [done|]. split; [lia | done]. }
  destruct (type =? 0); [|destruct (type =? 1); [|destruct (type =? 2); [|done]]].
  - unfold inflate_stored_block. destruct (align_to_byte_spec st Hst) as [Ha _]. pose proof (align_left st Hst).
    bind read_bits_safe; [lia | done |]. intros [st1 n] (A1 & A2 & A3). simpl in A1, A2, A3.
    bind read_bits_safe; [lia | done |]. intros [st2 m] (B1 & B2 & _). simpl in B1, B2.
    destruct (negb _); [done|]. destruct (Z.ltb_spec (cap - alen o) n); [done|]. cbn [orb].
    eapply safe_mono; [apply copy_stored_safe; (done || lia)|].
    intros [st3 o3] (P1 & P2 & P3). simpl in *. split; [done|]. split; [lia | done].
  - bind build_fixed_trees_safe. intros [lit dist] [H1 H2]. by apply Hblock.
  - bind build_dynamic_trees_safe; [done|]. intros [[st1 lit] dist] (H1 & H2 & H3 & H4). by apply Hblock.
Qed.

Lemma inflate_loop_safe cap k : forall st o, stream_ok st -> out_ok cap o -> (left st < k)%nat ->
  safe (out_ok cap) (inflate_loop k st cap o).
Proof.
  induction k as [|k IH]; intros st o Hst Ho Hk; cbn [inflate_loop]; [lia|].
  bind read_bits_safe; [lia | done |]. intros [st1 final] (A1 & A2 & _). simpl in A1, A2.
  bind read_bits_safe; [lia | done |]. intros [st2 type] (B1 & B2 & _). simpl in B1, B2.
  bind inflate_block_safe; [done | done |]. intros [st3 o3] (C1 & C2 & C3). simpl in C1, C2, C3.
  destruct (final =? 0); [|done]. apply IH; [done | done | lia].
Qed.

Lemma start_ok input : Forall byte input -> stream_ok (Stream input 0 0 0).
Proof. intros H. split; simpl; (done || unfold alen; lia). Qed.

Lemma inflate_data_safe input cap : Forall byte input -> 0 <= cap -> safe (out_ok cap) (inflate_data input cap).
Proof.
  intros H Hcap. unfold inflate_data. apply inflate_loop_safe; [by apply start_ok | by split |].
  unfold left, sbits. rewrite length_app, byte_bits_length, data_bits_length, length_drop. simpl. lia.
Qed.

(** ** The container *)

Lemma gzip_crc_bit_eq c : gzip_crc_bit c = crc_bit c.
Proof.
  unfold gzip_crc_bit, crc_bit.
  assert (E : Z.land c 1 = Z.b2z (Z.testbit c 0))
    by (rewrite Z.bit0_mod; change 1 with (Z.ones 1); by apply Z.land_ones).
  rewrite E. destruct (Z.testbit c 0); simpl Z.b2z; [apply Z.lxor_comm | apply Z.lxor_0_r].
Qed.

Lemma gzip_crc32_serial l : Forall byte l -> gzip_crc32 l = crc_serial l.
Proof.
  intros H. unfold gzip_crc32, crc_serial. rewrite crc_serial_fold by done. f_equal. unfold crc_fold.
  generalize 0xFFFFFFFF. clear H. induction l as [|b l IH]; intros r; [done|]. cbn [foldl]. rewrite IH. f_equal.
  rewrite crc8_iter. generalize (Z.lxor r b). intros x. simpl Nat.iter. by rewrite !gzip_crc_bit_eq.
Qed.

Lemma lor_range n x y : 0 <= n -> 0 <= x < 2 ^ n -> 0 <= y < 2 ^ n -> 0 <= Z.lor x y < 2 ^ n.
Proof.
  intros Hn Hx Hy. apply range_of_testbit; [done | apply Z.lor_nonneg; lia |].
  intros i Hi. by rewrite Z.lor_spec, !(testbit_high _ n) by lia.
Qed.

Lemma load_le32_safe l i : Forall byte l -> 0 <= i -> i + 4 <= alen l ->
  safe (fun v => 0 <= v < 2 ^ 32 /\ load_le32 l i = Got v) (load_le32 l i).
Proof.
  intros Hl H1 H2.
  destruct (rd_lt l i) as (a & Ea & La); [lia|]. destruct (rd_lt l (i + 1)) as (b & Eb & Lb); [lia|].
  destruct (rd_lt l (i + 2)) as (c & Ec & Lc); [lia|]. destruct (rd_lt l (i + 3)) as (d & Ed & Ld); [lia|].
  unfold load_le32. rewrite Ea, Eb, Ec, Ed. cbn [obind safe]. split; [|done].
  assert (Hb : forall x n, byte x -> 0 <= n <= 24 -> 0 <= Z.shiftl x n < 2 ^ 32).
  { intros x n Hx Hn. unfold byte in Hx. rewrite Z.shiftl_mul_pow2 by lia.
    assert (0 < 2 ^ n) by (apply Z.pow_pos_nonneg; lia). assert (2 ^ n <= 2 ^ 24) by (apply Z.pow_le_mono_r; lia).
    change (2 ^ 24) with 16777216 in *. change (2 ^ 32) with 4294967296. nia. }
  pose proof (Forall_lookup_1 _ _ _ _ Hl La) as Pa. pose proof (Forall_lookup_1 _ _ _ _ Hl Lb) as Pb.
  pose proof (Forall_lookup_1 _ _ _ _ Hl Lc) as Pc. pose proof (Forall_lookup_1 _ _ _ _ Hl Ld) as Pd.
  pose proof (Hb a 0 Pa ltac:(lia)) as Qa. rewrite Z.shiftl_0_r in Qa.
  repeat (apply lor_range; [lia | |]); auto; apply Hb; (done || lia).
Qed.

Lemma skip_to_zero_safe input limit k : forall o, 0 <= o <= limit -> limit <= alen input -> limit - o <= Z.of_nat k ->
  safe (fun o' => o <= o' <= limit) (skip_to_zero k input limit o).
Proof.
  induction k as [|k IH]; intros o Ho Hl Hk; cbn [skip_to_zero];
    (destruct (Z.ltb_spec o limit); [|simpl; lia]); [lia|].
  bind rd_safe; [lia|]. intros b _. destruct (b =? 0); [simpl; lia|].
  eapply safe_mono; [apply IH; lia|]. simpl. lia.
Qed.

Lemma skip_field_safe input limit o : 0 <= o <= limit -> limit <= alen input ->
  safe (fun o' => o <= o' <= limit) (skip_zero_terminated_field input limit o).
Proof.
  intros Ho Hl. unfold skip_zero_terminated_field.
  bind skip_to_zero_safe; [done | done | unfold alen in *; lia |]. intros o1 H1.
  destruct (Z.leb_spec limit o1); [done|]. simpl. lia.
Qed.

Lemma skip_header_safe input trailer flags : Forall byte input -> 10 <= trailer <= alen input ->
  safe (fun o => 10 <= o < trailer) (skip_header input trailer flags).
Proof.
  intros Hb Ht. unfold skip_header.
  eapply (safe_bind (fun o => 10 <= o <= trailer)).
  { destruct (has_flag flags 0x04); [|simpl; lia]. destruct (Z.ltb_spec trailer (10 + 2)); [done|].
    bind (rd_safe_Forall byte); [done | lia |]. intros a Ha. bind (rd_safe_Forall byte); [done | lia |]. intros b Hb'.
    destruct (Z.ltb_spec (trailer - (10 + 2)) (Z.lor a (Z.shiftl b 8))); [done|]. unfold byte in *.
    assert (0 <= Z.lor a (Z.shiftl b 8)) by (apply Z.lor_nonneg; rewrite Z.shiftl_nonneg; lia). simpl. lia. }
  intros o1 H1. eapply (safe_bind (fun o => 10 <= o <= trailer)).
  { destruct (has_flag flags 0x08); [|done]. eapply safe_mono; [apply skip_field_safe; lia|]. simpl. lia. }
  intros o2 H2. eapply (safe_bind (fun o => 10 <= o <= trailer)).
  { destruct (has_flag flags 0x10); [|done]. eapply safe_mono; [apply skip_field_safe; lia|]. simpl. lia. }
  intros o3 H3. eapply (safe_bind (fun o => 10 <= o <= trailer)).
  { destruct (has_flag flags 0x02); [|done]. destruct (Z.ltb_spec trailer (o3 + 2)); [done|]. simpl. lia. }
  intros o4 H4. destruct (Z.leb_spec trailer o4); [done|]. simpl. lia.
Qed.

Lemma gzip_header_safe input : Forall byte input ->
  safe (fun r => 10 <= r.1 < alen input - 8 /\ 0 <= r.2 < 2 ^ 32 /\ load_le32 input (alen input - 4) = Got r.2)
    (gzip_header input).
Proof.
  intros Hb. unfold gzip_header. destruct (Z.ltb_spec (alen input) 18); [done|].
  do 4 (bind rd_safe; [lia | intros ? _]). destruct (_ || _); [done|].
  bind skip_header_safe; [done | lia |]. intros o Ho.
  bind load_le32_safe; [done | lia | lia |]. intros v Hv. simpl. split; [lia | done].
Qed.

(** C21: For every input whatsoever, of any length and with any bytes in it,
    [gzip_decompress] terminates without reading or writing outside an array,
    without reading a table cell that was never written and without outliving
    its loops' bounds.  Either it fails with EINVAL or ENOMEM, or the buffer it
    returns holds bytes only, is as long as the member's ISIZE field says, and
    its bit-serial CRC-32 is the one in the member's trailer. *)
Theorem gzip_decompress_safe pm input : Forall byte input ->
  match snd (gzip_decompress pm input) with
  | Stuck => False
  | Fail c => c = - E_INVAL \/ c = - E_NOMEM
  | Got (base, result) =>
      base <> 0 /\ Forall byte result /\ load_le32 input (alen input - 4) = Got (alen result) /\
      load_le32 input (alen input - 8) = Got (crc_serial result)
  end.
Proof.
  intros Hb. unfold gzip_decompress. pose proof (gzip_header_safe input Hb) as Hh.
  destruct (gzip_header input) as [[o n]|c|]; simpl in Hh; [|by left | done].
  destruct Hh as (Ho & Hn & Hl). destruct (pmm_alloc_contiguous pm _) as [pm' base].
  destruct (Z.eqb_spec base 0); [by right|]. cbn [snd].
  set (body := take _ _). assert (Hbody : Forall byte body) by (apply Forall_take, Forall_drop, Hb).
  pose proof (inflate_data_safe body n Hbody ltac:(lia)) as Hi.
  destruct (inflate_data body n) as [r|c|]; cbn [obind]; [|by left | done]. destruct Hi as [Hr _].
  pose proof (load_le32_safe input (alen input - 8) Hb ltac:(lia) ltac:(lia)) as Hs.
  destruct (load_le32 input (alen input - 8)) as [sum|c|]; cbn [obind]; [|by left | done].
  destruct (Z.eqb_spec (alen r) n) as [En|]; [|by left].
  destruct (Z.eqb_spec (gzip_crc32 r) sum) as [<-|]; [|by left]. cbn.
  rewrite En, <- gzip_crc32_serial by done. done.
Qed.

(** "abcabc..." with a match that overlaps its own output. *)
Definition demo_gz : list Z :=
  [31; 139; 8; 0; 0; 0; 0; 0; 2; 3; 75; 76; 74; 78; 68; 69; 0; 4; 192; 38; 220; 18; 0; 0; 0].

Lemma demo_gz_bytes : Forall byte demo_gz.
Proof. unfold demo_gz, byte. repeat constructor; lia. Qed.

Lemma gzip_decompress_safe_witness : exists result,
  snd (gzip_decompress demo_pmm demo_gz) = Got (8 * PAGE_SIZE, result) /\
  result = concat (replicate 6 [97; 98; 99]) /\ load_le32 demo_gz 17 = Got (crc_serial result).
Proof.
  pose proof (gzip_decompress_safe demo_pmm demo_gz demo_gz_bytes) as H.
  destruct (snd (gzip_decompress demo_pmm demo_gz)) as [[base r]|c|] eqn:E; [|by vm_compute in E..].
  destruct H as (_ & _ & _ & H). exists r. vm_compute in E. injection E as <- <-. split; [done|]. split; [done | exact H].
Defined.
