(* ===== verification/GzipRound.v ===== *)
(** * lib/gzip.c: what DEFLATE encodes is what comes out

    An encoder over LZ77 tokens, written from RFC 1951 and sharing nothing with
    the decoder but the tables of base values and extra bits and, for fixed
    blocks, the lengths of the fixed code, and the theorem that the decoder inverts it: literal batching, the block copy and the
    overlapping copy all implement the byte-by-byte window copy. *)
From S2P Require Import Prelude Crypto CryptoSpec Gzip GzipSpec GzipSafe.
#[local] Open Scope Z_scope.
#[local] Open Scope list_scope.

(** ** Tokens *)

Inductive token :=
| Lit (b : nat)
| Match (ls : nat) (lx : list bool) (ds : nat) (dx : list bool).

Definition match_length (ls : nat) (lx : list bool) : Z := nth (ls - 257) length_base 0 + bval lx.
Definition match_distance (ds : nat) (dx : list bool) : Z := nth ds distance_base 0 + bval dx.

Definition encode_token (L D : list Z) (t : token) : list bool :=
  match t with
  | Lit b => code_bits L b
  | Match ls lx ds dx => code_bits L ls ++ lx ++ code_bits D ds ++ dx
  end.

(** A symbol the code has. *)
Definition coded (lens : list Z) (s : nat) : Prop := exists l, lens !! s = Some l /\ 1 <= l.

Definition token_ok (L D : list Z) (t : token) : Prop :=
  match t with
  | Lit b => (b < 256)%nat /\ coded L b
  | Match ls lx ds dx =>
      (257 <= ls <= 285)%nat /\ coded L ls /\ alen lx = nth (ls - 257) length_extra 0 /\
      (ds < 30)%nat /\ coded D ds /\ alen dx = nth ds distance_extra 0
  end.

(** One byte from [dist] back, [n] times. *)
Fixpoint window_copy (o : list Z) (dist : Z) (n : nat) : list Z :=
  match n with
  | O => o
  | S k => window_copy (o ++ [nth (length o - Z.to_nat dist) o 0]) dist k
  end.

Definition expand_token (o : list Z) (t : token) : option (list Z) :=
  match t with
  | Lit b => Some (o ++ [Z.of_nat b])
  | Match ls lx ds dx =>
      if match_distance ds dx <=? alen o
      then Some (window_copy o (match_distance ds dx) (Z.to_nat (match_length ls lx))) else None
  end.

Fixpoint expand (o : list Z) (ts : list token) : option (list Z) :=
  match ts with
  | [] => Some o
  | t :: ts => match expand_token o t with Some o => expand o ts | None => None end
  end.

(** ** The copies *)

Lemma window_copy_length dist n : forall o, length (window_copy o dist n) = (length o + n)%nat.
Proof.
  induction n as [|n IH]; intros o; cbn [window_copy]; [lia|]. rewrite IH, length_app. simpl. lia.
Qed.

Lemma copy_match_window cap dist n : forall o, 1 <= dist <= alen o -> alen o + Z.of_nat n <= cap ->
  copy_match cap o (alen o - dist) n = Got (window_copy o dist n).
Proof.
  induction n as [|n IH]; intros o Hd Hc; cbn [copy_match window_copy]; [done|].
  destruct (rd_lt o (alen o - dist)) as (x & E & El); [lia|]. rewrite E. cbn [obind]. unfold push.
  destruct (Z.ltb_spec (alen o) cap); [|lia]. cbn [obind].
  replace (length o - Z.to_nat dist)%nat with (Z.to_nat (alen o - dist)) by (unfold alen in *; lia).
  rewrite (nth_lookup_Some _ _ _ _ El).
  replace (alen o - dist + 1) with (alen (o ++ [x]) - dist) by (rewrite alen_app; unfold alen; simpl; lia).
  apply IH; rewrite alen_app; unfold alen in *; simpl; lia.
Qed.

(** While the source does not reach what is being written, the copy is a block copy. *)
Lemma window_copy_block n : forall o dist, (n <= dist <= length o)%nat ->
  window_copy o (Z.of_nat dist) n = o ++ take n (drop (length o - dist) o).
Proof.
  intros o dist. revert o. cut (forall o m, (m + n <= dist <= length o)%nat ->
    window_copy (o ++ take m (drop (length o - dist) o)) (Z.of_nat dist) n =
    o ++ take (m + n) (drop (length o - dist) o)).
  { intros H o Hd. specialize (H o 0%nat ltac:(lia)). by rewrite app_nil_r in H. }
  induction n as [|n IH]; intros o m Hd; cbn [window_copy]; [by rewrite Nat.add_0_r|].
  set (src := drop (length o - dist) o) in *.
  assert (Hs : length src = dist) by (unfold src; rewrite length_drop; lia).
  rewrite length_app, length_take, Nat2Z.id.
  replace (length o + m `min` length src - dist)%nat with (length o - dist + m)%nat by lia.
  destruct (lookup_lt_is_Some_2 src m) as [x Ex]; [lia|].
  rewrite (nth_lookup_Some (o ++ take m src) _ 0 x).
  2:{ rewrite lookup_app_l by lia. rewrite <- lookup_drop. done. }
  rewrite <- app_assoc, <- (take_S_r _ _ _ Ex). replace (m + S n)%nat with (S m + n)%nat by lia.
  apply IH. lia.
Qed.

Lemma emit_match_window cap o len dist : 1 <= len -> 1 <= dist <= alen o -> alen o + len <= cap ->
  emit_match cap o len dist = Got (window_copy o dist (Z.to_nat len)).
Proof.
  intros Hl Hd Hc. unfold emit_match.
  destruct (Z.ltb_spec (alen o) dist), (Z.ltb_spec (cap - alen o) len); try lia. cbn [orb].
  destruct (Z.leb_spec len dist).
  - assert (Ht : alen (take (Z.to_nat len) (drop (Z.to_nat (alen o - dist)) o)) <= len)
      by (unfold alen; rewrite length_take; lia).
    rewrite push_all_spec by lia. f_equal.
    rewrite <- (Z2Nat.id dist) at 2 by lia. rewrite window_copy_block by (unfold alen in *; lia).
    do 3 f_equal. unfold alen. lia.
  - apply copy_match_window; lia.
Qed.

(** ** Tokens are decoded *)

Lemma read_prefix st bs rest : stream_ok st -> alen bs <= 16 -> sbits st = bs ++ rest ->
  exists st', read_bits st (alen bs) = Got (st', bval bs) /\ stream_ok st' /\ sbits st' = rest.
Proof.
  intros Hst Hl Hs. pose proof (read_bits_spec st (alen bs) ltac:(unfold alen in *; lia) Hst) as R.
  pose proof (sbits_length 8 st Hst) as Hlen. rewrite Hs, length_app in Hlen.
  destruct (Z.leb_spec (alen bs) (bits_left st)); [|unfold alen in *; lia].
  destruct R as (st' & -> & H1 & H2 & _). unfold alen in *. rewrite Nat2Z.id, Hs in *.
  rewrite take_app_length. rewrite drop_app_length in H2. by exists st'.
Qed.

Lemma rd_nth (l : list Z) (i : nat) : (i < length l)%nat -> rd l (Z.of_nat i) = Got (nth i l 0).
Proof.
  intros H. destruct (lookup_lt_is_Some_2 l i H) as [x E]. rewrite (nth_lookup_Some _ _ _ _ E).
  apply rd_lookup; [lia|]. by rewrite Nat2Z.id.
Qed.

Lemma read_extra_token st base extra i xs rest : stream_ok st -> (i < length base)%nat -> length extra = length base ->
  alen xs = nth i extra 0 -> alen xs <= 16 -> sbits st = xs ++ rest ->
  exists st', read_extra st base extra (Z.of_nat i) = Got (st', nth i base 0 + bval xs) /\
    stream_ok st' /\ sbits st' = rest.
Proof.
  intros Hst Hi Hl Hx H16 Hs. unfold read_extra. rewrite !rd_nth by lia. cbn [obind]. rewrite <- Hx.
  destruct (Z.eqb_spec (alen xs) 0) as [E|].
  - destruct xs; [|unfold alen in E; simpl in E; lia]. exists st. rewrite Z.add_0_r. done.
  - destruct (read_prefix st xs rest Hst H16 Hs) as (st' & -> & H). by exists st'.
Qed.

Lemma decode_coded lens tree st s rest : lens_ok lens -> table_ok lens tree -> coded lens s -> stream_ok st ->
  sbits st = code_bits lens s ++ rest ->
  exists st', decode_symbol st tree = Got (st', Z.of_nat s) /\ stream_ok st' /\ sbits st' = rest.
Proof. intros [_ Hl] Ht (l & E & H1) Hst Hs. by apply (decode_symbol_code lens tree st s l rest). Qed.

Lemma table_bounds (P : Z -> Prop) (l : list Z) i : Forall P l -> (i < length l)%nat -> P (nth i l 0).
Proof.
  intros H Hi. destruct (lookup_lt_is_Some_2 l i Hi) as [x E]. rewrite (nth_lookup_Some _ _ _ _ E).
  by apply (Forall_lookup_1 _ _ _ _ H E).
Qed.

Lemma length_tables i : (i < 29)%nat -> 1 <= nth i length_base 0 /\ nth i length_extra 0 <= 16.
Proof.
  intros Hi. split; [apply (table_bounds (fun b => 1 <= b)) | apply (table_bounds (fun e => e <= 16))];
    try done; unfold length_base, length_extra; repeat constructor; lia.
Qed.

Lemma distance_tables i : (i < 30)%nat -> 1 <= nth i distance_base 0 /\ nth i distance_extra 0 <= 16.
Proof.
  intros Hi. split; [apply (table_bounds (fun b => 1 <= b)) | apply (table_bounds (fun e => e <= 16))];
    try done; unfold distance_base, distance_extra; repeat constructor; lia.
Qed.

Section Block.
Context (L D : list Z) (lit dist : deflate_huffman) (cap : Z).
Context (HL : lens_ok L) (HD : lens_ok D) (Tl : table_ok L lit) (Td : table_ok D dist).

Lemma lit_step k st o ls b rest : (b < 256)%nat -> coded L b -> stream_ok st -> sbits st = code_bits L b ++ rest ->
  alen ls < 16 -> alen (o ++ ls) + 1 <= cap ->
  exists st' o' ls', compressed_loop (S k) st cap o ls lit dist = compressed_loop k st' cap o' ls' lit dist /\
    stream_ok st' /\ sbits st' = rest /\ o' ++ ls' = (o ++ ls) ++ [Z.of_nat b] /\ alen ls' < 16.
Proof.
  intros Hb Hc Hst Hs H16 Hcap. cbn [compressed_loop].
  destruct (decode_coded L lit st b rest HL Tl Hc Hst Hs) as (st1 & -> & H1 & H2). cbn [obind].
  rewrite alen_app in Hcap.
  destruct (Z.ltb_spec (Z.of_nat b) 256); [|lia]. destruct (Z.ltb_spec cap (alen o + alen ls + 1)); [lia|].
  unfold push. destruct (Z.ltb_spec (alen ls) 16); [|lia]. cbn [obind].
  assert (Eb : u8 (Z.of_nat b) = Z.of_nat b) by (unfold u8; apply Z.mod_small; lia). rewrite Eb.
  assert (El : alen (ls ++ [Z.of_nat b]) = alen ls + 1) by (rewrite alen_app; done).
  destruct (Z.eqb_spec (alen (ls ++ [Z.of_nat b])) 16).
  - rewrite push_all_spec by lia. cbn [obind]. exists st1, (o ++ ls ++ [Z.of_nat b]), [].
    split; [done|]. split; [done|]. split; [done|]. by rewrite app_nil_r, <- app_assoc.
  - exists st1, o, (ls ++ [Z.of_nat b]). split; [done|]. split; [done|]. split; [done|].
    rewrite <- app_assoc. split; [done | lia].
Qed.

Lemma match_step k st o ls s lx ds dx rest : token_ok L D (Match s lx ds dx) -> stream_ok st ->
  sbits st = encode_token L D (Match s lx ds dx) ++ rest ->
  match_distance ds dx <= alen (o ++ ls) -> alen (o ++ ls) + match_length s lx <= cap ->
  exists st', compressed_loop (S k) st cap o ls lit dist =
    compressed_loop k st' cap (window_copy (o ++ ls) (match_distance ds dx) (Z.to_nat (match_length s lx))) [] lit dist /\
    stream_ok st' /\ sbits st' = rest.
Proof.
  intros (Hs & Hc & Hlx & Hds & Hcd & Hdx) Hst Hb Hd Hcap. cbn [compressed_loop encode_token] in *.
  rewrite <- !app_assoc in Hb.
  destruct (length_tables (s - 257) ltac:(lia)) as [Lb Le]. destruct (distance_tables ds Hds) as [Db De].
  pose proof (bval_range lx) as Rl. pose proof (bval_range dx) as Rd.
  assert (1 <= match_length s lx) by (unfold match_length; lia).
  assert (1 <= match_distance ds dx) by (unfold match_distance; lia).
  destruct (decode_coded L lit st s _ HL Tl Hc Hst Hb) as (st1 & -> & A1 & A2). cbn [obind].
  destruct (Z.ltb_spec (Z.of_nat s) 256), (Z.eqb_spec (Z.of_nat s) 256), (Z.ltb_spec 285 (Z.of_nat s)); try lia.
  replace (Z.of_nat s - 257) with (Z.of_nat (s - 257)) by lia.
  destruct (read_extra_token st1 length_base length_extra (s - 257) lx _ A1 ltac:(simpl; lia) eq_refl Hlx ltac:(lia) A2)
    as (st2 & -> & B1 & B2). cbn [obind].
  destruct (decode_coded D dist st2 ds _ HD Td Hcd B1 B2) as (st3 & -> & C1 & C2). cbn [obind].
  destruct (Z.leb_spec 30 (Z.of_nat ds)); [lia|].
  destruct (read_extra_token st3 distance_base distance_extra ds dx _ C1 Hds eq_refl Hdx ltac:(lia) C2)
    as (st4 & -> & E1 & E2). cbn [obind].
  fold (match_length s lx) (match_distance ds dx). destruct (Z.eqb_spec (match_distance ds dx) 0); [lia|].
  rewrite push_all_spec by (rewrite alen_app in Hcap; lia). cbn [obind].
  rewrite emit_match_window by lia. cbn [obind]. by exists st4.
Qed.

Lemma expand_length ts : Forall (token_ok L D) ts -> forall o r, expand o ts = Some r -> alen o <= alen r.
Proof.
  induction 1 as [|t ts Ht _ IH]; intros o r E; cbn [expand] in E; [by injection E as -> |].
  destruct t as [b|s lx ds dx]; cbn [expand_token] in E.
  - apply IH in E. rewrite alen_app in E. unfold alen in *. simpl in E. lia.
  - destruct (_ <=? _); [|done]. apply IH in E. unfold alen in *. rewrite window_copy_length in E. lia.
Qed.

Lemma compressed_loop_tokens ts : Forall (token_ok L D) ts -> coded L 256 -> forall k st o ls r rest, stream_ok st ->
  sbits st = concat (List.map (encode_token L D) ts) ++ code_bits L 256 ++ rest ->
  alen ls < 16 -> expand (o ++ ls) ts = Some r -> alen r <= cap -> (length ts < k)%nat ->
  exists st', compressed_loop k st cap o ls lit dist = Got (st', r) /\ stream_ok st' /\ sbits st' = rest.
Proof.
  intros Hts H256. induction Hts as [|t ts Ht Hts IH]; intros k st o ls r rest Hst Hb H16 He Hr Hk;
    (destruct k as [|k]; [simpl in Hk; lia|]); cbn [List.map concat expand length] in *.
  - injection He as <-. cbn [compressed_loop].
    destruct (decode_coded L lit st 256 rest HL Tl H256 Hst Hb) as (st1 & -> & A1 & A2). cbn [obind].
    change (Z.of_nat 256 <? 256) with false. change (Z.of_nat 256 =? 256) with true. cbv iota.
    rewrite push_all_spec by (rewrite alen_app in Hr; lia). cbn [obind]. by exists st1.
  - rewrite <- app_assoc in Hb. destruct (expand_token (o ++ ls) t) as [o1|] eqn:Et; [|done].
    pose proof (expand_length ts Hts o1 r He) as Hle. destruct t as [b|s lx ds dx]; cbn [expand_token] in Et.
    + injection Et as <-. rewrite alen_app in Hle. change (alen [Z.of_nat b]) with 1 in Hle. destruct Ht as [Hb1 Hb2].
      destruct (lit_step k st o ls b _ Hb1 Hb2 Hst Hb H16 ltac:(lia)) as (st1 & o1 & ls1 & -> & A1 & A2 & A3 & A4).
      rewrite <- A3 in He. apply (IH k st1 o1 ls1 r rest); (done || lia).
    + destruct (Z.leb_spec (match_distance ds dx) (alen (o ++ ls))); [|done]. injection Et as <-.
      assert (Hl : alen (o ++ ls) + match_length s lx <= alen r).
      { unfold alen in Hle |- *. rewrite window_copy_length in Hle. lia. }
      destruct (match_step k st o ls s lx ds dx _ Ht Hst Hb) as (st1 & -> & A1 & A2); [done | lia |].
      apply (IH k st1 _ [] r rest); try done; [by rewrite app_nil_r | lia].
Qed.

Lemma inflate_block_tokens ts st o r rest : Forall (token_ok L D) ts -> coded L 256 -> stream_ok st ->
  sbits st = concat (List.map (encode_token L D) ts) ++ code_bits L 256 ++ rest ->
  expand o ts = Some r -> alen r <= cap ->
  exists st', inflate_compressed_block st cap o lit dist = Got (st', r) /\ stream_ok st' /\ sbits st' = rest.
Proof.
  intros Hts H256 Hst Hb He Hr. apply compressed_loop_tokens with ts; try done; [by rewrite app_nil_r|].
  rewrite <- (sbits_length 8 st Hst), Hb, !length_app. clear - Hts.
  assert (Hc : forall lens s, coded lens s -> (1 <= length (code_bits lens s))%nat).
  { intros lens s (l & E & H). unfold code_bits. rewrite (nth_lookup_Some _ _ _ _ E), List.length_rev, byte_bits_length. lia. }
  assert (H : (length ts <= length (concat (List.map (encode_token L D) ts)))%nat); [|lia].
  induction Hts as [|t ts Ht _ IH]; [done|]. cbn [List.map concat length]. rewrite length_app.
  destruct t as [b|s lx ds dx]; cbn [encode_token].
  - pose proof (Hc L b (proj2 Ht)). lia.
  - rewrite !length_app. pose proof (Hc L s (proj1 (proj2 Ht))). lia.
Qed.
End Block.

(** ** Whole streams *)

#[local] Opaque fixed_literal_lengths fixed_distance_lengths.

(** One block of type stored or fixed: what was written before, the bits from
    the type field on, the bits after the block, what has been written after.
    The padding of a stored block reaches the next byte of the input, so what
    follows the block is a whole number of bytes. *)
Inductive block_code : list Z -> list bool -> list bool -> list Z -> Prop :=
| code_stored o pad bytes rest : (length pad < 8)%nat -> (exists m, length rest = (8 * m)%nat) ->
    Forall byte bytes -> alen bytes < 65536 ->
    block_code o
      (false :: false :: pad ++ byte_bits 16 (alen bytes) ++ byte_bits 16 (65535 - alen bytes) ++ data_bits bytes ++ rest)
      rest (o ++ bytes)
| code_fixed o ts rest r : Forall (token_ok fixed_literal_lengths fixed_distance_lengths) ts ->
    expand o ts = Some r ->
    block_code o
      (true :: false :: concat (List.map (encode_token fixed_literal_lengths fixed_distance_lengths) ts) ++
       code_bits fixed_literal_lengths 256 ++ rest)
      rest r.

Inductive deflate : list Z -> list bool -> list Z -> Prop :=
| deflate_last o bits rest r : block_code o bits rest r -> deflate o (true :: bits) r
| deflate_more o bits rest o' r : block_code o bits rest o' -> deflate o' rest r -> deflate o (false :: bits) r.

Lemma block_code_grows o bits rest r : block_code o bits rest r -> alen o <= alen r /\ (length rest < length bits)%nat.
Proof.
  intros [o' pad bytes rest' _ _ _ _|o' ts rest' r' Hts He].
  - rewrite alen_app. cbn [length]. rewrite !length_app. unfold alen. lia.
  - cbn [length]. rewrite !length_app. apply expand_length with (1 := Hts) in He. lia.
Qed.

Lemma deflate_grows o bits r : deflate o bits r -> alen o <= alen r.
Proof.
  induction 1 as [o bits rest r Hb|o bits rest o' r Hb _ IH]; apply block_code_grows in Hb as [Hb _]; lia.
Qed.

(** Skipping the padding leaves the whole bytes. *)
Lemma align_skips st pad X m : stream_ok st -> sbits st = pad ++ X -> (length pad < 8)%nat -> length X = (8 * m)%nat ->
  stream_ok (align_to_byte st) /\ sbits (align_to_byte st) = X.
Proof.
  intros Hst Hs Hp Hm. destruct (align_to_byte_spec st Hst) as [Ha Hb]. split; [done|]. rewrite Hb.
  unfold sbits in Hs. set (Y := data_bits _) in *.
  assert (HY : exists n, length Y = (8 * n)%nat) by (eexists; apply data_bits_length).
  destruct HY as [n HY]. pose proof (so_count _ _ Hst) as Hc.
  assert (Hl : length (byte_bits (Z.to_nat (bit_count st)) (bits st)) = length pad).
  { apply (f_equal length) in Hs. rewrite !length_app, byte_bits_length in *. lia. }
  apply app_inj_1 in Hs; [|done]. apply Hs.
Qed.

Lemma copy_stored_bytes cap bytes : forall st o rest, stream_ok st -> Forall byte bytes ->
  sbits st = data_bits bytes ++ rest -> alen o + alen bytes <= cap ->
  exists st', copy_stored st cap o (length bytes) = Got (st', o ++ bytes) /\ stream_ok st' /\ sbits st' = rest.
Proof.
  induction bytes as [|b bytes IH]; intros st o rest Hst Hf Hs Hc; cbn [copy_stored length].
  { exists st. by rewrite app_nil_r. }
  inversion Hf as [|? ? Hb Hf']; subst. unfold data_bits in Hs. cbn [List.map concat] in Hs. rewrite <- app_assoc in Hs.
  destruct (read_prefix st (byte_bits 8 b) _ Hst ltac:(by unfold alen; rewrite byte_bits_length) Hs) as (st1 & E & H1 & H2).
  unfold alen in E. rewrite byte_bits_length, bval_byte_bits in E. change (Z.of_nat 8) with 8 in E. rewrite E. cbn [obind].
  unfold byte in Hb. change (2 ^ 8) with 256. rewrite Z.mod_small by lia.
  assert (Eb : u8 b = b) by (unfold u8; apply Z.mod_small; lia). rewrite Eb. unfold push.
  destruct (Z.ltb_spec (alen o) cap); [|unfold alen in *; simpl in Hc; lia]. cbn [obind].
  destruct (IH st1 (o ++ [b]) rest) as (st' & E' & H'); try done; [rewrite alen_app; unfold alen in *; simpl in *; lia|].
  exists st'. rewrite <- app_assoc in E'. done.
Qed.

Lemma byte_bits_prefix st n x rest : stream_ok st -> (n <= 16)%nat -> 0 <= x < 2 ^ Z.of_nat n ->
  sbits st = byte_bits n x ++ rest ->
  exists st', read_bits st (Z.of_nat n) = Got (st', x) /\ stream_ok st' /\ sbits st' = rest.
Proof.
  intros Hst Hn Hx Hs. destruct (read_prefix st (byte_bits n x) rest Hst ltac:(unfold alen; rewrite byte_bits_length; lia) Hs) as (st1 & E & H).
  unfold alen in E. rewrite byte_bits_length, bval_byte_bits, Z.mod_small in E by done. by exists st1.
Qed.

Lemma lxor_ffff x : 0 <= x < 65536 -> Z.lxor x 0xFFFF = 65535 - x.
Proof.
  intros H. change 0xFFFF with (Z.ones 16).
  assert (Hn : Z.land (Z.lxor x (Z.ones 16)) x = 0).
  { apply Z.bits_inj'. intros i Hi. rewrite Z.land_spec, Z.lxor_spec, Z.bits_0.
    destruct (Z.lt_ge_cases i 16).
    - rewrite Z.ones_spec_low by lia. by destruct (Z.testbit x i).
    - rewrite (testbit_high x 16) by lia. apply andb_false_r. }
  pose proof (Z.add_nocarry_lxor _ _ Hn) as E.
  rewrite (Z.lxor_comm x), Z.lxor_assoc, Z.lxor_nilpotent, Z.lxor_0_r in E. change (Z.ones 16) with 65535 in *.
  rewrite Z.lxor_comm in E. lia.
Qed.

Lemma stored_block st cap o pad bytes rest : stream_ok st -> (length pad < 8)%nat ->
  (exists m, length rest = (8 * m)%nat) -> Forall byte bytes -> alen bytes < 65536 ->
  sbits st = pad ++ byte_bits 16 (alen bytes) ++ byte_bits 16 (65535 - alen bytes) ++ data_bits bytes ++ rest ->
  alen o + alen bytes <= cap ->
  exists st', inflate_stored_block st cap o = Got (st', o ++ bytes) /\ stream_ok st' /\ sbits st' = rest.
Proof.
  intros Hst Hp [m Hm] Hf Hl Hs Hc. unfold inflate_stored_block.
  edestruct (align_skips st pad _ (4 + length bytes + m) Hst Hs Hp) as [A1 A2].
  { rewrite !length_app, !byte_bits_length, data_bits_length. lia. }
  assert (Hn : 0 <= alen bytes) by (unfold alen; lia).
  destruct (byte_bits_prefix _ 16 (alen bytes) _ A1 ltac:(lia) ltac:(simpl; lia) A2) as (st1 & E1 & B1 & B2).
  change (Z.of_nat 16) with 16 in E1. rewrite E1. cbn [obind].
  destruct (byte_bits_prefix _ 16 (65535 - alen bytes) _ B1 ltac:(lia) ltac:(simpl; lia) B2) as (st2 & E2 & C1 & C2).
  change (Z.of_nat 16) with 16 in E2. rewrite E2. cbn [obind].
  rewrite lxor_ffff, Z.eqb_refl by lia. cbn [negb orb]. destruct (Z.ltb_spec (cap - alen o) (alen bytes)); [lia|].
  unfold alen. rewrite Nat2Z.id. by apply copy_stored_bytes.
Qed.

Lemma fixed_trees : exists lit dist, build_fixed_trees = Got (lit, dist) /\
  table_ok fixed_literal_lengths lit /\ table_ok fixed_distance_lengths dist.
Proof.
  destruct fixed_lens_ok as [H1 H2]. unfold build_fixed_trees.
  destruct (build_huffman_spec _ H1) as [E|(lit & E & T1)]; [by vm_compute in E|]. rewrite E. cbn [obind].
  destruct (build_huffman_spec _ H2) as [E'|(dist & E' & T2)]; [by vm_compute in E'|]. rewrite E'. cbn [obind].
  exists lit, dist. split; [reflexivity|]. split; [exact T1 | exact T2].
Qed.

Lemma inflate_block_code st cap o b1 b2 bits rest r : block_code o (b1 :: b2 :: bits) rest r -> stream_ok st ->
  sbits st = bits -> alen r <= cap ->
  exists st', inflate_block st cap o (bval [b1; b2]) = Got (st', r) /\ stream_ok st' /\ sbits st' = rest.
Proof.
  intros Hb Hst Hs Hr. unfold inflate_block.
  inversion Hb as [? pad bytes ? Hp Hm Hf Hl|? ts ? ? Hts He]; subst; simpl (bval _); cbv iota.
  - rewrite alen_app in Hr. by apply (stored_block st cap o pad bytes rest).
  - destruct fixed_lens_ok as [Fl Fd]. destruct fixed_trees as (lit & dist & E & T1 & T2).
    change (1 =? 0) with false. change (1 =? 1) with true. cbv iota. rewrite E. cbn [obind].
    apply (inflate_block_tokens _ _ lit dist cap Fl Fd T1 T2 ts); [exact Hts | | done | done | exact He | done].
    exists 7. split; [by vm_compute | lia].
Qed.

Lemma inflate_loop_head cap o k st f b1 b2 bits : stream_ok st -> sbits st = f :: b1 :: b2 :: bits -> exists st',
  inflate_loop (S k) st cap o = (try (st, output) <- inflate_block st' cap o (bval [b1; b2]);
    if Z.b2z f =? 0 then inflate_loop k st cap output else Got output) /\ stream_ok st' /\ sbits st' = bits.
Proof.
  intros Hst Hs. cbn [inflate_loop].
  destruct (read_bit_cons st f _ Hst Hs) as (st1 & -> & A1 & A2 & _). cbn [obind].
  destruct (read_prefix st1 [b1; b2] bits A1 ltac:(by vm_compute) A2) as (st2 & E & B1 & B2).
  change (alen [b1; b2]) with 2 in E. rewrite E. cbn [obind]. by exists st2.
Qed.

Lemma block_code_type o bits rest r : block_code o bits rest r -> exists b1 b2 bits', bits = b1 :: b2 :: bits'.
Proof. intros [|]; eauto. Qed.

Lemma inflate_loop_code cap o bits r : deflate o bits r -> alen r <= cap -> forall k st, stream_ok st ->
  sbits st = bits -> (length bits < k)%nat -> inflate_loop k st cap o = Got r.
Proof.
  induction 1 as [o bits rest r Hb|o bits rest o' r Hb Hd IH]; intros Hr k st Hst Hs Hk;
    (destruct k as [|k]; [simpl in Hk; lia|]);
    destruct (block_code_type _ _ _ _ Hb) as (b1 & b2 & bs & ->);
    destruct (inflate_loop_head cap o k st _ b1 b2 bs Hst Hs) as (st1 & -> & A1 & A2).
  - destruct (inflate_block_code st1 cap o b1 b2 bs rest r Hb A1 A2 Hr) as (st2 & -> & _). done.
  - pose proof (deflate_grows _ _ _ Hd). destruct (block_code_grows _ _ _ _ Hb) as [_ Hlt].
    destruct (inflate_block_code st1 cap o b1 b2 bs rest o' Hb A1 A2 ltac:(lia)) as (st2 & -> & B1 & B2).
    cbn [obind]. apply IH; try done. cbn [length] in *. lia.
Qed.

(** C10: The decompressor inverts DEFLATE.  Take any sequence of stored blocks
    and of blocks in the fixed code, encoded as RFC 1951 lays them out (literal
    and match tokens with their extra bits, end-of-block codes, padding to the
    byte, lengths and their complements), whose bits are the bits of the
    input.  Then [inflate_data] returns exactly the bytes those blocks stand
    for, where a match means copying single bytes from [distance] back; no
    limit on the number of blocks or tokens, and the only condition on the
    buffer is that the result fits. *)
Theorem inflate_data_roundtrip input cap r : Forall byte input -> deflate [] (data_bits input) r -> alen r <= cap ->
  inflate_data input cap = Got r.
Proof.
  intros Hb Hd Hr. apply (inflate_loop_code cap [] (data_bits input)); try done.
  - by apply start_ok.
  - rewrite data_bits_length. lia.
Qed.

(** The body of [demo_gz]: four literals and an overlapping match of 14 bytes,
    three back. *)
Lemma inflate_data_roundtrip_witness :
  inflate_data [75; 76; 74; 78; 68; 69; 0] 18 = Got (concat (replicate 6 [97; 98; 99])).
Proof.
  assert (Hc : forall lens s l, lens !! s = Some l -> 1 <= l -> coded lens s) by (intros; eexists; eauto).
  apply inflate_data_roundtrip; [unfold byte; repeat constructor; lia | | by vm_compute].
  replace (data_bits [75; 76; 74; 78; 68; 69; 0]) with
    (true :: true :: false ::
     concat (List.map (encode_token fixed_literal_lengths fixed_distance_lengths)
       [Lit 97; Lit 98; Lit 99; Lit 97; Match 266 [true] 2 []]) ++ code_bits fixed_literal_lengths 256 ++
     [false]) by (vm_compute; reflexivity).
  eapply deflate_last. apply code_fixed; [|vm_compute; reflexivity].
  repeat constructor; try lia; eapply Hc; (vm_compute; reflexivity) || lia.
Defined.
