(* ===== verification/Lifecycle.v ===== *)
(** * kernel/proc.c: the life of a process

    fork, clone, kernel threads, exit, waitpid, the futex wakeups a dying
    thread sends and the part of execve that ends the other threads, over the
    scheduler state of SchedOps.  A task is a slot of the process table: the
    scheduler's part of its [proc_t] is a [proc], the rest an [extra].

    The address spaces and the cgroup tree are reached through the operations
    of the class [ProcEnv] (LifecycleEnv gives the instance made of the models
    of mm/vmm.c and kernel/cgroup/).  Paths, command lines and credentials are
    not part of the state, nor are the open files behind the descriptors:
    closing one may wake the tasks asleep on a pipe or a terminal, and rolling
    back semaphores those asleep on them, so an exit is given the list of the
    wakeups these calls made. *)
From S2P Require Import Prelude Sched SchedOps Signal.
#[local] Open Scope Z_scope.

(** ** State *)

(** The fields of [proc_t] beside the scheduler's.  [aspace] is -1 for NULL,
    [sigacts] is [sigact], [frame] the trap frame the task will return through. *)
Record extra := Extra {
  tgid : Z;
  sid : Z;
  exit_status : Z;
  term_sig : Z;
  group_dying : bool;
  vfork_parent : Z;
  wait_pid : Z;
  aspace : Z;
  sigacts : Z -> sigact;
  fs_base : Z;
  clear_child_tid : Z;
  umask : Z;
  fds : Z -> Z;
  fd_cloexec : Z;
  futex_addr : Z;
  futex_shared : bool;
  futex_key : Z;
  frame : regs
}.

Definition set_tgid (v : Z) (e : extra) : extra :=
  Extra v (sid e) (exit_status e) (term_sig e) (group_dying e) (vfork_parent e) (wait_pid e) (aspace e) (sigacts e)
    (fs_base e) (clear_child_tid e) (umask e) (fds e) (fd_cloexec e) (futex_addr e) (futex_shared e) (futex_key e) (frame e).
Definition set_sid (v : Z) (e : extra) : extra :=
  Extra (tgid e) v (exit_status e) (term_sig e) (group_dying e) (vfork_parent e) (wait_pid e) (aspace e) (sigacts e)
    (fs_base e) (clear_child_tid e) (umask e) (fds e) (fd_cloexec e) (futex_addr e) (futex_shared e) (futex_key e) (frame e).
Definition set_exit_status (v : Z) (e : extra) : extra :=
  Extra (tgid e) (sid e) v (term_sig e) (group_dying e) (vfork_parent e) (wait_pid e) (aspace e) (sigacts e)
    (fs_base e) (clear_child_tid e) (umask e) (fds e) (fd_cloexec e) (futex_addr e) (futex_shared e) (futex_key e) (frame e).
Definition set_term_sig (v : Z) (e : extra) : extra :=
  Extra (tgid e) (sid e) (exit_status e) v (group_dying e) (vfork_parent e) (wait_pid e) (aspace e) (sigacts e)
    (fs_base e) (clear_child_tid e) (umask e) (fds e) (fd_cloexec e) (futex_addr e) (futex_shared e) (futex_key e) (frame e).
Definition set_group_dying (v : bool) (e : extra) : extra :=
  Extra (tgid e) (sid e) (exit_status e) (term_sig e) v (vfork_parent e) (wait_pid e) (aspace e) (sigacts e)
    (fs_base e) (clear_child_tid e) (umask e) (fds e) (fd_cloexec e) (futex_addr e) (futex_shared e) (futex_key e) (frame e).
Definition set_vfork_parent (v : Z) (e : extra) : extra :=
  Extra (tgid e) (sid e) (exit_status e) (term_sig e) (group_dying e) v (wait_pid e) (aspace e) (sigacts e)
    (fs_base e) (clear_child_tid e) (umask e) (fds e) (fd_cloexec e) (futex_addr e) (futex_shared e) (futex_key e) (frame e).
Definition set_wait_pid (v : Z) (e : extra) : extra :=
  Extra (tgid e) (sid e) (exit_status e) (term_sig e) (group_dying e) (vfork_parent e) v (aspace e) (sigacts e)
    (fs_base e) (clear_child_tid e) (umask e) (fds e) (fd_cloexec e) (futex_addr e) (futex_shared e) (futex_key e) (frame e).
Definition set_aspace (v : Z) (e : extra) : extra :=
  Extra (tgid e) (sid e) (exit_status e) (term_sig e) (group_dying e) (vfork_parent e) (wait_pid e) v (sigacts e)
    (fs_base e) (clear_child_tid e) (umask e) (fds e) (fd_cloexec e) (futex_addr e) (futex_shared e) (futex_key e) (frame e).
Definition set_fds (v : Z -> Z) (e : extra) : extra :=
  Extra (tgid e) (sid e) (exit_status e) (term_sig e) (group_dying e) (vfork_parent e) (wait_pid e) (aspace e) (sigacts e)
    (fs_base e) (clear_child_tid e) (umask e) v (fd_cloexec e) (futex_addr e) (futex_shared e) (futex_key e) (frame e).

(** The fields of [proc_t] these operations change among the scheduler's. *)
Definition set_pid (v : Z) (p : proc) : proc :=
  Proc v (ppid p) (pgid p) (state p) (wait_reason p) (wake_tick p) (wait_q p) (itimer_expire p) (itimer_interval p)
    (sig_pending p) (sig_ignored p) (sig_mask p) (stop_sig p) (reported p) (traced p) (ptrace_stopped p) (vruntime p)
    (deadline p) (slice p) (last_run_tick p) (vlag p) (rq_cpu p) (tprio p) (pi_boost p) (bkl_held p) (on_cpu p) (cg p)
    (sched_weight p) (cg_park_next p).
Definition set_ppid (v : Z) (p : proc) : proc :=
  Proc (pid p) v (pgid p) (state p) (wait_reason p) (wake_tick p) (wait_q p) (itimer_expire p) (itimer_interval p)
    (sig_pending p) (sig_ignored p) (sig_mask p) (stop_sig p) (reported p) (traced p) (ptrace_stopped p) (vruntime p)
    (deadline p) (slice p) (last_run_tick p) (vlag p) (rq_cpu p) (tprio p) (pi_boost p) (bkl_held p) (on_cpu p) (cg p)
    (sched_weight p) (cg_park_next p).
Definition set_pgid (v : Z) (p : proc) : proc :=
  Proc (pid p) (ppid p) v (state p) (wait_reason p) (wake_tick p) (wait_q p) (itimer_expire p) (itimer_interval p)
    (sig_pending p) (sig_ignored p) (sig_mask p) (stop_sig p) (reported p) (traced p) (ptrace_stopped p) (vruntime p)
    (deadline p) (slice p) (last_run_tick p) (vlag p) (rq_cpu p) (tprio p) (pi_boost p) (bkl_held p) (on_cpu p) (cg p)
    (sched_weight p) (cg_park_next p).
Definition set_sigs (ign msk : Z) (p : proc) : proc :=
  Proc (pid p) (ppid p) (pgid p) (state p) (wait_reason p) (wake_tick p) (wait_q p) (itimer_expire p) (itimer_interval p)
    (sig_pending p) ign msk (stop_sig p) (reported p) (traced p) (ptrace_stopped p) (vruntime p)
    (deadline p) (slice p) (last_run_tick p) (vlag p) (rq_cpu p) (tprio p) (pi_boost p) (bkl_held p) (on_cpu p) (cg p)
    (sched_weight p) (cg_park_next p).
Definition set_cg (c w : Z) (p : proc) : proc :=
  Proc (pid p) (ppid p) (pgid p) (state p) (wait_reason p) (wake_tick p) (wait_q p) (itimer_expire p) (itimer_interval p)
    (sig_pending p) (sig_ignored p) (sig_mask p) (stop_sig p) (reported p) (traced p) (ptrace_stopped p) (vruntime p)
    (deadline p) (slice p) (last_run_tick p) (vlag p) (rq_cpu p) (tprio p) (pi_boost p) (bkl_held p) (on_cpu p) c
    w (cg_park_next p).

(** What the file asks of the address spaces and of the cgroup tree.  Address
    spaces are named by integers, -1 for NULL; [cg_attach_new] is given the
    task's slot, pid and address space and the group, and also gives the weight
    the task gets. *)
Class ProcEnv (V : Type) := {
  vmm_clone : V -> Z -> V * Z;
  vmm_share : V -> Z -> V * Z;
  vmm_put : V -> Z -> V;
  vmm_destroy : V -> Z -> V;
  vmm_kernel_as : Z;
  vmm_page_shared : V -> Z -> Z -> bool;
  vmm_resolve : V -> Z -> Z -> Z;
  vmm_copy_to_user : V -> Z -> Z -> Z -> nat -> V;
  cg_attach_new : V -> Z -> Z -> Z -> Z -> V * Z * Z;
  cg_detach : V -> Z -> V
}.

(** A futex_waitv sleeper's words: address, key, on a shared page. *)
Definition wv_ent : Type := Z * Z * bool.

(** [ext] completes the process table of [sch]; [waitv] is [g_futex_waitv],
    [kwork] the work queue of kthreadd (the slot of each item), [kthreadd] is
    [g_kthreadd]. *)
Record kern (V : Type) := Kern {
  sch : sched;
  busy : Z;
  next_pid : Z;
  ext : Z -> extra;
  waitv : Z -> list wv_ent;
  kwork : list Z;
  kthreadd : option Z;
  env : V
}.
Arguments Kern {V}.
Arguments sch {V}.
Arguments busy {V}.
Arguments next_pid {V}.
Arguments ext {V}.
Arguments waitv {V}.
Arguments kwork {V}.
Arguments kthreadd {V}.
Arguments env {V}.

(** A wakeup sent by one of the calls of an exit. *)
Inductive wakeup := WakeReason (why : wait_reason_t) | WakeQueue (q : Z).

Definition CLONE_VM := 0x100.
Definition CLONE_VFORK := 0x4000.
Definition CLONE_THREAD := 0x10000.
Definition CLONE_SETTLS := 0x40000.
Definition CLONE_PARENT_SETTID := 0x80000.
Definition CLONE_CHILD_CLEARTID := 0x100000.
Definition CLONE_CHILD_SETTID := 0x200000.
Definition WNOHANG := 1.
Definition WUNTRACED := 2.
Definition E_CHILD := 10.
Definition has_flag (flags bit : Z) : bool := negb (Z.land flags bit =? 0).

Definition blank_regs : regs := Regs 0 0 0 0 0 0 0 0 0 0 0 0 0 0 0 0 0 0 0 0 0 0.

(** The extra fields of a slot as [proc_alloc] leaves them. *)
Definition blank_extra (p : Z) : extra :=
  Extra p 0 0 0 false 0 0 (-1) (fun _ => Sigact 0 0 0 0) 0 0 18 (fun _ => -1) 0 0 false 0 blank_regs.

Section Ops.
Context {V : Type} {PE : ProcEnv V}.
Implicit Types (k : kern V).

Definition with_sch k s : kern V := Kern s (busy k) (next_pid k) (ext k) (waitv k) (kwork k) (kthreadd k) (env k).
Definition with_busy k b : kern V := Kern (sch k) b (next_pid k) (ext k) (waitv k) (kwork k) (kthreadd k) (env k).
Definition with_ext k i e : kern V :=
  Kern (sch k) (busy k) (next_pid k) (upd (ext k) i e) (waitv k) (kwork k) (kthreadd k) (env k).
Definition with_waitv k i w : kern V :=
  Kern (sch k) (busy k) (next_pid k) (ext k) (upd (waitv k) i w) (kwork k) (kthreadd k) (env k).
Definition with_kwork k l : kern V := Kern (sch k) (busy k) (next_pid k) (ext k) (waitv k) l (kthreadd k) (env k).
Definition with_kthreadd k o : kern V := Kern (sch k) (busy k) (next_pid k) (ext k) (waitv k) (kwork k) o (env k).
Definition with_env k v : kern V := Kern (sch k) (busy k) (next_pid k) (ext k) (waitv k) (kwork k) (kthreadd k) v.
Definition ptask k i : proc := procs (sch k) i.
Definition with_ptask k i (pr : proc) : kern V := with_sch k (with_proc (sch k) i pr).
Definition edit k i (f : extra -> extra) : kern V := with_ext k i (f (ext k i)).

(** ** Slots *)

Definition task_alloc k : option (kern V * Z) :=
  match proc_alloc (sch k) (busy k) (next_pid k) with
  | None => None
  | Some (s, b, i) =>
      Some (Kern s b (s32 (next_pid k + 1)) (upd (ext k) i (blank_extra (next_pid k))) (waitv k) (kwork k)
              (kthreadd k) (env k), i)
  end.

Definition task_release k i : kern V :=
  let '(s, b) := slot_release (sch k) (busy k) i in with_busy (with_sch k s) b.

(** [cg_attach_new] and what it writes in the task. *)
Definition attach k i c : kern V * Z :=
  let '(v, r, w) := cg_attach_new (env k) i (pid (ptask k i)) (aspace (ext k i)) c in
  if r <? 0 then (with_env k v, r) else (with_ptask (with_env k v) i (set_cg c w (ptask k i)), r).

Definition make_runnable k i : kern V := with_sch k (proc_make_runnable (sch k) i).

(** ** fork and clone *)

(** What a child takes over from its parent, in the two parts of a task. *)
Definition inherit_proc (par ch : proc) : proc :=
  set_sigs (sig_ignored par) (sig_mask par) (set_pgid (pgid par) (set_ppid (pid par) ch)).
Definition inherit_extra (par ch : extra) (tg fsb cct : Z) (f : regs) : extra :=
  Extra tg (sid par) (exit_status ch) (term_sig ch) (group_dying ch) (vfork_parent ch) (wait_pid ch) (aspace ch)
    (sigacts par) fsb cct (umask par) (fds par) (fd_cloexec par) (futex_addr ch) (futex_shared ch) (futex_key ch) f.

Definition set_rax_rsp (ax sp : Z) (r : regs) : regs :=
  Regs (r15 r) (r14 r) (r13 r) (r12 r) (r11 r) (r10 r) (r9 r) (r8 r) (rbp r) (rdi r) (rsi r) (rdx r) (rcx r) (rbx r)
    ax (vector r) (errcode r) (rip r) (cs r) (rflags r) sp (ss r).

(** The part fork and clone share: a slot, its address space [mk] makes, its
    cgroup; [inl] is the error the caller returns. *)
Definition new_child k p (mk : V -> Z -> V * Z) : kern V * (Z + Z) :=
  match task_alloc k with
  | None => (k, inl (- E_NOMEM))
  | Some (k1, i) =>
      let '(v, a) := mk (env k1) (aspace (ext k1 p)) in
      let k2 := edit (with_env k1 v) i (set_aspace a) in
      if a =? -1 then (task_release k2 i, inl (- E_NOMEM))
      else
        let '(k3, r) := attach k2 i (cg (ptask k2 p)) in
        if r <? 0 then
          (task_release (edit (with_env k3 (vmm_put (env k3) a)) i (set_aspace (-1))) i, inl (- E_AGAIN))
        else (k3, inr i)
  end.

Definition proc_fork k p (r : regs) : kern V * Z :=
  match new_child k p vmm_clone with
  | (k1, inl e) => (k1, e)
  | (k1, inr i) =>
      let par := ext k1 p in
      let k2 := with_ptask k1 i (inherit_proc (ptask k1 p) (ptask k1 i)) in
      let k3 := with_ext k2 i (inherit_extra par (ext k2 i) (tgid (ext k2 i)) (fs_base par) (clear_child_tid par)
                                 (set_rax_rsp 0 (rsp r) r)) in
      (make_runnable k3 i, pid (ptask k3 i))
  end.

Definition settid k (on : bool) (as_ addr v : Z) : kern V :=
  if on then with_env k (vmm_copy_to_user (env k) as_ addr v 4) else k.

(** The caller is the current task [p] of core [c]; with CLONE_VFORK it parks. *)
Definition proc_clone k c p (r : regs) : kern V * Z * outcome :=
  let flags := rdi r in
  let vfork := has_flag flags CLONE_VFORK in
  match new_child k p (if has_flag flags CLONE_VM && negb vfork then vmm_share else vmm_clone) with
  | (k1, inl e) => (k1, e, Stay)
  | (k1, inr i) =>
      let par := ext k1 p in
      let tg := if has_flag flags CLONE_THREAD then tgid par else tgid (ext k1 i) in
      let fsb := if has_flag flags CLONE_SETTLS then r8 r else fs_base par in
      let cct := if has_flag flags CLONE_CHILD_CLEARTID then r10 r else clear_child_tid par in
      let f := set_rax_rsp 0 (if rsi r =? 0 then rsp r else rsi r) r in
      let k2 := with_ptask k1 i (inherit_proc (ptask k1 p) (ptask k1 i)) in
      let k3 := with_ext k2 i (inherit_extra par (ext k2 i) tg fsb cct f) in
      let cpid := pid (ptask k3 i) in
      let k4 := settid k3 (has_flag flags CLONE_PARENT_SETTID) (aspace (ext k3 p)) (rdx r) cpid in
      let k5 := settid k4 (has_flag flags CLONE_CHILD_SETTID) (aspace (ext k4 i)) (r10 r) cpid in
      let k6 := make_runnable k5 i in
      if vfork then
        let k7 := edit k6 i (set_vfork_parent (pid (ptask k6 p))) in
        let '(s, o) := sched_block (sch k7) c WAIT_VFORK in (with_sch k7 s, cpid, o)
      else (k6, cpid, Stay)
  end.

Definition vfork_wake_parent k i : kern V :=
  let vp := vfork_parent (ext k i) in
  if vp =? 0 then k
  else
    let k1 := edit k i (set_vfork_parent 0) in
    match proc_by_pid (sch k1) vp with
    | Some q =>
        if bool_decide (state (ptask k1 q) = PROC_BLOCKED) && bool_decide (wait_reason (ptask k1 q) = WAIT_VFORK)
        then make_runnable k1 q else k1
    | None => k1
    end.

(** ** Kernel threads and boot *)

(** [proc_spawn_init] once the image of /sbin/init is built in the address
    space [as_]: [tty] is the handle of the console, negative when it could not
    be opened, [f] the frame of the entry point. *)
Definition proc_spawn_init k (as_ tty : Z) (f : regs) : kern V * Z :=
  match task_alloc k with
  | None => (with_env k (vmm_destroy (env k) as_), - E_NOMEM)
  | Some (k1, i) =>
      let p := pid (ptask k1 i) in
      let k2 := with_ptask k1 i (set_pgid p (set_ppid 0 (ptask k1 i))) in
      let e := set_aspace as_ (set_sid p (ext k2 i)) in
      let e := if 0 <=? tty then set_fds (fun n => if n <=? 2 then tty else -1) e else e in
      let e := Extra (tgid e) (sid e) (exit_status e) (term_sig e) (group_dying e) (vfork_parent e) (wait_pid e)
                 (aspace e) (sigacts e) (fs_base e) (clear_child_tid e) (umask e) (fds e) (fd_cloexec e)
                 (futex_addr e) (futex_shared e) (futex_key e) f in
      let '(k3, r) := attach (with_ext k2 i e) i CG_ROOT in
      if r <? 0 then
        (task_release (edit (with_env k3 (vmm_destroy (env k3) as_)) i (set_aspace (-1))) i, - E_AGAIN)
      else (make_runnable k3 i, p)
  end.

(** [mem_ok]: whether the kmalloc of the routine succeeds. *)
Definition proc_spawn_kthreadd k (mem_ok : bool) : kern V * Z :=
  match task_alloc k with
  | None => (k, -1)
  | Some (k1, i) =>
      let p := pid (ptask k1 i) in
      let k2 := with_ptask k1 i (set_pgid p (set_ppid 0 (ptask k1 i))) in
      let k3 := edit k2 i (fun e => set_aspace vmm_kernel_as (set_sid p e)) in
      if negb mem_ok then (task_release k3 i, -1)
      else
        let '(k4, r) := attach k3 i CG_ROOT in
        if r <? 0 then (task_release k4 i, -1) else (make_runnable (with_kthreadd k4 (Some i)) i, p)
  end.

Definition kthread_wakeup k c : kern V * outcome :=
  match kthreadd k with
  | Some d =>
      if bool_decide (state (ptask k d) = PROC_BLOCKED) then
        let k1 := make_runnable k d in
        let '(s, o) := schedule_locked (sch k1) c in (with_sch k1 s, o)
      else (k, Stay)
  | None => (k, Stay)
  end.

(** The new task's slot, if any, for an entry function that is not NULL. *)
Definition kthread_create k c (mem_ok : bool) : kern V * option Z * outcome :=
  match task_alloc k with
  | None => (k, None, Stay)
  | Some (k1, i) =>
      let k2 := edit k1 i (set_aspace vmm_kernel_as) in
      if negb mem_ok then (task_release k2 i, None, Stay)
      else let '(k3, o) := kthread_wakeup (with_kwork k2 (kwork k2 ++ [i])) c in (k3, Some i, o)
  end.

(** One round of [kthreadd_main], run by kthreadd itself (slot [d], core [c]). *)
Definition kthreadd_round k c d (mem_ok : bool) : kern V * outcome :=
  match kwork k with
  | [] =>
      let '(s, o) := schedule_locked (with_proc (sch k) d (set_state PROC_BLOCKED (ptask k d))) c in (with_sch k s, o)
  | i :: rest =>
      let k1 := with_kwork k rest in
      if negb mem_ok then (task_release k1 i, Stay)
      else
        let k2 := with_ptask k1 i (set_pgid (pid (ptask k1 i)) (set_ppid (pid (ptask k1 d)) (ptask k1 i))) in
        let k3 := edit k2 i (fun e => set_aspace vmm_kernel_as (set_sid (sid (ext k2 d)) e)) in
        let '(k4, r) := attach k3 i CG_ROOT in
        if r <? 0 then (task_release k4 i, Stay) else (make_runnable k4 i, Stay)
  end.

(** ** Futex wakeups *)

Definition proc_futex_waitv_matches k i (as_ addr : Z) (shared : bool) (key : Z) : bool :=
  existsb (fun '(uaddr, ky, sh) =>
    if shared then sh && (ky =? key) else negb sh && (aspace (ext k i) =? as_) && (uaddr =? addr)) (waitv k i).

Definition wake_futex_one (as_ addr : Z) (shared : bool) (key : Z) (acc : kern V * Z) (i : Z) : kern V * Z :=
  let '(k, n) := acc in
  let pr := ptask k i in
  if negb (bool_decide (state pr = PROC_BLOCKED)) || negb (bool_decide (wait_reason pr = WAIT_FUTEX)) then (k, n)
  else
    let e := ext k i in
    let m := if shared then futex_shared e && (futex_key e =? key)
             else negb (futex_shared e) && (aspace e =? as_) && (futex_addr e =? addr) in
    if m then (with_sch k (sched_wake (sch k) i), n + 1)
    else if proc_futex_waitv_matches k i as_ addr shared key then
      let k1 := with_waitv k i [] in (with_sch k1 (sched_wake (sch k1) i), n + 1)
    else (k, n).

(** Number of tasks woken. *)
Definition proc_wake_futex k (as_ addr : Z) : kern V * Z :=
  let shared := negb (as_ =? -1) && vmm_page_shared (env k) as_ addr in
  let key := if shared then vmm_resolve (env k) as_ addr else 0 in
  fold_left (wake_futex_one as_ addr shared key) (seqZ 0 MAX_PROCS) (k, 0).

(** [p] is the calling task, [addrs] the words it waits on. *)
Definition proc_futex_waitv_arm k p (addrs : list Z) (mem_ok : bool) : kern V * Z :=
  if (alen addrs =? 0) || (128 <? alen addrs) then (k, - E_INVAL)
  else if negb mem_ok then (k, - E_NOMEM)
  else
    let a := aspace (ext k p) in
    let entry u :=
      let sh := negb (a =? -1) && vmm_page_shared (env k) a u in
      (u, if sh then vmm_resolve (env k) a u else 0, sh) in
    (with_waitv k p (map entry addrs), 0).

Definition proc_futex_waitv_disarm k p : kern V := with_waitv k p [].

(** ** Exit *)

Definition run_wakeup (s : sched) (w : wakeup) : sched :=
  match w with
  | WakeReason why => sched_wake_reason s why
  | WakeQueue q => sched_wake_queue s q
  end.

(** [cg_detach] and what it writes in the task. *)
Definition detach k p : kern V :=
  let pr := ptask k p in
  with_ptask (with_env k (cg_detach (env k) p)) p (set_cg_park_next (-1) (set_cg (-1) (sched_weight pr) pr)).

(** The loop over the table that hands the orphans to init. *)
Definition reparent k p : kern V :=
  fold_left (fun k i =>
    if negb (bool_decide (state (ptask k i) = PROC_UNUSED)) && (ppid (ptask k i) =? pid (ptask k p))
       && negb (tgid (ext k i) =? tgid (ext k p))
    then with_ptask k i (set_ppid 1 (ptask k i)) else k) (seqZ 0 MAX_PROCS) k.

(** The thread's tid word: cleared, and its futex woken. *)
Definition clear_tid k p (self : bool) : kern V :=
  let cct := clear_child_tid (ext k p) in
  let a := aspace (ext k p) in
  if self && negb (cct =? 0) && negb (a =? -1) then
    fst (proc_wake_futex (with_env k (vmm_copy_to_user (env k) a cct 0 8)) a cct)
  else k.

Definition drop_aspace k p : kern V :=
  let a := aspace (ext k p) in
  if a =? -1 then k else edit (with_env k (vmm_put (env k) a)) p (set_aspace (-1)).

Definition proc_teardown k p (self : bool) (ws : list wakeup) : kern V :=
  let k1 := detach k p in
  let k2 := with_sch k1 (fold_left run_wakeup ws (sch k1)) in
  let k3 := edit k2 p (set_fds (fun _ => -1)) in
  reparent (drop_aspace (clear_tid k3 p self) p) p.

Definition proc_notify_parent k p : kern V :=
  match proc_by_pid (sch k) (ppid (ptask k p)) with
  | None => k
  | Some q =>
      let s := fst (proc_signal (sch k) q SIGCHLD) in
      with_sch k (if bool_decide (state (procs s q) = PROC_BLOCKED) && bool_decide (wait_reason (procs s q) = WAIT_CHILD)
                  then sched_wake s q else s)
  end.

Definition zombify k p (status : Z) : kern V :=
  let k1 := edit k p (set_exit_status status) in with_ptask k1 p (set_state PROC_ZOMBIE (ptask k1 p)).

(** Every member of the group is sentenced, the sleepers are woken. *)
Definition sentence_one (self tg : Z) (k : kern V) (i : Z) : kern V :=
  if bool_decide (state (ptask k i) = PROC_UNUSED) || negb (tgid (ext k i) =? tg) then k
  else
    let k1 := edit k i (set_group_dying true) in
    if negb (i =? self) && bool_decide (state (ptask k1 i) = PROC_BLOCKED) then with_sch k1 (sched_wake (sch k1) i) else k1.
Definition sentence_group k p : kern V :=
  fold_left (sentence_one p (tgid (ext k p))) (seqZ 0 MAX_PROCS) k.

(** Up to the switch away from the zombie; [p] is the current task of core [c],
    [lws] and [ws] the wakeups sent by the teardowns of the leader and of [p].
    [None] when a thread finds no leader: the code then reads through NULL. *)
Definition proc_exit_group k c p status (lws ws : list wakeup) : option (kern V * outcome) :=
  let leader := if pid (ptask k p) =? tgid (ext k p) then Some p else proc_by_pid (sch k) (tgid (ext k p)) in
  let k1 := sentence_group k p in
  match leader with
  | None => None
  | Some l =>
      let k2 :=
        if l =? p then k1
        else
          let k' := with_sch k1 (rq_remove (sch k1) l) in
          let k' := proc_teardown k' l false lws in
          zombify (edit k' l (set_term_sig (term_sig (ext k' p)))) l status in
      let k3 := zombify (proc_teardown k2 p true ws) p status in
      let k4 := if l =? p then proc_notify_parent k3 p else k3 in
      let '(s, o) := sched_yield (sch k4) c in Some (with_sch k4 s, o)
  end.

Definition proc_exit k c p status (lws ws : list wakeup) : option (kern V * outcome) :=
  if pid (ptask k p) =? tgid (ext k p) then proc_exit_group k c p status lws ws
  else
    let k1 := vfork_wake_parent (proc_teardown k p true ws) p in
    let k2 := zombify k1 p status in
    let '(s, o) := sched_yield (sch k2) c in Some (with_sch k2 s, o).

(** The first thing [proc_check_signals] does on the way back to user mode. *)
Definition die_if_sentenced k c p (lws ws : list wakeup) : option (kern V * outcome) :=
  if group_dying (ext k p) then proc_exit (edit k p (set_exit_status 0)) c p 0 lws ws else Some (k, Stay).

(** A kernel thread whose entry function has returned. *)
Definition kthread_done k c p (lws ws : list wakeup) : option (kern V * outcome) :=
  proc_exit (edit k p (set_aspace (-1))) c p 0 lws ws.

(** execve: the other threads are sentenced and the caller becomes the leader. *)
Definition dethread_one (self tg : Z) (k : kern V) (i : Z) : kern V :=
  if i =? self then k else sentence_one self tg k i.
Definition exec_dethread k p : kern V :=
  let k1 := fold_left (dethread_one p (tgid (ext k p))) (seqZ 0 MAX_PROCS) k in
  let tg := tgid (ext k1 p) in
  if negb (pid (ptask k1 p) =? tg) then with_ptask k1 p (set_pid tg (ptask k1 p)) else k1.

(** ** waitpid *)

Definition sig_is_ignored_by_default (sg : Z) : bool := sg =? SIGCHLD.
Definition sig_has_effect (e : extra) (sg : Z) : bool :=
  if negb (sig_is_ignored_by_default sg) then true else 1 <? sa_handler (sigacts e sg).
Definition SIG_NOINTR : Z := SIGMASK SIGCONT.

Definition proc_pending_signals k p : Z :=
  let pr := ptask k p in
  let s := Z.land (Z.land (Z.land (sig_pending pr) (not64 (sig_ignored pr))) (not64 (sig_mask pr))) (not64 SIG_NOINTR) in
  fold_left (fun s sg =>
    if negb (Z.land s (SIGMASK sg) =? 0) && negb (sig_has_effect (ext k p) sg)
    then Z.land s (not64 (SIGMASK sg)) else s) (seqZ 1 (NSIG - 1)) s.

Inductive child_event := Reap (i : Z) | Stopped (i : Z).
Inductive wait_result := WReturn (r : Z) (status : option Z) | WSleep (o : outcome).

(** A child the caller waits for: a group leader of his, of the pid asked. *)
Definition wait_matches k p (which : Z) (i : Z) : bool :=
  negb (bool_decide (state (ptask k i) = PROC_UNUSED)) && (ppid (ptask k i) =? pid (ptask k p))
  && negb ((0 <? which) && negb (pid (ptask k i) =? which)) && (pid (ptask k i) =? tgid (ext k i)).

Definition stop_report (options : Z) (pr : proc) : bool :=
  (traced pr && ptrace_stopped pr && negb (reported pr))
  || (has_flag options WUNTRACED && bool_decide (state pr = PROC_STOPPED) && negb (reported pr)).

(** The scan of the table: whether there is a child, and the first event. *)
Fixpoint wait_scan k p (which options : Z) (l : list Z) (have : bool) : bool * option child_event :=
  match l with
  | [] => (have, None)
  | i :: l' =>
      if negb (wait_matches k p which i) then wait_scan k p which options l' have
      else if bool_decide (state (ptask k i) = PROC_ZOMBIE) then (true, Some (Reap i))
      else if stop_report options (ptask k i) then (true, Some (Stopped i))
      else wait_scan k p which options l' true
  end.

Definition encode_status (e : extra) : Z :=
  if negb (term_sig e =? 0) then Z.land (term_sig e) 0x7F else Z.shiftl (Z.land (exit_status e) 0xFF) 8.

(** The leader's slot is released, and those of the zombie threads of its group. *)
Definition sweep_one (cpid i : Z) (k : kern V) (j : Z) : kern V :=
  if bool_decide (state (ptask k j) = PROC_ZOMBIE) && (tgid (ext k j) =? cpid) && negb (j =? i)
  then task_release k j else k.
Definition reap k i : kern V :=
  let cpid := pid (ptask k i) in
  fold_left (sweep_one cpid i) (seqZ 0 MAX_PROCS) (task_release k i).

(** One turn of the loop of [proc_waitpid], for the current task [p] of core
    [c]: it returns, or sleeps until it is woken. *)
Definition waitpid_round k c p (which options : Z) : kern V * wait_result :=
  match wait_scan k p which options (seqZ 0 MAX_PROCS) false with
  | (_, Some (Reap i)) => (reap k i, WReturn (pid (ptask k i)) (Some (encode_status (ext k i))))
  | (_, Some (Stopped i)) =>
      (with_ptask k i (set_reported true (ptask k i)),
       WReturn (pid (ptask k i)) (Some (Z.lor 0x7F (Z.shiftl (Z.land (stop_sig (ptask k i)) 0xFF) 8))))
  | (have, None) =>
      if negb have then (k, WReturn (- E_CHILD) None)
      else if has_flag options WNOHANG then (k, WReturn 0 None)
      else
        let k1 := edit k p (set_wait_pid which) in
        let k2 := with_ptask k1 p (set_wait_reason WAIT_CHILD (ptask k1 p)) in
        let '(s, o) := sched_block (sch k2) c WAIT_CHILD in (with_sch k2 s, WSleep o)
  end.

(** What the sleeper does when its core runs it again. *)
Definition waitpid_resume k c p (which options : Z) : kern V * wait_result :=
  let k1 := with_sch k (bkl_return_from_switch (sch k) c) in
  if negb (Z.land (proc_pending_signals k1 p) (not64 (SIGMASK SIGCHLD)) =? 0) then (k1, WReturn (- E_INTR) None)
  else waitpid_round k1 c p which options.

(** A boot: no task, and the environment [v]. *)
Definition boot_kern (G : Z -> cgroup) (v : V) : kern V :=
  Kern (Sched (fun _ => blank_proc 0) (fun _ => Rq Leaf 0 0 0) G (fun _ => 0) (fun _ => None) 0) 0 1 (fun _ => blank_extra 0) (fun _ => []) [] None v.
End Ops.
