(* ===== verification/LifecycleInv.v ===== *)
(** * The invariant of the process table

    [linv L k]: the scheduler's state is consistent, the busy bits mark exactly
    the slots that are in use or claimed (those of [L]: allocated, not yet
    runnable), and pids are distinct and below the counter.  [quiet k]: nobody
    but init is asleep in waitpid while a child he waits for is a zombie.  Each
    primitive of Lifecycle preserves both. *)
From S2P Require Import Prelude Sched SchedOps SchedInv SchedSafe SchedCalm Lifecycle.
#[local] Open Scope Z_scope.

Section Inv.
Context {V : Type} {PE : ProcEnv V}.
Implicit Types (k : kern V).

Definition owned (L : list Z) k i : Prop := state (ptask k i) <> PROC_UNUSED \/ i ∈ L.

Record linv (L : list Z) k : Prop := {
  li_sched : sched_inv (sch k);
  li_busy : forall i, is_slot i -> Z.testbit (busy k) i = true <-> owned L k i;
  li_claim : forall i, i ∈ L -> is_slot i /\ state (ptask k i) = PROC_UNUSED;
  li_nodup : NoDup L;
  li_pid : forall i, is_slot i -> owned L k i -> 1 <= pid (ptask k i) < next_pid k;
  li_uniq : forall i j, is_slot i -> is_slot j -> owned L k i -> owned L k j -> pid (ptask k i) = pid (ptask k j) -> i = j;
  li_next : 1 <= next_pid k < 2 ^ 31;
  li_kthreadd : forall d, kthreadd k = Some d -> is_slot d /\ alive (state (ptask k d)) /\ wait_reason (ptask k d) <> WAIT_CHILD
}.

(** [i] is the zombie of a process the sleeper [q] waits for. *)
Definition missed k q i : Prop :=
  waits_child (ptask k q) /\ state (ptask k i) = PROC_ZOMBIE /\ ppid (ptask k i) = pid (ptask k q) /\
  pid (ptask k i) = tgid (ext k i) /\ (wait_pid (ext k q) <= 0 \/ wait_pid (ext k q) = pid (ptask k i)).

Definition quiet k : Prop :=
  forall q i, is_slot q -> is_slot i -> pid (ptask k q) <> 1 -> ~ missed k q i.

Definition life_inv k : Prop := linv (kwork k) k /\ quiet k.

(** What [linv] asks of a step of the table: pids stay, live tasks stay alive,
    the other slots keep their state. *)
Definition steady (P P' : ptab) : Prop :=
  forall x, pid (P' x) = pid (P x) /\ (alive (state (P x)) -> alive (state (P' x))) /\
            (~ alive (state (P x)) -> state (P' x) = state (P x)).

Lemma calm_steady P P' : calm P P' -> steady P P'.
Proof. intros H x. by destruct (H x). Qed.

#[export] Instance steady_refl : Reflexive steady.
Proof. intros P x. split; [done|]. by split. Qed.
#[export] Instance steady_trans : Transitive steady.
Proof.
  intros P P' P'' H H' x. destruct (H x) as (A1 & A2 & A3), (H' x) as (B1 & B2 & B3). split; [congruence|].
  split; [auto|]. intros Ha. specialize (A3 Ha). rewrite A3 in *. auto.
Qed.

Lemma steady_owned L k k' i : steady (procs (sch k)) (procs (sch k')) -> owned L k i <-> owned L k' i.
Proof.
  intros Hc. destruct (Hc i) as (_ & Ha & Hd). unfold owned, ptask.
  destruct (alive_dec (state (procs (sch k) i))) as [H|H]; [|by rewrite Hd].
  destruct H as [H1 H2], (Ha (conj H1 H2)) as [H3 _]. tauto.
Qed.

Lemma linv_steady L k k' :
  linv L k -> sched_inv (sch k') -> steady (procs (sch k)) (procs (sch k')) ->
  busy k' = busy k -> next_pid k' = next_pid k -> kthreadd k' = kthreadd k ->
  (forall d, kthreadd k = Some d -> wait_reason (ptask k' d) = WAIT_CHILD -> wait_reason (ptask k d) = WAIT_CHILD) ->
  linv L k'.
Proof.
  intros I Is Hc Hb Hn Hd Hk. pose proof (fun i => steady_owned L k k' i Hc) as Ho.
  assert (Hp : forall i, pid (ptask k' i) = pid (ptask k i)) by (intros i; apply (Hc i)).
  constructor; rewrite ?Hb, ?Hn, ?Hd; auto.
  - intros i Hi. rewrite <- Ho. by apply (li_busy _ _ I).
  - intros i Hi. destruct (li_claim _ _ I i Hi) as [Hs Hu]. split; [done|]. destruct (Hc i) as (_ & _ & Hdd).
    unfold ptask in *. rewrite Hdd; [done|]. rewrite Hu. by intros [? _].
  - apply I.
  - intros i Hi Hi'. rewrite Hp. apply (li_pid _ _ I); [done|by apply Ho].
  - intros i j Hi Hj Hoi Hoj. rewrite !Hp. apply (li_uniq _ _ I); auto; by apply Ho.
  - apply I.
  - intros d E. destruct (li_kthreadd _ _ I d E) as (Hs & Ha & Hw). split; [done|]. split; [by apply (Hc d)|].
    intros H. by apply Hw, Hk.
Qed.

(** Everything that leaves the slots and the counters alone. *)
Lemma linv_calm L k k' :
  linv L k -> sched_inv (sch k') -> calm (procs (sch k)) (procs (sch k')) ->
  busy k' = busy k -> next_pid k' = next_pid k -> kthreadd k' = kthreadd k -> linv L k'.
Proof.
  intros I Is Hc Hb Hn Hd. apply (linv_steady L k); auto; [by apply calm_steady|].
  intros d _. apply (calm_reason _ _ (Hc d)).
Qed.

Lemma quiet_calm k k' :
  quiet k -> calm (procs (sch k)) (procs (sch k')) ->
  (forall i, tgid (ext k' i) = tgid (ext k i)) -> (forall i, wait_pid (ext k' i) = wait_pid (ext k i)) -> quiet k'.
Proof.
  intros Q Hc Ht Hw q i Hq Hi H1 (M1 & M2 & M3 & M4 & M5). unfold ptask in *.
  destruct (Hc q) as [Eq1 _ _ _ _ Hq']. destruct (Hc i) as [Ei1 Ei2 Ha Hd _ _].
  rewrite Ht, Hw, ?Eq1, ?Ei1, ?Ei2 in *. apply (Q q i Hq Hi); [done|]. repeat split; auto.
  - by apply Hq'.
  - by apply Hq'.
  - unfold ptask. destruct (alive_dec (state (procs (sch k) i))) as [H|H]; [by destruct (Ha H)|]. by rewrite <- Hd.
Qed.

(** [kcalm]: what most of the operations do. *)
Record kcalm k k' : Prop := {
  kc_calm : calm (procs (sch k)) (procs (sch k'));
  kc_safe : sched_inv (sch k) -> sched_inv (sch k');
  kc_busy : busy k' = busy k;
  kc_next : next_pid k' = next_pid k;
  kc_kthreadd : kthreadd k' = kthreadd k;
  kc_kwork : kwork k' = kwork k;
  kc_tgid : forall i, tgid (ext k' i) = tgid (ext k i);
  kc_wait : forall i, wait_pid (ext k' i) = wait_pid (ext k i);
  kc_term : forall i, term_sig (ext k' i) = term_sig (ext k i)
}.

#[export] Instance kcalm_refl : Reflexive kcalm.
Proof. intros k. by constructor. Qed.
#[export] Instance kcalm_trans : Transitive kcalm.
Proof.
  intros a b c H H'. destruct H, H'. constructor; try congruence; auto. by transitivity (procs (sch b)).
Qed.

Lemma kcalm_linv L k k' : kcalm k k' -> linv L k -> linv L k'.
Proof. intros [] I. apply (linv_calm L k); auto. apply kc_safe0, I. Qed.
Lemma kcalm_quiet k k' : kcalm k k' -> quiet k -> quiet k'.
Proof. intros [] Q. by apply (quiet_calm k). Qed.
Lemma kcalm_life k k' : kcalm k k' -> life_inv k -> life_inv k'.
Proof.
  intros H [I Q]. split; [|by apply (kcalm_quiet k)]. rewrite (kc_kwork _ _ H). by apply (kcalm_linv _ k).
Qed.

(** ** What is calm *)

Lemma kcalm_sch k s : calm (procs (sch k)) (procs s) -> (sched_inv (sch k) -> sched_inv s) -> kcalm k (with_sch k s).
Proof. by constructor. Qed.

Lemma kcalm_edit k i f :
  (forall e, tgid (f e) = tgid e /\ wait_pid (f e) = wait_pid e /\ term_sig (f e) = term_sig e) -> kcalm k (edit k i f).
Proof.
  intros H. constructor; simpl; try done; intros j; unfold upd; destruct (Z.eqb_spec j i) as [->|]; try done; apply H.
Qed.

Lemma kcalm_env k v : kcalm k (with_env k v).
Proof. by constructor. Qed.
Lemma kcalm_waitv k i w : kcalm k (with_waitv k i w).
Proof. by constructor. Qed.

(** Fields neither the scheduler nor this file reads. *)
Lemma kcalm_view k i pr :
  same_view (ptask k i) pr -> calm_view (ptask k i) pr -> kcalm k (with_ptask k i pr).
Proof.
  intros H1 H2. apply kcalm_sch; [by apply calm_upd, view_calm|]. intros I. by apply with_view.
Qed.

Lemma kcalm_wake k i : is_slot i -> kcalm k (with_sch k (sched_wake (sch k) i)).
Proof. intros Hi. apply kcalm_sch; [apply sched_wake_calm|]. intros. by apply sched_wake_inv. Qed.

Lemma kcalm_fold {A} (f : kern V -> A -> kern V) l :
  (forall k a, a ∈ l -> kcalm k (f k a)) -> forall k, kcalm k (fold_left f l k).
Proof.
  induction l as [|a l IH]; intros H k; [reflexivity|]. simpl. transitivity (f k a); [apply H; left|].
  apply IH. intros k' b Hb. apply H. by right.
Qed.

Lemma kcalm_detach k p : kcalm k (detach k p).
Proof.
  unfold detach. transitivity (with_env k (cg_detach (env k) p)); [apply kcalm_env|].
  apply kcalm_view; by repeat split.
Qed.

Lemma kcalm_wakeups k ws : kcalm k (with_sch k (fold_left run_wakeup ws (sch k))).
Proof.
  apply kcalm_sch.
  - apply fold_calm. intros s w _. destruct w; apply wake_if_calm.
  - apply fold_safe. intros s w _. destruct w; apply wake_if_safe.
Qed.

(** What holds of every wakeup and every disarmed set holds of a futex wake. *)
Lemma wake_futex_rel (R : kern V -> kern V -> Prop) `{!Reflexive R} `{!Transitive R} k a addr :
  (forall k i, is_slot i -> R k (with_sch k (sched_wake (sch k) i))) ->
  (forall k i w, R k (with_waitv k i w)) -> R k (fst (proc_wake_futex k a addr)).
Proof.
  intros Hw Hv. unfold proc_wake_futex. generalize (negb (a =? -1) && vmm_page_shared (env k) a addr) as sh. intros sh.
  generalize (if sh then vmm_resolve (env k) a addr else 0) as key. intros key.
  assert (K : forall l n k, (forall i, i ∈ l -> is_slot i) ->
    R k (fst (fold_left (wake_futex_one a addr sh key) l (k, n)))).
  { induction l as [|i l IH]; intros n k' Hl; [reflexivity|]. cbn [fold_left].
    assert (H1 : R k' (fst (wake_futex_one a addr sh key (k', n) i))).
    { cbn [wake_futex_one]. cbv zeta. destruct (negb _ || negb _); [reflexivity|]. assert (Hi : is_slot i) by (apply Hl; left).
      destruct (if sh then _ else _); [by apply Hw|]. destruct (proc_futex_waitv_matches _ _ _ _ _ _); [|reflexivity].
      cbn [fst]. transitivity (with_waitv k' i []); [apply Hv|by apply Hw]. }
    destruct (wake_futex_one a addr sh key (k', n) i) as [k1 n1]. etransitivity; [exact H1|]. apply IH.
    intros j Hj. apply Hl. by right. }
  apply K. intros i. apply slot_elem.
Qed.

Lemma kcalm_wake_futex k a addr : kcalm k (fst (proc_wake_futex k a addr)).
Proof. apply wake_futex_rel; [apply _|apply _|apply kcalm_wake|apply kcalm_waitv]. Qed.

Lemma kcalm_clear_tid k p self : kcalm k (clear_tid k p self).
Proof.
  unfold clear_tid. destruct (_ && _); [|reflexivity]. etransitivity; [|apply kcalm_wake_futex]. apply kcalm_env.
Qed.

Lemma kcalm_drop_aspace k p : kcalm k (drop_aspace k p).
Proof.
  unfold drop_aspace. destruct (_ =? _); [reflexivity|].
  etransitivity; [apply kcalm_env|]. by apply kcalm_edit.
Qed.

Lemma kcalm_sentence self tg k i : is_slot i -> kcalm k (sentence_one self tg k i).
Proof.
  intros Hi. unfold sentence_one. destruct (_ || _); [reflexivity|].
  assert (H1 : kcalm k (edit k i (set_group_dying true))) by (by apply kcalm_edit).
  cbv zeta. destruct (_ && _); [|done]. etransitivity; [exact H1|]. by apply kcalm_wake.
Qed.

Lemma kcalm_sentence_group k p : kcalm k (sentence_group k p).
Proof. apply kcalm_fold. intros k' i Hi. by apply kcalm_sentence, slot_elem. Qed.

End Inv.
