(* ===== verification/LifecycleSafe.v ===== *)
(** * Every operation on the process table is safe

    fork, clone, the kernel threads, exit and waitpid preserve the invariant of
    LifecycleInv, so it holds in every state reachable from boot; and a process
    is never left asleep in waitpid while a child it waits for is a zombie. *)
From S2P Require Import Prelude Sched SchedOps SchedInv SchedSafe SchedCalm Signal Lifecycle LifecycleInv.
#[local] Open Scope Z_scope.

(** ** Commuting with the current task *)

(** Waking and signalling do not look at which task runs where. *)
Lemma enqueue_fresh_current s C p : enqueue_fresh (with_current s C) p = with_current (enqueue_fresh s p) C.
Proof.
  unfold enqueue_fresh. cbn [enqueue_fresh_n]. change (cg_chain_throttled (with_current s C) p) with (cg_chain_throttled s p).
  destruct (cg_chain_throttled s p) eqn:T; [|reflexivity].
  unfold cg_park_with. change (cg (procs (with_current s C) p)) with (cg (procs s p)).
  destruct (cg (procs s p) <? 0); [reflexivity|]. cbv zeta. simpl procs.
  set (s1 := with_proc s p _). change (with_proc (with_current s C) p _) with (with_current s1 C).
  change (anchor_of (with_current s1 C) p) with (anchor_of s1 p).
  destruct (Z.eqb_spec (anchor_of s1 p) (-1)) as [E|]; [|reflexivity].
  exfalso. apply throttled_anchor in T as [_ T]. apply T. rewrite <- E.
  unfold anchor_of, chain_of, s1. simpl. by rewrite upd_eq.
Qed.

Lemma sched_wake_current s C p : sched_wake (with_current s C) p = with_current (sched_wake s p) C.
Proof.
  unfold sched_wake. simpl procs. case_bool_decide; [|reflexivity].
  rewrite <- enqueue_fresh_current. reflexivity.
Qed.

Lemma proc_signal_current s C p sig :
  proc_signal (with_current s C) p sig = (with_current (fst (proc_signal s p sig)) C, snd (proc_signal s p sig)).
Proof.
  unfold proc_signal. simpl procs. destruct (_ || _); [reflexivity|]. destruct (sig =? SIGCONT).
  - case_bool_decide; [|reflexivity]. destruct (_ && _); [reflexivity|]. cbn [fst snd].
    rewrite <- enqueue_fresh_current. reflexivity.
  - destruct (negb _); [reflexivity|]. set (s1 := with_proc s p _).
    change (with_proc (with_current s C) p _) with (with_current s1 C).
    case_bool_decide; [by rewrite sched_wake_current|]. destruct (_ && _); [|reflexivity].
    cbn [fst snd]. by rewrite enqueue_fresh_current.
Qed.

Section Safe.
Context {V : Type} {PE : ProcEnv V}.
Implicit Types (k : kern V).

(** ** Slots *)

Lemma unowned_bit L k i : linv L k -> is_slot i -> Z.land (busy k) (Z.shiftl 1 i) = 0 -> ~ owned L k i.
Proof.
  intros I Hi Hb Ho. apply (li_busy _ _ I i Hi) in Ho. pose proof (land_bit (busy k) i) as H.
  rewrite Hb, Ho in H. unfold is_slot in Hi. specialize (H ltac:(lia)). done.
Qed.

Lemma bit_set b i j : 0 <= i -> 0 <= j -> Z.testbit (Z.lor b (Z.shiftl 1 i)) j = Z.testbit b j || (i =? j).
Proof.
  intros Hi Hj. rewrite Z.lor_spec, Z.shiftl_1_l. f_equal. destruct (Z.eqb_spec i j) as [->|]; [by apply Z.pow2_bits_true|].
  by apply Z.pow2_bits_false.
Qed.

Lemma bit_clear b i j : 0 <= i < 64 -> 0 <= j < 64 ->
  Z.testbit (Z.land b (not64 (Z.shiftl 1 i))) j = Z.testbit b j && negb (i =? j).
Proof.
  intros Hi Hj. rewrite Z.land_spec. f_equal. unfold not64, u64. rewrite Z.mod_pow2_bits_low by lia.
  rewrite Z.lnot_spec, Z.shiftl_1_l by lia. f_equal. destruct (Z.eqb_spec i j) as [->|]; [apply Z.pow2_bits_true; lia|].
  by apply Z.pow2_bits_false.
Qed.

(** Everything an operation may do to a claimed slot [i]: rewrite it and its
    extra fields, as long as it keeps its pid and stays unused. *)
Record local (i : Z) k k' : Prop := {
  lo_task : forall j, j <> i -> ptask k' j = ptask k j;
  lo_ext : forall j, j <> i -> ext k' j = ext k j;
  lo_pid : pid (ptask k' i) = pid (ptask k i);
  lo_reason : wait_reason (ptask k' i) = wait_reason (ptask k i);
  lo_unused : state (ptask k i) = PROC_UNUSED -> state (ptask k' i) = PROC_UNUSED;
  lo_rqs : rqs (sch k') = rqs (sch k);
  lo_current : current (sch k') = current (sch k);
  lo_busy : busy k' = busy k;
  lo_next : next_pid k' = next_pid k;
  lo_kwork : kwork k' = kwork k;
  lo_kthreadd : kthreadd k' = kthreadd k
}.

#[export] Instance local_refl i : Reflexive (local i).
Proof. intros k. by constructor. Qed.
#[export] Instance local_trans i : Transitive (local i).
Proof.
  intros a b c H H'. destruct H, H'. constructor; try congruence; auto; intros j Hj.
  - by rewrite lo_task1, lo_task0.
  - by rewrite lo_ext1, lo_ext0.
Qed.

Lemma local_env i k v : local i k (with_env k v).
Proof. by constructor. Qed.
Lemma local_ext i k e : local i k (with_ext k i e).
Proof. constructor; try done. intros j Hj. simpl. by rewrite upd_ne. Qed.
Lemma local_ptask i k pr :
  pid pr = pid (ptask k i) -> wait_reason pr = wait_reason (ptask k i) ->
  (state (ptask k i) = PROC_UNUSED -> state pr = PROC_UNUSED) -> local i k (with_ptask k i pr).
Proof.
  intros H1 Hr H2. constructor; try done; unfold ptask in *; simpl; rewrite ?upd_eq; auto.
  intros j Hj. by rewrite upd_ne.
Qed.

Lemma local_linv L i k k' : local i k k' -> i ∈ L -> linv L k -> linv L k'.
Proof.
  intros [Ht He Hp _ Hu Hq Hc Hb Hn Hw Hd] Hi I. destruct (li_claim _ _ I i Hi) as [Hs Hu0]. specialize (Hu Hu0).
  assert (Ho : forall j, owned L k' j <-> owned L k j).
  { intros j. unfold owned. destruct (decide (j = i)) as [->|]; [by rewrite Hu, Hu0|by rewrite Ht]. }
  assert (Ep : forall j, pid (ptask k' j) = pid (ptask k j)).
  { intros j. destruct (decide (j = i)) as [->|]; [done|by rewrite Ht]. }
  constructor; rewrite ?Hb, ?Hn, ?Hd.
  - unfold sched_inv. rewrite Hq, Hc. by apply (inv_unused (procs (sch k)) _ _ _ i); [apply I|..].
  - intros j Hj. rewrite Ho. by apply (li_busy _ _ I).
  - intros j Hj. destruct (li_claim _ _ I j Hj) as [? ?]. split; [done|].
    destruct (decide (j = i)) as [->|]; [done|by rewrite Ht].
  - apply I.
  - intros j Hj Hoj. rewrite Ep. apply (li_pid _ _ I j Hj). by apply Ho.
  - intros j l Hj Hl Hoj Hol. rewrite !Ep. apply (li_uniq _ _ I); auto; by apply Ho.
  - apply I.
  - intros d E. destruct (li_kthreadd _ _ I d E) as (H1 & H2 & H3). rewrite Ht; [done|].
    intros ->. rewrite Hu0 in H2. by destruct H2.
Qed.

Lemma quiet_off k k' i :
  quiet k -> (forall j, j <> i -> ptask k' j = ptask k j) -> (forall j, j <> i -> ext k' j = ext k j) ->
  state (ptask k' i) <> PROC_ZOMBIE -> ~ waits_child (ptask k' i) -> quiet k'.
Proof.
  intros Q Hp He Hz Hw q j Hq Hj H1 (M1 & M2 & M3 & M4 & M5).
  assert (q <> i) by (by intros ->). assert (j <> i) by (by intros ->).
  rewrite !Hp, !He in * by done. by apply (Q q j).
Qed.

Lemma local_quiet i k k' : local i k k' -> state (ptask k i) = PROC_UNUSED -> quiet k -> quiet k'.
Proof.
  intros [Ht He Hp _ Hu _ _ _ _ _ _] H Q. specialize (Hu H). apply (quiet_off k _ i); auto; rewrite ?Hu; [done|].
  intros [H' _]. congruence.
Qed.

Lemma task_alloc_spec L k k1 i :
  linv L k -> next_pid k + 1 < 2 ^ 31 -> task_alloc k = Some (k1, i) ->
  linv (i :: L) k1 /\ is_slot i /\ i ∉ L /\ state (ptask k i) = PROC_UNUSED /\
  ptask k1 i = blank_proc (next_pid k) /\ ext k1 i = blank_extra (next_pid k) /\
  (forall j, j <> i -> ptask k1 j = ptask k j /\ ext k1 j = ext k j) /\
  rqs (sch k1) = rqs (sch k) /\ current (sch k1) = current (sch k) /\
  kwork k1 = kwork k /\ kthreadd k1 = kthreadd k /\ env k1 = env k /\ next_pid k1 = next_pid k + 1.
Proof.
  intros I Hn E. unfold task_alloc, proc_alloc in E. destruct (List.find _ _) as [x|] eqn:F; [|done].
  injection E as <- <-. apply List.find_some in F as [Hx Hb]. apply list_elem_of_In, slot_elem in Hx.
  apply andb_true_iff in Hb as [Hu Hb]. apply bool_decide_eq_true in Hu. apply Z.eqb_eq in Hb.
  pose proof (unowned_bit L k x I Hx Hb) as Hno. pose proof (li_next _ _ I) as Hnp.
  assert (Es : s32 (next_pid k + 1) = next_pid k + 1) by (apply s32_small; lia).
  assert (HxL : x ∉ L) by (intros H; apply Hno; by right).
  set (k1 := Kern _ _ _ _ _ _ _ _).
  assert (Eo : forall j, j <> x -> ptask k1 j = ptask k j) by (intros j Hj; unfold ptask; simpl; by rewrite upd_ne).
  assert (Ex : ptask k1 x = blank_proc (next_pid k)) by (unfold ptask; simpl; by rewrite upd_eq).
  assert (Ho : forall j, j <> x -> owned (x :: L) k1 j <-> owned L k j).
  { intros j Hj. unfold owned. rewrite Eo, elem_of_cons by done. naive_solver. }
  split; cycle 1.
  { do 3 (split; [done|]). split; [exact Ex|]. split; [simpl; by rewrite upd_eq|].
    split; [|by repeat (split; [done|])]. intros j Hj. split; [by apply Eo|]. simpl. by rewrite upd_ne. }
  constructor.
  - apply (inv_unused (procs (sch k)) _ _ _ x); [apply I| |exact Hu|simpl; by rewrite upd_eq].
    intros y Hy. simpl. by rewrite upd_ne.
  - intros j Hj. simpl busy. unfold is_slot in Hx, Hj. rewrite bit_set, orb_true_iff, Z.eqb_eq by lia.
    destruct (decide (j = x)) as [->|Hne].
    + split; [intros _; right; left|by right].
    + rewrite Ho, (li_busy _ _ I) by done. split; [by intros [|]|by left].
  - intros j [->|Hj]%elem_of_cons; [by rewrite Ex|]. rewrite Eo by (by intros ->). by apply (li_claim _ _ I).
  - constructor; [done|apply I].
  - intros j Hj Hoj. simpl next_pid. rewrite Es. destruct (decide (j = x)) as [->|Hne]; [rewrite Ex; simpl; lia|].
    rewrite Eo by done. apply Ho in Hoj; [|done]. pose proof (li_pid _ _ I j Hj Hoj). lia.
  - assert (Hlt : forall j, is_slot j -> j <> x -> owned (x :: L) k1 j -> pid (ptask k1 j) < pid (ptask k1 x)).
    { intros j Hj Hne Hoj. rewrite Eo, Ex by done. apply Ho in Hoj; [|done]. by apply (li_pid _ _ I). }
    intros j l Hj Hl Hoj Hol Heq. destruct (decide (j = x)) as [->|H1], (decide (l = x)) as [->|H2]; [done|..].
    + pose proof (Hlt l Hl H2 Hol). lia.
    + pose proof (Hlt j Hj H1 Hoj). lia.
    + rewrite !Eo in Heq by done. apply Ho in Hoj, Hol; try done. by apply (li_uniq _ _ I).
  - simpl next_pid. lia.
  - intros d Ed. destruct (li_kthreadd _ _ I d Ed) as (H1 & H2 & H3). rewrite Eo; [done|].
    intros ->. unfold ptask in H2. rewrite Hu in H2. by destruct H2.
Qed.

(** Giving back a slot that is claimed, or a zombie. *)
Lemma task_release_linv L L' k i :
  linv L k -> is_slot i -> ~ alive (state (ptask k i)) -> (forall j, j ∈ L' <-> j ∈ L /\ j <> i) -> NoDup L' ->
  linv L' (task_release k i).
Proof.
  intros I Hi Hd HL Hnd. unfold task_release, slot_release.
  set (k' := with_busy (with_sch k (with_proc (sch k) i (set_state PROC_UNUSED (procs (sch k) i))))
               (Z.land (busy k) (not64 (Z.shiftl 1 i)))).
  assert (G : linv L' k').
  2:{ unfold alive, ptask in Hd. destruct (state (procs (sch k) i)) eqn:E; try exact G; exfalso; apply Hd; done. }
  assert (Eo : forall j, j <> i -> ptask k' j = ptask k j) by (intros; unfold ptask; simpl; by rewrite upd_ne).
  assert (Ei : ptask k' i = set_state PROC_UNUSED (ptask k i)) by (unfold ptask; simpl; by rewrite upd_eq).
  assert (Ho : forall j, owned L' k' j <-> owned L k j /\ j <> i).
  { intros j. unfold owned. rewrite HL. destruct (decide (j = i)) as [->|]; [rewrite Ei; simpl|rewrite Eo by done]; tauto. }
  constructor.
  - pose proof (slot_release_safe (sch k) (busy k) i (li_sched _ _ I) Hi) as S. unfold slot_release in S.
    unfold alive, ptask in Hd. destruct (state (procs (sch k) i)) eqn:E; try exact S; exfalso; by apply Hd.
  - intros j Hj. simpl busy. unfold is_slot, MAX_PROCS in Hi, Hj. rewrite bit_clear, andb_true_iff, negb_true_iff, Z.eqb_neq by lia.
    rewrite Ho, (li_busy _ _ I) by done. split; intros [? ?]; split; auto.
  - intros j Hj. apply HL in Hj as [Hj Hne]. rewrite Eo by done. by apply (li_claim _ _ I).
  - done.
  - intros j Hj [Hoj Hne]%Ho. rewrite Eo by done. by apply (li_pid _ _ I).
  - intros j l Hj Hl [Hoj Hn1]%Ho [Hol Hn2]%Ho. rewrite !Eo by done. by apply (li_uniq _ _ I).
  - apply I.
  - intros d E. destruct (li_kthreadd _ _ I d E) as (H1 & H2 & H3). rewrite Eo; [done|]. by intros ->.
Qed.

Lemma release_claimed L k i : linv (i :: L) k -> linv L (task_release k i).
Proof.
  intros I. destruct (li_claim _ _ I i ltac:(left)) as [Hs Hu]. pose proof (li_nodup _ _ I) as Hn. apply NoDup_cons in Hn as [Hi Hn].
  apply (task_release_linv (i :: L)); auto.
  - rewrite Hu. by intros [? _].
  - intros j. rewrite elem_of_cons. naive_solver.
Qed.

Lemma claimed_quiet k i : ~ alive (state (ptask k i)) -> quiet k -> quiet (task_release k i).
Proof.
  intros Hd Q. unfold task_release, slot_release. unfold alive, ptask in Hd.
  assert (G : forall b, quiet (with_busy (with_sch k (with_proc (sch k) i (set_state PROC_UNUSED (procs (sch k) i)))) b)).
  { intros b. apply (quiet_off k _ i); auto; unfold ptask, waits_child; simpl; rewrite ?upd_eq; try done.
    - intros j Hj. by rewrite upd_ne.
    - by intros [? _]. }
  destruct (state (procs (sch k) i)) eqn:E; try apply G; exfalso; by apply Hd.
Qed.

(** A claimed slot becomes a task. *)
Lemma make_runnable_claimed L k i :
  linv (i :: L) k ->
  linv L (make_runnable k i) /\ agree_off i (procs (sch k)) (procs (sch (make_runnable k i))) /\
  pid (ptask (make_runnable k i) i) = pid (ptask k i) /\
  state (ptask (make_runnable k i) i) = (if cg_chain_throttled (sch k) i then PROC_BLOCKED else PROC_READY).
Proof.
  intros I. destruct (li_claim _ _ I i ltac:(left)) as [Hs Hu]. pose proof (li_nodup _ _ I) as Hn. apply NoDup_cons in Hn as [HiL Hn].
  assert (Hf : fresh_pid (procs (sch k)) i).
  { intros y Hy Hne Huy Heq. apply Hne. apply (li_uniq _ _ I); auto; [by left|right; left]. }
  destruct (enqueue_fresh_inv (sch k) i (li_sched _ _ I) Hs) as (I' & Ha & _ & _ & Hst); [unfold ptask in Hu; by rewrite Hu|done|].
  set (k' := make_runnable k i). change (enqueue_fresh (sch k) i) with (sch k') in *.
  assert (Ep : pid (ptask k' i) = pid (ptask k i)).
  { apply (enqueue_fresh_task (sch k) i). }
  split; [|done].
  assert (Eo : forall j, j <> i -> ptask k' j = ptask k j) by (intros; unfold ptask; by apply Ha).
  assert (Hal : alive (state (ptask k' i))) by (unfold ptask; rewrite Hst; destruct (cg_chain_throttled (sch k) i); done).
  assert (Ho : forall j, owned L k' j <-> owned (i :: L) k j).
  { intros j. unfold owned. rewrite elem_of_cons. destruct (decide (j = i)) as [->|]; [|rewrite Eo by done; naive_solver].
    destruct Hal. tauto. }
  assert (Epj : forall j, pid (ptask k' j) = pid (ptask k j)).
  { intros j. destruct (decide (j = i)) as [->|]; [done|by rewrite Eo]. }
  constructor.
  - done.
  - intros j Hj. rewrite Ho. by apply (li_busy _ _ I).
  - intros j Hj. rewrite Eo by (by intros ->). apply (li_claim _ _ I). by right.
  - done.
  - intros j Hj Hoj. rewrite Epj. apply (li_pid _ _ I j Hj). by apply Ho.
  - intros j l Hj Hl Hoj Hol. rewrite !Epj. apply (li_uniq _ _ I); auto; by apply Ho.
  - apply I.
  - intros d E. destruct (li_kthreadd _ _ I d E) as (H1 & H2 & H3). rewrite Eo; [done|].
    intros ->. rewrite Hu in H2. by destruct H2.
Qed.

Lemma make_runnable_quiet L k i : linv (i :: L) k -> quiet k -> quiet (make_runnable k i).
Proof.
  intros I Q. destruct (make_runnable_claimed L k i I) as (_ & Ha & _).
  destruct (enqueue_fresh_task (sch k) i) as [_ [_ _ Hst Hr]]. change (enqueue_fresh (sch k) i) with (sch (make_runnable k i)) in *.
  apply (quiet_off k _ i); auto; unfold ptask, waits_child; rewrite Hst.
  - by destruct (cg_chain_throttled (sch k) i).
  - rewrite Hr. destruct (cg_chain_throttled (sch k) i); by intros [? ?].
Qed.

Lemma attach_local k i c : local i k (fst (attach k i c)).
Proof.
  unfold attach. destruct (cg_attach_new (env k) i _ _ c) as [[v r] w]. destruct (r <? 0); simpl.
  - apply local_env.
  - transitivity (with_env k v); [apply local_env|by apply local_ptask].
Qed.

(** A plain step of the scheduler under the process table. *)
Lemma kcalm_plain k s : sched_inv (sch k) -> plain_step (sch k) s -> kcalm k (with_sch k s).
Proof. intros I H. apply kcalm_sch; [by apply plain_step_calm|]. intros _. by apply (plain_step_safe (sch k)). Qed.

(** ** fork and clone *)

(** The state between the allocation of slot [i] and the call that makes it
    runnable. *)
Definition claimed (i : Z) k : Prop := linv (i :: kwork k) k /\ quiet k.

Lemma local_claimed i k k' : local i k k' -> claimed i k -> claimed i k'.
Proof.
  intros H [I Q]. destruct (li_claim _ _ I i ltac:(left)) as [_ Hu]. split; [|by apply (local_quiet i k)].
  rewrite (lo_kwork _ _ _ H). apply (local_linv _ i k); [done|left|done].
Qed.

Lemma claimed_release i k : claimed i k -> life_inv (task_release k i).
Proof.
  intros [I Q]. destruct (li_claim _ _ I i ltac:(left)) as [_ Hu]. split.
  - assert (E : kwork (task_release k i) = kwork k) by (unfold task_release; by destruct (slot_release _ _ _)).
    rewrite E. by apply release_claimed.
  - apply claimed_quiet; [|done]. rewrite Hu. by intros [? _].
Qed.

Lemma claimed_runnable i k : claimed i k -> life_inv (make_runnable k i).
Proof.
  intros [I Q]. split; [by apply (make_runnable_claimed (kwork k))|by apply (make_runnable_quiet (kwork k))].
Qed.

Lemma alloc_claimed k k1 i :
  life_inv k -> next_pid k + 1 < 2 ^ 31 -> task_alloc k = Some (k1, i) -> claimed i k1.
Proof.
  intros [I Q] Hn E. destruct (task_alloc_spec (kwork k) k k1 i I Hn E) as (I1 & Hs & _ & Hu & Ei & _ & Eo & _ & _ & Ew & _).
  split; [by rewrite Ew|]. apply (quiet_off k _ i); auto; try (intros j Hj; by apply Eo); rewrite Ei; [done|].
  by intros [? _].
Qed.

Lemma claimed_edit i k f : claimed i k -> claimed i (edit k i f).
Proof. apply local_claimed, local_ext. Qed.

Lemma new_child_safe k p mk :
  life_inv k -> next_pid k + 1 < 2 ^ 31 ->
  let '(k', r) := new_child k p mk in
  match r with inl e => life_inv k' /\ e < 0 | inr i => claimed i k' end.
Proof.
  intros H Hn. unfold new_child. destruct (task_alloc k) as [[k1 i]|] eqn:E; [|done].
  pose proof (alloc_claimed k k1 i H Hn E) as C1. destruct (mk (env k1) (aspace (ext k1 p))) as [v a].
  set (k2 := edit (with_env k1 v) i (set_aspace a)).
  assert (C2 : claimed i k2) by (apply claimed_edit; by apply (local_claimed i k1); [apply local_env|]).
  destruct (a =? -1); [split; [by apply claimed_release|done]|].
  pose proof (attach_local k2 i (cg (ptask k2 p))) as L3. destruct (attach k2 i (cg (ptask k2 p))) as [k3 r]. simpl in L3.
  assert (C3 : claimed i k3) by (by apply (local_claimed i k2)).
  destruct (r <? 0); [|done]. split; [|done].
  apply claimed_release, claimed_edit. by apply (local_claimed i k3); [apply local_env|].
Qed.

Lemma fork_safe k p r : life_inv k -> next_pid k + 1 < 2 ^ 31 -> life_inv (fst (proc_fork k p r)).
Proof.
  intros H Hn. unfold proc_fork. pose proof (new_child_safe k p vmm_clone H Hn) as C.
  destruct (new_child k p vmm_clone) as [k1 [e|i]]; [apply C|]. cbn [fst].
  apply claimed_runnable. eapply local_claimed; [apply local_ext|]. by eapply local_claimed; [apply local_ptask|].
Qed.

Lemma settid_local i k on a addr v : local i k (settid k on a addr v).
Proof. unfold settid. destruct on; [apply local_env|reflexivity]. Qed.

Lemma clone_safe k c p r :
  life_inv k -> is_cpu c -> next_pid k + 1 < 2 ^ 31 -> life_inv (fst (fst (proc_clone k c p r))).
Proof.
  intros H Hc Hn. unfold proc_clone. cbv zeta. set (mk := if _ && _ then _ else _). clearbody mk.
  pose proof (new_child_safe k p mk H Hn) as C. destruct (new_child k p mk) as [k1 [e|i]]; [apply C|].
  set (k3 := with_ext _ i (inherit_extra _ _ _ _ _ _)).
  assert (C3 : claimed i k3) by (eapply local_claimed; [apply local_ext|]; by eapply local_claimed; [apply local_ptask|]).
  clearbody k3. set (k4 := settid k3 _ _ _ _). assert (C4 : claimed i k4) by (eapply local_claimed; [apply settid_local|done]).
  clearbody k4. set (k5 := settid k4 _ _ _ _). assert (C5 : claimed i k5) by (eapply local_claimed; [apply settid_local|done]).
  clearbody k5. apply claimed_runnable in C5. destruct (has_flag _ CLONE_VFORK); [|done].
  set (k7 := edit _ i _). assert (H7 : life_inv k7) by (eapply kcalm_life; [by apply kcalm_edit|done]).
  clearbody k7. destruct (sched_block (sch k7) c WAIT_VFORK) as [s o] eqn:E. cbn [fst].
  apply (kcalm_life k7); [|done]. apply kcalm_plain; [apply H7|].
  replace s with (fst (sched_block (sch k7) c WAIT_VFORK)) by (by rewrite E). by apply pl_block.
Qed.

(** ** Kernel threads and boot *)

Lemma linv_kwork L l k : linv L k -> linv L (with_kwork k l).
Proof. intros []. by constructor. Qed.

Lemma life_inv_perm k L : linv (kwork k) k -> quiet k -> Permutation L (kwork k) -> life_inv (with_kwork k L).
Proof.
  intros I Q HP. assert (HL : forall i, i ∈ L <-> i ∈ kwork k) by (intros i; by rewrite HP).
  assert (Ho : forall i, owned L (with_kwork k L) i <-> owned (kwork k) k i) by (intros i; unfold owned; by rewrite HL).
  split; [|exact Q]. constructor; try apply I.
  - intros i Hi. rewrite Ho. by apply (li_busy _ _ I).
  - intros i Hi. apply HL in Hi. by apply (li_claim _ _ I).
  - simpl kwork. rewrite HP. apply I.
  - intros i Hi Hoi. apply (li_pid _ _ I i Hi). by apply Ho.
  - intros i j Hi Hj Hoi Hoj. apply (li_uniq _ _ I); auto; by apply Ho.
Qed.

(** Moving a claimed slot to the work queue, or taking it off. *)
Lemma claimed_enqueue i k : claimed i k -> life_inv (with_kwork k (kwork k ++ [i])).
Proof.
  intros [I Q]. set (k' := with_kwork k (i :: kwork k)).
  change (life_inv (with_kwork k' (kwork k ++ [i]))). apply life_inv_perm; [by apply linv_kwork|exact Q|].
  symmetry. apply Permutation_cons_append.
Qed.

Lemma claimed_dequeue i k rest : life_inv k -> kwork k = i :: rest -> claimed i (with_kwork k rest).
Proof. intros [I Q] E. split; [|exact Q]. simpl kwork. rewrite <- E. by apply linv_kwork. Qed.

Lemma spawn_init_safe k a tty f : life_inv k -> next_pid k + 1 < 2 ^ 31 -> life_inv (fst (proc_spawn_init k a tty f)).
Proof.
  intros H Hn. unfold proc_spawn_init. destruct (task_alloc k) as [[k1 i]|] eqn:E.
  2:{ apply (kcalm_life k); [apply kcalm_env|done]. }
  pose proof (alloc_claimed k k1 i H Hn E) as C1. cbv zeta. set (k2 := with_ptask k1 i _).
  assert (C2 : claimed i k2) by (by eapply local_claimed; [apply local_ptask|]). clearbody k2.
  set (k2' := with_ext k2 i _). assert (C2' : claimed i k2') by (by eapply local_claimed; [apply local_ext|]). clearbody k2'.
  pose proof (attach_local k2' i CG_ROOT) as L3. destruct (attach k2' i CG_ROOT) as [k3 r]. simpl in L3.
  assert (C3 : claimed i k3) by (by apply (local_claimed i k2')). destruct (r <? 0); cbn [fst].
  - apply claimed_release, claimed_edit. by eapply local_claimed; [apply local_env|].
  - by apply claimed_runnable.
Qed.

Lemma set_kthreadd_safe k i :
  life_inv k -> is_slot i -> alive (state (ptask k i)) -> wait_reason (ptask k i) <> WAIT_CHILD ->
  life_inv (with_kthreadd k (Some i)).
Proof.
  intros [I Q] Hi Ha Hr. split; [|exact Q]. destruct I. constructor; auto. intros d [= <-]. done.
Qed.

Lemma spawn_kthreadd_safe k m : life_inv k -> next_pid k + 1 < 2 ^ 31 -> life_inv (fst (proc_spawn_kthreadd k m)).
Proof.
  intros H Hn. unfold proc_spawn_kthreadd. destruct (task_alloc k) as [[k1 i]|] eqn:E; [|done].
  pose proof (alloc_claimed k k1 i H Hn E) as C1. cbv zeta.
  destruct (task_alloc_spec (kwork k) k k1 i (proj1 H) Hn E) as (_ & Hs & _ & _ & Ei & _).
  set (k2 := with_ptask k1 i _). set (k3 := edit k2 i _).
  assert (L3 : local i k1 k3) by (transitivity k2; [by apply local_ptask|apply local_ext]).
  assert (C3 : claimed i k3) by (by apply (local_claimed i k1)). clearbody k3.
  destruct (negb m); [by apply claimed_release|].
  pose proof (attach_local k3 i CG_ROOT) as L4. destruct (attach k3 i CG_ROOT) as [k4 r]. simpl in L4.
  assert (C4 : claimed i k4) by (by apply (local_claimed i k3)).
  destruct (r <? 0); cbn [fst]; [by apply claimed_release|].
  destruct (enqueue_fresh_task (sch k4) i) as [_ [_ _ Hst Hr]].
  apply (set_kthreadd_safe (make_runnable k4 i)); [by apply claimed_runnable|done|..]; unfold ptask; simpl.
  - unfold proc_make_runnable. rewrite Hst. by destruct (cg_chain_throttled (sch k4) i).
  - unfold proc_make_runnable. rewrite Hr. destruct (cg_chain_throttled (sch k4) i); [done|].
    change (wait_reason (ptask k4 i) <> WAIT_CHILD).
    by rewrite (lo_reason _ _ _ L4), (lo_reason _ _ _ L3), Ei.
Qed.

(** Making a live task runnable outright. *)
Lemma kcalm_runnable k i :
  is_slot i -> parked (state (ptask k i)) -> alive (state (ptask k i)) -> kcalm k (make_runnable k i).
Proof.
  intros Hi Hp Ha. apply kcalm_sch; [by apply enqueue_fresh_calm|]. intros I. apply enqueue_fresh_inv; auto.
  apply (inv_fresh _ _ _ _ I Hi). apply Ha.
Qed.

Lemma kcalm_schedule k c : is_cpu c -> sched_inv (sch k) -> kcalm k (with_sch k (fst (schedule_locked (sch k) c))).
Proof. intros Hc I. apply kcalm_sch; [by apply schedule_safe_calm|]. by apply schedule_safe. Qed.

Lemma kthread_wakeup_safe k c : life_inv k -> is_cpu c -> life_inv (fst (kthread_wakeup k c)).
Proof.
  intros H Hc. unfold kthread_wakeup. destruct (kthreadd k) as [d|] eqn:Ed; [|done].
  destruct (li_kthreadd _ _ (proj1 H) d Ed) as (Hd & _). case_bool_decide as Hb; [|done]. cbv zeta.
  assert (H1 : life_inv (make_runnable k d)) by (by apply (kcalm_life k); [apply kcalm_runnable; rewrite ?Hb|]).
  pose proof (kcalm_schedule (make_runnable k d) c Hc (li_sched _ _ (proj1 H1))) as H2.
  destruct (schedule_locked _ c) as [s o]. by apply (kcalm_life (make_runnable k d)).
Qed.

Lemma kthread_create_safe k c m :
  life_inv k -> is_cpu c -> next_pid k + 1 < 2 ^ 31 -> life_inv (fst (fst (kthread_create k c m))).
Proof.
  intros H Hc Hn. unfold kthread_create. destruct (task_alloc k) as [[k1 i]|] eqn:E; [|done].
  pose proof (claimed_edit i k1 (set_aspace vmm_kernel_as) (alloc_claimed k k1 i H Hn E)) as C2. cbv zeta.
  set (k2 := edit k1 i _) in *. clearbody k2.
  destruct (negb m); [by apply claimed_release|].
  pose proof (kthread_wakeup_safe _ c (claimed_enqueue i k2 C2) Hc) as H3.
  by destruct (kthread_wakeup _ c) as [k3 o].
Qed.

Lemma kthreadd_round_safe k c d m :
  life_inv k -> is_cpu c -> current (sch k) c = Some d -> kthreadd k = Some d -> life_inv (fst (kthreadd_round k c d m)).
Proof.
  intros H Hc Hcur Hd. unfold kthreadd_round. destruct (kwork k) as [|i rest] eqn:Ew.
  - destruct (li_kthreadd _ _ (proj1 H) d Hd) as (_ & Ha & Hr). pose proof (li_sched _ _ (proj1 H)) as I.
    set (s1 := with_proc (sch k) d _). assert (E1 : procs s1 d = set_state PROC_BLOCKED (ptask k d)) by (simpl; by rewrite upd_eq).
    assert (Ho : agree_off d (procs (sch k)) (procs s1)) by (intros y Hy; simpl; by rewrite upd_ne).
    pose proof (calm_schedule_from (sch k) c d s1 I Hc Hcur eq_refl eq_refl Ho) as HC. rewrite E1 in HC.
    pose proof (block_safe (sch k) s1 c d I Hc Hcur eq_refl eq_refl Ho) as HI. rewrite E1 in HI.
    destruct (schedule_locked s1 c) as [s o]. apply (kcalm_life k); [|done]. apply kcalm_sch; [|intros _; by apply HI].
    apply HC; try done. apply live_calm; try done. by right.
  - pose proof (claimed_dequeue i k rest H Ew) as C1. cbv zeta. set (k1 := with_kwork k rest) in *. clearbody k1.
    destruct (negb m); [by apply claimed_release|]. set (k3 := edit _ i _).
    assert (C3 : claimed i k3) by (apply claimed_edit; by eapply local_claimed; [apply local_ptask|]). clearbody k3.
    pose proof (attach_local k3 i CG_ROOT) as L4. destruct (attach k3 i CG_ROOT) as [k4 r]. simpl in L4.
    assert (C4 : claimed i k4) by (by apply (local_claimed i k3)).
    destruct (r <? 0); [by apply claimed_release|by apply claimed_runnable].
Qed.

(** ** Exit *)

(** An orphan is handed to init: the only effect is on its parent's pid. *)
Lemma set_ppid_life k i : life_inv k -> life_inv (with_ptask k i (set_ppid 1 (ptask k i))).
Proof.
  intros [I Q]. set (k' := with_ptask k i _).
  assert (E : forall j, ptask k' j = ptask k j \/ ptask k' j = set_ppid 1 (ptask k j)).
  { intros j. unfold ptask. simpl. unfold upd. destruct (Z.eqb_spec j i) as [->|]; auto. }
  assert (Es : forall j, state (ptask k' j) = state (ptask k j) /\ pid (ptask k' j) = pid (ptask k j) /\
    wait_reason (ptask k' j) = wait_reason (ptask k j)) by (intros j; by destruct (E j) as [-> | ->]).
  assert (Ho : forall j, owned (kwork k) k' j <-> owned (kwork k) k j).
  { intros j. unfold owned. by destruct (Es j) as [-> _]. }
  split; [change (linv (kwork k) k'); constructor|]; try apply I.
  - apply with_view; [apply I|by repeat split].
  - intros j Hj. rewrite Ho. by apply (li_busy _ _ I).
  - intros j Hj. destruct (Es j) as [-> _]. by apply (li_claim _ _ I).
  - intros j Hj Hoj. destruct (Es j) as (_ & -> & _). apply (li_pid _ _ I j Hj). by apply Ho.
  - intros j l Hj Hl Hoj Hol. destruct (Es j) as (_ & -> & _), (Es l) as (_ & -> & _).
    apply (li_uniq _ _ I); auto; by apply Ho.
  - intros d Ed. destruct (Es d) as (-> & _ & ->). by apply (li_kthreadd _ _ I).
  - intros q j Hq Hj H1 (M1 & M2 & M3 & M4 & M5). unfold waits_child in M1.
    destruct (Es q) as (Eq1 & Eq2 & Eq3), (Es j) as (Ej1 & Ej2 & _). rewrite Eq1, Eq2, Eq3, Ej1, Ej2 in *.
    destruct (E j) as [Ej|Ej]; rewrite Ej in M3; [|by symmetry in M3].
    by apply (Q q j Hq Hj H1).
Qed.

Lemma reparent_life k p : life_inv k -> life_inv (reparent k p).
Proof.
  unfold reparent. generalize (seqZ 0 MAX_PROCS) as l. intros l. revert k. induction l as [|i l IH]; intros k H; [done|].
  simpl. apply IH. destruct (_ && _); [by apply set_ppid_life|done].
Qed.

Lemma teardown_life k p self ws : life_inv k -> life_inv (proc_teardown k p self ws).
Proof.
  intros H. unfold proc_teardown. apply reparent_life. eapply kcalm_life; [apply kcalm_drop_aspace|].
  eapply kcalm_life; [apply kcalm_clear_tid|]. eapply kcalm_life; [by apply kcalm_edit|].
  eapply kcalm_life; [apply kcalm_wakeups|]. eapply kcalm_life; [apply kcalm_detach|done].
Qed.

(** What a dying task keeps through its teardown: the core it runs on, its pid,
    its parent and its group. *)
Record keeps (p : Z) k k' : Prop := {
  kp_current : current (sch k') = current (sch k);
  kp_pid : pid (ptask k' p) = pid (ptask k p);
  kp_ppid : ppid (ptask k' p) = ppid (ptask k p);
  kp_tgid : tgid (ext k' p) = tgid (ext k p);
  kp_term : term_sig (ext k' p) = term_sig (ext k p);
  kp_kthreadd : kthreadd k' = kthreadd k;
  kp_kwork : kwork k' = kwork k
}.

#[export] Instance keeps_refl p : Reflexive (keeps p).
Proof. intros k. by constructor. Qed.
#[export] Instance keeps_trans p : Transitive (keeps p).
Proof. intros a b c [] []. constructor; congruence. Qed.

Lemma kcalm_keeps p k k' : kcalm k k' -> current (sch k') = current (sch k) -> keeps p k k'.
Proof. intros [Hc _ _ _ Hd Hw Ht _ Hg] E. constructor; auto; apply (Hc p). Qed.

Lemma enqueue_fresh_cur s p : current (enqueue_fresh s p) = current s.
Proof.
  pose proof (enqueue_fresh_current s (current s) p) as H. replace (with_current s (current s)) with s in H by (by destruct s).
  rewrite H. done.
Qed.
Lemma sched_wake_cur s p : current (sched_wake s p) = current s.
Proof. unfold sched_wake. case_bool_decide; [|done]. by rewrite enqueue_fresh_cur. Qed.

Lemma fold_cur {A} (f : sched -> A -> sched) l :
  (forall s a, current (f s a) = current s) -> forall s, current (fold_left f l s) = current s.
Proof. intros H. induction l as [|a l IH]; intros s; [done|]. simpl. by rewrite IH. Qed.

Lemma wake_if_cur test s : current (wake_if test s) = current s.
Proof. apply fold_cur. intros s' i. destruct (_ && _); [apply sched_wake_cur|done]. Qed.
Lemma wakeups_cur ws s : current (fold_left run_wakeup ws s) = current s.
Proof. apply fold_cur. intros s' w. destruct w; apply wake_if_cur. Qed.

(** Equality of the current tasks and of one task's extra fields but for those
    the teardown clears. *)
Lemma wake_futex_keeps p k a addr : keeps p k (fst (proc_wake_futex k a addr)).
Proof.
  apply (wake_futex_rel (keeps p)).
  - intros k' i Hi. apply kcalm_keeps; [by apply kcalm_wake|]. apply sched_wake_cur.
  - intros k' i w. by apply kcalm_keeps; [apply kcalm_waitv|].
Qed.

Lemma reparent_keeps p k : keeps p k (reparent k p).
Proof.
  unfold reparent. set (f := fun k i => _). assert (K : forall l k, keeps p k (fold_left f l k)).
  { induction l as [|i l IH]; intros k'; [reflexivity|]. simpl. transitivity (f k' i); [|apply IH].
    unfold f. destruct (_ && _) eqn:B; [|reflexivity]. constructor; try done; unfold ptask; simpl; unfold upd;
      destruct (Z.eqb_spec p i) as [->|]; try done.
    apply andb_true_iff in B as [_ B]. by rewrite Z.eqb_refl in B. }
  apply K.
Qed.

Lemma teardown_keeps k p self ws : keeps p k (proc_teardown k p self ws).
Proof.
  unfold proc_teardown. cbv zeta. etransitivity; [|apply reparent_keeps].
  etransitivity; [|apply kcalm_keeps; [apply kcalm_drop_aspace|unfold drop_aspace; by destruct (_ =? _)]].
  set (k3 := edit _ p _). transitivity k3.
  - unfold k3. set (k1 := detach k p). transitivity k1; [by apply kcalm_keeps; [apply kcalm_detach|]|].
    set (k2 := with_sch k1 _). transitivity k2; [apply kcalm_keeps; [apply kcalm_wakeups|apply wakeups_cur]|].
    apply kcalm_keeps; [by apply kcalm_edit|done].
  - unfold clear_tid. destruct (_ && _ && _); [|reflexivity]. etransitivity; [|apply wake_futex_keeps].
    apply kcalm_keeps; [apply kcalm_env|done].
Qed.

Lemma sentence_keeps self tg p k i : is_slot i -> keeps p k (sentence_one self tg k i).
Proof.
  intros Hi. apply kcalm_keeps; [by apply kcalm_sentence|]. unfold sentence_one. destruct (_ || _); [done|].
  cbv zeta. destruct (_ && _); [|done]. apply sched_wake_cur.
Qed.

Lemma keeps_fold {A} p (f : kern V -> A -> kern V) l :
  (forall k a, a ∈ l -> keeps p k (f k a)) -> forall k, keeps p k (fold_left f l k).
Proof.
  induction l as [|a l IH]; intros H k; [reflexivity|]. simpl. transitivity (f k a); [apply H; left|].
  apply IH. intros k' b Hb. apply H. by right.
Qed.

Lemma sentence_group_keeps k p : keeps p k (sentence_group k p).
Proof. apply keeps_fold. intros k' i Hi. by apply sentence_keeps, slot_elem. Qed.

(** The core seen as free. *)
Definition freed k c : kern V := with_sch k (with_current (sch k) (upd (current (sch k)) c None)).

(** A task that has become a zombie but still runs on core [c]. *)
Record dying (L : list Z) k c p : Prop := {
  dy_inv : linv L (freed k c);
  dy_cur : current (sch k) c = Some p;
  dy_cpu : is_cpu c;
  dy_slot : is_slot p;
  dy_state : state (ptask k p) = PROC_ZOMBIE;
  dy_on : on_cpu (ptask k p) = c;
  dy_rq : rq_cpu (ptask k p) = c
}.

Lemma zombify_dying L k c p st :
  linv L k -> is_cpu c -> current (sch k) c = Some p -> kthreadd k <> Some p -> dying L (zombify k p st) c p.
Proof.
  intros I Hc Hcur Hd. destruct (inv_cur _ _ _ (li_sched _ _ I) c p Hc Hcur) as (Hs & Hr & Hon & Hrq).
  set (k' := zombify k p st). assert (Ep : ptask k' p = set_state PROC_ZOMBIE (ptask k p)) by (unfold ptask; simpl; by rewrite upd_eq).
  assert (Eo : forall j, j <> p -> ptask k' j = ptask k j) by (intros j Hj; unfold ptask; simpl; by rewrite upd_ne).
  constructor; rewrite ?Ep; auto.
  assert (Ho : forall j, owned L k' j <-> owned L k j).
  { intros j. unfold owned. destruct (decide (j = p)) as [->|]; [|by rewrite Eo]. rewrite Ep. simpl. unfold ptask. rewrite Hr.
    naive_solver. }
  assert (Epid : forall j, pid (ptask k' j) = pid (ptask k j)).
  { intros j. destruct (decide (j = p)) as [->|]; [by rewrite Ep|by rewrite Eo]. }
  constructor.
  - apply (inv_leave (procs (sch k)) _ _ _ c p); [apply I|done|done|exact Eo|simpl; by rewrite upd_eq..].
  - intros j Hj. change (Z.testbit (busy k) j = true <-> owned L k' j). rewrite Ho. by apply (li_busy _ _ I).
  - intros j Hj. destruct (li_claim _ _ I j Hj) as [? Hu]. split; [done|]. change (state (ptask k' j) = PROC_UNUSED).
    rewrite Eo; [done|]. intros ->. unfold ptask in Hu. congruence.
  - apply I.
  - intros j Hj Hoj. change (1 <= pid (ptask k' j) < next_pid k). rewrite Epid. apply (li_pid _ _ I j Hj). by apply Ho.
  - intros j l Hj Hl Hoj Hol. change (pid (ptask k' j) = pid (ptask k' l) -> j = l). rewrite !Epid.
    apply (li_uniq _ _ I); auto; by apply Ho.
  - apply I.
  - intros d E. change (kthreadd k = Some d) in E.
    change (is_slot d /\ alive (state (ptask k' d)) /\ wait_reason (ptask k' d) <> WAIT_CHILD).
    rewrite Eo; [by apply (li_kthreadd _ _ I)|]. intros ->. done.
Qed.

Lemma dying_leaving L k c p : dying L k c p -> leaving (drop_bkl (sch k) (Some p)) c p.
Proof.
  intros [I H1 H2 H3 H4 H5 H6]. pose proof (li_sched _ _ I) as Is. unfold sched_inv in Is. simpl in Is.
  unfold ptask in *. constructor; simpl; rewrite ?upd_eq; auto.
  - exists (upd (procs (sch k)) p (set_state PROC_RUNNING (procs (sch k) p))).
    split; [|split; [intros y Hy; by rewrite !upd_ne|by rewrite upd_eq]].
    eapply (inv_ext _ _ _ _ (upd (upd (current (sch k)) c None) c (Some p))); [reflexivity|reflexivity| |].
    + intros c'. unfold upd. destruct (Z.eqb_spec c' c) as [->|]; [by rewrite H1|done].
    + apply (inv_run (procs (sch k))); [exact Is|done|apply upd_eq|done|by rewrite H4| | |by rewrite upd_eq..].
      * apply (inv_fresh _ _ _ _ Is H3). by rewrite H4.
      * intros y Hy. by rewrite upd_ne.
  - right. simpl. by rewrite H4.
Qed.

(** The zombie gives its core away. *)
Lemma dying_yield L k c p :
  dying L k c p -> let s := fst (sched_yield (sch k) c) in linv L (with_sch k s) /\ calm (procs (sch k)) (procs s).
Proof.
  intros D. pose proof (dying_leaving L k c p D) as Lv. pose proof D as [I H1 H2 H3 H4 H5 H6]. unfold sched_yield. rewrite H1.
  set (s0 := drop_bkl (sch k) (Some p)) in *. assert (Ec : current s0 c = Some p) by done.
  assert (HL : forall p', current s0 c = Some p' -> leaving s0 c p' /\ is_slot p').
  { intros p' E. assert (p' = p) as -> by congruence. done. }
  assert (HN : current s0 c = None -> sched_inv s0) by congruence.
  pose proof (schedule_inv s0 c H2 HN HL) as SI. pose proof (schedule_calm s0 c H2 HN HL) as SC.
  destruct (schedule_locked s0 c) as [s o]. destruct SI as (SI & _). simpl fst in *.
  assert (C : calm (procs (sch k)) (procs s)) by (transitivity (procs s0); [apply drop_bkl_calm|done]).
  split; [|done]. by apply (linv_calm L (freed k c)).
Qed.

(** ** Telling the parent *)

Lemma notify_freed k c p : freed (proc_notify_parent k p) c = proc_notify_parent (freed k c) p.
Proof.
  unfold proc_notify_parent. change (proc_by_pid (sch (freed k c)) (ppid (ptask (freed k c) p)))
    with (proc_by_pid (sch k) (ppid (ptask k p))).
  destruct (proc_by_pid (sch k) (ppid (ptask k p))) as [q|]; [|done]. cbv zeta.
  change (sch (freed k c)) with (with_current (sch k) (upd (current (sch k)) c None)).
  rewrite proc_signal_current. cbn [fst]. set (s := fst (proc_signal (sch k) q SIGCHLD)).
  assert (E : current s = current (sch k)).
  { pose proof (proc_signal_current (sch k) (current (sch k)) q SIGCHLD) as H.
    replace (with_current (sch k) (current (sch k))) with (sch k) in H by (by destruct (sch k)).
    unfold s. by rewrite H. }
  simpl procs. destruct (_ && _); [rewrite sched_wake_current|]; unfold freed, with_sch; simpl; rewrite ?sched_wake_cur, E; done.
Qed.

Lemma notify_kcalm k p : kcalm k (proc_notify_parent k p).
Proof.
  unfold proc_notify_parent. destruct (proc_by_pid (sch k) (ppid (ptask k p))) as [q|] eqn:E; [|reflexivity].
  apply proc_by_pid_slot in E. apply kcalm_sch.
  - cbv zeta. transitivity (procs (fst (proc_signal (sch k) q SIGCHLD))); [apply proc_signal_calm|].
    destruct (_ && _); [apply sched_wake_calm|reflexivity].
  - intros I. pose proof (proc_signal_safe (sch k) q SIGCHLD E I). cbv zeta. destruct (_ && _); [by apply sched_wake_inv|done].
Qed.

Lemma sched_wake_up s q : ~ waits_child (procs (sched_wake s q) q).
Proof.
  unfold sched_wake. case_bool_decide as Hb; [|by intros [? _]].
  set (s1 := with_proc s q _). destruct (enqueue_fresh_task s1 q) as [_ [_ _ Hs Hr]]. intros [H1 H2]. rewrite Hs in H1.
  rewrite Hr in H2. destruct (cg_chain_throttled s1 q); [done|]. by rewrite H1 in *.
Qed.

(** The parent, when there is one, is not asleep in waitpid afterwards. *)
Lemma notify_wakes k p q :
  proc_by_pid (sch k) (ppid (ptask k p)) = Some q -> ~ waits_child (ptask (proc_notify_parent k p) q).
Proof.
  intros E. unfold proc_notify_parent. rewrite E. cbv zeta. unfold ptask. simpl sch.
  set (s := fst (proc_signal (sch k) q SIGCHLD)). destruct (bool_decide _ && bool_decide _) eqn:B; [apply sched_wake_up|].
  intros [H1 H2]. rewrite !bool_decide_true in B by done. done.
Qed.

Lemma proc_by_pid_found s q :
  (forall i, is_slot i -> state (procs s i) <> PROC_UNUSED -> pid (procs s i) = pid (procs s q) -> i = q) ->
  is_slot q -> state (procs s q) <> PROC_UNUSED -> proc_by_pid s (pid (procs s q)) = Some q.
Proof.
  intros U Hq Hu. unfold proc_by_pid. destruct (List.find _ _) as [i|] eqn:E.
  - apply List.find_some in E as [Hi H]. apply list_elem_of_In, slot_elem in Hi. apply andb_true_iff in H as [H1 H2].
    apply negb_true_iff, bool_decide_eq_false in H1. apply Z.eqb_eq in H2. f_equal. by apply U.
  - exfalso. assert (Hin : In q (seqZ 0 MAX_PROCS)) by (apply list_elem_of_In, elem_of_seqZ; unfold is_slot in Hq; lia).
    pose proof (List.find_none _ _ E q Hin) as H. cbv beta in H. by rewrite bool_decide_false, Z.eqb_refl in H.
Qed.

Lemma sched_wake_off s q : agree_off q (procs s) (procs (sched_wake s q)).
Proof.
  unfold sched_wake. case_bool_decide; [|intros y Hy; done]. intros y Hy.
  set (s1 := with_proc s q _). destruct (enqueue_fresh_task s1 q) as [Ha _]. rewrite Ha by done. simpl. by rewrite upd_ne.
Qed.

Lemma proc_signal_off s q sg : agree_off q (procs s) (procs (fst (proc_signal s q sg))).
Proof.
  intros y Hy. unfold proc_signal. destruct (_ || _); [done|]. destruct (sg =? SIGCONT).
  - case_bool_decide; [|simpl; by rewrite upd_ne]. destruct (_ && _); [simpl; by rewrite upd_ne|]. cbn [fst].
    set (s1 := with_proc (with_proc s q _) q _). destruct (enqueue_fresh_task s1 q) as [Ha _]. rewrite Ha by done.
    simpl. by rewrite !upd_ne.
  - destruct (negb _); [done|]. set (s1 := with_proc s q _). assert (E : procs s1 y = procs s y) by (simpl; by rewrite upd_ne).
    case_bool_decide; [by rewrite <- E; apply sched_wake_off|]. destruct (_ && _); [|done]. cbn [fst].
    destruct (enqueue_fresh_task s1 q) as [Ha _]. by rewrite Ha.
Qed.

Lemma notify_self k p : state (ptask k p) = PROC_ZOMBIE -> ptask (proc_notify_parent k p) p = ptask k p.
Proof.
  intros Hz. unfold proc_notify_parent. destruct (proc_by_pid (sch k) (ppid (ptask k p))) as [q|]; [|done].
  cbv zeta. unfold ptask in *. simpl sch. destruct (decide (q = p)) as [->|Hne].
  - assert (E : fst (proc_signal (sch k) p SIGCHLD) = sch k).
    { unfold proc_signal. rewrite Hz. by rewrite orb_true_r. }
    rewrite E, Hz. done.
  - set (s := fst _). assert (E : procs s p = procs (sch k) p) by (apply proc_signal_off; congruence).
    destruct (_ && _); [|done]. rewrite <- E. apply sched_wake_off. congruence.
Qed.

Lemma notify_dying L k c p : dying L k c p -> dying L (proc_notify_parent k p) c p.
Proof.
  intros [I H1 H2 H3 H4 H5 H6]. pose proof (notify_self k p H4) as Es. constructor; rewrite ?Es; auto.
  - rewrite notify_freed. apply (kcalm_linv _ (freed k c)); [apply notify_kcalm|done].
  - rewrite <- H1. unfold proc_notify_parent. destruct (proc_by_pid _ _) as [q|]; [|done]. cbv zeta. simpl sch.
    assert (E : current (fst (proc_signal (sch k) q SIGCHLD)) = current (sch k)).
    { pose proof (proc_signal_current (sch k) (current (sch k)) q SIGCHLD) as H.
      replace (with_current (sch k) (current (sch k))) with (sch k) in H by (by destruct (sch k)). by rewrite H. }
    destruct (_ && _); by rewrite ?sched_wake_cur, E.
Qed.

(** A zombie of [p] is missed by nobody if [p] is no group leader, or once its
    parent has been told. *)
Lemma zombify_missed L k p st q i :
  linv L k -> quiet k -> is_slot q -> is_slot i -> pid (ptask k q) <> 1 -> missed (zombify k p st) q i ->
  i = p /\ q <> p /\ pid (ptask k p) = tgid (ext k p) /\ ppid (ptask k p) = pid (ptask k q) /\
  waits_child (ptask k q).
Proof.
  intros I Q Hq Hi H1 (M1 & M2 & M3 & M4 & M5). set (k' := zombify k p st) in *.
  assert (Ep : ptask k' p = set_state PROC_ZOMBIE (ptask k p)) by (unfold ptask; simpl; by rewrite upd_eq).
  assert (Eo : forall j, j <> p -> ptask k' j = ptask k j) by (intros j Hj; unfold ptask; simpl; by rewrite upd_ne).
  assert (Et : forall j, tgid (ext k' j) = tgid (ext k j) /\ wait_pid (ext k' j) = wait_pid (ext k j)).
  { intros j. simpl. unfold upd. destruct (Z.eqb_spec j p) as [->|]; done. }
  destruct (Et i) as [Ei _], (Et q) as [_ Eq]. rewrite Ei in M4. rewrite Eq in M5.
  assert (Hqp : q <> p). { intros ->. rewrite Ep in M1. by destruct M1. }
  rewrite (Eo q Hqp) in *. destruct (decide (i = p)) as [->|Hne].
  - rewrite Ep in *. done.
  - rewrite (Eo i Hne) in *. exfalso. by apply (Q q i).
Qed.

Lemma dying_yield_life k c p :
  dying (kwork k) k c p -> quiet k -> life_inv (with_sch k (fst (sched_yield (sch k) c))).
Proof.
  intros D Q. destruct (dying_yield _ k c p D) as [I C]. split; [exact I|]. by apply (quiet_calm k).
Qed.

Lemma zombify_pid k p st j : pid (ptask (zombify k p st) j) = pid (ptask k j).
Proof. unfold ptask. simpl. unfold upd. destruct (Z.eqb_spec j p) as [->|]; done. Qed.

Lemma calm_misses k k' q i : kcalm k k' -> missed k' q i -> missed k q i.
Proof.
  intros C (M1 & M2 & M3 & M4 & M5). destruct (kc_calm _ _ C q) as [Eq1 _ _ _ _ Eq2], (kc_calm _ _ C i) as [Ei1 Ei2 Ei3 Ei4 _ _].
  unfold missed. unfold ptask in *. rewrite Eq1, ?Ei1, ?Ei2, (kc_tgid _ _ C), (kc_wait _ _ C) in *.
  split; [by apply Eq2|]. split; [|done].
  destruct (alive_dec (state (procs (sch k) i))) as [Ha|Ha]; [by destruct (Ei3 Ha)|by rewrite <- Ei4].
Qed.

(** The parent of the leader that has just died hears of it. *)
Lemma notify_quiet k p st c :
  life_inv k -> dying (kwork k) (zombify k p st) c p -> quiet (proc_notify_parent (zombify k p st) p).
Proof.
  intros H1 D q i Hq Hi Hq1 M. pose proof (notify_kcalm (zombify k p st) p) as C.
  pose proof (calm_misses _ _ _ _ C M) as M3. pose proof (calm_pid _ _ (kc_calm _ _ C q)) as Eq.
  unfold ptask at 1 in Hq1. rewrite Eq in Hq1. change (pid (ptask (zombify k p st) q) <> 1) in Hq1. rewrite zombify_pid in Hq1.
  destruct (zombify_missed _ k p st q i (proj1 H1) (proj2 H1) Hq Hi Hq1 M3) as (-> & Hqp & _ & Hpp & _).
  destruct M as (M1 & _). revert M1. apply notify_wakes.
  destruct M3 as ((M1 & _) & _). clear C Eq. pose proof (li_sched _ _ (dy_inv _ _ _ _ D)) as Is.
  assert (Epp : ppid (ptask (zombify k p st) p) = pid (ptask (zombify k p st) q)).
  { rewrite zombify_pid, <- Hpp. unfold ptask. simpl. by rewrite upd_eq. }
  rewrite Epp. unfold ptask in *. remember (zombify k p st) as k' eqn:Ek in *. clear Ek.
  apply proc_by_pid_found; [|done|by rewrite M1]. intros j Hj Hju Hjp.
  apply (inv_pid _ _ _ Is j q Hj Hq); [exact Hju| |exact Hjp]. simpl. by rewrite M1.
Qed.

(** The state a leader leaves when it gives its core away. *)
Definition leader_dies k p st ws : kern V :=
  proc_notify_parent (zombify (proc_teardown (sentence_group k p) p true ws) p st) p.

Lemma exit_group_leader k c p st lws ws :
  pid (ptask k p) = tgid (ext k p) ->
  proc_exit_group k c p st lws ws =
  Some (with_sch (leader_dies k p st ws) (fst (sched_yield (sch (leader_dies k p st ws)) c)),
        snd (sched_yield (sch (leader_dies k p st ws)) c)).
Proof.
  intros Hl. apply Z.eqb_eq in Hl. unfold proc_exit_group. rewrite Hl. rewrite Z.eqb_refl. fold (leader_dies k p st ws).
  generalize (leader_dies k p st ws). intros k4. by destruct (sched_yield (sch k4) c).
Qed.

Lemma leader_dies_safe k c p st ws :
  life_inv k -> is_cpu c -> current (sch k) c = Some p -> kthreadd k <> Some p ->
  dying (kwork (leader_dies k p st ws)) (leader_dies k p st ws) c p /\ quiet (leader_dies k p st ws).
Proof.
  intros H Hc Hcur Hd. unfold leader_dies.
  assert (HK : keeps p k (proc_teardown (sentence_group k p) p true ws))
    by (transitivity (sentence_group k p); [apply sentence_group_keeps|apply teardown_keeps]).
  assert (H1 : life_inv (proc_teardown (sentence_group k p) p true ws))
    by (apply teardown_life; eapply kcalm_life; [apply kcalm_sentence_group|done]).
  generalize dependent (proc_teardown (sentence_group k p) p true ws). intros kT [K1 K2 _ K3 _ K4 K5] H1.
  assert (D : dying (kwork kT) (zombify kT p st) c p).
  { apply zombify_dying; [apply H1|done|by rewrite K1|by rewrite K4]. }
  split; [|by apply (notify_quiet kT p st c)]. rewrite (kc_kwork _ _ (notify_kcalm (zombify kT p st) p)).
  by apply notify_dying.
Qed.

Lemma exit_group_life k c p st lws ws k' o :
  life_inv k -> is_cpu c -> current (sch k) c = Some p -> kthreadd k <> Some p ->
  pid (ptask k p) = tgid (ext k p) -> proc_exit_group k c p st lws ws = Some (k', o) -> life_inv k'.
Proof.
  intros H Hc Hcur Hd Hl. rewrite (exit_group_leader k c p st lws ws Hl).
  destruct (leader_dies_safe k c p st ws H Hc Hcur Hd) as [D Q].
  generalize dependent (leader_dies k p st ws). intros kz D Q [= <- _]. by apply (dying_yield_life kz c p).
Qed.

Lemma vfork_wake_kcalm k i : kcalm k (vfork_wake_parent k i).
Proof.
  unfold vfork_wake_parent. destruct (_ =? 0); [reflexivity|]. cbv zeta. set (k1 := edit k i _).
  assert (H : kcalm k k1) by (by apply kcalm_edit). destruct (proc_by_pid (sch k1) _) as [q|] eqn:E; [|done].
  apply proc_by_pid_slot in E. case_bool_decide as Hb; [|done]. destruct (bool_decide _); [|done].
  transitivity k1; [done|]. apply kcalm_runnable; [done|by rewrite Hb..].
Qed.

Lemma vfork_wake_keeps p k i : keeps p k (vfork_wake_parent k i).
Proof.
  apply kcalm_keeps; [apply vfork_wake_kcalm|]. unfold vfork_wake_parent. destruct (_ =? 0); [done|].
  cbv zeta. destruct (proc_by_pid _ _); [|done]. destruct (_ && _); [|done]. simpl. apply enqueue_fresh_cur.
Qed.

(** The same for a thread that is not its group's leader. *)
Definition thread_dies k p st ws : kern V := zombify (vfork_wake_parent (proc_teardown k p true ws) p) p st.

Lemma exit_thread k c p st lws ws :
  pid (ptask k p) <> tgid (ext k p) ->
  proc_exit k c p st lws ws =
  Some (with_sch (thread_dies k p st ws) (fst (sched_yield (sch (thread_dies k p st ws)) c)),
        snd (sched_yield (sch (thread_dies k p st ws)) c)).
Proof.
  intros Hl. apply Z.eqb_neq in Hl. unfold proc_exit. rewrite Hl. fold (thread_dies k p st ws).
  generalize (thread_dies k p st ws). intros k4. by destruct (sched_yield (sch k4) c).
Qed.

Lemma thread_dies_safe k c p st ws :
  life_inv k -> is_cpu c -> current (sch k) c = Some p -> kthreadd k <> Some p -> pid (ptask k p) <> tgid (ext k p) ->
  dying (kwork (thread_dies k p st ws)) (thread_dies k p st ws) c p /\ quiet (thread_dies k p st ws).
Proof.
  intros H Hc Hcur Hd Hl. unfold thread_dies.
  assert (HK : keeps p k (vfork_wake_parent (proc_teardown k p true ws) p))
    by (transitivity (proc_teardown k p true ws); [apply teardown_keeps|apply vfork_wake_keeps]).
  assert (H1 : life_inv (vfork_wake_parent (proc_teardown k p true ws) p))
    by (eapply kcalm_life; [apply vfork_wake_kcalm|by apply teardown_life]).
  generalize dependent (vfork_wake_parent (proc_teardown k p true ws) p). intros kV [K1 K2 _ K3 _ K4 K5] H1.
  split; [apply zombify_dying; [apply H1|done|by rewrite K1|by rewrite K4]|].
  intros q i Hq Hi Hq1 M. rewrite zombify_pid in Hq1.
  destruct (zombify_missed _ kV p st q i (proj1 H1) (proj2 H1) Hq Hi Hq1 M) as (_ & _ & Hpt & _). congruence.
Qed.

Lemma exit_life k c p st lws ws k' o :
  life_inv k -> is_cpu c -> current (sch k) c = Some p -> kthreadd k <> Some p ->
  proc_exit k c p st lws ws = Some (k', o) -> life_inv k'.
Proof.
  intros H Hc Hcur Hd. destruct (decide (pid (ptask k p) = tgid (ext k p))) as [Hl|Hl].
  - unfold proc_exit. rewrite (proj2 (Z.eqb_eq _ _) Hl). by apply exit_group_life.
  - rewrite (exit_thread k c p st lws ws Hl). destruct (thread_dies_safe k c p st ws H Hc Hcur Hd Hl) as [D Q].
    generalize dependent (thread_dies k p st ws). intros kz D Q [= <- _]. by apply (dying_yield_life kz c p).
Qed.

(** ** waitpid *)

Lemma wait_scan_none k p which options l : forall h h',
  wait_scan k p which options l h = (h', None) ->
  forall i, i ∈ l -> wait_matches k p which i = true -> state (ptask k i) <> PROC_ZOMBIE.
Proof.
  induction l as [|x l IH]; intros h h' E i Hi Hm; [by apply elem_of_nil in Hi|]. simpl in E.
  apply elem_of_cons in Hi as [->|Hi].
  - rewrite Hm in E. simpl in E. case_bool_decide; done.
  - destruct (negb (wait_matches k p which x)); [by apply (IH h h' E)|]. case_bool_decide; [done|].
    destruct (stop_report options (ptask k x)); [done|]. by apply (IH true h' E).
Qed.

Lemma wait_scan_some k p which options l : forall h h' e,
  wait_scan k p which options l h = (h', Some e) ->
  match e with
  | Reap i => i ∈ l /\ wait_matches k p which i = true /\ state (ptask k i) = PROC_ZOMBIE
  | Stopped i => i ∈ l /\ wait_matches k p which i = true /\ stop_report options (ptask k i) = true
  end.
Proof.
  induction l as [|x l IH]; intros h h' e E; [done|]. simpl in E.
  assert (K : forall h, wait_scan k p which options l h = (h', Some e) ->
    match e with
    | Reap i => i ∈ x :: l /\ wait_matches k p which i = true /\ state (ptask k i) = PROC_ZOMBIE
    | Stopped i => i ∈ x :: l /\ wait_matches k p which i = true /\ stop_report options (ptask k i) = true
    end).
  { intros h0 E0. specialize (IH h0 h' e E0). destruct e; (split; [right|]; apply IH). }
  destruct (wait_matches k p which x) eqn:M; [|by apply (K h)]. simpl in E. case_bool_decide as Hz.
  - injection E as <- <-. split; [left|done].
  - destruct (stop_report options (ptask k x)) eqn:S; [|by apply (K true)]. injection E as <- <-. split; [left|done].
Qed.

Lemma wait_matches_spec k p which i :
  wait_matches k p which i = true <->
  state (ptask k i) <> PROC_UNUSED /\ ppid (ptask k i) = pid (ptask k p) /\ pid (ptask k i) = tgid (ext k i) /\
  (which <= 0 \/ which = pid (ptask k i)).
Proof.
  unfold wait_matches. rewrite !andb_true_iff, !negb_true_iff, bool_decide_eq_false, andb_false_iff, negb_false_iff, !Z.eqb_eq,
    Z.ltb_ge. naive_solver.
Qed.

Lemma zombie_release k i : life_inv k -> is_slot i -> state (ptask k i) = PROC_ZOMBIE -> life_inv (task_release k i).
Proof.
  intros [I Q] Hi Hz. assert (Hd : ~ alive (state (ptask k i))) by (rewrite Hz; by intros [_ ?]).
  split; [|by apply claimed_quiet].
  assert (E : kwork (task_release k i) = kwork k) by (unfold task_release; by destruct (slot_release _ _ _)).
  rewrite E. apply (task_release_linv (kwork k)); auto; [|apply I]. intros j. split; [|by intros [? _]].
  intros Hj. split; [done|]. intros ->. destruct (li_claim _ _ I i Hj) as [_ Hu]. congruence.
Qed.

Lemma reap_life k i : life_inv k -> is_slot i -> state (ptask k i) = PROC_ZOMBIE -> life_inv (reap k i).
Proof.
  intros H Hi Hz. unfold reap. apply (zombie_release k i) in H; [|done|done].
  generalize (pid (ptask k i)) as cpid. intros cpid. generalize dependent (task_release k i). clear Hz.
  assert (K : forall l k, (forall j, j ∈ l -> is_slot j) -> life_inv k -> life_inv (fold_left (sweep_one cpid i) l k)).
  { induction l as [|j l IH]; intros k1 Hl H; [done|]. cbn [fold_left]. apply IH; [intros; apply Hl; by right|].
    unfold sweep_one. case_bool_decide as Hz; [|done]. destruct (_ && _); [|done].
    apply zombie_release; [done|apply Hl; left|done]. }
  intros k1 H. apply K; [apply slot_elem|done].
Qed.

(** The state in which the caller gives its core away: asleep in waitpid. *)
Definition wait_sleeps k p which : kern V :=
  let k1 := edit k p (set_wait_pid which) in
  let k2 := with_ptask k1 p (set_wait_reason WAIT_CHILD (ptask k1 p)) in
  let s1 := drop_bkl (with_proc (sch k2) p (set_wait_reason WAIT_CHILD (procs (sch k2) p))) (Some p) in
  with_sch k2 (with_proc s1 p (set_state PROC_BLOCKED (procs s1 p))).

Lemma wait_sleeps_task k p which j :
  ptask (wait_sleeps k p which) j =
    if decide (j = p) then set_state PROC_BLOCKED (set_bkl_held false (set_wait_reason WAIT_CHILD (ptask k p)))
    else ptask k j.
Proof.
  unfold ptask. simpl. rewrite !upd_eq. destruct (decide (j = p)) as [->|H]; [by rewrite upd_eq|by rewrite !upd_ne].
Qed.

Lemma wait_sleeps_ext k p which j :
  tgid (ext (wait_sleeps k p which) j) = tgid (ext k j) /\
  wait_pid (ext (wait_sleeps k p which) j) = if decide (j = p) then which else wait_pid (ext k j).
Proof. simpl. unfold upd. destruct (decide (j = p)) as [->|H]; [by rewrite Z.eqb_refl|by apply Z.eqb_neq in H as ->]. Qed.

Lemma wait_sleeps_sched k c p which :
  sched_inv (sch k) -> is_cpu c -> current (sch k) c = Some p ->
  sched_inv (fst (schedule_locked (sch (wait_sleeps k p which)) c)) /\
  calm (procs (sch (wait_sleeps k p which))) (procs (fst (schedule_locked (sch (wait_sleeps k p which)) c))).
Proof.
  intros I Hc Hcur. pose proof (wait_sleeps_task k p which) as E. unfold ptask in E.
  assert (Ep := E p). rewrite decide_True in Ep by done.
  assert (Hoff : agree_off p (procs (sch k)) (procs (sch (wait_sleeps k p which)))).
  { intros j Hj. rewrite E. by rewrite decide_False. }
  split.
  - apply (block_safe (sch k) _ c p I); auto; by rewrite Ep.
  - apply schedule_calm; [done|simpl; congruence|]. intros p' Hp'. simpl in Hp'. assert (p' = p) as -> by congruence.
    apply (leaving_of (sch k)); auto; try by rewrite Ep. right. by rewrite Ep.
Qed.

(** Nobody is missed when the caller falls asleep after a scan that found no zombie. *)
Lemma wait_sleeps_quiet k p which :
  quiet k -> is_slot p ->
  (forall i, is_slot i -> wait_matches k p which i = true -> state (ptask k i) <> PROC_ZOMBIE) ->
  quiet (wait_sleeps k p which).
Proof.
  intros Q Hs Hz q i Hq Hi Hq1 (M1 & M2 & M3 & M4 & M5). rewrite (wait_sleeps_task k p which i) in *.
  destruct (wait_sleeps_ext k p which i) as [Ei _]. destruct (wait_sleeps_ext k p which q) as [_ Eq]. rewrite Ei in M4. rewrite Eq in M5.
  rewrite (wait_sleeps_task k p which q) in *. destruct (decide (i = p)) as [->|Hip]; [done|].
  destruct (decide (q = p)) as [->|Hqp]; [|by apply (Q q i)].
  apply (Hz i Hi); [|done]. apply wait_matches_spec. by rewrite M2.
Qed.

Lemma sched_block_sleeps k c p which :
  current (sch k) c = Some p ->
  let k2 := with_ptask (edit k p (set_wait_pid which)) p (set_wait_reason WAIT_CHILD (ptask (edit k p (set_wait_pid which)) p)) in
  with_sch k2 (fst (sched_block (sch k2) c WAIT_CHILD)) =
  with_sch (wait_sleeps k p which) (fst (schedule_locked (sch (wait_sleeps k p which)) c)).
Proof. intros H. cbv zeta. unfold sched_block. simpl current. rewrite H. reflexivity. Qed.

Lemma sched_block_sleeps_snd k c p which :
  current (sch k) c = Some p ->
  let k2 := with_ptask (edit k p (set_wait_pid which)) p (set_wait_reason WAIT_CHILD (ptask (edit k p (set_wait_pid which)) p)) in
  snd (sched_block (sch k2) c WAIT_CHILD) = snd (schedule_locked (sch (wait_sleeps k p which)) c).
Proof. intros H. cbv zeta. unfold sched_block. simpl current. rewrite H. reflexivity. Qed.

Lemma wait_block_life k c p which :
  life_inv k -> is_cpu c -> current (sch k) c = Some p -> kthreadd k <> Some p ->
  (forall i, is_slot i -> wait_matches k p which i = true -> state (ptask k i) <> PROC_ZOMBIE) ->
  life_inv (with_sch (wait_sleeps k p which) (fst (schedule_locked (sch (wait_sleeps k p which)) c))).
Proof.
  intros [I Q] Hc Hcur Hd Hz. destruct (inv_cur _ _ _ (li_sched _ _ I) c p Hc Hcur) as (Hs & Hr & _).
  destruct (wait_sleeps_sched k c p which (li_sched _ _ I) Hc Hcur) as [Is Cs].
  pose proof (wait_sleeps_quiet k p which Q Hs Hz) as Qb. pose proof (wait_sleeps_task k p which) as E.
  assert (Ec : busy (wait_sleeps k p which) = busy k /\ next_pid (wait_sleeps k p which) = next_pid k /\
    kthreadd (wait_sleeps k p which) = kthreadd k /\ kwork (wait_sleeps k p which) = kwork k) by done.
  generalize dependent (wait_sleeps k p which). intros kb Is Cs Qb E (Ec1 & Ec2 & Ec3 & Ec4).
  destruct (schedule_locked (sch kb) c) as [s o]. simpl fst in *. split; [|by apply (quiet_calm kb)].
  change (linv (kwork kb) (with_sch kb s)). rewrite Ec4. apply (linv_steady (kwork k) k); auto.
  - intros x. destruct (Cs x) as [C1 _ C3 C4 _ _]. specialize (E x). unfold ptask in E. rewrite E in C1, C3, C4. simpl.
    destruct (decide (x = p)) as [->|Hx]; [|split; [exact C1|by split]].
    rewrite Hr. split; [exact C1|]. split; [intros _; by apply C3|]. intros Hn. by destruct Hn.
  - intros d Ed H. assert (Hne : d <> p) by congruence. specialize (E d). rewrite decide_False in E by done. rewrite <- E.
    exact (calm_reason _ _ (Cs d) H).
Qed.

Lemma waitpid_life k c p which options :
  life_inv k -> is_cpu c -> current (sch k) c = Some p -> kthreadd k <> Some p ->
  life_inv (fst (waitpid_round k c p which options)).
Proof.
  intros H Hc Hcur Hd. unfold waitpid_round.
  destruct (wait_scan k p which options (seqZ 0 MAX_PROCS) false) as [h [[i|i]|]] eqn:E.
  - apply wait_scan_some in E as (Hi & _ & Hz). apply slot_elem in Hi. by apply reap_life.
  - apply (kcalm_life k); [|done]. apply kcalm_view; by repeat split.
  - destruct (negb h); [done|]. destruct (has_flag options WNOHANG); [done|].
    assert (Hz : forall i, is_slot i -> wait_matches k p which i = true -> state (ptask k i) <> PROC_ZOMBIE).
    { intros i Hi. apply (wait_scan_none _ _ _ _ _ _ _ E). apply elem_of_seqZ. unfold is_slot in Hi. lia. }
    pose proof (wait_block_life k c p which H Hc Hcur Hd Hz) as L. rewrite <- (sched_block_sleeps k c p which Hcur) in L.
    cbv zeta. destruct (sched_block _ c WAIT_CHILD) as [s o]. exact L.
Qed.

Lemma waitpid_resume_life k c p which options :
  life_inv k -> is_cpu c -> current (sch k) c = Some p -> kthreadd k <> Some p ->
  life_inv (fst (waitpid_resume k c p which options)).
Proof.
  intros H Hc Hcur Hd. unfold waitpid_resume. cbv zeta.
  assert (H1 : life_inv (with_sch k (bkl_return_from_switch (sch k) c))).
  { apply (kcalm_life k); [|done]. apply kcalm_plain; [apply H|by apply pl_resume]. }
  assert (C1 : current (sch (with_sch k (bkl_return_from_switch (sch k) c))) c = Some p).
  { simpl. unfold bkl_return_from_switch. rewrite Hcur. exact Hcur. }
  destruct (negb _); [done|]. by apply waitpid_life.
Qed.
End Safe.
