(* ===== verification/LifecycleDemo.v ===== *)
(** * Concrete runs of the process table

    A small environment, a run with a parent, its child and a thread of the
    child, and what goes wrong in it: the runs behind the findings about
    exit_group, execve and waitpid. *)
From S2P Require Import Prelude Sched SchedOps SchedSafe Signal Lifecycle.
#[local] Open Scope Z_scope.

(** Address spaces are numbered as they are made; every attachment succeeds. *)
Definition demo_env : ProcEnv Z := {|
  vmm_clone := fun v _ => (v + 1, v + 1);
  vmm_share := fun v a => (v, a);
  vmm_put := fun v _ => v;
  vmm_destroy := fun v _ => v;
  vmm_kernel_as := 0;
  vmm_page_shared := fun _ _ _ => false;
  vmm_resolve := fun _ _ _ => 0;
  vmm_copy_to_user := fun v _ _ _ _ => v;
  cg_attach_new := fun v _ _ _ _ => (v, 0, CG_NICE0);
  cg_detach := fun v _ => v
|}.
#[export] Existing Instance demo_env.

(** No group has a quota. *)
Definition free_groups : Z -> cgroup := fun i => Cgroup (i =? 0) (-1) 0 0 0 0 0 false 0 0 0 (-1).

(** Core [c] runs the next task. *)
Definition run (k : kern Z) (c : Z) : kern Z := with_sch k (fst (sched_yield (sch k) c)).
Definition clone_regs : regs := Regs 0 0 0 0 0 0 0 0 0 (CLONE_VM + CLONE_THREAD) 0 0 0 0 0 0 0 0 0 0 0 0.

(** init (slot 0, pid 1) on core 0, its child (slot 1, pid 2) on core 1. *)
Definition k_init : kern Z := run (fst (proc_spawn_init (boot_kern free_groups 10) 1 0 blank_regs)) 0.
Definition k_parent : kern Z := run (fst (proc_fork k_init 0 blank_regs)) 1.
(** The parent's child (slot 2, pid 3) on core 2. *)
Definition k_child : kern Z := run (fst (proc_fork k_parent 1 blank_regs)) 2.
(** A thread of the child (slot 3, pid 4) on core 3. *)
Definition k_thread : kern Z := run (fst (fst (proc_clone k_child 2 2 clone_regs))) 3.

Lemma k_thread_tasks :
  map (fun i => (pid (ptask k_thread i), tgid (ext k_thread i), ppid (ptask k_thread i), state (ptask k_thread i))) [0; 1; 2; 3] =
  [(1, 1, 0, PROC_RUNNING); (2, 2, 1, PROC_RUNNING); (3, 3, 2, PROC_RUNNING); (4, 3, 3, PROC_RUNNING)].
Proof. vm_compute. reflexivity. Qed.

(** ** The leader is closed out by a thread *)

(** The parent asleep in waitpid(-1), the child's leader asleep on a pipe. *)
Definition k_wait : kern Z := fst (waitpid_round k_thread 1 1 (-1) 0).
Definition k_nap : kern Z := with_sch k_wait (fst (sched_block (sch k_wait) 2 WAIT_PIPE)).

(** What is seen of a task. *)
Definition seen (k : kern Z) (i : Z) : Z * Z * Z * proc_state * wait_reason_t :=
  (pid (ptask k i), tgid (ext k i), ppid (ptask k i), state (ptask k i), wait_reason (ptask k i)).

(** ** The two halves of [sched_block] *)

(** Up to the release of the big kernel lock, and from the acquisition of the
    run-queue lock on: another core may run in between. *)
Definition block_begin (s : sched) (p : Z) (why : wait_reason_t) : sched :=
  drop_bkl (with_proc s p (set_wait_reason why (procs s p))) (Some p).
Definition block_park (s : sched) (c p : Z) : sched * outcome :=
  schedule_locked (with_proc s p (set_state PROC_BLOCKED (procs s p))) c.

Lemma sched_block_halves s c p why :
  current s c = Some p -> sched_block s c why = block_park (block_begin s p why) c p.
Proof. intros H. unfold sched_block. by rewrite H. Qed.

(** The parent's call of waitpid, which has found no zombie, up to the window;
    there the child exits on core 2; then the parent parks. *)
Definition k_window : kern Z :=
  let k1 := edit k_child 1 (set_wait_pid (-1)) in
  let k2 := with_ptask k1 1 (set_wait_reason WAIT_CHILD (ptask k1 1)) in
  with_sch k2 (block_begin (sch k2) 1 WAIT_CHILD).
Definition k_raced : kern Z :=
  match proc_exit k_window 2 2 7 [] [] with
  | Some (k, _) => with_sch k (fst (block_park (sch k) 1 1))
  | None => k_window
  end.

(** ** vfork *)

Definition vfork_regs : regs := Regs 0 0 0 0 0 0 0 0 0 (CLONE_VM + CLONE_VFORK) 0 0 0 0 0 0 0 0 0 0 0 0.

(** The parent, which ignores SIGCHLD, vforks on core 1; its child (slot 2,
    pid 3) runs on core 2. *)
Definition k_vforked : kern Z :=
  let k := with_ptask k_parent 1 (set_sigs (SIGMASK SIGCHLD) 0 (ptask k_parent 1)) in
  run (fst (fst (proc_clone k 1 1 vfork_regs))) 2.
