(* ===== verification/LifecycleProps.v ===== *)
(** * Properties of the life of a process

    The steps of the process table, the invariant of every reachable state, what
    fork, exit and waitpid do on each branch, and how an exit status travels to
    the parent that waits for it. *)
From S2P Require Import Prelude Sched SchedOps SchedInv SchedSafe SchedCalm Signal Lifecycle LifecycleInv LifecycleSafe LifecycleDemo.
#[local] Open Scope Z_scope.

Section Props.
Context {V : Type} {PE : ProcEnv V}.
Implicit Types (k : kern V).

(** ** Steps *)

Lemma exec_dethread_leader k p : pid (ptask k p) = tgid (ext k p) -> kcalm k (exec_dethread k p).
Proof.
  intros Hl. unfold exec_dethread. set (k1 := fold_left _ _ k).
  assert (H : kcalm k k1).
  { apply kcalm_fold. intros k' i Hi. unfold dethread_one. destruct (i =? p); [reflexivity|]. by apply kcalm_sentence, slot_elem. }
  clearbody k1. cbv zeta. replace (pid (ptask k1 p)) with (tgid (ext k1 p)); [by rewrite Z.eqb_refl|].
  rewrite (kc_tgid _ _ H), <- Hl. symmetry. apply (kc_calm _ _ H p).
Qed.

(** The running task of a core, not kthreadd, whose main loop never returns and
    makes no system call. *)
Definition user k c p : Prop := is_cpu c /\ current (sch k) c = Some p /\ kthreadd k <> Some p.

(** One operation of the kernel on the process table, each of them atomic, on
    one of the four cores that have a run queue.  The pid counter is a C int: a
    step that takes a pid is one that does not overflow it.  A process ends by
    its leader's exit_group, or a thread leaves it, and execve is called by a
    leader.  The code allows more, and what holds of the steps below then fails:
    exit_group by a thread ([waitpid_never_misses], [running_slot_reused]), execve
    by a thread ([thread_exec_dies], [thread_exec_shares_pid]), and a step of
    another core between the two halves of [sched_block]
    ([waitpid_never_misses]). *)
Inductive kstep k : kern V -> Prop :=
| ks_plain s : plain_step (sch k) s -> kstep k (with_sch k s)
| ks_spawn_init a tty f : next_pid k + 1 < 2 ^ 31 -> kstep k (fst (proc_spawn_init k a tty f))
| ks_spawn_kthreadd m : next_pid k + 1 < 2 ^ 31 -> kstep k (fst (proc_spawn_kthreadd k m))
| ks_fork c p r : user k c p -> next_pid k + 1 < 2 ^ 31 -> kstep k (fst (proc_fork k p r))
| ks_clone c p r : user k c p -> next_pid k + 1 < 2 ^ 31 -> kstep k (fst (fst (proc_clone k c p r)))
| ks_kthread_create c m : is_cpu c -> next_pid k + 1 < 2 ^ 31 -> kstep k (fst (fst (kthread_create k c m)))
| ks_kthreadd c d m : is_cpu c -> current (sch k) c = Some d -> kthreadd k = Some d -> kstep k (fst (kthreadd_round k c d m))
| ks_exit c p st lws ws k' o : user k c p -> proc_exit k c p st lws ws = Some (k', o) -> kstep k k'
| ks_exit_group c p st lws ws k' o :
    user k c p -> pid (ptask k p) = tgid (ext k p) -> proc_exit_group k c p st lws ws = Some (k', o) -> kstep k k'
| ks_sentenced c p lws ws k' o : user k c p -> die_if_sentenced k c p lws ws = Some (k', o) -> kstep k k'
| ks_kthread_done c p lws ws k' o : user k c p -> kthread_done k c p lws ws = Some (k', o) -> kstep k k'
| ks_wait c p which options : user k c p -> kstep k (fst (waitpid_round k c p which options))
| ks_wait_resume c p which options : user k c p -> kstep k (fst (waitpid_resume k c p which options))
| ks_exec c p : user k c p -> pid (ptask k p) = tgid (ext k p) -> kstep k (exec_dethread k p)
| ks_exec_done i : kstep k (vfork_wake_parent k i)
| ks_wake_futex a addr : kstep k (fst (proc_wake_futex k a addr))
| ks_waitv_arm p l m : kstep k (fst (proc_futex_waitv_arm k p l m))
| ks_waitv_disarm p : kstep k (proc_futex_waitv_disarm k p).

Inductive kreachable (G : Z -> cgroup) (v : V) : kern V -> Prop :=
| kr_boot : kreachable G v (boot_kern G v)
| kr_step k k' : kreachable G v k -> kstep k k' -> kreachable G v k'.

Lemma boot_life G (v : V) : life_inv (boot_kern G v).
Proof.
  split.
  - constructor; simpl; try done.
    + apply boot_safe.
    + intros i Hi. rewrite Z.bits_0. split; [done|]. intros [H|H]; [done|]. by apply elem_of_nil in H.
    + intros i Hi. by apply elem_of_nil in Hi.
    + constructor.
    + intros i _ [H|H]; [done|]. by apply elem_of_nil in H.
    + intros i j _ _ [H|H]; [done|]. by apply elem_of_nil in H.
  - intros q i _ _ _ ([H _] & _). done.
Qed.

Lemma sentenced_life k c p lws ws k' o :
  life_inv k -> user k c p -> die_if_sentenced k c p lws ws = Some (k', o) -> life_inv k'.
Proof.
  intros H (Hc & Hcur & Hd). unfold die_if_sentenced. destruct (group_dying (ext k p)); [|by intros [= <- _]].
  apply exit_life; auto. apply (kcalm_life k); [by apply kcalm_edit|done].
Qed.

Lemma kthread_done_life k c p lws ws k' o :
  life_inv k -> user k c p -> kthread_done k c p lws ws = Some (k', o) -> life_inv k'.
Proof.
  intros H (Hc & Hcur & Hd). apply exit_life; auto. apply (kcalm_life k); [by apply kcalm_edit|done].
Qed.

Lemma kstep_life k k' : life_inv k -> kstep k k' -> life_inv k'.
Proof.
  intros H S. destruct S.
  - apply (kcalm_life k); [|done]. by apply kcalm_plain; [apply H|].
  - by apply spawn_init_safe.
  - by apply spawn_kthreadd_safe.
  - by apply fork_safe.
  - apply clone_safe; [done|apply H0|done].
  - by apply kthread_create_safe.
  - by apply kthreadd_round_safe.
  - destruct H0 as (? & ? & ?). by apply (exit_life k c p st lws ws k' o).
  - destruct H0 as (? & ? & ?). by apply (exit_group_life k c p st lws ws k' o).
  - by apply (sentenced_life k c p lws ws k' o).
  - by apply (kthread_done_life k c p lws ws k' o).
  - destruct H0 as (? & ? & ?). by apply waitpid_life.
  - destruct H0 as (? & ? & ?). by apply waitpid_resume_life.
  - apply (kcalm_life k); [|done]. by apply exec_dethread_leader.
  - apply (kcalm_life k); [|done]. apply vfork_wake_kcalm.
  - apply (kcalm_life k); [|done]. apply kcalm_wake_futex.
  - unfold proc_futex_waitv_arm. destruct (_ || _); [done|]. destruct (negb m); [done|].
    apply (kcalm_life k); [|done]. apply kcalm_waitv.
  - apply (kcalm_life k); [|done]. apply kcalm_waitv.
Qed.

Lemma kreachable_life G (v : V) k : kreachable G v k -> life_inv k.
Proof. induction 1; [apply boot_life|by eapply kstep_life]. Qed.

(** C4: On a machine with at most four cores, in every state reached by the steps
    of [kstep], in whatever order they come (forks, clones, kernel-thread work,
    exits of threads and of leaders, waits, an execve by a leader, futex and
    vfork wakeups, signals and scheduling), while pids stay below 2^31: a slot's busy bit is set exactly when the slot is in use or waits in
    kthreadd's queue; the slots of that queue are distinct and not yet in use;
    all these tasks have positive pids below the counter and no two of them
    share one.  An exit_group or an execve by a thread that is not its group's
    leader is not among the steps: after the execve two tasks share a pid
    ([thread_exec_shares_pid]), and after the exit_group a slot may be given out
    while a core still runs on it ([running_slot_reused]). *)
Theorem process_table_consistent (G : Z -> cgroup) (v : V) (k : kern V) (R : kreachable G v k) :
  NoDup (kwork k) /\ (forall i, i ∈ kwork k -> is_slot i /\ state (ptask k i) = PROC_UNUSED) /\
  forall i, is_slot i ->
    (Z.testbit (busy k) i = true <-> state (ptask k i) <> PROC_UNUSED \/ i ∈ kwork k) /\
    (Z.testbit (busy k) i = true -> 1 <= pid (ptask k i) < next_pid k) /\
    (forall j, is_slot j -> Z.testbit (busy k) i = true -> Z.testbit (busy k) j = true ->
       pid (ptask k i) = pid (ptask k j) -> i = j).
Proof.
  destruct (kreachable_life _ _ _ R) as [I _]. split; [apply I|]. split; [apply I|]. intros i Hi.
  pose proof (li_busy _ _ I i Hi) as Hb. split; [exact Hb|]. split.
  - intros H. apply (li_pid _ _ I i Hi). by apply Hb.
  - intros j Hj H1 H2. apply (li_uniq _ _ I); auto; [by apply Hb|]. by apply (li_busy _ _ I j Hj).
Qed.

(** The task in slot [q], not init, is asleep in waitpid although its child in
    slot [i], which its call is waiting for, is a zombie. *)
Definition misses k q i : Prop :=
  is_slot q /\ is_slot i /\ state (ptask k q) = PROC_BLOCKED /\ wait_reason (ptask k q) = WAIT_CHILD /\ pid (ptask k q) <> 1 /\
  ppid (ptask k i) = pid (ptask k q) /\ pid (ptask k i) = tgid (ext k i) /\
  (wait_pid (ext k q) <= 0 \/ wait_pid (ext k q) = pid (ptask k i)) /\ state (ptask k i) = PROC_ZOMBIE.

Lemma life_never_misses k q i : life_inv k -> ~ misses k q i.
Proof. intros [_ Q] (Hq & Hi & Hs & Hw & H1 & Hp & Hl & Hm & Hz). by apply (Q q i Hq Hi H1). Qed.

(** ** An exit status reaches the parent *)

Lemma notify_ext k p : ext (proc_notify_parent k p) = ext k.
Proof. unfold proc_notify_parent. by destruct (proc_by_pid _ _). Qed.

(** What is left of a leader that has exited. *)
Record corpse k p (pd pp tg st sg : Z) : Prop := {
  co_state : state (ptask k p) = PROC_ZOMBIE;
  co_pid : pid (ptask k p) = pd;
  co_ppid : ppid (ptask k p) = pp;
  co_tgid : tgid (ext k p) = tg;
  co_status : exit_status (ext k p) = st;
  co_term : term_sig (ext k p) = sg
}.

Lemma leader_dies_corpse k p st ws :
  corpse (leader_dies k p st ws) p (pid (ptask k p)) (ppid (ptask k p)) (tgid (ext k p)) st (term_sig (ext k p)).
Proof.
  unfold leader_dies.
  assert (HK : keeps p k (proc_teardown (sentence_group k p) p true ws))
    by (transitivity (sentence_group k p); [apply sentence_group_keeps|apply teardown_keeps]).
  generalize dependent (proc_teardown (sentence_group k p) p true ws). intros kT [_ K2 K3 K4 K5 _ _].
  assert (Ep : ptask (zombify kT p st) p = set_state PROC_ZOMBIE (ptask kT p)) by (unfold ptask; simpl; by rewrite upd_eq).
  assert (Ez : state (ptask (zombify kT p st) p) = PROC_ZOMBIE) by (by rewrite Ep).
  assert (Ex : ext (zombify kT p st) p = set_exit_status st (ext kT p)) by (simpl; by rewrite upd_eq).
  constructor; rewrite ?(notify_self _ p Ez), ?notify_ext, ?Ep, ?Ex; done.
Qed.

Lemma corpse_calm k k' p pd pp tg st sg :
  calm (procs (sch k)) (procs (sch k')) -> ext k' = ext k -> corpse k p pd pp tg st sg -> corpse k' p pd pp tg st sg.
Proof.
  intros C E []. destruct (C p) as [C1 C2 _ C4 _ _]. constructor; rewrite ?E; auto; unfold ptask in *; try congruence.
  rewrite C4; [done|]. rewrite co_state0. by intros [_ ?].
Qed.

(** A wait for one pid finds the zombie that has it. *)
Lemma wait_scan_pid k q p options :
  (forall i, is_slot i -> state (ptask k i) <> PROC_UNUSED -> pid (ptask k i) = pid (ptask k p) -> i = p) ->
  is_slot p -> 0 < pid (ptask k p) -> state (ptask k p) = PROC_ZOMBIE -> ppid (ptask k p) = pid (ptask k q) ->
  pid (ptask k p) = tgid (ext k p) ->
  exists h, wait_scan k q (pid (ptask k p)) options (seqZ 0 MAX_PROCS) false = (h, Some (Reap p)).
Proof.
  intros U Hp Hpos Hz Hpp Hl. assert (Hm : wait_matches k q (pid (ptask k p)) p = true).
  { apply wait_matches_spec. rewrite Hz. repeat split; auto. }
  assert (Hno : forall i, is_slot i -> wait_matches k q (pid (ptask k p)) i = true -> i = p).
  { intros i Hi H. apply wait_matches_spec in H as (H1 & _ & _ & H2). apply U; auto. lia. }
  assert (K : forall l h, (forall i, i ∈ l -> is_slot i) -> p ∈ l ->
    exists h', wait_scan k q (pid (ptask k p)) options l h = (h', Some (Reap p))).
  { induction l as [|x l IH]; intros h Hl' Hin; [by apply elem_of_nil in Hin|]. simpl.
    destruct (decide (x = p)) as [->|Hne].
    - rewrite Hm. simpl. rewrite bool_decide_true by done. by exists true.
    - destruct (wait_matches k q (pid (ptask k p)) x) eqn:M; [exfalso; apply Hne, Hno; [apply Hl'; left|done]|].
      simpl. apply IH; [intros; apply Hl'; by right|]. apply elem_of_cons in Hin as [?|?]; [congruence|done]. }
  apply K; [apply slot_elem|]. apply elem_of_seqZ. unfold is_slot in Hp. lia.
Qed.

Lemma sweep_off cpid i l j : forall k,
  j ∉ l \/ j = i -> ptask (fold_left (sweep_one cpid i) l k) j = ptask k j /\
  (Z.testbit (busy k) j = false -> is_slot j -> (forall x, x ∈ l -> is_slot x) ->
   Z.testbit (busy (fold_left (sweep_one cpid i) l k)) j = false).
Proof.
  induction l as [|x l IH]; intros k Hj; [done|]. cbn [fold_left].
  assert (Hj' : j ∉ l \/ j = i). { destruct Hj as [Hj|]; [left|by right]. intros H. apply Hj. by right. }
  destruct (IH (sweep_one cpid i k x) Hj') as [E1 E2]. rewrite E1.
  assert (K : ptask (sweep_one cpid i k x) j = ptask k j /\
    (Z.testbit (busy k) j = false -> is_slot j -> is_slot x -> Z.testbit (busy (sweep_one cpid i k x)) j = false)).
  { unfold sweep_one. destruct (bool_decide _ && _ && negb (x =? i)) eqn:B; [|done].
    assert (Hx : j <> x).
    { intros ->. destruct Hj as [Hj| ->]; [apply Hj; left|]. by rewrite Z.eqb_refl, andb_false_r in B. }
    unfold task_release, slot_release. destruct (state (procs (sch k) x)); try (split; [done|auto]);
      (split; [unfold ptask; simpl; by rewrite upd_ne|]); intros Hb Hs Hsx; simpl busy;
      unfold is_slot, MAX_PROCS in *; rewrite bit_clear, Hb by lia; done. }
  destruct K as [K1 K2]. split; [done|]. intros Hb Hs Hl. apply E2; [|done|intros; apply Hl; by right].
  apply K2; auto. apply Hl. left.
Qed.

Lemma reap_frees k i :
  is_slot i -> state (ptask k i) = PROC_ZOMBIE ->
  state (ptask (reap k i) i) = PROC_UNUSED /\ Z.testbit (busy (reap k i)) i = false.
Proof.
  intros Hi Hz. unfold reap. set (l := seqZ 0 MAX_PROCS).
  destruct (sweep_off (pid (ptask k i)) i l i (task_release k i) (or_intror eq_refl)) as [-> E2].
  assert (K : state (ptask (task_release k i) i) = PROC_UNUSED /\ Z.testbit (busy (task_release k i)) i = false).
  { unfold task_release, slot_release. unfold ptask in Hz. rewrite Hz. split.
    - unfold ptask. simpl. by rewrite upd_eq.
    - simpl busy. unfold is_slot, MAX_PROCS in Hi. rewrite bit_clear, Z.eqb_refl by lia. apply andb_false_r. }
  split; [apply K|]. apply E2; [apply K|done|apply slot_elem].
Qed.

Lemma plain_rtc s s' : rtc plain_step s s' -> sched_inv s -> sched_inv s' /\ calm (procs s) (procs s').
Proof.
  induction 1 as [s|s s1 s2 H1 H2 IH]; intros I; [by split|].
  destruct (IH (plain_step_safe _ _ H1 I)) as [I2 C2]. split; [done|].
  transitivity (procs s1); [by apply plain_step_calm|done].
Qed.

Lemma teardown_steady k p self ws : steady (procs (sch k)) (procs (sch (proc_teardown k p self ws))).
Proof.
  unfold proc_teardown. cbv zeta.
  set (k3 := edit _ p _). assert (C3 : kcalm k k3).
  { transitivity (detach k p); [apply kcalm_detach|]. etransitivity; [apply kcalm_wakeups|by apply kcalm_edit]. }
  set (k4 := drop_aspace _ p). assert (C4 : kcalm k k4).
  { transitivity k3; [done|]. transitivity (clear_tid k3 p self); [apply kcalm_clear_tid|apply kcalm_drop_aspace]. }
  clearbody k4. transitivity (procs (sch k4)); [apply calm_steady, C4|]. clear.
  unfold reparent. generalize (seqZ 0 MAX_PROCS) as l. intros l.
  match goal with |- context [fold_left ?f l k4] => set (g := f) end.
  assert (K : forall k, steady (procs (sch k)) (procs (sch (fold_left g l k)))); [|apply K].
  induction l as [|i l IH]; intros k; [reflexivity|]. cbn [fold_left]. transitivity (procs (sch (g k i))); [|apply IH].
  unfold g. destruct (_ && _); [|reflexivity]. intros x. simpl. unfold upd, ptask.
  destruct (Z.eqb_spec x i) as [->|]; (split; [done|by split]).
Qed.

(** The parent of a leader that has exited is not asleep in waitpid. *)
Lemma leader_dies_wakes k c p st ws q :
  life_inv k -> is_cpu c -> current (sch k) c = Some p -> kthreadd k <> Some p ->
  is_slot q -> alive (state (ptask k q)) -> q <> p -> ppid (ptask k p) = pid (ptask k q) ->
  ~ waits_child (ptask (leader_dies k p st ws) q).
Proof.
  intros H Hc Hcur Hd Hq Ha Hqp Hpp. destruct (leader_dies_safe k c p st ws H Hc Hcur Hd) as [D _]. unfold leader_dies in *.
  assert (HK : keeps p k (proc_teardown (sentence_group k p) p true ws))
    by (transitivity (sentence_group k p); [apply sentence_group_keeps|apply teardown_keeps]).
  assert (HS : steady (procs (sch k)) (procs (sch (proc_teardown (sentence_group k p) p true ws)))).
  { transitivity (procs (sch (sentence_group k p))); [apply calm_steady, kcalm_sentence_group|apply teardown_steady]. }
  assert (H1 : life_inv (proc_teardown (sentence_group k p) p true ws))
    by (apply teardown_life; eapply kcalm_life; [apply kcalm_sentence_group|done]).
  clear D. generalize dependent (proc_teardown (sentence_group k p) p true ws). intros kT [K1 _ K3 _ _ K4 _] HS H1.
  destruct (HS q) as (Eq & Eqa & _). specialize (Eqa Ha). apply notify_wakes.
  assert (Eo : procs (sch (zombify kT p st)) q = procs (sch kT) q) by (simpl; by rewrite upd_ne).
  assert (Ep : ppid (ptask (zombify kT p st) p) = pid (procs (sch (zombify kT p st)) q)).
  { rewrite Eo. unfold ptask at 1. simpl. rewrite upd_eq. simpl. change (ppid (ptask kT p) = pid (procs (sch kT) q)).
    rewrite K3, Hpp. unfold ptask. by rewrite Eq. }
  rewrite Ep. apply proc_by_pid_found; [|done|rewrite Eo; apply Eqa].
  assert (Dz : dying (kwork kT) (zombify kT p st) c p) by (apply zombify_dying; [apply H1|done|by rewrite K1|by rewrite K4]).
  pose proof (li_sched _ _ (dy_inv _ _ _ _ Dz)) as Is. remember (zombify kT p st) as kz eqn:Ek in *. clear Ek.
  intros j Hj Hju Hjp. apply (inv_pid _ _ _ Is j q Hj Hq); [exact Hju| |exact Hjp]. simpl. rewrite Eo. apply Eqa.
Qed.

Lemma leader_dies_pid k p st ws q : pid (ptask (leader_dies k p st ws) q) = pid (ptask k q).
Proof.
  unfold leader_dies. etransitivity; [apply (kc_calm _ _ (notify_kcalm _ p) q)|].
  change (pid (ptask (zombify (proc_teardown (sentence_group k p) p true ws) p st) q) = pid (ptask k q)).
  rewrite zombify_pid. etransitivity; [apply (teardown_steady (sentence_group k p) p true ws q)|].
  apply (kc_calm _ _ (kcalm_sentence_group k p) q).
Qed.

(** A waitpid for the pid of a corpse. *)
Lemma waitpid_corpse k q c p pd tg st sg options :
  life_inv k -> is_slot p -> 1 <= pd -> pd = tg -> corpse k p pd (pid (ptask k q)) tg st sg ->
  waitpid_round k c q pd options =
    (reap k p, WReturn pd (Some (if sg =? 0 then st mod 256 * 256 else Z.land sg 127))).
Proof.
  intros [I _] Hp Hpd -> [C1 C2 C3 C4 C5 C6].
  destruct (wait_scan_pid k q p options) as [h E]; auto; try lia.
  - intros i Hi Hu He. apply (inv_pid _ _ _ (li_sched _ _ I) i p Hi Hp Hu); [|exact He].
    change (state (ptask k p) <> PROC_UNUSED). by rewrite C1.
  - unfold waitpid_round. rewrite C2 in E. rewrite E, C2. unfold encode_status. rewrite C5, C6.
    destruct (sg =? 0); simpl negb; cbv iota; [|done]. do 4 f_equal.
    change 255 with (Z.ones 8). rewrite Z.land_ones, Z.shiftl_mul_pow2 by lia. done.
Qed.

(** C6: An exit status reaches the parent that waits for it.  When the leader
    [p] of a process, a child of the task in slot [q], exits with [st], the exit
    succeeds, the parent is not asleep in waitpid afterwards, and however the
    scheduler goes on from there, a waitpid by the parent for [p]'s pid returns
    that pid with the encoded status (the low byte of [st], or the signal that
    killed [p]), and gives [p]'s slot back. *)
Theorem exit_status_reaches_parent k c p st lws ws q (H : life_inv k) (U : user k c p)
    (Hl : pid (ptask k p) = tgid (ext k p)) (Hq : is_slot q) (Ha : alive (state (ptask k q))) (Hqp : q <> p)
    (Hpp : ppid (ptask k p) = pid (ptask k q)) :
  exists k1 o, proc_exit k c p st lws ws = Some (k1, o) /\ ~ waits_child (ptask k1 q) /\
    forall s c2 options, rtc plain_step (sch k1) s ->
      let '(k2, r) := waitpid_round (with_sch k1 s) c2 q (pid (ptask k p)) options in
      r = WReturn (pid (ptask k p))
            (Some (if term_sig (ext k p) =? 0 then st mod 256 * 256 else Z.land (term_sig (ext k p)) 127)) /\
      state (ptask k2 p) = PROC_UNUSED /\ Z.testbit (busy k2) p = false.
Proof.
  destruct U as (Hc & Hcur & Hd). destruct (inv_cur _ _ _ (li_sched _ _ (proj1 H)) c p Hc Hcur) as (Hsp & Hrun & _).
  assert (Hpd : 1 <= pid (ptask k p)) by (apply (li_pid _ _ (proj1 H) p Hsp); left; unfold ptask; by rewrite Hrun).
  unfold proc_exit. rewrite (proj2 (Z.eqb_eq _ _) Hl), (exit_group_leader k c p st lws ws Hl).
  destruct (leader_dies_safe k c p st ws H Hc Hcur Hd) as [D Q]. pose proof (leader_dies_corpse k p st ws) as CO.
  pose proof (leader_dies_wakes k c p st ws q H Hc Hcur Hd Hq Ha Hqp Hpp) as W.
  assert (Eq : pid (ptask (leader_dies k p st ws) q) = pid (ptask k q)) by (by apply leader_dies_pid).
  generalize dependent (leader_dies k p st ws). intros kd D Q CO W Eq.
  destruct (dying_yield _ _ c p D) as [_ CY]. pose proof (dying_yield_life kd c p D Q) as HL.
  destruct (sched_yield (sch kd) c) as [s0 o]. simpl fst in *. simpl snd. exists (with_sch kd s0), o.
  split; [done|]. split; [intros HW; apply W; exact (calm_waits _ _ (CY q) HW)|]. intros s c2 options Hs.
  destruct (plain_rtc _ _ Hs (li_sched _ _ (proj1 HL))) as [Is Cs]. set (k1 := with_sch kd s0) in *.
  assert (C2 : calm (procs (sch kd)) (procs s)) by (by transitivity (procs s0)).
  assert (L2 : life_inv (with_sch k1 s)) by (apply (kcalm_life k1); [by apply kcalm_sch|done]).
  assert (Eq2 : pid (ptask (with_sch k1 s) q) = pid (ptask k q)) by (rewrite <- Eq; apply (C2 q)).
  rewrite <- Eq2 in Hpp. rewrite Hpp in CO.
  apply (corpse_calm kd (with_sch k1 s)) in CO; [|exact C2|done].
  rewrite (waitpid_corpse (with_sch k1 s) q c2 p _ _ _ _ options L2 Hsp Hpd Hl CO).
  split; [done|]. apply reap_frees; [done|apply CO].
Qed.
End Props.

(** ** Concrete runs *)

Lemma run_reachable (k : kern Z) c : is_cpu c -> kreachable free_groups 10 k -> kreachable free_groups 10 (run k c).
Proof. intros Hc H. apply (kr_step _ _ k); [done|]. apply ks_plain. by apply pl_yield. Qed.

Lemma k_parent_reachable : kreachable free_groups 10 k_parent.
Proof.
  apply run_reachable; [done|]. apply (kr_step _ _ k_init).
  - apply run_reachable; [done|]. apply (kr_step _ _ (boot_kern free_groups 10)); [constructor|].
    apply ks_spawn_init. vm_compute. reflexivity.
  - apply (ks_fork k_init 0 0 blank_regs); [|vm_compute; reflexivity]. split; [done|]. split; vm_compute; [reflexivity|discriminate].
Qed.

Lemma k_child_reachable : kreachable free_groups 10 k_child.
Proof.
  apply run_reachable; [done|]. apply (kr_step _ _ k_parent); [apply k_parent_reachable|].
  apply (ks_fork k_parent 1 1 blank_regs); [|vm_compute; reflexivity]. split; [done|]. split; vm_compute; [reflexivity|discriminate].
Qed.

Lemma slot1 : is_slot 1.
Proof. done. Qed.
Lemma slot2 : is_slot 2.
Proof. done. Qed.
Lemma cpu2 : is_cpu 2.
Proof. done. Qed.
Lemma pipe_not_child : WAIT_PIPE <> WAIT_CHILD.
Proof. discriminate. Qed.

Lemma k_nap_reachable : kreachable free_groups 10 k_nap.
Proof.
  apply (kr_step _ _ k_wait); [|exact (ks_plain k_wait _ (pl_block (sch k_wait) 2 WAIT_PIPE cpu2 pipe_not_child))].
  apply (kr_step _ _ k_thread).
  - apply run_reachable; [done|]. apply (kr_step _ _ k_child); [apply k_child_reachable|].
    apply (ks_clone k_child 2 2 clone_regs); [|vm_compute; reflexivity]. split; [done|]. split; vm_compute; [reflexivity|discriminate].
  - apply (ks_wait k_thread 1 1). split; [done|]. split; vm_compute; [reflexivity|discriminate].
Qed.

(** [waitpid] of the parent cut in two: [k_window], and what is left to do. *)
Lemma window_splits_wait : fst (waitpid_round k_child 1 1 (-1) 0) = with_sch k_window (fst (block_park (sch k_window) 1 1)).
Proof.
  assert (S : wait_scan k_child 1 (-1) 0 (seqZ 0 MAX_PROCS) false = (true, None)) by (vm_compute; reflexivity).
  assert (C : current (sch k_child) 1 = Some 1) by (vm_compute; reflexivity).
  unfold waitpid_round. rewrite S. change (has_flag 0 WNOHANG) with false. cbn [negb]. cbv zeta.
  unfold k_window. cbv zeta. clear S. generalize dependent k_child. intros k C.
  rewrite (sched_block_halves _ 1 1) by exact C. change (sch (with_sch ?a ?b)) with b.
  by destruct (block_park _ 1 1).
Qed.

(** C5: When a wakeup of waitpid is lost.  In the states reached by the steps of
    [kstep] none is: a process other than init that is asleep in waitpid has no
    zombie child that its call is waiting for.  Those steps leave out two things
    the code does, and each of them loses a wakeup.  An exit_group by a thread:
    from a reachable state in which the parent sleeps in waitpid, it leaves the
    parent asleep and the leader of its child a zombie.  And a step of another
    core between the two halves of [sched_block]: the parent's waitpid is the
    state [k_window] followed by its parking, and when the child exits in
    [k_window] the parent parks and sleeps with a zombie child. *)
Theorem waitpid_never_misses :
  (forall (V : Type) (PE : ProcEnv V) (G : Z -> cgroup) (v : V) (k : kern V) q i, kreachable G v k -> ~ misses k q i) /\
  (kreachable free_groups 10 k_nap /\ user k_nap 3 3 /\ pid (ptask k_nap 3) <> tgid (ext k_nap 3) /\
   match proc_exit_group k_nap 3 3 7 [] [] with Some (k', _) => misses k' 1 2 | None => False end) /\
  let park k := with_sch k (fst (block_park (sch k) 1 1)) in
  kreachable free_groups 10 k_child /\ fst (waitpid_round k_child 1 1 (-1) 0) = park k_window /\ user k_window 2 2 /\
  match proc_exit k_window 2 2 7 [] [] with Some (k', _) => misses (park k') 1 2 | None => False end.
Proof.
  split; [intros V PE G v k q i R; exact (life_never_misses k q i (kreachable_life G v k R))|].
  split; [split; [exact k_nap_reachable|vm_compute; repeat split; solve [done|discriminate|by left]]|].
  intros park. split; [exact k_child_reachable|]. split; [exact window_splits_wait|].
  vm_compute; repeat split; solve [done|discriminate|by left].
Qed.

(** execve by a thread: it takes the leader's pid, and the sentenced leader, on
    its way to user mode, ends the whole group, the new image with it. *)
Lemma thread_exec_dies :
  match die_if_sentenced (exec_dethread k_thread 3) 2 2 [] [] with
  | Some (k1, _) =>
      pid (ptask k1 3) = 3 /\ seen k1 2 = (3, 3, 2, PROC_ZOMBIE, WAIT_NONE) /\ group_dying (ext k1 3) = true
  | None => False
  end.
Proof. vm_compute. repeat split. Qed.

(** The same execve: the leader still has the pid it takes. *)
Lemma thread_exec_shares_pid :
  let k := exec_dethread k_thread 3 in
  pid (ptask k 2) = pid (ptask k 3) /\ state (ptask k 2) <> PROC_UNUSED /\ state (ptask k 3) <> PROC_UNUSED.
Proof. vm_compute. repeat split; discriminate. Qed.

(** exit_group by a thread while the leader runs on another core: the leader is
    marked a zombie, reaped, and its slot handed to the next fork while core 2
    still runs on it. *)
Definition k_stolen : kern Z :=
  match proc_exit_group k_thread 3 3 7 [] [] with
  | Some (k1, _) => fst (proc_fork (fst (waitpid_round k1 1 1 (-1) 0)) 0 blank_regs)
  | None => k_thread
  end.
Lemma running_slot_reused :
  current (sch k_stolen) 2 = Some 2 /\ pid (ptask k_stolen 2) = 5 /\ state (ptask k_stolen 2) = PROC_READY.
Proof. vm_compute. repeat split. Qed.

(** The child of a vfork exits: a leader's exit is an exit_group, which does not
    release the parent, and the parent drops the SIGCHLD it ignores. *)
Lemma vfork_exit_strands :
  seen k_vforked 1 = (2, 2, 1, PROC_BLOCKED, WAIT_VFORK) /\ vfork_parent (ext k_vforked 2) = 2 /\
  match proc_exit k_vforked 2 2 127 [] [] with
  | Some (k1, _) => seen k1 1 = (2, 2, 1, PROC_BLOCKED, WAIT_VFORK) /\ seen k1 2 = (3, 3, 2, PROC_ZOMBIE, WAIT_NONE)
  | None => False
  end.
Proof. vm_compute. repeat split. Qed.

Lemma process_table_consistent_witness :
  state (ptask k_nap 2) <> PROC_UNUSED /\ Z.testbit (busy k_nap) 2 = true.
Proof.
  assert (Hu : state (ptask k_nap 2) <> PROC_UNUSED) by (vm_compute; discriminate). split; [exact Hu|].
  destruct (process_table_consistent free_groups 10 k_nap k_nap_reachable) as (_ & _ & H).
  destruct (H 2) as [[_ Hb] _]; [done|]. apply Hb. by left.
Defined.

Lemma waitpid_never_misses_witness :
  state (ptask k_nap 1) = PROC_BLOCKED /\ wait_reason (ptask k_nap 1) = WAIT_CHILD /\ ~ misses k_nap 1 2.
Proof.
  split; [vm_compute; reflexivity|]. split; [vm_compute; reflexivity|].
  exact (proj1 waitpid_never_misses Z demo_env free_groups 10 k_nap 1 2 k_nap_reachable).
Defined.

Lemma exit_status_reaches_parent_witness :
  ppid (ptask k_child 2) = pid (ptask k_child 1) /\
  exists k1 o, proc_exit k_child 2 2 7 [] [] = Some (k1, o) /\ ~ waits_child (ptask k1 1).
Proof.
  assert (Hpp : ppid (ptask k_child 2) = pid (ptask k_child 1)) by (vm_compute; reflexivity). split; [exact Hpp|].
  assert (U : user k_child 2 2).
  { split; [exact cpu2|]. split; vm_compute; [reflexivity|discriminate]. }
  assert (Hl : pid (ptask k_child 2) = tgid (ext k_child 2)) by (vm_compute; reflexivity).
  assert (Ha : alive (state (ptask k_child 1))).
  { split; vm_compute; discriminate. }
  assert (Hne : 1 <> 2) by done.
  destruct (exit_status_reaches_parent k_child 2 2 7 [] [] 1 (kreachable_life _ _ _ k_child_reachable) U Hl
    slot1 Ha Hne Hpp) as (k1 & o & H1 & H2 & _).
  exists k1, o. split; [exact H1|exact H2].
Defined.
