(* ===== verification/LifecycleSpec.v ===== *)
(** * What fork, waitpid and a futex wake do

    Functional specifications, on every branch, of [proc_fork], of a turn of
    [proc_waitpid]'s loop and of [proc_wake_futex]. *)
From S2P Require Import Prelude Sched SchedOps SchedInv SchedSafe SchedCalm Signal Lifecycle LifecycleInv LifecycleSafe LifecycleDemo LifecycleProps.
#[local] Open Scope Z_scope.

Section Fork.
Context {V : Type} {PE : ProcEnv V}.
Implicit Types (k : kern V).

(** [k'] differs from [k] in the slot [i] only. *)
Definition only_slot (i : Z) k k' : Prop := forall j, j <> i -> ptask k' j = ptask k j /\ ext k' j = ext k j.

Lemma only_slot_trans i k1 k2 k3 : only_slot i k1 k2 -> only_slot i k2 k3 -> only_slot i k1 k3.
Proof. intros H H' j Hj. destruct (H j Hj), (H' j Hj). split; congruence. Qed.

Lemma local_only i k k' : local i k k' -> only_slot i k k'.
Proof. intros L j Hj. split; [by apply (lo_task _ _ _ L)|by apply (lo_ext _ _ _ L)]. Qed.

Lemma release_only i k : only_slot i k (task_release k i).
Proof.
  intros j Hj. unfold task_release, slot_release. destruct (state (procs (sch k) i)); try done;
    (split; [unfold ptask; simpl; by rewrite upd_ne|done]).
Qed.

Lemma runnable_only i k : only_slot i k (make_runnable k i).
Proof. intros j Hj. split; [|done]. unfold ptask. simpl. by apply enqueue_fresh_task. Qed.

(** A claimed slot that is released leaves no trace in the busy bits. *)
Lemma claim_release_bits k k' i j :
  0 <= i < 64 -> 0 <= j < 64 -> Z.land (busy k) (Z.shiftl 1 i) = 0 -> busy k' = Z.lor (busy k) (Z.shiftl 1 i) ->
  state (ptask k' i) = PROC_UNUSED -> Z.testbit (busy (task_release k' i)) j = Z.testbit (busy k) j.
Proof.
  intros Hi Hj Hb Hb' Hu. unfold task_release, slot_release. unfold ptask in Hu. rewrite Hu. simpl busy.
  rewrite Hb', bit_clear, bit_set by lia. destruct (Z.eqb_spec i j) as [->|Hne]; simpl; [|by rewrite orb_false_r, andb_true_r].
  rewrite andb_false_r. pose proof (land_bit (busy k) j) as H. rewrite Hb in H. specialize (H ltac:(lia)).
  by destruct (Z.testbit (busy k) j).
Qed.

Lemma task_alloc_busy k k1 i :
  task_alloc k = Some (k1, i) ->
  busy k1 = Z.lor (busy k) (Z.shiftl 1 i) /\ Z.land (busy k) (Z.shiftl 1 i) = 0.
Proof.
  unfold task_alloc, proc_alloc. destruct (List.find _ _) as [x|] eqn:F; [|done]. intros [= <- <-].
  apply List.find_some in F as [_ Hb]. apply andb_true_iff in Hb as [_ Hb]. apply Z.eqb_eq in Hb. done.
Qed.

(** A failed fork or clone: no slot in use has changed, none has become busy. *)
Definition unchanged k k' : Prop :=
  (forall j, state (ptask k j) <> PROC_UNUSED -> ptask k' j = ptask k j /\ ext k' j = ext k j) /\
  (forall j, is_slot j -> Z.testbit (busy k') j = Z.testbit (busy k) j).

Lemma failed_child k k1 k2 i :
  task_alloc k = Some (k1, i) -> is_slot i -> state (ptask k i) = PROC_UNUSED -> only_slot i k k1 ->
  state (ptask k1 i) = PROC_UNUSED -> local i k1 k2 -> unchanged k (task_release k2 i).
Proof.
  intros E Hi Hu O1 Hu1 L. destruct (task_alloc_busy k k1 i E) as [B1 B2].
  assert (O : only_slot i k (task_release k2 i)).
  { apply (only_slot_trans i _ k1); [done|]. apply (only_slot_trans i _ k2); [by apply local_only|apply release_only]. }
  split.
  - intros j Hj. apply O. by intros ->.
  - intros j Hj. unfold is_slot, MAX_PROCS in *. apply claim_release_bits; auto; [|by apply (lo_unused _ _ _ L)].
    by rewrite (lo_busy _ _ _ L).
Qed.

(** What [new_child] gives back: an error with nothing changed, or a slot claimed
    for the next pid, with an address space and the parent's cgroup. *)
Lemma new_child_spec k p mk :
  life_inv k -> next_pid k + 1 < 2 ^ 31 -> state (ptask k p) <> PROC_UNUSED ->
  let '(k', res) := new_child k p mk in
  match res with
  | inl e => (e = - E_NOMEM \/ e = - E_AGAIN) /\ unchanged k k'
  | inr i =>
      is_slot i /\ state (ptask k i) = PROC_UNUSED /\ i <> p /\ only_slot i k k' /\ next_pid k' = next_pid k + 1 /\
      (exists w, ptask k' i = set_cg (cg (ptask k p)) w (blank_proc (next_pid k))) /\
      exists a, a <> -1 /\ ext k' i = set_aspace a (blank_extra (next_pid k))
  end.
Proof.
  intros H Hn Hp. unfold new_child. destruct (task_alloc k) as [[k1 i]|] eqn:E.
  2:{ split; [by left|by repeat split]. }
  destruct (task_alloc_spec (kwork k) k k1 i (proj1 H) Hn E)
    as (_ & Hs & _ & Hu & Ei & Ex & Eo & _ & _ & _ & _ & _ & Enp).
  assert (Hip : i <> p) by (by intros ->).
  assert (Hu1 : state (ptask k1 i) = PROC_UNUSED) by (by rewrite Ei).
  destruct (mk (env k1) (aspace (ext k1 p))) as [v a]. set (k2 := edit (with_env k1 v) i (set_aspace a)).
  assert (L2 : local i k1 k2) by (transitivity (with_env k1 v); [apply local_env|apply local_ext]).
  assert (E2 : ptask k2 i = blank_proc (next_pid k) /\ ext k2 i = set_aspace a (blank_extra (next_pid k)) /\
    ptask k2 p = ptask k p /\ next_pid k2 = next_pid k + 1).
  { split; [exact Ei|]. split; [simpl; by rewrite upd_eq, Ex|]. split; [|exact Enp]. apply (Eo p). congruence. }
  clearbody k2. destruct E2 as (E2 & E2x & E2p & E2n).
  destruct (Z.eqb_spec a (-1)) as [Ha|Ha]; [split; [by left|by apply (failed_child k k1)]|].
  rewrite E2p. pose proof (attach_local k2 i (cg (ptask k p))) as L3.
  assert (Ea : let '(k3, r) := attach k2 i (cg (ptask k p)) in
    ext k3 = ext k2 /\ (r <? 0 = false -> exists w, ptask k3 i = set_cg (cg (ptask k p)) w (ptask k2 i))).
  { unfold attach. destruct (cg_attach_new (env k2) i _ _ (cg (ptask k p))) as [[v' r] w]. destruct (r <? 0) eqn:R; [split; [done|congruence]|].
    split; [done|]. intros _. exists w. unfold ptask. simpl. by rewrite upd_eq. }
  destruct (attach k2 i (cg (ptask k p))) as [k3 r]. simpl in L3. destruct Ea as [Ea1 Ea2].
  destruct (r <? 0).
  - split; [by right|]. apply (failed_child k k1); auto. transitivity k2; [done|]. transitivity k3; [done|].
    transitivity (with_env k3 (vmm_put (env k3) a)); [apply local_env|apply local_ext].
  - split; [done|]. split; [done|]. split; [done|].
    split; [apply (only_slot_trans i _ k1); [done|]; apply (only_slot_trans i _ k2); by apply local_only|].
    split; [by rewrite (lo_next _ _ _ L3)|]. rewrite Ea1, <- E2. split; [by apply Ea2|by exists a].
Qed.

(** C17: Fork.  It returns -ENOMEM or -EAGAIN and then no task has changed and no
    slot has been taken; or it returns the next pid, and one slot that was
    unused holds a child with that pid, alone in its thread group, whose parent
    is the caller.  The child is runnable or parked by cpu.max, has no pending
    signal, shares the caller's process group, session, signal masks, handlers,
    descriptors, close-on-exec flags, umask and TLS base, runs in an address
    space, and will return from the call with 0 in rax where the caller gets the
    pid; every other task is as it was. *)
Theorem proc_fork_spec k p (r : regs) (H : life_inv k) (Hn : next_pid k + 1 < 2 ^ 31)
    (Hp : state (ptask k p) <> PROC_UNUSED) :
  let '(k', ret) := proc_fork k p r in
  ((ret = - E_NOMEM \/ ret = - E_AGAIN) /\ unchanged k k') \/
  (ret = next_pid k /\ next_pid k' = next_pid k + 1 /\
   exists i, is_slot i /\ state (ptask k i) = PROC_UNUSED /\ only_slot i k k' /\
     let c := ptask k' i in let e := ext k' i in let par := ptask k p in let pe := ext k p in
     pid c = ret /\ tgid e = ret /\ ppid c = pid par /\ pgid c = pgid par /\ sid e = sid pe /\
     (state c = PROC_READY \/ state c = PROC_BLOCKED /\ wait_reason c = WAIT_CGROUP) /\
     sig_pending c = 0 /\ sig_ignored c = sig_ignored par /\ sig_mask c = sig_mask par /\ sigacts e = sigacts pe /\
     fds e = fds pe /\ fd_cloexec e = fd_cloexec pe /\ umask e = umask pe /\ fs_base e = fs_base pe /\
     aspace e <> -1 /\ exit_status e = 0 /\ group_dying e = false /\
     frame e = Regs (r15 r) (r14 r) (r13 r) (r12 r) (r11 r) (r10 r) (r9 r) (r8 r) (rbp r) (rdi r) (rsi r) (rdx r)
                 (rcx r) (rbx r) 0 (vector r) (errcode r) (rip r) (cs r) (rflags r) (rsp r) (ss r)).
Proof.
  unfold proc_fork. pose proof (new_child_spec k p vmm_clone H Hn Hp) as S. pose proof (new_child_safe k p vmm_clone H Hn) as C.
  destruct (new_child k p vmm_clone) as [k1 [e|i]]; [left; exact S|right].
  destruct S as (Hs & Hu & Hip & O1 & En & (w & Ei) & (a & Ha & Ex)).
  destruct (O1 p ltac:(congruence)) as [Ep Epx]. rewrite Ep, Epx.
  set (k2 := with_ptask k1 i _). set (k3 := with_ext k2 i _).
  assert (L3 : local i k1 k3) by (transitivity k2; [by apply local_ptask|apply local_ext]).
  assert (E3 : ptask k3 i = inherit_proc (ptask k p) (ptask k1 i)) by (unfold ptask; simpl; by rewrite upd_eq).
  assert (E3x : ext k3 i = inherit_extra (ext k p) (ext k1 i) (tgid (ext k1 i)) (fs_base (ext k p))
    (clear_child_tid (ext k p)) (set_rax_rsp 0 (rsp r) r)) by (simpl; by rewrite upd_eq).
  clearbody k3. clear k2. rewrite Ei in E3. rewrite Ex in E3x.
  destruct (enqueue_fresh_task (sch k3) i) as [_ [Q1 Q2 Q3 Q8]]. destruct (enqueue_fresh_sig (sch k3) i) as (Q4 & Q5 & Q6 & Q7).
  change (procs (enqueue_fresh (sch k3) i) i) with (ptask (make_runnable k3 i) i) in *. fold (ptask k3 i) in *.
  split; [by rewrite E3|]. split; [simpl; by rewrite (lo_next _ _ _ L3)|]. exists i. split; [done|]. split; [done|].
  split; [apply (only_slot_trans i _ k1); [done|]; apply (only_slot_trans i _ k3); [by apply local_only|apply runnable_only]|].
  cbv zeta. change (ext (make_runnable k3 i) i) with (ext k3 i).
  rewrite Q1, Q2, Q3, Q4, Q5, Q6, Q7, Q8, E3, E3x. repeat split; auto. destruct (cg_chain_throttled _ _); auto.
Qed.

(** ** Futex wakeups *)

Lemma filter_ext_elem (f g : Z -> bool) (l : list Z) :
  (forall i, i ∈ l -> f i = g i) -> filter (fun i => f i = true) l = filter (fun i => g i = true) l.
Proof.
  induction l as [|x l IH]; intros H; [done|]. assert (IH' := IH (fun i Hi => H i (list_elem_of_further _ _ _ Hi))).
  rewrite !filter_cons, (H x) by left. by rewrite IH'.
Qed.

Definition futex_direct k a addr (shared : bool) (key i : Z) : bool :=
  if shared then futex_shared (ext k i) && (futex_key (ext k i) =? key)
  else negb (futex_shared (ext k i)) && (aspace (ext k i) =? a) && (futex_addr (ext k i) =? addr).

(** Slot [i] sleeps on the word: on it alone, or with it in its futex_waitv set. *)
Definition futex_sleeper k a addr (shared : bool) (key i : Z) : bool :=
  bool_decide (state (ptask k i) = PROC_BLOCKED) && bool_decide (wait_reason (ptask k i) = WAIT_FUTEX)
  && (futex_direct k a addr shared key i || proc_futex_waitv_matches k i a addr shared key).

(** The kernel key of the word: by page for a shared one. *)
Definition futex_is_shared k a addr : bool := negb (a =? -1) && vmm_page_shared (env k) a addr.
Definition futex_word_key k a addr : Z := if futex_is_shared k a addr then vmm_resolve (env k) a addr else 0.

(** A task that has been woken: runnable, or parked by cpu.max. *)
Definition woken (p : proc) : Prop := state p = PROC_READY \/ (state p = PROC_BLOCKED /\ wait_reason p = WAIT_CGROUP).

Lemma sched_wake_woken s i : state (procs s i) = PROC_BLOCKED -> woken (procs (sched_wake s i) i).
Proof.
  intros H. unfold sched_wake. rewrite bool_decide_true by done. set (s1 := with_proc s i _).
  destruct (enqueue_fresh_task s1 i) as [_ [_ _ H1 H2]]. unfold woken. rewrite H1, H2.
  destruct (cg_chain_throttled s1 i); auto.
Qed.

(** One slot of the scan. *)
Lemma wake_futex_one_spec a addr shared key k n i :
  let '(k', n') := wake_futex_one a addr shared key (k, n) i in
  (forall j, j <> i -> ptask k' j = ptask k j /\ waitv k' j = waitv k j) /\ ext k' = ext k /\
  if futex_sleeper k a addr shared key i
  then n' = n + 1 /\ woken (ptask k' i) /\ waitv k' i = (if futex_direct k a addr shared key i then waitv k i else [])
  else n' = n /\ k' = k.
Proof.
  unfold wake_futex_one, futex_sleeper. cbv zeta. fold (futex_direct k a addr shared key i).
  case_bool_decide as Hb; [|done]. case_bool_decide as Hw; [|done]. simpl negb. cbv iota. simpl orb. cbv iota.
  destruct (futex_direct k a addr shared key i); [|destruct (proc_futex_waitv_matches k i a addr shared key)]; simpl; [..|done].
  - split; [|split; [done|split; [done|split; [by apply sched_wake_woken|done]]]].
    intros j Hj. split; [|done]. by apply sched_wake_off.
  - split; [|split; [done|split; [done|split; [by apply sched_wake_woken|by rewrite upd_eq]]]].
    intros j Hj. split; [by apply sched_wake_off|by rewrite upd_ne].
Qed.

Lemma sleeper_ext k k' a addr shared key i :
  ptask k' i = ptask k i -> waitv k' i = waitv k i -> ext k' = ext k ->
  futex_sleeper k' a addr shared key i = futex_sleeper k a addr shared key i /\
  futex_direct k' a addr shared key i = futex_direct k a addr shared key i.
Proof.
  intros H1 H2 H3. unfold futex_sleeper, futex_direct, proc_futex_waitv_matches. by rewrite H1, H2, H3.
Qed.

Lemma wake_futex_fold a addr shared key l : NoDup l -> forall k n,
  let '(k', n') := fold_left (wake_futex_one a addr shared key) l (k, n) in
  n' = n + alen (filter (fun i => futex_sleeper k a addr shared key i = true) l) /\ ext k' = ext k /\
  (forall i, i ∉ l -> ptask k' i = ptask k i /\ waitv k' i = waitv k i) /\
  forall i, i ∈ l ->
    if futex_sleeper k a addr shared key i
    then woken (ptask k' i) /\ waitv k' i = (if futex_direct k a addr shared key i then waitv k i else [])
    else ptask k' i = ptask k i /\ waitv k' i = waitv k i.
Proof.
  induction l as [|x l IH]; intros Hnd k n.
  { cbn [fold_left]. split; [unfold alen; simpl; lia|]. split; [done|]. split; [done|]. intros i Hi. by apply elem_of_nil in Hi. }
  apply NoDup_cons in Hnd as [Hx Hnd]. cbn [fold_left]. pose proof (wake_futex_one_spec a addr shared key k n x) as S.
  destruct (wake_futex_one a addr shared key (k, n) x) as [k1 n1]. destruct S as (S1 & S2 & S3).
  specialize (IH Hnd k1 n1). destruct (fold_left _ l (k1, n1)) as [k' n']. destruct IH as (I1 & I2 & I3 & I4).
  assert (Hs : forall i, i ∈ l -> futex_sleeper k1 a addr shared key i = futex_sleeper k a addr shared key i /\
    futex_direct k1 a addr shared key i = futex_direct k a addr shared key i /\ ptask k1 i = ptask k i /\ waitv k1 i = waitv k i).
  { intros i Hi. destruct (S1 i) as [A1 A2]; [by intros ->|]. destruct (sleeper_ext k k1 a addr shared key i A1 A2 S2). done. }
  assert (Hf : filter (fun i => futex_sleeper k1 a addr shared key i = true) l =
               filter (fun i => futex_sleeper k a addr shared key i = true) l).
  { apply filter_ext_elem. intros i Hi. by destruct (Hs i Hi) as [-> _]. }
  rewrite Hf in I1. split; [|split; [by rewrite I2|split]].
  - rewrite filter_cons, I1. destruct (decide (futex_sleeper k a addr shared key x = true)) as [E|E].
    + rewrite E in S3. destruct S3 as [-> _]. unfold alen. simpl. lia.
    + apply not_true_is_false in E. rewrite E in S3. destruct S3 as [-> _]. lia.
  - intros i Hi. apply not_elem_of_cons in Hi as [Hne Hi]. destruct (I3 i Hi) as [-> ->]. by apply S1.
  - intros i Hi. apply elem_of_cons in Hi as [->|Hi].
    + destruct (I3 x Hx) as [-> ->]. destruct (futex_sleeper k a addr shared key x); [by destruct S3|].
      by destruct S3 as [_ ->].
    + specialize (I4 i Hi). destruct (Hs i Hi) as (E1 & E2 & E3 & E4). rewrite E1, E2, E3, E4 in I4. exact I4.
Qed.

(** Futex wake.  [proc_wake_futex] returns the number of tasks asleep on the
    word (by address within the address space, by page for a shared word, or
    with the word in their futex_waitv set); each of them is made runnable (or
    parked by cpu.max), a set through which one was found is disarmed, and every
    other task and set is left as it was. *)
Theorem proc_wake_futex_spec k a addr :
  let '(k', n) := proc_wake_futex k a addr in
  let shared := futex_is_shared k a addr in
  let key := futex_word_key k a addr in
  n = alen (filter (fun i => futex_sleeper k a addr shared key i = true) (seqZ 0 MAX_PROCS)) /\ ext k' = ext k /\
  forall i, is_slot i ->
    if futex_sleeper k a addr shared key i
    then woken (ptask k' i) /\ waitv k' i = (if futex_direct k a addr shared key i then waitv k i else [])
    else ptask k' i = ptask k i /\ waitv k' i = waitv k i.
Proof.
  unfold proc_wake_futex. cbv zeta. fold (futex_is_shared k a addr). fold (futex_word_key k a addr).
  pose proof (wake_futex_fold a addr (futex_is_shared k a addr) (futex_word_key k a addr) (seqZ 0 MAX_PROCS)
    (NoDup_seqZ _ _) k 0) as H.
  destruct (fold_left _ (seqZ 0 MAX_PROCS) (k, 0)) as [k' n]. destruct H as (H1 & H2 & _ & H4).
  split; [exact H1|]. split; [exact H2|]. intros i Hi. apply H4. apply elem_of_seqZ. unfold is_slot in Hi. lia.
Qed.

(** ** waitpid *)

(** A zombie of the group whose leader is reaped. *)
Definition swept k (cpid i j : Z) : bool :=
  bool_decide (state (ptask k j) = PROC_ZOMBIE) && (tgid (ext k j) =? cpid) && negb (j =? i).

Lemma release_zombie k j :
  state (ptask k j) = PROC_ZOMBIE ->
  ext (task_release k j) = ext k /\ ptask (task_release k j) j = set_state PROC_UNUSED (ptask k j).
Proof. intros H. unfold task_release, slot_release. unfold ptask in *. rewrite H. simpl. by rewrite upd_eq. Qed.

Lemma sweep_fold cpid i l : NoDup l -> forall k,
  let k' := fold_left (sweep_one cpid i) l k in
  ext k' = ext k /\
  forall j, ptask k' j = if bool_decide (j ∈ l) && swept k cpid i j then set_state PROC_UNUSED (ptask k j) else ptask k j.
Proof.
  induction l as [|x l IH]; intros Hnd k; [done|]. apply NoDup_cons in Hnd as [Hx Hnd]. cbn [fold_left].
  assert (S : ext (sweep_one cpid i k x) = ext k /\ (forall j, j <> x -> ptask (sweep_one cpid i k x) j = ptask k j) /\
    ptask (sweep_one cpid i k x) x = if swept k cpid i x then set_state PROC_UNUSED (ptask k x) else ptask k x).
  { unfold sweep_one. fold (swept k cpid i x). destruct (swept k cpid i x) eqn:E; [|done].
    unfold swept in E. apply andb_true_iff in E as [E _]. apply andb_true_iff in E as [E _]. apply bool_decide_eq_true in E.
    destruct (release_zombie k x E) as [E1 E2]. split; [done|]. split; [|done]. intros j Hj. by apply release_only. }
  destruct S as (S1 & S2 & S3). destruct (IH Hnd (sweep_one cpid i k x)) as [I1 I2]. split; [by rewrite I1|]. intros j.
  rewrite I2. destruct (decide (j = x)) as [->|Hne].
  - rewrite (bool_decide_false (x ∈ l)), (bool_decide_true (x ∈ x :: l)) by (done || left). done.
  - rewrite S2 by done. assert (Es : swept (sweep_one cpid i k x) cpid i j = swept k cpid i j).
    { unfold swept. by rewrite S1, S2. }
    rewrite Es. replace (bool_decide (j ∈ x :: l)) with (bool_decide (j ∈ l)); [done|].
    apply bool_decide_ext. rewrite elem_of_cons. naive_solver.
Qed.

(** Reaping frees the leader's slot and those of its group's zombies. *)
Lemma reap_spec k i :
  state (ptask k i) = PROC_ZOMBIE ->
  forall j, is_slot j -> ptask (reap k i) j =
    if (j =? i) || swept k (pid (ptask k i)) i j then set_state PROC_UNUSED (ptask k j) else ptask k j.
Proof.
  intros Hz j Hj. unfold reap. destruct (release_zombie k i Hz) as [E1 E2].
  destruct (sweep_fold (pid (ptask k i)) i (seqZ 0 MAX_PROCS) (NoDup_seqZ _ _) (task_release k i)) as [_ ->].
  rewrite bool_decide_true by (apply elem_of_seqZ; unfold is_slot in Hj; lia). simpl.
  destruct (Z.eqb_spec j i) as [->|Hne].
  - unfold swept. by rewrite Z.eqb_refl, andb_false_r.
  - destruct (release_only i k j Hne) as [E3 E4]. unfold swept. by rewrite E3, E4.
Qed.

Lemma wait_scan_quiet k p which options l : forall h h',
  wait_scan k p which options l h = (h', None) ->
  (h' = true <-> h = true \/ exists i, i ∈ l /\ wait_matches k p which i = true) /\
  forall i, i ∈ l -> wait_matches k p which i = true -> stop_report options (ptask k i) = false.
Proof.
  induction l as [|x l IH]; intros h h' E; simpl in E.
  { injection E as <-. split; [|intros i Hi; by apply elem_of_nil in Hi]. split; [by left|].
    intros [H|(i & Hi & _)]; [done|by apply elem_of_nil in Hi]. }
  destruct (wait_matches k p which x) eqn:M; simpl in E.
  - case_bool_decide; [done|]. destruct (stop_report options (ptask k x)) eqn:S; [done|].
    destruct (IH true h' E) as [I1 I2]. split.
    + split; [|intros _; apply I1; by left]. intros _. right. exists x. split; [left|done].
    + intros i Hi Hm. apply elem_of_cons in Hi as [->|Hi]; [done|auto].
  - destruct (IH h h' E) as [I1 I2]. split.
    + rewrite I1. split; (intros [H|(i & Hi & Hm)]; [by left|right; exists i]).
      * split; [by right|done].
      * apply elem_of_cons in Hi as [->|Hi]; [congruence|done].
    + intros i Hi Hm. apply elem_of_cons in Hi as [->|Hi]; [congruence|auto].
Qed.

(** C18: One turn of waitpid.  With a status, it returns the pid of a child the
    call waits for: a zombie, with its encoded status, and then that slot and
    those of the zombie threads of its group are given back and nothing else
    changes; or a stopped or traced child not reported yet, which it marks
    reported.  Without one, it returns -ECHILD when no child matches, or 0 under
    WNOHANG when one matches but none has anything to report.  Otherwise, and
    only then, it records the pid asked for and gives its core away asleep. *)
Theorem waitpid_round_spec k c p which options (Hcur : current (sch k) c = Some p) :
  let '(k', res) := waitpid_round k c p which options in
  let child i := is_slot i /\ wait_matches k p which i = true in
  let idle i := state (ptask k i) <> PROC_ZOMBIE /\ stop_report options (ptask k i) = false in
  match res with
  | WReturn r (Some st) =>
      exists i, child i /\ r = pid (ptask k i) /\
        ((state (ptask k i) = PROC_ZOMBIE /\ st = encode_status (ext k i) /\
          forall j, is_slot j -> ptask k' j =
            if (j =? i) || swept k (pid (ptask k i)) i j then set_state PROC_UNUSED (ptask k j) else ptask k j) \/
         (stop_report options (ptask k i) = true /\
          st = Z.lor 127 (Z.shiftl (Z.land (stop_sig (ptask k i)) 255) 8) /\
          k' = with_ptask k i (set_reported true (ptask k i))))
  | WReturn r None =>
      k' = k /\ ((r = - E_CHILD /\ forall i, is_slot i -> wait_matches k p which i = false) \/
                 (r = 0 /\ has_flag options WNOHANG = true /\ (exists i, child i) /\ forall i, child i -> idle i))
  | WSleep o =>
      has_flag options WNOHANG = false /\ (exists i, child i) /\ (forall i, child i -> idle i) /\
      k' = with_sch (wait_sleeps k p which) (fst (schedule_locked (sch (wait_sleeps k p which)) c)) /\
      o = snd (schedule_locked (sch (wait_sleeps k p which)) c)
  end.
Proof.
  unfold waitpid_round. destruct (wait_scan k p which options (seqZ 0 MAX_PROCS) false) as [h [[i|i]|]] eqn:E.
  - apply wait_scan_some in E as (Hi & Hm & Hz). apply slot_elem in Hi. exists i. split; [done|]. split; [done|]. left.
    split; [done|]. split; [done|]. by apply reap_spec.
  - apply wait_scan_some in E as (Hi & Hm & Hs). apply slot_elem in Hi. exists i. split; [done|]. split; [done|]. by right.
  - destruct (wait_scan_quiet _ _ _ _ _ _ _ E) as [Hh Hr]. pose proof (wait_scan_none _ _ _ _ _ _ _ E) as Hz.
    assert (Hel : forall i, i ∈ seqZ 0 MAX_PROCS <-> is_slot i) by (intros i; rewrite elem_of_seqZ; unfold is_slot; lia).
    assert (Hidle : forall i, is_slot i /\ wait_matches k p which i = true ->
      state (ptask k i) <> PROC_ZOMBIE /\ stop_report options (ptask k i) = false).
    { intros i [Hi Hm]. apply Hel in Hi. split; auto. }
    destruct h; simpl negb; cbv iota.
    + destruct (proj1 Hh eq_refl) as [?|(x & Hx & Hm)]; [done|]. apply Hel in Hx.
      destruct (has_flag options WNOHANG) eqn:W.
      * split; [done|]. right. split; [done|]. split; [done|]. split; [by exists x|done].
      * pose proof (sched_block_sleeps k c p which Hcur) as B. pose proof (sched_block_sleeps_snd k c p which Hcur) as B2.
        cbv zeta in B, B2 |- *. destruct (sched_block _ c WAIT_CHILD) as [s o].
        split; [done|]. split; [by exists x|]. split; [done|]. split; [exact B|exact B2].
    + split; [done|]. left. split; [done|]. intros i Hi. destruct (wait_matches k p which i) eqn:M; [|done].
      destruct (proj2 Hh); [|done]. right. exists i. by rewrite Hel.
Qed.
End Fork.

(** ** The demonstration run *)

Lemma proc_fork_spec_witness :
  snd (proc_fork k_child 1 blank_regs) = 4 /\
  exists i, is_slot i /\ ppid (ptask (fst (proc_fork k_child 1 blank_regs)) i) = 2.
Proof.
  assert (Hn : next_pid k_child + 1 < 2 ^ 31) by (vm_compute; reflexivity).
  assert (Hp : state (ptask k_child 1) <> PROC_UNUSED) by (vm_compute; discriminate).
  pose proof (proc_fork_spec k_child 1 blank_regs (kreachable_life _ _ _ k_child_reachable) Hn Hp) as S.
  assert (E : snd (proc_fork k_child 1 blank_regs) = 4) by (vm_compute; reflexivity).
  assert (E2 : pid (ptask k_child 1) = 2) by (vm_compute; reflexivity).
  split; [exact E|]. generalize dependent k_child. intros k Hn Hp S E E2.
  destruct (proc_fork k 1 blank_regs) as [k' ret]. simpl in E. subst ret.
  destruct S as [[[H|H] _]|(_ & _ & i & H1 & _ & _ & _ & _ & H2 & _)]; [discriminate H|discriminate H|].
  exists i. split; [exact H1|]. rewrite <- E2. exact H2.
Defined.

Lemma waitpid_round_spec_witness :
  current (sch k_parent) 1 = Some 1 /\ snd (waitpid_round k_parent 1 1 (-1) 0) = WReturn (- E_CHILD) None /\
  forall i, is_slot i -> wait_matches k_parent 1 (-1) i = false.
Proof.
  assert (Hc : current (sch k_parent) 1 = Some 1) by (vm_compute; reflexivity). split; [exact Hc|].
  pose proof (waitpid_round_spec k_parent 1 1 (-1) 0 Hc) as S.
  assert (E : snd (waitpid_round k_parent 1 1 (-1) 0) = WReturn (- E_CHILD) None) by (vm_compute; reflexivity).
  split; [exact E|]. generalize dependent k_parent. intros k Hc S E.
  destruct (waitpid_round k 1 1 (-1) 0) as [k' res]. simpl in E. subst res. cbv beta zeta iota in S.
  destruct S as [_ [[_ H]|[H _]]]; [exact H|discriminate H].
Defined.
