(* ===== verification/LifecycleEnv.v ===== *)
(** * The environment of kernel/proc.c

    The class [ProcEnv] of Lifecycle, met by the models of mm/vmm.c and of
    kernel/cgroup/cgroup.c: an address space is a slot of the pool of Vmm, and a
    task is entered in the cgroup tree of Cgroup when it is attached.  The tree's
    copy of the task table is used here for the task's own group only; its scans
    of the table are part of CgroupSafe. *)
From S2P Require Import Prelude Mem Sched SchedOps Pmm FrameRef Vmm Cgroup Signal Lifecycle.
#[local] Open Scope Z_scope.

Record world := World { w_vm : vmst; w_spaces : list (bool * addrspace); w_cgs : cgst }.

(** The kernel's own address space is no slot of the pool. *)
Definition KERNEL_AS := MAX_ADDRSPACES.

Section Env.
Context (hhdm g_kernel_pml4_phys ra : Z).

Definition space_of (w : world) (a : Z) : option addrspace :=
  if (0 <=? a) && (a <? MAX_ADDRSPACES) then snd <$> (w_spaces w !! Z.to_nat a) else None.
Definition with_vm (w : world) (s : vmst) : world := World s (w_spaces w) (w_cgs w).

Definition world_clone (w : world) (a : Z) : world * Z :=
  match space_of w a with
  | None => (w, -1)
  | Some src =>
      match Vmm.vmm_clone hhdm g_kernel_pml4_phys ra (w_vm w) (w_spaces w) src with
      | (s, sp, Some n) => (World s sp (w_cgs w), Z.of_nat n)
      | (s, sp, None) => (World s sp (w_cgs w), -1)
      end
  end.

Definition world_share (w : world) (a : Z) : world * Z :=
  match w_spaces w !! Z.to_nat a with
  | Some (u, as_) => (World (w_vm w) (<[Z.to_nat a := (u, Vmm.vmm_share as_)]> (w_spaces w)) (w_cgs w), a)
  | None => (w, -1)
  end.

Definition world_put (w : world) (a : Z) : world :=
  match space_of w a with
  | None => w
  | Some _ => let '(s, sp, _) := Vmm.vmm_put hhdm ra (w_vm w) (w_spaces w) (Z.to_nat a) in World s sp (w_cgs w)
  end.

Definition world_destroy (w : world) (a : Z) : world :=
  match space_of w a with
  | None => w
  | Some _ => let '(s, sp, _) := Vmm.vmm_destroy hhdm ra (w_vm w) (w_spaces w) (Z.to_nat a) in World s sp (w_cgs w)
  end.

Definition world_shared (w : world) (a addr : Z) : bool :=
  match space_of w a with
  | None => false
  | Some s => snd (Vmm.vmm_page_shared hhdm (w_vm w) (pml4_phys s) addr)
  end.

Definition world_resolve (w : world) (a addr : Z) : Z :=
  match space_of w a with
  | None => 0
  | Some s => snd (Vmm.vmm_resolve hhdm (w_vm w) (pml4_phys s) addr)
  end.

(** [n] bytes of [v], least significant first. *)
Fixpoint le_bytes_of (n : nat) (v : Z) : list Z :=
  match n with O => [] | S n => v mod 256 :: le_bytes_of n (v / 256) end.

Definition world_copy (w : world) (a addr v : Z) (n : nat) : world :=
  match space_of w a with
  | None => w
  | Some s => with_vm w (fst (Vmm.vmm_copy_to_user hhdm ra n (w_vm w) (pml4_phys s) addr (le_bytes_of n v)))
  end.

Definition world_attach (w : world) (i p a c : Z) : world * Z * Z :=
  let t := Task true p p (-1) CG_NICE0 (if a =? -1 then None else Some a) (-1) in
  let '(g, r) := Cgroup.cg_attach_new (with_task (w_cgs w) i t) i c in
  let sp := match space_of w a with
            | Some x => if r =? 0 then <[Z.to_nat a := (true, AS (pml4_phys x) (as_refs x) (pages x) c (mmaps x) (shared x))]>
                                         (w_spaces w)
                        else w_spaces w
            | None => w_spaces w
            end in
  (World (w_vm w) sp g, r, t_weight (tasks g i)).

Definition world_detach (w : world) (i : Z) : world := World (w_vm w) (w_spaces w) (Cgroup.cg_detach (w_cgs w) i).

Definition world_env : ProcEnv world := {|
  vmm_clone := world_clone;
  vmm_share := world_share;
  vmm_put := world_put;
  vmm_destroy := world_destroy;
  vmm_kernel_as := KERNEL_AS;
  vmm_page_shared := world_shared;
  vmm_resolve := world_resolve;
  vmm_copy_to_user := world_copy;
  cg_attach_new := world_attach;
  cg_detach := world_detach
|}.
#[local] Existing Instance world_env.
Implicit Types (k : kern world).

(** Where the pids controller refuses, the attach fails with EAGAIN, *)
Lemma world_attach_refused w i p a c :
  live (g_cgs (w_cgs w)) c = true -> pids_allow_one (g_cgs (w_cgs w)) c <> 0 -> snd (fst (world_attach w i p a c)) = - E_AGAIN.
Proof.
  intros Hl Hp. assert (Er : pids_allow_one (g_cgs (w_cgs w)) c = - E_AGAIN).
  { unfold pids_allow_one in *. by destruct (existsb _ _). }
  unfold world_attach, Cgroup.cg_attach_new, with_task, with_tasks. cbn [tasks g_cgs]. rewrite upd_eq. cbn [t_cg].
  by rewrite Hl, Er.
Qed.

(** and so do fork and clone. *)
Lemma refused_child k p mk k1 i :
  task_alloc k = Some (k1, i) -> i <> p -> snd (mk (env k1) (aspace (ext k1 p))) <> -1 ->
  live (g_cgs (w_cgs (fst (mk (env k1) (aspace (ext k1 p)))))) (cg (ptask k1 p)) = true ->
  pids_allow_one (g_cgs (w_cgs (fst (mk (env k1) (aspace (ext k1 p)))))) (cg (ptask k1 p)) <> 0 ->
  snd (new_child k p mk) = inl (- E_AGAIN).
Proof.
  intros E Hne Ha Hl Hp. unfold new_child. rewrite E. destruct (mk (env k1) (aspace (ext k1 p))) as [v a]. cbn [fst snd] in *.
  destruct (Z.eqb_spec a (-1)); [done|]. unfold attach.
  match goal with |- context[cg_attach_new ?x ?j ?q ?b ?c] => pose proof (world_attach_refused x j q b c Hl Hp) as R;
    change (cg_attach_new x j q b c) with (world_attach x j q b c); destruct (world_attach x j q b c) as [[w r] wt] end.
  cbn [fst snd] in R. by subst r.
Qed.
End Env.
