(* ===== verification/Net.v ===== *)
(** * net/net.c and net/net.h: what the transport layer takes from the stack

    The big-endian accessors, the internet checksum and the choice of the
    source address.  Packets are lists of bytes. *)
From S2P Require Import Prelude.
#[local] Open Scope Z_scope.

(** ** Definitions *)

Definition NET_MTU := 1500.
Definition IP_PROTO_TCP := 6.
Definition IP_ANY := 0.
Definition IP_LOOPBACK := 0x7F000001.
Definition NET_IF_ETH := 1.
Definition NET_IF_MAX := 2.

(** The accessors take the packet and the offset. *)
Definition net_get16 (p : list Z) (i : Z) : Z := u16 (Z.lor (Z.shiftl (aget 0 p i) 8) (aget 0 p (i + 1))).
Definition net_get32 (p : list Z) (i : Z) : Z :=
  Z.lor (Z.lor (Z.lor (u32 (Z.shiftl (aget 0 p i) 24)) (u32 (Z.shiftl (aget 0 p (i + 1)) 16)))
           (u32 (Z.shiftl (aget 0 p (i + 2)) 8))) (aget 0 p (i + 3)).
Definition net_put16 (p : list Z) (i v : Z) : list Z := aset (aset p i (u8 (Z.shiftr v 8))) (i + 1) (u8 v).
Definition net_put32 (p : list Z) (i v : Z) : list Z :=
  aset (aset (aset (aset p i (u8 (Z.shiftr v 24))) (i + 1) (u8 (Z.shiftr v 16))) (i + 2) (u8 (Z.shiftr v 8))) (i + 3) (u8 v).

Fixpoint sum16 (p : list Z) (acc : Z) : Z :=
  match p with
  | a :: b :: p' => sum16 p' (u32 (acc + net_get16 [a; b] 0))
  | [a] => u32 (acc + u32 (Z.shiftl a 8))
  | [] => acc
  end.

(** The loop of [fold]: a 32-bit sum needs at most two rounds. *)
Fixpoint fold_loop (fuel : nat) (acc : Z) : Z :=
  match fuel with
  | O => acc
  | S k => if Z.shiftr acc 16 =? 0 then acc else fold_loop k (u32 (Z.land acc 0xFFFF + Z.shiftr acc 16))
  end.
Definition fold (acc : Z) : Z := u16 (Z.lnot (fold_loop 2 acc)).

Definition net_checksum (data : list Z) : Z := fold (sum16 data 0).

Definition pseudo_sum (src dst proto len : Z) : Z :=
  u32 (Z.land (Z.shiftr src 16) 0xFFFF + Z.land src 0xFFFF + Z.land (Z.shiftr dst 16) 0xFFFF + Z.land dst 0xFFFF
       + proto + Z.land len 0xFFFF).
Definition net_checksum_pseudo (src dst proto : Z) (seg : list Z) : Z :=
  fold (sum16 seg (pseudo_sum src dst proto (alen seg))).

(** An interface: its address and whether it is up. *)
Record netif := Netif { if_ip : Z; if_up : bool }.

Definition net_is_local (g_ifs : Z -> netif) (dst : Z) : bool :=
  (Z.shiftr dst 24 =? 127)
  || existsb (fun i => if_up (g_ifs i) && negb (if_ip (g_ifs i) =? 0) && (if_ip (g_ifs i) =? dst)) (seqZ 0 NET_IF_MAX).

Definition net_route_src (g_ifs : Z -> netif) (dst : Z) : Z :=
  if Z.shiftr dst 24 =? 127 then IP_LOOPBACK
  else if net_is_local g_ifs dst then dst
  else if_ip (g_ifs NET_IF_ETH).

(** ** The accessors *)

Definition byte (b : Z) : Prop := 0 <= b < 256.

Lemma lor_shift a b n : 0 <= n -> 0 <= b < 2 ^ n -> Z.lor (Z.shiftl a n) b = a * 2 ^ n + b.
Proof.
  intros Hn Hb. rewrite <- Z.shiftl_mul_pow2 by done. symmetry. rewrite Z.add_nocarry_lxor; [apply Z.lxor_lor|].
  all: apply Z.bits_inj'; intros i Hi; rewrite Z.land_spec, Z.testbit_0_l; destruct (Z.lt_ge_cases i n).
  1,3: by rewrite Z.shiftl_spec_low.
  all: by rewrite (testbit_high b n), andb_false_r by lia.
Qed.

Lemma get16_bytes a b l i :
  aget 0 l i = a -> aget 0 l (i + 1) = b -> byte a -> byte b -> net_get16 l i = 256 * a + b.
Proof.
  intros <- <- Ha Hb. unfold byte in *. unfold net_get16, u16. rewrite lor_shift by lia. rewrite Z.mod_small; lia.
Qed.

Lemma get32_bytes a b c d l i :
  aget 0 l i = a -> aget 0 l (i + 1) = b -> aget 0 l (i + 2) = c -> aget 0 l (i + 3) = d ->
  byte a -> byte b -> byte c -> byte d -> net_get32 l i = a * 2 ^ 24 + b * 2 ^ 16 + c * 2 ^ 8 + d.
Proof.
  intros <- <- <- <-. unfold net_get32. generalize (aget 0 l i) (aget 0 l (i + 1)) (aget 0 l (i + 2)) (aget 0 l (i + 3)).
  clear. intros a b c d Ha Hb Hc Hd. unfold byte in *. rewrite !u32_small by
    (rewrite Z.shiftl_mul_pow2 by lia; lia).
  replace (Z.lor (Z.lor (Z.lor (Z.shiftl a 24) (Z.shiftl b 16)) (Z.shiftl c 8)) d)
    with (Z.lor (Z.shiftl (Z.lor (Z.shiftl (Z.lor (Z.shiftl a 8) b) 8) c) 8) d).
  2: { rewrite !Z.shiftl_lor, !Z.shiftl_shiftl by lia. done. }
  rewrite !lor_shift by lia. lia.
Qed.

(** The bytes of a field. *)
Definition be16 (v : Z) : list Z := [u8 (Z.shiftr v 8); u8 v].
Definition be32 (v : Z) : list Z := [u8 (Z.shiftr v 24); u8 (Z.shiftr v 16); u8 (Z.shiftr v 8); u8 v].

Lemma aget_app {A} (d : A) l1 l2 i : alen l1 <= i -> aget d (l1 ++ l2) i = aget d l2 (i - alen l1).
Proof.
  unfold aget, alen. intros H. destruct (Z.ltb_spec i 0); [lia|]. destruct (Z.ltb_spec (i - Z.of_nat (length l1)) 0); [lia|].
  rewrite app_nth2 by lia. f_equal. lia.
Qed.

Lemma get16_be l1 l2 v i : alen l1 = i -> 0 <= v < 2 ^ 16 -> net_get16 (l1 ++ be16 v ++ l2) i = v.
Proof.
  intros Hi Hv. rewrite (get16_bytes (u8 (Z.shiftr v 8)) (u8 v)); [| | |apply u8_range|apply u8_range].
  - unfold u8. rewrite Z.shiftr_div_pow2 by lia. Z.to_euclidean_division_equations; lia.
  - rewrite aget_app by lia. by replace (i - alen l1) with 0 by lia.
  - rewrite aget_app by lia. by replace (i + 1 - alen l1) with 1 by lia.
Qed.

Lemma get32_be l1 l2 v i : alen l1 = i -> 0 <= v < 2 ^ 32 -> net_get32 (l1 ++ be32 v ++ l2) i = v.
Proof.
  intros Hi Hv. erewrite get32_bytes; [| | | | |apply u8_range..]; cycle 1.
  - rewrite aget_app by lia. by replace (i - alen l1) with 0 by lia.
  - rewrite aget_app by lia. by replace (i + 1 - alen l1) with 1 by lia.
  - rewrite aget_app by lia. by replace (i + 2 - alen l1) with 2 by lia.
  - rewrite aget_app by lia. by replace (i + 3 - alen l1) with 3 by lia.
  - unfold u8. rewrite !Z.shiftr_div_pow2 by lia. Z.to_euclidean_division_equations; lia.
Qed.

(** Putting a 16-bit field in place. *)
Lemma put16_app l1 a b l2 i v : alen l1 = i -> net_put16 (l1 ++ a :: b :: l2) i v = l1 ++ be16 v ++ l2.
Proof.
  unfold alen. intros Hi. unfold net_put16, aset.
  destruct (Z.ltb_spec i 0); [lia|]. destruct (Z.ltb_spec (i + 1) 0); [lia|].
  replace (Z.to_nat i) with (length l1 + 0)%nat by lia. replace (Z.to_nat (i + 1)) with (length l1 + 1)%nat by lia.
  by rewrite !insert_app_r.
Qed.

(** ** The checksum *)

(** The sum of the words, without the wrap-around. *)
Fixpoint words (p : list Z) : Z :=
  match p with
  | a :: b :: p' => 256 * a + b + words p'
  | [a] => 256 * a
  | [] => 0
  end.

Lemma two_ind {A} (Q : list A -> Prop) : Q [] -> (forall a, Q [a]) -> (forall a b l, Q l -> Q (a :: b :: l)) -> forall l, Q l.
Proof.
  intros H0 H1 H2. fix IH 1. intros [|a [|b l]]; [done|done|]. apply H2, IH.
Qed.

Lemma words_range p : Forall byte p -> 0 <= words p <= 32768 * (alen p + 1).
Proof.
  unfold alen, byte. induction p as [|a|a b l IH] using two_ind; intros H; simpl length; cbn [words].
  - simpl. lia.
  - inv H. lia.
  - inv H. inv H3. specialize (IH H4). lia.
Qed.

Lemma sum16_words p : forall acc, Forall byte p -> 0 <= acc -> acc + words p < 2 ^ 32 -> sum16 p acc = acc + words p.
Proof.
  induction p as [|a|a b l IH] using two_ind; intros acc H Ha Hs; cbn [words sum16] in *.
  - lia.
  - inv H. unfold byte in *. rewrite (u32_small (Z.shiftl a 8)), u32_small; rewrite Z.shiftl_mul_pow2 by lia; lia.
  - inv H. inv H3. pose proof (words_range l H4). rewrite (get16_bytes a b) by (reflexivity || assumption). unfold byte in *.
    rewrite u32_small by lia. rewrite IH; [lia|done|lia|lia].
Qed.

Lemma words_app l1 : forall l2, Z.even (alen l1) = true -> words (l1 ++ l2) = words l1 + words l2.
Proof.
  unfold alen. induction l1 as [|a|a b l IH] using two_ind; intros l2 H; simpl app; cbn [words].
  - lia.
  - done.
  - rewrite IH; [lia|]. simpl length in H. rewrite !Nat2Z.inj_succ in H. by rewrite <- H, Z.even_succ_succ.
Qed.

(** The one's-complement residue. *)
Definition residue (a : Z) : Z := if a =? 0 then 0 else (a - 1) mod 65535 + 1.

Lemma residue_range a : 0 <= residue a < 2 ^ 16.
Proof. unfold residue. destruct (a =? 0); [lia|]. pose proof (Z.mod_pos_bound (a - 1) 65535). lia. Qed.

Lemma residue_small a : 0 <= a < 2 ^ 16 -> residue a = a.
Proof. intros H. unfold residue. destruct (Z.eqb_spec a 0); [lia|]. rewrite Z.mod_small; lia. Qed.

Lemma residue_step a : 0 <= a -> residue (a mod 2 ^ 16 + a / 2 ^ 16) = residue a.
Proof.
  intros Ha. pose proof (Z.div_mod a (2 ^ 16)). pose proof (Z.mod_pos_bound a (2 ^ 16)). pose proof (Z.div_pos a (2 ^ 16)).
  unfold residue. destruct (Z.eqb_spec a 0) as [->|]; [done|].
  destruct (Z.eqb_spec (a mod 2 ^ 16 + a / 2 ^ 16) 0); [lia|]. f_equal.
  replace (a - 1) with (a mod 2 ^ 16 + a / 2 ^ 16 - 1 + a / 2 ^ 16 * 65535) by lia. by rewrite Z.mod_add.
Qed.

Lemma fold_step a : 0 <= a < 2 ^ 32 -> u32 (Z.land a 0xFFFF + Z.shiftr a 16) = a mod 2 ^ 16 + a / 2 ^ 16.
Proof.
  intros Ha. change 0xFFFF with (Z.ones 16). rewrite Z.land_ones, Z.shiftr_div_pow2 by lia.
  pose proof (Z.mod_pos_bound a (2 ^ 16)). assert (0 <= a / 2 ^ 16 < 2 ^ 16) by
    (split; [apply Z.div_pos; lia|apply Z.div_lt_upper_bound; lia]).
  apply u32_small. lia.
Qed.

Lemma fold_loop_residue a : 0 <= a < 2 ^ 32 -> fold_loop 2 a = residue a.
Proof.
  intros Ha. assert (Hs : forall x, 0 <= x -> (Z.shiftr x 16 =? 0) = (x <? 2 ^ 16)).
  { intros x Hx. rewrite Z.shiftr_div_pow2 by lia. destruct (Z.ltb_spec x (2 ^ 16)).
    - by rewrite Z.div_small.
    - apply Z.eqb_neq. pose proof (Z.div_le_mono (2 ^ 16) x (2 ^ 16)). change (2 ^ 16 / 2 ^ 16) with 1 in *. lia. }
  assert (0 <= a / 2 ^ 16 < 2 ^ 16) by (split; [apply Z.div_pos; lia|apply Z.div_lt_upper_bound; lia]).
  pose proof (Z.mod_pos_bound a (2 ^ 16)). simpl fold_loop. rewrite fold_step, Hs by lia.
  destruct (Z.ltb_spec a (2 ^ 16)); [by rewrite residue_small by lia|].
  set (b := a mod 2 ^ 16 + a / 2 ^ 16) in *. assert (Eb : residue a = residue b) by (symmetry; apply residue_step; lia).
  assert (Hb : b = a mod 2 ^ 16 + a / 2 ^ 16) by done. clearbody b.
  rewrite Eb, Hs by lia. destruct (Z.ltb_spec b (2 ^ 16)); [by rewrite residue_small by lia|].
  assert (b < 2 ^ 17) by lia. rewrite fold_step, <- (residue_step b) by lia.
  replace (b / 2 ^ 16) with 1 by (apply (Z.div_unique b (2 ^ 16) 1 (b - 2 ^ 16)); lia).
  replace (b mod 2 ^ 16) with (b - 2 ^ 16) by (apply (Z.mod_unique b (2 ^ 16) 1); lia).
  by rewrite residue_small by lia.
Qed.

Lemma fold_value a : 0 <= a < 2 ^ 32 -> fold a = 65535 - residue a.
Proof.
  intros Ha. unfold fold. rewrite fold_loop_residue by done. pose proof (residue_range a).
  unfold u16, Z.lnot. symmetry. apply (Z.mod_unique _ _ (-1)); lia.
Qed.

(** A field filled with the complement of the sum makes the sum check. *)
Lemma residue_check a : 0 <= a -> residue (a + (65535 - residue a)) = 65535.
Proof.
  intros Ha. pose proof (residue_range a). unfold residue at 1. destruct (Z.eqb_spec (a + (65535 - residue a)) 0).
  { unfold residue in *. destruct (Z.eqb_spec a 0); lia. }
  unfold residue. destruct (Z.eqb_spec a 0) as [->|]; [done|].
  replace (a + (65535 - ((a - 1) mod 65535 + 1)) - 1) with (65534 + ((a - 1) - (a - 1) mod 65535)) by lia.
  pose proof (Z.div_mod (a - 1) 65535). replace (a - 1 - (a - 1) mod 65535) with ((a - 1) / 65535 * 65535) by lia.
  by rewrite Z.mod_add.
Qed.

Lemma pseudo_sum_range src dst proto len : 0 <= proto < 256 -> 0 <= pseudo_sum src dst proto len < 2 ^ 19.
Proof.
  intros Hp. unfold pseudo_sum. change 0xFFFF with (Z.ones 16). rewrite !Z.land_ones by lia.
  pose proof (Z.mod_pos_bound (Z.shiftr src 16) (2 ^ 16)). pose proof (Z.mod_pos_bound src (2 ^ 16)).
  pose proof (Z.mod_pos_bound (Z.shiftr dst 16) (2 ^ 16)). pose proof (Z.mod_pos_bound dst (2 ^ 16)).
  pose proof (Z.mod_pos_bound len (2 ^ 16)). rewrite u32_small; lia.
Qed.

Lemma be16_bytes v : Forall byte (be16 v).
Proof. repeat constructor; apply u8_range. Qed.

(** A packet whose checksum field, at an even offset, holds the checksum taken
    over it with that field zero passes the receiver's test. *)
Lemma checksum_verifies src dst proto l1 l2 i (seg := l1 ++ 0 :: 0 :: l2) :
  Z.even (alen l1) = true -> alen l1 = i -> Forall byte l1 -> Forall byte l2 -> alen seg < 2 ^ 16 -> 0 <= proto < 256 ->
  net_checksum_pseudo src dst proto (net_put16 seg i (net_checksum_pseudo src dst proto seg)) = 0.
Proof.
  intros He Hi H1 H2 Hl Hp. set (c := net_checksum_pseudo src dst proto seg). unfold seg. rewrite put16_app by done.
  assert (Hs : Forall byte seg) by (apply Forall_app; split; [done|]; repeat constructor; done).
  pose proof (words_range seg Hs). pose proof (pseudo_sum_range src dst proto (alen seg) Hp).
  set (a := pseudo_sum src dst proto (alen seg) + words seg). assert (Ha : 0 <= a < 2 ^ 31 + 2 ^ 20) by (unfold a; lia).
  assert (Ec : c = 65535 - residue a).
  { unfold c, net_checksum_pseudo. rewrite sum16_words; [fold a; apply fold_value; lia|done|lia|fold a; lia]. }
  assert (Hc : 0 <= c < 2 ^ 16) by (pose proof (residue_range a); lia).
  unfold net_checksum_pseudo. replace (alen (l1 ++ be16 c ++ l2)) with (alen seg) by (unfold seg, alen; by rewrite !length_app).
  assert (Hw : words (l1 ++ be16 c ++ l2) = words seg + c).
  { unfold seg. rewrite 2!(words_app l1) by done. change (be16 c ++ l2) with (u8 (Z.shiftr c 8) :: u8 c :: l2). cbn [words].
    enough (256 * u8 (Z.shiftr c 8) + u8 c = c) by lia. unfold u8. rewrite Z.shiftr_div_pow2 by lia.
    Z.to_euclidean_division_equations; lia. }
  assert (Hb : Forall byte (l1 ++ be16 c ++ l2)) by (rewrite !Forall_app; auto using be16_bytes).
  rewrite sum16_words; [|done|lia|rewrite Hw; lia]. rewrite Hw, Z.add_assoc. fold a. rewrite fold_value, Ec, residue_check by lia. done.
Qed.

(** ** The checksum as RFC 1071 defines it *)

(** Addition with the carry brought around, word by word. *)
Definition oc_add (a b : Z) : Z := if a + b <? 2 ^ 16 then a + b else a + b - 65535.
Fixpoint oc_sum (p : list Z) : Z :=
  match p with
  | a :: b :: p' => oc_add (256 * a + b) (oc_sum p')
  | [a] => 256 * a
  | [] => 0
  end.

(** The header that the transport's checksum covers besides the segment. *)
Definition pseudo_header (src dst proto len : Z) : list Z := be32 src ++ be32 dst ++ [0; proto] ++ be16 len.

Lemma residue_add w x : 0 <= w < 2 ^ 16 -> 0 <= x -> oc_add w (residue x) = residue (w + x).
Proof.
  intros Hw Hx. pose proof (residue_range x) as R. unfold oc_add. destruct (Z.eq_dec x 0) as [->|Hx0].
  { change (residue 0) with 0. rewrite Z.add_0_r, residue_small by done. destruct (Z.ltb_spec w (2 ^ 16)); lia. }
  unfold residue in *. destruct (Z.eqb_spec x 0); [done|]. destruct (Z.eqb_spec (w + x) 0); [lia|].
  pose proof (Z.mod_pos_bound (x - 1) 65535). set (m := (x - 1) mod 65535) in *.
  replace (w + x - 1) with (w + m + (x - 1) / 65535 * 65535) by (pose proof (Z.div_mod (x - 1) 65535); unfold m; lia).
  rewrite Z.mod_add by lia. destruct (Z.ltb_spec (w + (m + 1)) (2 ^ 16)); [rewrite (Z.mod_small (w + m)); lia|].
  replace ((w + m) mod 65535) with (w + m - 65535) by (apply (Z.mod_unique _ _ 1); lia). lia.
Qed.

Lemma oc_sum_residue p : Forall byte p -> oc_sum p = residue (words p).
Proof.
  unfold byte. induction p as [|a|a b l IH] using two_ind; intros H; cbn [oc_sum words]; [done| |].
  - inv H. rewrite residue_small; lia.
  - inv H. inv H3. rewrite IH by done. pose proof (words_range l H4). apply residue_add; lia.
Qed.

Lemma be16_words v : 0 <= v < 2 ^ 16 -> words (be16 v) = v.
Proof. intros Hv. cbn [words be16]. unfold u8. rewrite Z.shiftr_div_pow2 by lia. Z.to_euclidean_division_equations; lia. Qed.

Lemma be32_words v : 0 <= v < 2 ^ 32 -> words (be32 v) = Z.land (Z.shiftr v 16) 0xFFFF + Z.land v 0xFFFF.
Proof.
  intros Hv. change 0xFFFF with (Z.ones 16). rewrite !Z.land_ones by lia. cbn [words be32]. unfold u8.
  rewrite !Z.shiftr_div_pow2 by lia. Z.to_euclidean_division_equations; lia.
Qed.

Lemma pseudo_words src dst proto len :
  0 <= src < 2 ^ 32 -> 0 <= dst < 2 ^ 32 -> 0 <= proto < 256 -> 0 <= len < 2 ^ 16 ->
  words (pseudo_header src dst proto len) = pseudo_sum src dst proto len.
Proof.
  intros Hs Hd Hp Hl. unfold pseudo_header. rewrite !words_app, !be32_words, be16_words by done. cbn [words].
  unfold pseudo_sum. rewrite u32_small; change 0xFFFF with (Z.ones 16); rewrite !Z.land_ones by lia; rewrite ?(Z.mod_small len) by lia.
  - lia.
  - pose proof (Z.mod_pos_bound (Z.shiftr src 16) (2 ^ 16)). pose proof (Z.mod_pos_bound src (2 ^ 16)).
    pose proof (Z.mod_pos_bound (Z.shiftr dst 16) (2 ^ 16)). pose proof (Z.mod_pos_bound dst (2 ^ 16)). lia.
Qed.

(** C27: The checksum of a segment is the one RFC 793 and RFC 1071 define: the
    complement of the end-around-carry sum of the 16-bit words of the pseudo
    header and the segment, a last odd byte padded with zero.  The code's
    deferred carries, in a 32-bit sum folded at the end, give the same. *)
Theorem checksum_is_rfc1071 src dst proto seg (Hs : 0 <= src < 2 ^ 32) (Hd : 0 <= dst < 2 ^ 32) (Hp : 0 <= proto < 256)
    (Hb : Forall byte seg) (Hl : alen seg < 2 ^ 16) :
  net_checksum_pseudo src dst proto seg = 65535 - oc_sum (pseudo_header src dst proto (alen seg) ++ seg).
Proof.
  assert (H0 : 0 <= alen seg) by (unfold alen; lia). assert (Hh : Forall byte (pseudo_header src dst proto (alen seg))).
  { unfold pseudo_header, be32, be16. cbn [app]. repeat (apply Forall_cons; split; [first [apply u8_range|done]|]). done. }
  rewrite oc_sum_residue by (by apply Forall_app). rewrite words_app, pseudo_words by done.
  pose proof (words_range seg Hb). pose proof (pseudo_sum_range src dst proto (alen seg) Hp).
  unfold net_checksum_pseudo. rewrite sum16_words; [|done|lia|lia]. apply fold_value. lia.
Qed.

Lemma checksum_is_rfc1071_witness :
  net_checksum_pseudo 0x0A000001 0x0A000002 6 [1; 2; 255] = 60400 /\
  65535 - oc_sum (pseudo_header 0x0A000001 0x0A000002 6 3 ++ [1; 2; 255]) = 60400.
Proof.
  pose proof (checksum_is_rfc1071 0x0A000001 0x0A000002 6 [1; 2; 255] ltac:(lia) ltac:(lia) ltac:(lia)
    ltac:(repeat constructor; done) ltac:(done)) as H.
  change (alen [1; 2; 255]) with 3 in H. rewrite <- H. split; vm_compute; reflexivity.
Defined.
