(* ===== verification/Tcp.v ===== *)
(** * net/ipv4/tcp.c: the transmission control protocol

    The eight control blocks, the send and receive rings behind them, the
    segments they emit, the state machine of arriving segments and the timers.
    A block is named by its slot.  A ring is a page of the byte memory, reached
    through the direct map and indexed by sequence number.  What the functions
    hand to [net_ip_output] is appended to the list [out]; they ignore its
    result.  The functions never sleep and are never re-entered, so each is one
    step. *)
From S2P Require Import Prelude Mem Kstring Pmm Net.
#[local] Open Scope Z_scope.

(** ** Constants *)

Definition TCPS_CLOSED := 0.
Definition TCPS_LISTEN := 1.
Definition TCPS_SYN_SENT := 2.
Definition TCPS_SYN_RCVD := 3.
Definition TCPS_ESTABLISHED := 4.
Definition TCPS_FIN_WAIT_1 := 5.
Definition TCPS_FIN_WAIT_2 := 6.
Definition TCPS_CLOSE_WAIT := 7.
Definition TCPS_CLOSING := 8.
Definition TCPS_LAST_ACK := 9.
Definition TCPS_TIME_WAIT := 10.

Definition TCP_FIN := 0x01.
Definition TCP_SYN := 0x02.
Definition TCP_RST := 0x04.
Definition TCP_PSH := 0x08.
Definition TCP_ACK := 0x10.

Definition TCP_MSS := NET_MTU - 40.
Definition TCP_BUF_SIZE := 4096.
Definition TCP_MAX_PCB := 8.
Definition TCP_BACKLOG := 4.
Definition TCP_RTO_TICKS := 100.
Definition TCP_RTO_MAX := 6000.
Definition TCP_MAX_RETRIES := 5.
Definition TCP_TIME_WAIT := 200.
Definition TCP_CONN_TICKS := 500.
Definition EPHEMERAL_FIRST := 49152.

Definition E_PIPE := 32.
Definition E_ADDRINUSE := 98.
Definition E_ADDRNOTAVAIL := 99.
Definition E_CONNRESET := 104.
Definition E_ISCONN := 106.
Definition E_NOTCONN := 107.
Definition E_TIMEDOUT := 110.
Definition E_CONNREFUSED := 111.
Definition E_HOSTUNREACH := 113.
Definition E_ALREADY := 114.

(** ** State *)

(** [struct tcp_pcb]; [accept_q] is the part of the array in use. *)
Record pcb := Pcb {
  used : bool;
  state : Z;
  lip : Z;
  rip : Z;
  lport : Z;
  rport : Z;
  snd_una : Z;
  snd_nxt : Z;
  snd_end : Z;
  snd_wnd : Z;
  snd_mss : Z;
  fin_queued : bool;
  fin_sent : bool;
  rcv_nxt : Z;
  rcv_read : Z;
  fin_seen : bool;
  rx_shutdown : bool;
  rx_phys : Z;
  tx_phys : Z;
  rto_at : Z;
  retries : Z;
  cwnd : Z;
  ssthresh : Z;
  dupacks : Z;
  rto_ticks : Z;
  tw_at : Z;
  conn_at : Z;
  error : Z;
  parent : option Z;
  accept_q : list Z
}.

Definition set_used (v : bool) (p : pcb) : pcb :=
    Pcb v (state p) (lip p) (rip p) (lport p) (rport p) (snd_una p) (snd_nxt p) (snd_end p) (snd_wnd p) (snd_mss p)
    (fin_queued p) (fin_sent p) (rcv_nxt p) (rcv_read p) (fin_seen p) (rx_shutdown p) (rx_phys p) (tx_phys p)
    (rto_at p) (retries p) (cwnd p) (ssthresh p) (dupacks p) (rto_ticks p) (tw_at p) (conn_at p) (error p) (parent
    p) (accept_q p).
Definition set_state (v : Z) (p : pcb) : pcb :=
    Pcb (used p) v (lip p) (rip p) (lport p) (rport p) (snd_una p) (snd_nxt p) (snd_end p) (snd_wnd p) (snd_mss p)
    (fin_queued p) (fin_sent p) (rcv_nxt p) (rcv_read p) (fin_seen p) (rx_shutdown p) (rx_phys p) (tx_phys p)
    (rto_at p) (retries p) (cwnd p) (ssthresh p) (dupacks p) (rto_ticks p) (tw_at p) (conn_at p) (error p) (parent
    p) (accept_q p).
Definition set_lip (v : Z) (p : pcb) : pcb :=
    Pcb (used p) (state p) v (rip p) (lport p) (rport p) (snd_una p) (snd_nxt p) (snd_end p) (snd_wnd p) (snd_mss p)
    (fin_queued p) (fin_sent p) (rcv_nxt p) (rcv_read p) (fin_seen p) (rx_shutdown p) (rx_phys p) (tx_phys p)
    (rto_at p) (retries p) (cwnd p) (ssthresh p) (dupacks p) (rto_ticks p) (tw_at p) (conn_at p) (error p) (parent
    p) (accept_q p).
Definition set_rip (v : Z) (p : pcb) : pcb :=
    Pcb (used p) (state p) (lip p) v (lport p) (rport p) (snd_una p) (snd_nxt p) (snd_end p) (snd_wnd p) (snd_mss p)
    (fin_queued p) (fin_sent p) (rcv_nxt p) (rcv_read p) (fin_seen p) (rx_shutdown p) (rx_phys p) (tx_phys p)
    (rto_at p) (retries p) (cwnd p) (ssthresh p) (dupacks p) (rto_ticks p) (tw_at p) (conn_at p) (error p) (parent
    p) (accept_q p).
Definition set_lport (v : Z) (p : pcb) : pcb :=
    Pcb (used p) (state p) (lip p) (rip p) v (rport p) (snd_una p) (snd_nxt p) (snd_end p) (snd_wnd p) (snd_mss p)
    (fin_queued p) (fin_sent p) (rcv_nxt p) (rcv_read p) (fin_seen p) (rx_shutdown p) (rx_phys p) (tx_phys p)
    (rto_at p) (retries p) (cwnd p) (ssthresh p) (dupacks p) (rto_ticks p) (tw_at p) (conn_at p) (error p) (parent
    p) (accept_q p).
Definition set_rport (v : Z) (p : pcb) : pcb :=
    Pcb (used p) (state p) (lip p) (rip p) (lport p) v (snd_una p) (snd_nxt p) (snd_end p) (snd_wnd p) (snd_mss p)
    (fin_queued p) (fin_sent p) (rcv_nxt p) (rcv_read p) (fin_seen p) (rx_shutdown p) (rx_phys p) (tx_phys p)
    (rto_at p) (retries p) (cwnd p) (ssthresh p) (dupacks p) (rto_ticks p) (tw_at p) (conn_at p) (error p) (parent
    p) (accept_q p).
Definition set_snd_una (v : Z) (p : pcb) : pcb :=
    Pcb (used p) (state p) (lip p) (rip p) (lport p) (rport p) v (snd_nxt p) (snd_end p) (snd_wnd p) (snd_mss p)
    (fin_queued p) (fin_sent p) (rcv_nxt p) (rcv_read p) (fin_seen p) (rx_shutdown p) (rx_phys p) (tx_phys p)
    (rto_at p) (retries p) (cwnd p) (ssthresh p) (dupacks p) (rto_ticks p) (tw_at p) (conn_at p) (error p) (parent
    p) (accept_q p).
Definition set_snd_nxt (v : Z) (p : pcb) : pcb :=
    Pcb (used p) (state p) (lip p) (rip p) (lport p) (rport p) (snd_una p) v (snd_end p) (snd_wnd p) (snd_mss p)
    (fin_queued p) (fin_sent p) (rcv_nxt p) (rcv_read p) (fin_seen p) (rx_shutdown p) (rx_phys p) (tx_phys p)
    (rto_at p) (retries p) (cwnd p) (ssthresh p) (dupacks p) (rto_ticks p) (tw_at p) (conn_at p) (error p) (parent
    p) (accept_q p).
Definition set_snd_end (v : Z) (p : pcb) : pcb :=
    Pcb (used p) (state p) (lip p) (rip p) (lport p) (rport p) (snd_una p) (snd_nxt p) v (snd_wnd p) (snd_mss p)
    (fin_queued p) (fin_sent p) (rcv_nxt p) (rcv_read p) (fin_seen p) (rx_shutdown p) (rx_phys p) (tx_phys p)
    (rto_at p) (retries p) (cwnd p) (ssthresh p) (dupacks p) (rto_ticks p) (tw_at p) (conn_at p) (error p) (parent
    p) (accept_q p).
Definition set_snd_wnd (v : Z) (p : pcb) : pcb :=
    Pcb (used p) (state p) (lip p) (rip p) (lport p) (rport p) (snd_una p) (snd_nxt p) (snd_end p) v (snd_mss p)
    (fin_queued p) (fin_sent p) (rcv_nxt p) (rcv_read p) (fin_seen p) (rx_shutdown p) (rx_phys p) (tx_phys p)
    (rto_at p) (retries p) (cwnd p) (ssthresh p) (dupacks p) (rto_ticks p) (tw_at p) (conn_at p) (error p) (parent
    p) (accept_q p).
Definition set_snd_mss (v : Z) (p : pcb) : pcb :=
    Pcb (used p) (state p) (lip p) (rip p) (lport p) (rport p) (snd_una p) (snd_nxt p) (snd_end p) (snd_wnd p) v
    (fin_queued p) (fin_sent p) (rcv_nxt p) (rcv_read p) (fin_seen p) (rx_shutdown p) (rx_phys p) (tx_phys p)
    (rto_at p) (retries p) (cwnd p) (ssthresh p) (dupacks p) (rto_ticks p) (tw_at p) (conn_at p) (error p) (parent
    p) (accept_q p).
Definition set_fin_queued (v : bool) (p : pcb) : pcb :=
    Pcb (used p) (state p) (lip p) (rip p) (lport p) (rport p) (snd_una p) (snd_nxt p) (snd_end p) (snd_wnd p)
    (snd_mss p) v (fin_sent p) (rcv_nxt p) (rcv_read p) (fin_seen p) (rx_shutdown p) (rx_phys p) (tx_phys p) (rto_at
    p) (retries p) (cwnd p) (ssthresh p) (dupacks p) (rto_ticks p) (tw_at p) (conn_at p) (error p) (parent p)
    (accept_q p).
Definition set_fin_sent (v : bool) (p : pcb) : pcb :=
    Pcb (used p) (state p) (lip p) (rip p) (lport p) (rport p) (snd_una p) (snd_nxt p) (snd_end p) (snd_wnd p)
    (snd_mss p) (fin_queued p) v (rcv_nxt p) (rcv_read p) (fin_seen p) (rx_shutdown p) (rx_phys p) (tx_phys p)
    (rto_at p) (retries p) (cwnd p) (ssthresh p) (dupacks p) (rto_ticks p) (tw_at p) (conn_at p) (error p) (parent
    p) (accept_q p).
Definition set_rcv_nxt (v : Z) (p : pcb) : pcb :=
    Pcb (used p) (state p) (lip p) (rip p) (lport p) (rport p) (snd_una p) (snd_nxt p) (snd_end p) (snd_wnd p)
    (snd_mss p) (fin_queued p) (fin_sent p) v (rcv_read p) (fin_seen p) (rx_shutdown p) (rx_phys p) (tx_phys p)
    (rto_at p) (retries p) (cwnd p) (ssthresh p) (dupacks p) (rto_ticks p) (tw_at p) (conn_at p) (error p) (parent
    p) (accept_q p).
Definition set_rcv_read (v : Z) (p : pcb) : pcb :=
    Pcb (used p) (state p) (lip p) (rip p) (lport p) (rport p) (snd_una p) (snd_nxt p) (snd_end p) (snd_wnd p)
    (snd_mss p) (fin_queued p) (fin_sent p) (rcv_nxt p) v (fin_seen p) (rx_shutdown p) (rx_phys p) (tx_phys p)
    (rto_at p) (retries p) (cwnd p) (ssthresh p) (dupacks p) (rto_ticks p) (tw_at p) (conn_at p) (error p) (parent
    p) (accept_q p).
Definition set_fin_seen (v : bool) (p : pcb) : pcb :=
    Pcb (used p) (state p) (lip p) (rip p) (lport p) (rport p) (snd_una p) (snd_nxt p) (snd_end p) (snd_wnd p)
    (snd_mss p) (fin_queued p) (fin_sent p) (rcv_nxt p) (rcv_read p) v (rx_shutdown p) (rx_phys p) (tx_phys p)
    (rto_at p) (retries p) (cwnd p) (ssthresh p) (dupacks p) (rto_ticks p) (tw_at p) (conn_at p) (error p) (parent
    p) (accept_q p).
Definition set_rx_shutdown (v : bool) (p : pcb) : pcb :=
    Pcb (used p) (state p) (lip p) (rip p) (lport p) (rport p) (snd_una p) (snd_nxt p) (snd_end p) (snd_wnd p)
    (snd_mss p) (fin_queued p) (fin_sent p) (rcv_nxt p) (rcv_read p) (fin_seen p) v (rx_phys p) (tx_phys p) (rto_at
    p) (retries p) (cwnd p) (ssthresh p) (dupacks p) (rto_ticks p) (tw_at p) (conn_at p) (error p) (parent p)
    (accept_q p).
Definition set_rx_phys (v : Z) (p : pcb) : pcb :=
    Pcb (used p) (state p) (lip p) (rip p) (lport p) (rport p) (snd_una p) (snd_nxt p) (snd_end p) (snd_wnd p)
    (snd_mss p) (fin_queued p) (fin_sent p) (rcv_nxt p) (rcv_read p) (fin_seen p) (rx_shutdown p) v (tx_phys p)
    (rto_at p) (retries p) (cwnd p) (ssthresh p) (dupacks p) (rto_ticks p) (tw_at p) (conn_at p) (error p) (parent
    p) (accept_q p).
Definition set_tx_phys (v : Z) (p : pcb) : pcb :=
    Pcb (used p) (state p) (lip p) (rip p) (lport p) (rport p) (snd_una p) (snd_nxt p) (snd_end p) (snd_wnd p)
    (snd_mss p) (fin_queued p) (fin_sent p) (rcv_nxt p) (rcv_read p) (fin_seen p) (rx_shutdown p) (rx_phys p) v
    (rto_at p) (retries p) (cwnd p) (ssthresh p) (dupacks p) (rto_ticks p) (tw_at p) (conn_at p) (error p) (parent
    p) (accept_q p).
Definition set_rto_at (v : Z) (p : pcb) : pcb :=
    Pcb (used p) (state p) (lip p) (rip p) (lport p) (rport p) (snd_una p) (snd_nxt p) (snd_end p) (snd_wnd p)
    (snd_mss p) (fin_queued p) (fin_sent p) (rcv_nxt p) (rcv_read p) (fin_seen p) (rx_shutdown p) (rx_phys p)
    (tx_phys p) v (retries p) (cwnd p) (ssthresh p) (dupacks p) (rto_ticks p) (tw_at p) (conn_at p) (error p)
    (parent p) (accept_q p).
Definition set_retries (v : Z) (p : pcb) : pcb :=
    Pcb (used p) (state p) (lip p) (rip p) (lport p) (rport p) (snd_una p) (snd_nxt p) (snd_end p) (snd_wnd p)
    (snd_mss p) (fin_queued p) (fin_sent p) (rcv_nxt p) (rcv_read p) (fin_seen p) (rx_shutdown p) (rx_phys p)
    (tx_phys p) (rto_at p) v (cwnd p) (ssthresh p) (dupacks p) (rto_ticks p) (tw_at p) (conn_at p) (error p) (parent
    p) (accept_q p).
Definition set_cwnd (v : Z) (p : pcb) : pcb :=
    Pcb (used p) (state p) (lip p) (rip p) (lport p) (rport p) (snd_una p) (snd_nxt p) (snd_end p) (snd_wnd p)
    (snd_mss p) (fin_queued p) (fin_sent p) (rcv_nxt p) (rcv_read p) (fin_seen p) (rx_shutdown p) (rx_phys p)
    (tx_phys p) (rto_at p) (retries p) v (ssthresh p) (dupacks p) (rto_ticks p) (tw_at p) (conn_at p) (error p)
    (parent p) (accept_q p).
Definition set_ssthresh (v : Z) (p : pcb) : pcb :=
    Pcb (used p) (state p) (lip p) (rip p) (lport p) (rport p) (snd_una p) (snd_nxt p) (snd_end p) (snd_wnd p)
    (snd_mss p) (fin_queued p) (fin_sent p) (rcv_nxt p) (rcv_read p) (fin_seen p) (rx_shutdown p) (rx_phys p)
    (tx_phys p) (rto_at p) (retries p) (cwnd p) v (dupacks p) (rto_ticks p) (tw_at p) (conn_at p) (error p) (parent
    p) (accept_q p).
Definition set_dupacks (v : Z) (p : pcb) : pcb :=
    Pcb (used p) (state p) (lip p) (rip p) (lport p) (rport p) (snd_una p) (snd_nxt p) (snd_end p) (snd_wnd p)
    (snd_mss p) (fin_queued p) (fin_sent p) (rcv_nxt p) (rcv_read p) (fin_seen p) (rx_shutdown p) (rx_phys p)
    (tx_phys p) (rto_at p) (retries p) (cwnd p) (ssthresh p) v (rto_ticks p) (tw_at p) (conn_at p) (error p) (parent
    p) (accept_q p).
Definition set_rto_ticks (v : Z) (p : pcb) : pcb :=
    Pcb (used p) (state p) (lip p) (rip p) (lport p) (rport p) (snd_una p) (snd_nxt p) (snd_end p) (snd_wnd p)
    (snd_mss p) (fin_queued p) (fin_sent p) (rcv_nxt p) (rcv_read p) (fin_seen p) (rx_shutdown p) (rx_phys p)
    (tx_phys p) (rto_at p) (retries p) (cwnd p) (ssthresh p) (dupacks p) v (tw_at p) (conn_at p) (error p) (parent
    p) (accept_q p).
Definition set_tw_at (v : Z) (p : pcb) : pcb :=
    Pcb (used p) (state p) (lip p) (rip p) (lport p) (rport p) (snd_una p) (snd_nxt p) (snd_end p) (snd_wnd p)
    (snd_mss p) (fin_queued p) (fin_sent p) (rcv_nxt p) (rcv_read p) (fin_seen p) (rx_shutdown p) (rx_phys p)
    (tx_phys p) (rto_at p) (retries p) (cwnd p) (ssthresh p) (dupacks p) (rto_ticks p) v (conn_at p) (error p)
    (parent p) (accept_q p).
Definition set_conn_at (v : Z) (p : pcb) : pcb :=
    Pcb (used p) (state p) (lip p) (rip p) (lport p) (rport p) (snd_una p) (snd_nxt p) (snd_end p) (snd_wnd p)
    (snd_mss p) (fin_queued p) (fin_sent p) (rcv_nxt p) (rcv_read p) (fin_seen p) (rx_shutdown p) (rx_phys p)
    (tx_phys p) (rto_at p) (retries p) (cwnd p) (ssthresh p) (dupacks p) (rto_ticks p) (tw_at p) v (error p) (parent
    p) (accept_q p).
Definition set_error (v : Z) (p : pcb) : pcb :=
    Pcb (used p) (state p) (lip p) (rip p) (lport p) (rport p) (snd_una p) (snd_nxt p) (snd_end p) (snd_wnd p)
    (snd_mss p) (fin_queued p) (fin_sent p) (rcv_nxt p) (rcv_read p) (fin_seen p) (rx_shutdown p) (rx_phys p)
    (tx_phys p) (rto_at p) (retries p) (cwnd p) (ssthresh p) (dupacks p) (rto_ticks p) (tw_at p) (conn_at p) v
    (parent p) (accept_q p).
Definition set_parent (v : option Z) (p : pcb) : pcb :=
    Pcb (used p) (state p) (lip p) (rip p) (lport p) (rport p) (snd_una p) (snd_nxt p) (snd_end p) (snd_wnd p)
    (snd_mss p) (fin_queued p) (fin_sent p) (rcv_nxt p) (rcv_read p) (fin_seen p) (rx_shutdown p) (rx_phys p)
    (tx_phys p) (rto_at p) (retries p) (cwnd p) (ssthresh p) (dupacks p) (rto_ticks p) (tw_at p) (conn_at p) (error
    p) v (accept_q p).
Definition set_accept_q (v : list Z) (p : pcb) : pcb :=
    Pcb (used p) (state p) (lip p) (rip p) (lport p) (rport p) (snd_una p) (snd_nxt p) (snd_end p) (snd_wnd p)
    (snd_mss p) (fin_queued p) (fin_sent p) (rcv_nxt p) (rcv_read p) (fin_seen p) (rx_shutdown p) (rx_phys p)
    (tx_phys p) (rto_at p) (retries p) (cwnd p) (ssthresh p) (dupacks p) (rto_ticks p) (tw_at p) (conn_at p) (error
    p) (parent p) v.

Definition blank_pcb : pcb :=
  Pcb false 0 0 0 0 0 0 0 0 0 0 false false 0 0 false false 0 0 0 0 0 0 0 0 0 0 0 None [].

(** [ticks] is [timer_ticks], [salt] and [next_port] the static variables of
    [next_iss] and [ephemeral_port], [out] the datagrams sent (destination and
    payload). *)
Record net := Net {
  n_mem : mem;
  n_pmm : pmm;
  g_pcbs : Z -> pcb;
  ticks : Z;
  salt : Z;
  next_port : Z;
  g_ifs : Z -> netif;
  out : list (Z * list Z)
}.

Definition with_mem (s : net) (m : mem) : net := Net m (n_pmm s) (g_pcbs s) (ticks s) (salt s) (next_port s) (g_ifs s) (out s).
Definition with_pmm (s : net) (m : mem) (pm : pmm) : net := Net m pm (g_pcbs s) (ticks s) (salt s) (next_port s) (g_ifs s) (out s).
Definition with_pcb (s : net) (i : Z) (p : pcb) : net :=
  Net (n_mem s) (n_pmm s) (upd (g_pcbs s) i p) (ticks s) (salt s) (next_port s) (g_ifs s) (out s).
Definition with_ticks (s : net) (t : Z) : net := Net (n_mem s) (n_pmm s) (g_pcbs s) t (salt s) (next_port s) (g_ifs s) (out s).
Definition with_salt (s : net) (v : Z) : net := Net (n_mem s) (n_pmm s) (g_pcbs s) (ticks s) v (next_port s) (g_ifs s) (out s).
Definition with_next_port (s : net) (v : Z) : net := Net (n_mem s) (n_pmm s) (g_pcbs s) (ticks s) (salt s) v (g_ifs s) (out s).
Definition send (s : net) (dst : Z) (seg : list Z) : net :=
  Net (n_mem s) (n_pmm s) (g_pcbs s) (ticks s) (salt s) (next_port s) (g_ifs s) (out s ++ [(dst, seg)]).
Definition edit (s : net) (i : Z) (f : pcb -> pcb) : net := with_pcb s i (f (g_pcbs s i)).

Section Tcp.
(** The direct map, and the return address that [pmm_free] logs. *)
Context (hhdm ra : Z).

(** ** Sequence numbers *)

Definition seq_lt (a b : Z) : bool := s32 (a - b) <? 0.
Definition seq_leq (a b : Z) : bool := s32 (a - b) <=? 0.
Definition min3 (a b c : Z) : Z := let m := if a <? b then a else b in if m <? c then m else c.
Definition bit (flags m : Z) : bool := negb (Z.land flags m =? 0).

Definition next_iss (s : net) : net * Z :=
  let v := u32 (salt s * 1664525 + 1013904223) in (with_salt s v, u32 (u32 (ticks s) * 64000 + v)).

(** ** The rings *)

Definition ring_at (phys seq : Z) : Z := pmm_virt hhdm phys + Z.land seq (TCP_BUF_SIZE - 1).
Definition ring_get (m : mem) (phys seq n : Z) : list Z := map (fun i => m (ring_at phys (u32 (seq + i)))) (seqZ 0 n).
Fixpoint ring_put (m : mem) (phys seq : Z) (src : list Z) : mem :=
  match src with [] => m | b :: src => ring_put (mset m (ring_at phys (u32 seq)) b) phys (seq + 1) src end.

(** ** Allocation *)

Definition free_page (s : net) (phys : Z) : net :=
  if phys =? 0 then s else with_pmm s (n_mem s) (pmm_free (n_pmm s) phys ra).
Definition pcb_free (s : net) (i : Z) : net :=
  let p := g_pcbs s i in edit (free_page (free_page s (rx_phys p)) (tx_phys p)) i (set_used false).

Definition alloc_page (s : net) : net * Z :=
  let '(pm, m, p) := pmm_alloc_zeroed hhdm (n_pmm s) (n_mem s) in (with_pmm s m pm, p).

Definition pcb_setup (s : net) (i : Z) : net * option Z :=
  let '(s, rx) := alloc_page (with_pcb s i blank_pcb) in
  let '(s, tx) := alloc_page (edit s i (set_rx_phys rx)) in
  let s := edit s i (set_tx_phys tx) in
  if (rx =? 0) || (tx =? 0) then (pcb_free s i, None)
  else
    (edit s i (fun p => set_snd_mss TCP_MSS (set_snd_wnd TCP_BUF_SIZE (set_state TCPS_CLOSED (set_used true p)))), Some i).

Definition pcb_alloc (s : net) : net * option Z :=
  match List.find (fun i => negb (used (g_pcbs s i))) (seqZ 0 TCP_MAX_PCB) with
  | None => (s, None)
  | Some i => pcb_setup s i
  end.
Definition tcp_new := pcb_alloc.

(** ** Segments *)

Definition emit_src (s : net) (p : pcb) : Z := if lip p =? 0 then net_route_src (g_ifs s) (rip p) else lip p.
Definition put_checksum (src dst : Z) (seg : list Z) : list Z :=
  net_put16 seg 16 (net_checksum_pseudo src dst IP_PROTO_TCP seg).

Definition hdr_len (flags : Z) : Z := if bit flags TCP_SYN then 24 else 20.
(** The window advertised. *)
Definition rcv_wnd (p : pcb) : Z := u32 (TCP_BUF_SIZE - u32 (rcv_nxt p - rcv_read p)).
Definition tcp_header (p : pcb) (seq flags : Z) : list Z :=
  let hdr := replicate 24 0 in
  let hdr := net_put16 hdr 0 (lport p) in
  let hdr := net_put16 hdr 2 (rport p) in
  let hdr := net_put32 hdr 4 seq in
  let hdr := net_put32 hdr 8 (if bit flags TCP_ACK then rcv_nxt p else 0) in
  let hdr := aset hdr 12 (u8 (Z.shiftl (hdr_len flags / 4) 4)) in
  let hdr := aset hdr 13 flags in
  let hdr := net_put16 hdr 14 (u16 (rcv_wnd p)) in
  if bit flags TCP_SYN then net_put16 (aset (aset hdr 20 2) 21 4) 22 TCP_MSS else hdr.

Definition tcp_emit (s : net) (p : pcb) (seq flags : Z) (data : list Z) : net :=
  let seg := take (Z.to_nat (hdr_len flags)) (tcp_header p seq flags) ++ data in
  send s (rip p) (put_checksum (emit_src s p) (rip p) seg).

Definition tcp_send_ack (s : net) (i : Z) : net := let p := g_pcbs s i in tcp_emit s p (snd_nxt p) TCP_ACK [].

(** The reset sent back for a segment that matched no connection. *)
Definition tcp_send_rst (s : net) (src dst : Z) (seg : list Z) (dlen flags : Z) : net :=
  if bit flags TCP_RST then s
  else
    let tmp := set_rport (net_get16 seg 0) (set_rip src (set_lport (net_get16 seg 2) (set_lip dst blank_pcb))) in
    if bit flags TCP_ACK then tcp_emit s tmp (net_get32 seg 8) TCP_RST []
    else
      let n := u32 (net_get32 seg 4 + dlen + (if bit flags TCP_SYN then 1 else 0) + (if bit flags TCP_FIN then 1 else 0)) in
      tcp_emit s (set_rcv_nxt n tmp) 0 (Z.lor TCP_RST TCP_ACK) [].

Definition aborts (st : Z) : bool :=
  (st =? TCPS_SYN_RCVD) || (st =? TCPS_ESTABLISHED) || (st =? TCPS_FIN_WAIT_1) || (st =? TCPS_FIN_WAIT_2)
  || (st =? TCPS_CLOSE_WAIT) || (st =? TCPS_CLOSING) || (st =? TCPS_LAST_ACK).

Definition abort_segment (p : pcb) : list Z :=
  let seg := replicate 20 0 in
  let seg := net_put16 seg 0 (lport p) in
  let seg := net_put16 seg 2 (rport p) in
  let seg := net_put32 seg 4 (snd_nxt p) in
  let seg := net_put32 seg 8 (rcv_nxt p) in
  aset (aset seg 12 (Z.shiftl 5 4)) 13 (Z.lor TCP_RST TCP_ACK).

(** The first entry equal to [i] is replaced by the last. *)
Fixpoint unqueue (q : list Z) (i : Z) : list Z :=
  match q with
  | [] => []
  | x :: q' =>
      if x =? i then match rev q' with [] => [] | y :: _ => y :: removelast q' end
      else x :: unqueue q' i
  end.

Definition tcp_destroy (s : net) (i : Z) : net :=
  let p := g_pcbs s i in
  let s := if aborts (state p) then send s (rip p) (put_checksum (emit_src s p) (rip p) (abort_segment p)) else s in
  let s := match parent p with
           | Some q => edit s q (fun par => set_accept_q (unqueue (accept_q par) i) par)
           | None => s
           end in
  pcb_free s i.

(** ** Ports *)

Definition port_in_use (s : net) (ip port : Z) : bool :=
  existsb (fun i => let p := g_pcbs s i in
    used p && (lport p =? port) && ((lip p =? IP_ANY) || (ip =? IP_ANY) || (lip p =? ip))) (seqZ 0 TCP_MAX_PCB).

Definition tcp_bind (s : net) (i ip port : Z) : net * Z :=
  if negb (state (g_pcbs s i) =? TCPS_CLOSED) then (s, - E_INVAL)
  else if negb (ip =? IP_ANY) && negb (net_is_local (g_ifs s) ip) then (s, - E_ADDRNOTAVAIL)
  else if port =? 0 then (s, - E_INVAL)
  else if port_in_use s ip port then (s, - E_ADDRINUSE)
  else (edit s i (fun p => set_lport port (set_lip ip p)), 0).

Definition bump_port (n : Z) : Z := let n := u16 n in if n <? EPHEMERAL_FIRST then EPHEMERAL_FIRST else n.
Fixpoint port_search (k : nat) (s : net) : net * Z :=
  match k with
  | O => (s, 0)
  | S k =>
      let port := next_port s in
      let s := with_next_port s (bump_port (port + 1)) in
      if negb (port_in_use s IP_ANY port) then (s, port) else port_search k s
  end.
Definition ephemeral_port (s : net) : net * Z :=
  port_search (Z.to_nat (65535 - EPHEMERAL_FIRST)) (with_next_port s (bump_port (next_port s))).

(** ** Sending *)

Definition mss_of (p : pcb) : Z := if snd_mss p =? 0 then TCP_MSS else snd_mss p.
Definition cwnd_init (p : pcb) : pcb :=
  set_rto_ticks TCP_RTO_TICKS (set_dupacks 0 (set_ssthresh 0xFFFF (set_cwnd (mss_of p) p))).
Definition rto_arm (s : net) (i : Z) : net := edit s i (fun p => set_rto_at (u64 (ticks s + rto_ticks p)) p).

Definition can_send (p : pcb) : bool := (state p =? TCPS_ESTABLISHED) || (state p =? TCPS_CLOSE_WAIT).

(** The number of bytes the windows let out now. *)
Definition sendable (p : pcb) : Z :=
  let in_flight := u32 (snd_nxt p - snd_una p) in
  let send_wnd := if snd_wnd p <? cwnd p then snd_wnd p else cwnd p in
  let wnd_left := if in_flight <? send_wnd then send_wnd - in_flight else 0 in
  min3 (u32 (snd_end p - snd_nxt p)) wnd_left (snd_mss p).

Definition output_data (s : net) (i : Z) : net :=
  let p := g_pcbs s i in
  let n := sendable p in
  if n =? 0 then s
  else
    let s := tcp_emit s p (snd_nxt p) (Z.lor TCP_ACK TCP_PSH) (ring_get (n_mem s) (tx_phys p) (snd_nxt p) n) in
    rto_arm (edit s i (set_snd_nxt (u32 (snd_nxt p + n)))) i.

Definition output_fin (s : net) (i : Z) : net :=
  let p := g_pcbs s i in
  if fin_queued p && negb (fin_sent p) && (snd_nxt p =? snd_end p) then
    let s := tcp_emit s p (snd_nxt p) (Z.lor TCP_ACK TCP_FIN) [] in
    let s := rto_arm (edit s i (fun p => set_snd_nxt (u32 (snd_nxt p + 1)) (set_fin_sent true p))) i in
    if state p =? TCPS_ESTABLISHED then edit s i (set_state TCPS_FIN_WAIT_1)
    else if state p =? TCPS_CLOSE_WAIT then edit s i (set_state TCPS_LAST_ACK) else s
  else s.

Definition tcp_output (s : net) (i : Z) : net :=
  if negb (can_send (g_pcbs s i)) then s else output_fin (output_data s i) i.

Definition tcp_write (s : net) (i : Z) (buf : list Z) : net * Z :=
  let p := g_pcbs s i in
  if negb (can_send p) then (s, if error p =? 0 then - E_NOTCONN else - error p)
  else if fin_queued p then (s, - E_PIPE)
  else
    let space := u32 (TCP_BUF_SIZE - u32 (snd_end p - snd_una p)) in
    let n := if alen buf <? space then alen buf else space in
    if n =? 0 then (s, 0)
    else
      let s := with_mem s (ring_put (n_mem s) (tx_phys p) (snd_end p) (take (Z.to_nat n) buf)) in
      (tcp_output (edit s i (set_snd_end (u32 (snd_end p + n)))) i, n).

Definition tcp_close_write (s : net) (i : Z) : net * Z :=
  if negb (can_send (g_pcbs s i)) then (s, - E_NOTCONN) else (tcp_output (edit s i (set_fin_queued true)) i, 0).

Definition tcp_shutdown_read (s : net) (i : Z) : net :=
  edit s i (fun p => set_rx_shutdown true (set_rcv_read (rcv_nxt p) p)).

(** ** Retransmission *)

Definition retransmit_segment (s : net) (i : Z) : net :=
  let p := g_pcbs s i in
  if state p =? TCPS_SYN_SENT then tcp_emit s p (snd_una p) TCP_SYN []
  else if state p =? TCPS_SYN_RCVD then tcp_emit s p (snd_una p) (Z.lor TCP_SYN TCP_ACK) []
  else
    let have := u32 (snd_end p - snd_una p) in
    let n := if have <? snd_mss p then have else snd_mss p in
    let with_fin := fin_sent p && (u32 (snd_una p + n) =? snd_end p) in
    let flags := Z.lor (Z.lor TCP_ACK (if n =? 0 then 0 else TCP_PSH)) (if with_fin then TCP_FIN else 0) in
    tcp_emit s p (snd_una p) flags (ring_get (n_mem s) (tx_phys p) (snd_una p) n).

Definition half_cwnd (p : pcb) : Z := if cwnd p / 2 <? 2 * TCP_MSS then 2 * TCP_MSS else cwnd p / 2.

(** The timer doubled, the window back to one segment. *)
Definition backoff (p : pcb) : pcb :=
  let t := u32 (rto_ticks p * 2) in
  set_cwnd (mss_of p) (set_ssthresh (half_cwnd p) (set_rto_ticks (if t <? TCP_RTO_MAX then t else TCP_RTO_MAX) p)).

Definition tcp_retransmit (s : net) (i : Z) : net :=
  let s := edit s i (fun p => set_retries (retries p + 1) p) in
  if TCP_MAX_RETRIES <? retries (g_pcbs s i)
  then edit s i (fun p => set_rto_at 0 (set_state TCPS_CLOSED (set_error E_TIMEDOUT p)))
  else rto_arm (edit (retransmit_segment s i) i backoff) i.

(** ** Receiving *)

Fixpoint mss_opts (fuel : nat) (seg : list Z) (hdrlen i : Z) (p : pcb) : pcb :=
  match fuel with
  | O => p
  | S k =>
      if i + 2 <=? hdrlen then
        let kind := aget 0 seg i in
        if kind =? 0 then p
        else if kind =? 1 then mss_opts k seg hdrlen (i + 1) p
        else
          let olen := aget 0 seg (i + 1) in
          if (olen <? 2) || (hdrlen <? i + olen) then p
          else
            let mss := net_get16 seg (i + 2) in
            let p := if (kind =? 2) && (olen =? 4) then set_snd_mss (if mss <? TCP_MSS then mss else TCP_MSS) p else p in
            mss_opts k seg hdrlen (i + olen) p
      else p
  end.
Definition mss_from_options (seg : list Z) (hdrlen : Z) (p : pcb) : pcb := mss_opts (Z.to_nat hdrlen) seg hdrlen 20 p.

Fixpoint lookup_from (s : net) (src dst sport dport : Z) (l : list Z) (listener : option Z) : option Z :=
  match l with
  | [] => listener
  | i :: l' =>
      let p := g_pcbs s i in
      if negb (used p) || negb (lport p =? dport) then lookup_from s src dst sport dport l' listener
      else if state p =? TCPS_LISTEN then
        lookup_from s src dst sport dport l' (if (lip p =? IP_ANY) || (lip p =? dst) then Some i else listener)
      else if state p =? TCPS_CLOSED then lookup_from s src dst sport dport l' listener
      else if (rport p =? sport) && (rip p =? src) && ((lip p =? IP_ANY) || (lip p =? dst)) then Some i
      else lookup_from s src dst sport dport l' listener
  end.
Definition pcb_lookup (s : net) (src dst sport dport : Z) : option Z :=
  lookup_from s src dst sport dport (seqZ 0 TCP_MAX_PCB) None.

Definition syn_arrived (s : net) (listener src dst : Z) (seg : list Z) (hdrlen : Z) : net :=
  match pcb_alloc s with
  | (s, None) => s
  | (s, Some c) =>
      let '(s, iss) := next_iss s in
      let s := edit s c (fun p =>
        let p := set_rport (net_get16 seg 0) (set_rip src (set_lport (lport (g_pcbs s listener)) (set_lip dst p))) in
        let p := set_rcv_nxt (u32 (net_get32 seg 4 + 1)) p in
        let p := set_rcv_read (rcv_nxt p) p in
        let p := set_snd_una iss (set_snd_nxt iss (set_snd_end iss p)) in
        let p := set_state TCPS_SYN_RCVD (set_parent (Some listener) (set_snd_wnd (net_get16 seg 14) p)) in
        mss_from_options seg hdrlen p) in
      let s := tcp_emit s (g_pcbs s c) (snd_una (g_pcbs s c)) (Z.lor TCP_SYN TCP_ACK) [] in
      rto_arm (edit s c (fun p => set_snd_nxt (u32 (snd_nxt p + 1)) p)) c
  end.

Definition input_listen (s : net) (i src dst : Z) (seg : list Z) (hdrlen dlen flags : Z) : net :=
  if bit flags TCP_RST then s
  else if bit flags TCP_ACK then tcp_send_rst s src dst seg dlen flags
  else if bit flags TCP_SYN then syn_arrived s i src dst seg hdrlen else s.

Definition input_rst (p : pcb) : pcb :=
  set_rto_at 0 (set_state TCPS_CLOSED (set_error (if state p =? TCPS_SYN_SENT then E_CONNREFUSED else E_CONNRESET) p)).

Definition input_syn_sent (s : net) (i : Z) (seg : list Z) (hdrlen flags : Z) : net :=
  if (Z.land flags (Z.lor TCP_SYN TCP_ACK) =? Z.lor TCP_SYN TCP_ACK) && (net_get32 seg 8 =? snd_nxt (g_pcbs s i)) then
    let s := edit s i (fun p =>
      let p := set_rcv_nxt (u32 (net_get32 seg 4 + 1)) p in
      let p := set_snd_una (net_get32 seg 8) (set_rcv_read (rcv_nxt p) p) in
      let p := set_state TCPS_ESTABLISHED (set_conn_at 0 (set_rto_at 0 (set_snd_wnd (net_get16 seg 14) p))) in
      cwnd_init (mss_from_options seg hdrlen p)) in
    tcp_send_ack s i
  else s.

(** A child is put in its parent's queue while there is room. *)
Definition queue_child (s : net) (i : Z) : net :=
  match parent (g_pcbs s i) with
  | Some q =>
      let par := g_pcbs s q in
      if used par && (state par =? TCPS_LISTEN) && (alen (accept_q par) <? TCP_BACKLOG)
      then edit s q (fun par => set_accept_q (accept_q par ++ [i]) par) else s
  | None => s
  end.

(** New data is acknowledged: the congestion window grows. *)
Definition ack_progress (s : net) (i sack : Z) : net :=
  let s := edit s i (fun p =>
    let p := set_rto_ticks TCP_RTO_TICKS (set_dupacks 0 (set_retries 0 (set_snd_una sack p))) in
    let mss := mss_of p in
    set_cwnd (u32 (cwnd p + (if cwnd p <? ssthresh p then mss else u32 (mss * mss) / cwnd p))) p) in
  let s := if snd_una (g_pcbs s i) =? snd_nxt (g_pcbs s i) then edit s i (set_rto_at 0) else rto_arm s i in
  tcp_output s i.

Definition ack_duplicate (s : net) (i : Z) : net :=
  let s := edit s i (fun p => set_dupacks (u32 (dupacks p + 1)) p) in
  if dupacks (g_pcbs s i) =? 3 then
    tcp_retransmit (edit s i (fun p =>
      let p := set_ssthresh (half_cwnd p) p in
      set_retries 0 (set_cwnd (u32 (ssthresh p + 3 * mss_of p)) p))) i
  else s.

Definition fin_acked (s : net) (i : Z) : net :=
  let p := g_pcbs s i in
  if fin_sent p && (snd_una p =? snd_nxt p) then
    if state p =? TCPS_FIN_WAIT_1 then edit s i (set_state TCPS_FIN_WAIT_2)
    else if state p =? TCPS_CLOSING
    then edit s i (fun p => set_tw_at (u64 (ticks s + TCP_TIME_WAIT)) (set_state TCPS_TIME_WAIT p))
    else if state p =? TCPS_LAST_ACK then edit s i (set_state TCPS_CLOSED) else s
  else s.

(** [None] when the segment has been answered with a reset. *)
Definition input_ack (s : net) (i : Z) (sack : Z) : option net :=
  let p := g_pcbs s i in
  if state p =? TCPS_SYN_RCVD then
    if negb (sack =? snd_nxt p) then None
    else
      let s := edit s i (fun p => cwnd_init (set_state TCPS_ESTABLISHED (set_rto_at 0 (set_snd_una sack p)))) in
      Some (fin_acked (queue_child s i) i)
  else if seq_lt (snd_una p) sack && seq_leq sack (snd_nxt p) then Some (fin_acked (ack_progress s i sack) i)
  else if seq_lt (snd_una p) (snd_nxt p) then Some (fin_acked (ack_duplicate s i) i)
  else Some (fin_acked s i).

Definition input_data (s : net) (i : Z) (data : list Z) : net :=
  let p := g_pcbs s i in
  let space := u32 (TCP_BUF_SIZE - u32 (rcv_nxt p - rcv_read p)) in
  let n := if alen data <? space then alen data else space in
  let s := if rx_shutdown p then s else with_mem s (ring_put (n_mem s) (rx_phys p) (rcv_nxt p) (take (Z.to_nat n) data)) in
  edit s i (set_rcv_nxt (u32 (rcv_nxt p + (if rx_shutdown p then alen data else n)))).

Definition input_fin (s : net) (i : Z) : net :=
  let s := edit s i (fun p => set_fin_seen true (set_rcv_nxt (u32 (rcv_nxt p + 1)) p)) in
  let time_wait := fun p => set_tw_at (u64 (ticks s + TCP_TIME_WAIT)) (set_state TCPS_TIME_WAIT p) in
  let p := g_pcbs s i in
  if state p =? TCPS_ESTABLISHED then edit s i (set_state TCPS_CLOSE_WAIT)
  else if state p =? TCPS_FIN_WAIT_1 then
    if fin_sent p && (snd_una p =? snd_nxt p) then edit s i time_wait else edit s i (set_state TCPS_CLOSING)
  else if state p =? TCPS_FIN_WAIT_2 then edit s i time_wait else s.

(** The text of the segment, once its acknowledgement has been taken. *)
Definition input_text (s : net) (i sseq : Z) (data : list Z) (flags : Z) : net :=
  let p := g_pcbs s i in
  if state p =? TCPS_CLOSED then s
  else
    let consumes := alen data + (if bit flags TCP_FIN then 1 else 0) in
    if negb (sseq =? rcv_nxt p) then
      if negb (consumes =? 0) || seq_leq (u32 (sseq + consumes)) (rcv_nxt p) then tcp_send_ack s i else s
    else
      let s := if alen data =? 0 then s else input_data s i data in
      let s := if bit flags TCP_FIN then input_fin s i else s in
      if negb (alen data =? 0) || bit flags TCP_FIN then tcp_send_ack s i else s.

Definition input_conn (s : net) (i src dst : Z) (seg : list Z) (hdrlen flags : Z) : net :=
  let data := drop (Z.to_nat hdrlen) seg in
  if bit flags TCP_RST then edit s i input_rst
  else if state (g_pcbs s i) =? TCPS_SYN_SENT then input_syn_sent s i seg hdrlen flags
  else
    match (if bit flags TCP_ACK then input_ack s i (net_get32 seg 8) else Some s) with
    | None => tcp_send_rst s src dst seg (alen data) flags
    | Some s => input_text s i (net_get32 seg 4) data flags
    end.

Definition tcp_input (s : net) (src dst : Z) (seg : list Z) : net :=
  if (alen seg <? 20) || negb (net_checksum_pseudo src dst IP_PROTO_TCP seg =? 0) then s
  else
    let hdrlen := Z.shiftr (aget 0 seg 12) 4 * 4 in
    let flags := aget 0 seg 13 in
    if (hdrlen <? 20) || (alen seg <? hdrlen) then s
    else
      match pcb_lookup s src dst (net_get16 seg 0) (net_get16 seg 2) with
      | None => tcp_send_rst s src dst seg (alen seg - hdrlen) flags
      | Some i =>
          if state (g_pcbs s i) =? TCPS_LISTEN then input_listen s i src dst seg hdrlen (alen seg - hdrlen) flags
          else input_conn s i src dst seg hdrlen flags
      end.

(** ** Timers *)

Definition tick_one (s : net) (i : Z) : net :=
  let due (f : pcb -> Z) (s : net) := negb (f (g_pcbs s i) =? 0) && (f (g_pcbs s i) <=? ticks s) in
  if negb (used (g_pcbs s i)) then s
  else
    let s := if due rto_at s then tcp_retransmit s i else s in
    let s := if due conn_at s
             then edit s i (fun p => set_rto_at 0 (set_conn_at 0 (set_state TCPS_CLOSED (set_error E_TIMEDOUT p)))) else s in
    if due tw_at s then edit s i (fun p => set_tw_at 0 (set_state TCPS_CLOSED p)) else s.
Definition tcp_tick (s : net) : net := fold_left tick_one (seqZ 0 TCP_MAX_PCB) s.

(** ** The socket layer's calls *)

Definition bind_any (s : net) (i : Z) : net * bool :=
  if lport (g_pcbs s i) =? 0 then
    let '(s, port) := ephemeral_port s in (edit s i (set_lport port), negb (port =? 0))
  else (s, true).

Definition tcp_listen (s : net) (i : Z) : net * Z :=
  if negb (state (g_pcbs s i) =? TCPS_CLOSED) then (s, - E_INVAL)
  else
    let '(s, ok) := bind_any s i in
    if negb ok then (s, - E_ADDRINUSE) else (edit s i (set_state TCPS_LISTEN), 0).

Definition tcp_connect (s : net) (i ip port : Z) : net * Z :=
  let st := state (g_pcbs s i) in
  if negb (st =? TCPS_CLOSED) then (s, if st =? TCPS_ESTABLISHED then - E_ISCONN else - E_ALREADY)
  else
    let '(s, ok) := bind_any s i in
    if negb ok then (s, - E_ADDRINUSE)
    else if net_route_src (g_ifs s) ip =? 0 then (s, - E_HOSTUNREACH)
    else
      let '(s, iss) := next_iss s in
      let s := edit s i (fun p =>
        let p := set_rport port (set_rip ip p) in
        set_state TCPS_SYN_SENT (set_snd_una iss (set_snd_nxt iss (set_snd_end iss p)))) in
      let s := tcp_emit s (g_pcbs s i) (snd_una (g_pcbs s i)) TCP_SYN [] in
      let s := rto_arm (edit s i (fun p => set_snd_nxt (u32 (snd_nxt p + 1)) p)) i in
      (edit s i (set_conn_at (u64 (ticks s + TCP_CONN_TICKS))), 0).

Definition tcp_accept (s : net) (i : Z) : net * option Z :=
  let p := g_pcbs s i in
  match (if state p =? TCPS_LISTEN then accept_q p else []) with
  | [] => (s, None)
  | c :: q => (edit (edit s i (set_accept_q q)) c (set_parent None), Some c)
  end.

(** The bytes read. *)
Definition tcp_read (s : net) (i len : Z) (peek : bool) : net * list Z :=
  let p := g_pcbs s i in
  let avail := u32 (rcv_nxt p - rcv_read p) in
  let n := if len <? avail then len else avail in
  let data := ring_get (n_mem s) (rx_phys p) (rcv_read p) n in
  (if (n =? 0) || peek then s else edit s i (set_rcv_read (u32 (rcv_read p + n))), data).

Definition tcp_state (s : net) (i : Z) : Z := state (g_pcbs s i).
Definition tcp_take_error (s : net) (i : Z) : net * Z := (edit s i (set_error 0), error (g_pcbs s i)).
Definition tcp_rx_avail (s : net) (i : Z) : Z := s32 (rcv_nxt (g_pcbs s i) - rcv_read (g_pcbs s i)).
Definition tcp_tx_space (s : net) (i : Z) : Z :=
  s32 (TCP_BUF_SIZE - u32 (snd_end (g_pcbs s i) - snd_una (g_pcbs s i))).
Definition tcp_eof (s : net) (i : Z) : bool :=
  let p := g_pcbs s i in fin_seen p && (rcv_read p =? rcv_nxt p).
Definition tcp_accept_ready (s : net) (i : Z) : bool := 0 <? alen (accept_q (g_pcbs s i)).
Definition tcp_endpoints (s : net) (i : Z) : Z * Z * Z * Z :=
  let p := g_pcbs s i in (emit_src s p, lport p, rip p, rport p).
End Tcp.
