(* ===== verification/TcpSeg.v ===== *)
(** * Segments, sequence numbers and rings of Tcp

    What [tcp_emit] sends is what [tcp_input] reads; sequence numbers as windows
    on an unbounded stream; a ring as a window on its contents. *)
From S2P Require Import Prelude Mem Pmm Net Tcp.
#[local] Open Scope Z_scope.

(** ** The fields of a block at their widths *)

Definition w16 (x : Z) : Prop := 0 <= x < 2 ^ 16.
Definition w32 (x : Z) : Prop := 0 <= x < 2 ^ 32.

Record pcb_typed (p : pcb) : Prop := {
  ty_state : 0 <= state p <= 10;
  ty_lip : w32 (lip p);
  ty_rip : w32 (rip p);
  ty_lport : w16 (lport p);
  ty_rport : w16 (rport p);
  ty_una : w32 (snd_una p);
  ty_nxt : w32 (snd_nxt p);
  ty_end : w32 (snd_end p);
  ty_wnd : w16 (snd_wnd p);
  ty_mss : 0 <= snd_mss p <= TCP_MSS;
  ty_rcv : w32 (rcv_nxt p);
  ty_read : w32 (rcv_read p);
  ty_cwnd : w32 (cwnd p);
  ty_ssthresh : w32 (ssthresh p);
  ty_dup : w32 (dupacks p);
  ty_rto : 0 <= rto_ticks p <= TCP_RTO_MAX;
  ty_retries : 0 <= retries p;
  ty_error : 0 <= error p;
  ty_parent : match parent p with Some q => 0 <= q < TCP_MAX_PCB | None => True end;
  ty_queue : alen (accept_q p) <= TCP_BACKLOG /\ Forall (fun c => 0 <= c < TCP_MAX_PCB) (accept_q p)
}.

(** ** Shape of a segment *)

(** The bytes up to the checksum, and the options. *)
Definition head16 (p : pcb) (seq flags : Z) : list Z :=
  be16 (lport p) ++ be16 (rport p) ++ be32 seq ++ be32 (if bit flags TCP_ACK then rcv_nxt p else 0)
  ++ [u8 (Z.shiftl (hdr_len flags / 4) 4); flags] ++ be16 (u16 (rcv_wnd p)).
Definition options (flags : Z) : list Z := if bit flags TCP_SYN then [2; 4] ++ be16 TCP_MSS else [].

Definition segment (src dst : Z) (p : pcb) (seq flags : Z) (data : list Z) : list Z :=
  put_checksum src dst (take (Z.to_nat (hdr_len flags)) (tcp_header p seq flags) ++ data).

Lemma tcp_emit_segment s p seq flags data :
  tcp_emit s p seq flags data = send s (rip p) (segment (emit_src s p) (rip p) p seq flags data).
Proof. done. Qed.

Lemma header_shape p seq flags :
  take (Z.to_nat (hdr_len flags)) (tcp_header p seq flags) = head16 p seq flags ++ [0; 0; 0; 0] ++ options flags.
Proof. unfold tcp_header, head16, options, hdr_len. by destruct (bit flags TCP_SYN). Qed.

Lemma segment_shape src dst p seq flags data :
  segment src dst p seq flags data =
  head16 p seq flags
  ++ be16 (net_checksum_pseudo src dst IP_PROTO_TCP (head16 p seq flags ++ [0; 0; 0; 0] ++ options flags ++ data))
  ++ [0; 0] ++ options flags ++ data.
Proof.
  unfold segment. rewrite header_shape, <- !app_assoc. unfold put_checksum.
  change ([0; 0; 0; 0] ++ options flags ++ data) with (0 :: 0 :: [0; 0] ++ options flags ++ data) at 2.
  by apply put16_app.
Qed.

Lemma head16_bytes p seq flags : byte flags -> Forall byte (head16 p seq flags).
Proof. intros Hf. unfold head16. rewrite !Forall_app. repeat split; repeat constructor; try apply u8_range; apply Hf. Qed.

Lemma options_bytes flags : Forall byte (options flags).
Proof. unfold options. destruct (bit flags TCP_SYN); repeat constructor; done. Qed.

Lemma options_len flags : alen (options flags) = hdr_len flags - 20.
Proof. unfold options, hdr_len. by destruct (bit flags TCP_SYN). Qed.

Lemma hdr_len_cases flags : hdr_len flags = 20 \/ hdr_len flags = 24.
Proof. unfold hdr_len. destruct (bit flags TCP_SYN); auto. Qed.

Lemma alen_cons {A} (a : A) l : alen (a :: l) = 1 + alen l.
Proof. unfold alen. simpl length. lia. Qed.
Lemma alen_nonneg {A} (l : list A) : 0 <= alen l.
Proof. unfold alen. lia. Qed.

Lemma segment_len src dst p seq flags data : alen (segment src dst p seq flags data) = hdr_len flags + alen data.
Proof.
  rewrite segment_shape. set (c := net_checksum_pseudo _ _ _ _). rewrite !alen_app, options_len.
  change (alen (head16 p seq flags)) with 16. change (alen (be16 c)) with 2. change (alen [0; 0]) with 2. lia.
Qed.

(** Its fields, as [tcp_input] takes them. *)
Lemma segment_fields src dst p seq flags data (seg := segment src dst p seq flags data) :
  pcb_typed p -> w32 seq ->
  net_get16 seg 0 = lport p /\ net_get16 seg 2 = rport p /\ net_get32 seg 4 = seq /\
  net_get32 seg 8 = (if bit flags TCP_ACK then rcv_nxt p else 0) /\
  Z.shiftr (aget 0 seg 12) 4 * 4 = hdr_len flags /\ aget 0 seg 13 = flags /\
  net_get16 seg 14 = u16 (rcv_wnd p) /\ drop (Z.to_nat (hdr_len flags)) seg = data /\
  (bit flags TCP_SYN = true -> forall q, mss_from_options seg 24 q = set_snd_mss TCP_MSS q).
Proof.
  intros T Hs. destruct T. unfold seg. rewrite segment_shape. set (c := net_checksum_pseudo _ _ _ _).
  assert (Hw : w32 (if bit flags TCP_ACK then rcv_nxt p else 0)) by (destruct (bit flags TCP_ACK); done).
  split_and!.
  - apply (get16_be []); done.
  - unfold head16. rewrite <- !app_assoc. by apply (get16_be (be16 _)).
  - unfold head16. rewrite <- !app_assoc. rewrite (app_assoc (be16 _)). by apply get32_be.
  - unfold head16. rewrite <- !app_assoc. rewrite (app_assoc (be16 _)), (app_assoc (be16 _ ++ _)). by apply get32_be.
  - cbn. destruct (hdr_len_cases flags) as [-> | ->]; done.
  - done.
  - unfold head16. rewrite <- !app_assoc.
    rewrite 4!(app_assoc _ _ (_ ++ _)). apply get16_be; [done|]. unfold u16. apply Z.mod_pos_bound. lia.
  - destruct (hdr_len_cases flags) as [E|E]; pose proof (options_len flags) as O; rewrite E in O |- *; unfold options in *;
      destruct (bit flags TCP_SYN); done.
  - intros S q. unfold options. rewrite S. done.
Qed.

Lemma segment_bytes src dst p seq flags data : byte flags -> Forall byte data -> Forall byte (segment src dst p seq flags data).
Proof.
  intros. rewrite segment_shape, !Forall_app. split_and!; auto using head16_bytes, be16_bytes, options_bytes. repeat constructor; done.
Qed.

Lemma segment_verifies src dst p seq flags data :
  byte flags -> Forall byte data -> alen data <= TCP_MSS ->
  net_checksum_pseudo src dst IP_PROTO_TCP (segment src dst p seq flags data) = 0.
Proof.
  intros Hf Hd Hl. unfold segment. rewrite header_shape, <- !app_assoc. unfold put_checksum.
  change ([0; 0; 0; 0] ++ options flags ++ data) with (0 :: 0 :: [0; 0] ++ options flags ++ data).
  pose proof (hdr_len_cases flags). unfold TCP_MSS, NET_MTU in Hl.
  apply checksum_verifies; [done|done|by apply head16_bytes| | |done].
  - rewrite !Forall_app. split_and!; auto using options_bytes. repeat constructor; done.
  - repeat rewrite ?alen_app, ?alen_cons. rewrite options_len. change (alen (head16 p seq flags)) with 16.
    change (alen []) with 0. lia.
Qed.

(** C28: What [tcp_emit] sends reads back.  The segment passes the checksum test
    of [tcp_input], its length and every header field are those it was built
    from, its payload is the data, and the option of a SYN announces the
    maximum segment size. *)
Theorem tcp_segment_roundtrip (src dst : Z) (p : pcb) (seq flags : Z) (data : list Z) (T : pcb_typed p) (Hs : w32 seq)
    (Hf : byte flags) (Hd : Forall byte data) (Hl : alen data <= TCP_MSS) :
  let seg := segment src dst p seq flags data in
  alen seg = hdr_len flags + alen data /\ Forall byte seg /\
  net_checksum_pseudo src dst IP_PROTO_TCP seg = 0 /\
  net_get16 seg 0 = lport p /\ net_get16 seg 2 = rport p /\ net_get32 seg 4 = seq /\
  net_get32 seg 8 = (if bit flags TCP_ACK then rcv_nxt p else 0) /\
  Z.shiftr (aget 0 seg 12) 4 * 4 = hdr_len flags /\ aget 0 seg 13 = flags /\
  net_get16 seg 14 = u16 (rcv_wnd p) /\ drop (Z.to_nat (hdr_len flags)) seg = data /\
  (bit flags TCP_SYN = true -> forall q, mss_from_options seg 24 q = set_snd_mss TCP_MSS q).
Proof.
  intros seg. split; [apply segment_len|]. split; [by apply segment_bytes|]. split; [by apply segment_verifies|].
  by apply segment_fields.
Qed.

Definition demo_block : pcb := set_lport 80 (set_rport 49152 (set_rcv_nxt 5001 (set_rcv_read 5000 blank_pcb))).

Lemma tcp_segment_roundtrip_witness :
  let seg := segment 0x0A000001 0x0A000002 demo_block 1000 (Z.lor TCP_ACK TCP_PSH) [1; 2; 3] in
  alen seg = 23 /\ net_checksum_pseudo 0x0A000001 0x0A000002 IP_PROTO_TCP seg = 0 /\ net_get16 seg 14 = 4095.
Proof.
  destruct (tcp_segment_roundtrip 0x0A000001 0x0A000002 demo_block 1000 (Z.lor TCP_ACK TCP_PSH) [1; 2; 3])
    as (H1 & _ & H2 & _ & _ & _ & _ & _ & _ & H3 & _); [by constructor|done|done|repeat constructor; done|done|].
  split; [exact H1|]. split; [exact H2|exact H3].
Defined.

(** ** Sequence numbers on an unbounded stream *)

Lemma u32_add_l x y : u32 (u32 x + y) = u32 (x + y).
Proof. unfold u32. by rewrite Zplus_mod_idemp_l. Qed.
Lemma u32_sub x y : u32 (u32 x - u32 y) = u32 (x - y).
Proof. unfold u32. by rewrite <- Zminus_mod. Qed.

Lemma u32_eq_near x y : Z.abs (x - y) < 2 ^ 32 -> u32 x = u32 y -> x = y.
Proof.
  unfold u32. intros H E. pose proof (Z.div_mod x (2 ^ 32)). pose proof (Z.div_mod y (2 ^ 32)). rewrite E in *.
  assert (x / 2 ^ 32 = y / 2 ^ 32) by nia. lia.
Qed.

Lemma u32_diff x y : 0 <= x - y < 2 ^ 32 -> u32 (u32 x - u32 y) = x - y.
Proof. intros. rewrite u32_sub. by apply u32_small. Qed.

Lemma s32_diff x y : - 2 ^ 31 <= x - y < 2 ^ 31 -> s32 (u32 x - u32 y) = x - y.
Proof.
  intros H. unfold s32, sgn, u32. rewrite <- Zminus_mod. change (32 - 1) with 31.
  destruct (Z.leb_spec 0 (x - y)).
  - rewrite Z.mod_small by lia. destruct (Z.ltb_spec (x - y) (2 ^ 31)); lia.
  - replace ((x - y) mod 2 ^ 32) with (x - y + 2 ^ 32) by (apply (Z.mod_unique _ _ (-1)); lia).
    destruct (Z.ltb_spec (x - y + 2 ^ 32) (2 ^ 31)); lia.
Qed.

Lemma seq_lt_near x y : - 2 ^ 31 <= x - y < 2 ^ 31 -> seq_lt (u32 x) (u32 y) = (x <? y).
Proof. intros H. unfold seq_lt. rewrite s32_diff by done. destruct (Z.ltb_spec (x - y) 0), (Z.ltb_spec x y); lia. Qed.
Lemma seq_leq_near x y : - 2 ^ 31 <= x - y < 2 ^ 31 -> seq_leq (u32 x) (u32 y) = (x <=? y).
Proof. intros H. unfold seq_leq. rewrite s32_diff by done. destruct (Z.leb_spec (x - y) 0), (Z.leb_spec x y); lia. Qed.

(** The sequence number exactly half the space ahead: [seq_lt] and [seq_leq]
    hold of it in both directions. *)
Definition antipode (x : Z) : Z := u32 (x + 2 ^ 31).

(** An acknowledgement between [a] and [n] names a position of the stream. *)
Lemma ack_window a n sack :
  0 <= n - a < 2 ^ 31 -> w32 sack -> sack <> antipode (u32 a) ->
  seq_lt (u32 a) sack = true -> seq_leq sack (u32 n) = true -> exists k, a < k <= n /\ sack = u32 k.
Proof.
  intros Hn Hs Ha H1 H2. set (d := u32 (sack - u32 a)). assert (Hd : 0 <= d < 2 ^ 32) by apply u32_range.
  assert (Es : sack = u32 (a + d)).
  { unfold d, u32. rewrite Zplus_mod_idemp_r. replace (a + (sack - a mod 2 ^ 32)) with (sack + (a - a mod 2 ^ 32)) by lia.
    pose proof (Z.div_mod a (2 ^ 32)). replace (a - a mod 2 ^ 32) with (a / 2 ^ 32 * 2 ^ 32) by lia.
    rewrite Z.mod_add by lia. symmetry. by apply Z.mod_small. }
  exists (a + d). split; [|done].
  assert (Hd2 : d <> 2 ^ 31).
  { intros E. apply Ha. rewrite Es, E. unfold antipode. by rewrite u32_add_l. }
  clearbody d. subst sack. destruct (Z.lt_ge_cases d (2 ^ 31)).
  - rewrite seq_lt_near in H1 by lia. rewrite seq_leq_near in H2 by lia. apply Z.ltb_lt in H1. apply Z.leb_le in H2. lia.
  - exfalso. replace (u32 (a + d)) with (u32 (a + d - 2 ^ 32)) in H1 by
      (unfold u32; rewrite <- (Z.mod_add (a + d - 2 ^ 32) 1 (2 ^ 32)) by lia; f_equal; lia).
    rewrite seq_lt_near in H1 by lia. apply Z.ltb_lt in H1. lia.
Qed.

(** ** Rings *)

Section Ring.
Context (hhdm : Z).
Notation ring_at := (ring_at hhdm).

Lemma ring_at_mod phys x : ring_at phys x = pmm_virt hhdm phys + x mod 4096.
Proof. unfold Tcp.ring_at. change (TCP_BUF_SIZE - 1) with (Z.ones 12). by rewrite Z.land_ones by lia. Qed.

Lemma ring_at_u32 phys x : ring_at phys (u32 x) = ring_at phys x.
Proof.
  rewrite !ring_at_mod. f_equal. unfold u32. change (2 ^ 32) with (4096 * 2 ^ 20).
  rewrite Z.rem_mul_r by lia. rewrite Z.mul_comm, Z.mod_add, Z.mod_mod by lia. done.
Qed.

Lemma ring_at_range phys x : pmm_virt hhdm phys <= ring_at phys x < pmm_virt hhdm phys + 4096.
Proof. rewrite ring_at_mod. pose proof (Z.mod_pos_bound x 4096). lia. Qed.

Lemma ring_at_inj phys x y : Z.abs (x - y) < 4096 -> ring_at phys x = ring_at phys y -> x = y.
Proof.
  rewrite !ring_at_mod. intros H E. pose proof (Z.div_mod x 4096). pose proof (Z.div_mod y 4096).
  assert (x mod 4096 = y mod 4096) by lia. assert (x / 4096 = y / 4096) by nia. lia.
Qed.

Lemma ring_put_outside phys src : forall m seq a,
  ~ (pmm_virt hhdm phys <= a < pmm_virt hhdm phys + 4096) -> ring_put hhdm m phys seq src a = m a.
Proof.
  induction src as [|b src IH]; intros m seq a Ha; simpl; [done|]. rewrite IH by done. apply mset_ne.
  pose proof (ring_at_range phys (u32 seq)). intros ->. lia.
Qed.

Lemma ring_put_u32 phys src : forall m x y, u32 x = u32 y -> ring_put hhdm m phys x src = ring_put hhdm m phys y src.
Proof.
  induction src as [|b src IH]; intros m x y H; simpl; [done|]. rewrite H. apply IH.
  rewrite <- (u32_add_l x), <- (u32_add_l y). by rewrite H.
Qed.

(** The last page of what has been put is the end of the old contents and the
    new bytes. *)
Lemma ring_put_spec phys src : forall m e x,
  e + alen src - 4096 <= x < e + alen src ->
  ring_put hhdm m phys e src (ring_at phys x) = if x <? e then m (ring_at phys x) else aget 0 src (x - e).
Proof.
  unfold alen. induction src as [|b src IH]; intros m e x Hx; simpl in *.
  { destruct (Z.ltb_spec x e); [done|lia]. }
  rewrite IH by lia. rewrite ring_at_u32. destruct (Z.ltb_spec x (e + 1)).
  - destruct (Z.ltb_spec x e).
    + apply mset_ne. intros E. apply ring_at_inj in E; lia.
    + replace x with e by lia. rewrite mset_eq. by rewrite Z.sub_diag.
  - destruct (Z.ltb_spec x e); [lia|]. unfold aget. destruct (Z.ltb_spec (x - (e + 1)) 0); [lia|].
    destruct (Z.ltb_spec (x - e) 0); [lia|]. replace (Z.to_nat (x - e)) with (S (Z.to_nat (x - (e + 1)))) by lia. done.
Qed.

(** Reading a range of a ring that holds part of a list. *)
Lemma map_window (f : Z -> Z) (l : list Z) : forall n a,
  0 <= a -> a + Z.of_nat n <= alen l -> (forall x, a <= x < a + Z.of_nat n -> f x = aget 0 l x) ->
  map (fun i => f (a + i)) (seqZ 0 (Z.of_nat n)) = take n (drop (Z.to_nat a) l).
Proof.
  unfold alen. intros n a Ha Hn H. apply list_eq. intros i. rewrite list_lookup_fmap.
  destruct (decide (i < n)%nat).
  - rewrite lookup_seqZ_lt by lia. simpl. rewrite lookup_take_lt, lookup_drop by lia.
    rewrite H by lia. unfold aget. destruct (Z.ltb_spec (a + (0 + Z.of_nat i)) 0); [lia|].
    rewrite nth_lookup. replace (Z.to_nat (a + (0 + Z.of_nat i))) with (Z.to_nat a + i)%nat by lia.
    destruct (lookup_lt_is_Some_2 l (Z.to_nat a + i)) as [v ->]; [lia|done].
  - rewrite lookup_seqZ_ge by lia. by rewrite lookup_take_ge by lia.
Qed.

Lemma ring_get_window m phys iss (l : list Z) a n :
  0 <= a -> 0 <= n -> a + n <= alen l ->
  (forall x, a <= x < a + n -> m (ring_at phys (iss + x)) = aget 0 l x) ->
  ring_get hhdm m phys (u32 (iss + a)) n = take (Z.to_nat n) (drop (Z.to_nat a) l).
Proof.
  intros Ha Hn Hl H. unfold ring_get. rewrite <- (map_window (fun x => m (ring_at phys (iss + x)))) by (rewrite ?Z2Nat.id by lia; auto).
  rewrite Z2Nat.id by lia. apply map_ext. intros i. rewrite ring_at_u32. f_equal.
  rewrite <- (ring_at_u32 _ (u32 _ + i)), u32_add_l, ring_at_u32. f_equal. lia.
Qed.
End Ring.
