(* ===== verification/TcpState.v ===== *)
(** * The types of Tcp

    Every operation keeps the fields of the blocks at their widths.  The
    relation on states used on the way is coarse: it bounds where a block may
    get to, and is used for what needs no more (a connection past its handshake
    stays there); the exact transitions are in TcpMachine. *)
From S2P Require Import Prelude Mem Pmm Net Tcp TcpSeg.
#[local] Open Scope Z_scope.

#[global] Opaque ephemeral_port.

(** ** The transitions *)

(** A bound on what segments, timers and the sending of a queued FIN may do. *)
Inductive coarse_edge : Z -> Z -> Prop :=
| e_open_active : coarse_edge TCPS_SYN_SENT TCPS_ESTABLISHED
| e_open_passive : coarse_edge TCPS_SYN_RCVD TCPS_ESTABLISHED
| e_close : coarse_edge TCPS_ESTABLISHED TCPS_FIN_WAIT_1
| e_peer_close : coarse_edge TCPS_ESTABLISHED TCPS_CLOSE_WAIT
| e_close_wait : coarse_edge TCPS_CLOSE_WAIT TCPS_LAST_ACK
| e_fin_acked : coarse_edge TCPS_FIN_WAIT_1 TCPS_FIN_WAIT_2
| e_simultaneous : coarse_edge TCPS_FIN_WAIT_1 TCPS_CLOSING
| e_fin_and_ack : coarse_edge TCPS_FIN_WAIT_1 TCPS_TIME_WAIT
| e_peer_fin : coarse_edge TCPS_FIN_WAIT_2 TCPS_TIME_WAIT
| e_closing : coarse_edge TCPS_CLOSING TCPS_TIME_WAIT
| e_abort st : coarse_edge st TCPS_CLOSED.
#[local] Hint Constructors coarse_edge : core.

(** An operation on block [i]: no other block changes, block [i] stays in use,
    its state follows the transitions and its fields keep their widths. *)
Record on_block (i : Z) (s s' : net) : Prop := {
  ob_others : forall j, j <> i -> g_pcbs s' j = g_pcbs s j;
  ob_env : g_ifs s' = g_ifs s /\ ticks s' = ticks s /\ next_port s' = next_port s;
  ob_used : used (g_pcbs s' i) = used (g_pcbs s i);
  ob_edge : rtc coarse_edge (state (g_pcbs s i)) (state (g_pcbs s' i));
  ob_typed : pcb_typed (g_pcbs s i) -> pcb_typed (g_pcbs s' i)
}.

#[export] Instance on_block_preorder i : PreOrder (on_block i).
Proof.
  split.
  - intros s. by constructor.
  - intros s1 s2 s3 [A1 A2 A3 A4 A5] [B1 B2 B3 B4 B5]. constructor; try congruence; auto.
    + intros j Hj. rewrite B1, A1; done.
    + by destruct A2 as (<- & <- & <-).
    + by etrans.
Qed.

Lemma edit_eq s i f : g_pcbs (edit s i f) i = f (g_pcbs s i).
Proof. apply upd_eq. Qed.
Lemma edit_ne s i f j : j <> i -> g_pcbs (edit s i f) j = g_pcbs s j.
Proof. apply upd_ne. Qed.

(** What an edit of a block must respect. *)
Record good_edit (p p' : pcb) : Prop := {
  ge_used : used p' = used p;
  ge_edge : rtc coarse_edge (state p) (state p');
  ge_typed : pcb_typed p -> pcb_typed p'
}.

Lemma block_edit s i f : good_edit (g_pcbs s i) (f (g_pcbs s i)) -> on_block i s (edit s i f).
Proof.
  intros [H1 H2 H3]. constructor; try done; [by intros; apply edit_ne|..]; by rewrite edit_eq.
Qed.

Lemma u16_w16 x : w16 (u16 x).
Proof. apply Z.mod_pos_bound. lia. Qed.
Lemma u32_w32 x : w32 (u32 x).
Proof. apply u32_range. Qed.
#[export] Hint Resolve u16_w16 u32_w32 : gnos.

Lemma get16_w16 l i : w16 (net_get16 l i).
Proof. apply u16_w16. Qed.

Lemma seg_byte l i : Forall byte l -> byte (aget 0 l i).
Proof.
  intros H. unfold aget. destruct (i <? 0); [done|]. rewrite nth_lookup.
  destruct (l !! Z.to_nat i) eqn:E; [|done]. by eapply Forall_lookup in E.
Qed.

Lemma get32_w32 l i : Forall byte l -> w32 (net_get32 l i).
Proof.
  intros H. rewrite (get32_bytes _ _ _ _ l i eq_refl eq_refl eq_refl eq_refl) by (by apply seg_byte).
  pose proof (seg_byte l i H). pose proof (seg_byte l (i + 1) H). pose proof (seg_byte l (i + 2) H).
  pose proof (seg_byte l (i + 3) H). unfold byte, w32 in *. lia.
Qed.

(** Closes [good_edit] goals: the widths of the fields that change. *)
Ltac width :=
  solve [ done | (match goal with |- context [if ?b then _ else _] => destruct b end; done) | apply u32_w32 | apply u16_w16 | apply get16_w16 | by apply get32_w32
        | unfold w32, w16, TCP_RTO_MAX, TCP_RTO_TICKS, TCP_MSS, NET_MTU, TCP_BUF_SIZE in *; lia ].
Ltac typed := let T := fresh "T" in intros T; destruct T; constructor; simpl; auto; try width.
Ltac good := constructor; [done|first [reflexivity | by apply rtc_once; auto] |typed].

Section State.
Context (hhdm ra : Z).
Implicit Types (s : net).

(** ** The parts of the operations *)

Lemma block_emit s p i seq flags data : on_block i s (tcp_emit s p seq flags data).
Proof. by constructor. Qed.
Lemma block_mem s i m : on_block i s (with_mem s m).
Proof. by constructor. Qed.
Lemma block_rto_arm s i : on_block i s (rto_arm s i).
Proof. apply block_edit. good. Qed.

Lemma mss_of_range p : pcb_typed p -> 0 < mss_of p <= TCP_MSS.
Proof. intros []. unfold mss_of, TCP_MSS, NET_MTU in *. destruct (Z.eqb_spec (snd_mss p) 0); lia. Qed.

Lemma half_cwnd_range p : pcb_typed p -> w32 (half_cwnd p).
Proof.
  intros []. unfold half_cwnd, w32, TCP_MSS, NET_MTU in *.
  match goal with |- context [?a <? ?b] => destruct (a <? b) end; Z.to_euclidean_division_equations; lia.
Qed.

Lemma block_output_data s i : on_block i s (output_data hhdm s i).
Proof.
  unfold output_data. destruct (sendable _ =? 0); [done|]. etrans; [apply block_emit|].
  etrans; [|apply block_rto_arm]. apply block_edit. good.
Qed.

Lemma block_output_fin s i : on_block i s (output_fin s i).
Proof.
  unfold output_fin. destruct (fin_queued _ && _ && _); [|done]. cbv zeta.
  set (s1 := tcp_emit s _ _ _ _). set (s2 := rto_arm _ i).
  assert (B : on_block i s s2).
  { transitivity s1; [apply block_emit|]. etrans; [|apply block_rto_arm]. apply block_edit. good. }
  assert (Es : state (g_pcbs s2 i) = state (g_pcbs s i)) by (unfold s2, rto_arm; by rewrite !edit_eq).
  clearbody s2. clear s1. transitivity s2; [done|].
  destruct (Z.eqb_spec (state (g_pcbs s i)) TCPS_ESTABLISHED) as [E|].
  - apply block_edit. constructor; [done|rewrite Es, E; apply rtc_once; constructor|typed].
  - destruct (Z.eqb_spec (state (g_pcbs s i)) TCPS_CLOSE_WAIT) as [E|]; [|done].
    apply block_edit. constructor; [done|rewrite Es, E; apply rtc_once; constructor|typed].
Qed.

Lemma block_output s i : on_block i s (tcp_output hhdm s i).
Proof. unfold tcp_output. destruct (negb _); [done|]. etrans; [apply block_output_data|apply block_output_fin]. Qed.

Lemma block_write s i buf : on_block i s (fst (tcp_write hhdm s i buf)).
Proof.
  unfold tcp_write. destruct (negb _); [done|]. destruct (fin_queued _); [done|]. cbv zeta.
  match goal with |- context [if ?n =? 0 then _ else _] => destruct (n =? 0) end; [done|]. simpl.
  etrans; [apply block_mem|]. etrans; [|apply block_output]. apply block_edit. good.
Qed.

Lemma block_close_write s i : on_block i s (fst (tcp_close_write hhdm s i)).
Proof.
  unfold tcp_close_write. destruct (negb _); [done|]. simpl. etrans; [|apply block_output]. apply block_edit. good.
Qed.

Lemma block_retransmit s i : on_block i s (tcp_retransmit hhdm s i).
Proof.
  unfold tcp_retransmit. etrans; [apply (block_edit _ _ (fun p => set_retries (retries p + 1) p))|].
  { good. }
  destruct (_ <? _).
  - apply block_edit. rewrite edit_eq. constructor; [done|apply rtc_once; by constructor|typed].
  - etrans; [|apply block_rto_arm]. etrans; [|apply block_edit].
    + unfold retransmit_segment. cbv zeta. destruct (_ =? _); [apply block_emit|]. destruct (_ =? _); apply block_emit.
    + constructor; [done|done|]. intros T. pose proof (mss_of_range _ T). pose proof (half_cwnd_range _ T).
      unfold TCP_MSS, NET_MTU in *. revert T. typed.
      unfold TCP_RTO_MAX in *. rewrite u32_small by lia. match goal with |- context [?a <? 6000] => destruct (Z.ltb_spec a 6000) end; lia.
Qed.

(** ** Segments *)

(** The same for every block. *)
Definition evolves s s' : Prop :=
  (g_ifs s' = g_ifs s /\ ticks s' = ticks s /\ next_port s' = next_port s) /\
  forall j, good_edit (g_pcbs s j) (g_pcbs s' j).

#[local] Instance evolves_preorder : PreOrder evolves.
Proof.
  split.
  - intros s. split; [done|]. intros j. by constructor.
  - intros s1 s2 s3 (A1 & A3) (B1 & B3). split; [by destruct A1 as (<- & <- & <-)|]. intros j.
    destruct (A3 j) as [C1 C2 C3], (B3 j) as [D1 D2 D3]. split; [congruence|by etrans|auto].
Qed.

Lemma block_evolves s s' i : on_block i s s' -> evolves s s'.
Proof.
  intros [H1 H2 H4 H5 H6]. split; [done|]. intros j.
  destruct (Z.eq_dec j i) as [->|Hj]; [by constructor|]. rewrite H1 by done. by constructor.
Qed.

Lemma block_fin_acked s i : on_block i s (fin_acked s i).
Proof.
  unfold fin_acked. destruct (fin_sent _ && _); [|done].
  repeat match goal with |- context [if ?x =? ?y then _ else _] => destruct (Z.eqb_spec x y) as [E|_] end; [..|done];
    apply block_edit; (constructor; [done|cbv beta; rewrite E; apply rtc_once; by constructor|typed]).
Qed.

Lemma block_ack_progress s i sack : w32 sack -> on_block i s (ack_progress hhdm s i sack).
Proof.
  intros Hs. unfold ack_progress. cbv zeta. etrans; [|apply block_output]. set (s1 := edit s i _).
  assert (B : on_block i s s1).
  { apply block_edit. constructor; [done|done|]. typed. }
  clearbody s1. transitivity s1; [done|]. destruct (_ =? _); [apply block_edit; good|apply block_rto_arm].
Qed.

Lemma block_ack_duplicate s i : on_block i s (ack_duplicate hhdm s i).
Proof.
  unfold ack_duplicate. cbv zeta. set (s1 := edit s i _).
  assert (B : on_block i s s1) by (apply block_edit; good).
  clearbody s1. destruct (_ =? 3); [|done]. transitivity s1; [done|]. etrans; [|apply block_retransmit].
  apply block_edit. constructor; [done|done|]. intros T. pose proof (half_cwnd_range _ T). revert T. typed.
Qed.

Lemma queue_child_evolves s i : 0 <= i < TCP_MAX_PCB -> evolves s (queue_child s i).
Proof.
  intros Hi. unfold queue_child. destruct (parent (g_pcbs s i)) as [q|]; [|done]. cbv zeta.
  destruct (_ && _) eqn:E; [|done]. apply andb_true_iff in E as [_ E]. apply Z.ltb_lt in E.
  apply (block_evolves _ _ q), block_edit. good. destruct ty_queue as [Q1 Q2]. split; [|by apply Forall_app; auto].
  unfold alen in *. rewrite length_app. simpl. lia.
Qed.

Lemma input_ack_evolves s i sack s' :
  0 <= i < TCP_MAX_PCB -> w32 sack -> input_ack hhdm s i sack = Some s' -> evolves s s'.
Proof.
  intros Hi Hs. unfold input_ack. cbv zeta. destruct (Z.eqb_spec (state (g_pcbs s i)) TCPS_SYN_RCVD) as [E|].
  - destruct (negb _); [done|]. intros [= <-]. etrans; [|eapply block_evolves, block_fin_acked].
    etrans; [|by apply queue_child_evolves]. eapply block_evolves, block_edit.
    constructor; [done|rewrite E; apply rtc_once; constructor|]. intros T.
    assert (M : 0 < mss_of (g_pcbs s i) <= TCP_MSS) by by apply mss_of_range.
    unfold TCP_MSS, NET_MTU in *. revert T. typed. change (w32 (mss_of (g_pcbs s i))). width.
  - destruct (_ && _).
    { intros [= <-]. eapply block_evolves. etrans; [by apply block_ack_progress|apply block_fin_acked]. }
    destruct (seq_lt _ _); intros [= <-]; eapply block_evolves; [|apply block_fin_acked].
    etrans; [apply block_ack_duplicate|apply block_fin_acked].
Qed.

Lemma block_input_data s i data : on_block i s (input_data hhdm s i data).
Proof.
  unfold input_data. cbv zeta. etrans; [|apply block_edit; good].
  destruct (rx_shutdown _); [done|apply block_mem].
Qed.

Lemma block_input_fin s i : on_block i s (input_fin s i).
Proof.
  unfold input_fin. cbv zeta. set (s1 := edit s i _).
  assert (B : on_block i s s1) by (apply block_edit; good). clearbody s1. transitivity s1; [done|].
  repeat match goal with
  | |- context [if ?x =? ?y then _ else _] => destruct (Z.eqb_spec x y) as [E|_]
  | |- context [if ?x && ?y then _ else _] => destruct (x && y)
  end; try done; apply block_edit; (constructor; [done|cbv beta; rewrite E; apply rtc_once; by constructor|typed]).
Qed.

Lemma block_input_text s i sseq data flags : on_block i s (input_text hhdm s i sseq data flags).
Proof.
  unfold input_text. cbv zeta. destruct (_ =? TCPS_CLOSED); [done|]. destruct (negb (sseq =? _)).
  { match goal with |- context [if ?b then _ else _] => destruct b end; [apply block_emit|done]. }
  set (s1 := if alen data =? 0 then s else _).
  assert (B1 : on_block i s s1) by (unfold s1; destruct (_ =? 0); [done|apply block_input_data]). clearbody s1.
  set (s2 := if bit flags TCP_FIN then input_fin s1 i else s1).
  assert (B2 : on_block i s1 s2) by (unfold s2; destruct (bit _ _); [apply block_input_fin|done]). clearbody s2.
  transitivity s1; [done|]. transitivity s2; [done|].
  match goal with |- context [if ?b then _ else _] => destruct b end; [apply block_emit|done].
Qed.

Lemma mss_opts_fields k seg hdrlen : forall i p,
  exists m, mss_opts k seg hdrlen i p = set_snd_mss m p /\ (m = snd_mss p \/ 0 <= m <= TCP_MSS).
Proof.
  induction k as [|k IH]; intros i p; simpl.
  { exists (snd_mss p). split; [by destruct p|auto]. }
  assert (D : exists m, p = set_snd_mss m p /\ (m = snd_mss p \/ 0 <= m <= TCP_MSS)) by
    (exists (snd_mss p); split; [by destruct p|auto]).
  destruct (i + 2 <=? hdrlen); [|exact D]. destruct (_ =? 0); [exact D|].
  destruct (_ =? 1); [apply IH|]. destruct (_ || _); [exact D|].
  destruct (_ && _); [|apply IH].
  match goal with |- context [mss_opts k seg hdrlen ?j (set_snd_mss ?v p)] => destruct (IH j (set_snd_mss v p)) as (m & -> & Hm) end.
  exists m. split; [done|]. right. pose proof (get16_w16 seg (i + 2)). unfold w16, TCP_MSS, NET_MTU in *.
  destruct Hm as [->|]; [|lia]. simpl. match goal with |- context [?a <? ?b] => destruct (Z.ltb_spec a b) end; lia.
Qed.

Lemma mss_from_options_fields seg hdrlen p :
  exists m, mss_from_options seg hdrlen p = set_snd_mss m p /\ (0 <= snd_mss p <= TCP_MSS -> 0 <= m <= TCP_MSS).
Proof.
  destruct (mss_opts_fields (Z.to_nat hdrlen) seg hdrlen 20 p) as (m & E & Hm). exists m. split; [done|].
  destruct Hm as [->|]; done.
Qed.

Lemma block_syn_sent s i seg hdrlen flags :
  Forall byte seg -> state (g_pcbs s i) = TCPS_SYN_SENT -> on_block i s (input_syn_sent s i seg hdrlen flags).
Proof.
  intros Hb E. unfold input_syn_sent. destruct (_ && _); [|done]. cbv zeta. etrans; [|apply block_emit].
  apply block_edit. cbv beta.
  match goal with |- context [mss_from_options seg hdrlen ?p] => destruct (mss_from_options_fields seg hdrlen p) as (m & -> & Hm) end.
  constructor; [done|rewrite E; apply rtc_once; constructor|]. intros T.
  assert (M : 0 <= m <= TCP_MSS).
  { apply Hm, T. }
  unfold TCP_MSS, NET_MTU in M. revert T. typed.
  unfold mss_of, w32, TCP_MSS, NET_MTU. simpl. destruct (Z.eqb_spec m 0); lia.
Qed.

Lemma input_conn_evolves s i src dst seg hdrlen flags :
  0 <= i < TCP_MAX_PCB -> Forall byte seg ->
  evolves s (input_conn hhdm s i src dst seg hdrlen flags).
Proof.
  intros Hi Hb. unfold input_conn. cbv zeta. destruct (bit flags TCP_RST).
  { eapply block_evolves, block_edit. constructor; [done|apply rtc_once; by constructor|typed]. }
  destruct (Z.eqb_spec (state (g_pcbs s i)) TCPS_SYN_SENT); [by eapply block_evolves, block_syn_sent|].
  destruct (bit flags TCP_ACK).
  2: { eapply block_evolves, block_input_text. }
  destruct (input_ack hhdm s i _) as [s1|] eqn:E.
  - etrans; [eapply input_ack_evolves; eauto; by apply get32_w32|]. eapply block_evolves, block_input_text.
  - unfold tcp_send_rst. destruct (bit _ _); [done|]. cbv zeta. destruct (bit flags TCP_ACK); by eapply (block_evolves _ _ i), block_emit.
Qed.

(** ** The calls *)

(** A step of the protocol: a call of the socket layer on block [i], a segment,
    a tick of the clock. *)
Inductive net_step s : net -> Prop :=
| step_new : net_step s (fst (pcb_alloc hhdm ra s))
| step_destroy i : net_step s (tcp_destroy ra s i)
| step_bind i ip port : w32 ip -> w16 port -> net_step s (fst (tcp_bind s i ip port))
| step_listen i : net_step s (fst (tcp_listen s i))
| step_connect i ip port : w32 ip -> w16 port -> net_step s (fst (tcp_connect s i ip port))
| step_accept i : net_step s (fst (tcp_accept s i))
| step_write i buf : net_step s (fst (tcp_write hhdm s i buf))
| step_close_write i : net_step s (fst (tcp_close_write hhdm s i))
| step_shutdown_read i : net_step s (tcp_shutdown_read s i)
| step_read i len peek : net_step s (fst (tcp_read hhdm s i len peek))
| step_take_error i : net_step s (fst (tcp_take_error s i))
| step_input src dst seg : w32 src -> w32 dst -> Forall byte seg -> net_step s (tcp_input hhdm ra s src dst seg)
| step_tick t : net_step s (tcp_tick hhdm (with_ticks s t)).

(** What is seen of a block: its state while it is in use. *)
Definition seen (p : pcb) : option Z := if used p then Some (state p) else None.

(** The life of a block. *)
Inductive life : option Z -> option Z -> Prop :=
| l_unused : life None None
| l_new : life None (Some TCPS_CLOSED)
| l_child : life None (Some TCPS_SYN_RCVD)
| l_listen : life (Some TCPS_CLOSED) (Some TCPS_LISTEN)
| l_connect : life (Some TCPS_CLOSED) (Some TCPS_SYN_SENT)
| l_rfc st st' : rtc coarse_edge st st' -> life (Some st) (Some st')
| l_free st : life (Some st) None.

(** The step of one block, and a child's parent. *)
Record lives s (p p' : pcb) : Prop := {
  lv_seen : life (seen p) (seen p');
  lv_child : seen p = None -> seen p' = Some TCPS_SYN_RCVD ->
    exists l, parent p' = Some l /\ seen (g_pcbs s l) = Some TCPS_LISTEN
}.

Definition net_typed s : Prop := w16 (next_port s) /\ forall j, pcb_typed (g_pcbs s j).

Record step_ok s s' : Prop := {
  so_lives : forall j, lives s (g_pcbs s j) (g_pcbs s' j);
  so_typed : net_typed s -> net_typed s'
}.

Lemma lives_edit s p p' : good_edit p p' -> lives s p p'.
Proof.
  intros [H1 H2 H3]. unfold seen. constructor; unfold seen; rewrite H1; destruct (used p); try done; by constructor.
Qed.

Lemma evolves_ok s s' : evolves s s' -> step_ok s s'.
Proof.
  intros [(_ & _ & Hp) H]. constructor; [intros j; by apply lives_edit|].
  intros [Hn T]. split; [by rewrite Hp|]. intros j. by apply (H j).
Qed.

Lemma block_ok s s' i : on_block i s s' -> step_ok s s'.
Proof. intros. by eapply evolves_ok, block_evolves. Qed.

(** Allocation. *)
Definition new_pcb (rx tx : Z) : pcb :=
  set_snd_mss TCP_MSS (set_snd_wnd TCP_BUF_SIZE (set_state TCPS_CLOSED (set_used true (set_tx_phys tx (set_rx_phys rx blank_pcb))))).

Lemma blank_typed : pcb_typed blank_pcb.
Proof. by constructor. Qed.

Lemma new_pcb_typed rx tx : pcb_typed (new_pcb rx tx).
Proof. by constructor. Qed.

(** Another block's entry, the clock and the interfaces stay. *)
Record only_at (i : Z) s s' : Prop := {
  oa_others : forall j, j <> i -> g_pcbs s' j = g_pcbs s j;
  oa_env : g_ifs s' = g_ifs s /\ ticks s' = ticks s /\ next_port s' = next_port s
}.
#[local] Instance only_at_preorder i : PreOrder (only_at i).
Proof.
  split; [by constructor|]. intros s1 s2 s3 [A1 A2] [B1 B2]. constructor.
  - intros j Hj. rewrite B1, A1; done.
  - by destruct A2 as (<- & <- & <-).
Qed.
Lemma only_edit s i f : only_at i s (edit s i f).
Proof. constructor; [intros; by apply edit_ne|done]. Qed.
Lemma only_pmm s i m pm : only_at i s (with_pmm s m pm).
Proof. by constructor. Qed.
Lemma only_block s s' i : on_block i s s' -> only_at i s s'.
Proof. intros [H1 H2 _ _ _]. by constructor. Qed.

Lemma pcb_free_only s i : only_at i s (pcb_free ra s i).
Proof.
  unfold pcb_free, free_page. cbv zeta. etrans; [|apply only_edit].
  destruct (rx_phys _ =? 0), (tx_phys _ =? 0); try done; apply only_pmm.
Qed.

Lemma pcb_free_eq s i : g_pcbs (pcb_free ra s i) i = set_used false (g_pcbs s i).
Proof. unfold pcb_free, free_page. rewrite edit_eq. by destruct (rx_phys _ =? 0), (tx_phys _ =? 0). Qed.

Lemma pcb_alloc_cases s :
  match pcb_alloc hhdm ra s with
  | (s', Some i) => 0 <= i < TCP_MAX_PCB /\ used (g_pcbs s i) = false /\ only_at i s s' /\
      exists rx tx, g_pcbs s' i = new_pcb rx tx
  | (s', None) => s' = s \/ exists i, used (g_pcbs s i) = false /\ only_at i s s' /\
      used (g_pcbs s' i) = false /\ pcb_typed (g_pcbs s' i)
  end.
Proof.
  unfold pcb_alloc. destruct (List.find _ _) as [i|] eqn:F; [|by left].
  apply find_some in F as [Hi Hu]. apply negb_true_iff in Hu. apply list_elem_of_In, elem_of_seqZ in Hi.
  unfold pcb_setup, alloc_page. cbn [with_pcb n_pmm n_mem]. destruct (pmm_alloc_zeroed hhdm (n_pmm s) (n_mem s)) as [[pm m] rx].
  cbn [edit with_pcb with_pmm n_pmm n_mem]. destruct (pmm_alloc_zeroed hhdm pm m) as [[pm' m'] tx].
  set (s1 := edit _ i (set_tx_phys tx)).
  assert (O : only_at i s s1).
  { unfold s1, edit, with_pcb, with_pmm. constructor; [|done]. intros j Hj. simpl. by rewrite !upd_ne. }
  assert (E1 : g_pcbs s1 i = set_tx_phys tx (set_rx_phys rx blank_pcb)).
  { unfold s1. rewrite edit_eq. simpl. by rewrite !upd_eq. }
  clearbody s1. destruct (_ || _).
  - right. exists i. rewrite pcb_free_eq. split; [done|]. split; [etrans; [done|apply pcb_free_only]|]. split; [done|].
    rewrite E1. by constructor.
  - split; [unfold TCP_MAX_PCB in *; lia|]. split; [done|]. split; [etrans; [done|apply only_edit]|].
    exists rx, tx. by rewrite edit_eq, E1.
Qed.

(** A step that changes one block only. *)
Lemma only_ok s s' i :
  only_at i s s' -> lives s (g_pcbs s i) (g_pcbs s' i) -> (net_typed s -> pcb_typed (g_pcbs s' i)) -> step_ok s s'.
Proof.
  intros [H1 (_ & _ & H2)] L T. constructor.
  - intros j. destruct (Z.eq_dec j i) as [->|Hj]; [done|]. rewrite H1 by done. by apply lives_edit.
  - intros N. split; [rewrite H2; apply N|]. intros j. destruct (Z.eq_dec j i) as [->|Hj]; [auto|]. rewrite H1 by done. apply N.
Qed.

Lemma new_ok s : step_ok s (fst (pcb_alloc hhdm ra s)).
Proof.
  pose proof (pcb_alloc_cases s) as C. destruct (pcb_alloc hhdm ra s) as [s' [i|]]; simpl.
  - destruct C as (_ & Hu & O & rx & tx & E). apply (only_ok s s' i O).
    + rewrite E. constructor; unfold seen; rewrite Hu; [by constructor|done].
    + rewrite E. intros _. apply new_pcb_typed.
  - destruct C as [->|(i & Hu & O & Hu' & T)]; [by apply evolves_ok|]. apply (only_ok s s' i O); [|done].
    constructor; unfold seen; rewrite Hu, Hu'; [by constructor|done].
Qed.

Lemma next_iss_spec s :
  let '(s', iss) := next_iss s in w32 iss /\ g_pcbs s' = g_pcbs s /\ n_mem s' = n_mem s /\ out s' = out s /\
    g_ifs s' = g_ifs s /\ ticks s' = ticks s /\ next_port s' = next_port s.
Proof. split; [apply u32_w32|done]. Qed.

Lemma syn_arrived_ok s l src dst seg hdrlen :
  w32 src -> w32 dst -> Forall byte seg -> 0 <= l < TCP_MAX_PCB -> seen (g_pcbs s l) = Some TCPS_LISTEN ->
  step_ok s (syn_arrived hhdm ra s l src dst seg hdrlen).
Proof.
  intros Hs Hd Hb Hl0 Hl. unfold syn_arrived. pose proof (pcb_alloc_cases s) as C. pose proof (new_ok s) as N.
  destruct (pcb_alloc hhdm ra s) as [s1 [c|]]; [|done]. simpl in N. destruct C as (Hc & Hu & O & rx & tx & E).
  pose proof (next_iss_spec s1) as I. destruct (next_iss s1) as [s1' iss]. destruct I as (Hi & Ep & _ & _ & Ee).
  cbv zeta. match goal with |- context [tcp_emit ?x _ _ _ _] => set (s2 := x) end.
  assert (O2 : only_at c s s2).
  { unfold s2. etrans; [exact O|]. etrans; [|apply only_edit]. constructor; [intros; by rewrite Ep|done]. }
  assert (E2 : exists m p, g_pcbs s2 c = set_snd_mss m p /\ 0 <= m <= TCP_MSS /\
    state p = TCPS_SYN_RCVD /\ used p = true /\ parent p = Some l /\ (net_typed s -> pcb_typed p)).
  { unfold s2. rewrite edit_eq, Ep. cbv beta zeta.
    match goal with |- context [mss_from_options seg hdrlen ?p] => set (q := p) end.
    destruct (mss_from_options_fields seg hdrlen q) as (m & -> & Hm). exists m, q.
    assert (lport (g_pcbs s1 l) = lport (g_pcbs s l)) as El.
    { destruct (Z.eq_dec l c) as [->|Hne]; [|by rewrite (oa_others _ _ _ O)]. unfold seen in Hl. by rewrite Hu in Hl. }
    unfold q in Hm. rewrite E in Hm. unfold q. rewrite E, El in *. split; [done|]. split.
    { apply Hm. done. }
    split; [done|]. split; [done|]. split; [done|]. intros [_ T]. destruct (T l).
    constructor; simpl; try done; try width. }
  destruct E2 as (m & p & E2 & Hm & Hst & Hus & Hpar & Ht). clearbody s2.
  set (s3 := rto_arm _ c). assert (B : on_block c s2 s3).
  { unfold s3. etrans; [|apply block_rto_arm]. etrans; [apply (block_emit _ (g_pcbs s2 c))|]. apply block_edit. good. }
  assert (Est : seen (g_pcbs s3 c) = Some TCPS_SYN_RCVD /\ parent (g_pcbs s3 c) = Some l).
  { unfold s3, rto_arm. rewrite !edit_eq. cbn. rewrite E2. unfold seen. simpl. by rewrite Hst, Hus. }
  clearbody s3. destruct Est as [Es Epar]. apply (only_ok s s3 c); [etrans; [done|by apply only_block]| |].
  - constructor; [unfold seen at 1; rewrite Hu, Es; constructor|]. intros _ _. by exists l.
  - intros N0. apply (ob_typed _ _ _ B). rewrite E2. specialize (Ht N0). revert Ht. typed.
Qed.

Lemma lookup_from_some s src dst sport dport i : forall l o,
  lookup_from s src dst sport dport l o = Some i ->
  o = Some i \/ (i ∈ l /\ used (g_pcbs s i) = true).
Proof.
  induction l as [|x l IH]; intros o; simpl; [auto|].
  destruct (used (g_pcbs s x)) eqn:U; simpl; [|intros H; destruct (IH _ H) as [?|[? ?]]; auto using list_elem_of_further].
  destruct (negb _); [intros H; destruct (IH _ H) as [?|[? ?]]; auto using list_elem_of_further|].
  destruct (_ =? TCPS_LISTEN).
  { intros H. destruct (IH _ H) as [Ho|[? ?]]; [|auto using list_elem_of_further]. destruct (_ || _); [|auto].
    injection Ho as ->. right. split; [left|done]. }
  destruct (_ =? TCPS_CLOSED); [intros H; destruct (IH _ H) as [?|[? ?]]; auto using list_elem_of_further|].
  destruct (_ && _); [|intros H; destruct (IH _ H) as [?|[? ?]]; auto using list_elem_of_further].
  intros [= ->]. right. split; [left|done].
Qed.

Lemma pcb_lookup_some s src dst sport dport i :
  pcb_lookup s src dst sport dport = Some i -> 0 <= i < TCP_MAX_PCB /\ used (g_pcbs s i) = true.
Proof.
  intros H. destruct (lookup_from_some _ _ _ _ _ _ _ _ H) as [?|[Hi Hu]]; [done|]. apply elem_of_seqZ in Hi.
  unfold TCP_MAX_PCB in *. split; [lia|done].
Qed.

Lemma send_rst_evolves s src dst seg dlen flags : evolves s (tcp_send_rst s src dst seg dlen flags).
Proof.
  unfold tcp_send_rst. destruct (bit flags TCP_RST); [done|]. cbv zeta.
  destruct (bit flags TCP_ACK); by apply (block_evolves _ _ 0), block_emit.
Qed.

Lemma input_ok s src dst seg : w32 src -> w32 dst -> Forall byte seg -> step_ok s (tcp_input hhdm ra s src dst seg).
Proof.
  intros Hs Hd Hb. unfold tcp_input. destruct (_ || _); [by apply evolves_ok|]. cbv zeta.
  destruct (_ || _); [by apply evolves_ok|]. destruct (pcb_lookup _ _ _ _ _) as [i|] eqn:F.
  2: { apply evolves_ok, send_rst_evolves. }
  apply pcb_lookup_some in F as [Hi Hu]. destruct (Z.eqb_spec (state (g_pcbs s i)) TCPS_LISTEN) as [E|].
  - unfold input_listen. destruct (bit _ TCP_RST); [by apply evolves_ok|].
    destruct (bit _ TCP_ACK); [apply evolves_ok, send_rst_evolves|]. destruct (bit _ TCP_SYN); [|by apply evolves_ok].
    apply syn_arrived_ok; try done. unfold seen. by rewrite Hu, E.
  - by apply evolves_ok, input_conn_evolves.
Qed.

(** ** The remaining calls *)

Lemma removelast_forall {A} (Q : A -> Prop) l : Forall Q l -> Forall Q (removelast l).
Proof. induction 1 as [|x l Hx Hl IH]; [done|]. simpl. destruct l; [done|]. by constructor. Qed.

Lemma removelast_len {A} (l : list A) : (length (removelast l) <= length l)%nat.
Proof. induction l as [|x l IH]; [done|]. simpl in *. destruct l; simpl in *; lia. Qed.

Lemma unqueue_forall (Q : Z -> Prop) q i : Forall Q q -> Forall Q (unqueue q i) /\ alen (unqueue q i) <= alen q.
Proof.
  unfold alen. induction 1 as [|x q Hx Hq [IH1 IH2]]; [done|]. simpl. destruct (x =? i).
  - destruct (rev q) as [|y r] eqn:R; [split; [done|simpl; lia]|]. split.
    + constructor; [|by apply removelast_forall]. eapply Forall_forall; [apply Forall_rev, Hq|]. rewrite R. left.
    + pose proof (removelast_len q). destruct q; [by simpl in R|]. simpl in *.
      destruct q; simpl in *; lia.
  - split; [by constructor|]. simpl. lia.
Qed.

Lemma destroy_ok s i : step_ok s (tcp_destroy ra s i).
Proof.
  unfold tcp_destroy. cbv zeta. set (s1 := if aborts _ then _ else _).
  assert (B1 : evolves s s1) by (unfold s1; destruct (aborts _); [by apply (block_evolves _ _ i)|done]). clearbody s1.
  set (s2 := match parent _ with Some q => _ | None => _ end).
  assert (B2 : evolves s1 s2).
  { unfold s2. destruct (parent _) as [q|]; [|done]. apply (block_evolves _ _ q), block_edit. good.
    destruct ty_queue as [Q1 Q2]. destruct (unqueue_forall _ _ i Q2). split; [lia|done]. }
  clearbody s2. assert (B : evolves s s2) by (by transitivity s1). clear B1 B2 s1.
  destruct (pcb_free_only s2 i) as [O (_ & _ & O2)]. destruct B as [(_ & _ & Bp) B]. constructor.
  - intros j. destruct (Z.eq_dec j i) as [->|Hj]; [|rewrite O by done; by apply lives_edit].
    rewrite pcb_free_eq. constructor; unfold seen; simpl; [|done]. destruct (used (g_pcbs s i)); constructor.
  - intros [N T]. split; [by rewrite O2, Bp|]. intros j. destruct (B j) as [_ _ H3]. specialize (H3 (T j)).
    destruct (Z.eq_dec j i) as [->|Hj]; [|by rewrite O]. rewrite pcb_free_eq. revert H3. typed.
Qed.

Lemma bump_port_w16 n : w16 (bump_port n).
Proof.
  unfold bump_port. cbv zeta. destruct (Z.ltb_spec (u16 n) EPHEMERAL_FIRST); [done|apply u16_w16].
Qed.

Lemma port_search_spec k : forall s, w16 (next_port s) ->
  let '(s', port) := port_search k s in
  w16 port /\ w16 (next_port s') /\ g_pcbs s' = g_pcbs s /\ n_mem s' = n_mem s /\ n_pmm s' = n_pmm s /\ out s' = out s /\
  g_ifs s' = g_ifs s /\ ticks s' = ticks s /\ salt s' = salt s.
Proof.
  induction k as [|k IH]; intros s Hn; simpl; [done|].
  destruct (negb _).
  - split; [done|]. split; [apply bump_port_w16|done].
  - specialize (IH (with_next_port s (bump_port (next_port s + 1))) (bump_port_w16 _)).
    destruct (port_search k _) as [s' port]. exact IH.
Qed.

Lemma bind_any_spec s i :
  let '(s', ok) := bind_any s i in
  n_mem s' = n_mem s /\ out s' = out s /\ g_ifs s' = g_ifs s /\ ticks s' = ticks s /\
  (forall j, j <> i -> g_pcbs s' j = g_pcbs s j) /\
  exists port, g_pcbs s' i = set_lport port (g_pcbs s i) /\ ok = negb (port =? 0) /\
    (lport (g_pcbs s i) <> 0 -> port = lport (g_pcbs s i)) /\
    (net_typed s -> w16 port /\ net_typed s').
Proof.
  unfold bind_any. destruct (Z.eqb_spec (lport (g_pcbs s i)) 0) as [E|Hn].
  - with_strategy transparent [ephemeral_port] unfold ephemeral_port. set (s0 := with_next_port s _).
    pose proof (port_search_spec (Z.to_nat (65535 - EPHEMERAL_FIRST)) s0 (bump_port_w16 _)) as P.
    destruct (port_search _ s0) as [s' port]. destruct P as (P1 & P2 & P3 & P4 & P5 & P6 & P7 & P8 & P9).
    split; [done|]. split; [done|]. split; [done|]. split; [done|].
    split; [intros j Hj; rewrite edit_ne by done; by rewrite P3|]. exists port. rewrite edit_eq, P3.
    split; [done|]. split; [done|]. split; [done|]. intros [N T]. split; [done|]. split; [done|]. intros j.
    destruct (Z.eq_dec j i) as [->|Hj]; [rewrite edit_eq|rewrite edit_ne by done]; rewrite P3; [|apply T].
    specialize (T i). revert T. change (g_pcbs s0) with (g_pcbs s). typed.
  - repeat (split; [done|]). exists (lport (g_pcbs s i)). split; [by destruct (g_pcbs s i)|].
    split; [by apply Z.eqb_neq in Hn as ->|]. split; [done|]. intros [N T]. split; [apply T|by split].
Qed.

(** A step that changes one block, and perhaps the port counter. *)
Lemma one_ok s s' i :
  (forall j, j <> i -> g_pcbs s' j = g_pcbs s j) -> lives s (g_pcbs s i) (g_pcbs s' i) ->
  (net_typed s -> net_typed s') -> step_ok s s'.
Proof.
  intros H1 L T. constructor; [|done]. intros j. destruct (Z.eq_dec j i) as [->|Hj]; [done|]. rewrite H1 by done. by apply lives_edit.
Qed.

Lemma seen_set_lport p v : seen (set_lport v p) = seen p.
Proof. done. Qed.

Lemma life_refl o : life o o.
Proof. destruct o; by constructor. Qed.

Lemma listen_ok s i : step_ok s (fst (tcp_listen s i)).
Proof.
  unfold tcp_listen. destruct (Z.eqb_spec (state (g_pcbs s i)) TCPS_CLOSED) as [E|]; cbn [negb fst]; [|by apply evolves_ok].
  pose proof (bind_any_spec s i) as B. destruct (bind_any s i) as [s1 ok].
  destruct B as (_ & _ & _ & _ & Bo & port & Bi & Bok & _ & Bt).
  destruct (negb ok); cbn [fst]; (apply (one_ok _ _ i); [intros j Hj; rewrite ?edit_ne by done; by apply Bo| |]).
  - rewrite Bi. constructor; [apply life_refl|]. intros H1 H2. rewrite seen_set_lport in H2. congruence.
  - intros N. by apply Bt.
  - rewrite edit_eq, Bi. constructor; unfold seen; cbn; destruct (used (g_pcbs s i)); rewrite ?E; try done; constructor.
  - intros N. destruct (Bt N) as [_ [N1 T1]]. split; [done|]. intros j. destruct (Z.eq_dec j i) as [->|Hj].
    + rewrite edit_eq. specialize (T1 i). revert T1. typed.
    + rewrite edit_ne; done.
Qed.

Lemma connect_ok s i ip port : w32 ip -> w16 port -> step_ok s (fst (tcp_connect s i ip port)).
Proof.
  intros Hip Hport. unfold tcp_connect. cbv zeta.
  destruct (Z.eqb_spec (state (g_pcbs s i)) TCPS_CLOSED) as [E|]; cbn [negb fst]; [|by apply evolves_ok].
  pose proof (bind_any_spec s i) as B. destruct (bind_any s i) as [s1 ok].
  destruct B as (_ & _ & _ & _ & Bo & lp & Bi & Bok & _ & Bt).
  assert (Hfail : step_ok s s1).
  { apply (one_ok _ _ i); [done| |intros N; by apply Bt]. rewrite Bi. constructor; [apply life_refl|].
    intros H1 H2. rewrite seen_set_lport in H2. congruence. }
  destruct (negb ok); [exact Hfail|]. destruct (net_route_src _ _ =? 0); [exact Hfail|].
  pose proof (next_iss_spec s1) as I. destruct (next_iss s1) as [s1' iss]. destruct I as (Hi & Ep & _ & _ & _ & _ & En). cbn [fst].
  match goal with |- context [tcp_emit ?x _ _ _ _] => set (s2 := x) end.
  set (s3 := edit _ i (set_conn_at _)).
  assert (E2 : g_pcbs s2 i = set_state TCPS_SYN_SENT (set_snd_una iss (set_snd_nxt iss (set_snd_end iss
    (set_rport port (set_rip ip (set_lport lp (g_pcbs s i)))))))) by (unfold s2; by rewrite edit_eq, Ep, Bi).
  assert (O2 : forall j, j <> i -> g_pcbs s2 j = g_pcbs s1 j).
  { intros j Hj. unfold s2. rewrite edit_ne by done. by rewrite Ep. }
  assert (N2 : next_port s2 = next_port s1) by exact En. clearbody s2.
  assert (E3 : used (g_pcbs s3 i) = used (g_pcbs s i) /\ state (g_pcbs s3 i) = TCPS_SYN_SENT /\
    (pcb_typed (g_pcbs s1 i) -> pcb_typed (g_pcbs s3 i))).
  { unfold s3, rto_arm. rewrite !edit_eq. change (g_pcbs (tcp_emit s2 ?p ?q ?f ?d) i) with (g_pcbs s2 i).
    rewrite E2, Bi. split; [done|]. split; [done|]. typed. }
  assert (O3 : forall j, j <> i -> g_pcbs s3 j = g_pcbs s1 j).
  { intros j Hj. unfold s3, rto_arm. rewrite !edit_ne by done. by apply O2. }
  assert (N3 : next_port s3 = next_port s1) by exact N2. clearbody s3. clear s2 E2 O2 N2.
  destruct E3 as (Hu & Hst & Ht). apply (one_ok _ _ i).
  - intros j Hj. rewrite O3; auto.
  - constructor; unfold seen; rewrite Hu, Hst, ?E; destruct (used (g_pcbs s i)); try done; constructor.
  - intros N. destruct (Bt N) as [_ [N1 T1]]. split; [by rewrite N3|]. intros j. destruct (Z.eq_dec j i) as [->|Hj]; [by apply Ht|].
    rewrite O3; done.
Qed.

Lemma tcp_bind_ok s i ip port : w32 ip -> w16 port -> step_ok s (fst (tcp_bind s i ip port)).
Proof.
  intros. unfold tcp_bind. repeat (match goal with |- context [if ?b then _ else _] => destruct b end; [by apply evolves_ok|]).
  simpl. eapply block_ok, block_edit. good.
Qed.

Lemma accept_ok s i : step_ok s (fst (tcp_accept s i)).
Proof.
  unfold tcp_accept. cbv zeta. destruct (Z.eqb_spec (state (g_pcbs s i)) TCPS_LISTEN) as [E|]; [|by apply evolves_ok].
  destruct (accept_q (g_pcbs s i)) as [|c q] eqn:Q; [by apply evolves_ok|]. simpl. apply evolves_ok.
  etrans; [apply (block_evolves _ (edit s i (set_accept_q q)) i), block_edit|apply (block_evolves _ _ c), block_edit; good].
  good. rewrite Q in ty_queue. destruct ty_queue as [Q1 Q2]. inv Q2. split; [|done]. unfold alen in *. simpl in *. lia.
Qed.

Lemma block_tick_one s i : on_block i s (tick_one hhdm s i).
Proof.
  unfold tick_one. cbv zeta. destruct (negb (used _)); [done|].
  set (s1 := if _ && _ then tcp_retransmit _ _ _ else s).
  assert (B1 : on_block i s s1) by (unfold s1; destruct (_ && _); [apply block_retransmit|done]). clearbody s1.
  set (s2 := if _ && _ then edit s1 i _ else s1).
  assert (B2 : on_block i s1 s2).
  { unfold s2. destruct (_ && _); [|done]. apply block_edit. constructor; [done|apply rtc_once; constructor|typed]. }
  clearbody s2. transitivity s1; [done|]. transitivity s2; [done|]. destruct (_ && _); [|done].
  apply block_edit. constructor; [done|apply rtc_once; constructor|typed].
Qed.

Lemma tick_one_evolves s i : evolves s (tick_one hhdm s i).
Proof. eapply block_evolves, block_tick_one. Qed.

Lemma tick_evolves s : evolves s (tcp_tick hhdm s).
Proof.
  unfold tcp_tick. generalize (seqZ 0 TCP_MAX_PCB). intros l. revert s.
  induction l as [|i l IH]; intros s; simpl; [done|]. etrans; [apply tick_one_evolves|apply IH].
Qed.

Lemma net_step_ok s s' : net_step s s' -> step_ok s s'.
Proof.
  intros []; [apply new_ok|apply destroy_ok|by apply tcp_bind_ok|apply listen_ok|by apply connect_ok|apply accept_ok| | | | | |by apply input_ok|].
  - eapply block_ok, block_write.
  - eapply block_ok, block_close_write.
  - eapply block_ok, block_edit. good.
  - unfold tcp_read. cbv zeta. cbn [fst]. destruct (_ || _); [by apply evolves_ok|]. eapply block_ok, block_edit. good.
  - eapply block_ok, block_edit. good.
  - destruct (tick_evolves (with_ticks s t)) as [(_ & _ & E) H]. constructor; [intros j; apply lives_edit, (H j)|].
    intros [N T]. split; [by rewrite E|]. intros j. apply (H j), T.
Qed.

(** The life of a block, whatever the widths of the fields: a free block becomes
    a closed one, or the child of a listening one; a closed block starts to
    listen or to connect.  (TcpMachine says exactly which state follows.) *)
Lemma net_step_life s s' (H : net_step s s') j :
  life (seen (g_pcbs s j)) (seen (g_pcbs s' j)) /\
  (seen (g_pcbs s j) = None -> seen (g_pcbs s' j) = Some TCPS_SYN_RCVD ->
   exists l, parent (g_pcbs s' j) = Some l /\ seen (g_pcbs s l) = Some TCPS_LISTEN).
Proof. destruct (net_step_ok _ _ H) as [L _]. destruct (L j); auto. Qed.

(** The state at boot. *)
Definition boot_net (m : mem) (pm : pmm) (ifs : Z -> netif) : net := Net m pm (fun _ => blank_pcb) 0 0x9E3779B9 0 ifs [].

(** C39: In every state reached from boot by calls, segments and ticks, every
    field of every block is within the width the code declares it with: the
    state is one of the eleven, sequence numbers and windows are 32-bit, ports
    and the peer's window 16-bit, the segment size at most 1460, the
    retransmission timeout at most 6000 ticks, and an accept queue holds at most
    four blocks. *)
Theorem tcp_well_typed m pm ifs s (H : rtc net_step (boot_net m pm ifs) s) j : pcb_typed (g_pcbs s j).
Proof.
  assert (N : net_typed (boot_net m pm ifs)) by (split; [done|intros; apply blank_typed]).
  revert N. generalize dependent (boot_net m pm ifs). intros s0 H N.
  induction H as [s|s s1 s2 St _ IH]; [apply N|]. apply IH. by apply (net_step_ok _ _ St).
Qed.
End State.

(** A host just after boot, and its first block. *)
Definition demo_hhdm : Z := 0xFFFF800000000000.
Definition demo_host (ip : Z) : net := boot_net (fun _ => 0) demo_pmm (fun _ => Netif ip true).
Definition demo_client : net := fst (pcb_alloc demo_hhdm 0 (demo_host 0x0A000001)).

Lemma tcp_well_typed_witness :
  rtc (net_step demo_hhdm 0) (demo_host 0x0A000001) demo_client /\ pcb_typed (g_pcbs demo_client 0).
Proof.
  assert (R : rtc (net_step demo_hhdm 0) (demo_host 0x0A000001) demo_client) by apply rtc_once, step_new.
  split; [exact R|]. exact (tcp_well_typed demo_hhdm 0 _ _ _ _ R 0).
Defined.
