(* ===== verification/TcpStream.v ===== *)
(** * The byte stream of Tcp

    The sender's invariant says that its ring holds the part of the written
    stream that is not acknowledged and that every segment it has sent carries a
    piece of the stream at the position its sequence number names, and its FIN the
    position after the last byte; the receiver's, that its ring holds the part of
    the stream received and not yet read, and that a FIN is counted as one more
    byte.  A position counts from the initial sequence number, which the SYN
    owns: data starts at position 1. *)
From S2P Require Import Prelude Mem Pmm Net Tcp TcpSeg TcpState.
#[local] Open Scope Z_scope.

(** ** What segments carry *)

Definition seg_flags (seg : list Z) : Z := aget 0 seg 13.
Definition seg_data (seg : list Z) : list Z := drop (Z.to_nat (Z.shiftr (aget 0 seg 12) 4 * 4)) seg.

(** A reset, or a piece of the stream [W] that starts at [iss].  [c] says that
    the writer has closed: a FIN ends the piece that ends the stream, and what
    follows it has no data. *)
Definition carries (iss : Z) (W : list Z) (c : bool) (seg : list Z) : Prop :=
  bit (seg_flags seg) TCP_RST = true \/
  exists x, 0 <= x /\ (1 <= x \/ seg_data seg = []) /\
    (x + alen (seg_data seg) <= Z.max 1 (alen W) \/ (c = true /\ seg_data seg = [] /\ x = alen W + 1)) /\
    (bit (seg_flags seg) TCP_FIN = true -> c = true /\ x + alen (seg_data seg) = alen W) /\
    net_get32 seg 4 = u32 (iss + x) /\ seg_data seg = take (length (seg_data seg)) (drop (Z.to_nat x) W).

Lemma take_drop_app {A} (l1 l2 : list A) x n :
  (x + n <= length l1)%nat \/ n = 0%nat -> take n (drop x (l1 ++ l2)) = take n (drop x l1).
Proof.
  intros [H| ->]; [|done]. rewrite drop_app_le by lia. rewrite take_app_le; [done|]. rewrite length_drop. lia.
Qed.

Lemma carries_app iss W l seg : carries iss W false seg -> carries iss (W ++ l) false seg.
Proof.
  intros [H|(x & H1 & H2 & H3 & H4 & H5 & H6)]; [by left|right]. exists x. rewrite alen_app.
  pose proof (alen_nonneg l). destruct H3 as [H3|[]]; [|done]. split; [done|]. split; [done|]. split; [left; lia|].
  split; [by intros []%H4|]. split; [done|].
  rewrite take_drop_app; [done|]. unfold alen in *. destruct (seg_data seg) eqn:E; simpl in *; [by right|left].
  destruct H2 as [H2|]; [|done]. lia.
Qed.

Lemma carries_close iss W c seg : carries iss W c seg -> carries iss W true seg.
Proof.
  intros [H|(x & H1 & H2 & H3 & H4 & H5 & H6)]; [by left|right]. exists x. split; [done|]. split; [done|].
  split; [destruct H3 as [?|(_ & ? & ?)]; [by left|by right]|]. split; [|done]. intros F. by destruct (H4 F).
Qed.

Lemma carries_segment iss W c src dst p flags data x :
  pcb_typed p -> 0 <= x -> (1 <= x \/ data = []) ->
  (x + alen data <= Z.max 1 (alen W) \/ (c = true /\ data = [] /\ x = alen W + 1)) ->
  (bit flags TCP_FIN = true -> c = true /\ x + alen data = alen W) ->
  data = take (length data) (drop (Z.to_nat x) W) -> carries iss W c (segment src dst p (u32 (iss + x)) flags data).
Proof.
  intros T H1 H2 H3 Hf H4. destruct (segment_fields src dst p (u32 (iss + x)) flags data T) as (_ & _ & Q & _ & L & F & _ & D & _);
    [apply u32_w32|]. unfold carries, seg_flags, seg_data. rewrite F, L, D. right. by exists x.
Qed.

Section Stream.
Context (hhdm ra : Z).
Notation ring_at := (ring_at hhdm).

(** ** The sender *)

Definition pages_apart (p : pcb) : Prop := apart (pmm_virt hhdm (tx_phys p)) 4096 (pmm_virt hhdm (rx_phys p)) 4096.

(** The states with a stream still open, and those after the FIN. *)
Definition settled (st : Z) : Prop := st = TCPS_ESTABLISHED \/ st = TCPS_CLOSE_WAIT \/ st = TCPS_CLOSED.
Definition parting (st : Z) : Prop :=
  st = TCPS_FIN_WAIT_1 \/ st = TCPS_FIN_WAIT_2 \/ st = TCPS_CLOSING \/ st = TCPS_LAST_ACK \/ st = TCPS_TIME_WAIT \/ st = TCPS_CLOSED.

(** Before the FIN is sent the next position is in the stream (the SYN's own
    position makes an exception of the empty one); after it, one past its end. *)
Definition phase (W : list Z) (c : bool) (a n : Z) (p : pcb) : Prop :=
  (fin_sent p = false /\ settled (state p) /\ (n <= alen W \/ (W = [] /\ a = 1 /\ n = 1 /\ rto_at p = 0))) \/
  (fin_sent p = true /\ parting (state p) /\ c = true /\ n = alen W + 1 /\ (a = n -> rto_at p = 0)).

(** [a] is the first position not acknowledged, [n] the next to be sent; [c]
    says that the writer has closed. *)
Record sender (iss : Z) (W : list Z) (c : bool) (i : Z) (s : net) (a n : Z) : Prop := {
  sn_typed : pcb_typed (g_pcbs s i);
  sn_phase : phase W c a n (g_pcbs s i);
  sn_queued : fin_queued (g_pcbs s i) = c;
  sn_closed : c = true -> 1 <= alen W;
  sn_una : snd_una (g_pcbs s i) = u32 (iss + a);
  sn_nxt : snd_nxt (g_pcbs s i) = u32 (iss + n);
  sn_end : snd_end (g_pcbs s i) = u32 (iss + alen W);
  sn_order : 1 <= a <= n;
  sn_window : alen W <= a + 4096;
  sn_ring : forall x, a <= x < alen W -> n_mem s (ring_at (tx_phys (g_pcbs s i)) (iss + x)) = aget 0 W x;
  sn_pages : pages_apart (g_pcbs s i);
  sn_out : Forall (carries iss W c) (map snd (out s))
}.

(** Something is in flight, or nothing has been closed: a timer may run. *)
Definition live (W : list Z) (a n : Z) : Prop := n <= alen W \/ a < n.

Lemma sender_reach iss W c i s a n : sender iss W c i s a n -> n <= alen W + 1 /\ a <= alen W + 1.
Proof. intros []. pose proof (alen_nonneg W). destruct sn_phase0 as [(_ & _ & [?|(-> & -> & -> & _)])|(_ & _ & _ & -> & _)]; lia. Qed.

Lemma unclosed_fin iss W i s a n : sender iss W false i s a n -> fin_sent (g_pcbs s i) = false.
Proof. intros []. by destruct sn_phase0 as [(? & _)|(_ & _ & ? & _)]. Qed.

Lemma sender_states iss W c i s a n : sender iss W c i s a n ->
  state (g_pcbs s i) <> TCPS_LISTEN /\ state (g_pcbs s i) <> TCPS_SYN_SENT /\ state (g_pcbs s i) <> TCPS_SYN_RCVD.
Proof.
  intros []. destruct sn_phase0 as [(_ & [E|[E|E]] & _)|(_ & [E|[E|[E|[E|[E|E]]]]] & _)]; rewrite E; done.
Qed.

(** What an edit must leave alone. *)
Record tx_same (p p' : pcb) : Prop := {
  ts_typed : pcb_typed p -> pcb_typed p';
  ts_una : snd_una p' = snd_una p;
  ts_nxt : snd_nxt p' = snd_nxt p;
  ts_end : snd_end p' = snd_end p;
  ts_fin : fin_queued p' = fin_queued p /\ fin_sent p' = fin_sent p;
  ts_tx : tx_phys p' = tx_phys p;
  ts_rx : rx_phys p' = rx_phys p;
  ts_state : (settled (state p) -> settled (state p')) /\ (parting (state p) -> parting (state p'))
}.

Lemma sender_edit iss W c i s a n f :
  sender iss W c i s a n -> tx_same (g_pcbs s i) (f (g_pcbs s i)) ->
  (live W a n \/ rto_at (f (g_pcbs s i)) = 0 \/ rto_at (f (g_pcbs s i)) = rto_at (g_pcbs s i)) ->
  sender iss W c i (edit s i f) a n.
Proof.
  intros [] [] Hr. destruct ts_fin0 as [Fq Fs]. constructor; rewrite ?edit_eq; try congruence; auto.
  - destruct ts_state0 as [S1 S2]. destruct sn_phase0 as [(P1 & P2 & P3)|(P1 & P2 & P3 & P4 & P5)]; [left|right]; rewrite Fs.
    + split; [done|]. split; [by apply S1|]. destruct P3 as [?|(? & ? & ? & P)]; [by left|].
      destruct Hr as [[?|?]|[?|E]]; [by left|lia|by right|right; by rewrite E].
    + split; [done|]. split; [by apply S2|]. split; [done|]. split; [done|]. intros Ea.
      destruct Hr as [[?|?]|[?|E]]; [lia|lia|done|]. rewrite E. by apply P5.
  - rewrite ts_tx0. done.
  - unfold pages_apart. by rewrite ts_tx0, ts_rx0.
Qed.

Lemma sender_emit iss W c i s a n p seq flags data :
  sender iss W c i s a n -> carries iss W c (segment (emit_src s p) (rip p) p seq flags data) ->
  sender iss W c i (tcp_emit s p seq flags data) a n.
Proof.
  intros [] C. rewrite tcp_emit_segment. constructor; try done. simpl. rewrite map_app, Forall_app. split; [done|].
  by constructor.
Qed.

(** Writing to the receive ring. *)
Lemma sender_rx_put iss W c i s a n seq data :
  sender iss W c i s a n -> sender iss W c i (with_mem s (ring_put hhdm (n_mem s) (rx_phys (g_pcbs s i)) seq data)) a n.
Proof.
  intros []. constructor; try done. intros x Hx. simpl. rewrite ring_put_outside; [by apply sn_ring0|].
  pose proof (ring_at_range hhdm (tx_phys (g_pcbs s i)) (iss + x)). unfold pages_apart, apart in *. lia.
Qed.

Ltac same := constructor; try done; typed.
(** The same, when the state changes, from a known one in the second case. *)
Ltac parts := constructor; try done; [typed|unfold settled, parting; simpl; split; tauto].
Ltac parts_from E := constructor; try done; [typed|rewrite E; unfold settled, parting; simpl; split; intuition done].

Lemma live_written iss W c i s a n : sender iss W c i s a n -> live W a n -> 1 <= alen W.
Proof. intros S L. destruct S, L; [lia|]. destruct sn_phase0 as [(_ & _ & [?|(_ & -> & -> & _)])|(_ & _ & -> & _)]; [lia|lia|by apply sn_closed0]. Qed.

Lemma sender_rto_arm iss W c i s a n : sender iss W c i s a n -> live W a n -> sender iss W c i (rto_arm s i) a n.
Proof. intros S H. apply sender_edit; [done|same|by left]. Qed.

(** A segment without data, at the next position. *)
Lemma sender_ack iss W c i s a n : sender iss W c i s a n -> sender iss W c i (tcp_send_ack s i) a n.
Proof.
  intros S. apply sender_emit; [done|]. destruct S. rewrite sn_nxt0. apply carries_segment; try done; try lia.
  change (alen []) with 0. destruct sn_phase0 as [(_ & _ & [?|(-> & _ & -> & _)])|(_ & _ & ? & ? & _)];
    [left; lia|by left|by right].
Qed.

Lemma can_send_open iss W c i s a n : sender iss W c i s a n -> can_send (g_pcbs s i) = true -> 1 <= alen W ->
  fin_sent (g_pcbs s i) = false /\ n <= alen W.
Proof.
  intros [] C HW. destruct sn_phase0 as [(H & _ & [?|(-> & _)])|(_ & [E|[E|[E|[E|[E|E]]]]] & _)]; [done|done|..];
    unfold can_send in C; rewrite E in C; done.
Qed.

Lemma sendable_bounds p : pcb_typed p -> 0 <= sendable p <= u32 (snd_end p - snd_nxt p) /\ sendable p <= TCP_MSS.
Proof.
  intros []. unfold sendable, min3. pose proof (u32_range (snd_end p - snd_nxt p)). pose proof (u32_range (snd_nxt p - snd_una p)).
  unfold w16, w32 in *. cbv zeta.
  assert (0 <= (if snd_wnd p <? cwnd p then snd_wnd p else cwnd p)) by (destruct (snd_wnd p <? cwnd p); lia).
  generalize dependent (if snd_wnd p <? cwnd p then snd_wnd p else cwnd p). intros w Hw.
  assert (0 <= (if u32 (snd_nxt p - snd_una p) <? w then w - u32 (snd_nxt p - snd_una p) else 0)) by
    (destruct (Z.ltb_spec (u32 (snd_nxt p - snd_una p)) w); lia).
  generalize dependent (if u32 (snd_nxt p - snd_una p) <? w then w - u32 (snd_nxt p - snd_una p) else 0). intros v Hv.
  destruct (Z.ltb_spec (u32 (snd_end p - snd_nxt p)) v).
  - destruct (Z.ltb_spec (u32 (snd_end p - snd_nxt p)) (snd_mss p)); lia.
  - destruct (Z.ltb_spec v (snd_mss p)); lia.
Qed.

Lemma window_take iss W c i s a n x m :
  sender iss W c i s a n -> a <= x -> 0 <= m -> x + m <= alen W ->
  ring_get hhdm (n_mem s) (tx_phys (g_pcbs s i)) (u32 (iss + x)) m = take (Z.to_nat m) (drop (Z.to_nat x) W).
Proof.
  intros [] Hx Hm Hl. apply ring_get_window; [lia|lia|done|]. intros y Hy. apply sn_ring0. lia.
Qed.

Lemma take_len_drop (W : list Z) x m :
  0 <= x -> 0 <= m -> x + m <= alen W -> length (take (Z.to_nat m) (drop (Z.to_nat x) W)) = Z.to_nat m.
Proof. intros. unfold alen in *. rewrite length_take, length_drop. lia. Qed.

(** A segment with a piece of the stream. *)
Lemma sender_emit_data iss W c i s a n x m flags :
  sender iss W c i s a n -> a <= x -> 0 <= m -> x + m <= alen W ->
  (bit flags TCP_FIN = true -> c = true /\ x + m = alen W) ->
  sender iss W c i (tcp_emit s (g_pcbs s i) (u32 (iss + x)) flags
    (ring_get hhdm (n_mem s) (tx_phys (g_pcbs s i)) (u32 (iss + x)) m)) a n.
Proof.
  intros S Hx Hm Hl Hf. apply sender_emit; [done|]. rewrite (window_take _ _ _ _ _ _ _ _ _ S) by done. destruct S.
  assert (L : alen (take (Z.to_nat m) (drop (Z.to_nat x) W)) = m) by (unfold alen at 1; rewrite take_len_drop by lia; lia).
  apply carries_segment; rewrite ?L; try done; [lia|left; lia|left; lia|].
  - by rewrite take_len_drop by lia.
Qed.

Lemma sender_output_data iss W c i s a n :
  sender iss W c i s a n -> can_send (g_pcbs s i) = true -> 1 <= alen W ->
  exists n', sender iss W c i (output_data hhdm s i) a n' /\ can_send (g_pcbs (output_data hhdm s i) i) = true.
Proof.
  intros S C HW. destruct (can_send_open _ _ _ _ _ _ _ S C HW) as [Hf Hn]. unfold output_data. cbv zeta.
  destruct (Z.eqb_spec (sendable (g_pcbs s i)) 0); [by exists n|].
  destruct (sendable_bounds (g_pcbs s i) (sn_typed _ _ _ _ _ _ _ S)) as [Hb Hm]. pose proof (sn_order _ _ _ _ _ _ _ S) as Ho.
  pose proof (sn_window _ _ _ _ _ _ _ S) as Hw. rewrite (sn_end _ _ _ _ _ _ _ S), (sn_nxt _ _ _ _ _ _ _ S), u32_diff in Hb by lia.
  set (m := sendable _) in *. exists (n + m). rewrite (sn_nxt _ _ _ _ _ _ _ S).
  assert (E : sender iss W c i (tcp_emit s (g_pcbs s i) (u32 (iss + n)) (Z.lor TCP_ACK TCP_PSH)
    (ring_get hhdm (n_mem s) (tx_phys (g_pcbs s i)) (u32 (iss + n)) m)) a n) by (apply sender_emit_data; [done|lia..|done]).
  set (s1 := tcp_emit _ _ _ _ _) in *. assert (Es : g_pcbs s1 i = g_pcbs s i) by done. clearbody s1.
  split; [apply sender_rto_arm; [|left; lia]|unfold rto_arm; rewrite !edit_eq, Es; exact C]. destruct E.
  constructor; rewrite ?edit_eq; try done; auto; simpl.
  - revert sn_typed0. typed.
  - left. rewrite Es in *. simpl. destruct sn_phase0 as [(_ & H & _)|(H & _)]; [|congruence]. split; [done|]. split; [done|]. left. lia.
  - rewrite u32_add_l. f_equal. lia.
  - lia.
Qed.

(** The FIN goes out after the last byte, and the stream is left. *)
Lemma sender_output_fin iss W c i s a n :
  sender iss W c i s a n -> can_send (g_pcbs s i) = true -> 1 <= alen W -> exists n', sender iss W c i (output_fin s i) a n'.
Proof.
  intros S C HW. destruct (can_send_open _ _ _ _ _ _ _ S C HW) as [Hf Hn]. unfold output_fin. cbv zeta.
  destruct (_ && _ && _) eqn:E; [|by exists n]. apply andb_true_iff in E as [[Hq _]%andb_true_iff Hend%Z.eqb_eq].
  pose proof (sn_order _ _ _ _ _ _ _ S) as Ho. pose proof (sn_window _ _ _ _ _ _ _ S) as Hw.
  rewrite (sn_end _ _ _ _ _ _ _ S), (sn_nxt _ _ _ _ _ _ _ S) in Hend. apply u32_eq_near in Hend; [|lia].
  assert (Hc : c = true) by (rewrite <- (sn_queued _ _ _ _ _ _ _ S); done).
  assert (E : sender iss W c i (tcp_emit s (g_pcbs s i) (snd_nxt (g_pcbs s i)) (Z.lor TCP_ACK TCP_FIN) []) a n).
  { apply sender_emit; [done|]. rewrite (sn_nxt _ _ _ _ _ _ _ S). apply carries_segment; [apply (sn_typed _ _ _ _ _ _ _ S)|lia|by right| | |done];
      change (alen []) with 0; [left; lia|intros _; split; [done|lia]]. }
  set (s1 := tcp_emit _ _ _ _ _) in *. assert (Es : g_pcbs s1 i = g_pcbs s i) by done. clearbody s1. clear S.
  rewrite <- Es in *. clear Es s. exists (n + 1). set (s2 := rto_arm _ i).
  assert (F : forall st, parting st -> 0 <= st <= 10 -> sender iss W c i (edit s2 i (set_state st)) a (n + 1)).
  { intros st Hst Hst0. unfold s2, rto_arm. destruct E. constructor; rewrite ?edit_eq; try done; simpl; try lia.
    - revert sn_typed0. typed.
    - right. do 3 (split; [done|]). split; [lia|]. intros. lia.
    - rewrite sn_nxt0, u32_add_l. f_equal. lia. }
  clearbody s2. unfold can_send in C. destruct (Z.eqb_spec (state (g_pcbs s1 i)) TCPS_ESTABLISHED);
    [|cbn [orb] in C; rewrite C]; apply F; unfold parting; auto 6; done.
Qed.

Lemma sender_output iss W c i s a n :
  sender iss W c i s a n -> 1 <= alen W -> exists n', sender iss W c i (tcp_output hhdm s i) a n'.
Proof.
  intros S HW. unfold tcp_output. destruct (can_send _) eqn:C; cbn [negb]; [|by exists n].
  destruct (sender_output_data _ _ _ _ _ _ _ S C HW) as (n' & S' & C'). by eapply sender_output_fin.
Qed.

Lemma sender_close_write iss W c i s a n : sender iss W c i s a n -> 1 <= alen W ->
  let '(s', r) := tcp_close_write hhdm s i in exists c' n', sender iss W c' i s' a n' /\ (c = true -> c' = true).
Proof.
  intros S HW. unfold tcp_close_write. destruct (negb _) eqn:C; [by exists c, n|]. apply negb_false_iff in C. exists true.
  assert (S1 : sender iss W true i (edit s i (set_fin_queued true)) a n).
  { pose proof (can_send_open _ _ _ _ _ _ _ S C HW) as [Hf Hn]. destruct S. constructor; rewrite ?edit_eq; try done.
    - revert sn_typed0. typed.
    - left. destruct sn_phase0 as [(_ & H & _)|(H & _)]; [|congruence]. split; [done|]. split; [done|]. by left.
    - eapply Forall_impl; [done|]. intros ? H. by eapply carries_close. }
  destruct (sender_output _ _ _ _ _ _ _ S1 HW) as (n' & S2). by exists n'.
Qed.

Lemma sender_retransmit_segment iss W c i s a n :
  sender iss W c i s a n -> live W a n -> sender iss W c i (retransmit_segment hhdm s i) a n.
Proof.
  intros S L. pose proof (live_written _ _ _ _ _ _ _ S L) as HW. destruct (sender_states _ _ _ _ _ _ _ S) as (_ & N1 & N2).
  destruct (sender_reach _ _ _ _ _ _ _ S) as [Hn Ha]. pose proof S as []. unfold retransmit_segment. cbv zeta.
  destruct (Z.eqb_spec (state (g_pcbs s i)) TCPS_SYN_SENT); [done|].
  destruct (Z.eqb_spec (state (g_pcbs s i)) TCPS_SYN_RCVD); [done|].
  assert (Hl : a <= alen W) by (destruct L; lia). rewrite sn_una0, sn_end0, u32_diff by lia. destruct sn_typed0.
  replace (iss + alen W - (iss + a)) with (alen W - a) by lia.
  set (m := if alen W - a <? snd_mss (g_pcbs s i) then alen W - a else snd_mss (g_pcbs s i)). assert (0 <= m <= alen W - a) by
    (unfold m; destruct (Z.ltb_spec (alen W - a) (snd_mss (g_pcbs s i))); lia). clearbody m.
  apply sender_emit_data; [done|lia|lia|lia|]. rewrite u32_add_l.
  destruct (fin_sent (g_pcbs s i)) eqn:Hf; cbn [andb]; [|by destruct (m =? 0)].
  destruct (Z.eqb_spec (u32 (iss + a + m)) (u32 (iss + alen W))) as [E|]; [|by destruct (m =? 0)]. intros _.
  apply u32_eq_near in E; [|lia]. split; [|lia]. by destruct sn_phase0 as [(? & _)|(_ & _ & ? & _)]; [congruence|].
Qed.

Lemma sender_retransmit iss W c i s a n :
  sender iss W c i s a n -> live W a n -> sender iss W c i (tcp_retransmit hhdm s i) a n.
Proof.
  intros S H. unfold tcp_retransmit. set (s1 := edit s i _).
  assert (S1 : sender iss W c i s1 a n) by (apply sender_edit; [done|same|by left]). clearbody s1. clear S s.
  destruct (_ <? _); [apply sender_edit; [done|parts|by right; left]|]. apply sender_rto_arm; [|done].
  apply sender_edit; [by apply sender_retransmit_segment| |by left]. constructor; try done. intros T.
  pose proof (mss_of_range _ T). pose proof (half_cwnd_range _ T). unfold TCP_MSS, NET_MTU in *. revert T. typed.
  unfold TCP_RTO_MAX in *. rewrite u32_small by lia. match goal with |- context [?a <? 6000] => destruct (Z.ltb_spec a 6000) end; lia.
Qed.

Lemma carries_out_app iss W l s :
  Forall (carries iss W false) (map snd (out s)) -> Forall (carries iss (W ++ l) false) (map snd (out s)).
Proof. intros H. eapply Forall_impl; [exact H|]. intros. by apply carries_app. Qed.

Lemma aget_app_l (l1 l2 : list Z) x : x < alen l1 -> aget 0 (l1 ++ l2) x = aget 0 l1 x.
Proof. unfold aget, alen. intros. destruct (Z.ltb_spec x 0); [done|]. by rewrite app_nth1 by lia. Qed.

(** Bytes put at the end of the stream. *)
Lemma sender_put iss W i s a n data :
  sender iss W false i s a n -> data <> [] -> alen (W ++ data) <= a + 4096 ->
  sender iss (W ++ data) false i (edit (with_mem s (ring_put hhdm (n_mem s) (tx_phys (g_pcbs s i)) (snd_end (g_pcbs s i)) data)) i
    (set_snd_end (u32 (snd_end (g_pcbs s i) + alen data)))) a n.
Proof.
  intros [] Hd Hw. pose proof (alen_nonneg W). assert (0 < alen data) by (destruct data; [done|rewrite alen_cons; pose proof (alen_nonneg data); lia]).
  rewrite alen_app in Hw. constructor; rewrite ?edit_eq; try done; simpl.
  - revert sn_typed0. typed.
  - destruct sn_phase0 as [(H1 & H2 & H3)|(_ & _ & ? & _)]; [left|done]. split; [done|]. split; [done|]. left. rewrite alen_app.
    destruct H3 as [?|(-> & _ & -> & _)]; [lia|]. change (alen []) with 0. lia.
  - rewrite sn_end0, u32_add_l, alen_app. f_equal. lia.
  - rewrite alen_app. lia.
  - intros x Hx. rewrite alen_app in Hx. rewrite sn_end0, (ring_put_u32 hhdm _ _ _ _ (iss + alen W)) by
      (unfold u32; by rewrite Z.mod_mod). rewrite ring_put_spec by lia.
    destruct (Z.ltb_spec (iss + x) (iss + alen W)).
    + rewrite sn_ring0 by lia. by rewrite aget_app_l by lia.
    + rewrite aget_app by lia. f_equal. lia.
  - by apply carries_out_app.
Qed.

(** A refusal accepts nothing. *)
Lemma refused_app (W buf : list Z) r : r <= 0 -> W ++ take (Z.to_nat r) buf = W.
Proof. intros. replace (Z.to_nat r) with 0%nat by lia. by rewrite take_0, app_nil_r. Qed.

Lemma sender_write iss W c i s a n buf :
  sender iss W c i s a n ->
  let '(s', r) := tcp_write hhdm s i buf in
  (exists n', sender iss (W ++ take (Z.to_nat r) buf) c i s' a n') /\ (c = true -> r <= 0).
Proof.
  intros S. unfold tcp_write. destruct (can_send (g_pcbs s i)) eqn:C; cbn [negb].
  2: { pose proof (sn_typed _ _ _ _ _ _ _ S) as T. assert ((if error (g_pcbs s i) =? 0 then - E_NOTCONN else - error (g_pcbs s i)) <= 0)
         by (destruct T; destruct (Z.eqb_spec (error (g_pcbs s i)) 0); [done|lia]).
       split; [exists n; by rewrite refused_app|done]. }
  rewrite (sn_queued _ _ _ _ _ _ _ S). destruct c; [split; [exists n; by rewrite refused_app|done]|]. cbv zeta.
  set (space := u32 (TCP_BUF_SIZE - _)). set (m := if alen buf <? space then alen buf else space).
  pose proof (alen_nonneg W) as HW. pose proof (alen_nonneg buf). pose proof (sn_order _ _ _ _ _ _ _ S) as Ho.
  pose proof (sn_window _ _ _ _ _ _ _ S) as Hw. destruct (sender_reach _ _ _ _ _ _ _ S) as [Hr1 Hend].
  assert (Es : space = a + 4096 - alen W).
  { unfold space. rewrite (sn_end _ _ _ _ _ _ _ S), (sn_una _ _ _ _ _ _ _ S), u32_sub. unfold TCP_BUF_SIZE, u32.
    rewrite Zminus_mod_idemp_r. rewrite Z.mod_small; lia. }
  assert (Hm : 0 <= m <= alen buf /\ m <= space) by (unfold m; destruct (Z.ltb_spec (alen buf) space); lia). clearbody m space.
  destruct (Z.eqb_spec m 0) as [->|Hm0]; [split; [exists n; by rewrite refused_app|done]|].
  set (data := take (Z.to_nat m) buf). assert (Hl : alen data = m) by (unfold data, alen in *; rewrite length_take; lia).
  assert (Hd : data <> []) by (intros E; rewrite E in Hl; change (alen []) with 0 in Hl; lia).
  pose proof (sender_put iss W i s a n data S Hd) as P. rewrite alen_app, Hl in P. specialize (P ltac:(lia)).
  split; [|done]. refine (sender_output _ _ _ _ _ _ _ P _). rewrite alen_app, Hl. lia.
Qed.

(** New data acknowledged, up to position [k]. *)
Lemma sender_progress iss W c i s a n k :
  sender iss W c i s a n -> a < k <= n ->
  exists n', sender iss W c i (ack_progress hhdm s i (u32 (iss + k))) k n'.
Proof.
  intros S Hk. pose proof (live_written _ _ _ _ _ _ _ S ltac:(right; lia)) as HW. destruct (sender_reach _ _ _ _ _ _ _ S) as [Hn _].
  pose proof (sn_window _ _ _ _ _ _ _ S) as Hw. unfold ack_progress. cbv zeta. set (s1 := edit s i _).
  assert (S1 : forall t, (k = n -> t = 0) -> sender iss W c i (edit s1 i (set_rto_at t)) k n).
  { intros t Ht. unfold s1. destruct S. constructor; rewrite ?edit_eq; try done; auto; simpl; try lia.
    - revert sn_typed0. typed.
    - destruct sn_phase0 as [(H1 & H2 & H3)|(H1 & H2 & H3 & H4 & H5)]; [left|right]; simpl.
      + split; [done|]. split; [done|]. left. destruct H3 as [?|(-> & _)]; [done|done].
      + done.
    - intros x Hx. apply sn_ring0. lia. }
  assert (N1 : snd_una (g_pcbs s1 i) = u32 (iss + k) /\ snd_nxt (g_pcbs s1 i) = u32 (iss + n)).
  { unfold s1. rewrite edit_eq. split; [done|]. apply (sn_nxt _ _ _ _ _ _ _ S). }
  destruct N1 as [-> ->]. clearbody s1. destruct (Z.eqb_spec (u32 (iss + k)) (u32 (iss + n))) as [E|E].
  - eapply sender_output; [by apply S1|done].
  - eapply sender_output; [apply S1|done]. intros ->. done.
Qed.

Lemma sender_duplicate iss W c i s a n :
  sender iss W c i s a n -> live W a n -> sender iss W c i (ack_duplicate hhdm s i) a n.
Proof.
  intros S H. unfold ack_duplicate. cbv zeta. set (s1 := edit s i _).
  assert (S1 : sender iss W c i s1 a n) by (apply sender_edit; [done|same|by left]). clearbody s1.
  destruct (_ =? 3); [|done]. apply sender_retransmit; [|done]. apply sender_edit; [done| |by left].
  constructor; try done. intros T. pose proof (half_cwnd_range _ T). revert T. typed.
Qed.

Lemma sender_fin_acked iss W c i s a n : sender iss W c i s a n -> sender iss W c i (fin_acked s i) a n.
Proof.
  intros S. unfold fin_acked. cbv zeta. destruct (_ && _); [|done].
  destruct (Z.eqb_spec (state (g_pcbs s i)) TCPS_FIN_WAIT_1) as [E|_];
    [|destruct (Z.eqb_spec (state (g_pcbs s i)) TCPS_CLOSING) as [E|_];
      [|destruct (Z.eqb_spec (state (g_pcbs s i)) TCPS_LAST_ACK) as [E|_]; [|done]]];
    (apply sender_edit; [done|parts_from E|by right; right]).
Qed.

Lemma sender_input_ack iss W c i s a n sack :
  sender iss W c i s a n -> w32 sack -> sack <> antipode (snd_una (g_pcbs s i)) ->
  exists s' a' n', input_ack hhdm s i sack = Some s' /\ sender iss W c i s' a' n'.
Proof.
  intros S Hs Ha. unfold input_ack. cbv zeta. destruct (sender_states _ _ _ _ _ _ _ S) as (_ & _ & N).
  rewrite (sn_una _ _ _ _ _ _ _ S), (sn_nxt _ _ _ _ _ _ _ S) in *.
  pose proof (sn_order _ _ _ _ _ _ _ S). pose proof (sn_window _ _ _ _ _ _ _ S) as Hw. destruct (sender_reach _ _ _ _ _ _ _ S) as [Hr _].
  assert (Hn : 0 <= n - a < 2 ^ 31) by lia.
  destruct (Z.eqb_spec (state (g_pcbs s i)) TCPS_SYN_RCVD) as [E|]; [done|].
  destruct (seq_lt (u32 (iss + a)) sack && seq_leq sack (u32 (iss + n))) eqn:P.
  - apply andb_true_iff in P as [P1 P2]. destruct (ack_window (iss + a) (iss + n) sack) as (k & Hk & ->); try done; [lia|].
    destruct (sender_progress iss W c i s a n (k - iss) S ltac:(lia)) as (n' & S').
    replace (iss + (k - iss)) with k in S' by lia. eexists _, _, _. split; [done|]. by apply sender_fin_acked.
  - rewrite seq_lt_near by lia. destruct (Z.ltb_spec (iss + a) (iss + n)); eexists _, a, n; (split; [done|]); apply sender_fin_acked; [|done].
    apply sender_duplicate; [done|]. right. lia.
Qed.

Lemma sender_input_fin iss W c i s a n : sender iss W c i s a n -> sender iss W c i (input_fin s i) a n.
Proof.
  intros S. unfold input_fin. cbv zeta. set (s1 := edit s i _).
  assert (S1 : sender iss W c i s1 a n) by (apply sender_edit; [done|same|by right; right]). clearbody s1. clear S s.
  destruct (Z.eqb_spec (state (g_pcbs s1 i)) TCPS_ESTABLISHED) as [E|_];
    [apply sender_edit; [done|parts_from E|by right; right]|].
  destruct (Z.eqb_spec (state (g_pcbs s1 i)) TCPS_FIN_WAIT_1) as [E|_].
  - destruct (_ && _); (apply sender_edit; [done|parts_from E|by right; right]).
  - destruct (Z.eqb_spec (state (g_pcbs s1 i)) TCPS_FIN_WAIT_2) as [E|_]; [|done].
    apply sender_edit; [done|parts_from E|by right; right].
Qed.

Lemma sender_input_text iss W c i s a n sseq data flags :
  sender iss W c i s a n -> sender iss W c i (input_text hhdm s i sseq data flags) a n.
Proof.
  intros S. unfold input_text. cbv zeta. destruct (_ =? TCPS_CLOSED); [done|]. destruct (negb (sseq =? _)).
  { match goal with |- context [if ?b then _ else _] => destruct b end; [by apply sender_ack|done]. }
  set (s1 := if alen data =? 0 then s else _).
  assert (S1 : sender iss W c i s1 a n).
  { unfold s1. destruct (_ =? 0); [done|]. unfold input_data. cbv zeta.
    apply sender_edit; [|same|by right; right]. destruct (rx_shutdown _); [done|by apply sender_rx_put]. }
  clearbody s1. set (s2 := if bit flags TCP_FIN then input_fin s1 i else s1).
  assert (S2 : sender iss W c i s2 a n) by (unfold s2; destruct (bit flags TCP_FIN); [by apply sender_input_fin|done]).
  clearbody s2. match goal with |- context [if ?b then _ else _] => destruct b end; [by apply sender_ack|done].
Qed.

(** Any segment for the sender's block, but for the acknowledgement half the
    sequence space ahead. *)
Lemma sender_input_conn iss W c i s a n src dst seg hdrlen flags :
  sender iss W c i s a n -> Forall byte seg -> net_get32 seg 8 <> antipode (snd_una (g_pcbs s i)) ->
  exists a' n', sender iss W c i (input_conn hhdm s i src dst seg hdrlen flags) a' n'.
Proof.
  intros S Hb Ha. unfold input_conn. cbv zeta. destruct (bit flags TCP_RST).
  { exists a, n. apply sender_edit; [done|parts|by right; left]. }
  destruct (Z.eqb_spec (state (g_pcbs s i)) TCPS_SYN_SENT) as [E|].
  { by destruct (sender_states _ _ _ _ _ _ _ S) as (_ & N & _). }
  destruct (bit flags TCP_ACK); [|exists a, n; by apply sender_input_text].
  destruct (sender_input_ack iss W c i s a n (net_get32 seg 8) S) as (s' & a' & n' & -> & S'); [by apply get32_w32|done|].
  exists a', n'. by apply sender_input_text.
Qed.

Lemma sender_shutdown_read iss W c i s a n : sender iss W c i s a n -> sender iss W c i (tcp_shutdown_read s i) a n.
Proof. intros S. apply sender_edit; [done|same|by right; right]. Qed.

Lemma sender_tick iss W c i s a n t : sender iss W c i s a n -> sender iss W c i (tick_one hhdm (with_ticks s t) i) a n.
Proof.
  intros S. assert (S0 : sender iss W c i (with_ticks s t) a n) by (by destruct S). revert S0. generalize (with_ticks s t). clear s S.
  intros s S. unfold tick_one. cbv zeta. destruct (negb (used _)); [done|].
  set (s1 := if _ && _ then tcp_retransmit _ _ _ else s).
  assert (S1 : sender iss W c i s1 a n).
  { unfold s1. destruct (_ && _) eqn:E; [|done]. apply andb_true_iff in E as [E _]. apply sender_retransmit; [done|].
    apply negb_true_iff, Z.eqb_neq in E. pose proof (sn_order _ _ _ _ _ _ _ S). unfold live.
    destruct (sn_phase _ _ _ _ _ _ _ S) as [(_ & _ & [?|(_ & _ & _ & R)])|(_ & _ & _ & _ & R)]; [by left|done|right].
    destruct (Z.eq_dec a n) as [Ea|]; [by apply R in Ea|lia]. }
  clearbody s1. clear S s. set (s2 := if _ && _ then edit s1 i _ else s1).
  assert (S2 : sender iss W c i s2 a n).
  { unfold s2. destruct (_ && _); [|done]. apply sender_edit; [done|parts|by right; left]. }
  clearbody s2. destruct (_ && _); [|done]. apply sender_edit; [done|parts|by right; right].
Qed.

Lemma sender_read iss W c i s a n len peek : sender iss W c i s a n -> sender iss W c i (fst (tcp_read hhdm s i len peek)) a n.
Proof.
  intros S. unfold tcp_read. cbv zeta. cbn [fst]. destruct (_ || _); [done|]. apply sender_edit; [done|same|by right; right].
Qed.

(** ** The receiver *)

(** Past the handshake. *)
Definition synced (st : Z) : Prop := st = TCPS_CLOSED \/ 4 <= st.

Lemma coarse_synced st st' : rtc coarse_edge st st' -> synced st -> synced st'.
Proof.
  unfold synced. induction 1 as [|x y z E _ IH]; [done|]. intros H. apply IH.
  destruct E; unfold TCPS_CLOSED, TCPS_ESTABLISHED, TCPS_FIN_WAIT_1, TCPS_FIN_WAIT_2, TCPS_CLOSE_WAIT, TCPS_CLOSING, TCPS_LAST_ACK,
    TCPS_TIME_WAIT in *; lia.
Qed.

(** The receiving half of a block is left alone. *)
Record keeps (i : Z) (s s' : net) : Prop := {
  kp_edge : rtc coarse_edge (state (g_pcbs s i)) (state (g_pcbs s' i));
  kp_mem : forall a, ~ (pmm_virt hhdm (tx_phys (g_pcbs s i)) <= a < pmm_virt hhdm (tx_phys (g_pcbs s i)) + 4096) ->
    n_mem s' a = n_mem s a;
  kp_nxt : rcv_nxt (g_pcbs s' i) = rcv_nxt (g_pcbs s i);
  kp_read : rcv_read (g_pcbs s' i) = rcv_read (g_pcbs s i);
  kp_fin : fin_seen (g_pcbs s' i) = fin_seen (g_pcbs s i);
  kp_shut : rx_shutdown (g_pcbs s' i) = rx_shutdown (g_pcbs s i);
  kp_rx : rx_phys (g_pcbs s' i) = rx_phys (g_pcbs s i);
  kp_tx : tx_phys (g_pcbs s' i) = tx_phys (g_pcbs s i)
}.

#[local] Instance keeps_preorder i : PreOrder (keeps i).
Proof.
  split; [by constructor|]. intros s1 s2 s3 [A1 A2 A3 A4 A5 A6 A7 A8] [B1 B2 B3 B4 B5 B6 B7 B8].
  constructor; try congruence; [by etrans|]. intros a Ha. rewrite B2, A2; [done|done|by rewrite A8].
Qed.

(** An edit of the sending half. *)
Definition rx_same (p p' : pcb) : Prop :=
  rcv_nxt p' = rcv_nxt p /\ rcv_read p' = rcv_read p /\ fin_seen p' = fin_seen p /\ rx_shutdown p' = rx_shutdown p /\
  rx_phys p' = rx_phys p /\ tx_phys p' = tx_phys p.

Lemma keeps_of s s' i :
  rtc coarse_edge (state (g_pcbs s i)) (state (g_pcbs s' i)) -> n_mem s' = n_mem s ->
  rx_same (g_pcbs s i) (g_pcbs s' i) -> keeps i s s'.
Proof. intros B M (? & ? & ? & ? & ? & ?). constructor; try done. intros. by rewrite M. Qed.

Lemma keeps_edit s i f :
  rtc coarse_edge (state (g_pcbs s i)) (state (f (g_pcbs s i))) -> rx_same (g_pcbs s i) (f (g_pcbs s i)) -> keeps i s (edit s i f).
Proof. intros. apply keeps_of; rewrite ?edit_eq; done. Qed.
Lemma keeps_emit s i p seq flags data : keeps i s (tcp_emit s p seq flags data).
Proof. by apply keeps_of. Qed.
Lemma keeps_rto_arm s i : keeps i s (rto_arm s i).
Proof. apply keeps_edit; done. Qed.

Lemma rx_same_trans p1 p2 p3 : rx_same p1 p2 -> rx_same p2 p3 -> rx_same p1 p3.
Proof. unfold rx_same. intros (? & ? & ? & ? & ? & ?) (? & ? & ? & ? & ? & ?). repeat split; congruence. Qed.

Lemma output_data_rx s i : n_mem (output_data hhdm s i) = n_mem s /\ rx_same (g_pcbs s i) (g_pcbs (output_data hhdm s i) i).
Proof. unfold output_data, rto_arm. cbv zeta. destruct (_ =? 0); [done|]. by rewrite !edit_eq. Qed.

Lemma output_fin_rx s i : n_mem (output_fin s i) = n_mem s /\ rx_same (g_pcbs s i) (g_pcbs (output_fin s i) i).
Proof.
  unfold output_fin, rto_arm. cbv zeta. destruct (_ && _ && _); [|done].
  destruct (_ =? _); [by rewrite !edit_eq|]. destruct (_ =? _); by rewrite !edit_eq.
Qed.

Lemma keeps_output s i : keeps i s (tcp_output hhdm s i).
Proof.
  unfold tcp_output. destruct (negb _); [done|]. destruct (output_data_rx s i), (output_fin_rx (output_data hhdm s i) i).
  transitivity (output_data hhdm s i); apply keeps_of; try done; [apply block_output_data|apply block_output_fin].
Qed.

Lemma keeps_write s i buf : keeps i s (fst (tcp_write hhdm s i buf)).
Proof.
  unfold tcp_write. destruct (negb _); [done|]. destruct (fin_queued _); [done|]. cbv zeta.
  match goal with |- context [if ?m =? 0 then _ else _] => destruct (m =? 0) end; [done|]. cbn [fst].
  etrans; [|apply keeps_output]. etrans; [|apply keeps_edit; done].
  constructor; try done. intros a Ha. by apply ring_put_outside.
Qed.

Lemma keeps_close_write s i : keeps i s (fst (tcp_close_write hhdm s i)).
Proof.
  unfold tcp_close_write. destruct (negb _); [done|]. cbn [fst]. etrans; [|apply keeps_output]. apply keeps_edit; done.
Qed.

Lemma keeps_retransmit s i : keeps i s (tcp_retransmit hhdm s i).
Proof.
  apply keeps_of; [apply block_retransmit|unfold tcp_retransmit, rto_arm, retransmit_segment; cbv zeta..].
  - destruct (_ <? _); [done|]. destruct (_ =? _); [done|]. by destruct (_ =? _).
  - destruct (_ <? _); [by rewrite !edit_eq|]. rewrite !edit_eq. destruct (_ =? _); [by simpl; rewrite !upd_eq|].
    destruct (_ =? _); simpl; by rewrite !upd_eq.
Qed.

Lemma keeps_fin_acked s i : keeps i s (fin_acked s i).
Proof.
  apply keeps_of; [apply block_fin_acked|unfold fin_acked; cbv zeta..].
  - destruct (_ && _); [|done]. destruct (_ =? _); [done|]. destruct (_ =? _); [done|]. by destruct (_ =? _).
  - destruct (_ && _); [|done]. destruct (_ =? _); [by rewrite edit_eq|]. destruct (_ =? _); [by rewrite edit_eq|].
    destruct (_ =? _); [by rewrite edit_eq|done].
Qed.

Lemma ack_keeps s i sack : synced (state (g_pcbs s i)) -> exists s', input_ack hhdm s i sack = Some s' /\ keeps i s s'.
Proof.
  intros Hy. unfold input_ack. cbv zeta. destruct (Z.eqb_spec (state (g_pcbs s i)) TCPS_SYN_RCVD) as [E|].
  { rewrite E in Hy. destruct Hy; [done|]. unfold TCPS_SYN_RCVD in *. lia. }
  destruct (_ && _); [|destruct (seq_lt _ _)]; (eexists; split; [done|]); (etrans; [|apply keeps_fin_acked]); [| |done].
  - unfold ack_progress. cbv zeta. etrans; [|apply keeps_output]. set (s1 := edit s i _).
    assert (K : keeps i s s1) by (apply keeps_edit; done). clearbody s1. transitivity s1; [done|].
    destruct (_ =? _); [apply keeps_edit; done|apply keeps_rto_arm].
  - unfold ack_duplicate. cbv zeta. set (s1 := edit s i _). assert (K : keeps i s s1) by (apply keeps_edit; done).
    clearbody s1. transitivity s1; [done|]. destruct (_ =? 3); [|done]. etrans; [|apply keeps_retransmit].
    by apply keeps_edit.
Qed.

Lemma keeps_tick s i t : keeps i (with_ticks s t) (tick_one hhdm (with_ticks s t) i).
Proof.
  generalize (with_ticks s t). clear s. intros s. unfold tick_one. cbv zeta. destruct (negb (used _)); [done|].
  set (s1 := if _ && _ then tcp_retransmit _ _ _ else s).
  assert (K1 : keeps i s s1) by (unfold s1; destruct (_ && _); [apply keeps_retransmit|done]). clearbody s1.
  set (s2 := if _ && _ then edit s1 i _ else s1).
  assert (K2 : keeps i s1 s2).
  { unfold s2. destruct (_ && _); [|done]. apply keeps_edit; [|done]. apply rtc_once. constructor. }
  clearbody s2. transitivity s1; [done|]. transitivity s2; [done|]. destruct (_ && _); [|done].
  apply keeps_edit; [|done]. apply rtc_once. constructor.
Qed.

(** Where the receiver is: in the stream, or past its end with the FIN taken for
    one more position. *)
Definition arrival (W : list Z) (c : bool) (r q : Z) (p : pcb) : Prop :=
  (fin_seen p = false /\ r <= Z.max 1 (alen W) /\ r - q <= 4096) \/
  (fin_seen p = true /\ c = true /\ r = alen W + 1 /\ r - q <= 4097 /\ 1 <= alen W).

(** [r] is the next position expected, [q] the next to be read; [c] says that
    the writer has closed. *)
Record receiver (iss : Z) (W : list Z) (c : bool) (i : Z) (s : net) (r q : Z) : Prop := {
  rc_state : synced (state (g_pcbs s i));
  rc_nxt : rcv_nxt (g_pcbs s i) = u32 (iss + r);
  rc_read : rcv_read (g_pcbs s i) = u32 (iss + q);
  rc_order : 1 <= q <= r;
  rc_arrival : arrival W c r q (g_pcbs s i);
  rc_open : rx_shutdown (g_pcbs s i) = false;
  rc_ring : forall x, q <= x < r -> x < alen W -> n_mem s (ring_at (rx_phys (g_pcbs s i)) (iss + x)) = aget 0 W x;
  rc_pages : pages_apart (g_pcbs s i)
}.

Lemma receiver_keeps iss W c i s s' r q : receiver iss W c i s r q -> keeps i s s' -> receiver iss W c i s' r q.
Proof.
  intros [] []. constructor; try congruence; try done.
  - by eapply coarse_synced.
  - unfold arrival. by rewrite kp_fin0.
  - intros x Hx Hl. rewrite kp_rx0, kp_mem0; [by apply rc_ring0|].
    pose proof (ring_at_range hhdm (rx_phys (g_pcbs s i)) (iss + x)). unfold pages_apart, apart in *. lia.
  - unfold pages_apart. by rewrite kp_tx0, kp_rx0.
Qed.

Lemma receiver_app iss W l i s r q : receiver iss W false i s r q -> receiver iss (W ++ l) false i s r q.
Proof.
  intros []. pose proof (alen_nonneg l). pose proof (alen_nonneg W). destruct rc_arrival0 as [(H1 & H2 & H3)|(_ & ? & _)]; [|done].
  constructor; try done.
  - left. rewrite alen_app. split; [done|]. lia.
  - intros x Hx Hl. rewrite rc_ring0 by lia. by rewrite aget_app_l by lia.
Qed.

Lemma receiver_close iss W c c' i s r q : receiver iss W c i s r q -> (c = true -> c' = true) -> receiver iss W c' i s r q.
Proof. intros [] H. constructor; try done. destruct rc_arrival0 as [?|(? & ? & ?)]; [by left|right; auto]. Qed.

Lemma aget_take_drop (W : list Z) m x k :
  0 <= x -> 0 <= k < Z.of_nat m -> x + k < alen W -> aget 0 (take m (drop (Z.to_nat x) W)) k = aget 0 W (x + k).
Proof.
  unfold aget, alen. intros. destruct (Z.ltb_spec k 0); [lia|]. destruct (Z.ltb_spec (x + k) 0); [lia|].
  rewrite !nth_lookup, lookup_take_lt, lookup_drop by lia. f_equal. f_equal. lia.
Qed.

(** The expected piece of the stream: as much of it as there is room for. *)
Lemma receiver_data iss W c i s r q len :
  receiver iss W c i s r q -> fin_seen (g_pcbs s i) = false -> 0 <= len -> r + len <= alen W ->
  exists r', receiver iss W c i (input_data hhdm s i (take (Z.to_nat len) (drop (Z.to_nat r) W))) r' q /\
    (len <= rcv_wnd (g_pcbs s i) -> r' = r + len) /\
    fin_seen (g_pcbs (input_data hhdm s i (take (Z.to_nat len) (drop (Z.to_nat r) W))) i) = false.
Proof.
  intros [] Hf Hlen Hl. set (data := take _ _). destruct rc_arrival0 as [(_ & Hr & Hw)|(? & _)]; [|congruence].
  assert (Hd : alen data = len) by (unfold data, alen in *; rewrite length_take, length_drop; lia).
  unfold input_data, rcv_wnd. cbv zeta. rewrite rc_open0, Hd, rc_nxt0, rc_read0.
  assert (Es : u32 (TCP_BUF_SIZE - u32 (u32 (iss + r) - u32 (iss + q))) = 4096 - (r - q)).
  { rewrite u32_diff by lia. rewrite u32_small; unfold TCP_BUF_SIZE; lia. }
  rewrite Es.
  set (m := if len <? _ then len else _). assert (Hm : 0 <= m <= len /\ m <= 4096 - (r - q) /\ (len <= 4096 - (r - q) -> m = len)) by
    (unfold m; destruct (Z.ltb_spec len (4096 - (r - q))); lia). clearbody m.
  set (piece := take (Z.to_nat m) data). assert (Hp : alen piece = m) by (unfold piece, alen in *; rewrite length_take; lia).
  exists (r + m). split; [|split; [lia|by rewrite edit_eq]]. constructor; rewrite ?edit_eq; try done; simpl.
  - rewrite u32_add_l. f_equal. lia.
  - lia.
  - left. simpl. split; [done|]. lia.
  - intros x Hx Hlx. rewrite (ring_put_u32 hhdm _ _ _ _ (iss + r)) by (unfold u32; by rewrite Z.mod_mod).
    rewrite ring_put_spec by lia. destruct (Z.ltb_spec (iss + x) (iss + r)); [apply rc_ring0; lia|].
    unfold piece, data. rewrite take_take. rewrite aget_take_drop by lia. f_equal. lia.
Qed.

(** The FIN, at the end of the stream. *)
Lemma receiver_fin iss W c i s r q : receiver iss W c i s r q -> fin_seen (g_pcbs s i) = false -> c = true ->
  1 <= alen W -> r = alen W -> receiver iss W c i (input_fin s i) (r + 1) q.
Proof.
  intros [] Hf Hc HW Hr. destruct rc_arrival0 as [(_ & _ & Hw)|(? & _)]; [|congruence].
  set (s1 := edit s i (fun p => set_fin_seen true (set_rcv_nxt (u32 (rcv_nxt p + 1)) p))).
  assert (R1 : receiver iss W c i s1 (r + 1) q).
  { unfold s1. constructor; rewrite ?edit_eq; try done; simpl.
    - rewrite rc_nxt0, u32_add_l. f_equal. lia.
    - lia.
    - right. simpl. do 2 (split; [done|]). lia.
    - intros x Hx Hl. apply rc_ring0; lia. }
  eapply receiver_keeps; [exact R1|]. unfold input_fin. cbv zeta. fold s1. clearbody s1. clear - R1.
  destruct (Z.eqb_spec (state (g_pcbs s1 i)) TCPS_ESTABLISHED) as [E|_].
  { apply keeps_edit; [|done]. rewrite E. apply rtc_once. constructor. }
  destruct (Z.eqb_spec (state (g_pcbs s1 i)) TCPS_FIN_WAIT_1) as [E|_].
  { destruct (_ && _); (apply keeps_edit; [|done]; rewrite E; apply rtc_once; constructor). }
  destruct (Z.eqb_spec (state (g_pcbs s1 i)) TCPS_FIN_WAIT_2) as [E|_]; [|done].
  apply keeps_edit; [|done]. rewrite E. apply rtc_once. constructor.
Qed.

(** A segment with the FIN finds room for its data. *)
Definition fin_fits (p : pcb) (seg : list Z) : Prop := bit (seg_flags seg) TCP_FIN = true -> alen (seg_data seg) <= rcv_wnd p.

Lemma receiver_text iss W c i s r q seg :
  receiver iss W c i s r q -> alen W < 2 ^ 32 -> (c = true -> 1 <= alen W) -> carries iss W c seg -> bit (seg_flags seg) TCP_RST = false ->
  fin_fits (g_pcbs s i) seg ->
  exists r', receiver iss W c i (input_text hhdm s i (net_get32 seg 4) (seg_data seg) (seg_flags seg)) r' q.
Proof.
  intros R HW HC [C|(x & H1 & H2 & H3 & HF & H4 & H5)] Hr Hfit; [congruence|]. unfold input_text. cbv zeta.
  destruct (_ =? TCPS_CLOSED); [by exists r|]. rewrite H4, (rc_nxt _ _ _ _ _ _ _ R). pose proof (rc_order _ _ _ _ _ _ _ R) as Ho.
  pose proof (alen_nonneg (seg_data seg)) as Hd. pose proof (alen_nonneg W) as HW0.
  destruct (Z.eqb_spec (u32 (iss + x)) (u32 (iss + r))) as [E|]; cbn [negb].
  2: { match goal with |- context [if ?b then _ else _] => destruct b end; [|by exists r]. exists r.
       eapply receiver_keeps; [done|]. apply keeps_emit. }
  assert (Hr2 : r <= Z.max 1 (alen W) + 1) by (destruct (rc_arrival _ _ _ _ _ _ _ R) as [(_ & ? & _)|(_ & _ & ? & _)]; lia).
  assert (Near : 1 <= x -> x = r).
  { intros Hx. apply u32_eq_near in E; [lia|]. destruct H3 as [?|(_ & _ & ?)]; lia. }
  destruct (Z.eqb_spec (alen (seg_data seg)) 0) as [Z0|Z0]; cbn [negb orb].
  - destruct (bit (seg_flags seg) TCP_FIN) eqn:F; cbn [orb]; [|by exists r]. destruct (HF eq_refl) as [Hc Hx]. pose proof (HC Hc).
    assert (x = r) as -> by (apply Near; lia). exists (r + 1). eapply receiver_keeps; [|apply keeps_emit].
    destruct (rc_arrival _ _ _ _ _ _ _ R) as [(Hf & _)|(_ & _ & ? & _)]; [|lia]. apply receiver_fin; try done; lia.
  - assert (Hx : 1 <= x) by (destruct H2 as [?|E0]; [done|]; by rewrite E0 in Z0).
    assert (x = r) as -> by auto.
    destruct H3 as [H3|(_ & E0 & _)]; [|by rewrite E0 in Z0].
    destruct (rc_arrival _ _ _ _ _ _ _ R) as [(Hf & _)|(_ & _ & ? & _)]; [|lia].
    destruct (receiver_data iss W c i s r q (alen (seg_data seg)) R Hf) as (r' & R' & Er' & Hf'); [lia|lia|].
    unfold alen in R', Hf'. rewrite Nat2Z.id, <- H5 in R', Hf'.
    destruct (bit (seg_flags seg) TCP_FIN) eqn:F.
    + destruct (HF eq_refl) as [Hc Hend]. pose proof (HC Hc). specialize (Er' (Hfit F)). exists (r' + 1). eapply receiver_keeps; [|apply keeps_emit].
      apply receiver_fin; try done; lia.
    + exists r'. eapply receiver_keeps; [done|]. apply keeps_emit.
Qed.

Lemma keeps_fits i s s' seg : keeps i s s' -> fin_fits (g_pcbs s i) seg -> fin_fits (g_pcbs s' i) seg.
Proof. intros [] H F. specialize (H F). unfold rcv_wnd in *. congruence. Qed.

Lemma receiver_input iss W c i s r q src dst seg :
  receiver iss W c i s r q -> alen W < 2 ^ 32 -> (c = true -> 1 <= alen W) -> carries iss W c seg -> fin_fits (g_pcbs s i) seg ->
  pcb_lookup s src dst (net_get16 seg 0) (net_get16 seg 2) = Some i ->
  exists r', receiver iss W c i (tcp_input hhdm ra s src dst seg) r' q.
Proof.
  intros R HW HC C Hfit Hl. unfold tcp_input. destruct (_ || _); [by exists r|]. cbv zeta. destruct (_ || _); [by exists r|]. rewrite Hl.
  pose proof (rc_state _ _ _ _ _ _ _ R) as Hy. assert (Hn : forall st, 1 <= st < 4 -> state (g_pcbs s i) <> st) by
    (intros st Hst E; rewrite E in Hy; destruct Hy as [Hy|Hy]; unfold TCPS_CLOSED in *; lia).
  destruct (Z.eqb_spec (state (g_pcbs s i)) TCPS_LISTEN) as [E|]; [by apply Hn in E|].
  unfold input_conn. cbv zeta. fold (seg_flags seg). fold (seg_data seg). destruct (bit (seg_flags seg) TCP_RST) eqn:Er.
  { exists r. eapply receiver_keeps; [done|]. apply keeps_edit; [apply rtc_once; constructor|done]. }
  destruct (Z.eqb_spec (state (g_pcbs s i)) TCPS_SYN_SENT) as [E|]; [by apply Hn in E|].
  destruct (bit (seg_flags seg) TCP_ACK); [|by eapply receiver_text].
  destruct (ack_keeps s i (net_get32 seg 8) Hy) as (s' & -> & K).
  eapply receiver_text; try done; [by eapply receiver_keeps|by eapply keeps_fits].
Qed.

(** The stream and the byte that stands for the FIN. *)
Definition ended (W : list Z) (fin : bool) (b : Z) : list Z := W ++ (if fin then [b] else []).

Lemma take_take_more (V : list Z) q m : 1 <= q -> 0 <= m ->
  take (Z.to_nat (q - 1)) (drop 1 V) ++ take (Z.to_nat m) (drop (Z.to_nat q) V) = take (Z.to_nat (q + m - 1)) (drop 1 V).
Proof.
  intros Hq Hm. replace (Z.to_nat q) with (1 + Z.to_nat (q - 1))%nat by lia. rewrite <- drop_drop, take_take_drop.
  f_equal. lia.
Qed.

(** The bytes before position [q <= alen W] do not depend on what follows [W]. *)
Lemma take_ended (W l : list Z) q : 1 <= q <= Z.max 1 (alen W) ->
  take (Z.to_nat (q - 1)) (drop 1 (W ++ l)) = take (Z.to_nat (q - 1)) (drop 1 W).
Proof. intros Hq. apply take_drop_app. unfold alen in *. destruct (decide (q = 1)) as [->|]; [by right|left; lia]. Qed.

(** Reading gives the next bytes of the stream, and after the last one the byte
    left in the ring where the FIN is counted. *)
Lemma receiver_read iss W c i s r q len b :
  receiver iss W c i s r q -> 0 <= len ->
  let '(s', data) := tcp_read hhdm s i len false in
  let got b' n := take (Z.to_nat (n - 1)) (drop 1 (ended W (fin_seen (g_pcbs s i)) b')) in
  exists q' b', receiver iss W c i s' r q' /\ fin_seen (g_pcbs s' i) = fin_seen (g_pcbs s i) /\
    got b q ++ data = got b' q'.
Proof.
  intros R Hlen. pose proof R as []. unfold tcp_read. cbv zeta. rewrite rc_nxt0, rc_read0.
  assert (Hw : r - q <= 4097) by (destruct rc_arrival0 as [(_ & _ & ?)|(_ & _ & _ & ? & _)]; lia).
  rewrite u32_diff by lia. replace (iss + r - (iss + q)) with (r - q) by lia. set (m := if len <? r - q then len else r - q).
  assert (Hm : 0 <= m <= r - q) by (unfold m; destruct (Z.ltb_spec len (r - q)); lia). clearbody m.
  destruct (Z.eqb_spec m 0) as [->|Hm0]; cbn [orb].
  { exists q, b. by rewrite app_nil_r. }
  set (b' := n_mem s (ring_at (rx_phys (g_pcbs s i)) (iss + alen W))). set (V := ended W (fin_seen (g_pcbs s i)) b').
  assert (Hr : 1 <= alen W /\ q <= alen W /\ r <= alen V).
  { unfold V, ended. rewrite alen_app. destruct rc_arrival0 as [(-> & ? & _)|(-> & _ & ? & _ & ?)]; cbn [alen length]; unfold alen in *;
      cbn [length]; lia. }
  assert (HV : ring_get hhdm (n_mem s) (rx_phys (g_pcbs s i)) (u32 (iss + q)) m = take (Z.to_nat m) (drop (Z.to_nat q) V)).
  { apply ring_get_window; [lia|lia|lia|]. intros x Hx. unfold V, ended in *. rewrite alen_app in Hr.
    destruct (Z.lt_ge_cases x (alen W)) as [Hl|Hl]; [rewrite aget_app_l by done; apply rc_ring0; lia|]. rewrite aget_app by done.
    destruct (fin_seen _); [change (alen [b']) with 1 in Hr|change (alen []) with 0 in Hr; lia].
    assert (x = alen W) as -> by lia. by rewrite Z.sub_diag. }
  exists (q + m), b'. rewrite HV. split; [|split; [by rewrite edit_eq|]].
  - constructor; rewrite ?edit_eq; try done; simpl; try lia.
    + rewrite u32_add_l. f_equal. lia.
    + destruct rc_arrival0 as [(? & ? & ?)|(? & ? & ? & ? & ?)]; [left|right]; simpl; repeat split; try done; lia.
    + intros x Hx Hl. apply rc_ring0; lia.
  - fold V. rewrite <- take_take_more by lia. f_equal. unfold V, ended. rewrite !take_ended by lia. done.
Qed.

(** ** A side shut down *)

(** Nothing turns reading on again. *)
Record deaf (i : Z) (s : net) : Prop := { df_state : synced (state (g_pcbs s i)); df_shut : rx_shutdown (g_pcbs s i) = true }.

Lemma deaf_keeps i s s' : deaf i s -> keeps i s s' -> deaf i s'.
Proof. intros [] []. constructor; [by eapply coarse_synced|congruence]. Qed.

Lemma deaf_edit i s f : deaf i s -> rtc coarse_edge (state (g_pcbs s i)) (state (f (g_pcbs s i))) ->
  rx_shutdown (f (g_pcbs s i)) = rx_shutdown (g_pcbs s i) -> deaf i (edit s i f).
Proof. intros [] H1 H2. constructor; rewrite edit_eq; [by eapply coarse_synced|congruence]. Qed.

Lemma deaf_fin i s : deaf i s -> deaf i (input_fin s i).
Proof.
  intros D. unfold input_fin. cbv zeta. set (s1 := edit s i _). assert (D1 : deaf i s1) by by apply deaf_edit. clearbody s1. clear D s.
  destruct (Z.eqb_spec (state (g_pcbs s1 i)) TCPS_ESTABLISHED) as [E|_];
    [apply deaf_edit; [done| |done]; rewrite E; apply rtc_once; constructor|].
  destruct (Z.eqb_spec (state (g_pcbs s1 i)) TCPS_FIN_WAIT_1) as [E|_].
  { destruct (_ && _); (apply deaf_edit; [done| |done]; rewrite E; apply rtc_once; constructor). }
  destruct (Z.eqb_spec (state (g_pcbs s1 i)) TCPS_FIN_WAIT_2) as [E|_]; [|done].
  apply deaf_edit; [done| |done]; rewrite E; apply rtc_once; constructor.
Qed.

Lemma deaf_text i s sseq data flags : deaf i s -> deaf i (input_text hhdm s i sseq data flags).
Proof.
  intros D. unfold input_text. cbv zeta. destruct (_ =? TCPS_CLOSED); [done|]. destruct (negb (sseq =? _)).
  { match goal with |- context [if ?b then _ else _] => destruct b end; [|done]. by destruct D. }
  set (s1 := if alen data =? 0 then s else _). assert (D1 : deaf i s1).
  { unfold s1. destruct (_ =? 0); [done|]. unfold input_data. cbv zeta. rewrite (df_shut _ _ D). by apply deaf_edit. }
  clearbody s1. set (s2 := if bit flags TCP_FIN then _ else s1).
  assert (D2 : deaf i s2) by (unfold s2; destruct (bit flags TCP_FIN); [by apply deaf_fin|done]). clearbody s2.
  match goal with |- context [if ?b then _ else _] => destruct b end; [|done]. by destruct D2.
Qed.

Lemma deaf_input i s src dst seg : deaf i s -> pcb_lookup s src dst (net_get16 seg 0) (net_get16 seg 2) = Some i ->
  deaf i (tcp_input hhdm ra s src dst seg).
Proof.
  intros D Hl. unfold tcp_input. destruct (_ || _); [done|]. cbv zeta. destruct (_ || _); [done|]. rewrite Hl.
  pose proof (df_state _ _ D) as Hy. assert (Hn : forall st, 1 <= st < 4 -> state (g_pcbs s i) <> st) by
    (intros st Hst E; rewrite E in Hy; destruct Hy as [Hy|Hy]; unfold TCPS_CLOSED in *; lia).
  destruct (Z.eqb_spec (state (g_pcbs s i)) TCPS_LISTEN) as [E|]; [by apply Hn in E|].
  unfold input_conn. cbv zeta. destruct (bit _ TCP_RST); [apply deaf_edit; [done|apply rtc_once; constructor|done]|].
  destruct (Z.eqb_spec (state (g_pcbs s i)) TCPS_SYN_SENT) as [E|]; [by apply Hn in E|].
  destruct (bit _ TCP_ACK); [|by apply deaf_text].
  destruct (ack_keeps s i (net_get32 seg 8) Hy) as (s' & -> & K). apply deaf_text. by eapply deaf_keeps.
Qed.

Lemma deaf_read i s len peek : deaf i s -> deaf i (fst (tcp_read hhdm s i len peek)).
Proof. intros D. unfold tcp_read. cbv zeta. cbn [fst]. destruct (_ || _); [done|by apply deaf_edit]. Qed.
End Stream.
