(* ===== verification/TcpConn.v ===== *)
(** * Two hosts and the network between them

    The writer's host, the reader's host, and a network that loses, repeats and
    reorders what the writer's host sends, while anything at all may arrive at
    the writer's.  Both ends write, read, close and shut their reading side; the
    theorem follows one direction of the stream up to and past its FIN. *)
From S2P Require Import Prelude Mem Pmm Net Tcp TcpSeg TcpState TcpStream.
#[local] Open Scope Z_scope.

(** ** A connection that was just opened *)

Lemma fresh_sender hhdm iss i s :
  let p := g_pcbs s i in
  pcb_typed p -> state p = TCPS_ESTABLISHED -> fin_queued p = false -> fin_sent p = false -> rto_at p = 0 ->
  snd_una p = u32 (iss + 1) -> snd_nxt p = u32 (iss + 1) -> snd_end p = u32 iss -> pages_apart hhdm p ->
  Forall (carries iss [] false) (map snd (out s)) -> sender hhdm iss [] false i s 1 1.
Proof.
  intros p T Hst Hq Hf Hr Ha Hn He Hp Ho. constructor; fold p; auto; try done; try (change (alen []) with 0; lia).
  - left. split; [done|]. split; [by left|]. by right.
  - change (alen []) with 0. by rewrite Z.add_0_r.
Qed.

Lemma fresh_receiver hhdm iss i s :
  let p := g_pcbs s i in
  state p = TCPS_ESTABLISHED -> rcv_nxt p = u32 (iss + 1) -> rcv_read p = u32 (iss + 1) -> fin_seen p = false ->
  rx_shutdown p = false -> pages_apart hhdm p -> receiver hhdm iss [] false i s 1 1.
Proof.
  intros p Hst Hn Hr Hf Hx Hp. constructor; fold p; auto; try (change (alen []) with 0; lia).
  - right. rewrite Hst. unfold TCPS_ESTABLISHED. lia.
  - by left.
Qed.

(** ** The link *)

Record link := Link { left : net; right : net; written : list Z; obtained : list Z }.

Section Conn.
(** The direct maps and the [pmm_free] callers of the two kernels, and the
    blocks of the connection. *)
Context (hA raA hB raB i j : Z).

(** A call, a timer or a segment at one of the two ends, whose blocks stay in
    use.  The writer may close once it has written something, and either end may
    shut its reading side; a segment with the FIN is delivered only when the
    reader has room for its data. *)
Inductive link_step (l : link) : link -> Prop :=
| ln_write buf s r :
    tcp_write hA (left l) i buf = (s, r) ->
    link_step l (Link s (right l) (written l ++ take (Z.to_nat r) buf) (obtained l))
| ln_left_close :
    written l <> [] -> link_step l (Link (fst (tcp_close_write hA (left l) i)) (right l) (written l) (obtained l))
| ln_left_read len peek :
    link_step l (Link (fst (tcp_read hA (left l) i len peek)) (right l) (written l) (obtained l))
| ln_left_shutdown :
    link_step l (Link (tcp_shutdown_read (left l) i) (right l) (written l) (obtained l))
| ln_left_tick t :
    link_step l (Link (tick_one hA (with_ticks (left l) t) i) (right l) (written l) (obtained l))
| ln_left_input src dst seg :
    Forall byte seg -> pcb_lookup (left l) src dst (net_get16 seg 0) (net_get16 seg 2) = Some i ->
    net_get32 seg 8 <> antipode (snd_una (g_pcbs (left l) i)) ->
    link_step l (Link (tcp_input hA raA (left l) src dst seg) (right l) (written l) (obtained l))
| ln_deliver src dst d seg :
    (d, seg) ∈ out (left l) -> pcb_lookup (right l) src dst (net_get16 seg 0) (net_get16 seg 2) = Some j ->
    fin_fits (g_pcbs (right l) j) seg ->
    link_step l (Link (left l) (tcp_input hB raB (right l) src dst seg) (written l) (obtained l))
| ln_read len s data :
    0 <= len -> tcp_read hB (right l) j len false = (s, data) ->
    link_step l (Link (left l) s (written l) (obtained l ++ data))
| ln_right_shutdown :
    link_step l (Link (left l) (tcp_shutdown_read (right l) j) (written l) (obtained l))
| ln_right_write buf :
    link_step l (Link (left l) (fst (tcp_write hB (right l) j buf)) (written l) (obtained l))
| ln_right_close :
    link_step l (Link (left l) (fst (tcp_close_write hB (right l) j)) (written l) (obtained l))
| ln_right_tick t :
    link_step l (Link (left l) (tick_one hB (with_ticks (right l) t) j) (written l) (obtained l)).

(** Just after the handshake: the SYN's sequence number is acknowledged, and
    nothing has been written, sent or read. *)
Definition opened (iss : Z) (l : link) : Prop :=
  sender hA iss [] false i (left l) 1 1 /\ receiver hB iss [] false j (right l) 1 1 /\ written l = [] /\ obtained l = [].

(** What the reader has got: the bytes of the stream up to its position, and
    perhaps the byte it takes the FIN for. *)
Definition heard (iss : Z) (W : list Z) (c : bool) (s : net) (got : list Z) : Prop :=
  exists r q b, receiver hB iss W c j s r q /\
    got = take (Z.to_nat (q - 1)) (drop 1 (ended W (fin_seen (g_pcbs s j)) b)).

(** What holds at every moment. *)
Definition link_inv (iss : Z) (l : link) : Prop :=
  exists c a n, sender hA iss (written l) c i (left l) a n /\
    (heard iss (written l) c (right l) (obtained l) \/ deaf j (right l)).

Lemma opened_inv iss l : opened iss l -> link_inv iss l.
Proof. intros (S & R & W & O). exists false, 1, 1. rewrite W, O. split; [done|]. left. by exists 1, 1, 0. Qed.

Lemma left_input iss W c s a n src dst seg :
  sender hA iss W c i s a n -> Forall byte seg -> pcb_lookup s src dst (net_get16 seg 0) (net_get16 seg 2) = Some i ->
  net_get32 seg 8 <> antipode (snd_una (g_pcbs s i)) -> exists a' n', sender hA iss W c i (tcp_input hA raA s src dst seg) a' n'.
Proof.
  intros S Hb Hl Ha. unfold tcp_input. destruct (_ || _); [by exists a, n|]. cbv zeta. destruct (_ || _); [by exists a, n|]. rewrite Hl.
  destruct (Z.eqb_spec (state (g_pcbs s i)) TCPS_LISTEN) as [E|]; [|by eapply sender_input_conn].
  by destruct (sender_states _ _ _ _ _ _ _ _ S) as [N _].
Qed.

Lemma written_prefix l l' : link_step l l' -> exists w, written l' = written l ++ w.
Proof. intros []; [by eexists|..]; exists []; by rewrite app_nil_r. Qed.

(** The reader's half is left alone. *)
Lemma heard_keeps iss W c s s' got : keeps hB j s s' -> heard iss W c s got \/ deaf j s -> heard iss W c s' got \/ deaf j s'.
Proof.
  intros K [(r & q & b & R & ->)|D]; [left|right; by eapply deaf_keeps]. exists r, q, b. split; [by eapply receiver_keeps|].
  by rewrite (kp_fin _ _ _ _ K).
Qed.

Lemma heard_app iss W c s got l : (c = true -> l = []) -> heard iss W c s got \/ deaf j s -> heard iss (W ++ l) c s got \/ deaf j s.
Proof.
  intros Hl [(r & q & b & R & ->)|D]; [left|by right]. destruct c; [rewrite Hl, app_nil_r by done; by exists r, q, b|].
  exists r, q, b. split; [by apply receiver_app|]. pose proof (rc_order _ _ _ _ _ _ _ _ R).
  destruct (rc_arrival _ _ _ _ _ _ _ _ R) as [(-> & ? & _)|(_ & ? & _)]; [|done]. unfold ended. rewrite !app_nil_r.
  by rewrite take_ended by lia.
Qed.

Lemma heard_close iss W c c' s got : (c = true -> c' = true) -> heard iss W c s got \/ deaf j s -> heard iss W c' s got \/ deaf j s.
Proof. intros Hc [(r & q & b & R & ->)|D]; [left|by right]. exists r, q, b. split; [by eapply receiver_close|done]. Qed.

Lemma heard_input iss W c s got src dst seg : alen W < 2 ^ 32 -> (c = true -> 1 <= alen W) -> carries iss W c seg ->
  pcb_lookup s src dst (net_get16 seg 0) (net_get16 seg 2) = Some j -> fin_fits (g_pcbs s j) seg ->
  heard iss W c s got \/ deaf j s ->
  heard iss W c (tcp_input hB raB s src dst seg) got \/ deaf j (tcp_input hB raB s src dst seg).
Proof.
  intros HW HC C Hl F [(r & q & b & R & ->)|D]; [left|right; by apply deaf_input].
  destruct (receiver_input hB raB iss W c j s r q src dst seg R HW HC C F Hl) as (r' & R'). exists r', q, b. split; [done|].
  pose proof (rc_order _ _ _ _ _ _ _ _ R) as O. pose proof (rc_order _ _ _ _ _ _ _ _ R') as O'. unfold ended.
  destruct (rc_arrival _ _ _ _ _ _ _ _ R) as [(-> & A & _)|(-> & _)]; [rewrite !take_ended by lia; done|].
  destruct (rc_arrival _ _ _ _ _ _ _ _ R') as [(-> & A' & _)|(-> & _)]; [rewrite !take_ended by lia; done|done].
Qed.

Lemma heard_read iss W c s got len : 0 <= len -> heard iss W c s got \/ deaf j s ->
  let '(s', data) := tcp_read hB s j len false in heard iss W c s' (got ++ data) \/ deaf j s'.
Proof.
  intros Hlen [(r & q & b & R & ->)|D].
  - pose proof (receiver_read hB iss W c j s r q len b R Hlen) as P. destruct (tcp_read hB s j len false) as [s' data].
    destruct P as (q' & b' & R' & Ef & E). left. exists r, q', b'. split; [done|]. by rewrite Ef.
  - pose proof (deaf_read hB j s len false D) as D'. destruct (tcp_read hB s j len false) as [s' data]. by right.
Qed.

Lemma heard_deaf iss W c s got : heard iss W c s got \/ deaf j s -> deaf j (tcp_shutdown_read s j).
Proof.
  intros H. assert (synced (state (g_pcbs s j))) by (destruct H as [(r & q & b & [] & _)|[]]; done).
  constructor; unfold tcp_shutdown_read; by rewrite edit_eq.
Qed.

Lemma link_step_inv iss l l' : link_step l l' -> link_inv iss l -> alen (written l') < 2 ^ 32 -> link_inv iss l'.
Proof.
  intros St (c & a & n & S & O) HW. destruct St as [buf s r H|H|len peek| |t|src dst seg Hb Hl Ha|src dst d seg Hd Hl Hf|len s data Hlen H| |buf| |t];
    unfold link_inv; cbn [left right written obtained] in *.
  - pose proof (sender_write hA iss _ c i _ a n buf S) as P. rewrite H in P. destruct P as [(n' & P) Hr]. exists c, a, n'.
    split; [done|]. apply heard_app; [|done]. intros Hc. replace (Z.to_nat r) with 0%nat by (specialize (Hr Hc); lia). done.
  - pose proof (sender_close_write hA iss _ c i _ a n S) as P. destruct (tcp_close_write hA (left l) i) as [s r].
    assert (1 <= alen (written l)) by (destruct (written l) as [|x w]; [done|]; rewrite alen_cons; pose proof (alen_nonneg w); lia).
    destruct P as (c' & n' & P & Hc); [done|]. exists c', a, n'. split; [done|]. by eapply heard_close.
  - exists c, a, n. split; [by apply sender_read|done].
  - exists c, a, n. split; [by apply sender_shutdown_read|done].
  - exists c, a, n. split; [by apply sender_tick|done].
  - destruct (left_input iss _ _ _ a n src dst seg S) as (a' & n' & S'); [done..|]. by exists c, a', n'.
  - exists c, a, n. split; [done|]. apply heard_input; try done; [apply (sn_closed _ _ _ _ _ _ _ _ S)|].
    pose proof (sn_out _ _ _ _ _ _ _ _ S) as C. rewrite Forall_forall in C. apply C. apply list_elem_of_fmap. by exists (d, seg).
  - exists c, a, n. split; [done|]. pose proof (heard_read iss (written l) c (right l) (obtained l) len Hlen O) as P. by rewrite H in P.
  - exists c, a, n. split; [done|]. right. by eapply heard_deaf.
  - exists c, a, n. split; [done|]. eapply heard_keeps; [apply keeps_write|done].
  - exists c, a, n. split; [done|]. eapply heard_keeps; [apply keeps_close_write|done].
  - exists c, a, n. split; [done|]. eapply heard_keeps; [apply keeps_tick|]. destruct O as [(r & q & b & [] & E)|[]]; [left|by right].
    exists r, q, b. done.
Qed.

Lemma link_inv_reached iss l0 l : opened iss l0 -> rtc link_step l0 l -> alen (written l) < 2 ^ 32 -> link_inv iss l.
Proof.
  intros Ho Hs. revert l Hs. refine (rtc_ind_r (fun l => alen (written l) < 2 ^ 32 -> link_inv iss l) _ _ _); [intros _; by apply opened_inv|].
  intros l1 l2 _ St IH HW. eapply link_step_inv; [done| |done]. apply IH. destruct (written_prefix _ _ St) as [w E].
  rewrite E, alen_app in HW. pose proof (alen_nonneg w). lia.
Qed.

(** C2: The stream of a connection.  Whatever the network loses, repeats and
    reorders of what the writer's host sends, whatever segments reach the
    writer's host (but for an acknowledgement of the sequence number exactly half
    the space ahead), and however the writes, reads, closes, shutdowns, timers and
    deliveries listed in [link_step] interleave at the two ends, the bytes read
    are a prefix of the bytes the writer's calls accepted, without the first one,
    followed once the reader has seen the FIN by at most one more byte, which the
    FIN is read as.  This holds until the reader shuts its own side down, while
    fewer than 2^32 bytes have been written.  (The first byte is given the
    sequence number of the SYN and is never sent.)  Three things the code allows
    are left out because the claim fails there: the writer closes before it has
    written anything, a FIN arrives on a segment whose data does not fit in the
    reader's ring, and a block is destroyed and used again. *)
Theorem tcp_stream_prefix iss l0 l (Ho : opened iss l0) (Hs : rtc link_step l0 l) (HW : alen (written l) < 2 ^ 32)
    (Hr : rx_shutdown (g_pcbs (right l) j) = false) :
  exists fin rest, drop 1 (written l) ++ fin = obtained l ++ rest /\
    (length fin <= 1)%nat /\ (fin_seen (g_pcbs (right l) j) = false -> fin = []).
Proof.
  destruct (link_inv_reached iss l0 l Ho Hs HW) as (c & a & n & _ & [(r & q & b & R & ->)|D]); [|destruct D; congruence].
  pose proof (rc_arrival _ _ _ _ _ _ _ _ R) as A. set (f := fin_seen _) in *. set (fin := if f then [b] else []).
  exists fin, (drop (Z.to_nat (q - 1)) (drop 1 (ended (written l) f b))). rewrite take_drop. split; [|unfold fin; by destruct f; simpl; auto].
  unfold ended. fold fin. destruct A as [(E & _)|(E & _ & _ & _ & HW1)].
  - unfold fin. by rewrite (E : f = false), !app_nil_r.
  - rewrite drop_app_le; [done|]. unfold alen in HW1. lia.
Qed.
End Conn.

(** A writer that sends three bytes, of which the reader gets two. *)
Definition demo_end (rport iss peer : Z) : net :=
  let p := set_cwnd TCP_MSS (set_rto_ticks TCP_RTO_TICKS (set_snd_una (iss + 1) (set_snd_nxt (iss + 1) (set_snd_end iss
    (set_rcv_nxt (peer + 1) (set_rcv_read (peer + 1) (set_rport rport (set_lport 80 (set_rip 0x0A000001 (set_state TCPS_ESTABLISHED
    (new_pcb 0x8000 0x9000))))))))))) in
  Net (fun _ => 0) demo_pmm (fun k => if k =? 0 then p else blank_pcb) 0 0 0 (fun _ => Netif 0x0A000001 true) [].
Definition demo_link : link := Link (demo_end 80 1000 5000) (demo_end 80 5000 1000) [] [].

Lemma demo_opened : opened demo_hhdm demo_hhdm 0 0 1000 demo_link.
Proof.
  split; [|split; [|done]].
  - apply fresh_sender; try done. right. vm_compute. discriminate.
  - apply fresh_receiver; try done. right. vm_compute. discriminate.
Qed.

(** The writer writes, and closes; the reader reads the last two bytes of the
    three, and a last one for the FIN. *)
Lemma tcp_stream_prefix_witness :
  let A1 := fst (tcp_write demo_hhdm (demo_end 80 1000 5000) 0 [10; 20; 30]) in
  let A := fst (tcp_close_write demo_hhdm A1 0) in
  let seg := snd (nth 0 (out A) (0, [])) in
  let end_seg := snd (nth 1 (out A) (0, [])) in
  let B1 := tcp_input demo_hhdm 0 (demo_end 80 5000 1000) 0x0A000001 0x0A000001 seg in
  let B := tcp_input demo_hhdm 0 B1 0x0A000001 0x0A000001 end_seg in
  let data := snd (tcp_read demo_hhdm B 0 9 false) in
  take 2 data = [20; 30] /\ length data = 3%nat /\
  exists fin rest, [20; 30] ++ fin = data ++ rest /\ (length fin <= 1)%nat.
Proof.
  intros A1 A seg end_seg B1 B data. split; [vm_compute; reflexivity|]. split; [vm_compute; reflexivity|].
  assert (F1 : tcp_write demo_hhdm (left demo_link) 0 [10; 20; 30] = (A1, 3)) by (vm_compute; reflexivity).
  assert (F2 : (0x0A000001, seg) ∈ out A) by (vm_compute; left).
  assert (F3 : (0x0A000001, end_seg) ∈ out A) by (vm_compute; right; left).
  assert (L1 : pcb_lookup (right demo_link) 0x0A000001 0x0A000001 (net_get16 seg 0) (net_get16 seg 2) = Some 0) by (vm_compute; reflexivity).
  assert (L2 : pcb_lookup B1 0x0A000001 0x0A000001 (net_get16 end_seg 0) (net_get16 end_seg 2) = Some 0) by (vm_compute; reflexivity).
  assert (G1 : fin_fits (g_pcbs (right demo_link) 0) seg) by (vm_compute; discriminate).
  assert (G2 : fin_fits (g_pcbs B1 0) end_seg) by (vm_compute; discriminate).
  assert (F4 : tcp_read demo_hhdm B 0 9 false = (fst (tcp_read demo_hhdm B 0 9 false), data)) by apply surjective_pairing.
  assert (Hx : rx_shutdown (g_pcbs (fst (tcp_read demo_hhdm B 0 9 false)) 0) = false) by (vm_compute; reflexivity).
  revert Hx F4. generalize (fst (tcp_read demo_hhdm B 0 9 false)). revert F1 F2 F3 L1 L2 G1 G2. generalize data.
  unfold B, B1, A. generalize end_seg, seg, A1. clear. intros e seg A1 data F1 F2 F3 L1 L2 G1 G2 B' Hx F4.
  set (A := fst (tcp_close_write demo_hhdm A1 0)) in *. set (B1 := tcp_input _ _ (demo_end _ _ _) _ _ seg) in *.
  assert (P := tcp_stream_prefix demo_hhdm 0 demo_hhdm 0 0 0 1000 demo_link (Link A B' [10; 20; 30] data) demo_opened).
  destruct P as (fin & rest & E & Hl & _); [|done|done|by exists fin, rest].
  eapply rtc_l; [exact (ln_write _ _ _ _ _ _ demo_link _ A1 3 F1)|].
  eapply rtc_l; [refine (ln_left_close _ _ _ _ _ _ (Link A1 (right demo_link) _ []) _); discriminate|].
  eapply rtc_l; [exact (ln_deliver _ _ _ _ _ _ (Link A (right demo_link) _ []) _ _ _ seg F2 L1 G1)|].
  eapply rtc_l; [exact (ln_deliver _ _ _ _ _ _ (Link A B1 _ []) _ _ _ e F3 L2 G2)|].
  apply rtc_once. exact (ln_read _ _ _ _ _ _ (Link A (tcp_input demo_hhdm 0 B1 _ _ e) _ []) 9 B' data ltac:(lia) F4).
Defined.
