(* ===== verification/TcpOpen.v ===== *)
(** * Opening a Tcp connection

    The three-way handshake between two hosts: the segments, the blocks at the
    end, and the invariants of TcpConn at the start of the stream. *)
From S2P Require Import Prelude Mem Pmm Net Tcp TcpSeg TcpState TcpStream TcpConn.
#[local] Open Scope Z_scope.

(** ** The rings of a new block *)

Section Alloc.
Context (hhdm ra : Z).

Lemma alloc_total st : pmm_wf st -> g_total (fst (pmm_alloc st)) = g_total st.
Proof. intros W. destruct (pmm_alloc_cases st W) as [(f & _ & ->)|[_ ->]]; done. Qed.

Lemma pages_of_frames f g total :
  0 <= f < total -> 0 <= g < total -> f <> g -> 0 <= hhdm -> hhdm + PAGE_SIZE * total <= 2 ^ 64 ->
  apart (pmm_virt hhdm (g * PAGE_SIZE)) 4096 (pmm_virt hhdm (f * PAGE_SIZE)) 4096.
Proof. unfold PAGE_SIZE, pmm_virt, apart. intros. rewrite !u64_small by lia. lia. Qed.

Lemma pcb_alloc_new s s' c :
  pmm_wf (n_pmm s) -> 0 <= hhdm -> hhdm + PAGE_SIZE * g_total (n_pmm s) <= 2 ^ 64 ->
  pcb_alloc hhdm ra s = (s', Some c) ->
  out s' = out s /\ (exists rx tx, g_pcbs s' c = new_pcb rx tx) /\ pages_apart hhdm (g_pcbs s' c).
Proof.
  intros W H0 Hh. unfold pcb_alloc. destruct (List.find _ _) as [i|]; [|done]. unfold pcb_setup, alloc_page, pmm_alloc_zeroed.
  cbn [with_pcb n_pmm n_mem]. destruct (pmm_alloc_facts _ W) as [W1 F1]. pose proof (alloc_total _ W) as T1.
  destruct (pmm_alloc (n_pmm s)) as [pm1 rx]. cbn [edit with_pcb with_pmm n_pmm n_mem fst snd] in *.
  destruct (pmm_alloc_facts _ W1) as [_ F2]. destruct (pmm_alloc pm1) as [pm2 tx]. cbn [edit with_pcb with_pmm n_pmm n_mem fst snd] in *.
  destruct ((rx =? 0) || (tx =? 0)) eqn:Z0; [done|]. apply orb_false_iff in Z0 as [Z1 Z2]. apply Z.eqb_neq in Z1, Z2.
  intros [= <- <-]. split; [done|]. simpl. rewrite upd_eq. split; [exists rx, tx; by rewrite !upd_eq|].
  unfold pages_apart. rewrite !upd_eq. simpl.
  destruct F1 as [(f & Hf & -> & _ & B1)|(_ & E & _)]; [|by injection E as -> ->].
  destruct F2 as [(g & Hg & -> & _)|(_ & E & _)]; [|by injection E as -> ->].
  destruct Hf as [Hf _], Hg as [Hg Hb]. rewrite T1 in Hg. apply (pages_of_frames f g (g_total (n_pmm s))); try done.
  intros ->. rewrite B1, Z.eqb_refl in Hb by lia. done.
Qed.
End Alloc.

(** ** Which block a segment is for *)

(** Block [c] is the connection with that peer. *)
Definition matches (p : pcb) (src dst sport dport : Z) : Prop :=
  used p = true /\ state p <> TCPS_LISTEN /\ state p <> TCPS_CLOSED /\ lport p = dport /\ rport p = sport /\ rip p = src /\
  (lip p = IP_ANY \/ lip p = dst).

(** A block that is not that connection. *)
Definition aside (p : pcb) (src dst sport dport : Z) : Prop :=
  used p = false \/ lport p <> dport \/ state p = TCPS_LISTEN \/ state p = TCPS_CLOSED \/ rport p <> sport \/ rip p <> src \/
  (lip p <> IP_ANY /\ lip p <> dst).
(** And does not listen there either. *)
Definition bystander (p : pcb) (src dst sport dport : Z) : Prop :=
  aside p src dst sport dport /\
  (used p = true -> state p = TCPS_LISTEN -> lport p = dport -> lip p <> IP_ANY /\ lip p <> dst).

Lemma lookup_aside s src dst sport dport x l o : aside (g_pcbs s x) src dst sport dport ->
  exists o', lookup_from s src dst sport dport (x :: l) o = lookup_from s src dst sport dport l o'.
Proof.
  intros A. simpl. destruct (negb (used (g_pcbs s x)) || negb (lport (g_pcbs s x) =? dport)) eqn:E; [by eexists|].
  apply orb_false_iff in E as [E1 E2]. apply negb_false_iff in E1, E2. apply Z.eqb_eq in E2.
  destruct (state (g_pcbs s x) =? TCPS_LISTEN) eqn:E3; [by eexists|]. destruct (state (g_pcbs s x) =? TCPS_CLOSED) eqn:E4; [by eexists|].
  destruct (_ && _ && _) eqn:E5; [|by eexists]. exfalso. apply andb_true_iff in E5 as [E5 E7]. apply andb_true_iff in E5 as [E5 E6].
  apply Z.eqb_eq in E5, E6. apply Z.eqb_neq in E3, E4. apply orb_true_iff in E7. rewrite !Z.eqb_eq in E7.
  unfold aside in A. rewrite E1, E2 in A. intuition congruence.
Qed.

Lemma lookup_bystander s src dst sport dport x l o : bystander (g_pcbs s x) src dst sport dport ->
  lookup_from s src dst sport dport (x :: l) o = lookup_from s src dst sport dport l o.
Proof.
  intros [A B]. simpl. destruct (negb (used (g_pcbs s x)) || negb (lport (g_pcbs s x) =? dport)) eqn:E; [done|].
  apply orb_false_iff in E as [E1 E2]. apply negb_false_iff in E1, E2. apply Z.eqb_eq in E2.
  destruct (Z.eqb_spec (state (g_pcbs s x)) TCPS_LISTEN) as [E3|E3].
  { destruct (B E1 E3 E2) as [N1 N2]. apply Z.eqb_neq in N1, N2. by rewrite N1, N2. }
  destruct (Z.eqb_spec (state (g_pcbs s x)) TCPS_CLOSED) as [E4|E4]; [done|].
  destruct (_ && _ && _) eqn:E5; [|done]. exfalso. apply andb_true_iff in E5 as [E5 E7]. apply andb_true_iff in E5 as [E5 E6].
  apply Z.eqb_eq in E5, E6. apply orb_true_iff in E7. rewrite !Z.eqb_eq in E7.
  unfold aside in A. rewrite E1, E2 in A. intuition congruence.
Qed.

Lemma lookup_exact s src dst sport dport c :
  matches (g_pcbs s c) src dst sport dport -> forall l o, c ∈ l ->
  (forall k, k ∈ l -> k <> c -> aside (g_pcbs s k) src dst sport dport) ->
  lookup_from s src dst sport dport l o = Some c.
Proof.
  intros (Hu & Hl & Hc & Hp & Hr & Hi & Ha). induction l as [|x l IH]; intros o Hin Hk; [by apply elem_of_nil in Hin|].
  destruct (Z.eq_dec x c) as [->|Hne].
  - simpl. rewrite Hu, Hp, Z.eqb_refl. cbn [negb orb]. apply Z.eqb_neq in Hl, Hc. rewrite Hl, Hc, Hr, Hi, !Z.eqb_refl. cbn [andb].
    destruct Ha as [-> | ->]; rewrite ?Z.eqb_refl, ?orb_true_r; done.
  - apply elem_of_cons in Hin as [?|Hin]; [congruence|].
    destruct (lookup_aside s src dst sport dport x l o (Hk x ltac:(left) Hne)) as [o' ->].
    apply IH; [done|]. intros k Hk'. apply Hk. by right.
Qed.

Lemma lookup_conn s src dst sport dport c :
  0 <= c < TCP_MAX_PCB -> matches (g_pcbs s c) src dst sport dport ->
  (forall k, k <> c -> aside (g_pcbs s k) src dst sport dport) -> pcb_lookup s src dst sport dport = Some c.
Proof. intros Hc M Hk. apply lookup_exact; auto. apply elem_of_seqZ. unfold TCP_MAX_PCB in *. lia. Qed.

Lemma lookup_bystanders s src dst sport dport : forall l o,
  (forall k, k ∈ l -> bystander (g_pcbs s k) src dst sport dport) -> lookup_from s src dst sport dport l o = o.
Proof.
  induction l as [|x l IH]; intros o Hk; [done|]. rewrite lookup_bystander by (apply Hk; left). apply IH. intros k H. apply Hk. by right.
Qed.

Lemma lookup_listener s src dst sport dport l :
  0 <= l < TCP_MAX_PCB -> used (g_pcbs s l) = true -> state (g_pcbs s l) = TCPS_LISTEN -> lport (g_pcbs s l) = dport ->
  lip (g_pcbs s l) = IP_ANY \/ lip (g_pcbs s l) = dst -> (forall k, k <> l -> bystander (g_pcbs s k) src dst sport dport) ->
  pcb_lookup s src dst sport dport = Some l.
Proof.
  intros Hl Hu Hst Hp Ha Hk. unfold pcb_lookup.
  assert (Hin : l ∈ seqZ 0 TCP_MAX_PCB) by (apply elem_of_seqZ; unfold TCP_MAX_PCB in *; lia).
  pose proof (NoDup_seqZ 0 TCP_MAX_PCB) as Nd. revert Hin Nd. generalize (seqZ 0 TCP_MAX_PCB), (@None Z).
  induction l0 as [|x l0 IH]; intros o Hin Nd; [by apply elem_of_nil in Hin|]. apply NoDup_cons in Nd as [Hx Nd].
  destruct (Z.eq_dec x l) as [->|Hne].
  - simpl. rewrite Hu, Hp, Hst, !Z.eqb_refl. cbn [negb orb]. rewrite lookup_bystanders by (intros k Hk'; apply Hk; by intros ->).
    destruct Ha as [-> | ->]; rewrite ?Z.eqb_refl, ?orb_true_r; done.
  - rewrite lookup_bystander by (by apply Hk). apply elem_of_cons in Hin as [?|Hin]; [congruence|]. by apply IH.
Qed.

(** An ephemeral port is nobody's. *)
Lemma port_search_fresh k : forall s, let '(s', port) := port_search k s in
  port = 0 \/ forall x, 0 <= x < TCP_MAX_PCB -> used (g_pcbs s x) = true -> lport (g_pcbs s x) <> port.
Proof.
  induction k as [|k IH]; intros s; simpl; [by left|]. set (s1 := with_next_port s _).
  destruct (port_in_use s1 IP_ANY (next_port s)) eqn:E; cbn [negb].
  - specialize (IH s1). destruct (port_search k s1) as [s' port]. exact IH.
  - right. intros x Hx Hu Hp. assert (X : port_in_use s1 IP_ANY (next_port s) = true).
    { unfold port_in_use. apply existsb_exists. exists x. split; [apply list_elem_of_In, elem_of_seqZ; unfold TCP_MAX_PCB in *; lia|]. cbv zeta.
      change (g_pcbs s1 x) with (g_pcbs s x). by rewrite Hu, Hp, Z.eqb_refl, Z.eqb_refl, orb_true_r. }
    congruence.
Qed.

Lemma bind_any_fresh s i : lport (g_pcbs s i) = 0 -> snd (bind_any s i) = true ->
  forall k, k <> i -> 0 <= k < TCP_MAX_PCB -> used (g_pcbs s k) = true -> lport (g_pcbs s k) <> lport (g_pcbs (fst (bind_any s i)) i).
Proof.
  intros H0. unfold bind_any. rewrite H0, Z.eqb_refl. with_strategy transparent [ephemeral_port] unfold ephemeral_port.
  set (s0 := with_next_port s _). pose proof (port_search_fresh (Z.to_nat (65535 - EPHEMERAL_FIRST)) s0) as F.
  destruct (port_search _ s0) as [s' port]. cbn [fst snd]. intros Hp k Hk Hr Hu. rewrite edit_eq. cbn [lport set_lport].
  destruct F as [->|F]; [done|]. by apply F.
Qed.

(** A segment that was emitted is read as it was built. *)
Lemma input_segment hhdm ra s src dst p seq flags (seg := segment src dst p seq flags []) :
  pcb_typed p -> w32 seq -> byte flags ->
  tcp_input hhdm ra s src dst seg =
  match pcb_lookup s src dst (lport p) (rport p) with
  | None => tcp_send_rst s src dst seg 0 flags
  | Some i => if state (g_pcbs s i) =? TCPS_LISTEN then input_listen hhdm ra s i src dst seg (hdr_len flags) 0 flags
              else input_conn hhdm s i src dst seg (hdr_len flags) flags
  end.
Proof.
  intros T Hs Hf. assert (Hl : alen seg = hdr_len flags) by (unfold seg; rewrite segment_len; change (alen []) with 0; lia).
  destruct (segment_fields src dst p seq flags [] T Hs) as (F1 & F2 & _ & _ & F5 & F6 & _). fold seg in F1, F2, F5, F6.
  assert (V : net_checksum_pseudo src dst IP_PROTO_TCP seg = 0) by (apply segment_verifies; done).
  unfold tcp_input. rewrite V, Hl, F1, F2, F5, F6.
  pose proof (hdr_len_cases flags). destruct (Z.ltb_spec (hdr_len flags) 20); [lia|]. rewrite Z.ltb_irrefl, Z.sub_diag. done.
Qed.

(** ** The steps of the handshake *)

(** The block of a client that has sent its SYN. *)
Definition syn_block (p : pcb) (ip port lp iss : Z) : pcb :=
  set_state TCPS_SYN_SENT (set_snd_una iss (set_snd_nxt iss (set_snd_end iss (set_rport port (set_rip ip (set_lport lp p)))))).

Lemma connect_spec s i ip port s1 :
  tcp_connect s i ip port = (s1, 0) -> net_typed s ->
  state (g_pcbs s i) = TCPS_CLOSED /\
  exists lp iss, w16 lp /\ w32 iss /\
    (lport (g_pcbs s i) <> 0 -> lp = lport (g_pcbs s i)) /\
    (lport (g_pcbs s i) = 0 -> forall k, k <> i -> 0 <= k < TCP_MAX_PCB -> used (g_pcbs s k) = true -> lport (g_pcbs s k) <> lp) /\
    let p0 := syn_block (g_pcbs s i) ip port lp iss in
    g_pcbs s1 i = set_conn_at (u64 (ticks s + TCP_CONN_TICKS)) (set_rto_at (u64 (ticks s + rto_ticks (g_pcbs s i))) (set_snd_nxt (u32 (iss + 1)) p0)) /\
    (forall j, j <> i -> g_pcbs s1 j = g_pcbs s j) /\ n_mem s1 = n_mem s /\ g_ifs s1 = g_ifs s /\
    out s1 = out s ++ [(ip, segment (emit_src s p0) ip p0 iss TCP_SYN [])].
Proof.
  intros H N. unfold tcp_connect in H. cbv zeta in H.
  destruct (Z.eqb_spec (state (g_pcbs s i)) TCPS_CLOSED) as [E|]; cbn [negb] in H.
  2: { destruct (_ =? TCPS_ESTABLISHED); discriminate H. }
  split; [done|]. pose proof (bind_any_spec s i) as B. pose proof (bind_any_fresh s i) as Fr. destruct (bind_any s i) as [s' ok].
  destruct B as (Bm & Bout & Bifs & Bti & Bo & lp & Bi & Bok & Bl & Bt). destruct (Bt N) as [Hlp _]. cbn [fst snd] in Fr.
  destruct ok; cbn [negb] in H; [|discriminate H]. destruct (net_route_src _ _ =? 0); [discriminate H|].
  pose proof (next_iss_spec s') as I. destruct (next_iss s') as [s'' iss]. destruct I as (Hi & Ep & Em & Eo & Ei & Et & _).
  apply (f_equal fst) in H. cbn [fst] in H. set (p0 := syn_block (g_pcbs s i) ip port lp iss). subst s1.
  match goal with |- context [tcp_emit ?x _ _ _ _] => set (s2 := x) end.
  assert (E2 : g_pcbs s2 i = p0) by (unfold s2; rewrite edit_eq, Ep, Bi; done).
  assert (O2 : forall j, j <> i -> g_pcbs s2 j = g_pcbs s j) by (intros j Hj; unfold s2; rewrite edit_ne, Ep by done; by apply Bo).
  assert (F2 : n_mem s2 = n_mem s /\ g_ifs s2 = g_ifs s /\ out s2 = out s /\ ticks s2 = ticks s).
  { unfold s2. cbn [edit with_pcb n_mem g_ifs out ticks]. rewrite Em, Ei, Eo, Et. auto. }
  destruct F2 as (Fm & Fi & Fo & Ft). clearbody s2. exists lp, iss. split; [done|]. split; [done|]. split; [exact Bl|].
  split; [intros H0 k Hk Hr Hu; rewrite Bi in Fr; exact (Fr H0 eq_refl k Hk Hr Hu)|]. cbv zeta.
  fold p0. unfold rto_arm. rewrite !edit_eq, tcp_emit_segment. cbn [send g_pcbs edit with_pcb ticks]. rewrite E2, Ft.
  split; [reflexivity|]. split; [intros j Hj; rewrite !upd_ne by done; by apply O2|].
  cbn [edit with_pcb n_mem g_ifs out send]. rewrite Fm, Fi, Fo. unfold emit_src. rewrite Fi. auto.
Qed.

(** A listener's new child. *)
Definition child_block (rx tx l src dst sport dport rseq iss wnd : Z) : pcb :=
  set_snd_mss TCP_MSS (set_state TCPS_SYN_RCVD (set_parent (Some l) (set_snd_wnd wnd
    (set_snd_una iss (set_snd_nxt iss (set_snd_end iss (set_rcv_read (u32 (rseq + 1)) (set_rcv_nxt (u32 (rseq + 1))
    (set_rport sport (set_rip src (set_lport dport (set_lip dst (new_pcb rx tx))))))))))))).

Lemma listen_spec hhdm ra s l s0 c src dst p rseq (seg := segment src dst p rseq TCP_SYN []) :
  pcb_typed p -> w32 rseq -> dst <> 0 -> 0 <= l < TCP_MAX_PCB ->
  used (g_pcbs s l) = true -> state (g_pcbs s l) = TCPS_LISTEN -> lport (g_pcbs s l) = rport p ->
  lip (g_pcbs s l) = IP_ANY \/ lip (g_pcbs s l) = dst ->
  (forall k, k <> l -> bystander (g_pcbs s k) src dst (lport p) (rport p)) -> pcb_alloc hhdm ra s = (s0, Some c) ->
  exists iss t, w32 iss /\ c <> l /\ 0 <= c < TCP_MAX_PCB /\
    let q := child_block (rx_phys (g_pcbs s0 c)) (tx_phys (g_pcbs s0 c)) l src dst (lport p) (rport p) rseq iss (u16 (rcv_wnd p)) in
    let s' := tcp_input hhdm ra s src dst seg in
    g_pcbs s' c = set_rto_at t (set_snd_nxt (u32 (iss + 1)) q) /\ (forall k, k <> c -> g_pcbs s' k = g_pcbs s k) /\
    out s' = out s0 ++ [(src, segment dst src q iss (Z.lor TCP_SYN TCP_ACK) [])] /\ g_ifs s' = g_ifs s.
Proof.
  intros T Hs Hd Hl Hu Hst Hp Ha Hk Hc. pose proof (pcb_alloc_cases hhdm ra s) as C. rewrite Hc in C.
  destruct C as (Hcr & Huc & O & rx & tx & Ec). assert (c <> l) by (intros ->; congruence).
  unfold seg. rewrite input_segment by done. fold seg. rewrite (lookup_listener _ _ _ _ _ l) by done. rewrite Hst. cbn [Z.eqb].
  change (TCPS_LISTEN =? TCPS_LISTEN) with true. unfold input_listen. change (bit TCP_SYN TCP_RST) with false.
  change (bit TCP_SYN TCP_ACK) with false. change (bit TCP_SYN TCP_SYN) with true. cbv iota. unfold syn_arrived. rewrite Hc.
  pose proof (next_iss_spec s0) as I. destruct (next_iss s0) as [s1 iss]. destruct I as (Hi & Ep & _ & Eo & Ee & _ & _).
  destruct (segment_fields src dst p rseq TCP_SYN [] T Hs) as (F1 & _ & F3 & _ & _ & _ & F7 & _ & F9). fold seg in F1, F3, F7, F9.
  change (hdr_len TCP_SYN) with 24. rewrite F1, F3, F7. cbv zeta. exists iss.
  rewrite Ec. cbn [rx_phys tx_phys new_pcb set_rx_phys set_tx_phys set_used set_state set_snd_wnd set_snd_mss]. set (q := child_block _ _ _ _ _ _ _ _ _ _).
  match goal with |- context [tcp_emit ?x _ _ _ _] => set (s2 := x) end.
  assert (E2 : g_pcbs s2 c = q).
  { unfold s2. rewrite edit_eq, Ep, Ec, F9 by done. rewrite (oa_others _ _ _ O) by done. by rewrite Hp. }
  assert (O2 : forall k, k <> c -> g_pcbs s2 k = g_pcbs s k).
  { intros k Hkc. unfold s2. rewrite edit_ne, Ep by done. by apply (oa_others _ _ _ O). }
  assert (V2 : out s2 = out s0 /\ g_ifs s2 = g_ifs s) by (destruct (oa_env _ _ _ O); split; [exact Eo|unfold s2; cbn; congruence]).
  clearbody s2. destruct V2 as [Vo Vi]. eexists. split; [done|]. split; [done|]. split; [done|].
  unfold rto_arm. rewrite !edit_eq, tcp_emit_segment. cbn [send g_pcbs edit with_pcb out g_ifs]. rewrite E2.
  split; [reflexivity|]. split; [intros k Hkc; rewrite !upd_ne by done; by apply O2|]. split; [|done].
  rewrite Vo. unfold emit_src. cbn. apply Z.eqb_neq in Hd. by rewrite Hd.
Qed.

(** What the second leg makes of the client's block. *)
Definition joined (ack rseq wnd : Z) (p : pcb) : pcb :=
  cwnd_init (set_snd_mss TCP_MSS (set_state TCPS_ESTABLISHED (set_conn_at 0 (set_rto_at 0 (set_snd_wnd wnd
    (set_snd_una ack (set_rcv_read (u32 (rseq + 1)) (set_rcv_nxt (u32 (rseq + 1)) p)))))))).

Lemma syn_ack_spec hhdm ra s i src dst q rseq (seg := segment src dst q rseq (Z.lor TCP_SYN TCP_ACK) []) :
  pcb_typed q -> w32 rseq -> 0 <= i < TCP_MAX_PCB -> matches (g_pcbs s i) src dst (lport q) (rport q) ->
  state (g_pcbs s i) = TCPS_SYN_SENT -> (forall k, k <> i -> aside (g_pcbs s k) src dst (lport q) (rport q)) ->
  rcv_nxt q = snd_nxt (g_pcbs s i) ->
  let p := joined (rcv_nxt q) rseq (u16 (rcv_wnd q)) (g_pcbs s i) in
  let s' := tcp_input hhdm ra s src dst seg in
  g_pcbs s' i = p /\ (forall k, k <> i -> g_pcbs s' k = g_pcbs s k) /\ n_mem s' = n_mem s /\ g_ifs s' = g_ifs s /\
  out s' = out s ++ [(rip p, segment (emit_src s p) (rip p) p (snd_nxt p) TCP_ACK [])].
Proof.
  intros T Hs Hi M Hst Hk Hack p. destruct (segment_fields src dst q rseq (Z.lor TCP_SYN TCP_ACK) [] T Hs) as (_ & _ & F3 & F4 & _ & _ & F7 & _ & F9).
  fold seg in F3, F4, F7, F9. unfold seg. rewrite input_segment by done. fold seg. rewrite (lookup_conn _ _ _ _ _ i) by done. rewrite Hst.
  change (TCPS_SYN_SENT =? TCPS_LISTEN) with false. cbv iota. unfold input_conn. rewrite Hst.
  change (bit (Z.lor TCP_SYN TCP_ACK) TCP_RST) with false. change (TCPS_SYN_SENT =? TCPS_SYN_SENT) with true. cbv iota zeta.
  unfold input_syn_sent. change (Z.land (Z.lor TCP_SYN TCP_ACK) (Z.lor TCP_SYN TCP_ACK) =? Z.lor TCP_SYN TCP_ACK) with true.
  change (bit (Z.lor TCP_SYN TCP_ACK) TCP_ACK) with true in F4. cbv iota in F4. rewrite F4, Hack, Z.eqb_refl. cbn [andb].
  change (hdr_len (Z.lor TCP_SYN TCP_ACK)) with 24. rewrite F3, F7. set (s1 := edit s i _).
  assert (E1 : g_pcbs s1 i = p) by (unfold s1; rewrite edit_eq; cbv zeta; rewrite F9 by done; unfold p; by rewrite Hack).
  unfold tcp_send_ack. rewrite tcp_emit_segment, E1. split; [exact E1|].
  split; [intros k Hki; unfold s1; cbn [send g_pcbs]; by rewrite edit_ne|]. done.
Qed.

Definition greeted (ack : Z) (p : pcb) : pcb := cwnd_init (set_state TCPS_ESTABLISHED (set_rto_at 0 (set_snd_una ack p))).

Lemma greet_spec hhdm s c l ack (p := g_pcbs s c) :
  state p = TCPS_SYN_RCVD -> ack = snd_nxt p -> fin_sent p = false -> parent p = Some l -> l <> c ->
  used (g_pcbs s l) = true -> state (g_pcbs s l) = TCPS_LISTEN -> alen (accept_q (g_pcbs s l)) < TCP_BACKLOG ->
  input_ack hhdm s c ack = Some (edit (edit s c (greeted ack)) l (set_accept_q (accept_q (g_pcbs s l) ++ [c]))).
Proof.
  intros Hst -> Hfin Hpar Hl Hlu Hls Hq. unfold input_ack. fold p. rewrite Hst, !Z.eqb_refl. cbn [negb].
  cbv zeta. change (edit s c _) with (edit s c (greeted (snd_nxt p))). set (s1 := edit s c (greeted (snd_nxt p))).
  assert (E1 : g_pcbs s1 c = greeted (snd_nxt p) p) by (unfold s1; by rewrite edit_eq).
  assert (El : g_pcbs s1 l = g_pcbs s l) by (unfold s1; by rewrite edit_ne).
  assert (Q : queue_child s1 c = edit s1 l (set_accept_q (accept_q (g_pcbs s l) ++ [c]))).
  { unfold queue_child. rewrite E1. change (parent (greeted _ p)) with (parent p). rewrite Hpar, El, Hlu, Hls.
    apply Z.ltb_lt in Hq. rewrite Hq. change (true && (TCPS_LISTEN =? TCPS_LISTEN) && true) with true. cbv iota. unfold edit. by rewrite El. }
  rewrite Q. unfold fin_acked. rewrite edit_ne, E1 by done. change (fin_sent (greeted _ p)) with (fin_sent p). by rewrite Hfin.
Qed.

Lemma text_empty hhdm s c seq :
  state (g_pcbs s c) <> TCPS_CLOSED -> seq = rcv_nxt (g_pcbs s c) -> input_text hhdm s c seq [] TCP_ACK = s.
Proof.
  intros H ->. unfold input_text. apply Z.eqb_neq in H. rewrite H. cbv zeta. rewrite Z.eqb_refl. done.
Qed.

Lemma ack_spec hhdm ra s c l src dst p seq (seg := segment src dst p seq TCP_ACK []) :
  pcb_typed p -> w32 seq -> 0 <= c < TCP_MAX_PCB -> matches (g_pcbs s c) src dst (lport p) (rport p) ->
  state (g_pcbs s c) = TCPS_SYN_RCVD -> (forall k, k <> c -> aside (g_pcbs s k) src dst (lport p) (rport p)) ->
  rcv_nxt p = snd_nxt (g_pcbs s c) -> seq = rcv_nxt (g_pcbs s c) -> fin_sent (g_pcbs s c) = false ->
  parent (g_pcbs s c) = Some l -> l <> c -> used (g_pcbs s l) = true -> state (g_pcbs s l) = TCPS_LISTEN -> alen (accept_q (g_pcbs s l)) < TCP_BACKLOG ->
  tcp_input hhdm ra s src dst seg = edit (edit s c (greeted (rcv_nxt p))) l (set_accept_q (accept_q (g_pcbs s l) ++ [c])).
Proof.
  intros T Hs Hc M Hst Hk Hack Hseq Hfin Hpar Hl Hlu Hls Hq. destruct (segment_fields src dst p seq TCP_ACK [] T Hs) as (_ & _ & F3 & F4 & _ & _ & _ & F8 & _).
  unfold seg. rewrite input_segment, (lookup_conn _ _ _ _ _ c), Hst by done. change (TCPS_SYN_RCVD =? TCPS_LISTEN) with false. cbv iota.
  unfold input_conn. rewrite Hst, F3, F4, F8. change (bit TCP_ACK TCP_RST) with false. change (TCPS_SYN_RCVD =? TCPS_SYN_SENT) with false.
  change (bit TCP_ACK TCP_ACK) with true. cbv iota zeta. rewrite (greet_spec hhdm s c l) by done. apply text_empty; by rewrite edit_ne, edit_eq by done.
Qed.

(** ** The invariants at the start *)

Lemma greeted_pages hhdm ack t n p : pages_apart hhdm p -> pages_apart hhdm (greeted ack (set_rto_at t (set_snd_nxt n p))).
Proof. destruct p. exact id. Qed.

Lemma carries_empty iss src dst p flags x :
  pcb_typed p -> bit flags TCP_FIN = false -> 0 <= x <= 1 -> carries iss [] false (segment src dst p (u32 (iss + x)) flags []).
Proof. intros T Hf Hx. apply carries_segment; auto; try (change (alen []) with 0); [lia|lia|congruence]. Qed.

Lemma carries_syn iss src dst p flags :
  pcb_typed p -> bit flags TCP_FIN = false -> w32 iss -> carries iss [] false (segment src dst p iss flags []).
Proof. intros T Hf Hi. pose proof (carries_empty iss src dst p flags 0 T Hf) as C. rewrite Z.add_0_r, u32_small in C by done. by apply C. Qed.

Lemma child_typed rx tx l src dst sport dport rseq iss wnd :
  0 <= l < TCP_MAX_PCB -> w32 src -> w32 dst -> w16 sport -> w16 dport -> w32 iss -> w16 wnd ->
  pcb_typed (child_block rx tx l src dst sport dport rseq iss wnd).
Proof. intros. constructor; simpl; try done; try apply u32_w32; done. Qed.

Lemma syn_block_typed p ip port lp iss : pcb_typed p -> w32 ip -> w16 port -> w16 lp -> w32 iss -> pcb_typed (syn_block p ip port lp iss).
Proof. intros T ? ? ? ?. revert T. typed. Qed.

(** A host whose block [i] can connect to that address and port.  Its other
    blocks may be in use: none of them is a connection to the same place, unless
    it has another port of this host or [i] will be given a fresh one.  The
    record of what has been sent starts here. *)
Record idle (hhdm : Z) (s : net) (i ip port : Z) : Prop := {
  id_typed : net_typed s;
  id_slot : 0 <= i < TCP_MAX_PCB;
  id_used : used (g_pcbs s i) = true;
  id_any : lip (g_pcbs s i) = IP_ANY;
  id_fin : fin_queued (g_pcbs s i) = false /\ fin_sent (g_pcbs s i) = false /\ fin_seen (g_pcbs s i) = false /\
    rx_shutdown (g_pcbs s i) = false;
  id_pages : pages_apart hhdm (g_pcbs s i);
  id_table : forall k, ~ (0 <= k < TCP_MAX_PCB) -> used (g_pcbs s k) = false;
  id_others : forall k, k <> i -> lport (g_pcbs s i) = 0 \/ used (g_pcbs s k) = false \/ state (g_pcbs s k) = TCPS_LISTEN \/
    state (g_pcbs s k) = TCPS_CLOSED \/ lport (g_pcbs s k) <> lport (g_pcbs s i) \/ rip (g_pcbs s k) <> ip \/ rport (g_pcbs s k) <> port;
  id_out : out s = []
}.

(** A host whose block [l] listens for that address, with room in its accept
    queue, and with a free block and memory for the rings of a child.  Its other
    blocks may be in use: none listens for that address and port too, and none
    is a connection with that client's address and port [sport]. *)
Record serving (hhdm ra : Z) (s : net) (l ip port src sport c : Z) : Prop := {
  sv_typed : net_typed s;
  sv_slot : 0 <= l < TCP_MAX_PCB;
  sv_used : used (g_pcbs s l) = true;
  sv_state : state (g_pcbs s l) = TCPS_LISTEN;
  sv_port : lport (g_pcbs s l) = port;
  sv_lip : lip (g_pcbs s l) = IP_ANY \/ lip (g_pcbs s l) = ip;
  sv_queue : alen (accept_q (g_pcbs s l)) < TCP_BACKLOG;
  sv_others : forall k, k <> l -> bystander (g_pcbs s k) src ip sport port;
  sv_pmm : pmm_wf (n_pmm s) /\ 0 <= hhdm /\ hhdm + PAGE_SIZE * g_total (n_pmm s) <= 2 ^ 64;
  sv_alloc : snd (pcb_alloc hhdm ra s) = Some c;
  sv_out : out s = []
}.

Section Handshake.
Context (hA raA hB raB : Z) (A B : net) (i l c ip port : Z).
Context (HA : idle hA A i ip port).
Context (Hip : w32 ip) (Hip0 : ip <> 0) (Hport : w16 port).

(** The address the client's segments come from. *)
Notation src := (net_route_src (g_ifs A) ip).
Context (Hsrc : w32 src).

(** The client's block once the SYN is out, and the child's. *)
Notation syn0 lp iss := (syn_block (g_pcbs A i) ip port lp iss).
Notation child lp issA issB rx tx :=
  (child_block rx tx l src ip lp port issA issB (u16 (rcv_wnd (syn0 lp issA)))).

Lemma first_leg A1 :
  tcp_connect A i ip port = (A1, 0) ->
  exists lp iss t1 t2, w16 lp /\ w32 iss /\ pcb_typed (syn0 lp iss) /\ net_typed A1 /\
    (forall k, k <> i -> aside (g_pcbs A k) ip src port lp) /\
    g_pcbs A1 i = set_conn_at t1 (set_rto_at t2 (set_snd_nxt (u32 (iss + 1)) (syn0 lp iss))) /\
    (forall j, j <> i -> g_pcbs A1 j = g_pcbs A j) /\ g_ifs A1 = g_ifs A /\
    out A1 = [(ip, segment src ip (syn0 lp iss) iss TCP_SYN [])].
Proof.
  intros HC. destruct HA. destruct (connect_spec A i ip port A1 HC) as (_ & lp & iss & Hlp & Hiss & Hb & Hf & E1 & O1 & _ & I1 & X1); [done|].
  exists lp, iss. eexists _, _. split; [done|]. split; [done|]. split; [apply syn_block_typed; auto; apply id_typed0|].
  split; [pose proof (connect_ok A i ip port Hip Hport) as [_ N]; rewrite HC in N; auto|].
  split.
  { intros k Hk. unfold aside. destruct (used (g_pcbs A k)) eqn:Hu; [|by left]. right.
    assert (Hr : 0 <= k < TCP_MAX_PCB) by (destruct (decide (0 <= k < TCP_MAX_PCB)) as [|Hn]; [done|]; by rewrite id_table0 in Hu).
    destruct (Z.eq_dec (lport (g_pcbs A i)) 0) as [E0|E0]; [left; by apply Hf|]. rewrite (Hb E0).
    destruct (id_others0 k Hk) as [?|[?|[?|[?|[?|[?|?]]]]]]; [congruence|congruence|auto 9..]. }
  split; [exact E1|]. split; [done|]. split; [done|]. rewrite X1, id_out0. unfold emit_src. cbn [syn_block lip rip set_state set_snd_una set_snd_nxt set_snd_end set_rport set_rip set_lport].
  by rewrite id_any0.
Qed.

Lemma second_leg lp issA (seg := segment src ip (syn0 lp issA) issA TCP_SYN []) :
  serving hB raB B l ip port src lp c -> w16 lp -> w32 issA -> pcb_typed (syn0 lp issA) ->
  exists issB t rx tx, w32 issB /\ c <> l /\ 0 <= c < TCP_MAX_PCB /\
    let q := child lp issA issB rx tx in
    let B1 := tcp_input hB raB B src ip seg in
    pcb_typed q /\ g_pcbs B1 c = set_rto_at t (set_snd_nxt (u32 (issB + 1)) q) /\ (forall k, k <> c -> g_pcbs B1 k = g_pcbs B k) /\
    pages_apart hB q /\ out B1 = [(src, segment ip src q issB (Z.lor TCP_SYN TCP_ACK) [])].
Proof.
  intros HB Hlp Hiss T. destruct HB. destruct (pcb_alloc hB raB B) as [B0 oc] eqn:HC. cbn [snd] in sv_alloc0. subst oc.
  destruct (pcb_alloc_new hB raB B B0 c) as (X0 & _ & P0); [apply sv_pmm0..|done|].
  destruct (listen_spec hB raB B l B0 c src ip (syn0 lp issA) issA) as (issB & t & Hb & Hcl & Hc & E & O & X & _); auto.
  exists issB, t, (rx_phys (g_pcbs B0 c)), (tx_phys (g_pcbs B0 c)). split; [done|]. split; [done|]. split; [done|]. cbv zeta.
  split; [apply child_typed; auto; apply Z.mod_pos_bound; lia|]. split; [exact E|]. split; [exact O|]. split; [exact P0|].
  unfold seg. rewrite X, X0, sv_out0. done.
Qed.

(** The client's end after the second leg. *)
Lemma client_opened A1 lp issA issB t1 t2 rx tx (q := child lp issA issB rx tx)
    (seg := segment ip src q issB (Z.lor TCP_SYN TCP_ACK) []) (A2 := tcp_input hA raA A1 ip src seg) :
  w16 lp -> w32 issA -> w32 issB -> pcb_typed (syn0 lp issA) -> pcb_typed q -> net_typed A1 ->
  (forall k, k <> i -> aside (g_pcbs A k) ip src port lp) ->
  g_pcbs A1 i = set_conn_at t1 (set_rto_at t2 (set_snd_nxt (u32 (issA + 1)) (syn0 lp issA))) ->
  (forall j, j <> i -> g_pcbs A1 j = g_pcbs A j) -> g_ifs A1 = g_ifs A ->
  out A1 = [(ip, segment src ip (syn0 lp issA) issA TCP_SYN [])] ->
  exists p, pcb_typed p /\ lport p = lp /\ rport p = port /\ rcv_nxt p = u32 (issB + 1) /\
    out A2 = out A1 ++ [(ip, segment src ip p (u32 (issA + 1)) TCP_ACK [])] /\
    state (g_pcbs A2 i) = TCPS_ESTABLISHED /\ sender hA issA [] false i A2 1 1 /\ receiver hA issB [] false i A2 1 1.
Proof.
  intros Hlp HiA HiB T Tq N1 Hlk E1 O1 I1 X1. destruct HA.
  destruct (syn_ack_spec hA raA A1 i ip src q issB) as (E2 & _ & _ & _ & X2); try done.
  { rewrite E1. split; [done|]. split; [done|]. split; [done|]. split; [done|]. split; [done|]. split; [done|by left]. }
  { by rewrite E1. }
  { intros k Hk. rewrite O1 by done. exact (Hlk k Hk). }
  { by rewrite E1. }
  fold seg in E2, X2. fold A2 in E2, X2. set (p := joined _ _ _ _) in *.
  assert (Np : pcb_typed p).
  { rewrite <- E2. apply (so_typed _ _ (input_ok hA raA A1 ip src seg Hip Hsrc ltac:(apply segment_bytes; done)) N1). }
  exists p. assert (Ep : p = joined (u32 (issA + 1)) issB (u16 (rcv_wnd q)) (g_pcbs A1 i)) by done. clearbody p.
  assert (P : rip p = ip /\ lip p = IP_ANY /\ snd_nxt p = u32 (issA + 1)) by (rewrite Ep, E1; done).
  destruct P as (P1 & P2 & P3). rewrite P1, P3 in X2. unfold emit_src in X2. rewrite P1, P2, I1 in X2. cbn [Z.eqb] in X2.
  change (IP_ANY =? 0) with true in X2. cbv iota in X2. rewrite Ep, E1 in E2.
  split; [done|]. split; [by rewrite Ep, E1|]. split; [by rewrite Ep, E1|]. split; [by rewrite Ep, E1|]. split; [exact X2|].
  destruct id_fin0 as (Hf1 & Hf2 & Hf3 & Hf4). split; [by rewrite E2|]. split.
  - apply fresh_sender; rewrite ?E2; try done. { rewrite <- E1, <- Ep. done. } { simpl. symmetry. by apply u32_small. }
    rewrite X2, X1. apply Forall_cons; split; [by apply carries_syn|]. apply Forall_cons; split; [by apply carries_empty|done].
  - by apply fresh_receiver; rewrite E2.
Qed.

(** The server's end after the third leg. *)
Lemma server_opened B1 lp issA issB t rx tx p (q := child lp issA issB rx tx)
    (seg := segment src ip p (u32 (issA + 1)) TCP_ACK []) (B2 := tcp_input hB raB B1 src ip seg) :
  serving hB raB B l ip port src lp c ->
  w32 issB -> pcb_typed p -> lport p = lp -> rport p = port -> rcv_nxt p = u32 (issB + 1) -> net_typed B1 ->
  c <> l -> 0 <= c < TCP_MAX_PCB -> pcb_typed q ->
  g_pcbs B1 c = set_rto_at t (set_snd_nxt (u32 (issB + 1)) q) -> (forall k, k <> c -> g_pcbs B1 k = g_pcbs B k) ->
  pages_apart hB q -> out B1 = [(src, segment ip src q issB (Z.lor TCP_SYN TCP_ACK) [])] ->
  state (g_pcbs B2 c) = TCPS_ESTABLISHED /\ state (g_pcbs B2 l) = TCPS_LISTEN /\
  accept_q (g_pcbs B2 l) = accept_q (g_pcbs B l) ++ [c] /\
  sender hB issB [] false c B2 1 1 /\ receiver hB issA [] false c B2 1 1.
Proof.
  intros HB HiB Tp Lp Rp Kp N1 Hcl Hc Tq E1 O1 Pq X1. destruct HB.
  assert (E2 : B2 = edit (edit B1 c (greeted (rcv_nxt p))) l (set_accept_q (accept_q (g_pcbs B l) ++ [c]))).
  { unfold B2, seg. rewrite <- (O1 l) by done. apply ack_spec; rewrite ?E1, ?(O1 l) by done; try done.
    - apply u32_w32.
    - split; [done|]. split; [done|]. split; [done|]. split; [by symmetry|]. split; [by symmetry|]. split; [done|by right].
    - intros k Hk. rewrite O1 by done. rewrite Lp, Rp. destruct (Z.eq_dec k l) as [->|]; [right; right; by left|by apply sv_others0]. }
  assert (T2 : pcb_typed (g_pcbs B2 c)).
  { apply (so_typed _ _ (input_ok hB raB B1 src ip seg Hsrc Hip ltac:(apply segment_bytes; done)) N1). }
  clearbody B2 seg. assert (Ec : g_pcbs B2 c = greeted (u32 (issB + 1)) (set_rto_at t (set_snd_nxt (u32 (issB + 1)) q))).
  { rewrite E2, edit_ne by done. rewrite edit_eq, Kp, E1. reflexivity. }
  assert (El : g_pcbs B2 l = set_accept_q (accept_q (g_pcbs B l) ++ [c]) (g_pcbs B l)) by (rewrite E2, edit_eq, edit_ne, O1 by done; reflexivity).
  split; [by rewrite Ec|]. split; [by rewrite El|]. split; [by rewrite El|]. split.
  - apply fresh_sender; rewrite ?Ec; try reflexivity. { by rewrite <- Ec. } { symmetry. by apply u32_small. } { exact (greeted_pages hB _ _ _ q Pq). }
    rewrite E2. cbn [edit with_pcb out]. rewrite X1. apply Forall_cons; split; [by apply carries_syn|done].
  - apply fresh_receiver; rewrite Ec; try reflexivity. exact (greeted_pages hB _ _ _ q Pq).
Qed.

(** C7: The three-way handshake.  A host's closed block connects to an address and
    port at which a block of the other host listens; that host has a free block,
    two free pages and room in the accept queue; the other blocks of the two
    hosts may be in use, as long as none is the same connection or listens at the
    same place ([idle], [serving]).  When the three segments are delivered, both
    blocks are ESTABLISHED; the new one is last in the accept queue, so
    [tcp_accept] returns the one that was first before, and the new one when the
    queue was empty; and the two are synchronised in both directions: each end's
    send side starts where the other end's receive side does, with nothing in
    the rings (the premise [opened] of the stream theorem). *)
Theorem tcp_handshake A1 (HC : tcp_connect A i ip port = (A1, 0)) (HB : serving hB raB B l ip port src (lport (g_pcbs A1 i)) c) :
  exists syn synack ack issA issB, out A1 = [(ip, syn)] /\
    let B1 := tcp_input hB raB B src ip syn in out B1 = [(src, synack)] /\
    let A2 := tcp_input hA raA A1 ip src synack in out A2 = [(ip, syn); (ip, ack)] /\
    let B2 := tcp_input hB raB B1 src ip ack in
    tcp_state A2 i = TCPS_ESTABLISHED /\ tcp_state B2 c = TCPS_ESTABLISHED /\
    accept_q (g_pcbs B2 l) = accept_q (g_pcbs B l) ++ [c] /\
    snd (tcp_accept B2 l) = Some (default c (head (accept_q (g_pcbs B l)))) /\
    opened hA hB i c issA (Link A2 B2 [] []) /\ opened hB hA c i issB (Link B2 A2 [] []).
Proof.
  destruct (first_leg A1 HC) as (lp & issA & t1 & t2 & Hlp & HiA & Tp & N1 & Hlk & E1 & O1 & I1 & X1).
  rewrite E1 in HB. change (lport _) with lp in HB.
  destruct (second_leg lp issA HB Hlp HiA Tp) as (issB & t & rx & tx & HiB & Hcl & Hc & Tq & F1 & P1 & Pq & Y1).
  set (syn := segment src ip (syn0 lp issA) issA TCP_SYN []) in *. set (B1 := tcp_input hB raB B src ip syn) in *.
  assert (NB : net_typed B1).
  { apply (so_typed _ _ (input_ok hB raB B src ip syn Hsrc Hip ltac:(apply segment_bytes; done))). apply HB. }
  set (q := child lp issA issB rx tx) in *. set (synack := segment ip src q issB (Z.lor TCP_SYN TCP_ACK) []) in *.
  destruct (client_opened A1 lp issA issB t1 t2 rx tx) as (p & Np & Lp & Rp & Kp & X2 & SA & S1 & R1); auto.
  fold q in X2, SA, S1, R1. fold synack in X2, SA, S1, R1. set (ack := segment src ip p (u32 (issA + 1)) TCP_ACK []) in *.
  destruct (server_opened B1 lp issA issB t rx tx p HB) as (SB & SL & Q2 & S2 & R2); auto.
  exists syn, synack, ack, issA, issB. split; [exact X1|]. cbv zeta. split; [exact Y1|]. split; [by rewrite X2, X1|].
  split; [exact SA|]. split; [exact SB|]. split; [exact Q2|]. split; [|split; (split; [done|split; [done|done]])].
  unfold tcp_accept. cbv zeta. fold B1 ack in SL, Q2 |- *. rewrite SL, Q2. change (TCPS_LISTEN =? TCPS_LISTEN) with true. cbv iota.
  by destruct (accept_q (g_pcbs B l)).
Qed.
End Handshake.

(** A client and a server that have just booted. *)
Definition demo_server : net :=
  fst (tcp_listen (fst (tcp_bind (fst (pcb_alloc demo_hhdm 0 (demo_host 0x0A000002))) 0 IP_ANY 80)) 0).

Lemma demo_typed ip : net_typed (demo_host ip).
Proof. split; [done|]. intros. apply blank_typed. Qed.

Lemma demo_free ip k : k <> 0 -> used (g_pcbs (fst (pcb_alloc demo_hhdm 0 (demo_host ip))) k) = false.
Proof.
  intros Hk. pose proof (pcb_alloc_cases demo_hhdm 0 (demo_host ip)) as C.
  assert (E : snd (pcb_alloc demo_hhdm 0 (demo_host ip)) = Some 0) by (vm_compute; reflexivity).
  destruct (pcb_alloc _ _ _) as [s [i|]]; [|done]. injection E as ->. cbn [fst]. by rewrite (oa_others _ _ _ (proj1 (proj2 (proj2 C)))).
Qed.

Lemma bind_others s i ip port k : k <> i -> g_pcbs (fst (tcp_bind s i ip port)) k = g_pcbs s k.
Proof. intros Hk. unfold tcp_bind. repeat (match goal with |- context [if ?b then _ else _] => destruct b end; [done|]). by apply edit_ne. Qed.

Lemma listen_others s i k : k <> i -> g_pcbs (fst (tcp_listen s i)) k = g_pcbs s k.
Proof.
  intros Hk. unfold tcp_listen. destruct (negb _); [done|]. pose proof (bind_any_spec s i) as B. destruct (bind_any s i) as [s' ok].
  destruct B as (_ & _ & _ & _ & O & _). destruct (negb ok); cbn [fst]; rewrite ?edit_ne by done; auto.
Qed.

Lemma demo_idle : idle demo_hhdm demo_client 0 0x0A000002 80.
Proof.
  constructor; try (vm_compute; done).
  - apply (so_typed _ _ (new_ok demo_hhdm 0 (demo_host 0x0A000001))), demo_typed.
  - right. vm_compute. discriminate.
  - intros k Hk. apply demo_free. intros ->. by destruct Hk.
  - intros k Hk. right. left. by apply demo_free.
Qed.

Lemma demo_serving : serving demo_hhdm 0 demo_server 0 0x0A000002 80 0x0A000001 49152 1.
Proof.
  constructor; try (vm_compute; done); try (vm_compute; auto; fail).
  - apply (so_typed _ _ (listen_ok _ _)), (so_typed _ _ (tcp_bind_ok _ 0 IP_ANY 80 ltac:(done) ltac:(done))), (so_typed _ _ (new_ok _ _ _)), demo_typed.
  - intros k Hk. assert (U : used (g_pcbs demo_server k) = false)
      by (unfold demo_server; rewrite listen_others, bind_others by done; by apply demo_free).
    split; [by left|]. intros Hu. congruence.
  - assert (E : n_pmm demo_server = Pmm [255; 243] 2 16 2 [] 0 10) by (vm_compute; reflexivity). rewrite E.
    split; [|done]. constructor; simpl; try lia; try done. repeat constructor; lia.
Qed.

Lemma tcp_handshake_witness :
  let A1 := fst (tcp_connect demo_client 0 0x0A000002 80) in
  exists syn synack ack issA issB, out A1 = [(0x0A000002, syn)] /\
    let B1 := tcp_input demo_hhdm 0 demo_server 0x0A000001 0x0A000002 syn in
    let A2 := tcp_input demo_hhdm 0 A1 0x0A000002 0x0A000001 synack in
    let B2 := tcp_input demo_hhdm 0 B1 0x0A000001 0x0A000002 ack in
    snd (tcp_accept B2 0) = Some 1 /\ opened demo_hhdm demo_hhdm 0 1 issA (Link A2 B2 [] []) /\
    opened demo_hhdm demo_hhdm 1 0 issB (Link B2 A2 [] []).
Proof.
  intros A1. assert (HC : tcp_connect demo_client 0 0x0A000002 80 = (A1, 0)).
  { assert (R : snd (tcp_connect demo_client 0 0x0A000002 80) = 0) by (vm_compute; reflexivity).
    rewrite <- R. apply surjective_pairing. }
  assert (Hs : net_route_src (g_ifs demo_client) 0x0A000002 = 0x0A000001) by (vm_compute; reflexivity).
  assert (Hp : lport (g_pcbs A1 0) = 49152) by (vm_compute; reflexivity).
  clearbody A1. pose proof demo_idle as HA. pose proof demo_serving as HB. assert (Hq : accept_q (g_pcbs demo_server 0) = []) by (vm_compute; reflexivity).
  revert HC Hs Hp HA HB Hq. generalize demo_client, demo_server.
  intros A B HC Hs Hp HA HB Hq. assert (Hw : w32 (net_route_src (g_ifs A) 0x0A000002)) by (rewrite Hs; done).
  rewrite <- Hs, <- Hp in HB.
  pose proof (tcp_handshake demo_hhdm 0 demo_hhdm 0 A B 0 0 1 0x0A000002 80 HA ltac:(done) ltac:(done) ltac:(done) Hw A1 HC HB) as H.
  rewrite Hs in H. destruct H as (syn & synack & ack & issA & issB & H1 & _ & _ & _ & _ & _ & H2 & H3 & H4). rewrite Hq in H2.
  exists syn, synack, ack, issA, issB. split; [exact H1|]. split; [exact H2|]. split; [exact H3|exact H4].
Defined.
