(* ===== verification/TcpTimer.v ===== *)
(** * The timers, and the ends of a Tcp stream

    The schedule of the retransmissions to a silent peer, with the timeout
    doubled each time up to its bound, and the block closed at the sixth; a block
    that has just sent its first SYN is closed after six ticks.  Two theorems show what the
    sequence numbers of the SYN and of the FIN do to the rings. *)
From S2P Require Import Prelude Mem Pmm Net Tcp TcpSeg TcpState TcpStream TcpConn TcpOpen.
#[local] Open Scope Z_scope.

(** [n] steps from time [t] on. *)
Fixpoint elapse {A} (f : Z -> A -> A) (n : nat) (t : Z) (s : A) : A :=
  match n with O => s | S k => elapse f k (t + 1) (f t s) end.

Lemma elapse_S {A} (f : Z -> A -> A) n t s : elapse f (S n) t s = elapse f n (t + 1) (f t s).
Proof. done. Qed.

Section Timer.
Context (hhdm : Z).

(** ** One tick, as a function of the block *)

Definition retried (t : Z) (p : pcb) : pcb :=
  let p := set_retries (retries p + 1) p in
  if TCP_MAX_RETRIES <? retries p then set_rto_at 0 (set_state TCPS_CLOSED (set_error E_TIMEDOUT p))
  else set_rto_at (u64 (t + rto_ticks (backoff p))) (backoff p).

Definition due (t d : Z) : bool := negb (d =? 0) && (d <=? t).
Definition ticked (t : Z) (p : pcb) : pcb :=
  if negb (used p) then p
  else
    let p := if due t (rto_at p) then retried t p else p in
    let p := if due t (conn_at p) then set_rto_at 0 (set_conn_at 0 (set_state TCPS_CLOSED (set_error E_TIMEDOUT p))) else p in
    if due t (tw_at p) then set_tw_at 0 (set_state TCPS_CLOSED p) else p.

Lemma retransmit_segment_pcbs s i : g_pcbs (retransmit_segment hhdm s i) = g_pcbs s /\ ticks (retransmit_segment hhdm s i) = ticks s.
Proof. unfold retransmit_segment. cbv zeta. destruct (_ =? _); [done|]. by destruct (_ =? _). Qed.

Lemma retransmit_block s i : g_pcbs (tcp_retransmit hhdm s i) i = retried (ticks s) (g_pcbs s i) /\ ticks (tcp_retransmit hhdm s i) = ticks s.
Proof.
  unfold tcp_retransmit, retried. cbv zeta. rewrite edit_eq. set (s1 := edit s i _).
  assert (E1 : g_pcbs s1 i = set_retries (retries (g_pcbs s i) + 1) (g_pcbs s i)) by (unfold s1; by rewrite edit_eq).
  assert (T1 : ticks s1 = ticks s) by done. clearbody s1. destruct (_ <? _); [by rewrite edit_eq, E1|].
  destruct (retransmit_segment_pcbs s1 i) as [P T]. unfold rto_arm. rewrite !edit_eq, P, E1. cbn [edit with_pcb ticks]. by rewrite T, T1.
Qed.

Lemma tick_one_block s i : g_pcbs (tick_one hhdm s i) i = ticked (ticks s) (g_pcbs s i) /\ ticks (tick_one hhdm s i) = ticks s.
Proof.
  unfold tick_one, ticked. cbv zeta. destruct (negb (used _)); [done|]. fold (due (ticks s) (rto_at (g_pcbs s i))).
  set (s1 := if _ : bool then tcp_retransmit _ _ _ else s). set (p1 := if _ : bool then retried _ _ else _).
  assert (H1 : g_pcbs s1 i = p1 /\ ticks s1 = ticks s) by (unfold s1, p1; destruct (due _ _); [apply retransmit_block|done]).
  clearbody s1 p1. destruct H1 as [E1 T1]. rewrite E1, T1. fold (due (ticks s) (conn_at p1)).
  set (s2 := if _ : bool then edit s1 i _ else s1). set (p2 := if _ : bool then set_rto_at _ _ else p1).
  assert (H2 : g_pcbs s2 i = p2 /\ ticks s2 = ticks s).
  { unfold s2, p2. destruct (due _ _); [|done]. rewrite edit_eq, E1. done. }
  clearbody s2 p2. destruct H2 as [E2 T2]. rewrite E2, T2. fold (due (ticks s) (tw_at p2)).
  destruct (due _ _); [|done]. rewrite edit_eq, E2. done.
Qed.

Lemma tick_one_others s i j : j <> i -> g_pcbs (tick_one hhdm s i) j = g_pcbs s j.
Proof. intros Hj. by apply (ob_others _ _ _ (block_tick_one hhdm s i)). Qed.

Lemma fold_ticks i : forall l s, NoDup l ->
  ticks (fold_left (tick_one hhdm) l s) = ticks s /\
  (i ∈ l -> g_pcbs (fold_left (tick_one hhdm) l s) i = ticked (ticks s) (g_pcbs s i)) /\
  (i ∉ l -> g_pcbs (fold_left (tick_one hhdm) l s) i = g_pcbs s i).
Proof.
  induction l as [|x l IH]; intros s Nd; simpl; [split; [done|]; split; [intros H; by apply elem_of_nil in H|done]|].
  apply NoDup_cons in Nd as [Hx Nd]. destruct (IH (tick_one hhdm s x) Nd) as (IT & I1 & I2). destruct (tick_one_block s x) as [E T].
  rewrite IT, T in *. split; [done|]. split; intros H.
  - destruct (Z.eq_dec i x) as [->|Hne]; [rewrite I2; done|]. apply elem_of_cons in H as [?|H]; [done|].
    rewrite I1, tick_one_others by done. done.
  - apply not_elem_of_cons in H as [H1 H2]. rewrite I2, tick_one_others; done.
Qed.

Lemma tcp_tick_block s i : 0 <= i < TCP_MAX_PCB -> g_pcbs (tcp_tick hhdm s) i = ticked (ticks s) (g_pcbs s i).
Proof.
  intros Hi. apply (fold_ticks i _ s (NoDup_seqZ 0 TCP_MAX_PCB)). apply elem_of_seqZ. unfold TCP_MAX_PCB in *. lia.
Qed.

(** ** A silent peer *)

(** The ticks of a stretch of time in which nothing else happens. *)
Definition silence : nat -> Z -> net -> net := elapse (fun t s => tcp_tick hhdm (with_ticks s t)).

(** The block is closed, for want of an answer; [e] says that it was not in
    TIME_WAIT. *)
Definition given_up (e : Prop) (p : pcb) : Prop := used p = true /\ state p = TCPS_CLOSED /\ (e -> tw_at p = 0 /\ error p = E_TIMEDOUT).

(** Its timer runs, with at most [d] ticks to go. *)
Record waiting (e : Prop) (t d : Z) (p : pcb) : Prop := {
  wt_used : used p = true;
  wt_tw : e -> tw_at p = 0;
  wt_armed : rto_at p <> 0;
  wt_rto : rto_at p <= t + TCP_RTO_MAX;
  wt_retries : retries p <= TCP_MAX_RETRIES;
  wt_measure : (TCP_MAX_RETRIES - retries p) * (TCP_RTO_MAX + 1) + Z.max 0 (rto_at p - t) <= d
}.

Lemma due_zero t : due t 0 = false.
Proof. done. Qed.

Lemma backoff_fields p : pcb_typed p ->
  0 <= rto_ticks (backoff p) <= TCP_RTO_MAX /\ used (backoff p) = used p /\ tw_at (backoff p) = tw_at p /\
  conn_at (backoff p) = conn_at p /\ state (backoff p) = state p /\ retries (backoff p) = retries p /\ error (backoff p) = error p.
Proof.
  intros T. unfold backoff. simpl. split; [|done]. unfold TCP_RTO_MAX. pose proof (u32_range (rto_ticks p * 2)).
  destruct (Z.ltb_spec (u32 (rto_ticks p * 2)) 6000); lia.
Qed.

Lemma given_up_ticked e t p : given_up e p -> given_up e (ticked t p).
Proof.
  intros (U & C & E). unfold ticked. rewrite U. cbn [negb]. cbv zeta.
  assert (G1 : given_up e (if due t (rto_at p) then retried t p else p)).
  { destruct (due t (rto_at p)); [|done]. unfold retried. destruct (_ <? _); (split; [done|split; [done|]]); intros H; destruct (E H); done. }
  revert G1. generalize (if due t (rto_at p) then retried t p else p). clear. intros p G.
  assert (G2 : given_up e (if due t (conn_at p) then set_rto_at 0 (set_conn_at 0 (set_state TCPS_CLOSED (set_error E_TIMEDOUT p))) else p)).
  { destruct (due t (conn_at p)); [|done]. destruct G as (U & C & E). split; [done|split; [done|]]. intros H. by destruct (E H). }
  revert G2. generalize (if due t (conn_at p) then set_rto_at 0 (set_conn_at 0 (set_state TCPS_CLOSED (set_error E_TIMEDOUT p))) else p).
  clear. intros p (U & C & E). destruct (due t (tw_at p)); [|done]. split; [done|split; [done|]]. intros H. by destruct (E H).
Qed.

(** The two timers that close a block outright. *)
Lemma closing_timers e t p :
  used p = true -> (e -> tw_at p = 0) ->
  let p' := if due t (conn_at p) then set_rto_at 0 (set_conn_at 0 (set_state TCPS_CLOSED (set_error E_TIMEDOUT p))) else p in
  let p'' := if due t (tw_at p') then set_tw_at 0 (set_state TCPS_CLOSED p') else p' in p'' = p \/ given_up e p''.
Proof.
  intros U E. cbv zeta. destruct (due t (conn_at p)).
  - right. destruct (due _ _); (split; [done|split; [done|]]); intros H; simpl; auto.
  - destruct (due t (tw_at p)) eqn:D; [|by left]. right. split; [done|split; [done|]]. intros H. by rewrite (E H) in D.
Qed.

Lemma waiting_ticked e t d p :
  pcb_typed p -> 0 < t -> t + 6001 < 2 ^ 64 -> waiting e t d p -> given_up e (ticked t p) \/ waiting e (t + 1) (d - 1) (ticked t p) /\ 0 < d.
Proof.
  intros T Ht Hb [U E A R Hr M]. unfold TCP_MAX_RETRIES, TCP_RTO_MAX in *. unfold ticked. rewrite U. cbn [negb]. cbv zeta.
  set (p1 := if due t (rto_at p) then retried t p else p).
  assert (H1 : used p1 = true /\ (e -> tw_at p1 = 0) /\ (given_up e p1 \/ (waiting e (t + 1) (d - 1) p1 /\ 0 < d))).
  { unfold p1, due. apply Z.eqb_neq in A. rewrite A. cbn [negb andb]. apply Z.eqb_neq in A. destruct (Z.leb_spec (rto_at p) t).
    - unfold retried, TCP_MAX_RETRIES. cbn [retries set_retries]. destruct (Z.ltb_spec 5 (retries p + 1)).
      + split; [done|]. split; [done|]. left. split; [done|split; [done|]]. intros He. simpl. auto.
      + destruct (backoff_fields (set_retries (retries p + 1) p)) as (Hk & Hu & Hw & _ & _ & Hre & _).
        { destruct T. constructor; simpl; auto. lia. }
        unfold TCP_RTO_MAX in Hk. split; [done|]. split; [done|]. right. split; [|lia].
        set (b := backoff _) in *. clearbody b. simpl in Hre, Hw, Hu. constructor; cbn [used tw_at rto_at retries set_rto_at];
          rewrite ?Hre, ?Hw, ?Hu, ?u64_small by lia; auto; unfold TCP_MAX_RETRIES, TCP_RTO_MAX; lia.
    - split; [done|]. split; [done|]. right. split; [|lia]. constructor; auto; unfold TCP_MAX_RETRIES, TCP_RTO_MAX; lia. }
  clearbody p1. destruct H1 as (U1 & E1 & H1). destruct (closing_timers e t p1 U1 E1) as [-> | G]; [exact H1|left; exact G].
Qed.

Lemma ticks_with s t : ticks (with_ticks s t) = t.
Proof. done. Qed.
Lemma pcbs_with s t : g_pcbs (with_ticks s t) = g_pcbs s.
Proof. done. Qed.

Lemma tick_typed s i : pcb_typed (g_pcbs s i) -> pcb_typed (g_pcbs (tcp_tick hhdm s) i).
Proof. intros T. destruct (tick_evolves hhdm s) as [_ V]. destruct (V i) as [_ _ H]. exact (H T). Qed.

Lemma silence_step e s i t d :
  0 <= i < TCP_MAX_PCB -> pcb_typed (g_pcbs s i) -> 0 < t -> t + 6001 < 2 ^ 64 ->
  given_up e (g_pcbs s i) \/ waiting e t d (g_pcbs s i) ->
  pcb_typed (g_pcbs (tcp_tick hhdm (with_ticks s t)) i) /\
  (given_up e (g_pcbs (tcp_tick hhdm (with_ticks s t)) i) \/
   waiting e (t + 1) (d - 1) (g_pcbs (tcp_tick hhdm (with_ticks s t)) i) /\ 0 < d).
Proof.
  intros Hi T Ht Hb H. split; [apply tick_typed; by rewrite pcbs_with|]. rewrite tcp_tick_block, ticks_with, pcbs_with by exact Hi.
  destruct H as [G|W]; [left; by apply given_up_ticked|exact (waiting_ticked e t d _ T Ht Hb W)].
Qed.

Lemma silence_closes e i : forall n t d s,
  0 <= i < TCP_MAX_PCB -> pcb_typed (g_pcbs s i) -> 0 < t -> t + Z.of_nat n + 6001 < 2 ^ 64 -> d < Z.of_nat n ->
  given_up e (g_pcbs s i) \/ (waiting e t d (g_pcbs s i) /\ 0 <= d) -> given_up e (g_pcbs (silence n t s) i).
Proof.
  induction n as [|n IH]; intros t d s Hi T Ht Hb Hd H; [destruct H as [|[_ ?]]; [done|lia]|].
  unfold silence. rewrite elapse_S. fold silence.
  destruct (silence_step e s i t d) as [T' H']; [exact Hi|exact T|exact Ht|lia|tauto|].
  apply (IH (t + 1) (d - 1)); [exact Hi|exact T'|lia|lia|lia|]. destruct H' as [|[W ?]]; [by left|]. right. split; [exact W|lia].
Qed.

(** *** The schedule *)

(** The timeout after [R]. *)
Definition backed (R : Z) : Z := Z.min (2 * R) TCP_RTO_MAX.
Lemma backoff_rto p : 0 <= rto_ticks p <= TCP_RTO_MAX -> rto_ticks (backoff p) = backed (rto_ticks p).
Proof.
  unfold TCP_RTO_MAX. intros H. unfold backoff, backed, TCP_RTO_MAX. cbn [rto_ticks set_cwnd set_ssthresh set_rto_ticks].
  rewrite u32_small by lia. destruct (Z.ltb_spec (rto_ticks p * 2) 6000); lia.
Qed.

(** The time of the timeout after [m] more, of which the first is at [t] with
    the timeout [R]: at least a tick apart, each twice as long as the one before
    up to 6000 ticks. *)
Fixpoint timeout_at (m : nat) (t R : Z) : Z :=
  match m with O => t | S m => timeout_at m (t + Z.max 1 (backed R)) (backed R) end.
(** How many of the first [m] timeouts are before [now]. *)
Fixpoint timeouts (m : nat) (t R now : Z) : Z :=
  match m with O => 0 | S m => if t <? now then 1 + timeouts m (t + Z.max 1 (backed R)) (backed R) now else 0 end.

Lemma timeout_at_ge m : forall t R, t <= timeout_at m t R.
Proof. induction m as [|m IH]; intros t R; simpl; [lia|]. specialize (IH (t + Z.max 1 (backed R)) (backed R)). lia. Qed.

Lemma timeouts_none m t R now : now <= t -> timeouts m t R now = 0.
Proof. destruct m; simpl; [done|]. intros H. by destruct (Z.ltb_spec t now); [lia|]. Qed.

(** A block with only the retransmission timer running, next due at [d]. *)
Record armed (t d R r : Z) (p : pcb) : Prop := {
  ar_used : used p = true;
  ar_conn : conn_at p = 0;
  ar_tw : tw_at p = 0;
  ar_rto : 0 < rto_at p;
  ar_due : d = Z.max t (rto_at p);
  ar_ticks : rto_ticks p = R;
  ar_range : 0 <= R <= TCP_RTO_MAX;
  ar_retries : retries p = r
}.

(** Closed with no timer left. *)
Definition at_rest (p : pcb) : Prop := used p = true /\ conn_at p = 0 /\ tw_at p = 0 /\ rto_at p = 0.
Lemma at_rest_ticked t p : at_rest p -> ticked t p = p.
Proof. intros (U & C & W & R). unfold ticked. rewrite U, R. cbn [negb]. rewrite due_zero. cbv zeta iota. rewrite C, due_zero. cbv iota. by rewrite W, due_zero. Qed.

Lemma armed_ticked t d R r p : armed t d R r p -> 0 < t -> t + TCP_RTO_MAX + 1 < 2 ^ 64 ->
  if t <? d then ticked t p = p /\ armed (t + 1) d R r p
  else if TCP_MAX_RETRIES <=? r then at_rest (ticked t p) /\ state (ticked t p) = TCPS_CLOSED /\ error (ticked t p) = E_TIMEDOUT /\ retries (ticked t p) = r + 1
  else armed (t + 1) (d + Z.max 1 (backed R)) (backed R) (r + 1) (ticked t p) /\ state (ticked t p) = state p /\ error (ticked t p) = error p.
Proof.
  intros [U C W A D RT RR Rr] Ht Hb. unfold TCP_RTO_MAX in *. destruct (Z.ltb_spec t d) as [Hd|Hd].
  - assert (Ed : due t (rto_at p) = false) by (unfold due; apply andb_false_iff; right; apply Z.leb_gt; lia).
    split; [|constructor; auto; unfold TCP_RTO_MAX; lia]. unfold ticked. rewrite U, Ed. cbn [negb].
    cbv zeta iota. rewrite C, due_zero. cbv iota. by rewrite W, due_zero.
  - assert (Ed : due t (rto_at p) = true).
    { unfold due. destruct (Z.eqb_spec (rto_at p) 0); [lia|]. apply Z.leb_le. lia. }
    unfold ticked. rewrite U, Ed. cbn [negb]. cbv zeta iota. unfold retried, TCP_MAX_RETRIES. cbn [retries set_retries]. rewrite Rr.
    destruct (Z.leb_spec 5 r), (Z.ltb_spec 5 (r + 1)); try lia.
    + cbn [conn_at tw_at set_rto_at set_state set_error set_retries]. rewrite C, due_zero. cbv iota.
      cbn [conn_at tw_at set_rto_at set_state set_error set_retries]. rewrite W, due_zero. done.
    + set (q := set_retries (r + 1) p). assert (Bq : rto_ticks (backoff q) = backed R)
        by (rewrite backoff_rto; [by rewrite <- RT | unfold TCP_RTO_MAX; cbn; lia]).
      cbn [conn_at tw_at set_rto_at]. change (conn_at (backoff q)) with (conn_at p). rewrite C, due_zero. cbv iota.
      cbn [conn_at tw_at set_rto_at]. change (tw_at (backoff q)) with (tw_at p). rewrite W, due_zero. cbv iota. rewrite Bq.
      assert (HB : 0 <= backed R <= 6000) by (unfold backed, TCP_RTO_MAX; lia).
      split; [|done]. rewrite u64_small by lia. constructor; cbn [used conn_at tw_at rto_at rto_ticks retries set_rto_at]; auto; unfold TCP_RTO_MAX; lia.
Qed.

(** What a tick sends, when no other block is in use. *)
Lemma tick_alone s i : (forall k, k <> i -> used (g_pcbs s k) = false) -> 0 <= i < TCP_MAX_PCB -> tcp_tick hhdm s = tick_one hhdm s i.
Proof.
  intros Ho Hi. unfold tcp_tick. assert (Hin : i ∈ seqZ 0 TCP_MAX_PCB) by (apply elem_of_seqZ; unfold TCP_MAX_PCB in *; lia).
  revert Hin. generalize (NoDup_seqZ 0 TCP_MAX_PCB). generalize (seqZ 0 TCP_MAX_PCB). intros l.
  assert (K : forall s', (forall k, k <> i -> used (g_pcbs s' k) = false) -> forall k, k <> i -> tick_one hhdm s' k = s').
  { intros s' H' k Hk. unfold tick_one. cbv zeta. by rewrite H'. }
  assert (K2 : forall l s', (forall k, k <> i -> used (g_pcbs s' k) = false) -> i ∉ l -> fold_left (tick_one hhdm) l s' = s').
  { clear l. induction l as [|x l IH]; intros s' H' Hn; [done|]. apply not_elem_of_cons in Hn as [Hx Hn]. simpl. rewrite K by auto. auto. }
  revert s Ho. induction l as [|x l IH]; intros s Ho Nd Hin; [by apply elem_of_nil in Hin|]. apply NoDup_cons in Nd as [Hx Nd]. simpl.
  destruct (Z.eq_dec x i) as [->|Hne].
  - apply K2; [|done]. intros k Hk. rewrite tick_one_others by done. auto.
  - rewrite K by auto. apply elem_of_cons in Hin as [->|Hin]; [done|]. by apply IH.
Qed.

Lemma retransmit_sends s i : alen (out (tcp_retransmit hhdm s i)) =
  alen (out s) + (if TCP_MAX_RETRIES <=? retries (g_pcbs s i) then 0 else 1).
Proof.
  unfold tcp_retransmit. cbv zeta. rewrite edit_eq. cbn [retries set_retries].
  destruct (Z.leb_spec TCP_MAX_RETRIES (retries (g_pcbs s i))), (Z.ltb_spec TCP_MAX_RETRIES (retries (g_pcbs s i) + 1)); try lia.
  - cbn. lia.
  - unfold rto_arm, retransmit_segment. cbv zeta. cbn [edit with_pcb out].
    destruct (_ =? TCPS_SYN_SENT); [|destruct (_ =? TCPS_SYN_RCVD)]; unfold tcp_emit, send; cbn [out]; by rewrite alen_app.
Qed.

Lemma tick_sends s i : used (g_pcbs s i) = true -> alen (out (tick_one hhdm s i)) =
  alen (out s) + (if due (ticks s) (rto_at (g_pcbs s i)) && negb (TCP_MAX_RETRIES <=? retries (g_pcbs s i)) then 1 else 0).
Proof.
  intros U. unfold tick_one. rewrite U. cbn [negb]. cbv zeta. fold (due (ticks s) (rto_at (g_pcbs s i))).
  set (s1 := if _ : bool then tcp_retransmit _ _ _ else s).
  assert (E : alen (out s1) = alen (out s) + (if due (ticks s) (rto_at (g_pcbs s i)) && negb (TCP_MAX_RETRIES <=? retries (g_pcbs s i)) then 1 else 0)).
  { unfold s1. destruct (due _ _); [|cbn; lia]. rewrite retransmit_sends. by destruct (_ <=? _). }
  clearbody s1. rewrite <- E. destruct (negb _ && _); [|by destruct (negb _ && _)].
  by match goal with |- context [if ?b then _ else _] => destruct b end.
Qed.

(** The block at the end of a silence, and the segments sent meanwhile. *)
Definition outcome (p p' : pcb) (t R r now : Z) (m : nat) : Prop :=
  (state p', error p') = (if timeout_at m t R <? now then (TCPS_CLOSED, E_TIMEDOUT) else (state p, error p)) /\
  retries p' = r + timeouts (S m) t R now.

Lemma silence_rest i : forall n t s, 0 <= i < TCP_MAX_PCB -> at_rest (g_pcbs s i) ->
  g_pcbs (silence n t s) i = g_pcbs s i /\
  ((forall k, k <> i -> used (g_pcbs s k) = false) -> alen (out (silence n t s)) = alen (out s)).
Proof.
  induction n as [|n IH]; intros t s Hi Hr; [done|]. unfold silence. rewrite elapse_S. fold silence.
  assert (E : g_pcbs (tcp_tick hhdm (with_ticks s t)) i = g_pcbs s i)
    by (rewrite tcp_tick_block, ticks_with, pcbs_with by exact Hi; by apply at_rest_ticked).
  destruct (IH (t + 1) (tcp_tick hhdm (with_ticks s t)) Hi) as [I1 I2]; [by rewrite E|]. rewrite I1, E. split; [done|]. intros Ho.
  destruct Hr as (U & _ & _ & R). assert (T1 : tcp_tick hhdm (with_ticks s t) = tick_one hhdm (with_ticks s t) i) by (by apply tick_alone).
  rewrite T1 in *. rewrite I2.
  - rewrite tick_sends by exact U. rewrite pcbs_with, R, due_zero. cbn. lia.
  - intros k Hk. rewrite tick_one_others by done. exact (Ho k Hk).
Qed.

Lemma silence_armed i : forall n m t d R r s, 0 <= i < TCP_MAX_PCB -> 0 < t -> t + Z.of_nat n + TCP_RTO_MAX < 2 ^ 64 -> t <= d ->
  r + Z.of_nat m = TCP_MAX_RETRIES -> armed t d R r (g_pcbs s i) ->
  outcome (g_pcbs s i) (g_pcbs (silence n t s) i) d R r (t + Z.of_nat n) m /\
  ((forall k, k <> i -> used (g_pcbs s k) = false) ->
   alen (out (silence n t s)) = alen (out s) + timeouts m d R (t + Z.of_nat n)).
Proof.
  induction n as [|n IH]; intros m t d R r s Hi Ht Hb Hd Hm A.
  { change (silence 0 t s) with s. unfold outcome. rewrite Z.add_0_r. pose proof (timeout_at_ge m d R). destruct (Z.ltb_spec (timeout_at m d R) t); [lia|].
    rewrite !timeouts_none by lia. split; [split; [done|] |]; [rewrite (ar_retries _ _ _ _ _ A)|intros _; cbn]; lia. }
  unfold silence. rewrite elapse_S. fold silence. set (s1 := tcp_tick hhdm (with_ticks s t)).
  assert (E1 : g_pcbs s1 i = ticked t (g_pcbs s i)) by (unfold s1; by rewrite tcp_tick_block, ticks_with, pcbs_with).
  assert (Hs : (forall k, k <> i -> used (g_pcbs s k) = false) -> (forall k, k <> i -> used (g_pcbs s1 k) = false) /\
    alen (out s1) = alen (out s) + (if due t (rto_at (g_pcbs s i)) && negb (TCP_MAX_RETRIES <=? retries (g_pcbs s i)) then 1 else 0)).
  { intros Ho. assert (T1 : s1 = tick_one hhdm (with_ticks s t) i) by (by apply tick_alone). rewrite T1. split.
    - intros k Hk. rewrite tick_one_others by done. by apply Ho.
    - rewrite tick_sends by exact (ar_used _ _ _ _ _ A). done. }
  clearbody s1. pose proof (armed_ticked t d R r _ A Ht ltac:(lia)) as K. rewrite Nat2Z.inj_succ in *.
  assert (Ed : due t (rto_at (g_pcbs s i)) = negb (t <? d)).
  { destruct A. unfold due. destruct (Z.eqb_spec (rto_at (g_pcbs s i)) 0); [lia|]. cbn [negb andb].
    destruct (Z.leb_spec (rto_at (g_pcbs s i)) t), (Z.ltb_spec t d); try lia; done. }
  rewrite Ed, (ar_retries _ _ _ _ _ A) in Hs. replace (t + Z.succ (Z.of_nat n)) with (t + 1 + Z.of_nat n) by lia.
  destruct (Z.ltb_spec t d) as [Hlt|Hge]; cbn [negb andb] in Hs.
  - destruct K as [K1 K2]. rewrite K1 in E1. rewrite <- E1 in K2. destruct (IH m (t + 1) d R r s1 Hi ltac:(lia) ltac:(lia) ltac:(lia) Hm K2) as [I1 I2].
    rewrite E1 in I1. split; [exact I1|]. intros Ho. destruct (Hs Ho) as [H1 H2]. rewrite (I2 H1), H2. lia.
  - assert (d = t) as -> by lia. destruct (Z.leb_spec TCP_MAX_RETRIES r) as [Hr|Hr]; cbn [negb] in Hs.
    + destruct K as (K1 & K2 & K3 & K4). assert (m = O) as -> by (unfold TCP_MAX_RETRIES in *; lia).
      destruct (silence_rest i n (t + 1) s1 Hi) as [I1 I2]; [by rewrite E1|]. rewrite I1, E1. unfold outcome. cbn [timeout_at timeouts].
      destruct (Z.ltb_spec t (t + 1 + Z.of_nat n)); [|lia]. rewrite K2, K3, K4. split; [split; [done|lia]|].
      intros Ho. destruct (Hs Ho) as [H1 H2]. rewrite (I2 H1), H2. lia.
    + destruct K as (K1 & K2 & K3). destruct m as [|m]; [unfold TCP_MAX_RETRIES in *; lia|]. rewrite <- E1 in K1, K2, K3.
      destruct (IH m (t + 1) (t + Z.max 1 (backed R)) (backed R) (r + 1) s1 Hi ltac:(lia) ltac:(lia) ltac:(lia) ltac:(lia) K1) as [[I1 I2] I3].
      unfold outcome. cbn [timeout_at]. rewrite I1, K2, K3, I2.
      replace (timeouts (S (S m)) t R (t + 1 + Z.of_nat n)) with (1 + timeouts (S m) (t + Z.max 1 (backed R)) (backed R) (t + 1 + Z.of_nat n))
        by (cbn [timeouts]; destruct (Z.ltb_spec t (t + 1 + Z.of_nat n)); [done|lia]).
      split; [split; [done|lia]|]. intros Ho. destruct (Hs Ho) as [H1 H2]. rewrite (I3 H1), H2.
      cbn [timeouts]. destruct (Z.ltb_spec t (t + 1 + Z.of_nat n)); lia.
Qed.

(** C19: A silent peer.  When the timer of a block runs and nothing arrives, the
    block is closed within 36006 ticks, whatever its state (with ETIMEDOUT, but
    for a block in TIME_WAIT, which that timer may close instead).  When no other
    timer of the block runs the schedule is exact: the timeout doubles each time
    up to 6000 ticks, at each one before the sixth in a row the block keeps its
    state and is sent again, and the sixth, neither earlier nor later, closes it
    with ETIMEDOUT.  ([t] is the first tick, [n] their number; while no other
    block is in use the segments sent are counted.) *)
Theorem tcp_gives_up s i t n (T : pcb_typed (g_pcbs s i)) (Hi : 0 <= i < TCP_MAX_PCB) (Hu : used (g_pcbs s i) = true)
    (Ha : 0 < rto_at (g_pcbs s i)) (Hr : rto_at (g_pcbs s i) <= t + TCP_RTO_MAX) (Hs : retries (g_pcbs s i) <= TCP_MAX_RETRIES)
    (Ht : 0 < t) (Hb : t + Z.of_nat n + 6001 < 2 ^ 64) :
  let p := g_pcbs s i in
  let s' := silence n t s in
  (36006 <= Z.of_nat n -> tcp_state s' i = TCPS_CLOSED /\ (tw_at p = 0 -> snd (tcp_take_error s' i) = E_TIMEDOUT)) /\
  (conn_at p = 0 -> tw_at p = 0 ->
   let left := Z.to_nat (TCP_MAX_RETRIES - retries p) in
   let first := Z.max t (rto_at p) in
   (tcp_state s' i, snd (tcp_take_error s' i)) =
     (if timeout_at left first (rto_ticks p) <? t + Z.of_nat n then (TCPS_CLOSED, E_TIMEDOUT) else (state p, error p)) /\
   ((forall k, k <> i -> used (g_pcbs s k) = false) ->
    alen (out s') = alen (out s) + timeouts left first (rto_ticks p) (t + Z.of_nat n))).
Proof.
  cbv zeta. split.
  - intros Hn. destruct (silence_closes (tw_at (g_pcbs s i) = 0) i n t 36005 s) as (_ & C & E); try done; try lia.
    + right. split; [|lia]. destruct T. constructor; try done; unfold TCP_MAX_RETRIES, TCP_RTO_MAX in *; lia.
    + split; [exact C|]. intros H. by apply E.
  - intros C W. destruct (silence_armed i n (Z.to_nat (TCP_MAX_RETRIES - retries (g_pcbs s i))) t (Z.max t (rto_at (g_pcbs s i)))
      (rto_ticks (g_pcbs s i)) (retries (g_pcbs s i)) s) as [[O _] L]; try done; try lia.
    + unfold TCP_RTO_MAX. lia.
    + constructor; auto. apply T.
Qed.

(** ** A connection that is not answered *)

(** A block whose timeout is still zero: the timer is due at every tick. *)
Record hasty (t k : Z) (p : pcb) : Prop := {
  hs_used : used p = true;
  hs_tw : tw_at p = 0;
  hs_rto : rto_ticks p = 0;
  hs_due : 0 < rto_at p <= t;
  hs_retries : retries p = k
}.

Lemma hasty_ticked t k p : hasty t k p -> t + 1 < 2 ^ 64 ->
  (k <= 4 -> given_up True (ticked t p) \/ hasty (t + 1) (k + 1) (ticked t p)) /\ (k = 5 -> given_up True (ticked t p)).
Proof.
  intros [U W R [D1 D2] K] Hb. unfold ticked. rewrite U. cbn [negb]. cbv zeta.
  assert (D : due t (rto_at p) = true).
  { unfold due. destruct (Z.eqb_spec (rto_at p) 0); [lia|]. cbn [negb andb]. apply Z.leb_le. lia. }
  rewrite D. set (p1 := retried t p).
  assert (H1 : used p1 = true /\ tw_at p1 = 0 /\ (k <= 4 -> hasty (t + 1) (k + 1) p1) /\ (k = 5 -> given_up True p1)).
  { unfold p1, retried, TCP_MAX_RETRIES. cbn [retries set_retries]. rewrite K. destruct (Z.ltb_spec 5 (k + 1)).
    - split; [done|]. split; [done|]. split; [lia|]. intros _. by split.
    - split; [done|]. split; [done|]. split; [|lia]. intros _.
      assert (B : rto_ticks (backoff (set_retries (k + 1) p)) = 0) by (unfold backoff; simpl; by rewrite R).
      rewrite B. constructor; cbn [rto_ticks rto_at set_rto_at]; try done. rewrite u64_small; lia. }
  clearbody p1. destruct H1 as (U1 & W1 & H1 & H2).
  destruct (closing_timers True t p1 U1 (fun _ => W1)) as [-> |G]; [split; auto|split; intros; [left|]; exact G].
Qed.

Lemma hasty_closes : forall n t k s i, 0 <= i < TCP_MAX_PCB -> 0 <= k -> k + Z.of_nat n = 6 -> t + Z.of_nat n < 2 ^ 64 ->
  given_up True (g_pcbs s i) \/ (hasty t k (g_pcbs s i) /\ k <= 5) -> given_up True (g_pcbs (silence n t s) i).
Proof.
  induction n as [|n IH]; intros t k s i Hi Hk Hn Hb H; [destruct H as [|[_ ?]]; [done|lia]|].
  unfold silence. rewrite elapse_S. fold silence. apply (IH (t + 1) (k + 1)); [exact Hi|lia|lia|lia|].
  rewrite tcp_tick_block, ticks_with, pcbs_with by exact Hi. destruct H as [G|[H Hk']]; [left; by apply given_up_ticked|].
  destruct (hasty_ticked t k _ H ltac:(lia)) as [H1 H2]. destruct (Z.eq_dec k 5) as [->|]; [left; by apply H2|].
  destruct H1 as [G|H1]; [lia|by left|right]. split; [exact H1|lia].
Qed.

(** A connection that is not answered.  The retransmission timeout of a block
    is zero until its first connection is established, so its SYN is sent again
    at every tick, and [tcp_connect] fails with ETIMEDOUT at the sixth, long
    before the deadline of 500 ticks it sets. *)
Theorem tcp_connect_gives_up s i ip port s1 t (N : net_typed s) (Hi : 0 <= i < TCP_MAX_PCB) (Hu : used (g_pcbs s i) = true)
    (Hr : rto_ticks (g_pcbs s i) = 0) (H0 : retries (g_pcbs s i) = 0) (Hw : tw_at (g_pcbs s i) = 0)
    (Ht : 0 < ticks s < t) (Hb : t + TCP_CONN_TICKS < 2 ^ 64) (HC : tcp_connect s i ip port = (s1, 0)) :
  let s' := silence 6 t s1 in
  tcp_state s' i = TCPS_CLOSED /\ snd (tcp_take_error s' i) = E_TIMEDOUT /\
  conn_at (g_pcbs s1 i) = ticks s + TCP_CONN_TICKS.
Proof.
  intros s'. destruct (connect_spec s i ip port s1 HC N) as (_ & lp & iss & _ & _ & _ & _ & E & _). cbv zeta in E. rewrite Hr, Z.add_0_r in E.
  assert (G : given_up True (g_pcbs s' i)).
  { unfold TCP_CONN_TICKS in Hb. apply (hasty_closes 6 t 0); try done; try lia. right. split; [|lia]. rewrite E. constructor; try done. cbn [rto_at set_conn_at set_rto_at].
    rewrite u64_small; lia. }
  unfold TCP_CONN_TICKS in *. destruct G as (_ & C & X). split; [exact C|]. split; [by apply X|]. rewrite E. cbn [conn_at set_conn_at]. apply u64_small. lia.
Qed.

(** ** The ends of the stream *)

Lemma unwritten_sendable s i iss (p := g_pcbs s i) :
  sender hhdm iss [] false i s 1 1 -> sendable p = Z.min (Z.min (snd_wnd p) (cwnd p)) (snd_mss p).
Proof.
  intros S. destruct S. fold p in sn_typed, sn_una, sn_nxt, sn_end. destruct sn_typed.
  unfold sendable. rewrite sn_nxt, sn_una, sn_end, Z.sub_diag. change (u32 0) with 0.
  rewrite u32_sub. change (alen []) with 0. replace (u32 (iss + 0 - (iss + 1))) with (2 ^ 32 - 1).
  2: { replace (iss + 0 - (iss + 1)) with (-1) by lia. done. }
  replace (if snd_wnd p <? cwnd p then snd_wnd p else cwnd p) with (Z.min (snd_wnd p) (cwnd p)) by (destruct (Z.ltb_spec (snd_wnd p) (cwnd p)); lia).
  unfold TCP_MSS, NET_MTU, w16, w32 in *. set (m := Z.min (snd_wnd p) (cwnd p)). assert (0 <= m < 2 ^ 16) by lia.
  replace (if 0 <? m then m - 0 else 0) with m by (destruct (Z.ltb_spec 0 m); lia). unfold min3. cbv zeta.
  replace (if 2 ^ 32 - 1 <? m then 2 ^ 32 - 1 else m) with m by (destruct (Z.ltb_spec (2 ^ 32 - 1) m); lia).
 
  destruct (Z.ltb_spec m (snd_mss p)); lia.
Qed.

Lemma ring_get_len m phys x n : 0 <= n -> alen (ring_get hhdm m phys x n) = n.
Proof. intros. unfold ring_get, alen. rewrite length_map, length_seqZ. lia. Qed.

Lemma output_data_sent s i p n : g_pcbs s i = p -> sendable p = n -> 0 < n ->
  exists s', output_data hhdm s i = s' /\ (exists t, g_pcbs s' i = set_rto_at t (set_snd_nxt (u32 (snd_nxt p + n)) p)) /\
    out s' = out s ++ [(rip p, segment (emit_src s p) (rip p) p (snd_nxt p) (Z.lor TCP_ACK TCP_PSH)
      (ring_get hhdm (n_mem s) (tx_phys p) (snd_nxt p) n))].
Proof.
  intros E Hn H0. eexists. split; [reflexivity|]. unfold output_data. rewrite E, Hn. destruct (Z.eqb_spec n 0); [lia|].
  cbv zeta. rewrite tcp_emit_segment. unfold rto_arm. rewrite !edit_eq. cbn [send g_pcbs edit with_pcb out]. rewrite E.
  split; [by eexists|done].
Qed.

(** C40: Closing before anything was written.  After the handshake [snd_end] is
    one behind [snd_nxt], so the part of the ring not yet sent seems 2^32 - 1
    bytes long: [tcp_close_write] sends as many bytes that nobody wrote as the
    windows and the segment size allow, and the FIN is not sent. *)
Theorem tcp_close_sends_unwritten s i iss (S : sender hhdm iss [] false i s 1 1) (E : state (g_pcbs s i) = TCPS_ESTABLISHED)
    (Hw : 0 < snd_wnd (g_pcbs s i)) (Hc : 0 < cwnd (g_pcbs s i)) (Hm : 0 < snd_mss (g_pcbs s i)) :
  let p := g_pcbs s i in
  let n := Z.min (Z.min (snd_wnd p) (cwnd p)) (snd_mss p) in
  let '(s', r) := tcp_close_write hhdm s i in
  r = 0 /\ tcp_state s' i = TCPS_ESTABLISHED /\ fin_queued (g_pcbs s' i) = true /\ fin_sent (g_pcbs s' i) = false /\
  exists d seg, out s' = out s ++ [(d, seg)] /\ alen (seg_data seg) = n /\ 0 < n /\
    seg_data seg = ring_get hhdm (n_mem s) (tx_phys p) (snd_nxt p) n /\ bit (seg_flags seg) TCP_FIN = false.
Proof.
  intros p n. assert (Hn : sendable p = n) by (apply (unwritten_sendable s i iss); auto).
  assert (H0 : 0 < n) by (unfold n, p; lia). pose proof (sn_typed _ _ _ _ _ _ _ _ S) as T. pose proof (unclosed_fin _ _ _ _ _ _ _ S) as Hf. fold p in T, Hf.
  assert (Q : (u32 (snd_nxt p + n) =? snd_end p) = false).
  { apply Z.eqb_neq. unfold p. rewrite (sn_nxt _ _ _ _ _ _ _ _ S), (sn_end _ _ _ _ _ _ _ _ S), u32_add_l. intros Q.
    pose proof (ty_wnd _ T). unfold w16, n in *. apply u32_eq_near in Q; change (alen []) with 0 in *; lia. }
  unfold tcp_close_write. assert (C : can_send p = true) by (unfold can_send, p; by rewrite E). fold p. rewrite C. cbn [negb].
  set (s1 := edit s i (set_fin_queued true)). assert (E1 : g_pcbs s1 i = set_fin_queued true p) by (unfold s1; by rewrite edit_eq).
  assert (M1 : n_mem s1 = n_mem s /\ out s1 = out s) by done. clearbody s1. destruct M1 as [M1 O1].
  unfold tcp_output. rewrite E1. change (can_send (set_fin_queued true p)) with (can_send p). rewrite C. cbn [negb].
  destruct (output_data_sent s1 i (set_fin_queued true p) n) as (s2 & -> & (t & E2) & O2); [exact E1|exact Hn|done|].
  assert (F : output_fin s2 i = s2).
  { unfold output_fin. cbv zeta. rewrite E2. cbn [snd_nxt snd_end set_rto_at set_snd_nxt set_fin_queued]. by rewrite Q, andb_false_r. }
  rewrite F. unfold tcp_state. rewrite E2. split; [done|]. split; [exact E|]. split; [done|]. split; [exact Hf|].
  rewrite O2, O1, M1. eexists _, _. split; [reflexivity|].
  destruct (segment_fields (emit_src s1 (set_fin_queued true p)) (rip p) (set_fin_queued true p) (snd_nxt p) (Z.lor TCP_ACK TCP_PSH)
    (ring_get hhdm (n_mem s) (tx_phys p) (snd_nxt p) n)) as (_ & _ & _ & _ & L & G & _ & D & _); [revert T; typed|apply T|].
  unfold seg_data, seg_flags. cbn [rip snd_nxt tx_phys set_fin_queued]. rewrite L, D, G. split; [apply ring_get_len; lia|done].
Qed.

(** Reading past a FIN.  A FIN is counted into the receive queue like a byte:
    when a block with nothing to read takes one, a read first returns one byte
    left in the ring, which the peer never sent, and only then is the end of the
    stream reported. *)
Theorem tcp_fin_reads_as_byte s i (T : pcb_typed (g_pcbs s i)) (E : state (g_pcbs s i) = TCPS_ESTABLISHED)
    (Hq : rcv_read (g_pcbs s i) = rcv_nxt (g_pcbs s i)) :
  let p := g_pcbs s i in
  let s1 := input_text hhdm s i (rcv_nxt p) [] (Z.lor TCP_FIN TCP_ACK) in
  let '(s2, data) := tcp_read hhdm s1 i 4096 false in
  tcp_state s1 i = TCPS_CLOSE_WAIT /\ tcp_rx_avail s1 i = 1 /\ tcp_eof s1 i = false /\
  data = [n_mem s (ring_at hhdm (rx_phys p) (rcv_nxt p))] /\ tcp_eof s2 i = true.
Proof.
  intros p s1. assert (Ep : state p = TCPS_ESTABLISHED) by exact E. assert (Eq : rcv_read p = rcv_nxt p) by exact Hq.
  assert (H1 : exists s', s1 = tcp_send_ack s' i /\ n_mem s' = n_mem s /\
    g_pcbs s' i = set_state TCPS_CLOSE_WAIT (set_fin_seen true (set_rcv_nxt (u32 (rcv_nxt p + 1)) p))).
  { unfold s1, input_text. fold p. cbv zeta. rewrite Ep. change (TCPS_ESTABLISHED =? TCPS_CLOSED) with false. cbv iota.
    rewrite Z.eqb_refl. cbn [negb]. change (alen [] =? 0) with true. change (bit (Z.lor TCP_FIN TCP_ACK) TCP_FIN) with true. cbv iota. cbn [negb orb].
    exists (input_fin s i). split; [done|]. unfold input_fin. cbv zeta. rewrite !edit_eq. fold p.
    change (state (set_fin_seen _ (set_rcv_nxt _ p))) with (state p). rewrite !Ep.
    change (TCPS_ESTABLISHED =? TCPS_ESTABLISHED) with true. cbv iota. by rewrite !edit_eq. }
  clearbody s1. destruct H1 as (s' & -> & M & P). unfold tcp_read, tcp_state, tcp_rx_avail, tcp_eof.
  change (g_pcbs (tcp_send_ack s' i)) with (g_pcbs s'). change (n_mem (tcp_send_ack s' i)) with (n_mem s'). rewrite P, M. cbv zeta.
  cbn [rcv_nxt rcv_read rx_phys fin_seen state set_state set_fin_seen set_rcv_nxt]. rewrite Eq.
  pose proof (ty_rcv _ T) as R. fold p in R. set (r := rcv_nxt p) in *.
  assert (D : u32 (u32 (r + 1) - r) = 1) by (rewrite <- (u32_small r R) at 2; rewrite u32_diff; lia).
  assert (D' : s32 (u32 (r + 1) - r) = 1) by (rewrite <- (u32_small r R) at 2; rewrite s32_diff; lia).
  rewrite D, D'. change (4096 <? 1) with false. cbv iota. change ((1 =? 0) || false) with false. cbv iota. cbn [andb]. split; [done|]. split; [done|].
  split; [apply Z.eqb_neq; intros Q; rewrite <- Q, Z.sub_diag in D; done|]. split.
  - change (seqZ 0 1) with [0]. unfold ring_get. change (seqZ 0 1) with [0]. cbn [map]. by rewrite Z.add_0_r, ring_at_u32.
  - rewrite edit_eq. change (g_pcbs (tcp_send_ack s' i) i) with (g_pcbs s' i). rewrite P.
    cbn [rcv_nxt rcv_read fin_seen set_rcv_read set_state set_fin_seen set_rcv_nxt]. by rewrite Z.eqb_refl.
Qed.
End Timer.

(** ** The properties on concrete hosts *)

Definition demo_syn : net := fst (tcp_connect (with_ticks demo_client 1000) 0 0x0A000002 80).

Lemma demo_syn_block : g_pcbs demo_syn 0 = set_conn_at 1500 (set_rto_at 1000 (set_state TCPS_SYN_SENT (set_snd_una 1184982980
  (set_snd_nxt 1184982981 (set_snd_end 1184982980 (set_rport 80 (set_rip 0x0A000002 (set_lport 49152 (new_pcb 0x8000 0x9000))))))))).
Proof. vm_compute. reflexivity. Qed.

(** An established block that has sent three bytes at time 0: its timeouts are
    at 100, 300, 700, 1500, 3100 and 6300. *)
Definition demo_sent : net := fst (tcp_write demo_hhdm (demo_end 80 1000 5000) 0 [10; 20; 30]).
Lemma demo_sent_block : g_pcbs demo_sent 0 = set_rto_at 100 (set_snd_nxt 1003 (set_snd_end 1003 (g_pcbs (demo_end 80 1000 5000) 0))).
Proof. vm_compute. reflexivity. Qed.
Lemma demo_sent_out : alen (out demo_sent) = 1.
Proof. vm_compute. reflexivity. Qed.

Lemma demo_sent_alone k : k <> 0 -> used (g_pcbs demo_sent k) = false.
Proof.
  intros Hk. unfold demo_sent. rewrite (ob_others _ _ _ (block_write demo_hhdm (demo_end 80 1000 5000) 0 [10; 20; 30]) k Hk).
  unfold demo_end. cbn [g_pcbs]. by destruct (Z.eqb_spec k 0).
Qed.

Lemma tcp_gives_up_witness :
  let before := silence demo_hhdm (Z.to_nat 6299) 1 demo_sent in
  let after := silence demo_hhdm (Z.to_nat 6300) 1 demo_sent in
  tcp_state before 0 = TCPS_ESTABLISHED /\ tcp_state after 0 = TCPS_CLOSED /\ alen (out after) = 6.
Proof.
  cut (forall n1 n2, Z.of_nat n1 = 6299 -> Z.of_nat n2 = 6300 ->
    tcp_state (silence demo_hhdm n1 1 demo_sent) 0 = TCPS_ESTABLISHED /\
    tcp_state (silence demo_hhdm n2 1 demo_sent) 0 = TCPS_CLOSED /\ alen (out (silence demo_hhdm n2 1 demo_sent)) = 6).
  { intros H. apply H; apply Z2Nat.id; discriminate. }
  intros n1 n2 N1 N2. pose proof demo_sent_alone as Ho. pose proof demo_sent_block as E. pose proof demo_sent_out as Em.
  revert E Em Ho. generalize demo_sent. intros s E Em Ho.
  assert (F : pcb_typed (g_pcbs s 0) /\ used (g_pcbs s 0) = true /\ rto_at (g_pcbs s 0) = 100 /\ retries (g_pcbs s 0) = 0 /\
    conn_at (g_pcbs s 0) = 0 /\ tw_at (g_pcbs s 0) = 0 /\ rto_ticks (g_pcbs s 0) = 100 /\ state (g_pcbs s 0) = TCPS_ESTABLISHED)
    by (rewrite E; split; [by constructor|done]).
  clear E. destruct F as (T & U & A & R & C & W & K & S).
  assert (G : forall n, Z.of_nat n <= 6300 ->
    (tcp_state (silence demo_hhdm n 1 s) 0, snd (tcp_take_error (silence demo_hhdm n 1 s) 0)) =
     (if 6300 <? 1 + Z.of_nat n then (TCPS_CLOSED, E_TIMEDOUT) else (TCPS_ESTABLISHED, error (g_pcbs s 0))) /\
    alen (out (silence demo_hhdm n 1 s)) = 1 + timeouts 5 100 100 (1 + Z.of_nat n)).
  { intros n Hn. destruct (tcp_gives_up demo_hhdm s 0 1 n T) as [_ H];
      rewrite ?A, ?R; unfold TCP_MAX_PCB, TCP_RTO_MAX, TCP_MAX_RETRIES; try done; try lia.
    destruct (H C W) as [H1 H2]. rewrite A, R, K, S in H1. rewrite A, R, K, Em in H2. split; [exact H1|exact (H2 Ho)]. }
  destruct (G n1 ltac:(lia)) as [H1 _]. destruct (G n2 ltac:(lia)) as [H2 H3]. rewrite N1 in H1. rewrite N2 in H2, H3.
  split; [exact (f_equal fst H1)|]. split; [exact (f_equal fst H2)|]. exact H3.
Defined.

Lemma tcp_connect_gives_up_witness :
  let s' := silence demo_hhdm 6 1001 demo_syn in
  conn_at (g_pcbs demo_syn 0) = 1500 /\ tcp_state s' 0 = TCPS_CLOSED /\ snd (tcp_take_error s' 0) = E_TIMEDOUT.
Proof.
  intros s'. split; [vm_compute; reflexivity|].
  assert (HC : tcp_connect (with_ticks demo_client 1000) 0 0x0A000002 80 = (demo_syn, 0)).
  { assert (R : snd (tcp_connect (with_ticks demo_client 1000) 0 0x0A000002 80) = 0) by (vm_compute; reflexivity).
    rewrite <- R. apply surjective_pairing. }
  assert (N : net_typed (with_ticks demo_client 1000)) by exact (id_typed _ _ _ _ _ demo_idle).
  assert (F : used (g_pcbs (with_ticks demo_client 1000) 0) = true /\ rto_ticks (g_pcbs (with_ticks demo_client 1000) 0) = 0 /\
    retries (g_pcbs (with_ticks demo_client 1000) 0) = 0 /\ tw_at (g_pcbs (with_ticks demo_client 1000) 0) = 0) by (vm_compute; repeat split).
  pose proof (ticks_with demo_client 1000) as Ft. unfold s'. clear s'. revert HC N F Ft. generalize (with_ticks demo_client 1000), demo_syn.
  intros s s1 HC N (F1 & F2 & F3 & F4) Ft. unfold TCP_MAX_PCB.
  destruct (tcp_connect_gives_up demo_hhdm s 0 0x0A000002 80 s1 1001 N ltac:(done) F1 F2 F3 F4 ltac:(lia) ltac:(done) HC) as (H1 & H2 & _).
  split; [exact H1|exact H2].
Defined.

Lemma tcp_close_sends_unwritten_witness :
  let s := demo_end 80 1000 5000 in
  let '(s', r) := tcp_close_write demo_hhdm s 0 in
  r = 0 /\ tcp_state s' 0 = TCPS_ESTABLISHED /\ fin_sent (g_pcbs s' 0) = false /\ Z.of_nat (length (out s')) = 1.
Proof.
  pose proof (tcp_close_sends_unwritten demo_hhdm (demo_end 80 1000 5000) 0 1000 (proj1 demo_opened) eq_refl eq_refl eq_refl eq_refl) as H.
  cbv zeta in *. destruct (tcp_close_write _ _ _) as [s' r]. destruct H as (H1 & H2 & _ & H3 & d & seg & H4 & _).
  split; [exact H1|]. split; [exact H2|]. split; [exact H3|]. rewrite H4. reflexivity.
Defined.

Lemma tcp_fin_reads_as_byte_witness :
  let s := demo_end 80 1000 5000 in
  let s1 := input_text demo_hhdm s 0 (rcv_nxt (g_pcbs s 0)) [] (Z.lor TCP_FIN TCP_ACK) in
  let '(_, data) := tcp_read demo_hhdm s1 0 4096 false in rcv_nxt (g_pcbs s 0) = 5001 /\ tcp_eof s1 0 = false /\ data = [0].
Proof.
  assert (T : pcb_typed (g_pcbs (demo_end 80 1000 5000) 0)) by by constructor.
  pose proof (tcp_fin_reads_as_byte demo_hhdm (demo_end 80 1000 5000) 0 T eq_refl eq_refl) as H. cbv zeta in *.
  destruct (tcp_read _ _ _ _ _) as [s2 data]. destruct H as (_ & _ & H1 & H2 & _).
  split; [reflexivity|]. split; [exact H1|]. rewrite H2. reflexivity.
Defined.
