(* ===== verification/TcpMachine.v ===== *)
(** * The state machine of Tcp, event by event

    [next] is the state diagram of RFC 793 as a function: for each event of a
    host (a call of the socket layer, a segment, a tick) it gives the state of
    every block afterwards from the states, the sequence numbers and the flags
    before.  Buffers, windows, timers' values and the segments sent do not
    occur in it.  The theorem says that the code takes exactly these steps. *)
From S2P Require Import Prelude Mem Pmm Net Tcp TcpSeg TcpState TcpStream TcpConn TcpTimer.
#[local] Open Scope Z_scope.

(** ** The diagram *)

Inductive event :=
| New | Destroy (i : Z) | Bind (i ip port : Z) | Listen (i : Z) | Connect (i ip port : Z) | Accept (i : Z)
| Write (i : Z) (buf : list Z) | CloseWrite (i : Z) | ShutdownRead (i : Z) | Read (i len : Z) (peek : bool)
| TakeError (i : Z) | Input (src dst : Z) (seg : list Z) | Tick (t : Z).

(** Our FIN goes out. *)
Definition close_out (st : Z) : Z :=
  if st =? TCPS_ESTABLISHED then TCPS_FIN_WAIT_1 else if st =? TCPS_CLOSE_WAIT then TCPS_LAST_ACK else st.
(** Our FIN is acknowledged. *)
Definition close_acked (st : Z) : Z :=
  if st =? TCPS_FIN_WAIT_1 then TCPS_FIN_WAIT_2 else if st =? TCPS_CLOSING then TCPS_TIME_WAIT
  else if st =? TCPS_LAST_ACK then TCPS_CLOSED else st.
(** The peer's FIN arrives in order; [done] when ours has been acknowledged before. *)
Definition peer_close (done : bool) (st : Z) : Z :=
  if st =? TCPS_ESTABLISHED then TCPS_CLOSE_WAIT
  else if st =? TCPS_FIN_WAIT_1 then (if done then TCPS_TIME_WAIT else TCPS_CLOSING)
  else if st =? TCPS_FIN_WAIT_2 then TCPS_TIME_WAIT else st.

(** A segment acknowledges something new, and what is then unacknowledged. *)
Definition new_ack (p : pcb) (sack : Z) : bool := seq_lt (snd_una p) sack && seq_leq sack (snd_nxt p).
Definition una_after (p : pcb) (sack : Z) : Z := if new_ack p sack then sack else snd_una p.
Definition ack_next (p : pcb) (sack : Z) (fin_out : bool) : Z :=
  if state p =? TCPS_SYN_RCVD then TCPS_ESTABLISHED
  else if fin_sent p && (una_after p sack =? snd_nxt p) then close_acked (state p)
  else if fin_out then close_out (state p) else state p.

(** A segment for the connection of block [p]; [fin_out] when taking it lets
    our FIN out. *)
Definition segment_next (p : pcb) (seg : list Z) (fin_out : bool) : Z :=
  let flags := seg_flags seg in
  let sack := net_get32 seg 8 in
  if bit flags TCP_RST then TCPS_CLOSED
  else if state p =? TCPS_SYN_SENT then
    if bit flags TCP_SYN && bit flags TCP_ACK && (sack =? snd_nxt p) then TCPS_ESTABLISHED else TCPS_SYN_SENT
  else if bit flags TCP_ACK && (state p =? TCPS_SYN_RCVD) && negb (sack =? snd_nxt p) then TCPS_SYN_RCVD
  else
    let st := if bit flags TCP_ACK then ack_next p sack fin_out else state p in
    let done := negb (bit flags TCP_ACK) && fin_sent p && (snd_una p =? snd_nxt p) in
    if bit flags TCP_FIN && (net_get32 seg 4 =? rcv_nxt p) then peer_close done st else st.

(** The timer that gives up, the connect deadline or TIME_WAIT's end is due. *)
Definition tick_next (t : Z) (p : pcb) : Z :=
  if (due t (rto_at p) && (TCP_MAX_RETRIES <=? retries p)) || due t (conn_at p) || due t (tw_at p) then TCPS_CLOSED else state p.

(** The block the next allocation takes, and whether its two rings can be had. *)
Definition free_slot (s : net) : option Z := List.find (fun i => negb (used (g_pcbs s i))) (seqZ 0 TCP_MAX_PCB).
Definition two_pages (pm : pmm) : bool :=
  let '(pm1, a) := pmm_alloc pm in let '(_, b) := pmm_alloc pm1 in negb (a =? 0) && negb (b =? 0).
Definition born (s : net) (j : Z) : bool :=
  bool_decide (free_slot s = Some j) && two_pages (n_pmm s).

(** A segment the host looks at: long enough, its checksum right. *)
Definition segment_ok (src dst : Z) (seg : list Z) : bool :=
  let hdrlen := Z.shiftr (aget 0 seg 12) 4 * 4 in
  (20 <=? alen seg) && (net_checksum_pseudo src dst IP_PROTO_TCP seg =? 0) && (20 <=? hdrlen) && (hdrlen <=? alen seg).
Definition segment_block (s : net) (src dst : Z) (seg : list Z) : option Z :=
  pcb_lookup s src dst (net_get16 seg 0) (net_get16 seg 2).

(** The state of block [j] after [e], of which [r] is the result; [fin_out]
    when [e] made the block send its FIN. *)
Definition next (s : net) (e : event) (r : Z) (fin_out : bool) (j : Z) : option Z :=
  let p := g_pcbs s j in
  let move st := if used p then Some st else None in
  match e with
  | New => if born s j then Some TCPS_CLOSED else seen p
  | Destroy i => if j =? i then None else seen p
  | Listen i => if (j =? i) && (state p =? TCPS_CLOSED) && (r =? 0) then move TCPS_LISTEN else seen p
  | Connect i _ _ => if (j =? i) && (state p =? TCPS_CLOSED) && (r =? 0) then move TCPS_SYN_SENT else seen p
  | CloseWrite i => if (j =? i) && fin_out then move (close_out (state p)) else seen p
  | Input src dst seg =>
      if segment_ok src dst seg then
        match segment_block s src dst seg with
        | None => seen p
        | Some i =>
            let flags := seg_flags seg in
            if state (g_pcbs s i) =? TCPS_LISTEN then
              if bit flags TCP_SYN && negb (bit flags TCP_RST) && negb (bit flags TCP_ACK) && born s j
              then Some TCPS_SYN_RCVD else seen p
            else if j =? i then move (segment_next p seg fin_out) else seen p
        end
      else seen p
  | Tick t => if (0 <=? j) && (j <? TCP_MAX_PCB) then move (tick_next t p) else seen p
  | _ => seen p
  end.

Section Machine.
Context (hhdm ra : Z).
Implicit Types (s : net).

(** The host's step, and the call's result. *)
Definition exec s (e : event) : net * Z :=
  match e with
  | New => (fst (tcp_new hhdm ra s), 0)
  | Destroy i => (tcp_destroy ra s i, 0)
  | Bind i ip port => tcp_bind s i ip port
  | Listen i => tcp_listen s i
  | Connect i ip port => tcp_connect s i ip port
  | Accept i => (fst (tcp_accept s i), 0)
  | Write i buf => tcp_write hhdm s i buf
  | CloseWrite i => tcp_close_write hhdm s i
  | ShutdownRead i => (tcp_shutdown_read s i, 0)
  | Read i len peek => (fst (tcp_read hhdm s i len peek), 0)
  | TakeError i => tcp_take_error s i
  | Input src dst seg => (tcp_input hhdm ra s src dst seg, 0)
  | Tick t => (tcp_tick hhdm (with_ticks s t), 0)
  end.

Definition sends_fin (p p' : pcb) : bool := negb (fin_sent p) && fin_sent p'.

(** ** What the parts of the operations do to a block's state *)

(** The fields the diagram reads. *)
Definition same_view (p p' : pcb) : Prop :=
  used p' = used p /\ state p' = state p /\ fin_sent p' = fin_sent p /\ snd_una p' = snd_una p /\ snd_nxt p' = snd_nxt p /\
  rcv_nxt p' = rcv_nxt p /\ snd_mss p' = snd_mss p.

(** Sending: at most the FIN, after at most one segment of data. *)
Definition sent_view (p p' : pcb) : Prop :=
  used p' = used p /\ snd_una p' = snd_una p /\ rcv_nxt p' = rcv_nxt p /\
  if sends_fin p p'
  then can_send p = true /\ state p' = close_out (state p) /\
       exists n, 0 <= n <= snd_mss p /\ snd_nxt p' = u32 (u32 (snd_nxt p + n) + 1)
  else state p' = state p /\ fin_sent p' = fin_sent p.

Lemma sendable_mss p : pcb_typed p -> 0 <= sendable p <= snd_mss p.
Proof.
  intros T. destruct (sendable_bounds p T) as [B _]. split; [apply B|]. clear B. unfold sendable, min3. cbv zeta.
  repeat match goal with |- context [if ?a <? ?b then _ else _] => destruct (Z.ltb_spec a b) end; lia.
Qed.

Lemma output_sent s i : pcb_typed (g_pcbs s i) ->
  sent_view (g_pcbs s i) (g_pcbs (tcp_output hhdm s i) i) /\
  (can_send (g_pcbs s i) = false -> tcp_output hhdm s i = s).
Proof.
  intros T. unfold tcp_output. destruct (can_send (g_pcbs s i)) eqn:Ec; cbn [negb].
  2:{ split; [|done]. unfold sent_view, sends_fin. split; [done|]. split; [done|]. split; [done|].
      by destruct (fin_sent (g_pcbs s i)). }
  split; [|done]. set (s1 := output_data hhdm s i). set (p := g_pcbs s i) in *.
  assert (E1 : exists n, 0 <= n <= snd_mss p /\ used (g_pcbs s1 i) = used p /\ state (g_pcbs s1 i) = state p /\
    fin_sent (g_pcbs s1 i) = fin_sent p /\ snd_una (g_pcbs s1 i) = snd_una p /\ rcv_nxt (g_pcbs s1 i) = rcv_nxt p /\
    snd_nxt (g_pcbs s1 i) = u32 (snd_nxt p + n)).
  { pose proof (sendable_mss p T) as B. unfold s1, output_data, rto_arm. cbv zeta. fold p. destruct (Z.eqb_spec (sendable p) 0) as [E|E].
    - exists 0. split; [destruct T; lia|]. fold p. rewrite Z.add_0_r, u32_small by exact (ty_nxt _ T). done.
    - exists (sendable p). rewrite !edit_eq. done. }
  destruct E1 as (n & Hn & U1 & S1 & F1 & A1 & R1 & N1). clearbody s1. unfold output_fin. cbv zeta.
  destruct (fin_queued (g_pcbs s1 i) && negb (fin_sent (g_pcbs s1 i)) && (snd_nxt (g_pcbs s1 i) =? snd_end (g_pcbs s1 i))) eqn:Eq.
  - apply andb_true_iff in Eq as [Eq _]. apply andb_true_iff in Eq as [_ Eq]. rewrite F1 in Eq. apply negb_true_iff in Eq.
    set (s2 := rto_arm _ i).
    assert (E2 : used (g_pcbs s2 i) = used p /\ state (g_pcbs s2 i) = state p /\ fin_sent (g_pcbs s2 i) = true /\
      snd_una (g_pcbs s2 i) = snd_una p /\ rcv_nxt (g_pcbs s2 i) = rcv_nxt p /\
      snd_nxt (g_pcbs s2 i) = u32 (u32 (snd_nxt p + n) + 1)).
    { unfold s2, rto_arm. rewrite !edit_eq. cbn. rewrite U1, S1, A1, R1, N1. done. }
    clearbody s2. destruct E2 as (U2 & S2 & F2 & A2 & R2 & N2).
    rewrite S1. unfold sent_view, sends_fin, close_out.
    destruct (Z.eqb_spec (state p) TCPS_ESTABLISHED) as [E|];
      [|destruct (Z.eqb_spec (state p) TCPS_CLOSE_WAIT) as [E|]]; rewrite ?edit_eq;
      cbn [used snd_una rcv_nxt fin_sent state snd_nxt set_state]; rewrite U2, A2, R2, F2, Eq; cbn [negb andb];
      repeat (split; [first [done | exact S2 | exact Ec]|]); exists n; split; first [exact Hn | exact N2].
  - split; [exact U1|]. split; [exact A1|]. split; [exact R1|]. unfold sends_fin. rewrite F1. by destruct (fin_sent p).
Qed.

Lemma fin_acked_view s i : let p := g_pcbs s i in let p' := g_pcbs (fin_acked s i) i in
  used p' = used p /\ fin_sent p' = fin_sent p /\ snd_una p' = snd_una p /\ snd_nxt p' = snd_nxt p /\ rcv_nxt p' = rcv_nxt p /\
  state p' = (if fin_sent p && (snd_una p =? snd_nxt p) then close_acked (state p) else state p).
Proof.
  cbv zeta. unfold fin_acked, close_acked. cbv zeta. destruct (fin_sent (g_pcbs s i) && _); [|done].
  destruct (state (g_pcbs s i) =? TCPS_FIN_WAIT_1); [by rewrite edit_eq|].
  destruct (state (g_pcbs s i) =? TCPS_CLOSING); [by rewrite edit_eq|].
  destruct (state (g_pcbs s i) =? TCPS_LAST_ACK); [by rewrite edit_eq|done].
Qed.

(** After an acknowledgement FIN_WAIT_1 means that the FIN is still out. *)
Lemma fin_acked_open s i : let p' := g_pcbs (fin_acked s i) i in
  state p' = TCPS_FIN_WAIT_1 -> fin_sent p' && (snd_una p' =? snd_nxt p') = false.
Proof.
  cbv zeta. destruct (fin_acked_view s i) as (_ & -> & -> & -> & _ & ->).
  destruct (fin_sent _ && _); [|done]. unfold close_acked.
  repeat match goal with |- context [if ?a =? ?b then _ else _] => destruct (Z.eqb_spec a b) as [E|] end; try discriminate. congruence.
Qed.

(** What has just been sent is not acknowledged yet. *)
Lemma fin_in_flight una nxt sack n : w32 una -> w32 nxt -> w32 sack -> 0 <= n <= TCP_MSS ->
  seq_lt una sack && seq_leq sack nxt = true -> sack <> u32 (u32 (nxt + n) + 1).
Proof.
  intros Hu Hn Hs Hm H E. apply andb_true_iff in H as [_ H]. unfold seq_leq in H. apply Z.leb_le in H.
  unfold s32, sgn, u32, w32, TCP_MSS, NET_MTU in *. change (32 - 1) with 31 in H.
  rewrite Zplus_mod_idemp_l in E. rewrite E in H.
  destruct (Z.ltb_spec (((nxt + n + 1) mod 2 ^ 32 - nxt) mod 2 ^ 32) (2 ^ 31)) as [|Q];
    rewrite Zminus_mod_idemp_l in *; replace (nxt + n + 1 - nxt) with (n + 1) in * by lia; rewrite Z.mod_small in * by lia; lia.
Qed.

(** An acknowledgement, whichever way it is taken. *)
Definition acked_view (p p' : pcb) (sack : Z) : Prop :=
  used p' = used p /\ rcv_nxt p' = rcv_nxt p /\ state p' = ack_next p sack (sends_fin p p') /\
  (state p' = TCPS_FIN_WAIT_1 -> fin_sent p' && (snd_una p' =? snd_nxt p') = false).

(** The edits of the timer and the windows that an acknowledgement makes. *)
Lemma same_view_trans p1 p2 p3 : same_view p1 p2 -> same_view p2 p3 -> same_view p1 p3.
Proof. unfold same_view. intros (?&?&?&?&?&?&?) (?&?&?&?&?&?&?). split_and!; congruence. Qed.

Lemma retry_view t p : retries p = 0 -> same_view p (retried t p).
Proof. intros R. unfold retried. simpl. rewrite R. by unfold same_view. Qed.

Lemma duplicate_view s i : same_view (g_pcbs s i) (g_pcbs (ack_duplicate hhdm s i) i).
Proof.
  unfold ack_duplicate. cbv zeta. set (s1 := edit s i _).
  assert (V : same_view (g_pcbs s i) (g_pcbs s1 i)) by (unfold s1; rewrite edit_eq; by unfold same_view).
  clearbody s1. destruct (_ =? 3); [|exact V].
  match goal with |- context [tcp_retransmit hhdm ?x i] => destruct (retransmit_block hhdm x i) as [-> _] end.
  rewrite edit_eq. eapply same_view_trans; [|apply retry_view; done]. eapply same_view_trans; [exact V|]. by unfold same_view.
Qed.

Lemma progress_view s i sack : pcb_typed (g_pcbs s i) -> w32 sack ->
  exists q, same_view (set_snd_una sack (g_pcbs s i)) q /\ sent_view q (g_pcbs (ack_progress hhdm s i sack) i) /\
    (can_send q = false -> g_pcbs (ack_progress hhdm s i sack) i = q).
Proof.
  intros T Hs. unfold ack_progress. cbv zeta. set (s1 := edit s i _).
  assert (B1 : on_block i s s1).
  { apply block_edit. constructor; [done|done|]. typed. }
  assert (V1 : same_view (set_snd_una sack (g_pcbs s i)) (g_pcbs s1 i)) by (unfold s1; rewrite edit_eq; by unfold same_view).
  clearbody s1. set (s2 := if _ : bool then _ else _).
  assert (V2 : same_view (g_pcbs s1 i) (g_pcbs s2 i) /\ pcb_typed (g_pcbs s2 i)).
  { assert (B2 : on_block i s1 s2) by (unfold s2; destruct (_ =? _); [apply block_edit; good|apply block_rto_arm]).
    split; [|by apply (ob_typed _ _ _ B2), (ob_typed _ _ _ B1)].
    unfold s2, rto_arm. destruct (_ =? _); rewrite edit_eq; by unfold same_view. }
  clearbody s2. destruct V2 as [V2 T2]. exists (g_pcbs s2 i). split; [by eapply same_view_trans|].
  destruct (output_sent s2 i T2) as [O1 O2]. split; [exact O1|]. intros H. by rewrite O2.
Qed.

Lemma can_send_close p : can_send p = true -> close_acked (state p) = state p.
Proof.
  unfold can_send, close_acked. intros H. apply orb_true_iff in H as [H|H]; apply Z.eqb_eq in H; by rewrite H.
Qed.

Lemma input_ack_view s i sack : pcb_typed (g_pcbs s i) -> w32 sack ->
  match input_ack hhdm s i sack with
  | None => state (g_pcbs s i) = TCPS_SYN_RCVD /\ sack <> snd_nxt (g_pcbs s i)
  | Some s' => (state (g_pcbs s i) = TCPS_SYN_RCVD -> sack = snd_nxt (g_pcbs s i)) /\
      acked_view (g_pcbs s i) (g_pcbs s' i) sack
  end.
Proof.
  intros T Hs. unfold input_ack. cbv zeta. set (p := g_pcbs s i) in *.
  destruct (Z.eqb_spec (state p) TCPS_SYN_RCVD) as [E|Hne].
  - destruct (Z.eqb_spec sack (snd_nxt p)) as [Ea|]; cbn [negb]; [|done]. split; [done|].
    set (s1 := edit s i _). set (s2 := queue_child s1 i).
    assert (E2 : g_pcbs s2 i = g_pcbs s1 i).
    { unfold s2, queue_child. destruct (parent (g_pcbs s1 i)) as [q|]; [|done]. cbv zeta. destruct (_ && _) eqn:C; [|done].
      apply edit_ne. intros <-. unfold s1 in C. rewrite edit_eq in C. cbn in C. rewrite andb_false_r in C. discriminate. }
    assert (V : used (g_pcbs s1 i) = used p /\ rcv_nxt (g_pcbs s1 i) = rcv_nxt p /\ state (g_pcbs s1 i) = TCPS_ESTABLISHED /\
      fin_sent (g_pcbs s1 i) = fin_sent p) by (unfold s1; by rewrite edit_eq).
    clearbody s1. clearbody s2. destruct V as (V1 & V2 & V3 & V4). destruct (fin_acked_view s2 i) as (F1 & F2 & _ & _ & F5 & F6).
    rewrite E2 in *. rewrite V3 in F6. assert (F6' : state (g_pcbs (fin_acked s2 i) i) = TCPS_ESTABLISHED) by (rewrite F6; by destruct (_ && _)).
    unfold acked_view. rewrite F1, F5, F6'. split; [done|]. split; [done|]. split; [|discriminate].
    unfold ack_next. by rewrite E.
  - destruct (seq_lt (snd_una p) sack && seq_leq sack (snd_nxt p)) eqn:Enew.
    2:{ assert (V : forall s1, same_view p (g_pcbs s1 i) -> acked_view p (g_pcbs (fin_acked s1 i) i) sack).
        { intros s1 (V1 & V2 & V3 & V4 & V5 & V6 & _). destruct (fin_acked_view s1 i) as (F1 & F2 & _ & _ & F5 & F6).
          unfold acked_view. split; [congruence|]. split; [congruence|]. split; [|apply fin_acked_open].
          rewrite F6, V2, V3, V4, V5. unfold ack_next, una_after, new_ack. rewrite Enew. apply Z.eqb_neq in Hne. rewrite Hne.
          unfold sends_fin. rewrite F2, V3. by destruct (fin_sent p). }
        destruct (seq_lt (snd_una p) (snd_nxt p)); (split; [done|]); apply V; [apply duplicate_view | by unfold same_view]. }
    split; [done|]. destruct (progress_view s i sack T Hs) as (q & (Q1 & Q2 & Q3 & Q4 & Q5 & Q6 & Q7) & O1 & O2).
    cbn [used state fin_sent snd_una snd_nxt rcv_nxt snd_mss set_snd_una] in *. fold p in Q1, Q2, Q3, Q4, Q5, Q6, Q7.
    set (s1 := ack_progress hhdm s i sack) in *. clearbody s1. destruct (fin_acked_view s1 i) as (F1 & F2 & _ & _ & F5 & F6).
    destruct O1 as (P1 & P2 & P3 & P4). unfold acked_view. split; [congruence|]. split; [congruence|]. split; [|apply fin_acked_open].
    rewrite F6. unfold ack_next, una_after, new_ack. rewrite Enew. apply Z.eqb_neq in Hne. rewrite Hne.
    assert (Es : sends_fin p (g_pcbs (fin_acked s1 i) i) = sends_fin q (g_pcbs s1 i)) by (unfold sends_fin; by rewrite F2, Q3).
    rewrite Es. destruct (sends_fin q (g_pcbs s1 i)) eqn:Ef.
    + destruct P4 as (P5 & P6 & n & Hn & P7). unfold sends_fin in Ef. apply andb_true_iff in Ef as [Ef1 Ef2].
      apply negb_true_iff in Ef1. rewrite Q3 in Ef1. rewrite Ef1. cbn [andb]. rewrite P2, P7, Q4, Q5, P6, Q2.
      destruct (Z.eqb_spec sack (u32 (u32 (snd_nxt p + n) + 1))) as [X|]; [|by rewrite andb_false_r].
      exfalso. revert X. apply (fin_in_flight (snd_una p)); [apply T | apply T | done | rewrite Q7 in Hn; destruct T; lia | done].
    + destruct P4 as (P5 & P6). rewrite P5, P6, P2, Q2, Q3, Q4. destruct (can_send q) eqn:Ec.
      * pose proof (can_send_close q Ec) as K. rewrite Q2 in K. rewrite K.
        by repeat match goal with |- context [if ?b then _ else _] => destruct b end.
      * by rewrite (O2 eq_refl), Q5.
Qed.

(** The text of a segment, and its FIN. *)
Lemma input_fin_view s i : let p := g_pcbs s i in let p' := g_pcbs (input_fin s i) i in
  used p' = used p /\ fin_sent p' = fin_sent p /\
  state p' = peer_close (fin_sent p && (snd_una p =? snd_nxt p)) (state p).
Proof.
  cbv zeta. unfold input_fin, peer_close. cbv zeta. rewrite !edit_eq. cbn [state fin_sent snd_una snd_nxt set_fin_seen set_rcv_nxt].
  destruct (state (g_pcbs s i) =? TCPS_ESTABLISHED); [by rewrite !edit_eq|].
  destruct (state (g_pcbs s i) =? TCPS_FIN_WAIT_1); [destruct (_ && _); by rewrite !edit_eq|].
  destruct (state (g_pcbs s i) =? TCPS_FIN_WAIT_2); by rewrite !edit_eq.
Qed.

Lemma input_data_view s i data : same_view (set_rcv_nxt (rcv_nxt (g_pcbs (input_data hhdm s i data) i)) (g_pcbs s i))
  (g_pcbs (input_data hhdm s i data) i).
Proof. unfold input_data. cbv zeta. rewrite edit_eq. unfold same_view. by destruct (rx_shutdown (g_pcbs s i)). Qed.

Lemma input_text_view s i sseq data flags : let p := g_pcbs s i in
  let p' := g_pcbs (input_text hhdm s i sseq data flags) i in
  used p' = used p /\ fin_sent p' = fin_sent p /\
  state p' = (if bit flags TCP_FIN && (sseq =? rcv_nxt p) then peer_close (fin_sent p && (snd_una p =? snd_nxt p)) (state p) else state p).
Proof.
  cbv zeta. unfold input_text. cbv zeta. set (p := g_pcbs s i).
  destruct (Z.eqb_spec (state p) TCPS_CLOSED) as [E|Hc].
  { split; [done|]. split; [done|]. fold p. rewrite E. by destruct (_ && _). }
  destruct (sseq =? rcv_nxt p); cbn [negb].
  2:{ rewrite andb_false_r. destruct (_ || _); done. }
  rewrite andb_true_r. set (s1 := if alen data =? 0 then s else _).
  assert (V1 : used (g_pcbs s1 i) = used p /\ fin_sent (g_pcbs s1 i) = fin_sent p /\ state (g_pcbs s1 i) = state p /\
    snd_una (g_pcbs s1 i) = snd_una p /\ snd_nxt (g_pcbs s1 i) = snd_nxt p).
  { unfold s1. destruct (alen data =? 0); [done|]. destruct (input_data_view s i data) as (A1 & A2 & A3 & A4 & A5 & _). done. }
  clearbody s1. destruct V1 as (A1 & A2 & A3 & A4 & A5). set (s2 := if bit flags TCP_FIN then input_fin s1 i else s1).
  assert (V2 : used (g_pcbs s2 i) = used p /\ fin_sent (g_pcbs s2 i) = fin_sent p /\ state (g_pcbs s2 i) =
    (if bit flags TCP_FIN then peer_close (fin_sent p && (snd_una p =? snd_nxt p)) (state p) else state p)).
  { unfold s2. destruct (bit flags TCP_FIN); [|done]. destruct (input_fin_view s1 i) as (B1 & B2 & B3).
    rewrite B1, B2, B3, A1, A2, A3, A4, A5. done. }
  clearbody s2. destruct (_ || _); exact V2.
Qed.

(** ** Allocation and release *)

Lemma alloc_exact s : snd (pcb_alloc hhdm ra s) =
  match free_slot s with Some i => if two_pages (n_pmm s) then Some i else None | None => None end.
Proof.
  unfold pcb_alloc, free_slot. destruct (List.find _ _) as [i|]; [|done]. unfold pcb_setup, alloc_page, two_pages, pmm_alloc_zeroed.
  cbn [with_pcb n_pmm n_mem]. destruct (pmm_alloc (n_pmm s)) as [pm a]. cbn [edit with_pcb with_pmm n_pmm n_mem].
  destruct (pmm_alloc pm) as [pm' b]. rewrite <- negb_orb. by destruct ((a =? 0) || (b =? 0)).
Qed.

Lemma born_unused s j : born s j = true -> used (g_pcbs s j) = false.
Proof.
  unfold born. intros H. apply andb_true_iff in H as [H _]. apply bool_decide_eq_true in H. unfold free_slot in H.
  apply find_some in H as [_ H]. by apply negb_true_iff.
Qed.

Lemma new_seen s j : seen (g_pcbs (fst (pcb_alloc hhdm ra s)) j) = if born s j then Some TCPS_CLOSED else seen (g_pcbs s j).
Proof.
  pose proof (alloc_exact s) as X. pose proof (pcb_alloc_cases hhdm ra s) as C. unfold born.
  destruct (pcb_alloc hhdm ra s) as [s' [i|]]; cbn [fst snd] in *.
  - destruct (free_slot s) as [k|]; [|done]. destruct (two_pages (n_pmm s)); [|done]. injection X as ->. rewrite andb_true_r.
    destruct C as (_ & Hu & O & rx & tx & E). destruct (bool_decide_reflect (Some k = Some j)) as [[= ->]|Hne]; [by rewrite E|].
    rewrite (oa_others _ _ _ O); [done|congruence].
  - assert (B : bool_decide (free_slot s = Some j) && two_pages (n_pmm s) = false).
    { destruct (bool_decide_reflect (free_slot s = Some j)) as [E|]; [|done]. rewrite E in X. by destruct (two_pages (n_pmm s)). }
    rewrite B. destruct C as [-> |(i & Hu & O & Hu' & _)]; [done|]. destruct (Z.eq_dec j i) as [->|Hj]; [|by rewrite (oa_others _ _ _ O)].
    unfold seen. by rewrite Hu, Hu'.
Qed.

Lemma child_seen s l src dst seg hdrlen j : used (g_pcbs s l) = true ->
  let s' := syn_arrived hhdm ra s l src dst seg hdrlen in
  seen (g_pcbs s' j) = (if born s j then Some TCPS_SYN_RCVD else seen (g_pcbs s j)) /\
  (born s j = true -> parent (g_pcbs s' j) = Some l).
Proof.
  intros Hl. cbv zeta. unfold syn_arrived. pose proof (new_seen s j) as N. pose proof (alloc_exact s) as X.
  pose proof (pcb_alloc_cases hhdm ra s) as C. destruct (pcb_alloc hhdm ra s) as [s1 [c|]]; cbn [fst snd] in *.
  2:{ rewrite N. destruct (born s j) eqn:B; [|done]. exfalso. unfold born in B. apply andb_true_iff in B as [B1 B2].
      apply bool_decide_eq_true in B1. by rewrite B1, B2 in X. }
  destruct C as (_ & Hu & O & rx & tx & E). pose proof (next_iss_spec s1) as I. destruct (next_iss s1) as [s1' iss].
  destruct I as (_ & Ep & _). cbv zeta. match goal with |- context [tcp_emit ?x _ _ _ _] => set (s2 := x) end.
  assert (E2 : used (g_pcbs s2 c) = true /\ state (g_pcbs s2 c) = TCPS_SYN_RCVD /\ parent (g_pcbs s2 c) = Some l).
  { unfold s2. rewrite edit_eq, Ep. cbv beta zeta.
    match goal with |- context [mss_from_options seg hdrlen ?p] => destruct (mss_from_options_fields seg hdrlen p) as (m & -> & _) end.
    by rewrite E. }
  assert (O2 : forall k, k <> c -> g_pcbs s2 k = g_pcbs s1 k) by (intros k Hk; unfold s2; rewrite edit_ne by done; by rewrite Ep).
  clearbody s2. destruct E2 as (U2 & S2 & P2). set (s3 := rto_arm _ c).
  assert (E3 : used (g_pcbs s3 c) = true /\ state (g_pcbs s3 c) = TCPS_SYN_RCVD /\ parent (g_pcbs s3 c) = Some l)
    by (unfold s3, rto_arm; rewrite !edit_eq; cbn; by rewrite U2, S2, P2).
  assert (O3 : forall k, k <> c -> g_pcbs s3 k = g_pcbs s1 k).
  { intros k Hk. unfold s3, rto_arm. rewrite !edit_ne by done. by apply O2. }
  clearbody s3. destruct E3 as (U3 & S3 & P3).
  assert (B : born s j = bool_decide (j = c)).
  { unfold born. destruct (free_slot s) as [k|]; [|done]. destruct (two_pages (n_pmm s)); [|done]. injection X as ->.
    rewrite andb_true_r. apply bool_decide_ext. split; congruence. }
  rewrite B in *. destruct (bool_decide_reflect (j = c)) as [->|Hj]; [unfold seen; by rewrite U3, S3|].
  by rewrite O3, N by done.
Qed.

Lemma destroy_seen s i j : seen (g_pcbs (tcp_destroy ra s i) j) = if j =? i then None else seen (g_pcbs s j).
Proof.
  unfold tcp_destroy. cbv zeta. set (s1 := if aborts _ then _ else _).
  assert (E1 : g_pcbs s1 = g_pcbs s) by (unfold s1; by destruct (aborts _)). clearbody s1.
  set (s2 := match parent _ with Some q => _ | None => _ end).
  assert (E2 : forall k, seen (g_pcbs s2 k) = seen (g_pcbs s k)).
  { intros k. unfold s2. destruct (parent (g_pcbs s i)) as [q|]; [|by rewrite E1].
    destruct (Z.eq_dec k q) as [->|Hk]; [rewrite edit_eq|rewrite edit_ne by done]; by rewrite E1. }
  clearbody s2. destruct (Z.eqb_spec j i) as [->|Hj]; [by rewrite pcb_free_eq|].
  destruct (pcb_free_only ra s2 i) as [O _]. by rewrite O.
Qed.

(** ** Calls *)

Lemma block_seen s s' i j : on_block i s s' -> state (g_pcbs s' i) = state (g_pcbs s i) -> seen (g_pcbs s' j) = seen (g_pcbs s j).
Proof.
  intros B E. unfold seen. destruct (Z.eq_dec j i) as [->|Hj]; [by rewrite (ob_used _ _ _ B), E|]. by rewrite (ob_others _ _ _ B).
Qed.

Lemma write_seen s i buf j : pcb_typed (g_pcbs s i) -> seen (g_pcbs (fst (tcp_write hhdm s i buf)) j) = seen (g_pcbs s j).
Proof.
  intros T. apply (block_seen _ _ i); [apply block_write|]. unfold tcp_write. destruct (negb _); [done|].
  destruct (fin_queued (g_pcbs s i)) eqn:Q; [done|]. cbv zeta. match goal with |- context [if ?n =? 0 then _ else _] => destruct (n =? 0) end; [done|].
  cbn [fst]. set (s1 := edit _ i _).
  assert (E1 : fin_queued (g_pcbs s1 i) = false /\ state (g_pcbs s1 i) = state (g_pcbs s i)) by (unfold s1; rewrite edit_eq; done).
  clearbody s1. destruct E1 as [Q1 <-]. unfold tcp_output. destruct (negb _); [done|].
  assert (E2 : fin_queued (g_pcbs (output_data hhdm s1 i) i) = false /\ state (g_pcbs (output_data hhdm s1 i) i) = state (g_pcbs s1 i)).
  { unfold output_data, rto_arm. cbv zeta. destruct (_ =? 0); [done|]. by rewrite !edit_eq. }
  destruct E2 as [Q2 <-]. unfold output_fin. cbv zeta. by rewrite Q2.
Qed.

Lemma close_write_seen s i j : pcb_typed (g_pcbs s i) ->
  let s' := fst (tcp_close_write hhdm s i) in
  seen (g_pcbs s' j) = (if (j =? i) && sends_fin (g_pcbs s j) (g_pcbs s' j) then
    if used (g_pcbs s j) then Some (close_out (state (g_pcbs s j))) else None else seen (g_pcbs s j)).
Proof.
  intros T. cbv zeta. pose proof (block_close_write hhdm s i) as B. destruct (Z.eqb_spec j i) as [->|Hj].
  2:{ cbn [andb]. by rewrite (ob_others _ _ _ B). }
  cbn [andb]. unfold seen. rewrite (ob_used _ _ _ B). clear B. unfold tcp_close_write. destruct (can_send (g_pcbs s i)) eqn:Ec; cbn [negb fst].
  2:{ unfold sends_fin. by destruct (fin_sent _). }
  set (s1 := edit s i _). assert (E1 : fin_sent (g_pcbs s1 i) = fin_sent (g_pcbs s i) /\ state (g_pcbs s1 i) = state (g_pcbs s i) /\
    pcb_typed (g_pcbs s1 i)) by (unfold s1; rewrite edit_eq; split; [done|]; split; [done|]; revert T; typed).
  clearbody s1. destruct E1 as (F1 & S1 & T1). destruct (output_sent s1 i T1) as [(_ & _ & _ & O) _].
  replace (sends_fin (g_pcbs s i) (g_pcbs (tcp_output hhdm s1 i) i)) with (sends_fin (g_pcbs s1 i) (g_pcbs (tcp_output hhdm s1 i) i))
    by (unfold sends_fin; by rewrite F1).
  destruct (sends_fin _ _); [destruct O as (_ & -> & _) | destruct O as [-> _]]; by rewrite S1.
Qed.

Lemma bind_any_seen s i j : seen (g_pcbs (fst (bind_any s i)) j) = seen (g_pcbs s j).
Proof.
  pose proof (bind_any_spec s i) as B. destruct (bind_any s i) as [s1 ok]. destruct B as (_ & _ & _ & _ & Bo & lp & Bi & _).
  cbn [fst]. destruct (Z.eq_dec j i) as [->|Hj]; [by rewrite Bi|by rewrite Bo].
Qed.

(** The calls that start a closed block. *)
Lemma starts s s1 s2 i j st : (forall k, seen (g_pcbs s1 k) = seen (g_pcbs s k)) -> (forall k, k <> i -> g_pcbs s2 k = g_pcbs s1 k) ->
  used (g_pcbs s2 i) = used (g_pcbs s1 i) -> state (g_pcbs s2 i) = st ->
  seen (g_pcbs s2 j) = (if (j =? i) then if used (g_pcbs s j) then Some st else None else seen (g_pcbs s j)).
Proof.
  intros H1 H2 Hu Hs. destruct (Z.eqb_spec j i) as [->|Hj]; [|by rewrite H2, H1].
  specialize (H1 i). unfold seen in *. rewrite Hu, Hs. by destruct (used (g_pcbs s1 i)), (used (g_pcbs s i)).
Qed.

Lemma listen_seen s i j : let '(s', r) := tcp_listen s i in
  seen (g_pcbs s' j) = (if (j =? i) && (state (g_pcbs s j) =? TCPS_CLOSED) && (r =? 0) then
    if used (g_pcbs s j) then Some TCPS_LISTEN else None else seen (g_pcbs s j)).
Proof.
  unfold tcp_listen. destruct (Z.eqb_spec (state (g_pcbs s i)) TCPS_CLOSED) as [E|Hne]; cbn [negb].
  2:{ by rewrite andb_false_r. }
  pose proof (bind_any_seen s i) as B. destruct (bind_any s i) as [s1 ok]. cbn [fst] in B. destruct ok; cbn [negb].
  - rewrite (starts s s1 _ i j TCPS_LISTEN B); [|intros; by apply edit_ne|by rewrite edit_eq|by rewrite edit_eq].
    destruct (Z.eqb_spec j i) as [->|]; [|done]. by rewrite E.
  - by rewrite andb_false_r, B.
Qed.

Lemma connect_seen s i ip port j : let '(s', r) := tcp_connect s i ip port in
  seen (g_pcbs s' j) = (if (j =? i) && (state (g_pcbs s j) =? TCPS_CLOSED) && (r =? 0) then
    if used (g_pcbs s j) then Some TCPS_SYN_SENT else None else seen (g_pcbs s j)).
Proof.
  unfold tcp_connect. cbv zeta. destruct (Z.eqb_spec (state (g_pcbs s i)) TCPS_CLOSED) as [E|Hne]; cbn [negb].
  2:{ destruct (Z.eqb_spec j i) as [->|]; [|done]. apply Z.eqb_neq in Hne. by rewrite Hne. }
  pose proof (bind_any_seen s i) as B. destruct (bind_any s i) as [s1 ok]. cbn [fst] in B. destruct ok; cbn [negb].
  2:{ by rewrite andb_false_r, B. }
  destruct (net_route_src (g_ifs s1) ip =? 0); [by rewrite andb_false_r, B|].
  pose proof (next_iss_spec s1) as I. destruct (next_iss s1) as [s1' iss]. destruct I as (_ & Ep & _).
  match goal with |- context [tcp_emit ?x _ _ _ _] => set (s2 := x) end.
  assert (E2 : used (g_pcbs s2 i) = used (g_pcbs s1 i) /\ state (g_pcbs s2 i) = TCPS_SYN_SENT) by (unfold s2; by rewrite edit_eq, Ep).
  assert (O2 : forall k, k <> i -> g_pcbs s2 k = g_pcbs s1 k) by (intros k Hk; unfold s2; rewrite edit_ne by done; by rewrite Ep).
  clearbody s2. destruct E2 as [U2 S2]. unfold rto_arm.
  rewrite (starts s s1 _ i j TCPS_SYN_SENT B); [|intros; rewrite !edit_ne by done; by apply O2|rewrite !edit_eq; exact U2|rewrite !edit_eq; exact S2].
  destruct (Z.eqb_spec j i) as [->|]; [|done]. by rewrite E.
Qed.

Lemma accept_seen s i j : seen (g_pcbs (fst (tcp_accept s i)) j) = seen (g_pcbs s j).
Proof.
  unfold tcp_accept. cbv zeta. destruct (if _ : bool then _ else _) as [|c q]; [done|]. cbn [fst].
  destruct (Z.eq_dec j c) as [->|Hc]; [rewrite edit_eq|rewrite edit_ne by done];
    [destruct (Z.eq_dec c i) as [->|Hi] | destruct (Z.eq_dec j i) as [->|Hi]]; rewrite ?edit_eq, ?edit_ne by done; done.
Qed.

(** ** Timers *)

Lemma ticked_seen t p : used (ticked t p) = used p /\ (used p = true -> state (ticked t p) = tick_next t p).
Proof.
  unfold ticked, tick_next. destruct (used p) eqn:U; cbn [negb]; [|by rewrite U]. cbv zeta.
  set (p1 := if due t (rto_at p) then retried t p else p).
  assert (H1 : used p1 = true /\ conn_at p1 = conn_at p /\ tw_at p1 = tw_at p /\
    state p1 = (if due t (rto_at p) && (TCP_MAX_RETRIES <=? retries p) then TCPS_CLOSED else state p)).
  { unfold p1. destruct (due t (rto_at p)); [|done]. unfold retried. cbn [retries set_retries].
    destruct (Z.ltb_spec TCP_MAX_RETRIES (retries p + 1)), (Z.leb_spec TCP_MAX_RETRIES (retries p)); try lia; done. }
  clearbody p1. destruct H1 as (U1 & C1 & W1 & S1). rewrite C1.
  destruct (due t (rto_at p) && _); destruct (due t (conn_at p)); cbn [tw_at set_rto_at set_conn_at set_state set_error]; rewrite W1;
    destruct (due t (tw_at p)); cbn [orb]; by rewrite ?U1, ?S1.
Qed.

Lemma tick_seen s t j : seen (g_pcbs (tcp_tick hhdm (with_ticks s t)) j) =
  if (0 <=? j) && (j <? TCP_MAX_PCB) then if used (g_pcbs s j) then Some (tick_next t (g_pcbs s j)) else None else seen (g_pcbs s j).
Proof.
  destruct ((0 <=? j) && (j <? TCP_MAX_PCB)) eqn:E.
  - apply andb_true_iff in E as [E1 E2]. rewrite tcp_tick_block, ticks_with, pcbs_with by lia.
    destruct (ticked_seen t (g_pcbs s j)) as [U S]. unfold seen. rewrite U. destruct (used (g_pcbs s j)); [by rewrite S|done].
  - destruct (fold_ticks hhdm j _ (with_ticks s t) (NoDup_seqZ 0 TCP_MAX_PCB)) as (_ & _ & O). unfold tcp_tick. rewrite O; [done|].
    rewrite elem_of_seqZ. intros [X1 X2]. apply andb_false_iff in E. unfold TCP_MAX_PCB in *. lia.
Qed.

(** ** Segments *)

Lemma rst_pcbs s src dst seg dlen flags : g_pcbs (tcp_send_rst s src dst seg dlen flags) = g_pcbs s.
Proof. unfold tcp_send_rst. destruct (bit flags TCP_RST); [done|]. cbv zeta. by destruct (bit flags TCP_ACK). Qed.

Lemma syn_ack_bits flags : (Z.land flags (Z.lor TCP_SYN TCP_ACK) =? Z.lor TCP_SYN TCP_ACK) = bit flags TCP_SYN && bit flags TCP_ACK.
Proof.
  unfold bit. change (Z.lor TCP_SYN TCP_ACK) with 18. change TCP_SYN with 2. change TCP_ACK with 16.
  assert (E : forall m, (Z.land flags m =? 0) = true <-> Z.land flags m = 0) by (intros; apply Z.eqb_eq).
  assert (B : forall k, 0 <= k -> (negb (Z.land flags (2 ^ k) =? 0)) = Z.testbit flags k).
  { intros k Hk. destruct (Z.testbit flags k) eqn:T.
    - apply negb_true_iff, Z.eqb_neq. intros Z0. assert (X : Z.testbit (Z.land flags (2 ^ k)) k = true)
        by (rewrite Z.land_spec, T, Z.pow2_bits_true by done; done). by rewrite Z0, Z.bits_0 in X.
    - apply negb_false_iff, Z.eqb_eq. apply Z.bits_inj'. intros n Hn. rewrite Z.land_spec, Z.bits_0.
      destruct (Z.eq_dec n k) as [->|]; [by rewrite T|]. by rewrite (Z.pow2_bits_false k n), andb_false_r by congruence. }
  change 2 with (2 ^ 1) at 1. change 16 with (2 ^ 4) at 1. rewrite !B by done. destruct (Z.eqb_spec (Z.land flags 18) 18) as [H|H].
  - assert (X : forall k, Z.testbit (Z.land flags 18) k = Z.testbit 18 k) by (by rewrite H).
    pose proof (X 1) as X1. pose proof (X 4) as X4. rewrite Z.land_spec in X1, X4.
    change (Z.testbit 18 1) with true in X1. change (Z.testbit 18 4) with true in X4. rewrite andb_true_r in X1, X4. by rewrite X1, X4.
  - symmetry. apply andb_false_iff. destruct (Z.testbit flags 1) eqn:T1; [|by left]. destruct (Z.testbit flags 4) eqn:T4; [|by right].
    exfalso. apply H. apply Z.bits_inj'. intros n Hn. rewrite Z.land_spec. destruct (decide (n = 1 \/ n = 4)) as [[-> | ->]|Hne].
    + by rewrite T1.
    + by rewrite T4.
    + assert (Z.testbit 18 n = false) as ->; [|apply andb_false_r]. destruct (Z.le_gt_cases 5 n); [apply Z.bits_above_log2; [done|cbn; lia]|].
      assert (n = 0 \/ n = 2 \/ n = 3) as [-> |[-> | ->]] by lia; done.
Qed.

Lemma conn_view s i src dst seg hdrlen : pcb_typed (g_pcbs s i) -> Forall byte seg ->
  let p := g_pcbs s i in let p' := g_pcbs (input_conn hhdm s i src dst seg hdrlen (seg_flags seg)) i in
  used p' = used p /\ state p' = segment_next p seg (sends_fin p p').
Proof.
  intros T Hb. cbv zeta. unfold input_conn, segment_next. cbv zeta. set (flags := seg_flags seg). set (p := g_pcbs s i) in *.
  destruct (bit flags TCP_RST); [rewrite edit_eq; done|].
  destruct (Z.eqb_spec (state p) TCPS_SYN_SENT) as [E|Hne].
  { unfold input_syn_sent. rewrite syn_ack_bits. fold p.
    destruct (bit flags TCP_SYN && bit flags TCP_ACK && (net_get32 seg 8 =? snd_nxt p)); [|by fold p].
    cbv zeta. match goal with |- context [tcp_send_ack ?x i] => change (g_pcbs (tcp_send_ack x i)) with (g_pcbs x) end. rewrite edit_eq.
    match goal with |- context [mss_from_options seg hdrlen ?p] => destruct (mss_from_options_fields seg hdrlen p) as (m & -> & _) end. done. }
  pose proof (input_ack_view s i (net_get32 seg 8) T (get32_w32 _ _ Hb)) as A. fold p in A.
  destruct (bit flags TCP_ACK) eqn:Ea; cbn [andb negb].
  - destruct (input_ack hhdm s i (net_get32 seg 8)) as [s1|] eqn:Ei.
    + destruct A as [A1 (U & R & S & Fo)].
      destruct (input_text_view s1 i (net_get32 seg 4) (drop (Z.to_nat hdrlen) seg) flags) as (U2 & F2 & S2).
      assert (Es : sends_fin p (g_pcbs (input_text hhdm s1 i (net_get32 seg 4) (drop (Z.to_nat hdrlen) seg) flags) i) =
        sends_fin p (g_pcbs s1 i)) by (unfold sends_fin; by rewrite F2).
      split; [congruence|]. rewrite Es, S2, R.
      assert (B : (state p =? TCPS_SYN_RCVD) && negb (net_get32 seg 8 =? snd_nxt p) = false).
      { destruct (Z.eqb_spec (state p) TCPS_SYN_RCVD) as [E|]; [|done]. by rewrite (A1 E), Z.eqb_refl. }
      rewrite B, <- S. destruct (bit flags TCP_FIN && (net_get32 seg 4 =? rcv_nxt p)); [|reflexivity].
      unfold peer_close. destruct (Z.eqb_spec (state (g_pcbs s1 i)) TCPS_FIN_WAIT_1) as [E|]; [by rewrite Fo|done].
    + destruct A as [E Hn]. rewrite rst_pcbs. fold p. rewrite E. apply Z.eqb_neq in Hn. by rewrite Hn.
  - destruct (input_text_view s i (net_get32 seg 4) (drop (Z.to_nat hdrlen) seg) flags) as (U2 & F2 & S2). fold p in U2, F2, S2.
    split; [exact U2|]. exact S2.
Qed.

Lemma conn_others s i src dst seg hdrlen flags j : j <> i -> pcb_typed (g_pcbs s i) -> Forall byte seg ->
  seen (g_pcbs (input_conn hhdm s i src dst seg hdrlen flags) j) = seen (g_pcbs s j).
Proof.
  intros Hj T Hb. unfold input_conn. cbv zeta. destruct (bit flags TCP_RST); [by rewrite edit_ne|].
  destruct (Z.eqb_spec (state (g_pcbs s i)) TCPS_SYN_SENT) as [E|].
  { by rewrite (ob_others _ _ _ (block_syn_sent s i seg hdrlen flags Hb E)). }
  assert (K : forall s1, (forall k, k <> i -> seen (g_pcbs s1 k) = seen (g_pcbs s k)) ->
    seen (g_pcbs (input_text hhdm s1 i (net_get32 seg 4) (drop (Z.to_nat hdrlen) seg) flags) j) = seen (g_pcbs s j)).
  { intros s1 H1. rewrite (ob_others _ _ _ (block_input_text hhdm s1 i _ _ _)) by done. by apply H1. }
  destruct (bit flags TCP_ACK); [|by apply K]. destruct (input_ack hhdm s i (net_get32 seg 8)) as [s1|] eqn:Ei; [|by rewrite rst_pcbs].
  apply K. intros k Hk. revert Ei. unfold input_ack. cbv zeta. destruct (state (g_pcbs s i) =? TCPS_SYN_RCVD).
  - destruct (negb _); [done|]. intros [= <-]. rewrite (ob_others _ _ _ (block_fin_acked _ i)) by done.
    unfold queue_child. rewrite edit_eq. destruct (parent _) as [q|]; [|by rewrite edit_ne]. destruct (_ && _); [|by rewrite edit_ne].
    destruct (Z.eq_dec k q) as [->|Hq]; [rewrite edit_eq|rewrite edit_ne by done]; by rewrite edit_ne.
  - destruct (_ && _); [|destruct (seq_lt _ _)]; intros [= <-]; rewrite (ob_others _ _ _ (block_fin_acked _ i)) by done; [| |done].
    + by rewrite (ob_others _ _ _ (block_ack_progress hhdm s i _ (get32_w32 _ _ Hb))).
    + by rewrite (ob_others _ _ _ (block_ack_duplicate hhdm s i)).
Qed.

(** The parts of [tcp_input]. *)
Lemma input_seen s src dst seg j : net_typed s -> Forall byte seg ->
  let s' := tcp_input hhdm ra s src dst seg in
  seen (g_pcbs s' j) = next s (Input src dst seg) 0 (sends_fin (g_pcbs s j) (g_pcbs s' j)) j /\
  (used (g_pcbs s j) = false -> used (g_pcbs s' j) = true -> parent (g_pcbs s' j) = segment_block s src dst seg).
Proof.
  intros [_ T] Hb. cbv zeta. unfold tcp_input, next, segment_ok. cbv zeta.
  rewrite (Z.leb_antisym (alen seg)), (Z.leb_antisym (Z.shiftr (aget 0 seg 12) 4 * 4)), (Z.leb_antisym (alen seg)).
  destruct (alen seg <? 20); cbn [negb andb orb]; [split; congruence|].
  destruct (net_checksum_pseudo src dst IP_PROTO_TCP seg =? 0); cbn [negb andb orb]; [|split; congruence].
  destruct (Z.shiftr (aget 0 seg 12) 4 * 4 <? 20); cbn [negb andb orb]; [split; congruence|].
  destruct (alen seg <? Z.shiftr (aget 0 seg 12) 4 * 4); cbn [negb andb orb]; [split; congruence|].
  fold (segment_block s src dst seg). destruct (segment_block s src dst seg) as [i|] eqn:El.
  2:{ rewrite rst_pcbs. split; congruence. }
  apply pcb_lookup_some in El as [Hi Hu]. destruct (Z.eqb_spec (state (g_pcbs s i)) TCPS_LISTEN) as [E|Hne].
  - unfold input_listen. fold (seg_flags seg). set (flags := seg_flags seg). destruct (bit flags TCP_RST).
    { cbn [negb]. rewrite andb_false_r. cbn [andb]. split; congruence. }
    destruct (bit flags TCP_ACK); [rewrite rst_pcbs; cbn [negb]; rewrite andb_false_r; cbn [andb]; split; congruence|].
    destruct (bit flags TCP_SYN); cbn [andb negb]; [|split; congruence].
    destruct (child_seen s i src dst seg (Z.shiftr (aget 0 seg 12) 4 * 4) j Hu) as [C1 C2]. split; [exact C1|].
    intros U U'. destruct (born s j); [by rewrite C2|]. exfalso. unfold seen in C1. rewrite U, U' in C1. discriminate.
  - fold (seg_flags seg). destruct (Z.eqb_spec j i) as [->|Hj].
    + destruct (conn_view s i src dst seg (Z.shiftr (aget 0 seg 12) 4 * 4) (T i) Hb) as [U S]. split.
      * unfold seen at 1. by rewrite U, Hu, S.
      * intros U1 U2. congruence.
    + pose proof (conn_others s i src dst seg (Z.shiftr (aget 0 seg 12) 4 * 4) (seg_flags seg) j Hj (T i) Hb) as S. split; [exact S|].
      intros U1 U2. unfold seen in S. rewrite U1, U2 in S. discriminate.
Qed.

Lemma bind_seen s i ip port j : seen (g_pcbs (fst (tcp_bind s i ip port)) j) = seen (g_pcbs s j).
Proof.
  unfold tcp_bind. repeat (match goal with |- context [if ?b then _ else _] => destruct b end; [done|]). cbn [fst].
  destruct (Z.eq_dec j i) as [->|Hj]; [by rewrite edit_eq|by rewrite edit_ne].
Qed.

(** ** The property *)

Definition event_ok (e : event) : Prop := match e with Input _ _ seg => Forall byte seg | _ => True end.

(** C8: The code walks the state diagram of RFC 793, event by event.  In any state
    whose fields have their widths (as every reachable state does), after any
    call, segment or tick every block is in exactly the state [next] names, and
    no other.  A call makes the block it allocates CLOSED, frees the one it
    destroys, and moves a CLOSED block to LISTEN or SYN_SENT exactly when it
    succeeds; only closing moves ESTABLISHED to FIN_WAIT_1 and CLOSE_WAIT to
    LAST_ACK, when the FIN goes out, be it in the call or when an acknowledgement
    makes room for it.  A segment moves only the block it belongs to: a reset
    closes it; SYN_SENT opens on SYN and ACK together, SYN_RCVD on an ACK, each
    only if our SYN is what is acknowledged; the acknowledgement of our FIN moves
    FIN_WAIT_1, CLOSING and LAST_ACK on; the peer's FIN, when it is next in
    order, leads to CLOSE_WAIT, to CLOSING or TIME_WAIT by whether our FIN is
    acknowledged, and from FIN_WAIT_2 to TIME_WAIT; a SYN alone makes a child of
    the listening block it found in SYN_RCVD.  A tick closes a block exactly when
    its sixth timeout, its connect deadline or the end of TIME_WAIT is due.  (A
    reset is believed whatever its sequence number, where RFC 793 wants it in
    the window.) *)
Theorem tcp_follows_rfc793 s e j (T : net_typed s) (V : event_ok e) :
  let '(s', r) := exec s e in
  seen (g_pcbs s' j) = next s e r (sends_fin (g_pcbs s j) (g_pcbs s' j)) j /\
  match e with
  | Input src dst seg => used (g_pcbs s j) = false -> used (g_pcbs s' j) = true -> parent (g_pcbs s' j) = segment_block s src dst seg
  | _ => True
  end.
Proof.
  destruct e as [|i|i ip port|i|i ip port|i|i buf|i|i|i len peek|i|src dst seg|t]; cbn [exec next].
  - split; [apply new_seen|done].
  - split; [apply destroy_seen|done].
  - pose proof (bind_seen s i ip port j) as B. by destruct (tcp_bind s i ip port).
  - pose proof (listen_seen s i j) as B. by destruct (tcp_listen s i).
  - pose proof (connect_seen s i ip port j) as B. by destruct (tcp_connect s i ip port).
  - split; [apply accept_seen|done].
  - pose proof (write_seen s i buf j (proj2 T i)) as B. by destruct (tcp_write hhdm s i buf).
  - pose proof (close_write_seen s i j (proj2 T i)) as B. by destruct (tcp_close_write hhdm s i).
  - split; [|done]. unfold tcp_shutdown_read. destruct (Z.eq_dec j i) as [->|Hj]; [by rewrite edit_eq|by rewrite edit_ne].
  - split; [|done]. unfold tcp_read. cbv zeta. cbn [fst]. destruct (_ || _); [done|].
    destruct (Z.eq_dec j i) as [->|Hj]; [by rewrite edit_eq|by rewrite edit_ne].
  - split; [|done]. destruct (Z.eq_dec j i) as [->|Hj]; [by rewrite edit_eq|by rewrite edit_ne].
  - by apply input_seen.
  - split; [apply tick_seen|done].
Qed.
End Machine.

(** An established block, and its peer's FIN. *)
Definition demo_fin : list Z := segment 0x0A000001 0x0A000001 (g_pcbs (demo_end 80 1000 5000) 0) 1001 (Z.lor TCP_FIN TCP_ACK) [].

Lemma demo_end_typed rport iss peer : w16 rport -> 0 <= iss < 10000 -> 0 <= peer < 10000 -> net_typed (demo_end rport iss peer).
Proof.
  unfold w16. intros H1 H2 H3. split; [done|]. intros k. unfold demo_end. cbn [g_pcbs]. destruct (k =? 0); [|apply blank_typed].
  constructor; unfold w32, w16, TCP_MSS, TCP_RTO_MAX, TCP_RTO_TICKS, NET_MTU, TCP_BUF_SIZE; cbn; try lia; done.
Qed.

Lemma tcp_follows_rfc793_witness :
  let s := demo_end 80 5000 1000 in let '(s', _) := exec demo_hhdm 0 s (Input 0x0A000001 0x0A000001 demo_fin) in
  seen (g_pcbs s 0) = Some TCPS_ESTABLISHED /\ seen (g_pcbs s' 0) = Some TCPS_CLOSE_WAIT.
Proof.
  assert (V : event_ok (Input 0x0A000001 0x0A000001 demo_fin)) by (vm_compute; repeat constructor; discriminate).
  pose proof (tcp_follows_rfc793 demo_hhdm 0 (demo_end 80 5000 1000) (Input 0x0A000001 0x0A000001 demo_fin) 0
    (demo_end_typed 80 5000 1000 ltac:(done) ltac:(done) ltac:(done)) V) as H.
  cbn [exec] in *. destruct H as [H _]. split; [vm_compute; reflexivity|]. rewrite H. vm_compute. reflexivity.
Defined.
